(* ===== verification/_CoqProject ===== *)
-Q . S2P
Prelude.v
RustStr.v
ImError.v
Effects.v
Decimal.v
Dto.v
Coordinator.v
Store.v
SyncStore.v
Receipts.v
Outbox.v
Inbox.v
InboxProps.v
InboxFair.v
InboxClaims.v
Lanes.v
LaneProps.v
LaneClaims.v
Wire.v
Snapshot.v
WireProps.v
Recovery.v
RecoveryProps.v
Failure.v
Delta.v
DeltaProps.v
Legacy.v
Baseline.v
BaselineProps.v
Run.v
RunProps.v
RunCursor.v
WireClaims.v
RunClaims.v
Dispatch.v
DispatchProps.v
Worker.v
DispatchClaims.v
ReadState.v
ReadBind.v
ReadProps.v
ReadClaims.v
ReadWire.v
ReadSync.v
ReadSyncProps.v
ReadSyncClaims.v
ReadIds.v
ReadMark.v
ReadMarkProps.v
ReadMarkClaims.v
Persona.v
PersonaProps.v
Peers.v
PeerProject.v
Summaries.v
Mentions.v
Messages.v
SummaryOrder.v
PeerCheck.v
PeerProps.v
SummaryProps.v
SummaryRebuild.v
SummaryDelta.v
SummaryMark.v
PeerProjectProps.v
PeerMigrate.v
PeerRoute.v
PeerResolve.v
SummaryClaims.v
MessageProps.v
MessageTable.v
MessageClaims.v
Resolution.v
ResolutionProps.v
PeerEdges.v
PeerClaims.v
ResolutionClaims.v
CatchUp.v
Groups.v
DeltaState.v
