(* ===== verification/Prelude.v ===== *)
(** * Verification of the AWiki message-sync engine (im-core)

    The part of [src/crates/im-core] that receives messages for one local identity:
    it negotiates with the message service, pages through [sync.delta], recovers
    from compact snapshots, keeps every received input in a durable queue in SQLite,
    hands the inputs out to processing, and writes read state back through an
    outbox. Paths below are relative to [src/crates/im-core/src/].

    ** The parts and how they interact

    A caller asks the coordinator for a sync. The coordinator merges concurrent
    requests of an owner into runs. A run takes the receive lock, begins a run
    generation in the store, talks to the service, commits what it receives in
    transactions that move the owner's cursor and the queue together, and records
    its result. Processing claims inputs from the queue under leases and completes
    them; local read marks go through the outbox. The database is the only state the
    parts share, so each of them is modelled on the same store.

    - [Prelude], [RustStr], [ImError], [Effects], [Decimal], [Dto]: results, lists,
      machine integers, Rust's string operations, [ImError] (error.rs, the
      error kinds used here), the state-and-error monads, decimal text numbers
      (internal/local_state/sync_v2.rs [compare_decimal] and its callers), the public
      request and outcome types (messages/dto.rs).
    - [Coordinator]: internal/message_runtime/sync_coordinator.rs. Its state is one
      slot per owner (active run, pending request, waiters); registration, completion,
      failure and the executor loop are its operations, and [step] is the transition
      relation of registrations and completions in any order.
    - [Store]: the tables of the sync store as one record [Db]. [SyncStore]:
      account bindings, DID cutovers, cursors, run generations and recovery states of
      internal/local_state/sync_v2.rs. [Receipts]: applied-event receipts and their
      pruning. [Outbox]: the local mutation outbox and terminal clean-up.
    - [Inbox], [InboxProps], [InboxFair], [InboxClaims]:
      internal/local_state/sync_inbox.rs, the receive queue with retention, leases,
      claiming, completion, parking and failure.
    - [Lanes], [LaneProps], [LaneClaims]: the secure lanes of
      internal/local_state/sync_v2.rs: cursors, capability negotiation, handoffs,
      domain outcomes, event receipts, P6 blockers.
    - [Wire], [Snapshot], [WireProps]: internal/wire/sync_v2.rs, the strict builders
      and parsers of the protocol, including the paged snapshot package.
    - [Recovery], [RecoveryProps]: the snapshot accumulator and download loop of
      internal/message_runtime/sync_v2.rs.
    - [Failure], [Delta], [DeltaProps]: classification of failures, hydration with its
      retry budget, the checks of a delta page and the commit of its lane sections,
      same file. [WireClaims] states the claims about these parts.
    - [Legacy]: the installation id and the migration of legacy P6 blockers;
      [Baseline]: internal/local_state/sync_baseline.rs with the checkpoints of
      internal/local_state/sync_v2.rs; [BaselineProps] reasons about both.
    - [Run], [RunProps], [RunCursor], [RunClaims]: [receive_run] of
      internal/message_runtime/sync_v2.rs, which composes everything above.
    - [Dispatch], [DispatchProps], [Worker], [DispatchClaims]:
      internal/message_runtime/sync_dispatcher.rs, the background loop that scans the
      queue and starts workers, with its registry, as a step relation over wake-ups,
      polls, task ends, aborts and late guards; and [run_claim], the worker that
      settles a claim, with the failure classes of sync_processing.rs.
    - [ReadState], [ReadBind], [ReadProps], [ReadClaims]: internal/local_state/read_state.rs,
      the watermark functions of internal/local_state/messages.rs and the thread
      bindings, remote read states and local marks of internal/local_state/sync_v2.rs.
    - [ReadWire], [ReadSync], [ReadSyncProps], [ReadSyncClaims]:
      internal/wire/read_state.rs and the drain of the outbox in
      internal/message_runtime/sync_v2.rs, which sends the queued marks.
    - [ReadIds], [ReadMark], [ReadMarkProps], [ReadMarkClaims]: the foreground mark of
      internal/message_runtime/mark_read.rs and messages/service.rs, with the functions
      of internal/local_state/messages.rs that turn message ids into watermarks.
    - [Persona], [PersonaProps]: internal/canonical_identity.rs, the id of a peer derived
      from its verified handle. [Peers]: the tables of internal/local_state/ that file a
      peer and its conversation: peer_personas.rs, peer_identifiers.rs,
      direct_peer_routes.rs, conversation_registry.rs, conversation_aliases.rs,
      did_transition_edges.rs. [PeerProject]: the projection of a verified handle
      with peer_profiles.rs and the repair of foreign_persona_migration.rs. [PeerCheck]:
      canonical_invariants.rs and the invariant behind it. [PeerProps],
      [PeerProjectProps], [PeerMigrate], [PeerRoute], [PeerResolve], [PeerEdges] and
      [PeerClaims] reason about them.
    - [Summaries]: internal/local_state/conversation_summaries.rs, the counts and the last
      message of every conversation, kept by deltas over the message table, with the
      recognition of control payloads of internal/local_state/messages.rs. [SummaryOrder]
      (orders of rows), [SummaryProps] and [SummaryRebuild] (what a rebuild computes),
      [SummaryDelta] (a written message), [SummaryMark] (messages marked read) and
      [SummaryClaims] reason about it.
    - [Mentions]: messages/mention.rs, the strict payload of mentions. [Messages]:
      [upsert_message] of internal/local_state/messages.rs with
      messages/direct_confirmation.rs beside it, which stores a message on top of the
      tables of peers, aliases, read states and summaries. [MessageProps] (its steps),
      [MessageTable] (the rows before and after) and [MessageClaims] reason about it.
    - [Resolution]: internal/local_state/inbound_resolution_backlog.rs, which files an
      inbound message under its peer, holds it back while the peer is not known, and
      replays it when the handle of the peer is projected. [ResolutionProps] (the backlog
      along a replay) and [ResolutionClaims] reason about it.
    - [CatchUp]: [sync_thread_after] of internal/message_runtime/sync.rs,
      which fetches the messages of a thread behind its first gap and stores them, with
      the statements of internal/local_state/messages.rs that find and close gaps, and the
      claims about it.
    - [Groups]: internal/local_state/groups.rs, filing and leaving groups. [DeltaState]:
      internal/local_state/sync_state.rs, the checkpoint of the first sync protocol and the
      transaction that applies one of its pages. Both end with their claims.

    ** What the theorems show

    Coordinator: every caller gets exactly one answer, from a run as recent as it asked
    for, and the coordinator always drains. Queue: a page is durable before its cursor,
    claims are exclusive and fair, an input completes once, a stale attempt is fenced,
    the queue is bounded. Lanes: a lane event is queued before its cursor, cursors do
    not go back, closed outcomes are final, receipts and blockers are exact. Store:
    run generations fence earlier runs, cursors and bindings only move forward,
    pruning and clean-up delete only what is safe. Wire: parsed pages, batches and
    packages are well-formed, lane errors do not touch the ordinary page, events
    re-encode, an admitted page is accepted by the queue, lane pages refine handoffs.
    Run: every request carries the stored cursor, a run ends at its deadline, a
    snapshot and a bootstrap lose nothing, a failure is recorded with the right retry,
    a legacy blocker is never lost. Dispatcher: one loop runs, its counts are exact, no
    wake-up is lost, a worker always settles its claim. Read state: watermarks that can
    be checked only move forward, a remote state is merged by taking the further
    position, a local mark is queued, remote keys and conversations stay one to one,
    a writeback and a foreground mark leave in flight only what the service accepted,
    and message ids are covered by one watermark per conversation. Peers: projections,
    repairs and transitions keep the canonical state, in which the database diagnostics
    find nothing; a projected peer resolves by DID and by handle; a repaired conversation
    lives on as an alias; generations and cached transitions only move forward. Summaries:
    a rebuild counts what its rows say, and the deltas of a written message and of marking
    read are equivalent to a rebuild. Messages: storing one keeps the table in order and the
    summaries those of a rebuild, never loses what a row knew, folds the copies of a group
    message, refuses another identity on the wire; payloads of mentions round-trip. Messages
    held back: ingestion stores or holds every message, and a projection delivers what was
    held back for its peer. Catch-up: a page is asked from before every gap and is sound,
    and closes the empty rows it accounts for. Groups: a security profile is never dropped and
    a group that was left stays left. First protocol: the checkpoint moves only together with
    what a page brings.

    Thirteen theorems state behaviour the code does not intend: a dispatcher loop dropped
    before its first poll is never replaced ([dispatcher_unpolled_stall]), a watermark
    that arrived before its message is overwritten by a lower mark
    ([unhydrated_watermark_lost]), an accepted mark stays in flight after its
    conversation was renamed ([accepted_mark_stuck]), a transition of a repaired
    conversation is refused under its former id ([alias_transition_refused]), a summary keeps
    counting a message that left it as one that does not count ([left_conversation_stale]),
    marking a message that does not count lowers the unread count ([uncounted_marked]), a
    group message read under another id is unread again ([read_copy_forgotten]), a held
    message that conflicts with a stored one keeps its peer from being projected
    ([conflict_blocks_projection]), pending peers are not ordered by their oldest event
    ([pending_peers_misordered]), a gap the service does not fill keeps a catch-up at one
    page ([gap_pins_catch_up]), a message that can never be stored stops the checkpoint of the
    first protocol ([delta_conflict_stuck]), a group that was left before it was stored can not
    be filed again with metadata ([left_group_unreadable]), and an empty row whose message was
    discarded from a page is shown as complete ([discarded_probe_promoted]).

    ** Conventions

    A table with a primary key is a finite map or a list with a uniqueness invariant;
    a list where the code orders or scans it. [ORDER BY] is a stable merge sort, so
    rows that tie keep their insertion order. A transaction is a function from the
    store to a result and the new store; when it fails the store is unchanged.
    [CHECK] and foreign-key constraints that the code's own validation implies are left
    out; the others are conditions that fail the statement. JSON objects are lists of
    entries with unique keys; a JSON column holds its value. Clocks, random ids and
    tokens are arguments or streams. Error texts of serde and SQLite are left out or
    constant; no code looks at them. Machine integers are [Z] with saturation or
    wrap-around written out where the code has it.

    Code outside the sources is a class or a parameter: JSON text and number
    encoding ([JsonText], [JsonNumber]), digests and the input-id encoding
    ([QueueCodec], whose only law is that the encoding of an id is injective), canonical
    JSON, SHA-256 and RFC 3339 ([WireCodec]), the ANP group parsers ([AnpGroup]), and
    the server, session and lock of a run ([Runtime], [ReadRuntime],
    [MarkRuntime], [ThreadPages]), the name of the direct profile ([DirectProfile]), the
    content types of encrypted direct messages ([PlainContent]), the conversion of
    host names ([Idna], with the laws [IdnaLaws] that its results are lower-case-stable
    host names; [HexDigest] says a digest is made of such characters). Theorems about
    them are stated for every instance; the witnesses use concrete ones. The look-ups of
    the conversations a direct peer may be filed under read tables that are not modelled
    and are the class [ThreadIndex]; the replay of messages held back for a peer, which ends
    a projection, is the class [Backlog]: [PeerClaims] is about the state before it,
    [Resolution] implements it ([backlog_replay]), and [ResolutionClaims] is about both.

    A run may be cancelled at its awaits and other tasks may change the store there
    ([rt_env]); within the commit of one page's lane events, one hydration and one
    snapshot download no such interference is modelled.

    Fuel: a snapshot download takes at most 100 requests, the page limit a manifest may
    announce; a hydration batch [2 |K| + 1] attempts, two retries per failure
    fingerprint; the paging loop [T + 1] iterations for a deadline at reading [T], as
    every iteration waits at least once; a chain of DID transitions 65 steps, as the
    code gives up at 65 visited DIDs. The theorems prove that these are enough.

    ** Not modelled

    The reducers that turn an input into messages, groups and notifications
    (internal/message_runtime/sync_processing.rs and the snapshot projections) and the
    queries of internal/local_state/messages.rs: [Messages] takes a message once it is a
    record of the store. The file lock and the database actor: scheduling around the
    operations that are modelled. The work of the dispatcher's maintenance task. Schema
    creation and migration. Secure direct messages and group encryption: protocols of their own,
    on libraries outside the sources. Identity, transport, realtime, attachments, the
    command line, the daemon and the Dart, Node and other bindings: they call the
    engine or are called by it through the interfaces above. *)

From Stdlib Require Export ZArith Lia.
From stdpp Require Export base strings gmap sorting numbers option.
From stdpp Require Export list.

Set Default Proof Using "Type".

(** ** Notation scope and results

    Rust's [Result<T, E>] with the stdpp monad classes, so that the [?] of the
    source reads as [x ← m; k]. *)

Declare Scope awiki_scope.
Delimit Scope awiki_scope with awiki.

Inductive result (E A : Type) : Type :=
| Ok (a : A)
| Err (e : E).
Arguments Ok {E A} a.
Arguments Err {E A} e.

#[export] Instance result_ret {E} : MRet (result E) := λ A, Ok.
#[export] Instance result_bind {E} : MBind (result E) :=
  λ A B f m, match m with Ok a => f a | Err e => Err e end.
#[export] Instance result_fmap {E} : FMap (result E) :=
  λ A B f m, match m with Ok a => Ok (f a) | Err e => Err e end.

#[export] Instance result_eq_dec {E A} `{EqDecision E, EqDecision A} :
  EqDecision (result E A).
Proof. solve_decision. Defined.

Definition is_ok {E A} (m : result E A) : bool :=
  match m with Ok _ => true | Err _ => false end.

(** [Option::ok_or]. *)
Definition ok_or {E A} (o : option A) (e : E) : result E A :=
  match o with Some a => Ok a | None => Err e end.

(** [Result::unwrap_or]. *)
Definition unwrap_or {E A} (m : result E A) (d : A) : A :=
  match m with Ok a => a | Err _ => d end.

Lemma bind_Ok {E A B} (m : result E A) (f : A → result E B) (b : B) :
  (m ≫= f) = Ok b ↔ ∃ a, m = Ok a ∧ f a = Ok b.
Proof. destruct m; naive_solver. Qed.

Lemma bind_Err {E A B} (m : result E A) (f : A → result E B) (e : E) :
  (m ≫= f) = Err e ↔ m = Err e ∨ ∃ a, m = Ok a ∧ f a = Err e.
Proof. destruct m; naive_solver. Qed.

Lemma fmap_Ok {E A B} (f : A → B) (m : result E A) (b : B) :
  (f <$> m) = Ok b ↔ ∃ a, m = Ok a ∧ f a = b.
Proof. destruct m; naive_solver. Qed.

Lemma ok_or_Ok {E A} (o : option A) (e : E) (a : A) :
  ok_or o e = Ok a ↔ o = Some a.
Proof. destruct o; naive_solver. Qed.

(** Iterating a fallible action over a list, stopping at the first error. *)
Fixpoint try_each {E A} (f : A → result E unit) (l : list A) : result E unit :=
  match l with
  | [] => Ok ()
  | x :: l => f x ≫= λ _, try_each f l
  end.

Lemma try_each_Ok {E A} (f : A → result E unit) (l : list A) :
  try_each f l = Ok () ↔ Forall (λ x, f x = Ok ()) l.
Proof.
  induction l as [|x l IH]; simpl; [naive_solver|].
  rewrite Forall_cons. destruct (f x) as [[]|e] eqn:Hfx; simpl.
  - rewrite IH. naive_solver.
  - naive_solver.
Qed.

(** A left fold that threads a state and stops at the first error: the [for]
    loop of the source with [?] in its body. *)
Fixpoint try_fold {E A S} (f : S → A → result E S) (s : S) (l : list A)
  : result E S :=
  match l with
  | [] => Ok s
  | x :: l => f s x ≫= λ s', try_fold f s' l
  end.

Lemma try_fold_app {E A S} (f : S → A → result E S) s l1 l2 :
  try_fold f s (l1 ++ l2) = try_fold f s l1 ≫= λ s', try_fold f s' l2.
Proof.
  revert s. induction l1 as [|x l1 IH]; intros s; simpl; [done|].
  destruct (f s x); simpl; [apply IH|done].
Qed.

(** A loop that pushes one result per element. *)
Lemma try_fold_fmap {E A B S} (h : A → B) (f : S → B → result E S) s l :
  try_fold f s (h <$> l) = try_fold (λ s x, f s (h x)) s l.
Proof.
  revert s. induction l as [|x l IH]; intros s; simpl; [done|]. by destruct (f s (h x)); simpl.
Qed.

Lemma try_fold_push {E A B} (f : A → result E B) (g : list B → A → result E (list B)) acc l r :
  (∀ acc x r, g acc x = Ok r → ∃ y, f x = Ok y ∧ r = acc ++ [y]) →
  try_fold g acc l = Ok r → ∃ ys, r = acc ++ ys ∧ Forall2 (λ x y, f x = Ok y) l ys.
Proof.
  intros Hg. revert acc. induction l as [|x l IH]; intros acc Hr; simpl in Hr.
  { injection Hr as <-. exists []. by rewrite app_nil_r. }
  apply bind_Ok in Hr as (acc' & (y & Hy & ->)%Hg & (ys & -> & Hys)%IH).
  exists (y :: ys). rewrite <-app_assoc. split; [done|by constructor].
Qed.

(** A loop whose body preserves an invariant preserves it. *)
Lemma try_fold_inv {E A S} (P : S → Prop) (f : S → A → result E S) s s' l :
  P s →
  (∀ s x s', x ∈ l → P s → f s x = Ok s' → P s') →
  try_fold f s l = Ok s' → P s'.
Proof.
  revert s. induction l as [|x l IH]; simpl; intros s HP Hf; [naive_solver|].
  rewrite bind_Ok. intros (s1 & H1 & H2).
  eapply IH; [| |exact H2].
  - eapply Hf; [left|exact HP|exact H1].
  - intros s0 y s2 Hy. apply Hf. by right.
Qed.

(** Decomposing a computation known to succeed: every [?] yields its value,
    every early-return guard its negation. *)
Ltac res_step :=
  match goal with
  | H : mbind _ _ = Ok _ |- _ => apply bind_Ok in H as (?&?&?)
  | H : fmap _ _ = Ok _ |- _ => apply fmap_Ok in H as (?&?&?)
  | H : ok_or _ _ = Ok _ |- _ => apply ok_or_Ok in H
  | H : (if ?b then Err _ else _) = Ok _ |- _ =>
      destruct b eqn:?; [discriminate H|]
  | H : (if ?b then _ else Err _) = Ok _ |- _ =>
      destruct b eqn:?; [|discriminate H]
  | u : unit |- _ => destruct u
  | H : Err _ = Ok _ |- _ => discriminate H
  | H : Ok _ = Err _ |- _ => discriminate H
  | H : Ok _ = Ok _ |- _ => injection H as H
  end.
Ltac res_inv := repeat res_step; simplify_eq/=.

(** ** Booleans and decidability *)

Ltac bool_hyps :=
  repeat match goal with
  | H : _ && _ = true |- _ => apply andb_true_iff in H as [??]
  | H : _ || _ = false |- _ => apply orb_false_iff in H as [??]
  | H : negb _ = true |- _ => apply negb_true_iff in H
  | H : negb _ = false |- _ => apply negb_false_iff in H
  | H : bool_decide _ = true |- _ => apply bool_decide_eq_true in H
  | H : bool_decide _ = false |- _ => apply bool_decide_eq_false in H
  | H : (_ <=? _)%Z = true |- _ => apply Z.leb_le in H
  | H : (_ <=? _)%Z = false |- _ => apply Z.leb_gt in H
  | H : (_ <? _)%Z = true |- _ => apply Z.ltb_lt in H
  | H : (_ <? _)%Z = false |- _ => apply Z.ltb_ge in H
  | H : (_ =? _)%Z = true |- _ => apply Z.eqb_eq in H
  | H : (_ =? _)%Z = false |- _ => apply Z.eqb_neq in H
  end.

(** ** Machine integers

    Fixed-width integers are [Z] with the width written out at each operation
    that can leave it. *)

Definition i64_max : Z := 2 ^ 63 - 1.
Definition i64_min : Z := - 2 ^ 63.
Definition u64_max : Z := 2 ^ 64 - 1.
Definition u32_max : Z := 2 ^ 32 - 1.

Definition is_i64 (z : Z) : Prop := (i64_min ≤ z ≤ i64_max)%Z.
Definition is_u64 (z : Z) : Prop := (0 ≤ z ≤ u64_max)%Z.

(** [i64::saturating_add] and [i64::saturating_sub]. *)
Definition clamp_i64 (z : Z) : Z := Z.max i64_min (Z.min i64_max z).
Definition i64_saturating_add (a b : Z) : Z := clamp_i64 (a + b).
Definition i64_saturating_sub (a b : Z) : Z := clamp_i64 (a - b).

(** [u64::checked_add], [u64::wrapping_add], [i64::checked_add]. *)
Definition u64_checked_add (a b : Z) : option Z :=
  if (a + b <=? u64_max)%Z then Some (a + b)%Z else None.
Definition u64_wrapping_add (a b : Z) : Z := ((a + b) mod 2 ^ 64)%Z.
Definition i64_checked_add (a b : Z) : option Z :=
  if (a + b <=? i64_max)%Z && (i64_min <=? a + b)%Z then Some (a + b)%Z else None.

Lemma clamp_i64_range z : is_i64 (clamp_i64 z).
Proof. unfold is_i64, clamp_i64, i64_min, i64_max. lia. Qed.

Lemma clamp_i64_id z : is_i64 z → clamp_i64 z = z.
Proof. unfold is_i64, clamp_i64. lia. Qed.

Lemma u64_checked_add_Some a b c :
  u64_checked_add a b = Some c ↔ c = (a + b)%Z ∧ (a + b ≤ u64_max)%Z.
Proof.
  unfold u64_checked_add. destruct (a + b <=? u64_max)%Z eqn:E; bool_hyps.
  - naive_solver.
  - split; [done|lia].
Qed.

Lemma u64_wrapping_add_small a b :
  (0 ≤ a + b ≤ u64_max)%Z → u64_wrapping_add a b = (a + b)%Z.
Proof. intros. unfold u64_wrapping_add, u64_max in *. apply Z.mod_small. lia. Qed.

(** ** Tables

    A SQLite table is the list of its rows in rowid order: [INSERT] appends
    (without AUTOINCREMENT the new rowid is one more than the largest), [UPDATE
    .. WHERE] maps over the matching rows, [DELETE .. WHERE] filters. *)

Definition update_where {A} (p : A → bool) (f : A → A) (t : list A) : list A :=
  (λ r, if p r then f r else r) <$> t.
Definition delete_where {A} (p : A → bool) (t : list A) : list A :=
  filter (λ r, p r = false) t.
Definition select_where {A} (p : A → bool) (t : list A) : list A :=
  filter (λ r, p r = true) t.
Definition count_where {A} (p : A → bool) (t : list A) : nat :=
  length (select_where p t).
Definition exists_where {A} (p : A → bool) (t : list A) : bool := existsb p t.

Section tables.
Context {A : Type}.
Implicit Types (p : A → bool) (t : list A).

Lemma length_update_where p f t : length (update_where p f t) = length t.
Proof. apply length_fmap. Qed.

Lemma elem_of_update_where p f t r :
  r ∈ update_where p f t ↔
  ∃ r0, r0 ∈ t ∧ r = if p r0 then f r0 else r0.
Proof. unfold update_where. rewrite list_elem_of_fmap. naive_solver. Qed.

Lemma elem_of_delete_where p t r :
  r ∈ delete_where p t ↔ r ∈ t ∧ p r = false.
Proof. unfold delete_where. rewrite list_elem_of_filter. naive_solver. Qed.

Lemma elem_of_select_where p t r :
  r ∈ select_where p t ↔ r ∈ t ∧ p r = true.
Proof. unfold select_where. rewrite list_elem_of_filter. naive_solver. Qed.

Lemma exists_where_true p t :
  exists_where p t = true ↔ ∃ r, r ∈ t ∧ p r = true.
Proof.
  unfold exists_where. rewrite existsb_exists.
  setoid_rewrite <-list_elem_of_In. done.
Qed.

Lemma exists_where_false p t :
  exists_where p t = false ↔ ∀ r, r ∈ t → p r = false.
Proof.
  rewrite <-not_true_iff_false, exists_where_true. split.
  - intros H r Hr. apply not_true_iff_false. intros Hp. apply H. eauto.
  - intros H (r & Hr & Hp). rewrite (H r Hr) in Hp. done.
Qed.

(** An update that does not touch the key keeps the key column. *)
Lemma map_update_where {K} (key : A → K) p f t :
  (∀ r, r ∈ t → p r = true → key (f r) = key r) →
  key <$> update_where p f t = key <$> t.
Proof.
  intros H. unfold update_where. rewrite <-list_fmap_compose.
  apply list_fmap_ext. intros i r Hr. simpl.
  destruct (p r) eqn:Hp; [|done]. apply H; [|done].
  by apply list_elem_of_lookup_2 in Hr.
Qed.

Lemma sublist_delete_where p t : delete_where p t `sublist_of` t.
Proof. apply sublist_filter. Qed.

Lemma length_delete_select p t :
  (length (delete_where p t) + length (select_where p t))%nat = length t.
Proof.
  unfold delete_where, select_where.
  induction t as [|r t IH]; [done|].
  rewrite !filter_cons. destruct (p r) eqn:E; repeat case_decide; simplify_eq/=; lia.
Qed.
End tables.

(** Two rows of a table with one key column value are one row. *)
Lemma key_inj {A K} (key : A → K) (t : list A) r r' :
  NoDup (key <$> t) → r ∈ t → r' ∈ t → key r = key r' → r = r'.
Proof.
  induction t as [|x l IH]; [intros _ []%elem_of_nil|].
  rewrite fmap_cons, NoDup_cons. intros [Hx Hnd] Hr Hr' E.
  apply elem_of_cons in Hr as [->|Hr], Hr' as [->|Hr']; [done| | |by apply IH].
  - destruct Hx. rewrite E. by apply list_elem_of_fmap_2.
  - destruct Hx. rewrite <-E. by apply list_elem_of_fmap_2.
Qed.

Lemma update_where_false {A} (f : A → A) (t : list A) : update_where (λ _, false) f t = t.
Proof. unfold update_where. apply list_fmap_id. Qed.

Lemma update_where_none {A} (p : A → bool) (f : A → A) (t : list A) :
  (∀ r, r ∈ t → p r = false) → update_where p f t = t.
Proof.
  intros Hp. unfold update_where. induction t as [|r t IH]; [done|].
  rewrite fmap_cons, (Hp r) by left. f_equal. apply IH. intros. apply Hp. by right.
Qed.

Lemma count_where_none {A} (p : A → bool) (t : list A) :
  (∀ r, r ∈ t → p r = false) → count_where p t = 0%nat.
Proof.
  intros Hp. unfold count_where. destruct (select_where p t) as [|r l] eqn:E; [done|].
  assert (r ∈ select_where p t) as [Hr Hpr]%elem_of_select_where by (rewrite E; left).
  by rewrite (Hp r Hr) in Hpr.
Qed.

(** The first selected row has what every selected row has. *)
Lemma head_select {A} (sel : A → bool) (t : list A) (P : A → Prop) r :
  r ∈ t → sel r = true → (∀ x, x ∈ t → sel x = true → P x) →
  ∃ x, head (select_where sel t) = Some x ∧ P x.
Proof.
  intros Hr Hs HP. assert (r ∈ select_where sel t) as Hin by by apply elem_of_select_where.
  destruct (select_where sel t) as [|x l] eqn:E; [by apply elem_of_nil in Hin|].
  exists x. split; [done|].
  assert (x ∈ select_where sel t) as [Hx Hsx]%elem_of_select_where by (rewrite E; left).
  by apply HP.
Qed.

(** Updating by one key after another is one update by the set of keys, when
    the update is idempotent and does not change what it selects. *)
Lemma fold_update_where {A K} (sel : K → A → bool) (f : A → A) (ks : list K) (t : list A) :
  (∀ k r, sel k (f r) = sel k r) → (∀ r, f (f r) = f r) →
  fold_left (λ t k, update_where (sel k) f t) ks t =
  update_where (λ r, existsb (λ k, sel k r) ks) f t.
Proof.
  intros Hsel Hid. revert t. induction ks as [|k ks IH]; intros t; simpl.
  { by rewrite update_where_false. }
  rewrite IH. unfold update_where. rewrite <-list_fmap_compose.
  apply list_fmap_ext. intros i r _. simpl.
  destruct (sel k r) eqn:E; simpl; [|done].
  destruct (existsb (λ k0, sel k0 (f r)) ks) eqn:E2; [apply Hid|done].
Qed.

(** Deleting by one key after another is one deletion by the set of keys. *)
Lemma fold_delete_where {A K} (sel : K → A → bool) (ks : list K) (t : list A) :
  fold_left (λ t k, delete_where (sel k) t) ks t =
  delete_where (λ r, existsb (λ k, sel k r) ks) t.
Proof.
  revert t. induction ks as [|k ks IH]; intros t; simpl.
  - unfold delete_where. induction t as [|r t IHt]; [done|].
    rewrite filter_cons, decide_True by done. by f_equal.
  - rewrite IH. unfold delete_where. rewrite list_filter_filter.
    apply list_filter_iff. intros r. rewrite orb_false_iff. naive_solver.
Qed.

Lemma existsb_fmap {A B} (f : A → B) (p : B → bool) (l : list A) :
  existsb p (f <$> l) = existsb (λ x, p (f x)) l.
Proof. induction l as [|x l IH]; simpl; [done|]. f_equal. exact IH. Qed.

(** Deleting a duplicate-free set of rows that a key identifies. *)
Lemma delete_victims {A K} (key : A → K) (sel : A → A → bool) (victims t : list A) :
  NoDup (key <$> t) → NoDup victims → (∀ v, v ∈ victims → v ∈ t) →
  (∀ v r, sel v r = true ↔ key r = key v) →
  let t' := delete_where (λ r, existsb (λ v, sel v r) victims) t in
  (∀ r, r ∈ t' ↔ r ∈ t ∧ r ∉ victims) ∧
  (length t' + length victims = length t)%nat ∧
  (∀ r, r ∈ t → r ∈ t' ∨ r ∈ victims).
Proof.
  intros Hnd Hv Hsub Hsel t'. set (p := λ r, existsb _ victims) in t'.
  assert (∀ r, r ∈ t → p r = true ↔ r ∈ victims) as Hp.
  { intros r Hr. unfold p. rewrite existsb_exists. split.
    - intros (v & Hv'%list_elem_of_In & Hk%Hsel).
      by rewrite (key_inj key t r v Hnd Hr (Hsub v Hv') Hk).
    - intros Hr'. exists r. split; [by apply list_elem_of_In|by apply Hsel]. }
  split_and!.
  - intros r. unfold t'. rewrite elem_of_delete_where. split; intros [Hr H]; (split; [done|]).
    + by rewrite <-Hp, H.
    + apply not_true_iff_false. by rewrite Hp.
  - rewrite <-(length_delete_select p t). unfold t'. f_equal.
    pose proof (NoDup_fmap_1 _ _ Hnd) as Hnd'.
    apply Permutation_length, NoDup_Permutation; [done|by apply NoDup_filter|].
    intros r. rewrite elem_of_select_where. split.
    + intros Hr. split; [by apply Hsub|]. apply Hp; [by apply Hsub|done].
    + intros [Hr Hpr]. by apply Hp.
  - intros r Hr. unfold t'. rewrite elem_of_delete_where.
    destruct (p r) eqn:E; [right; by apply Hp|by left].
Qed.

Create HintDb awiki.
#[export] Hint Resolve clamp_i64_range : awiki.
#[export] Hint Rewrite @length_update_where : awiki.
