(* ===== verification/RustStr.v ===== *)
(** * Rust strings

    A Rust [str] is its UTF-8 byte sequence, held in a [string]: [str::len] is
    [String.length], [Ord] on [str] and SQLite's BINARY collation are the
    bytewise lexicographic order. [str::trim] strips the code points with the
    Unicode [White_Space] property, recognised here by their UTF-8 encodings.
    The file also holds the decimal reading and printing of [u64] that the
    standard library provides. *)

From Stdlib Require Import Ascii.
From S2P Require Import Prelude.

Local Open Scope Z_scope.
Local Coercion Z.of_nat : nat >-> Z.

(** ** Bytes *)

Definition byte_of (c : ascii) : Z := Z.of_N (N_of_ascii c).

Definition bytes (s : string) : list ascii := String.list_ascii_of_string s.
Definition of_bytes (l : list ascii) : string := String.string_of_list_ascii l.

Lemma of_bytes_bytes s : of_bytes (bytes s) = s.
Proof. apply String.string_of_list_ascii_of_string. Qed.
Lemma bytes_of_bytes l : bytes (of_bytes l) = l.
Proof. apply String.list_ascii_of_string_of_list_ascii. Qed.
Lemma bytes_length s : length (bytes s) = String.length s.
Proof. induction s; simpl; congruence. Qed.
#[export] Instance bytes_inj : Inj (=) (=) bytes.
Proof. intros s t H. by rewrite <-(of_bytes_bytes s), H, of_bytes_bytes. Qed.

(** ** Trimming *)

(** One-, two- and three-byte encodings of the [White_Space] code points:
    U+0009-U+000D, U+0020; U+0085, U+00A0; U+1680, U+2000-U+200A, U+2028,
    U+2029, U+202F, U+205F, U+3000. *)
Definition ws1 (a : ascii) : bool :=
  ((9 <=? byte_of a) && (byte_of a <=? 13)) || (byte_of a =? 32).
Definition ws2 (a b : ascii) : bool :=
  (byte_of a =? 194) && ((byte_of b =? 133) || (byte_of b =? 160)).
Definition ws3 (a b c : ascii) : bool :=
  ((byte_of a =? 225) && (byte_of b =? 154) && (byte_of c =? 128))
  || ((byte_of a =? 226) && (byte_of b =? 128)
      && (((128 <=? byte_of c) && (byte_of c <=? 138))
          || (byte_of c =? 168) || (byte_of c =? 169) || (byte_of c =? 175)))
  || ((byte_of a =? 226) && (byte_of b =? 129) && (byte_of c =? 159))
  || ((byte_of a =? 227) && (byte_of b =? 128) && (byte_of c =? 128)).

(** Stripping encoded characters from the front of a byte list, for any
    recogniser of one-, two- and three-byte sequences. *)
Section strip.
Context (w1 : ascii → bool) (w2 : ascii → ascii → bool)
        (w3 : ascii → ascii → ascii → bool).

Fixpoint strip (l : list ascii) : list ascii :=
  match l with
  | [] => []
  | a :: l1 =>
      if w1 a then strip l1 else
      match l1 with
      | [] => l
      | b :: l2 =>
          if w2 a b then strip l2 else
          match l2 with
          | [] => l
          | c :: l3 => if w3 a b c then strip l3 else l
          end
      end
  end.

Definition lead (l : list ascii) : bool :=
  match l with
  | [] => false
  | a :: l1 =>
      w1 a || match l1 with
              | [] => false
              | b :: l2 => w2 a b || match l2 with [] => false | c :: _ => w3 a b c end
              end
  end.

(** [strip] removes a prefix and leaves a list that starts with none of the
    recognised sequences. *)
Lemma strip_spec l : lead (strip l) = false ∧ ∃ p, l = p ++ strip l.
Proof.
  remember (length l) as n eqn:Hn. revert l Hn.
  induction (lt_wf n) as [n _ IH]. intros l ->.
  destruct l as [|a l1]; simpl; [by split; [|exists []]|].
  destruct (w1 a) eqn:E1.
  { destruct (IH (length l1)) with l1 as [? [p Hp]]; [simpl; lia|done|].
    split; [done|]. exists (a :: p). simpl. congruence. }
  destruct l1 as [|b l2]; [split; [simpl; by rewrite E1|by exists []]|].
  destruct (w2 a b) eqn:E2.
  { destruct (IH (length l2)) with l2 as [? [p Hp]]; [simpl; lia|done|].
    split; [done|]. exists (a :: b :: p). simpl. congruence. }
  destruct l2 as [|c l3]; [split; [simpl; by rewrite E1, E2|by exists []]|].
  destruct (w3 a b c) eqn:E3.
  { destruct (IH (length l3)) with l3 as [? [p Hp]]; [simpl; lia|done|].
    split; [done|]. exists (a :: b :: c :: p). simpl. congruence. }
  split; [simpl; by rewrite E1, E2, E3|by exists []].
Qed.

Lemma strip_id l : lead l = false → strip l = l.
Proof.
  destruct l as [|a [|b [|c l]]]; simpl; intros H; [done|..];
    repeat (apply orb_false_iff in H as [-> H]); try rewrite H; done.
Qed.

Lemma lead_app l k : lead l = true → lead (l ++ k) = true.
Proof.
  destruct l as [|a [|b [|c l]]]; simpl; [done|..];
    destruct (w1 a); simpl; [done|try done..];
    destruct (w2 a b); simpl; try done.
Qed.
End strip.

Definition strip_start : list ascii → list ascii := strip ws1 ws2 ws3.
Definition strip_end (l : list ascii) : list ascii :=
  reverse (strip ws1 (λ b a, ws2 a b) (λ c b a, ws3 a b c) (reverse l)).

(** [str::trim]. *)
Definition trim (s : string) : string := of_bytes (strip_end (strip_start (bytes s))).

(** A string is canonical when trimming leaves it unchanged. *)
Definition trimmed (s : string) : Prop := trim s = s.

Lemma strip_end_prefix l : ∃ k, l = strip_end l ++ k.
Proof.
  unfold strip_end.
  destruct (strip_spec ws1 (λ b a, ws2 a b) (λ c b a, ws3 a b c) (reverse l))
    as [_ [p Hp]].
  exists (reverse p). apply (inj reverse).
  rewrite reverse_app, !reverse_involutive. done.
Qed.

Lemma strip_end_idem l : strip_end (strip_end l) = strip_end l.
Proof.
  unfold strip_end. rewrite reverse_involutive. f_equal.
  apply strip_id, strip_spec.
Qed.

Lemma strip_start_of_prefix l k :
  strip_start (l ++ k) = l ++ k → strip_start l = l.
Proof.
  intros H. apply strip_id.
  destruct (lead ws1 ws2 ws3 l) eqn:E; [|done].
  pose proof (lead_app ws1 ws2 ws3 l k E) as Hl.
  unfold strip_start in H. rewrite <-H in Hl.
  by rewrite (proj1 (strip_spec ws1 ws2 ws3 (l ++ k))) in Hl.
Qed.

(** Trimming is idempotent, so a trimmed value is canonical. *)
Lemma trim_idem s : trim (trim s) = trim s.
Proof.
  unfold trim. rewrite bytes_of_bytes. f_equal.
  set (l := strip_start (bytes s)).
  assert (strip_start (strip_end l) = strip_end l) as ->.
  { destruct (strip_end_prefix l) as [k Hk].
    apply strip_start_of_prefix with k. rewrite <-Hk.
    unfold l, strip_start. apply strip_id, strip_spec. }
  apply strip_end_idem.
Qed.

Lemma trim_trimmed s : trimmed (trim s).
Proof. apply trim_idem. Qed.

(** A byte list whose ends are not white space is unchanged. *)
Definition ascii7 (a : ascii) : Prop := byte_of a < 128.
Definition solid (a : ascii) : Prop := ws1 a = false ∧ ascii7 a.

Lemma ws2_solid_l a b : ascii7 a → ws2 a b = false.
Proof. unfold ascii7, ws2. intros. rewrite (proj2 (Z.eqb_neq _ _)) by lia. done. Qed.
Lemma ws2_solid_r a b : ascii7 b → ws2 a b = false.
Proof.
  unfold ascii7, ws2. intros.
  rewrite (proj2 (Z.eqb_neq (byte_of b) 133)), (proj2 (Z.eqb_neq (byte_of b) 160)) by lia.
  apply andb_false_r.
Qed.
Lemma ws3_solid_l a b c : ascii7 a → ws3 a b c = false.
Proof.
  unfold ascii7, ws3. intros.
  rewrite (proj2 (Z.eqb_neq (byte_of a) 225)), (proj2 (Z.eqb_neq (byte_of a) 226)),
    (proj2 (Z.eqb_neq (byte_of a) 227)) by lia. done.
Qed.
Lemma ws3_solid_r a b c : ascii7 c → ws3 a b c = false.
Proof.
  unfold ascii7, ws3. intros.
  rewrite (proj2 (Z.eqb_neq (byte_of c) 128)), (proj2 (Z.leb_gt 128 (byte_of c))),
    (proj2 (Z.eqb_neq (byte_of c) 168)), (proj2 (Z.eqb_neq (byte_of c) 169)),
    (proj2 (Z.eqb_neq (byte_of c) 175)), (proj2 (Z.eqb_neq (byte_of c) 159)) by lia.
  by rewrite !andb_false_r.
Qed.

Lemma lead_solid a l : solid a → lead ws1 ws2 ws3 (a :: l) = false.
Proof.
  intros [H1 H2]. destruct l as [|b [|c l]]; simpl; rewrite H1; simpl;
    rewrite ?ws2_solid_l, ?ws3_solid_l; done.
Qed.
Lemma lead_solid_rev a l :
  solid a → lead ws1 (λ b a, ws2 a b) (λ c b a, ws3 a b c) (a :: l) = false.
Proof.
  intros [H1 H2]. destruct l as [|b [|c l]]; simpl; rewrite H1; simpl;
    rewrite ?ws2_solid_r, ?ws3_solid_r; done.
Qed.

Lemma trimmed_solid s : Forall solid (bytes s) → trimmed s.
Proof.
  intros H. unfold trimmed, trim.
  assert (strip_start (bytes s) = bytes s) as ->.
  { apply strip_id. destruct (bytes s) as [|a l]; [done|].
    apply lead_solid. by inversion H. }
  unfold strip_end. rewrite strip_id, reverse_involutive, of_bytes_bytes; [done|].
  apply Forall_reverse in H. destruct (reverse (bytes s)) as [|a l]; [done|].
  apply lead_solid_rev. by inversion H.
Qed.

(** ** Predicates and transformations of [str] *)

Definition is_empty (s : string) : bool := bool_decide (s = "").
Definition starts_with (s p : string) : bool := String.prefix p s.

Lemma starts_with_head_ne a b s p :
  a ≠ b → starts_with (String b s) (String a p) = false.
Proof.
  intros H. unfold starts_with. cbn -[ascii_dec]. by destruct (ascii_dec a b).
Qed.

(** [str::contains] on a single character and on a substring. *)
Definition contains_char (s : string) (c : ascii) : bool :=
  existsb (λ a, bool_decide (a = c)) (bytes s).
Fixpoint contains (s p : string) : bool :=
  String.prefix p s || match s with EmptyString => false | String _ s' => contains s' p end.

(** [str::trim_start_matches] of one character. *)
Fixpoint trim_start_matches (s : string) (c : ascii) : string :=
  match s with
  | String a s' => if bool_decide (a = c) then trim_start_matches s' c else s
  | EmptyString => EmptyString
  end.

(** [str::to_ascii_lowercase]. *)
Definition ascii_lower (a : ascii) : ascii :=
  if (65 <=? byte_of a) && (byte_of a <=? 90)
  then ascii_of_N (N_of_ascii a + 32) else a.
Definition to_ascii_lowercase (s : string) : string :=
  of_bytes (ascii_lower <$> bytes s).

(** [str::chars().count()]: UTF-8 continuation bytes (10xxxxxx) do not start a
    character. *)
Definition chars_count (s : string) : nat :=
  length (filter (λ a, ¬ (128 ≤ byte_of a < 192)) (bytes s)).

Lemma chars_count_le s : (chars_count s ≤ String.length s)%nat.
Proof. unfold chars_count. rewrite <-bytes_length. apply length_filter. Qed.

(** [Vec<String>::join]. *)
Definition join (sep : string) (l : list string) : string := String.concat sep l.

(** ** Ordering of strings *)

(** [Ord for str]. *)
Definition str_cmp (a b : string) : comparison := String.compare a b.
Definition str_ltb (a b : string) : bool :=
  match str_cmp a b with Lt => true | _ => false end.
Definition str_leb (a b : string) : bool :=
  match str_cmp a b with Gt => false | _ => true end.

Fixpoint lex_cmp (a b : list ascii) : comparison :=
  match a, b with
  | [], [] => Eq
  | [], _ :: _ => Lt
  | _ :: _, [] => Gt
  | x :: a, y :: b =>
      match byte_of x ?= byte_of y with Eq => lex_cmp a b | c => c end
  end.

Lemma byte_of_inj a b : byte_of a = byte_of b → a = b.
Proof.
  unfold byte_of. intros H%N2Z.inj.
  by rewrite <-(ascii_N_embedding a), H, ascii_N_embedding.
Qed.

Lemma str_cmp_lex a b : str_cmp a b = lex_cmp (bytes a) (bytes b).
Proof.
  unfold str_cmp. revert b.
  induction a as [|x a IH]; intros [|y b]; simpl; [done..|].
  rewrite <-IH. unfold Ascii.compare, byte_of. rewrite N2Z.inj_compare.
  by destruct (_ ?= _)%N.
Qed.

Lemma str_cmp_eq a b : str_cmp a b = Eq ↔ a = b.
Proof.
  split; [apply String.compare_eq_iff|intros ->].
  rewrite str_cmp_lex. induction (bytes b) as [|x l IH]; simpl; [done|].
  by rewrite Z.compare_refl.
Qed.
Lemma str_cmp_antisym a b : str_cmp a b = CompOpp (str_cmp b a).
Proof. apply String.compare_antisym. Qed.
Lemma str_cmp_refl a : str_cmp a a = Eq.
Proof. by apply str_cmp_eq. Qed.

Lemma lex_cmp_trans a b c :
  lex_cmp a b ≠ Gt → lex_cmp b c ≠ Gt → lex_cmp a c ≠ Gt.
Proof.
  revert b c. induction a as [|x a IH]; intros [|y b] [|z c]; simpl; try done.
  destruct (Z.compare_spec (byte_of x) (byte_of y)) as [E1|E1|E1],
           (Z.compare_spec (byte_of y) (byte_of z)) as [E2|E2|E2]; try done;
  intros H1 H2;
  destruct (Z.compare_spec (byte_of x) (byte_of z)) as [E3|E3|E3]; try lia; try done.
  by apply (IH b c).
Qed.

Definition str_le (a b : string) : Prop := str_cmp a b ≠ Gt.
#[export] Instance str_le_dec : RelDecision str_le.
Proof. intros a b. unfold str_le. apply _. Defined.
#[export] Instance str_le_trans : Transitive str_le.
Proof. intros a b c. unfold str_le. rewrite !str_cmp_lex. apply lex_cmp_trans. Qed.
#[export] Instance str_le_total : Total str_le.
Proof.
  intros a b. unfold str_le. rewrite (str_cmp_antisym b a).
  destruct (str_cmp a b); simpl; naive_solver.
Qed.
#[export] Instance str_le_antisymm : AntiSymm (=) str_le.
Proof.
  intros a b. unfold str_le. rewrite (str_cmp_antisym b a).
  destruct (str_cmp a b) eqn:E; simpl; try done.
  intros _ _. by apply str_cmp_eq.
Qed.

(** ** Decimal digits *)

Definition is_ascii_digit (a : ascii) : bool :=
  (48 <=? byte_of a) && (byte_of a <=? 57).
Definition digit_value (a : ascii) : Z := byte_of a - 48.
Definition digit_char (d : Z) : ascii := ascii_of_N (Z.to_N (d + 48)).

Definition all_digits (s : string) : bool := forallb is_ascii_digit (bytes s).

(** Big-endian value of a digit list. *)
Definition digits_value (l : list Z) : Z := foldl (λ acc d, 10 * acc + d) 0 l.
Definition decimal_value (s : string) : Z := digits_value (digit_value <$> bytes s).

Definition is_digit (d : Z) : Prop := 0 ≤ d ≤ 9.

Lemma byte_of_digit_char d : is_digit d → byte_of (digit_char d) = d + 48.
Proof.
  intros [H1 H2]. unfold byte_of, digit_char.
  rewrite N_ascii_embedding; lia.
Qed.

Lemma digit_value_char d : is_digit d → digit_value (digit_char d) = d.
Proof. intros H. unfold digit_value. rewrite byte_of_digit_char by done. lia. Qed.

Lemma is_ascii_digit_char d : is_digit d → is_ascii_digit (digit_char d) = true.
Proof.
  intros H. unfold is_ascii_digit. rewrite byte_of_digit_char by done.
  destruct H. apply andb_true_iff. rewrite !Z.leb_le. lia.
Qed.

Lemma is_ascii_digit_value a : is_ascii_digit a = true → is_digit (digit_value a).
Proof. unfold is_ascii_digit, is_digit, digit_value. intros. bool_hyps. lia. Qed.

Lemma digit_char_value a : is_ascii_digit a = true → digit_char (digit_value a) = a.
Proof.
  intros H. apply byte_of_inj. rewrite byte_of_digit_char by by apply is_ascii_digit_value.
  unfold digit_value. lia.
Qed.

Lemma all_digits_spec s : all_digits s = true ↔ Forall (λ a, is_ascii_digit a = true) (bytes s).
Proof.
  unfold all_digits. rewrite forallb_forall, Forall_forall.
  setoid_rewrite <-list_elem_of_In. done.
Qed.

Lemma foldl_digits acc l :
  foldl (λ acc d, 10 * acc + d) acc l = acc * 10 ^ length l + digits_value l.
Proof.
  unfold digits_value. revert acc. induction l as [|d l IH]; intros acc; simpl; [lia|].
  rewrite IH, (IH (10 * 0 + d)). rewrite Nat2Z.inj_succ, Z.pow_succ_r by lia. lia.
Qed.

Lemma digits_value_cons d l :
  digits_value (d :: l) = d * 10 ^ length l + digits_value l.
Proof. unfold digits_value at 1. simpl. rewrite foldl_digits. lia. Qed.

Lemma digits_value_snoc l d : digits_value (l ++ [d]) = 10 * digits_value l + d.
Proof. unfold digits_value. by rewrite foldl_app. Qed.

Lemma digits_value_bound l : Forall is_digit l → 0 ≤ digits_value l < 10 ^ length l.
Proof.
  induction 1 as [|d l [H1 H2] _ IH]; [simpl; unfold digits_value; simpl; lia|].
  rewrite digits_value_cons. simpl length. rewrite Nat2Z.inj_succ, Z.pow_succ_r by lia. nia.
Qed.

Lemma solid_digit a : is_ascii_digit a = true → solid a.
Proof.
  unfold is_ascii_digit, solid, ws1, ascii7. intros. bool_hyps. split; [|lia].
  rewrite (proj2 (Z.leb_gt (byte_of a) 13)), (proj2 (Z.eqb_neq _ _)) by lia.
  by rewrite andb_false_r.
Qed.

Lemma trimmed_digits s : all_digits s = true → trimmed s.
Proof.
  intros H%all_digits_spec. apply trimmed_solid.
  eapply Forall_impl; [exact H|]. apply solid_digit.
Qed.

(** [u64::to_string]: the canonical decimal digits. Each digit removes more than
    three bits, so [S (log2 n)] steps suffice. *)
Fixpoint dec_digits (fuel : nat) (n : Z) : list Z :=
  match fuel with
  | O => []
  | S fuel => if n <? 10 then [n] else dec_digits fuel (n / 10) ++ [n mod 10]
  end.
Definition u64_to_string (n : Z) : string :=
  of_bytes (digit_char <$> dec_digits (S (Z.to_nat (Z.log2 n))) n).

Lemma dec_digits_spec (fuel : nat) (n : Z) :
  0 ≤ n < 2 ^ fuel → (0 < fuel)%nat →
  Forall is_digit (dec_digits fuel n) ∧ digits_value (dec_digits fuel n) = n
  ∧ (n = 0 ∧ dec_digits fuel n = [0] ∨ ∃ d l, dec_digits fuel n = d :: l ∧ d ≠ 0).
Proof.
  revert n. induction fuel as [|fuel IH]; intros n Hn Hf; [lia|]. simpl.
  destruct (Z.ltb_spec n 10).
  { split; [constructor; [unfold is_digit; lia|constructor]|]. split; [done|].
    destruct (decide (n = 0)) as [->|]; [by left|right; eauto]. }
  rewrite Nat2Z.inj_succ, Z.pow_succ_r in Hn by lia.
  destruct (IH (n / 10)) as (H1 & H2 & H3).
  { split; [apply Z.div_pos; lia|]. apply Z.div_lt_upper_bound; lia. }
  { destruct fuel; [simpl in Hn; lia|lia]. }
  pose proof (Z.mod_pos_bound n 10 ltac:(lia)).
  split; [apply Forall_app; split; [done|]; constructor; [unfold is_digit; lia|constructor]|].
  split; [rewrite digits_value_snoc, H2; pose proof (Z.div_mod n 10 ltac:(lia)); lia|].
  right. destruct H3 as [[H3 _]|(d & l & -> & Hd)].
  - pose proof (Z.div_mod n 10 ltac:(lia)). lia.
  - exists d, (l ++ [n mod 10]). done.
Qed.

Lemma log2_fuel (n : Z) : 0 ≤ n → 0 ≤ n < 2 ^ (S (Z.to_nat (Z.log2 n))).
Proof.
  intros Hn. split; [done|]. rewrite Nat2Z.inj_succ, Z2Nat.id by apply Z.log2_nonneg.
  destruct (decide (n = 0)) as [->|]; [done|]. apply Z.log2_spec. lia.
Qed.

Lemma map_digit_chars l :
  Forall is_digit l → digit_value <$> (digit_char <$> l) = l.
Proof.
  induction 1 as [|d l Hd _ IH]; [done|]. rewrite !fmap_cons, IH. f_equal.
  by apply digit_value_char.
Qed.

Lemma u64_to_string_spec n :
  0 ≤ n →
  all_digits (u64_to_string n) = true ∧ decimal_value (u64_to_string n) = n
  ∧ (u64_to_string n = "0" ∨ ∃ a l, bytes (u64_to_string n) = a :: l ∧ digit_value a ≠ 0).
Proof.
  intros Hn. unfold all_digits, decimal_value, u64_to_string.
  rewrite !bytes_of_bytes.
  destruct (dec_digits_spec _ n (log2_fuel n Hn)) as (H1 & H2 & H3); [lia|].
  set (ds := dec_digits _ _) in *. split; [|split].
  - rewrite forallb_forall. intros a (d & -> & Hd)%list_elem_of_In%list_elem_of_fmap.
    apply is_ascii_digit_char. rewrite List.Forall_forall in H1. by apply H1, list_elem_of_In.
  - by rewrite map_digit_chars.
  - destruct H3 as [[-> H3]|(d & l & E & Hd)]; [left; by rewrite H3|right].
    rewrite E. simpl. exists (digit_char d), (digit_char <$> l). split; [done|].
    rewrite digit_value_char; [done|]. rewrite E in H1. by inversion H1.
Qed.
