(* ===== verification/ImError.v ===== *)
(** * Errors and JSON values

    [crates/im-core/src/error.rs]: the error type every fallible operation of
    im-core returns, and the [serde_json::Value] its payloads carry. An object
    is the list of its entries; [serde_json::Map] keeps keys unique. *)

From S2P Require Import Prelude RustStr.

(** ** serde_json::Value *)

Inductive Number : Type :=
| PosInt (n : Z)
| NegInt (n : Z)
| Float (bits : Z).

Inductive Value : Type :=
| VNull
| VBool (b : bool)
| VNumber (n : Number)
| VString (s : string)
| VArray (l : list Value)
| VObject (m : list (string * Value)).

Fixpoint assoc {A} (k : string) (m : list (string * A)) : option A :=
  match m with
  | [] => None
  | (k', v) :: m => if bool_decide (k = k') then Some v else assoc k m
  end.

Definition as_object (v : Value) : option (list (string * Value)) :=
  match v with VObject m => Some m | _ => None end.
Definition as_str (v : Value) : option string :=
  match v with VString s => Some s | _ => None end.
Definition as_array (v : Value) : option (list Value) :=
  match v with VArray l => Some l | _ => None end.
Definition as_bool (v : Value) : option bool :=
  match v with VBool b => Some b | _ => None end.
Definition as_u64 (v : Value) : option Z :=
  match v with VNumber (PosInt n) => Some n | _ => None end.
Definition is_object (v : Value) : bool :=
  match v with VObject _ => true | _ => false end.
Definition is_array (v : Value) : bool :=
  match v with VArray _ => true | _ => false end.

(** [Value::get] with a string index: absent on anything but an object. *)
Definition vget (v : Value) (k : string) : option Value :=
  as_object v ≫= assoc k.

(** [Value::pointer] for a path of object keys. *)
Fixpoint pointer (v : Value) (path : list string) : option Value :=
  match path with
  | [] => Some v
  | k :: path => vget v k ≫= λ v', pointer v' path
  end.

(** ** ImError *)

Inductive DeviceRevokeOutcomeCategory : Type :=
| CancelledBeforeSubmit
| RejectedBeforeCommit
| OutcomeUnknown.

Inductive IdentityVaultFailure : Type :=
| VaultUnavailable
| MetadataMissing
| MetadataUnverified
| WorkspaceMismatch
| DeviceMismatch
| RecordOpenFailed
| VerificationFailed.

Inductive AttachmentTransferFailure : Type :=
| Network
| Stalled
| Incomplete
| RangeRejected
| TransferCancelled.

Inductive AttachmentPreparationStage : Type :=
| StageSession
| StageHistory
| StageDiscovery
| StageTicket.

Inductive ImError : Type :=
| InvalidInput (field : option string) (message : string)
| IdentityRequired
| IdentityNotFound (selector : string)
| DefaultIdentityMissing
| IdentityNotReady (identity : string) (missing : list string)
| IdentityVault (failure : IdentityVaultFailure)
| AuthRequired
| SessionExpired
| PermissionDenied
| LocalIdentityRecoveryRequired
| PeerNotFound (peer : string)
| GroupNotFound (group : string)
| CursorInvalid
| CursorStale
| InventoryIncomplete
| InventoryTooLarge
| DeviceRevokeOutcome (category : DeviceRevokeOutcomeCategory)
| MessageNotFound (message_id : string)
| TransportUnavailable (detail : string)
| AttachmentPreparation (stage : AttachmentPreparationStage) (retryable : bool)
    (cause : ImError)
| AttachmentTransfer (failure : AttachmentTransferFailure) (received_bytes : Z)
    (expected_bytes : option Z) (retryable : bool) (detail : string)
| UnsupportedCapability (capability : string)
| LocalStateUnavailable (detail : string)
| LocalStateUpgradeRequired (from_version target_version : Z)
| LocalStateUpgradeInProgress
| LocalStateUpgradeFailed (phase code : string)
| IdentityUnresolved (detail : string)
| IdentityBindingConflict (detail : string)
| ConversationAliasConflict (alias existing_target requested_target : string)
| MessageWireIdentityConflict (message_id : string)
| CanonicalGroupIdentityMissing (group : string)
| LocalProjectionUnavailable (detail : string)
| PathUnavailable (path_kind detail : string)
| CredentialFileUnreadable (path_kind detail : string)
| SkillOnboarding (code phase : string) (retryable : bool)
| Service (status_code : option Z) (code : option string) (message : string)
    (data : option Value)
| Serialization (detail : string)
| Io (detail : string)
| Internal (message : string).

Notation ImResult := (result ImError).

Definition invalid_input (field : option string) (message : string) : ImError :=
  InvalidInput field message.
Definition unsupported (capability : string) : ImError :=
  UnsupportedCapability capability.

(** A service error that carries only a stable code and a message; [error] of
    sync_inbox.rs and [sync_error] of sync_v2.rs both build this value. *)
Definition sync_error (code message : string) : ImError :=
  Service None (Some code) message None.

(** [local_state_unavailable]: what a failed SQLite statement becomes. The
    statements of the model fail only on a violated constraint. *)
Definition local_state_unavailable (detail : string) : ImError :=
  LocalStateUnavailable detail.

(** The stable code of an error, when it carries one. *)
Definition error_code (e : ImError) : option string :=
  match e with Service _ code _ _ => code | _ => None end.
