(* ===== verification/Effects.v ===== *)
(** * Stateful computations

    The sync runtime is a sequence of transactions and requests: an error ends
    the computation but does not undo what was committed before it. [RunM] is the
    state-and-error monad whose state survives an error, with the two forms of
    reasoning the components use: a relation between the states before and after
    ([moves]) and an invariant of the successful ones ([keeps]). *)

From S2P Require Import Prelude RustStr ImError.

(** ** State and errors *)

Definition RunM (S A : Type) : Type := S → ImResult A * S.
#[export] Instance run_ret S : MRet (RunM S) := λ A a s, (Ok a, s).
#[export] Instance run_bind S : MBind (RunM S) := λ A B f m s,
  match m s with
  | (Ok a, s') => f a s'
  | (Err e, s') => (Err e, s')
  end.
Definition lift {S A} (r : ImResult A) : RunM S A := λ s, (r, s).
Definition gets {S A} (f : S → A) : RunM S A := λ s, (Ok (f s), s).
Definition modify {S} (f : S → S) : RunM S unit := λ s, (Ok (), f s).
Fixpoint run_each {S A} (f : A → RunM S unit) (l : list A) : RunM S unit :=
  match l with
  | [] => mret ()
  | x :: l => _ ← f x; run_each f l
  end.

(** ** Reasoning *)

Lemma run_bind_Ok {S A B} (m : RunM S A) (f : A → RunM S B) s r s' :
  (m ≫= f) s = (Ok r, s') ↔ ∃ a s1, m s = (Ok a, s1) ∧ f a s1 = (Ok r, s').
Proof. unfold mbind, run_bind. destruct (m s) as [[a|e] s1]; naive_solver. Qed.

Lemma run_bind_Err {S A B} (m : RunM S A) (f : A → RunM S B) s e s' :
  (m ≫= f) s = (Err e, s') ↔
  m s = (Err e, s') ∨ ∃ a s1, m s = (Ok a, s1) ∧ f a s1 = (Err e, s').
Proof. unfold mbind, run_bind. destruct (m s) as [[a|e'] s1]; naive_solver. Qed.

Lemma run_bind_inv {S A B} (m : RunM S A) (f : A → RunM S B) s r s' :
  (m ≫= f) s = (r, s') →
  ∃ x s1, m s = (x, s1) ∧
    match x with Ok a => f a s1 = (r, s') | Err e => r = Err e ∧ s' = s1 end.
Proof. unfold mbind, run_bind. destruct (m s) as [[a|e] s1]; naive_solver. Qed.

Lemma lift_Ok_bind {S A B} (a : A) (f : A → RunM S B) s : (lift (Ok a) ≫= f) s = f a s.
Proof. done. Qed.
Lemma lift_Err_bind {S A B} e (f : A → RunM S B) s : (lift (Err e) ≫= f) s = (Err e, s).
Proof. done. Qed.

(** A computation relates the states before and after it, whatever its result;
    it preserves an invariant when it succeeds. *)
Definition moves {S A} (R : relation S) (m : RunM S A) : Prop :=
  ∀ s r s', m s = (r, s') → R s s'.
Definition keeps {S A} (P : S → Prop) (m : RunM S A) : Prop :=
  ∀ s a s', P s → m s = (Ok a, s') → P s'.

Section computations.
Context {S : Type}.

Lemma moves_bind {A B} (R : relation S) `{!Transitive R} (m : RunM S A) (f : A → RunM S B) :
  moves R m → (∀ a, moves R (f a)) → moves R (m ≫= f).
Proof.
  intros Hm Hf s r s'. unfold mbind, run_bind. destruct (m s) as [[a|e] s1] eqn:E; intros Hr.
  - etrans; [by eapply Hm|by eapply Hf].
  - injection Hr as _ <-. by eapply Hm.
Qed.
Lemma moves_each {A} (R : relation S) `{!Reflexive R, !Transitive R} (f : A → RunM S unit) l :
  (∀ x, moves R (f x)) → moves R (run_each f l).
Proof.
  intros Hf. induction l as [|x l IH]; simpl; [by intros s r s' [= <- <-]|].
  apply (moves_bind R); [apply Hf|done].
Qed.
Lemma keeps_bind {A B} (P : S → Prop) (m : RunM S A) (f : A → RunM S B) :
  keeps P m → (∀ a, keeps P (f a)) → keeps P (m ≫= f).
Proof. intros Hm Hf s b s' Hs (a & s1 & H1 & H2)%run_bind_Ok. eapply Hf; [|done]. by eapply Hm. Qed.
Lemma keeps_each {A} (P : S → Prop) (f : A → RunM S unit) l :
  (∀ x, keeps P (f x)) → keeps P (run_each f l).
Proof.
  intros Hf. induction l as [|x l IH]; simpl; [by intros s r s' ? [= <- <-]|].
  by apply (keeps_bind P).
Qed.
End computations.

(** ** Computations that a deadline may cut short

    The same under a timeout: a computation may also be cancelled where it waits,
    and a loop may use up the fuel it is given. *)

Inductive Flow (A : Type) : Type :=
| Returned (a : A)
| Failed (e : ImError)
| Cancelled
| OutOfFuel.
Arguments Returned {_} _.
Arguments Failed {_} _.
Arguments Cancelled {_}.
Arguments OutOfFuel {_}.

Definition FlowM (S A : Type) : Type := S → Flow A * S.
#[export] Instance flow_ret S : MRet (FlowM S) := λ A a s, (Returned a, s).
#[export] Instance flow_bind S : MBind (FlowM S) := λ A B f m s,
  match m s with
  | (Returned a, s') => f a s'
  | (Failed e, s') => (Failed e, s')
  | (Cancelled, s') => (Cancelled, s')
  | (OutOfFuel, s') => (OutOfFuel, s')
  end.

Definition of_result {S A} (r : ImResult A) : FlowM S A := λ s,
  match r with Ok a => (Returned a, s) | Err e => (Failed e, s) end.
Definition reads {S A} (f : S → A) : FlowM S A := λ s, (Returned (f s), s).
Definition writes {S} (f : S → S) : FlowM S unit := λ s, (Returned (), f s).

(** The result of a computation, its error included. *)
Definition attempt {S A} (m : FlowM S A) : FlowM S (ImResult A) := λ s,
  match m s with
  | (Returned a, s') => (Returned (Ok a), s')
  | (Failed e, s') => (Returned (Err e), s')
  | (Cancelled, s') => (Cancelled, s')
  | (OutOfFuel, s') => (OutOfFuel, s')
  end.

(** ** Reasoning about them

    [triple P m Q]: from a state in [P], the end of [m] (whichever it is) and its
    state are in [Q]. [leads R m]: [m] relates the states before and after it. *)

Definition triple {S A} (P : S → Prop) (m : FlowM S A) (Q : Flow A → S → Prop) : Prop :=
  ∀ s, P s → Q (m s).1 (m s).2.
Definition leads {S A} (R : relation S) (m : FlowM S A) : Prop := ∀ s, R s (m s).2.

(** A postcondition on returned values, [Q] deciding the other ends. *)
Definition or_else_post {S A B} (R : A → S → Prop) (Q : Flow B → S → Prop) : Flow A → S → Prop :=
  λ r s, match r with
         | Returned a => R a s
         | Failed e => Q (Failed e) s
         | Cancelled => Q Cancelled s
         | OutOfFuel => Q OutOfFuel s
         end.

Section flows.
Context {S : Type}.
Implicit Types (P : S → Prop) (R : relation S).

Lemma triple_bind {A B} P (m : FlowM S A) (f : A → FlowM S B) (M : A → S → Prop) Q :
  triple P m (or_else_post M Q) → (∀ a, triple (M a) (f a) Q) → triple P (m ≫= f) Q.
Proof.
  intros Hm Hf s Hs. specialize (Hm s Hs). unfold mbind, flow_bind.
  destruct (m s) as [[a|e| |] s']; [by apply Hf|done..].
Qed.
Lemma triple_weaken {A} P P' (m : FlowM S A) (Q Q' : Flow A → S → Prop) :
  triple P m Q → (∀ s, P' s → P s) → (∀ r s, Q r s → Q' r s) → triple P' m Q'.
Proof. intros Hm HP HQ s Hs. by apply HQ, Hm, HP. Qed.
Lemma triple_pure {A} P (φ : Prop) (m : FlowM S A) Q :
  (φ → triple P m Q) → triple (λ s, P s ∧ φ) m Q.
Proof. intros Hm s [Hs Hp]. by apply Hm. Qed.
Lemma triple_ret {A} P (a : A) Q : (∀ s, P s → Q (Returned a) s) → triple P (mret a) Q.
Proof. intros HQ s Hs. by apply HQ. Qed.
Lemma triple_of_result {A} P (r : ImResult A) Q :
  (∀ a s, P s → r = Ok a → Q (Returned a) s) → (∀ e s, P s → r = Err e → Q (Failed e) s) →
  triple P (of_result r) Q.
Proof. intros HO HE s Hs. unfold of_result. destruct r; [by apply HO|by apply HE]. Qed.
Lemma triple_attempt {A} P (m : FlowM S A) (Q : Flow (ImResult A) → S → Prop) :
  triple P m (λ r s, match r with
                     | Returned a => Q (Returned (Ok a)) s
                     | Failed e => Q (Returned (Err e)) s
                     | Cancelled => Q Cancelled s
                     | OutOfFuel => Q OutOfFuel s
                     end) → triple P (attempt m) Q.
Proof.
  intros Hm s Hs. specialize (Hm s Hs). unfold attempt. destruct (m s) as [[a|e| |] s']; done.
Qed.
Lemma triple_frame {A} P R (m : FlowM S A) (Q : Flow A → S → Prop) :
  leads R m → (∀ r s s', P s → R s s' → Q r s') → triple P m Q.
Proof. intros Hm HQ s Hs. by eapply HQ, Hm. Qed.

Lemma leads_bind {A B} R `{!Transitive R} (m : FlowM S A) (f : A → FlowM S B) :
  leads R m → (∀ a, leads R (f a)) → leads R (m ≫= f).
Proof.
  intros Hm Hf s. specialize (Hm s). unfold mbind, flow_bind.
  destruct (m s) as [[a|e| |] s']; [etrans; [done|apply Hf]|done..].
Qed.
Lemma leads_ret {A} R `{!Reflexive R} (a : A) : leads R (mret a).
Proof. by intros s. Qed.
Lemma leads_of_result {A} R `{!Reflexive R} (r : ImResult A) : leads R (of_result r).
Proof. intros s. by destruct r. Qed.
Lemma leads_reads {A} R `{!Reflexive R} (f : S → A) : leads R (reads f).
Proof. by intros s. Qed.
Lemma leads_attempt {A} R (m : FlowM S A) : leads R m → leads R (attempt m).
Proof. intros Hm s. specialize (Hm s). unfold attempt. by destruct (m s) as [[] s']. Qed.
End flows.
