(* ===== verification/Decimal.v ===== *)
(** * Decimal sequence numbers

    Cursors, epochs and sequence numbers travel as decimal strings of any
    length. [local_state/sync_v2.rs] compares and subtracts them without ever
    narrowing to a machine integer; [local_state/sync_state.rs] (the v1 delta
    store) parses them as [u64]. *)

From Stdlib Require Import Ascii.
From S2P Require Import Prelude RustStr ImError.

Local Open Scope Z_scope.
Local Coercion Z.of_nat : nat >-> Z.

(** ** local_state/sync_v2.rs *)

Definition validate_required (field value : string) : ImResult unit :=
  if is_empty (trim value) || negb (bool_decide (trim value = value)) then
    Err (invalid_input (Some field) (field +:+ " must be a non-empty canonical string"))
  else Ok ().

Definition decimal_ok (value : string) : bool :=
  negb (is_empty value || negb (all_digits value)
        || ((1 <? String.length value) && starts_with value "0")).

Definition validate_decimal (field value : string) : ImResult unit :=
  if is_empty value || negb (all_digits value)
     || ((1 <? String.length value) && starts_with value "0")
  then
    Err (invalid_input (Some field)
           (field +:+ " must be a canonical non-negative decimal string"))
  else Ok ().

Definition validate_positive_decimal (field value : string) : ImResult unit :=
  validate_decimal field value ≫= λ _,
  if bool_decide (value = "0") then
    Err (invalid_input (Some field)
           (field +:+ " must be a canonical positive decimal string"))
  else Ok ().

(** [Ordering::then_with]. *)
Definition then_with (c d : comparison) : comparison :=
  match c with Eq => d | _ => c end.

Definition decimal_order (left right : string) : comparison :=
  then_with (String.length left ?= String.length right) (str_cmp left right).

Definition compare_decimal (left right : string) : ImResult comparison :=
  validate_decimal "left_decimal" left ≫= λ _,
  validate_decimal "right_decimal" right ≫= λ _,
  Ok (then_with (String.length left ?= String.length right) (str_cmp left right)).

Definition compare_stream_position (left_epoch left_seq right_epoch right_seq : string)
  : ImResult comparison :=
  compare_decimal left_epoch right_epoch ≫= λ epoch_order,
  match epoch_order with
  | Eq => compare_decimal left_seq right_seq
  | _ => Ok epoch_order
  end.

(** One pass of the subtraction loop, least significant digit first: the digits
    of the minuend, the subtrahend digits still to consume (the source chains
    [repeat(0)] after them), and the borrow, an [i16]. *)
Fixpoint subtract_digits (digits remaining : list Z) (borrow : Z) : list Z :=
  match digits with
  | [] => []
  | digit :: digits =>
      let subtrahend := default 0 (head remaining) + borrow in
      if digit <? subtrahend
      then (digit + 10 - subtrahend) :: subtract_digits digits (tail remaining) 1
      else (digit - subtrahend) :: subtract_digits digits (tail remaining) 0
  end.

(** [digits[first_non_zero..]], keeping one digit of an all-zero list. *)
Fixpoint drop_leading_zeros (l : list Z) : list Z :=
  match l with
  | [] => []
  | d :: l' => if d =? 0 then match l' with [] => l | _ => drop_leading_zeros l' end else l
  end.

Definition subtract_small_decimal (value : string) (amount : Z)
  : ImResult (option string) :=
  validate_decimal "decimal" value ≫= λ _,
  let amount := u64_to_string amount in
  compare_decimal value amount ≫= λ order,
  match order with
  | Gt =>
      let digits := digit_value <$> bytes value in
      let remaining := digit_value <$> reverse (bytes amount) in
      let result := reverse (subtract_digits (reverse digits) remaining 0) in
      Ok (Some (of_bytes (digit_char <$> drop_leading_zeros result)))
  | _ => Ok None
  end.

(** ** local_state/sync_state.rs *)

(** Rust's [Debug] for [str]: exact for the ASCII range, where it escapes the
    quote, the backslash and control characters; bytes above are printed as is. *)
Definition hex_digit (n : Z) : ascii :=
  if n <? 10 then ascii_of_N (Z.to_N (n + 48)) else ascii_of_N (Z.to_N (n + 87)).
Definition debug_char (a : ascii) : list ascii :=
  let b := byte_of a in
  let bs := ascii_of_N 92 in
  if b =? 9 then [bs; ascii_of_N 116]
  else if b =? 10 then [bs; ascii_of_N 110]
  else if b =? 13 then [bs; ascii_of_N 114]
  else if b =? 0 then [bs; ascii_of_N 48]
  else if (b =? 34) || (b =? 92) then [bs; a]
  else if (b <? 32) || (b =? 127) then
    [bs; ascii_of_N 117; ascii_of_N 123]
      ++ (if b <? 16 then [] else [hex_digit (b / 16)]) ++ [hex_digit (b mod 16)]
      ++ [ascii_of_N 125]
  else [a].
Definition debug_str (s : string) : string :=
  of_bytes ([ascii_of_N 34] ++ (bytes s ≫= debug_char) ++ [ascii_of_N 34]).

Definition decimal_seq_error (value : string) : ImError :=
  invalid_input (Some "event_seq")
    ("sequence must be a non-negative decimal string: " +:+ debug_str value).

(** [str::parse::<u64>] on a non-empty string of digits: overflow is an error. *)
Definition parse_u64_digits (s : string) : option Z :=
  if decimal_value s <=? u64_max then Some (decimal_value s) else None.

Definition parse_decimal_seq (value : string) : ImResult Z :=
  let value := trim value in
  if is_empty value then Err (decimal_seq_error value)
  else if (1 <? String.length value) && starts_with value "0" then
    Err (decimal_seq_error value)
  else if negb (all_digits value) then Err (decimal_seq_error value)
  else ok_or (parse_u64_digits value) (decimal_seq_error value).

Definition normalize_decimal_seq (value : string) : ImResult string :=
  u64_to_string <$> parse_decimal_seq value.

Definition decimal_seq_gt (left right : string) : ImResult bool :=
  parse_decimal_seq left ≫= λ l,
  parse_decimal_seq right ≫= λ r,
  Ok (r <? l).

(** ** Canonical decimals and their values *)

(** The canonical decimals: what [validate_decimal] accepts. *)
Definition canonical (s : string) : Prop := decimal_ok s = true.

Lemma validate_decimal_Ok field s : validate_decimal field s = Ok () ↔ canonical s.
Proof.
  unfold validate_decimal, canonical, decimal_ok.
  destruct (_ || _ || _) eqn:E; simpl; naive_solver.
Qed.

Lemma validate_decimal_ok_any field s : canonical s → validate_decimal field s = Ok ().
Proof. apply validate_decimal_Ok. Qed.

Lemma validate_positive_decimal_Ok field s :
  validate_positive_decimal field s = Ok () ↔ canonical s ∧ s ≠ "0".
Proof.
  unfold validate_positive_decimal. rewrite <-(validate_decimal_Ok field).
  destruct (validate_decimal field s) as [[]|e]; simpl; [|naive_solver].
  case_bool_decide; naive_solver.
Qed.

(** A canonical decimal is either ["0"] or has a non-zero first digit. *)
Lemma canonical_digits s :
  canonical s →
  Forall (λ a, is_ascii_digit a = true) (bytes s)
  ∧ (s = "0" ∨ ∃ a l, bytes s = a :: l ∧ 1 ≤ digit_value a).
Proof.
  unfold canonical, decimal_ok, is_empty. intros H. bool_hyps.
  assert (Hd : Forall (λ a, is_ascii_digit a = true) (bytes s)) by by apply all_digits_spec.
  split; [done|].
  destruct s as [|a s]; [done|]. destruct (decide (digit_value a = 0)) as [Ha|Ha].
  - left. assert (a = "0"%char) as ->.
    { apply byte_of_inj. unfold digit_value in Ha. change (byte_of "0") with 48. lia. }
    match goal with H : _ && _ = false |- _ => rename H into Hz end.
    destruct s as [|b s]; [done|]. exfalso.
    apply andb_false_iff in Hz as [Hz%Z.ltb_ge|Hz]; [simpl in Hz; lia|].
    by vm_compute in Hz.
  - right. exists a, (bytes s). split; [done|].
    inversion Hd as [|?? Hda _]; subst. apply is_ascii_digit_value in Hda as [??]. lia.
Qed.

Lemma canonical_value_digits s :
  canonical s → Forall is_digit (digit_value <$> bytes s).
Proof.
  intros [H _]%canonical_digits. apply Forall_fmap. eapply Forall_impl; [exact H|].
  intros a. apply is_ascii_digit_value.
Qed.

Lemma canonical_nonempty s : canonical s → (0 < length (bytes s))%nat.
Proof.
  intros [_ [->|(a & l & -> & _)]]%canonical_digits; simpl; lia.
Qed.

Lemma canonical_value_lt s : canonical s → 0 ≤ decimal_value s < 10 ^ length (bytes s).
Proof.
  intros H%canonical_value_digits%digits_value_bound. by rewrite length_fmap in H.
Qed.

Lemma canonical_value_ge s :
  canonical s → s ≠ "0" → 10 ^ (length (bytes s) - 1) ≤ decimal_value s.
Proof.
  intros Hc Hn. pose proof (canonical_value_digits s Hc) as Hd.
  destruct (canonical_digits s Hc) as [_ [?|(a & l & E & Ha)]]; [done|].
  unfold decimal_value. rewrite E in *. simpl in *. inversion_clear Hd as [|?? _ Hl].
  rewrite digits_value_cons. apply digits_value_bound in Hl.
  rewrite length_fmap in *. replace (S (length l) - 1) with (Z.of_nat (length l)) by lia. nia.
Qed.

(** Lexicographic comparison of equally long digit lists is numeric. *)
Lemma lex_cmp_digits a b :
  length a = length b →
  Forall (λ x, is_ascii_digit x = true) a → Forall (λ x, is_ascii_digit x = true) b →
  lex_cmp a b = (digits_value (digit_value <$> a) ?= digits_value (digit_value <$> b)).
Proof.
  revert b. induction a as [|x a IH]; intros [|y b] Hl Ha Hb; simplify_eq/=; [done|].
  inversion_clear Ha as [|?? Hx Ha']. inversion_clear Hb as [|?? Hy Hb'].
  rewrite IH by done. rewrite !digits_value_cons, !length_fmap, <-Hl.
  assert (HA : Forall is_digit (digit_value <$> a)).
  { apply Forall_fmap. eapply Forall_impl; [exact Ha'|]. apply is_ascii_digit_value. }
  assert (HB : Forall is_digit (digit_value <$> b)).
  { apply Forall_fmap. eapply Forall_impl; [exact Hb'|]. apply is_ascii_digit_value. }
  apply digits_value_bound in HA, HB. rewrite length_fmap in HA, HB. rewrite <-Hl in HB.
  assert (∀ z, digit_value z = byte_of z - 48) as Hdv by done. rewrite !Hdv.
  set (A := digits_value (digit_value <$> a)) in *.
  set (B := digits_value (digit_value <$> b)) in *. clear IH Hdv.
  destruct (Z.compare_spec (byte_of x) (byte_of y)) as [E|E|E]; symmetry.
  - rewrite E. destruct (Z.compare_spec A B) as [E'|E'|E'].
    + rewrite E'. apply Z.compare_refl.
    + apply Z.compare_lt_iff. lia.
    + apply Z.compare_gt_iff. lia.
  - apply Z.compare_lt_iff. nia.
  - apply Z.compare_gt_iff. nia.
Qed.

(** Comparing by length, then bytewise, is comparing the numbers. *)
Lemma decimal_order_value l r :
  canonical l → canonical r →
  decimal_order l r = (decimal_value l ?= decimal_value r).
Proof.
  intros Hl Hr. unfold decimal_order. rewrite <-!bytes_length, str_cmp_lex.
  pose proof (canonical_value_lt l Hl). pose proof (canonical_value_lt r Hr).
  pose proof (canonical_nonempty l Hl). pose proof (canonical_nonempty r Hr).
  destruct (Z.compare_spec (length (bytes l)) (length (bytes r))) as [E|E|E]; simpl.
  - apply lex_cmp_digits; [lia|apply canonical_digits; done..].
  - symmetry. apply Z.compare_lt_iff.
    assert (r ≠ "0") by (intros ->; simpl in *; lia).
    pose proof (canonical_value_ge r Hr ltac:(done)).
    assert (10 ^ length (bytes l) ≤ 10 ^ (length (bytes r) - 1)); [|lia].
    apply Z.pow_le_mono_r; lia.
  - symmetry. apply Z.compare_gt_iff.
    assert (l ≠ "0") by (intros ->; simpl in *; lia).
    pose proof (canonical_value_ge l Hl ltac:(done)).
    assert (10 ^ length (bytes r) ≤ 10 ^ (length (bytes l) - 1)); [|lia].
    apply Z.pow_le_mono_r; lia.
Qed.

Lemma compare_decimal_value l r :
  canonical l → canonical r →
  compare_decimal l r = Ok (decimal_value l ?= decimal_value r).
Proof.
  intros Hl Hr. unfold compare_decimal.
  rewrite !validate_decimal_ok_any by done. simpl.
  f_equal. by apply decimal_order_value.
Qed.

Lemma compare_decimal_Ok_inv l r c :
  compare_decimal l r = Ok c →
  canonical l ∧ canonical r ∧ c = (decimal_value l ?= decimal_value r).
Proof.
  intros H. assert (canonical l ∧ canonical r) as [Hl Hr].
  { unfold compare_decimal in H. res_inv.
    repeat match goal with H : validate_decimal _ _ = Ok ?u |- _ =>
      destruct u; apply validate_decimal_Ok in H end. done. }
  rewrite compare_decimal_value in H by done. naive_solver.
Qed.

(** A canonical decimal is determined by its value. *)
Lemma canonical_value_inj l r :
  canonical l → canonical r → decimal_value l = decimal_value r → l = r.
Proof.
  intros Hl Hr E. pose proof (decimal_order_value l r Hl Hr) as H.
  rewrite E, Z.compare_refl in H. unfold decimal_order in H.
  destruct (_ ?= _) in H; simpl in H; [|done..]. by apply str_cmp_eq.
Qed.

Lemma u64_to_string_canonical n : 0 ≤ n → canonical (u64_to_string n).
Proof.
  intros Hn. destruct (u64_to_string_spec n Hn) as (Hd & Hv & Hz).
  destruct Hz as [->|(a & l & E & Ha)]; [done|].
  destruct (u64_to_string n) as [|b s] eqn:Es; [done|]. injection E as -> _.
  assert (starts_with (String a s) "0" = false) as Hs.
  { apply starts_with_head_ne. intros <-. by destruct Ha. }
  unfold canonical, decimal_ok. by rewrite Hd, Hs, andb_false_r.
Qed.

(** ** Subtraction *)

Definition digits_value_le (l : list Z) : Z := digits_value (reverse l).

Lemma digits_value_le_cons d l : digits_value_le (d :: l) = 10 * digits_value_le l + d.
Proof. unfold digits_value_le. by rewrite reverse_cons, digits_value_snoc. Qed.

Lemma length_subtract_digits ds rs b : length (subtract_digits ds rs b) = length ds.
Proof.
  revert rs b. induction ds as [|d ds IH]; intros rs b; simpl; [done|].
  destruct (d <? _); simpl; by rewrite IH.
Qed.

(** The loop subtracts modulo [10 ^ n], and every step keeps a digit: the
    [unwrap_or_default] conversions to [u8] never default. *)
Lemma subtract_digits_spec ds rs b :
  Forall is_digit ds → Forall is_digit rs → 0 ≤ b ≤ 1 → (length rs ≤ length ds)%nat →
  Forall is_digit (subtract_digits ds rs b)
  ∧ ∃ borrow, 0 ≤ borrow ≤ 1
    ∧ digits_value_le (subtract_digits ds rs b)
      = digits_value_le ds - digits_value_le rs - b + borrow * 10 ^ length ds.
Proof.
  intros Hds. revert rs b. induction Hds as [|d ds Hd Hds IH]; intros rs b Hrs Hb Hlen.
  { destruct rs; [|simpl in Hlen; lia]. split; [constructor|].
    exists b. split; [done|]. 
    change (0 = 0 - 0 - b + b * 1). lia. }
  simpl subtract_digits. set (r := default 0 (head rs)).
  assert (is_digit r ∧ Forall is_digit (tail rs)
               ∧ digits_value_le rs = 10 * digits_value_le (tail rs) + r
               ∧ (length (tail rs) ≤ length ds)%nat) as (Hr & Htl & Hrv & Hlen').
  { destruct Hrs as [|x rs Hx Hrs]; simpl in *.
    - split; [by split|]. split; [constructor|]. split; [done|lia].
    - rewrite digits_value_le_cons. split; [done|]. split; [done|]. split; [done|lia]. }
  destruct Hd as [Hd1 Hd2], Hr as [Hr1 Hr2].
  rewrite digits_value_le_cons, Hrv. simpl length.
  rewrite Nat2Z.inj_succ, Z.pow_succ_r by lia.
  destruct (Z.ltb_spec d (r + b)); rewrite digits_value_le_cons.
  - destruct (IH (tail rs) 1 Htl ltac:(lia) Hlen') as (Hf & bo & Hbo & ->).
    split; [constructor; [unfold is_digit; lia|done]|]. exists bo. split; [done|]. lia.
  - destruct (IH (tail rs) 0 Htl ltac:(lia) Hlen') as (Hf & bo & Hbo & ->).
    split; [constructor; [unfold is_digit; lia|done]|]. exists bo. split; [done|]. lia.
Qed.

Lemma drop_leading_zeros_spec l :
  Forall is_digit l → l ≠ [] →
  Forall is_digit (drop_leading_zeros l)
  ∧ digits_value (drop_leading_zeros l) = digits_value l
  ∧ (drop_leading_zeros l = [0] ∨ ∃ d k, drop_leading_zeros l = d :: k ∧ d ≠ 0).
Proof.
  intros Hl. induction Hl as [|d l Hd Hl IH]; [done|]. intros _. simpl.
  destruct (Z.eqb_spec d 0) as [->|Hd0].
  - destruct l as [|e l]; [split; [by repeat constructor|]; split; [done|by left]|].
    destruct IH as (H1 & H2 & H3); [done|]. split; [done|]. split; [|done].
    rewrite H2, (digits_value_cons 0). lia.
  - split; [by constructor|]. split; [done|right; eauto].
Qed.

Lemma canonical_of_digits l :
  Forall is_digit l → (l = [0] ∨ ∃ d k, l = d :: k ∧ d ≠ 0) →
  canonical (of_bytes (digit_char <$> l))
  ∧ decimal_value (of_bytes (digit_char <$> l)) = digits_value l.
Proof.
  intros Hl Hz. unfold decimal_value. rewrite bytes_of_bytes, map_digit_chars by done.
  split; [|done].
  assert (Hd : all_digits (of_bytes (digit_char <$> l)) = true).
  { apply all_digits_spec. rewrite bytes_of_bytes. apply Forall_fmap.
    eapply Forall_impl; [exact Hl|]. apply is_ascii_digit_char. }
  destruct Hz as [->|(d & k & -> & Hd0)]; [done|].
  unfold canonical, decimal_ok. rewrite Hd.
  assert (starts_with (String (digit_char d) (of_bytes (digit_char <$> k))) "0" = false) as Hs.
  { apply starts_with_head_ne. intros E.
    inversion_clear Hl as [|?? Hdd _]. apply (f_equal digit_value) in E.
    rewrite digit_value_char in E by done. by destruct Hd0. }
  change (of_bytes (digit_char <$> d :: k))
    with (String (digit_char d) (of_bytes (digit_char <$> k))) in *.
  by rewrite Hs, andb_false_r.
Qed.

Lemma subtract_small_decimal_value value amount :
  canonical value → 0 ≤ amount →
  ∃ r, subtract_small_decimal value amount = Ok r
  ∧ match r with
    | None => decimal_value value ≤ amount
    | Some s => canonical s ∧ decimal_value s = decimal_value value - amount
                ∧ 0 < decimal_value s
    end.
Proof.
  intros Hc Ha. unfold subtract_small_decimal.
  rewrite validate_decimal_ok_any by done. simpl.
  pose proof (u64_to_string_canonical amount Ha) as Hac.
  destruct (u64_to_string_spec amount Ha) as (_ & Hav & _).
  rewrite compare_decimal_value, Hav by done. simpl.
  destruct (Z.compare_spec (decimal_value value) amount) as [E|E|E];
    [exists None; split; [done|simpl; lia]..|].
  set (am := u64_to_string amount) in *.
  assert (Hlen : (length (bytes am) ≤ length (bytes value))%nat).
  { pose proof (decimal_order_value am value Hac Hc) as Ho.
    rewrite Hav in Ho. unfold decimal_order in Ho. rewrite <-!bytes_length in Ho.
    rewrite (proj2 (Z.compare_lt_iff amount (decimal_value value))) in Ho by lia.
    destruct (Z.compare_spec (length (bytes am)) (length (bytes value))); [lia..|done]. }
  pose proof (canonical_value_digits _ Hc) as Hds.
  pose proof (canonical_value_digits _ Hac) as Hrs.
  destruct (subtract_digits_spec (reverse (digit_value <$> bytes value))
    (digit_value <$> reverse (bytes am)) 0) as (Hf & bo & Hbo & Hv).
  { by apply Forall_reverse. }
  { rewrite fmap_reverse. by apply Forall_reverse. }
  { lia. }
  { by rewrite length_reverse, !length_fmap, length_reverse. }
  set (res := subtract_digits _ _ 0) in *.
  assert (Hval : digits_value (reverse res) = decimal_value value - amount).
  { pose proof (digits_value_bound (reverse res) ltac:(by apply Forall_reverse)) as Hb.
    unfold digits_value_le in Hv at 1. rewrite Hv in *.
    assert (Hl : length (reverse res) = length (bytes value)).
    { unfold res. by rewrite length_reverse, length_subtract_digits, length_reverse, length_fmap. }
    rewrite Hl in Hb. rewrite length_reverse, length_fmap in *.
    unfold digits_value_le in *. rewrite fmap_reverse, !reverse_involutive in *.
    change (digits_value (digit_value <$> bytes value)) with (decimal_value value) in *.
    change (digits_value (digit_value <$> bytes am)) with (decimal_value am) in *.
    assert (bo = 0 ∨ bo = 1) as [-> | ->] by lia; lia. }
  assert (Hne : reverse res ≠ []).
  { intros Hnil. rewrite Hnil in Hval. unfold digits_value in Hval. simpl in Hval. lia. }
  destruct (drop_leading_zeros_spec (reverse res)) as (H1 & H2 & H3);
    [by apply Forall_reverse|done|].
  destruct (canonical_of_digits _ H1 H3) as [H4 H5].
  eexists. split; [done|]. simpl. rewrite H5, H2, Hval. split; [done|]. lia.
Qed.

(** ** The v1 parser *)

Lemma parse_decimal_seq_Ok value n :
  parse_decimal_seq value = Ok n ↔
  canonical (trim value) ∧ decimal_value (trim value) = n ∧ n ≤ u64_max.
Proof.
  unfold parse_decimal_seq, canonical, decimal_ok, parse_u64_digits.
  destruct (is_empty (trim value)); [naive_solver|]. simpl.
  destruct (_ && starts_with _ _); simpl; [rewrite orb_true_r; naive_solver|].
  destruct (all_digits (trim value)); simpl; [|naive_solver].
  destruct (Z.leb_spec (decimal_value (trim value)) u64_max); simpl; naive_solver lia.
Qed.

Lemma parse_decimal_seq_nonneg value n : parse_decimal_seq value = Ok n → 0 ≤ n ≤ u64_max.
Proof.
  intros (Hc & <- & ?)%parse_decimal_seq_Ok. apply canonical_value_lt in Hc. lia.
Qed.

Lemma canonical_trimmed s : canonical s → trimmed s.
Proof.
  intros [H _]%canonical_digits. apply trimmed_digits. by apply all_digits_spec.
Qed.

Lemma parse_u64_to_string n :
  0 ≤ n ≤ u64_max → parse_decimal_seq (u64_to_string n) = Ok n.
Proof.
  intros Hn. apply parse_decimal_seq_Ok.
  pose proof (u64_to_string_canonical n ltac:(lia)) as Hc.
  rewrite (canonical_trimmed _ Hc). destruct (u64_to_string_spec n) as (_ & -> & _); [lia|].
  split; [done|lia].
Qed.

(** Normalising keeps the canonical text. *)
Lemma normalize_decimal_seq_Ok value s :
  normalize_decimal_seq value = Ok s ↔
  s = trim value ∧ canonical s ∧ decimal_value s ≤ u64_max.
Proof.
  unfold normalize_decimal_seq. split.
  - intros H. res_inv. match goal with H : parse_decimal_seq _ = Ok _ |- _ =>
      apply parse_decimal_seq_Ok in H as (Hc & <- & ?) end.
    pose proof (canonical_value_lt _ Hc) as [? _].
    assert (u64_to_string (decimal_value (trim value)) = trim value) as ->; [|done].
    apply canonical_value_inj; [by apply u64_to_string_canonical|done|].
    by apply u64_to_string_spec.
  - intros (-> & Hc & ?).
    assert (parse_decimal_seq value = Ok (decimal_value (trim value))) as ->.
    { by apply parse_decimal_seq_Ok. }
    simpl. f_equal. pose proof (canonical_value_lt _ Hc) as [? _].
    apply canonical_value_inj; [by apply u64_to_string_canonical|done|].
    by apply u64_to_string_spec.
Qed.

(** ** Claims *)

(** Ordering stream positions is lexicographic and numeric. The comparison
    succeeds exactly when the decimals it reads are canonical (the sequences are
    read only when the epochs are equal) and answers by the numbers the texts
    denote, whatever their size, although the code compares lengths and bytes. *)
Theorem stream_position_order_numeric le ls re rs c :
  compare_stream_position le ls re rs = Ok c ↔
  canonical le ∧ canonical re ∧
  (if decide (decimal_value le = decimal_value re)
   then canonical ls ∧ canonical rs ∧ c = (decimal_value ls ?= decimal_value rs)
   else c = (decimal_value le ?= decimal_value re)).
Proof.
  unfold compare_stream_position. split.
  - intros (c1 & (Hl & Hr & ->)%compare_decimal_Ok_inv & H)%bind_Ok.
    split; [done|]. split; [done|]. case_decide as E.
    + rewrite E, Z.compare_refl in H. by apply compare_decimal_Ok_inv in H.
    + destruct (Z.compare_spec (decimal_value le) (decimal_value re)); [done|congruence..].
  - intros (Hl & Hr & H). rewrite (compare_decimal_value le re) by done. simpl.
    case_decide as E.
    + destruct H as (?&?&->). rewrite E, Z.compare_refl. by apply compare_decimal_value.
    + destruct (Z.compare_spec (decimal_value le) (decimal_value re)); congruence.
Qed.

(** Subtracting a small amount from a canonical decimal of any length is
    exact: the result is the canonical text of the difference when it is
    positive, and absent otherwise; the routine never fails. *)
Theorem subtract_small_decimal_exact value amount :
  canonical value → 0 ≤ amount ≤ u32_max →
  ∃ r, subtract_small_decimal value amount = Ok r ∧
    match r with
    | None => decimal_value value ≤ amount
    | Some s => canonical s ∧ decimal_value s = decimal_value value - amount ∧
                0 < decimal_value s
    end.
Proof. intros ? []. by apply subtract_small_decimal_value. Qed.

Lemma subtract_small_decimal_exact_witness :
  ∃ r, subtract_small_decimal "100000000000000000000000" 1000 = Ok r ∧
    match r with
    | None => decimal_value "100000000000000000000000" ≤ 1000
    | Some s => canonical s ∧
        decimal_value s = decimal_value "100000000000000000000000" - 1000 ∧
        0 < decimal_value s
    end.
Proof.
  apply (subtract_small_decimal_exact "100000000000000000000000" 1000).
  - vm_compute. reflexivity.
  - unfold u32_max. lia.
Defined.

(** Reading and printing 64-bit sequence numbers round-trips: a printed
    sequence parses to itself, and a text that parses is, once trimmed, the
    printed form of what it parses to. *)
Theorem decimal_seq_roundtrip n value :
  0 ≤ n ≤ u64_max →
  parse_decimal_seq (u64_to_string n) = Ok n ∧
  (parse_decimal_seq value = Ok n ↔ trim value = u64_to_string n) ∧
  (trim value = u64_to_string n → normalize_decimal_seq value = Ok (trim value)).
Proof.
  intros Hn. pose proof (u64_to_string_canonical n ltac:(lia)) as Hc.
  destruct (u64_to_string_spec n) as (_ & Hv & _); [lia|].
  split; [by apply parse_u64_to_string|]. split.
  - rewrite parse_decimal_seq_Ok. split.
    + intros (Hc' & E & _). apply canonical_value_inj; congruence.
    + intros ->. split; [done|]. lia.
  - intros E. apply normalize_decimal_seq_Ok. rewrite E. split; [done|]. split; [done|lia].
Qed.

Lemma decimal_seq_roundtrip_witness :
  parse_decimal_seq (u64_to_string 18446744073709551615) = Ok 18446744073709551615.
Proof.
  refine (proj1 (decimal_seq_roundtrip 18446744073709551615 "0" _)).
  unfold u64_max. lia.
Defined.
