(* ===== verification/Dto.v ===== *)
(** * Message-sync data transfer objects

    The request, outcome and update records of
    [crates/im-core/src/messages/dto.rs] that the sync engine exchanges. The
    public [Message] projection is a type parameter: the engine only carries it. *)

From S2P Require Import Prelude RustStr ImError.

Inductive MessageSyncStatus : Type :=
| Idle
| Changed
| RecoveryRequired
| RetryableFailure
| AuthRevoked
| SyncBlocked.
#[export] Instance MessageSyncStatus_eq_dec : EqDecision MessageSyncStatus.
Proof. solve_decision. Defined.

Record MessageSyncRequest : Type := {
  reason : string;
  limit : option Z
}.

Inductive MessageDirection : Type := Outgoing | Incoming | UnknownDirection.
#[export] Instance MessageDirection_eq_dec : EqDecision MessageDirection.
Proof. solve_decision. Defined.

Section Dto.
Context {Message : Type}.

Record CommittedIncomingMessage : Type := {
  cim_event_id : string;
  cim_logical_message_id : string;
  cim_source : string;
  cim_direction : MessageDirection;
  cim_message : Message
}.

Record MessageSyncOutcome : Type := {
  so_status : MessageSyncStatus;
  so_events_applied : Z;
  so_pages_fetched : Z;
  so_messages_hydrated : Z;
  so_duplicates_skipped : Z;
  so_older_history_excluded : bool;
  so_changed_conversation_ids : list string;
  so_committed_incoming_messages : list CommittedIncomingMessage;
  so_error_code : option string;
  so_warnings : list string
}.

Record MessageReceiveOutcome : Type := {
  ro_status : MessageSyncStatus;
  ro_complete : bool;
  ro_events_received : Z;
  ro_pages_fetched : Z;
  ro_messages_hydrated : Z;
  ro_duplicates_skipped : Z;
  ro_older_history_excluded : bool;
  ro_error_code : option string;
  ro_warnings : list string
}.

Definition status_succeeded (s : MessageSyncStatus) : bool :=
  match s with Idle | Changed => true | _ => false end.

Definition from_receive_run (value : MessageSyncOutcome) : MessageReceiveOutcome := {|
  ro_status := so_status value;
  ro_complete :=
    status_succeeded (so_status value)
    && negb (existsb (λ w, bool_decide (w = "sync.budget_exhausted")
                           || starts_with w "sync.lane.") (so_warnings value));
  ro_events_received := so_events_applied value;
  ro_pages_fetched := so_pages_fetched value;
  ro_messages_hydrated := so_messages_hydrated value;
  ro_duplicates_skipped := so_duplicates_skipped value;
  ro_older_history_excluded := so_older_history_excluded value;
  ro_error_code := so_error_code value;
  ro_warnings := so_warnings value
|}.

Definition compatibility_outcome (self : MessageReceiveOutcome) : MessageSyncOutcome := {|
  so_status := ro_status self;
  so_events_applied := 0;
  so_pages_fetched := ro_pages_fetched self;
  so_messages_hydrated := ro_messages_hydrated self;
  so_duplicates_skipped := ro_duplicates_skipped self;
  so_older_history_excluded := ro_older_history_excluded self;
  so_changed_conversation_ids := [];
  so_committed_incoming_messages := [];
  so_error_code := ro_error_code self;
  so_warnings := ro_warnings self
|}.

Inductive MessageProcessingStatus : Type :=
| Applied
| Retrying
| Blocked
| Discarded
| ResyncRequired.

Record MessageProcessingUpdate : Type := {
  up_event_id : string;
  up_status : MessageProcessingStatus;
  up_changed_conversation_ids : list string;
  up_committed_incoming_messages : list CommittedIncomingMessage;
  up_error_code : option string
}.

Record MessageProcessingOutcome : Type := {
  po_complete : bool;
  po_pending_count : Z;
  po_blocked_count : Z;
  po_discarded_count : Z;
  po_events_applied : Z;
  po_changed_conversation_ids : list string;
  po_committed_incoming_messages : list CommittedIncomingMessage;
  po_error_code : option string
}.
End Dto.
Arguments CommittedIncomingMessage : clear implicits.
Arguments MessageSyncOutcome : clear implicits.
Arguments MessageProcessingUpdate : clear implicits.
Arguments MessageProcessingOutcome : clear implicits.
#[export] Instance MessageProcessingStatus_eq_dec : EqDecision MessageProcessingStatus.
Proof. solve_decision. Defined.
