(* ===== verification/Coordinator.v ===== *)
(** * The message-sync coordinator

    [message_runtime/sync_coordinator.rs]: one coordinator per owner coalesces
    concurrent sync requests into a sequence of runs. A request either joins the
    active run, or asks for one more run after it. The registration, completion
    and drop-guard handlers run under the coordinator's mutex; [step] interleaves
    them with the asynchronous run in progress. *)

From S2P Require Import Prelude RustStr ImError Dto.

Local Open Scope Z_scope.

Inductive MessageSyncRequestKind : Type :=
| EnsureCurrent
| DirtyAfterCurrent.

Notation RunResult := (ImResult MessageReceiveOutcome).

(** ** Handlers *)

Section Coordinator.
(** The executor closure and the sending half of a oneshot channel. *)
Context {Executor : Type}.
Notation Chan := nat.

Record PendingSyncRun : Type := {
  p_request : MessageSyncRequest;
  p_executor : Executor
}.

Record SyncWaiter : Type := {
  target_run_id : Z;
  sender : Chan
}.

Record MessageSyncCoordinatorState : Type := {
  last_started_run_id : Z;
  active_run_id : option Z;
  pending : option PendingSyncRun;
  waiters : list SyncWaiter
}.

Record MessageSyncLeaderRun : Type := {
  run_id : Z;
  l_request : MessageSyncRequest;
  l_executor : Executor
}.

Definition initial : MessageSyncCoordinatorState := {|
  last_started_run_id := 0;
  active_run_id := None;
  pending := None;
  waiters := []
|}.

Definition next_run_id (current : Z) : ImResult Z :=
  ok_or (u64_checked_add current 1)
    (Internal "message sync coordinator run id exhausted").

Definition merge_limit (left right : option Z) : option Z :=
  match left, right with
  | Some l, Some r => Some (Z.max l r)
  | Some l, None => Some l
  | None, r => r
  end.

Definition merge_pending_request (pending : PendingSyncRun)
    (request : MessageSyncRequest) (executor : Executor) : PendingSyncRun := {|
  p_request := {|
    reason := reason request;
    limit := merge_limit (limit (p_request pending)) (limit request)
  |};
  p_executor := executor
|}.

(** [register]: the new state, the run the caller must lead if any, and the
    run the waiter is bound to. An error leaves the state unchanged. *)
Definition register (state : MessageSyncCoordinatorState)
    (request : MessageSyncRequest) (kind : MessageSyncRequestKind)
    (executor : Executor) (sender : Chan)
  : ImResult (MessageSyncCoordinatorState * option MessageSyncLeaderRun) :=
  '(target, leader, last, active, pend) ←
    match active_run_id state with
    | None =>
        id ← next_run_id (last_started_run_id state);
        Ok (id,
            Some {| run_id := id; l_request := request; l_executor := executor |},
            id, Some id, pending state)
    | Some active =>
        match kind with
        | EnsureCurrent =>
            target ← match pending state with
                     | Some _ => next_run_id active
                     | None => Ok active
                     end;
            Ok (target, None, last_started_run_id state, Some active, pending state)
        | DirtyAfterCurrent =>
            target ← next_run_id active;
            let pend :=
              match pending state with
              | Some p => merge_pending_request p request executor
              | None => {| p_request := request; p_executor := executor |}
              end in
            Ok (target, None, last_started_run_id state, Some active, Some pend)
        end
    end;
  Ok ({| last_started_run_id := last;
         active_run_id := active;
         pending := pend;
         waiters := waiters state
                    ++ [{| target_run_id := target; sender := sender |}] |},
      leader).

Definition shared_result_succeeded (result : RunResult) : bool :=
  match result with
  | Ok outcome => status_succeeded (ro_status outcome)
  | Err _ => false
  end.

(** What the handlers send on the waiters' channels. *)
Notation Sends := (list (Chan * RunResult)).

Definition due (run_id : Z) (w : SyncWaiter) : bool := target_run_id w <=? run_id.

Definition send_all (ws : list SyncWaiter) (result : RunResult) : Sends :=
  (λ w, (sender w, result)) <$> ws.

Definition publish_waiters_through (state : MessageSyncCoordinatorState)
    (run_id : Z) (result : RunResult) : MessageSyncCoordinatorState * Sends :=
  ({| last_started_run_id := last_started_run_id state;
      active_run_id := active_run_id state;
      pending := pending state;
      waiters := delete_where (due run_id) (waiters state) |},
   send_all (select_where (due run_id) (waiters state)) result).

Definition publish_all_waiters (state : MessageSyncCoordinatorState)
    (result : RunResult) : MessageSyncCoordinatorState * Sends :=
  ({| last_started_run_id := last_started_run_id state;
      active_run_id := active_run_id state;
      pending := pending state;
      waiters := [] |},
   send_all (waiters state) result).

Definition set_active (state : MessageSyncCoordinatorState) (a : option Z) :=
  {| last_started_run_id := last_started_run_id state;
     active_run_id := a;
     pending := pending state;
     waiters := waiters state |}.
Definition set_pending (state : MessageSyncCoordinatorState)
    (p : option PendingSyncRun) :=
  {| last_started_run_id := last_started_run_id state;
     active_run_id := active_run_id state;
     pending := p;
     waiters := waiters state |}.
Definition set_last_started (state : MessageSyncCoordinatorState) (id : Z) :=
  {| last_started_run_id := id;
     active_run_id := active_run_id state;
     pending := pending state;
     waiters := waiters state |}.

Definition fail_all_waiters (state : MessageSyncCoordinatorState) (error : ImError)
  : MessageSyncCoordinatorState * Sends :=
  publish_all_waiters (set_active (set_pending state None) None) (Err error).

Definition complete_run (state : MessageSyncCoordinatorState) (run_id : Z)
    (result : RunResult)
  : MessageSyncCoordinatorState * Sends * option MessageSyncLeaderRun :=
  if negb (bool_decide (active_run_id state = Some run_id)) then
    (fail_all_waiters state
       (Internal "message sync coordinator active run changed unexpectedly"), None)
  else
    let '(state, sent) := publish_waiters_through state run_id result in
    if shared_result_succeeded result then
      match pending state with
      | Some p =>
          let state := set_pending state None in
          match next_run_id run_id with
          | Ok next =>
              (set_active (set_last_started state next) (Some next), sent,
               Some {| run_id := next; l_request := p_request p;
                       l_executor := p_executor p |})
          | Err error =>
              let '(state, sent') := fail_all_waiters state error in
              (state, sent ++ sent', None)
          end
      | None =>
          let state := set_active state None in
          match waiters state with
          | [] => (state, sent, None)
          | _ :: _ =>
              let '(state, sent') := fail_all_waiters state
                (Internal "message sync coordinator left uncovered waiters") in
              (state, sent ++ sent', None)
          end
      end
    else
      let state := set_pending state None in
      let '(state, sent') := publish_all_waiters state result in
      (set_active state None, sent ++ sent', None).

Definition fail_unfinished_run (state : MessageSyncCoordinatorState)
  : MessageSyncCoordinatorState * Sends :=
  match active_run_id state, waiters state with
  | None, [] => (state, [])
  | _, _ =>
      fail_all_waiters state
        (LocalStateUnavailable "message sync coordinator task stopped before completion")
  end.

(** ** Interleavings

    [execute] registers and, when it is told to lead, spawns a task whose loop
    is: run the executor, [complete_run], continue with the run it returns.
    [running] is that task's current run. Dropping the task (a panic or a
    runtime shutdown) while its executor is pending runs the completion guard.
    The [history] and the run tags of [delivered] are ghost state: which run
    was active when a channel was registered, and which run's completion
    answered it ([None] for the guard). *)

Record Config : Type := {
  coordinator : MessageSyncCoordinatorState;
  running : option MessageSyncLeaderRun;
  history : list (Chan * (MessageSyncRequestKind * option Z));
  delivered : list (option Z * (Chan * RunResult))
}.

Definition init_config : Config := {|
  coordinator := initial; running := None; history := []; delivered := []
|}.

Definition answered (c : Config) : list Chan := (λ d, d.2.1) <$> delivered c.
Definition registered (c : Config) : list Chan := (history c).*1.

(** [execute] up to the point where it waits on its receiver. *)
Definition execute (c : Config) (request : MessageSyncRequest)
    (kind : MessageSyncRequestKind) (executor : Executor) (ch : Chan)
  : ImResult Config :=
  '(st, leader) ← register (coordinator c) request kind executor ch;
  Ok {| coordinator := st;
        running := match leader with Some l => Some l | None => running c end;
        history := history c ++ [(ch, (kind, active_run_id (coordinator c)))];
        delivered := delivered c |}.

(** One iteration of [run]'s loop: the executor returned [result]. *)
Definition finish_run (c : Config) (l : MessageSyncLeaderRun) (result : RunResult)
  : Config :=
  let '(st, sent, next) := complete_run (coordinator c) (run_id l) result in
  {| coordinator := st;
     running := next;
     history := history c;
     delivered := delivered c ++ ((λ s, (Some (run_id l), s)) <$> sent) |}.

(** The task is dropped while its executor is pending. *)
Definition abort_run (c : Config) : Config :=
  let '(st, sent) := fail_unfinished_run (coordinator c) in
  {| coordinator := st;
     running := None;
     history := history c;
     delivered := delivered c ++ ((λ s, (None, s)) <$> sent) |}.

Inductive step : Config → Config → Prop :=
| step_execute c request kind executor ch c' :
    ch ∉ registered c →
    execute c request kind executor ch = Ok c' →
    step c c'
| step_finish c l result :
    running c = Some l →
    step c (finish_run c l result)
| step_abort c l :
    running c = Some l →
    step c (abort_run c).

Definition reachable : Config → Prop := rtc step init_config.

(** ** The invariant *)

(** Where a waiter may point: at the active run, or at the one after it, and
    then a pending run exists to answer it. *)
Definition waiter_covered (st : MessageSyncCoordinatorState) (r : Z) (w : SyncWaiter) : Prop :=
  target_run_id w = r ∨ (target_run_id w = r + 1 ∧ is_Some (pending st)).

Definition coord_inv (st : MessageSyncCoordinatorState) : Prop :=
  0 ≤ last_started_run_id st ≤ u64_max ∧
  match active_run_id st with
  | None => waiters st = [] ∧ pending st = None
  | Some r => last_started_run_id st = r
              ∧ (is_Some (pending st) → r + 1 ≤ u64_max)
              ∧ Forall (waiter_covered st r) (waiters st)
  end.

(** What a registration is owed: a dirty request needs a run started after the
    one active at its registration, an ensure request that run or a later one. *)
Definition demand (reg : MessageSyncRequestKind * option Z) : option Z :=
  match reg with
  | (_, None) => None
  | (EnsureCurrent, Some r) => Some r
  | (DirtyAfterCurrent, Some r) => Some (r + 1)
  end.
Definition meets (reg : MessageSyncRequestKind * option Z) (r : Z) : Prop :=
  match demand reg with None => True | Some d => d ≤ r end.

Definition waiter_meets (h : list (Chan * (MessageSyncRequestKind * option Z)))
    (w : SyncWaiter) : Prop :=
  ∀ reg, (sender w, reg) ∈ h → meets reg (target_run_id w).

Definition delivery_meets (h : list (Chan * (MessageSyncRequestKind * option Z)))
    (d : option Z * (Chan * RunResult)) : Prop :=
  shared_result_succeeded d.2.2 = true →
  ∃ r, d.1 = Some r ∧ ∀ reg, (d.2.1, reg) ∈ h → meets reg r.

Record config_inv (c : Config) : Prop := {
  inv_coord : coord_inv (coordinator c);
  inv_running : active_run_id (coordinator c) = run_id <$> running c;
  inv_channels :
    answered c ++ (sender <$> waiters (coordinator c)) ≡ₚ registered c;
  inv_nodup : NoDup (registered c);
  inv_waiters : Forall (waiter_meets (history c)) (waiters (coordinator c));
  inv_delivered : Forall (delivery_meets (history c)) (delivered c)
}.

(** ** Handler lemmas *)

Lemma next_run_id_Ok r n : next_run_id r = Ok n ↔ n = r + 1 ∧ r + 1 ≤ u64_max.
Proof. unfold next_run_id. by rewrite ok_or_Ok, u64_checked_add_Some. Qed.

Lemma coord_inv_initial : coord_inv initial.
Proof. unfold coord_inv. simpl. done. Qed.

(** A registration appends exactly its own waiter, meets its demand and keeps
    the invariant; it leads a run exactly when none was active. *)
Lemma register_spec st request kind executor ch st' leader :
  coord_inv st →
  register st request kind executor ch = Ok (st', leader) →
  coord_inv st'
  ∧ (∃ w, waiters st' = waiters st ++ [w] ∧ sender w = ch
          ∧ meets (kind, active_run_id st) (target_run_id w))
  ∧ match active_run_id st with
    | None => ∃ l, leader = Some l ∧ active_run_id st' = Some (run_id l)
    | Some r => leader = None ∧ active_run_id st' = Some r
    end.
Proof.
  unfold coord_inv, register. intros [Hlast Hinv] H.
  destruct (active_run_id st) as [r|] eqn:Hact.
  2: { destruct Hinv as [Hw Hp]. res_inv.
    match goal with H : next_run_id _ = Ok _ |- _ => apply next_run_id_Ok in H as [-> ?] end.
    rewrite Hw, Hp. split; [|split; [|by eexists]].
    - split; [lia|]. split; [done|]. split; [by intros [??]|].
      constructor; [by left|constructor].
    - eexists. split; [done|]. split; [done|]. by destruct kind. }
  destruct Hinv as (Hl & Hmax & Hw).
  destruct kind.
  - res_inv. split; [|split; [|done]].
    + split; [lia|]. split; [done|]. split; [done|].
      apply Forall_app. split; [done|]. constructor; [|constructor].
      destruct (pending st) eqn:Hp; res_inv; [|by left].
      right. match goal with H : next_run_id _ = Ok _ |- _ =>
        apply next_run_id_Ok in H as [-> ?] end. done.
    + eexists. split; [done|]. split; [done|]. simpl.
      destruct (pending st) eqn:Hp; res_inv; [|unfold meets; simpl; lia].
      match goal with H : next_run_id _ = Ok _ |- _ =>
        apply next_run_id_Ok in H as [-> ?] end. unfold meets; simpl; lia.
  - res_inv. match goal with H : next_run_id _ = Ok _ |- _ =>
      apply next_run_id_Ok in H as [-> ?] end.
    split; [|split; [|done]].
    + split; [lia|]. split; [done|]. split; [done|].
      apply Forall_app. split.
      * eapply Forall_impl; [exact Hw|]. intros w [?|[? _]]; [by left|right].
        split; [done|by eexists].
      * constructor; [|constructor]. right. split; [done|by eexists].
    + eexists. split; [done|]. split; [done|]. unfold meets; simpl; lia.
Qed.

Lemma send_all_app ws1 ws2 res : send_all (ws1 ++ ws2) res = send_all ws1 res ++ send_all ws2 res.
Proof. apply fmap_app. Qed.

Lemma select_delete_perm (p : SyncWaiter → bool) ws :
  select_where p ws ++ delete_where p ws ≡ₚ ws.
Proof.
  unfold select_where, delete_where. induction ws as [|w ws IH]; [done|].
  rewrite !filter_cons. destruct (p w) eqn:E; repeat case_decide; simplify_eq/=.
  - by rewrite IH.
  - by rewrite <-Permutation_middle, IH.
Qed.

(** Without a pending run every waiter is bound to the active run. *)
Lemma covered_no_pending st r ws :
  pending st = None → Forall (waiter_covered st r) ws → Forall (λ w, target_run_id w = r) ws.
Proof.
  intros Hp Hf. eapply Forall_impl; [exact Hf|].
  intros w [?|[_ [? Hs]]]; [done|congruence].
Qed.

Lemma select_due_targets st r ws :
  Forall (waiter_covered st r) ws →
  Forall (λ w, target_run_id w = r) (select_where (due r) ws)
  ∧ Forall (λ w, target_run_id w = r + 1) (delete_where (due r) ws).
Proof.
  rewrite !Forall_forall. intros H. split; intros w Hw.
  - apply elem_of_select_where in Hw as [Hw Hd]. unfold due in Hd. bool_hyps.
    destruct (H w Hw) as [?|[? _]]; lia.
  - apply elem_of_delete_where in Hw as [Hw Hd]. unfold due in Hd. bool_hyps.
    destruct (H w Hw) as [?|[? _]]; lia.
Qed.

Lemma delete_due_nil r ws :
  Forall (λ w, target_run_id w = r) ws →
  delete_where (due r) ws = [] ∧ select_where (due r) ws = ws.
Proof.
  induction 1 as [|w ws Hw _ [IH1 IH2]]; [done|].
  unfold delete_where, select_where in *. rewrite !filter_cons, IH1, IH2.
  unfold due. rewrite Hw, Z.leb_refl. by repeat case_decide.
Qed.

(** Completing the active run answers a set of waiters with the run's own
    result, keeps the rest, and preserves the invariant. A successful result
    reaches only waiters bound to this run. *)
Lemma complete_run_spec st r res st' sent next :
  coord_inv st → active_run_id st = Some r →
  complete_run st r res = (st', sent, next) →
  coord_inv st' ∧ active_run_id st' = run_id <$> next
  ∧ ∃ ws, sent = send_all ws res
          ∧ ws ++ waiters st' ≡ₚ waiters st
          ∧ (shared_result_succeeded res = true → Forall (λ w, target_run_id w = r) ws).
Proof.
  intros [Hlast Hinv] Hact. rewrite Hact in Hinv. destruct Hinv as (Hl & Hmax & Hw).
  unfold complete_run. rewrite bool_decide_true by done. simpl.
  destruct (select_due_targets st r (waiters st) Hw) as [Hsel Hdel].
  destruct (shared_result_succeeded res) eqn:Hok.
  - destruct (pending st) as [p|] eqn:Hp.
    + assert (next_run_id r = Ok (r + 1)) as ->.
      { apply next_run_id_Ok. split; [done|]. apply Hmax. by eexists. }
      intros [= <- <- <-]. split; [|split; [done|]].
      * unfold coord_inv. simpl. assert (r + 1 ≤ u64_max) by (apply Hmax; by eexists).
        split; [lia|]. split; [done|]. split; [by intros [??]|].
        eapply Forall_impl; [exact Hdel|]. intros w ?. by left.
      * exists (select_where (due r) (waiters st)).
        split; [done|]. split; [apply select_delete_perm|done].
    + pose proof (covered_no_pending st r _ Hp Hw) as Htgt.
      destruct (delete_due_nil r _ Htgt) as [Hnil Hall]. rewrite Hnil, Hall. simpl.
      intros [= <- <- <-]. split; [|split; [done|]].
      * unfold coord_inv. simpl. done.
      * exists (waiters st). split; [done|]. by rewrite app_nil_r.
  - intros [= <- <- <-]. split; [|split; [done|]].
    + unfold coord_inv. simpl. done.
    + exists (select_where (due r) (waiters st) ++ delete_where (due r) (waiters st)).
      split; [by rewrite send_all_app|]. rewrite app_nil_r. split; [apply select_delete_perm|done].
Qed.

Lemma fail_unfinished_run_spec st st' sent :
  coord_inv st → fail_unfinished_run st = (st', sent) →
  coord_inv st' ∧ active_run_id st' = None
  ∧ ∃ e, sent = send_all (waiters st) (Err e) ∧ waiters st' = [].
Proof.
  intros [Hlast Hinv]. unfold fail_unfinished_run.
  destruct (active_run_id st) as [r|] eqn:Hact.
  - intros [= <- <-]. split; [done|]. split; [done|]. by eexists.
  - destruct Hinv as [Hw Hp]. rewrite Hw. intros [= <- <-].
    split; [unfold coord_inv; by rewrite Hact|]. split; [done|].
    exists (Internal "unused"). done.
Qed.

(** ** Preservation *)

Lemma config_inv_init : config_inv init_config.
Proof.
  constructor; simpl; [apply coord_inv_initial|done|done|constructor|constructor|constructor].
Qed.

Lemma waiter_meets_app h w ch reg :
  waiter_meets h w → sender w ≠ ch → waiter_meets (h ++ [(ch, reg)]) w.
Proof.
  intros Hw Hne reg' [Hin|Hin%list_elem_of_singleton]%elem_of_app; [by apply Hw|naive_solver].
Qed.

Lemma delivery_meets_app h d ch reg :
  delivery_meets h d → d.2.1 ≠ ch → delivery_meets (h ++ [(ch, reg)]) d.
Proof.
  intros Hd Hne Hok. destruct (Hd Hok) as (r & Hr & Hm). exists r. split; [done|].
  intros reg' [Hin|Hin%list_elem_of_singleton]%elem_of_app; [by apply Hm|naive_solver].
Qed.

Lemma inv_execute c request kind executor ch c' :
  config_inv c → ch ∉ registered c →
  execute c request kind executor ch = Ok c' → config_inv c'.
Proof.
  intros [Hco Hrun Hch Hnd Hw Hd] Hfresh H. unfold execute in H.
  apply bind_Ok in H as ([st leader] & Hreg & H). simplify_eq.
  destruct (register_spec _ _ _ _ _ _ _ Hco Hreg) as (Hco' & (w & Hws & Hs & Hm) & Hlead).
  assert (Hans : ∀ ch', ch' ∈ answered c ++ (sender <$> waiters (coordinator c)) → ch' ≠ ch).
  { intros ch' Hin ->. apply Hfresh. by rewrite Hch in Hin. }
  constructor; simpl.
  - done.
  - destruct (active_run_id (coordinator c)) as [r|]; [by destruct Hlead as [-> ->]|].
    by destruct Hlead as (l & -> & ->).
  - unfold answered, registered in *. simpl.
    rewrite Hws, fmap_app, (fmap_app fst), app_assoc, Hch. simpl. by rewrite Hs.
  - unfold registered. simpl. rewrite fmap_app. simpl. apply NoDup_app.
    split; [done|]. split; [|apply NoDup_singleton].
    intros x Hx ->%list_elem_of_singleton. done.
  - rewrite Hws. apply Forall_app. split.
    + rewrite Forall_forall in *. intros w' Hw'. apply waiter_meets_app; [by apply Hw|].
      apply Hans. apply elem_of_app. right. by apply list_elem_of_fmap_2.
    + constructor; [|constructor]. intros reg. rewrite Hs.
      intros [Hin|Hin%list_elem_of_singleton]%elem_of_app; [|by simplify_eq].
      destruct Hfresh. by apply (list_elem_of_fmap_2 fst) in Hin.
  - rewrite Forall_forall in *. intros d Hdin. apply delivery_meets_app; [by apply Hd|].
    apply Hans. apply elem_of_app. left. by apply (list_elem_of_fmap_2 (λ d, d.2.1)).
Qed.

Lemma inv_finish c l res : config_inv c → running c = Some l → config_inv (finish_run c l res).
Proof.
  intros [Hco Hrun Hch Hnd Hw Hd] Hl. unfold finish_run.
  rewrite Hl in Hrun. simpl in Hrun.
  destruct (complete_run _ _ _) as [[st sent] next] eqn:Hc.
  destruct (complete_run_spec _ _ _ _ _ _ Hco Hrun Hc)
    as (Hco' & Hnext & ws & -> & Hperm & Htgt).
  constructor; simpl; [done|done| |done| |].
  - unfold answered, registered in *. simpl. rewrite <-Hch, fmap_app, <-app_assoc.
    f_equiv. rewrite <-Hperm, fmap_app. f_equiv.
    unfold send_all. by rewrite <-!list_fmap_compose.
  - rewrite Forall_forall in *. intros w Hwin. apply Hw. rewrite <-Hperm.
    apply elem_of_app. by right.
  - apply Forall_app. split; [done|]. apply Forall_forall.
    intros d (s & -> & (w & -> & Hwin)%list_elem_of_fmap)%list_elem_of_fmap Hok. simpl in *.
    exists (run_id l). split; [done|]. intros reg Hreg.
    specialize (Htgt Hok). rewrite Forall_forall in Htgt. rewrite <-(Htgt w Hwin).
    eapply (proj1 (Forall_forall _ _) Hw); [|done]. rewrite <-Hperm. apply elem_of_app. by left.
Qed.

Lemma inv_abort c : config_inv c → config_inv (abort_run c).
Proof.
  intros [Hco Hrun Hch Hnd Hw Hd]. unfold abort_run.
  destruct (fail_unfinished_run _) as [st sent] eqn:Hf.
  destruct (fail_unfinished_run_spec _ _ _ Hco Hf) as (Hco' & Hact & e & -> & Hnil).
  constructor; simpl; [done|by rewrite Hact| |done|by rewrite Hnil|].
  - unfold answered, registered in *. simpl.
    rewrite Hnil, <-Hch, fmap_app, app_nil_r. f_equiv.
    unfold send_all. by rewrite <-!list_fmap_compose.
  - apply Forall_app. split; [done|]. rewrite Forall_forall.
    by intros d (s & -> & (w & -> & Hwin)%list_elem_of_fmap)%list_elem_of_fmap.
Qed.

Lemma reachable_inv c : reachable c → config_inv c.
Proof.
  intros H. unfold reachable in H. revert H. apply rtc_ind_r; [apply config_inv_init|].
  intros c1 c2 _ Hs IH. destruct Hs.
  - by eapply inv_execute.
  - by apply inv_finish.
  - by apply inv_abort.
Qed.

Lemma quiescent_answered c :
  config_inv c → running c = None → answered c ≡ₚ registered c.
Proof.
  intros [[_ Hco] Hrun Hch _ _ _] Hn. rewrite Hrun, Hn in Hco. destruct Hco as [Hw _].
  by rewrite Hw, app_nil_r in Hch.
Qed.

(** After a completion no run is pending. *)
Lemma finish_run_pending c l res :
  pending (coordinator (finish_run c l res)) = None.
Proof.
  unfold finish_run, complete_run. destruct (negb _); [done|]. simpl.
  destruct (shared_result_succeeded res); [|done].
  destruct (pending (coordinator c)) eqn:Hp; [by destruct (next_run_id _)|].
  by destruct (delete_where _ _).
Qed.

Lemma finish_run_idle c l res :
  pending (coordinator c) = None → running (finish_run c l res) = None.
Proof.
  intros Hp. unfold finish_run, complete_run. destruct (negb _); [done|]. simpl.
  destruct (shared_result_succeeded res); [|done]. rewrite Hp.
  by destruct (delete_where _ _).
Qed.
End Coordinator.

(** ** The coordinator registry

    [MessageSyncCoordinatorRegistry::for_owner]: a map from owner to a weak
    reference. A coordinator is named by a number; [alive] says whether a strong
    reference to it still exists, [fresh] is the newly allocated one. *)

Notation Registry := (gmap string nat).

Definition retain_alive (alive : nat → bool) (reg : Registry) : Registry :=
  filter (λ e, alive e.2 = true) reg.

Definition for_owner (alive : nat → bool) (fresh : nat) (reg : Registry)
    (owner_identity_id : string) : Registry * nat :=
  let reg := retain_alive alive reg in
  match reg !! owner_identity_id with
  | Some coordinator => (reg, coordinator)
  | None => (<[owner_identity_id := fresh]> reg, fresh)
  end.

Lemma retain_alive_lookup alive (reg : Registry) o i :
  retain_alive alive reg !! o = Some i ↔ reg !! o = Some i ∧ alive i = true.
Proof. unfold retain_alive. by rewrite map_lookup_filter_Some. Qed.

(** ** Properties *)


(** C2: Freshness. A successful result delivered to a caller always comes from a
    run at least as recent as the caller asked for: a [DirtyAfterCurrent] caller
    that registered while run [r] was active is answered by a run started after
    [r], an [EnsureCurrent] caller by [r] or a later run. *)
Theorem coordinator_freshness {Executor} (c : Config (Executor := Executor)) ch kind r k res :
  reachable c →
  (ch, (kind, Some r)) ∈ history c →
  (k, (ch, res)) ∈ delivered c →
  shared_result_succeeded res = true →
  ∃ run, k = Some run
    ∧ match kind with DirtyAfterCurrent => r < run | EnsureCurrent => r ≤ run end.
Proof.
  intros Hi%reachable_inv Hh Hd Hok.
  destruct (proj1 (Forall_forall _ _) (inv_delivered c Hi) _ Hd Hok) as (run & Hk & Hm).
  exists run. split; [done|]. specialize (Hm _ Hh).
  destruct kind; unfold meets in Hm; simpl in Hm; lia.
Qed.

(** The coordinator's internal-error branches are unreachable: completing the
    run in progress sends every answered waiter that run's own result, so neither
    the changed-active-run, the run-id-exhausted nor the uncovered-waiters error
    is ever published. *)
Theorem coordinator_publishes_run_result {Executor}
    (c : Config (Executor := Executor)) l res st sent next :
  reachable c → running c = Some l →
  complete_run (coordinator c) (run_id l) res = (st, sent, next) →
  Forall (λ s, s.2 = res) sent
  ∧ (shared_result_succeeded res = true → next = None → waiters st = []).
Proof.
  intros Hi%reachable_inv Hl Hc.
  pose proof (inv_running c Hi) as Hact. rewrite Hl in Hact.
  destruct (complete_run_spec _ _ _ _ _ _ (inv_coord c Hi) Hact Hc)
    as ([_ Hco] & Hnext & ws & -> & _ & _).
  split.
  - apply Forall_forall. by intros s (w & -> & _)%list_elem_of_fmap.
  - intros _ ->. simpl in Hnext. rewrite Hnext in Hco. apply Hco.
Qed.

(** Progress. From any reachable state with a run in progress, completing it
    and, if it chained into a pending run, that one too (whatever the two runs
    return, with no new registration) leaves no run in progress and every
    registered caller answered. *)
Theorem coordinator_drains {Executor} (c : Config (Executor := Executor)) l res1 res2 :
  reachable c → running c = Some l →
  let c1 := finish_run c l res1 in
  let c2 := match running c1 with Some l2 => finish_run c1 l2 res2 | None => c1 end in
  running c2 = None ∧ answered c2 ≡ₚ registered c.
Proof.
  intros Hi%reachable_inv Hl c1 c2.
  assert (Hi1 : config_inv c1) by by apply inv_finish.
  assert (Hp1 : pending (coordinator c1) = None) by apply finish_run_pending.
  assert (Hh1 : registered c1 = registered c).
  { unfold c1, finish_run. by destruct (complete_run _ _ _) as [[??]?]. }
  subst c2. destruct (running c1) as [l2|] eqn:Hr1.
  - pose proof (finish_run_idle c1 l2 res2 Hp1) as Hn. split; [done|].
    rewrite (quiescent_answered _ (inv_finish c1 l2 res2 Hi1 Hr1) Hn), <-Hh1.
    unfold finish_run at 1. by destruct (complete_run _ _ _) as [[??]?].
  - split; [done|]. by rewrite (quiescent_answered _ Hi1 Hr1), Hh1.
Qed.

(** Mutual exclusion. While a run is in progress a registration never starts
    another task, and a run that starts has a larger id than every earlier one. *)
Theorem coordinator_single_runner {Executor} (c c' : Config (Executor := Executor))
    request kind executor ch :
  reachable c → execute c request kind executor ch = Ok c' →
  match running c with
  | Some l => running c' = Some l
  | None => ∃ l, running c' = Some l ∧ last_started_run_id (coordinator c) < run_id l
  end.
Proof.
  intros Hi%reachable_inv H. unfold execute in H.
  apply bind_Ok in H as ([st leader] & Hreg & H). simplify_eq. simpl.
  pose proof (inv_running c Hi) as Hact.
  destruct (register_spec _ _ _ _ _ _ _ (inv_coord c Hi) Hreg) as ([_ Hco] & _ & Hlead).
  rewrite Hact in Hlead. destruct (running c) as [l|]; simpl in *; [by destruct Hlead as [-> _]|].
  destruct Hlead as (l & -> & Hst). rewrite Hst in Hco. destruct Hco as (Hl & _ & _).
  exists l. split; [done|]. rewrite <-Hl.
  unfold register in Hreg. rewrite Hact in Hreg. res_inv.
  match goal with H : next_run_id _ = Ok _ |- _ => apply next_run_id_Ok in H as [-> ?] end.
  simpl. lia.
Qed.

(** The registry hands out one coordinator per owner for as long as someone
    holds it, never a dead one, and its lookups stay stable for other owners. *)
Theorem for_owner_stable alive fresh (reg : Registry) owner reg' i :
  for_owner alive fresh reg owner = (reg', i) →
  reg' !! owner = Some i
  ∧ (∀ j, reg !! owner = Some j → alive j = true → i = j)
  ∧ (i ≠ fresh → alive i = true)
  ∧ (∀ o j, o ≠ owner → reg' !! o = Some j ↔ reg !! o = Some j ∧ alive j = true).
Proof.
  unfold for_owner. destruct (retain_alive alive reg !! owner) as [c|] eqn:Hl; intros [= <- <-].
  - split; [done|]. apply retain_alive_lookup in Hl as [H1 H2].
    split; [naive_solver|]. split; [done|]. intros o j _. apply retain_alive_lookup.
  - split; [apply lookup_insert_eq|]. split.
    + intros j H1 H2. assert (retain_alive alive reg !! owner = Some j); [|congruence].
      by apply retain_alive_lookup.
    + split; [done|]. intros o j Ho. rewrite lookup_insert_ne by done. apply retain_alive_lookup.
Qed.

(** ** Witnesses *)

Definition w_request : MessageSyncRequest := {| reason := "ws"; limit := Some 50 |}.
Definition w_outcome : MessageReceiveOutcome := {|
  ro_status := Changed; ro_complete := true; ro_events_received := 1;
  ro_pages_fetched := 1; ro_messages_hydrated := 1; ro_duplicates_skipped := 0;
  ro_older_history_excluded := false; ro_error_code := None; ro_warnings := []
|}.
(** A caller starts run 1, a second marks it dirty, run 1 and then run 2 end. *)
Definition w_unwrap (m : ImResult (Config (Executor := nat))) : Config :=
  match m with Ok c => c | Err _ => init_config end.
Definition w_c1 := w_unwrap (execute init_config w_request EnsureCurrent 7%nat 1%nat).
Definition w_c2 := w_unwrap (execute w_c1 w_request DirtyAfterCurrent 8%nat 2%nat).
Definition w_l1 : MessageSyncLeaderRun :=
  {| run_id := 1; l_request := w_request; l_executor := 7%nat |}.
Definition w_l2 : MessageSyncLeaderRun :=
  {| run_id := 2; l_request := w_request; l_executor := 8%nat |}.
Definition w_c3 := finish_run w_c2 w_l1 (Ok w_outcome).
Definition w_c4 := finish_run w_c3 w_l2 (Ok w_outcome).

Lemma w_c2_reachable : reachable w_c2.
Proof.
  eapply rtc_l; [eapply (step_execute _ w_request EnsureCurrent 7%nat 1%nat w_c1)|].
  { simpl. apply not_elem_of_nil. }
  { reflexivity. }
  eapply rtc_once, (step_execute _ w_request DirtyAfterCurrent 8%nat 2%nat w_c2); [|reflexivity].
  vm_compute. intros H. inversion H as [|? ? ? H']; inversion H'.
Qed.
Lemma w_c4_reachable : reachable w_c4.
Proof.
  unfold reachable. etrans; [apply w_c2_reachable|].
  eapply rtc_l; [apply (step_finish w_c2 w_l1 (Ok w_outcome)); reflexivity|].
  apply rtc_once, (step_finish w_c3 w_l2 (Ok w_outcome)). reflexivity.
Qed.

Lemma coordinator_freshness_witness :
  ∃ run, Some 2 = Some run ∧ 1 < run.
Proof.
  apply (coordinator_freshness w_c4 2%nat DirtyAfterCurrent 1 (Some 2) (Ok w_outcome)
    w_c4_reachable); [| |reflexivity]; vm_compute; repeat constructor.
Defined.
Lemma coordinator_publishes_run_result_witness :
  Forall (λ s, s.2 = Ok w_outcome) (complete_run (coordinator w_c2) 1 (Ok w_outcome)).1.2.
Proof.
  eapply (coordinator_publishes_run_result w_c2 w_l1 (Ok w_outcome));
    [apply w_c2_reachable|reflexivity..].
Defined.
Lemma coordinator_drains_witness :
  running w_c4 = None ∧ answered w_c4 ≡ₚ registered w_c2.
Proof.
  apply (coordinator_drains w_c2 w_l1 (Ok w_outcome) (Ok w_outcome) w_c2_reachable).
  reflexivity.
Defined.
Lemma coordinator_single_runner_witness : running w_c2 = Some w_l1.
Proof.
  apply (coordinator_single_runner w_c1 w_c2 w_request DirtyAfterCurrent 8%nat 2%nat).
  - apply rtc_once, (step_execute _ w_request EnsureCurrent 7%nat 1%nat w_c1); [|reflexivity].
    simpl. apply not_elem_of_nil.
  - reflexivity.
Defined.
Lemma for_owner_stable_witness :
  ({["alice" := 3%nat]} : Registry) !! "alice" = Some 3%nat.
Proof.
  refine (proj1 (for_owner_stable (λ _, true) 9%nat {["alice" := 3%nat]} "alice"
           {["alice" := 3%nat]} 3%nat _)).
  vm_compute. reflexivity.
Defined.
