(* ===== verification/Store.v ===== *)
(** * The local sync database

    The tables of [local_state/sync_v2.rs] and [local_state/sync_inbox.rs] that
    the receive, run, recovery, receipt, outbox and inbox operations share.

    A table keyed by a single text column is a [gmap]; a table with a compound
    key, or one read in rowid order, is the list of its rows. JSON columns hold
    the value they encode. A constraint of the schema that a statement can
    violate is checked where the statement is modelled, and its violation is
    [LocalStateUnavailable], which is what [local_state_unavailable] makes of
    any rusqlite error. Every fallible operation returns the new database only
    when it succeeds: an operation that fails inside its transaction leaves the
    stored database as it was. *)

From Stdlib Require Import Ascii.
From S2P Require Import Prelude RustStr ImError Decimal.
Local Open Scope Z_scope.

(** ** Rows *)

Record IdentityAccountBinding := mkBinding {
  ib_owner : string;
  ib_account : string;
  ib_handle_scope : option string;
  ib_current_did : string;
  ib_device : string;
  ib_identity_generation : string;
  ib_auth_generation : string;
  ib_created_at : Z;
  ib_updated_at : Z }.

Record MessageSyncState := mkMessageState {
  ms_owner : string;
  ms_account : string;
  ms_device : string;
  ms_auth_generation : string;
  ms_stream_epoch : string;
  ms_scan_seq : string;
  ms_bootstrap_state : string;
  ms_last_server_time : option string;
  ms_last_success_at : option Z;
  ms_last_error_code : option string;
  ms_metadata_json : option string;
  ms_updated_at : Z }.

Record MessageSyncRunState := mkRunState {
  rs_owner : string;
  rs_sync_pending : bool;
  rs_run_generation : Z;
  rs_next_retry_at : option Z;
  rs_last_result_json : option string;
  rs_updated_at : Z }.

Record P5DidCutover := mkCutover {
  cu_owner : string;
  cu_old_did : string;
  cu_new_did : string;
  cu_cutover_at : Z;
  cu_drain_deadline : Z;
  cu_status : string }.

Record AppliedEventReceipt := mkReceipt {
  ae_owner : string;
  ae_event_id : string;
  ae_stream_epoch : string;
  ae_event_seq : string;
  ae_applied_at : Z }.

(** A row of [sync_applied_events]: the receipt, and the [payload_hash] column
    that [ensure_schema] of sync_inbox.rs adds. *)
Record AppliedEventRow := mkAppliedRow {
  ar_receipt : AppliedEventReceipt;
  ar_payload_hash : option string }.

(** A row of [sync_lane_applied_events]. *)
Record LaneAppliedRow := mkLaneApplied {
  la_owner : string;
  la_lane : string;
  la_event_id : string;
  la_stream_epoch : string;
  la_event_seq : string;
  la_group_did : option string;
  la_group_event_seq : option string;
  la_applied_at : Z;
  la_payload_hash : option string }.

Record RecoveryState := mkRecovery {
  rc_owner : string;
  rc_mode : string;
  rc_requested_from_epoch : string;
  rc_requested_from_seq : string;
  rc_recovery_id_hash : option string;
  rc_snapshot_scan_seq : option string;
  rc_status : string;
  rc_retry_count : Z;
  rc_last_error_code : option string;
  rc_started_at : Z;
  rc_updated_at : Z }.

(** A row of [local_mutation_outbox]; the payload column is [None] when its
    text is not valid JSON. *)
Record LocalMutationRecord := mkMutation {
  lm_owner : string;
  lm_mutation_id : string;
  lm_operation_id : string;
  lm_mutation_type : string;
  lm_aggregate_id : string;
  lm_payload_json : option Value;
  lm_status : string;
  lm_attempt_count : Z;
  lm_retry_at : option Z;
  lm_in_flight_since : option Z;
  lm_last_error_code : option string;
  lm_created_at : Z;
  lm_updated_at : Z }.

(** A row of [sync_lane_inbox]. *)
Record InboxRow := mkInbox {
  in_input_id : string;
  in_owner : string;
  in_lane : string;
  in_lane_epoch : string;
  in_position : string;
  in_event_id : string;
  in_event_type : string;
  in_payload : Value;
  in_account : string;
  in_device : string;
  in_auth_generation : string;
  in_client_instance : string;
  in_group_did : option string;
  in_logical_event_seq : option string;
  in_received_at : string;
  in_source_created_at : option string;
  in_source_expires_at : option string;
  in_closed_at : option Z;
  in_created_at : Z;
  in_scope : string;
  in_attempt_count : Z;
  in_attempt_token : option string;
  in_attempt_deadline : option Z;
  in_last_attempt_at : option Z;
  in_next_attempt_at : option Z;
  in_error_code : option string }.

(** A row of [messages]. A text column that is NULL is the empty text, as the code never
    stores an empty one; the metadata column is [None] when it has no valid JSON. *)
Record MessageRow := mkMessageRow {
  mg_owner_identity_id : string;
  mg_msg_id : string;
  mg_conversation_id : string;
  mg_thread_id : string;
  mg_wire_thread_kind : string;
  mg_hydration_state : string;
  mg_owner_did : string;
  mg_sender_did : string;
  mg_group_did : string;
  mg_direction : Z;
  mg_server_seq : option Z;
  mg_is_e2ee : Z;
  mg_metadata : option Value;
  mg_sent_at : string;
  mg_stored_at : string;
  mg_is_read : Z;
  mg_group_id : string;
  mg_content_type : string;
  mg_receiver_did : string;
  mg_wire_thread_ref : string;
  mg_wire_resolution_state : string;
  mg_content : string;
  mg_title : string;
  mg_sender_name : string;
  mg_mentions_current_user : Z;
  mg_credential_name : string }.

(** A row of [thread_read_state]. *)
Record ThreadReadStateRecord := mkReadState {
  tr_owner : string;
  tr_owner_did : string;
  tr_scope : string;
  tr_thread_id : string;
  tr_conversation_id : string;
  tr_watermark_message_id : option string;
  tr_watermark_seq : option string;
  tr_watermark_at : option string;
  tr_pending_remote_ack : bool;
  tr_remote_ack_at : option string;
  tr_remote_state_version : option string;
  tr_updated_at : string }.

#[export] Instance receipt_eq_dec : EqDecision AppliedEventReceipt.
Proof. solve_decision. Defined.
#[export] Instance applied_row_eq_dec : EqDecision AppliedEventRow.
Proof. solve_decision. Defined.

(** ** The database *)

Record Db := mkDb {
  db_bindings : gmap string IdentityAccountBinding;
  db_message_states : gmap string MessageSyncState;
  db_run_states : gmap string MessageSyncRunState;
  db_installations : gmap string string;
  db_cutovers : list P5DidCutover;
  db_applied : list AppliedEventRow;
  db_lane_applied : list LaneAppliedRow;
  db_recovery : gmap string RecoveryState;
  db_outbox : list LocalMutationRecord;
  db_inbox : list InboxRow;
  db_leases : gmap string Z;
  db_messages : list MessageRow;
  db_read_states : list ThreadReadStateRecord }.

Definition empty_db : Db := mkDb ∅ ∅ ∅ ∅ [] [] [] ∅ [] [] ∅ [] [].

Definition with_bindings m db :=
  mkDb m (db_message_states db) (db_run_states db) (db_installations db)
    (db_cutovers db) (db_applied db) (db_lane_applied db) (db_recovery db)
    (db_outbox db) (db_inbox db) (db_leases db) (db_messages db)
    (db_read_states db).
Definition with_message_states m db :=
  mkDb (db_bindings db) m (db_run_states db) (db_installations db)
    (db_cutovers db) (db_applied db) (db_lane_applied db) (db_recovery db)
    (db_outbox db) (db_inbox db) (db_leases db) (db_messages db)
    (db_read_states db).
Definition with_run_states m db :=
  mkDb (db_bindings db) (db_message_states db) m (db_installations db)
    (db_cutovers db) (db_applied db) (db_lane_applied db) (db_recovery db)
    (db_outbox db) (db_inbox db) (db_leases db) (db_messages db)
    (db_read_states db).
Definition with_installations m db :=
  mkDb (db_bindings db) (db_message_states db) (db_run_states db) m
    (db_cutovers db) (db_applied db) (db_lane_applied db) (db_recovery db)
    (db_outbox db) (db_inbox db) (db_leases db) (db_messages db)
    (db_read_states db).
Definition with_cutovers t db :=
  mkDb (db_bindings db) (db_message_states db) (db_run_states db)
    (db_installations db) t (db_applied db) (db_lane_applied db)
    (db_recovery db) (db_outbox db) (db_inbox db) (db_leases db) (db_messages db)
    (db_read_states db).
Definition with_applied t db :=
  mkDb (db_bindings db) (db_message_states db) (db_run_states db)
    (db_installations db) (db_cutovers db) t (db_lane_applied db)
    (db_recovery db) (db_outbox db) (db_inbox db) (db_leases db) (db_messages db)
    (db_read_states db).
Definition with_lane_applied t db :=
  mkDb (db_bindings db) (db_message_states db) (db_run_states db)
    (db_installations db) (db_cutovers db) (db_applied db) t
    (db_recovery db) (db_outbox db) (db_inbox db) (db_leases db) (db_messages db)
    (db_read_states db).
Definition with_recovery m db :=
  mkDb (db_bindings db) (db_message_states db) (db_run_states db)
    (db_installations db) (db_cutovers db) (db_applied db) (db_lane_applied db)
    m (db_outbox db) (db_inbox db) (db_leases db) (db_messages db)
    (db_read_states db).
Definition with_outbox t db :=
  mkDb (db_bindings db) (db_message_states db) (db_run_states db)
    (db_installations db) (db_cutovers db) (db_applied db) (db_lane_applied db)
    (db_recovery db) t (db_inbox db) (db_leases db) (db_messages db)
    (db_read_states db).
Definition with_inbox t db :=
  mkDb (db_bindings db) (db_message_states db) (db_run_states db)
    (db_installations db) (db_cutovers db) (db_applied db) (db_lane_applied db)
    (db_recovery db) (db_outbox db) t (db_leases db) (db_messages db)
    (db_read_states db).
Definition with_leases m db :=
  mkDb (db_bindings db) (db_message_states db) (db_run_states db)
    (db_installations db) (db_cutovers db) (db_applied db) (db_lane_applied db)
    (db_recovery db) (db_outbox db) (db_inbox db) m (db_messages db)
    (db_read_states db).
Definition with_messages t db :=
  mkDb (db_bindings db) (db_message_states db) (db_run_states db)
    (db_installations db) (db_cutovers db) (db_applied db) (db_lane_applied db)
    (db_recovery db) (db_outbox db) (db_inbox db) (db_leases db) t (db_read_states db).
Definition with_read_states t db :=
  mkDb (db_bindings db) (db_message_states db) (db_run_states db)
    (db_installations db) (db_cutovers db) (db_applied db) (db_lane_applied db)
    (db_recovery db) (db_outbox db) (db_inbox db) (db_leases db) (db_messages db) t.

(** The foreign key every sync table has on [identity_account_bindings]: an
    insert for an owner without a binding fails. *)
Definition owner_bound (db : Db) (owner : string) : bool :=
  bool_decide (is_Some (db_bindings db !! owner)).

Definition constraint_failed {A} : ImResult A :=
  Err (local_state_unavailable "constraint failed").

(** ** SQL on text and JSON columns *)

(** [TRIM(x)] strips spaces only. *)
Fixpoint drop_spaces (l : list ascii) : list ascii :=
  match l with
  | c :: l' => if ascii_dec c " "%char then drop_spaces l' else l
  | [] => []
  end.
Definition sql_trim (s : string) : string :=
  of_bytes (reverse (drop_spaces (reverse (drop_spaces (bytes s))))).

(** [CAST(x AS INTEGER)] of a text: leading white space, a sign, the longest run
    of digits, clamped to 64 bits; 0 when there is no digit. *)
Fixpoint drop_sql_space (l : list ascii) : list ascii :=
  match l with
  | c :: l' =>
      if (byte_of c =? 32) || ((9 <=? byte_of c) && (byte_of c <=? 13))
      then drop_sql_space l' else l
  | [] => []
  end.
Fixpoint digit_run (l : list ascii) : list ascii :=
  match l with
  | c :: l' => if is_ascii_digit c then c :: digit_run l' else []
  | [] => []
  end.
Definition sql_cast_integer (s : string) : Z :=
  let magnitude l := digits_value (digit_value <$> digit_run l) in
  clamp_i64
    match drop_sql_space (bytes s) with
    | "-"%char :: l => - magnitude l
    | "+"%char :: l => magnitude l
    | l => magnitude l
    end.

(** [json_extract] at an object path, as text: [TRIM], [||] and a comparison
    with a text column convert numbers to text. Floating-point numbers and
    containers are not converted. *)
Definition json_text (v : option Value) (path : list string) : option string :=
  match v ≫= (λ v, pointer v path) with
  | Some (VString s) => Some s
  | Some (VNumber (PosInt n)) => Some (u64_to_string n)
  | Some (VNumber (NegInt n)) => Some ("-" +:+ u64_to_string (- n))
  | Some (VBool b) => Some (if b then "1" else "0")
  | _ => None
  end%string.

(** [json_extract(x, path) = ?p] with a text parameter: no conversion applies,
    so only a JSON string can be equal to it. *)
Definition json_eq (v : option Value) (path : list string) (p : string) : bool :=
  match v ≫= λ v, pointer v path with
  | Some (VString s) => bool_decide (s = p)
  | _ => false
  end.

(** [NULLIF(x, '')]. *)
Definition nullif_empty (s : string) : option string :=
  if is_empty s then None else Some s.

(** [MIN] over the values that are not null. *)
Definition sql_min (l : list (option Z)) : option Z :=
  foldr (λ x acc, match x, acc with
                  | Some a, Some b => Some (Z.min a b)
                  | Some a, None => Some a
                  | None, _ => acc
                  end) None l.
Definition sql_min_text (l : list (option string)) : option string :=
  foldr (λ x acc, match x, acc with
                  | Some a, Some b => Some (if str_leb a b then a else b)
                  | Some a, None => Some a
                  | None, _ => acc
                  end) None l.

(** [ORDER BY .. LIMIT n]: the first [n] rows by an order. *)
Definition order_limit {A} (R : relation A) `{∀ x y, Decision (R x y)}
    (n : Z) (t : list A) : list A :=
  take (Z.to_nat n) (merge_sort R t).

Section order_limit.
Context {A : Type} (R : relation A) `{∀ x y, Decision (R x y)}.

Lemma order_limit_sub n t r : r ∈ order_limit R n t → r ∈ t.
Proof.
  unfold order_limit. intros Hr.
  rewrite <-(merge_sort_Permutation R t).
  rewrite <-(take_drop (Z.to_nat n) (merge_sort R t)). apply elem_of_app. by left.
Qed.

Lemma order_limit_length n t :
  0 ≤ n → length (order_limit R n t) = Nat.min (Z.to_nat n) (length t).
Proof.
  intros. unfold order_limit. rewrite length_take.
  by rewrite (Permutation_length (merge_sort_Permutation R t)).
Qed.

(** What the limit leaves out is never before what it takes. *)
Lemma order_limit_first n t r r' :
  Transitive R → Total R →
  r ∈ order_limit R n t → r' ∈ t → r' ∉ order_limit R n t → R r r'.
Proof.
  intros Htr Htot Hr Hr' Hnot. unfold order_limit in *.
  pose proof (Sorted_merge_sort R t) as Hsorted.
  apply Sorted_StronglySorted in Hsorted; [|done].
  rewrite <-(merge_sort_Permutation R t) in Hr'.
  rewrite <-(take_drop (Z.to_nat n) (merge_sort R t)) in Hsorted, Hr'.
  apply elem_of_app in Hr' as [Hr'|Hr']; [done|].
  revert Hsorted Hr Hr'. generalize (take (Z.to_nat n) (merge_sort R t)) as a.
  generalize (drop (Z.to_nat n) (merge_sort R t)) as b. clear.
  intros b a Hs Ha Hb. induction a as [|x a IH]; [by apply elem_of_nil in Ha|].
  inversion Hs as [|?? Hs' Hall]; subst.
  apply elem_of_cons in Ha as [->|Ha]; [|by apply IH].
  apply (proj1 (Forall_forall _ _) Hall). apply elem_of_app. by right.
Qed.
End order_limit.
