(* ===== verification/SyncStore.v ===== *)
(** * Account bindings, receive cursors and run generations

    [local_state/sync_v2.rs]: the account binding of an owner
    ([upsert_identity_account_binding]) with the DID cutovers it registers, the
    ordinary receive cursor ([bootstrap_message_sync_state],
    [load_message_sync_state], [advance_message_sync_state]), the run
    generations that fence superseded sync runs ([begin_message_sync_run],
    [finish_message_sync_run], [require_message_sync_run_generation]) and the
    recovery state. *)

From S2P Require Import Prelude RustStr ImError Decimal Store.
Local Open Scope Z_scope.

Definition SYNC_LANE_CLOSED_RETENTION_SECONDS : Z := 7 * 24 * 60 * 60.

Definition binding_conflict {A} (detail : string) : ImResult A :=
  Err (IdentityBindingConflict detail).

(** ** Account bindings *)

Definition validate_binding (binding : IdentityAccountBinding) : ImResult unit :=
  _ ← validate_required "owner_identity_id" (ib_owner binding);
  _ ← validate_required "account_id" (ib_account binding);
  _ ← validate_required "current_did" (ib_current_did binding);
  _ ← validate_required "protocol_device_id" (ib_device binding);
  _ ← validate_positive_decimal "identity_generation" (ib_identity_generation binding);
  _ ← validate_positive_decimal "device_auth_generation" (ib_auth_generation binding);
  match ib_handle_scope binding with
  | Some handle_scope => validate_required "handle_scope" handle_scope
  | None => Ok ()
  end.

Definition load_identity_account_binding (db : Db) (owner : string)
    : option IdentityAccountBinding :=
  db_bindings db !! owner.

(** The guard against the stored binding of the same owner. *)
Definition check_binding_successor (current binding : IdentityAccountBinding)
    : ImResult unit :=
  if negb (bool_decide (ib_account current = ib_account binding)) then
    binding_conflict "owner identity is already bound to a different account"
  else if negb (bool_decide (ib_device current = ib_device binding)) then
    binding_conflict "owner identity is already bound to a different protocol device"
  else
    identity ← compare_decimal (ib_identity_generation binding)
                 (ib_identity_generation current);
    _ ← match identity with
        | Lt => binding_conflict "identity generation cannot move backwards"
        | Eq =>
            if negb (bool_decide (ib_current_did current = ib_current_did binding)) then
              binding_conflict
                "current DID cannot change without a newer identity generation"
            else Ok ()
        | Gt => Ok ()
        end;
    auth ← compare_decimal (ib_auth_generation binding) (ib_auth_generation current);
    match auth with
    | Lt => binding_conflict "device authorization generation cannot move backwards"
    | _ => Ok ()
    end.

(** The owner the unique index on [(account_id, device_id)] finds. *)
Definition owner_of_account_device (db : Db) (account device : string) : option string :=
  head (fst <$> filter
    (λ kb : string * IdentityAccountBinding,
       ib_account kb.2 = account ∧ ib_device kb.2 = device)
    (map_to_list (db_bindings db))).

(** ** DID cutovers *)

Definition same_cutover (owner old_did new_did : string) (c : P5DidCutover) : bool :=
  bool_decide (cu_owner c = owner) && bool_decide (cu_old_did c = old_did)
  && bool_decide (cu_new_did c = new_did).

Definition register_p5_did_cutover (db : Db) (cutover : P5DidCutover) : ImResult Db :=
  _ ← validate_required "owner_identity_id" (cu_owner cutover);
  _ ← validate_required "old_did" (cu_old_did cutover);
  _ ← validate_required "new_did" (cu_new_did cutover);
  if bool_decide (cu_old_did cutover = cu_new_did cutover)
     || negb (bool_decide (cu_status cutover = "draining"%string))
     || (cu_drain_deadline cutover <? cu_cutover_at cutover) then
    Err (sync_error "P5_CUTOVER_INVALID"
           "P5 DID cutover must be a bounded old-to-new drain")
  else
    binding ← ok_or (load_identity_account_binding db (cu_owner cutover))
                (IdentityBindingConflict "P5 DID cutover requires an active binding");
    if negb (bool_decide (ib_current_did binding = cu_new_did cutover)) then
      binding_conflict
        "P5 DID cutover successor is not the current authoritative DID"
    else
      let same := same_cutover (cu_owner cutover) (cu_old_did cutover)
                    (cu_new_did cutover) in
      if exists_where same (db_cutovers db) then
        (* ON CONFLICT DO UPDATE SET drain_deadline, updated_at; the row keeps
           its cutover_at, which the CHECK compares with the new deadline *)
        if forallb (λ c, negb (same c) || (cu_cutover_at c <=? cu_drain_deadline cutover))
             (db_cutovers db) then
          Ok (with_cutovers
                (update_where same
                   (λ c, mkCutover (cu_owner c) (cu_old_did c) (cu_new_did c)
                           (cu_cutover_at c) (cu_drain_deadline cutover) (cu_status c))
                   (db_cutovers db)) db)
        else constraint_failed
      else Ok (with_cutovers (db_cutovers db ++ [cutover]) db).

Definition load_p5_did_cutover (db : Db) (owner old_did : string)
    : option P5DidCutover :=
  head (select_where
          (λ c, bool_decide (cu_owner c = owner) && bool_decide (cu_old_did c = old_did))
          (db_cutovers db)).

Definition targets_did (old_did : string) (r : InboxRow) : bool :=
  json_eq (Some (in_payload r)) ["meta"; "target"; "did"]%string old_did.

Definition complete_p5_did_cutover_if_drained (db : Db) (owner old_did : string)
    : bool * Db :=
  let pending := exists_where
    (λ r, bool_decide (in_owner r = owner) && bool_decide (in_lane r = "p5_device"%string)
          && bool_decide (in_closed_at r = None) && targets_did old_did r)
    (db_inbox db) in
  if pending then (false, db)
  else
    let p := λ c, bool_decide (cu_owner c = owner) && bool_decide (cu_old_did c = old_did)
                  && bool_decide (cu_status c = "draining"%string) in
    (bool_decide (count_where p (db_cutovers db) = 1%nat),
     with_cutovers
       (update_where p
          (λ c, mkCutover (cu_owner c) (cu_old_did c) (cu_new_did c)
                  (cu_cutover_at c) (cu_drain_deadline c) "drained")
          (db_cutovers db)) db).

(** The row [INSERT .. ON CONFLICT(owner_identity_id) DO UPDATE] leaves: an
    update keeps the account, the device and the creation time. *)
Definition upserted_binding (db : Db) (binding : IdentityAccountBinding)
    : IdentityAccountBinding :=
  match db_bindings db !! ib_owner binding with
  | Some current =>
      mkBinding (ib_owner current) (ib_account current) (ib_handle_scope binding)
        (ib_current_did binding) (ib_device current) (ib_identity_generation binding)
        (ib_auth_generation binding) (ib_created_at current) (ib_updated_at binding)
  | None => binding
  end.

Definition upsert_identity_account_binding (db : Db) (binding : IdentityAccountBinding)
    : ImResult Db :=
  _ ← validate_binding binding;
  let previous := load_identity_account_binding db (ib_owner binding) in
  _ ← match previous with
      | Some current => check_binding_successor current binding
      | None => Ok ()
      end;
  _ ← match owner_of_account_device db (ib_account binding) (ib_device binding) with
      | Some owner =>
          if negb (bool_decide (owner = ib_owner binding)) then
            binding_conflict "account device is already bound to a different local owner"
          else Ok ()
      | None => Ok ()
      end;
  let db' := with_bindings
    (<[ib_owner binding := upserted_binding db binding]> (db_bindings db)) db in
  match previous with
  | Some current =>
      if bool_decide (ib_current_did current = ib_current_did binding) then Ok db'
      else
        register_p5_did_cutover db'
          (mkCutover (ib_owner binding) (ib_current_did current) (ib_current_did binding)
             (ib_updated_at binding)
             (i64_saturating_add (ib_updated_at binding) SYNC_LANE_CLOSED_RETENTION_SECONDS)
             "draining")
  | None => Ok db'
  end.

(** ** The receive cursor *)

Definition bootstrap_state_ok (s : string) : bool :=
  bool_decide (s ∈ ["uninitialized"; "tail_bootstrapped"; "active"; "recovering";
                    "blocked"]%string).

Definition validate_message_sync_state (state : MessageSyncState) : ImResult unit :=
  _ ← validate_required "owner_identity_id" (ms_owner state);
  _ ← validate_required "account_id" (ms_account state);
  _ ← validate_required "protocol_device_id" (ms_device state);
  _ ← validate_positive_decimal "device_auth_generation" (ms_auth_generation state);
  _ ← validate_positive_decimal "stream_epoch" (ms_stream_epoch state);
  _ ← validate_decimal "scan_seq" (ms_scan_seq state);
  if negb (bootstrap_state_ok (ms_bootstrap_state state)) then
    Err (invalid_input (Some "bootstrap_state"%string) "bootstrap_state is not supported")
  else Ok ().

Inductive MessageSyncBootstrapReason : Type :=
| MissingState
| DeviceAuthGenerationChanged
| StreamEpochChanged.

Record MessageSyncBootstrapFence := mkFence {
  bf_owner : string;
  bf_account : string;
  bf_device : string;
  bf_active_auth_generation : string;
  bf_stored_auth_generation : option string;
  bf_stored_stream_epoch : option string;
  bf_requested_stream_epoch : option string;
  bf_reason : MessageSyncBootstrapReason }.

Inductive MessageSyncStateAccess : Type :=
| Ready (state : MessageSyncState)
| BootstrapRequired (fence : MessageSyncBootstrapFence).

Definition message_sync_bootstrap_fence (binding : IdentityAccountBinding)
    (stored : option MessageSyncState) (requested_stream_epoch : option string)
    (reason : MessageSyncBootstrapReason) : MessageSyncBootstrapFence :=
  mkFence (ib_owner binding) (ib_account binding) (ib_device binding)
    (ib_auth_generation binding) (ms_auth_generation <$> stored)
    (ms_stream_epoch <$> stored) requested_stream_epoch reason.

Definition load_message_sync_state_row (db : Db) (owner : string)
    : option MessageSyncState :=
  db_message_states db !! owner.

Definition load_message_sync_state (db : Db) (owner : string)
    : ImResult MessageSyncStateAccess :=
  binding ← ok_or (load_identity_account_binding db owner)
    (IdentityBindingConflict "message sync state requires an active account binding");
  match load_message_sync_state_row db owner with
  | None =>
      Ok (BootstrapRequired
            (message_sync_bootstrap_fence binding None None MissingState))
  | Some state =>
      if negb (bool_decide (ms_account state = ib_account binding))
         || negb (bool_decide (ms_device state = ib_device binding)) then
        binding_conflict "stored message sync state belongs to a different account device"
      else if negb (bool_decide (ms_auth_generation state = ib_auth_generation binding)) then
        Ok (BootstrapRequired
              (message_sync_bootstrap_fence binding (Some state) None
                 DeviceAuthGenerationChanged))
      else Ok (Ready state)
  end.

(** [INSERT .. ON CONFLICT(owner_identity_id) DO UPDATE] of every column, under
    the foreign key and the unique index on [(account_id, device_id)]. *)
Definition upsert_bootstrap_state (db : Db) (state : MessageSyncState) : ImResult Db :=
  if negb (owner_bound db (ms_owner state))
     || existsb
          (λ ks : string * MessageSyncState,
             negb (bool_decide (ks.1 = ms_owner state))
             && bool_decide (ms_account ks.2 = ms_account state)
             && bool_decide (ms_device ks.2 = ms_device state))
          (map_to_list (db_message_states db))
  then constraint_failed
  else Ok (with_message_states (<[ms_owner state := state]> (db_message_states db)) db).

Definition recovery_active (status : string) : bool :=
  bool_decide (status ∈ ["recovering"; "downloading"; "applying"; "retryable"]%string).

Definition complete_active_recovery (db : Db) (state : MessageSyncState) : Db :=
  with_recovery
    (alter
       (λ r, if recovery_active (rc_status r) then
               mkRecovery (rc_owner r) (rc_mode r) (rc_requested_from_epoch r)
                 (rc_requested_from_seq r) (rc_recovery_id_hash r)
                 (Some (ms_scan_seq state)) "completed" (rc_retry_count r) None
                 (rc_started_at r) (ms_updated_at state)
             else r)
       (ms_owner state) (db_recovery db)) db.

Definition bootstrap_message_sync_state (db : Db) (state : MessageSyncState)
    : ImResult Db :=
  _ ← validate_message_sync_state state;
  binding ← ok_or (load_identity_account_binding db (ms_owner state))
    (IdentityBindingConflict "message sync state requires an active account binding");
  if negb (bool_decide (ib_account binding = ms_account state))
     || negb (bool_decide (ib_device binding = ms_device state))
     || negb (bool_decide (ib_auth_generation binding = ms_auth_generation state)) then
    binding_conflict "message sync state does not match the active account binding"
  else
    db' ← upsert_bootstrap_state db state;
    Ok (complete_active_recovery db' state).

(** The row the guarded [UPDATE] of [advance_message_sync_state] writes. *)
Definition advanced_row (row next : MessageSyncState) : MessageSyncState :=
  mkMessageState (ms_owner row) (ms_account row) (ms_device row)
    (ms_auth_generation row) (ms_stream_epoch row) (ms_scan_seq next)
    (ms_bootstrap_state next) (ms_last_server_time next) (ms_last_success_at next)
    (ms_last_error_code next) (ms_metadata_json next) (ms_updated_at next).

Definition advance_matches (row next : MessageSyncState) : bool :=
  bool_decide (ms_account row = ms_account next)
  && bool_decide (ms_device row = ms_device next)
  && bool_decide (ms_auth_generation row = ms_auth_generation next)
  && bool_decide (ms_stream_epoch row = ms_stream_epoch next).

Definition advance_message_sync_state (db : Db) (next : MessageSyncState)
    : ImResult (MessageSyncStateAccess * Db) :=
  _ ← validate_message_sync_state next;
  binding ← ok_or (load_identity_account_binding db (ms_owner next))
    (IdentityBindingConflict "message sync state requires an active account binding");
  if negb (bool_decide (ib_account binding = ms_account next))
     || negb (bool_decide (ib_device binding = ms_device next)) then
    binding_conflict "message sync advance targets a different account device"
  else
    access ← load_message_sync_state db (ms_owner next);
    match access with
    | BootstrapRequired fence => Ok (BootstrapRequired fence, db)
    | Ready current =>
        if negb (bool_decide (ib_auth_generation binding = ms_auth_generation next)) then
          binding_conflict
            "message sync advance uses a non-active device authorization generation"
        else if negb (bool_decide (ms_stream_epoch current = ms_stream_epoch next)) then
          Ok (BootstrapRequired
                (message_sync_bootstrap_fence binding (Some current)
                   (Some (ms_stream_epoch next)) StreamEpochChanged), db)
        else
          order ← compare_decimal (ms_scan_seq next) (ms_scan_seq current);
          match order with
          | Lt => binding_conflict "message sync scan sequence cannot move backwards"
          | _ =>
              match db_message_states db !! ms_owner next with
              | Some row =>
                  if advance_matches row next then
                    Ok (Ready next,
                        with_message_states
                          (<[ms_owner next := advanced_row row next]>
                             (db_message_states db)) db)
                  else
                    binding_conflict
                      "message sync cursor changed while it was being advanced"
              | None =>
                  binding_conflict "message sync cursor changed while it was being advanced"
              end
          end
    end.

(** ** Run generations *)

Definition validate_expected_run_generation (expected : option Z) : ImResult unit :=
  match expected with
  | Some generation =>
      if generation <=? 0 then
        Err (invalid_input (Some "expected_run_generation"%string)
               "expected sync run generation must be positive")
      else Ok ()
  | None => Ok ()
  end.

Definition require_message_sync_run_generation (db : Db) (owner : string)
    (expected : option Z) : ImResult unit :=
  match expected with
  | None => Ok ()
  | Some expected =>
      if negb (bool_decide (rs_run_generation <$> db_run_states db !! owner
                            = Some expected)) then
        Err (sync_error "SYNC_RUN_SUPERSEDED"
               "a newer sync run superseded this apply transaction")
      else Ok ()
  end.

Definition begin_message_sync_run (db : Db) (owner : string) (now : Z)
    : ImResult (MessageSyncRunState * Db) :=
  _ ← validate_required "owner_identity_id" owner;
  match load_identity_account_binding db owner with
  | None => binding_conflict "message sync run requires an active account binding"
  | Some _ =>
      let current_generation :=
        default 0 (rs_run_generation <$> db_run_states db !! owner) in
      run_generation ← ok_or (i64_checked_add current_generation 1)
        (sync_error "SYNC_RUN_GENERATION_EXHAUSTED" "sync run generation overflow");
      let state := mkRunState owner true run_generation None None now in
      Ok (state, with_run_states (<[owner := state]> (db_run_states db)) db)
  end.

Definition finish_message_sync_run (db : Db) (state : MessageSyncRunState)
    : ImResult (bool * Db) :=
  _ ← validate_required "owner_identity_id" (rs_owner state);
  if rs_run_generation state <=? 0 then
    Err (invalid_input (Some "run_generation"%string)
           "sync run generation must be positive")
  else
    match db_run_states db !! rs_owner state with
    | Some row =>
        if rs_run_generation row =? rs_run_generation state then
          Ok (true,
              with_run_states
                (<[rs_owner state :=
                     mkRunState (rs_owner row) (rs_sync_pending state)
                       (rs_run_generation row) (rs_next_retry_at state)
                       (rs_last_result_json state) (rs_updated_at state)]>
                   (db_run_states db)) db)
        else Ok (false, db)
    | None => Ok (false, db)
    end.

Definition load_message_sync_run_state (db : Db) (owner : string)
    : ImResult (option MessageSyncRunState) :=
  _ ← validate_required "owner_identity_id" owner;
  Ok (db_run_states db !! owner).

(** ** Recovery state *)

Definition validate_recovery_mode (value : string) : ImResult unit :=
  if bool_decide (value = "compact_recovery"%string) then Ok ()
  else Err (invalid_input (Some "mode"%string) "recovery mode is not supported").

Definition validate_recovery_status (value : string) : ImResult unit :=
  if bool_decide (value ∈ ["recovering"; "downloading"; "applying"; "retryable";
                           "completed"; "permanent_failure"]%string) then Ok ()
  else Err (invalid_input (Some "status"%string) "recovery status is not supported").

Definition upsert_recovery_state (db : Db) (state : RecoveryState) : ImResult Db :=
  _ ← validate_required "owner_identity_id" (rc_owner state);
  _ ← validate_recovery_mode (rc_mode state);
  _ ← validate_recovery_status (rc_status state);
  _ ← validate_positive_decimal "requested_from_epoch" (rc_requested_from_epoch state);
  _ ← validate_decimal "requested_from_seq" (rc_requested_from_seq state);
  _ ← match rc_snapshot_scan_seq state with
      | Some snapshot_scan_seq => validate_decimal "snapshot_scan_seq" snapshot_scan_seq
      | None => Ok ()
      end;
  if rc_retry_count state <? 0 then
    Err (invalid_input (Some "retry_count"%string) "retry_count must not be negative")
  else if negb (owner_bound db (rc_owner state)) then constraint_failed
  else Ok (with_recovery (<[rc_owner state := state]> (db_recovery db)) db).

Definition load_recovery_state (db : Db) (owner : string) : option RecoveryState :=
  db_recovery db !! owner.

(** * Properties *)

(** ** Well-formed stores *)

Definition gen_le (a b : string) : Prop := decimal_value a ≤ decimal_value b.
Definition gen_lt (a b : string) : Prop := decimal_value a < decimal_value b.

Record store_wf (db : Db) : Prop := {
  wf_binding : ∀ o b, db_bindings db !! o = Some b →
    ib_owner b = o ∧ validate_binding b = Ok ();
  wf_binding_unique : ∀ o1 o2 b1 b2,
    db_bindings db !! o1 = Some b1 → db_bindings db !! o2 = Some b2 →
    ib_account b1 = ib_account b2 → ib_device b1 = ib_device b2 → o1 = o2;
  wf_message_state : ∀ o s, db_message_states db !! o = Some s →
    ms_owner s = o ∧ validate_message_sync_state s = Ok () ∧
    ∃ b, db_bindings db !! o = Some b ∧
         ms_account s = ib_account b ∧ ms_device s = ib_device b ∧
         gen_le (ms_auth_generation s) (ib_auth_generation b);
  wf_run_state : ∀ o r, db_run_states db !! o = Some r →
    rs_owner r = o ∧ 0 < rs_run_generation r ≤ i64_max;
  wf_recovery : ∀ o r, db_recovery db !! o = Some r →
    rc_owner r = o ∧ canonical (rc_requested_from_epoch r) ∧
    canonical (rc_requested_from_seq r) ∧
    from_option canonical True (rc_snapshot_scan_seq r) }.

(** The operations of this file that write the database. *)
Inductive store_step : Db → Db → Prop :=
| step_upsert_binding db b db' :
    upsert_identity_account_binding db b = Ok db' → store_step db db'
| step_register_cutover db c db' :
    register_p5_did_cutover db c = Ok db' → store_step db db'
| step_complete_cutover db owner old_did r db' :
    complete_p5_did_cutover_if_drained db owner old_did = (r, db') → store_step db db'
| step_bootstrap db s db' :
    bootstrap_message_sync_state db s = Ok db' → store_step db db'
| step_advance db s a db' :
    advance_message_sync_state db s = Ok (a, db') → store_step db db'
| step_begin_run db owner now r db' :
    begin_message_sync_run db owner now = Ok (r, db') → store_step db db'
| step_finish_run db r b db' :
    finish_message_sync_run db r = Ok (b, db') → store_step db db'
| step_upsert_recovery db r db' :
    upsert_recovery_state db r = Ok db' → store_step db db'.

Lemma validate_binding_Ok b :
  validate_binding b = Ok () →
  validate_required "current_did" (ib_current_did b) = Ok () ∧
  validate_required "owner_identity_id" (ib_owner b) = Ok () ∧
  canonical (ib_identity_generation b) ∧ canonical (ib_auth_generation b).
Proof.
  unfold validate_binding. intros. res_inv.
  repeat match goal with
  | H : validate_positive_decimal _ _ = Ok () |- _ =>
      apply validate_positive_decimal_Ok in H as [??]
  end. done.
Qed.

Lemma validate_message_sync_state_Ok s :
  validate_message_sync_state s = Ok () →
  canonical (ms_auth_generation s) ∧ canonical (ms_stream_epoch s) ∧
  canonical (ms_scan_seq s).
Proof.
  unfold validate_message_sync_state. intros. res_inv.
  repeat match goal with
  | H : validate_positive_decimal _ _ = Ok () |- _ =>
      apply validate_positive_decimal_Ok in H as [??]
  | H : validate_decimal _ _ = Ok () |- _ => apply validate_decimal_Ok in H
  end. done.
Qed.

(** What a binding that passed the guard may change. *)
Lemma check_binding_successor_Ok cur b :
  check_binding_successor cur b = Ok () →
  ib_account b = ib_account cur ∧ ib_device b = ib_device cur ∧
  gen_le (ib_identity_generation cur) (ib_identity_generation b) ∧
  gen_le (ib_auth_generation cur) (ib_auth_generation b) ∧
  (ib_current_did b ≠ ib_current_did cur →
   gen_lt (ib_identity_generation cur) (ib_identity_generation b)).
Proof.
  unfold check_binding_successor, binding_conflict. intros H. res_inv. bool_hyps.
  repeat match goal with
  | H : compare_decimal _ _ = Ok _ |- _ =>
      apply compare_decimal_Ok_inv in H as (?&?&?)
  end.
  repeat case_match; res_inv; bool_hyps; unfold gen_le, gen_lt;
    repeat match goal with
    | H : Eq = (_ ?= _) |- _ => symmetry in H; apply Z.compare_eq in H
    | H : Gt = (_ ?= _) |- _ => symmetry in H; rewrite Z.compare_gt_iff in H
    end; repeat split; try congruence; lia.
Qed.

Lemma owner_of_account_device_guard db account device o o' b' :
  (match owner_of_account_device db account device with
   | Some owner =>
       if negb (bool_decide (owner = o)) then
         binding_conflict "account device is already bound to a different local owner"
       else Ok ()
   | None => Ok ()
   end) = Ok () →
  store_wf db →
  db_bindings db !! o' = Some b' → ib_account b' = account → ib_device b' = device →
  o' = o.
Proof.
  intros H Hwf Hb' Ha Hd. unfold owner_of_account_device in H.
  set (l := filter _ _) in H.
  assert ((o', b') ∈ l) as Hin.
  { apply list_elem_of_filter. split; [done|]. by apply elem_of_map_to_list. }
  destruct l as [|[o1 b1] l'] eqn:El; [by apply elem_of_nil in Hin|]. simpl in H.
  destruct (bool_decide _) eqn:E in H; simpl in H; [|done]. bool_hyps. subst o1.
  assert ((o, b1) ∈ l) as Hin1 by (rewrite El; left).
  apply list_elem_of_filter in Hin1 as [[Ha1 Hd1] Hb1]. simpl in *.
  apply elem_of_map_to_list in Hb1.
  eapply (wf_binding_unique _ Hwf); [exact Hb'|exact Hb1|congruence|congruence].
Qed.

Lemma register_p5_did_cutover_frame db c db' :
  register_p5_did_cutover db c = Ok db' →
  db' = with_cutovers (db_cutovers db') db.
Proof.
  unfold register_p5_did_cutover, constraint_failed. intros. res_inv.
  repeat case_match; res_inv; by destruct db.
Qed.

Lemma upserted_binding_fields db b :
  (∀ cur, db_bindings db !! ib_owner b = Some cur →
     ib_owner cur = ib_owner b ∧ check_binding_successor cur b = Ok ()) →
  let r := upserted_binding db b in
  ib_owner r = ib_owner b ∧ ib_account r = ib_account b ∧ ib_device r = ib_device b ∧
  ib_current_did r = ib_current_did b ∧ ib_handle_scope r = ib_handle_scope b ∧
  ib_identity_generation r = ib_identity_generation b ∧
  ib_auth_generation r = ib_auth_generation b.
Proof.
  intros H. unfold upserted_binding.
  destruct (db_bindings db !! ib_owner b) as [cur|] eqn:E; [|done].
  destruct (H cur eq_refl) as (?&Hs).
  apply check_binding_successor_Ok in Hs as (?&?&_). done.
Qed.

(** A successful upsert: the guards it passed and what it wrote. *)
Lemma upsert_binding_inv db b db' :
  store_wf db →
  upsert_identity_account_binding db b = Ok db' →
  validate_binding b = Ok () ∧
  (∀ cur, db_bindings db !! ib_owner b = Some cur →
     ib_owner cur = ib_owner b ∧ check_binding_successor cur b = Ok ()) ∧
  (∀ o' b', db_bindings db !! o' = Some b' → ib_account b' = ib_account b →
     ib_device b' = ib_device b → o' = ib_owner b) ∧
  db' = with_cutovers (db_cutovers db')
          (with_bindings (<[ib_owner b := upserted_binding db b]> (db_bindings db)) db).
Proof.
  intros Hwf H. unfold upsert_identity_account_binding, load_identity_account_binding in H.
  res_inv. split; [done|].
  split; [|split].
  - intros cur E. rewrite E in H0. split; [|done]. by apply (wf_binding _ Hwf) in E as [??].
  - intros o' b' Hb' Ha Hd. by eapply (owner_of_account_device_guard db).
  - destruct (db_bindings db !! ib_owner b) as [cur|]; [|by res_inv; destruct db].
    destruct (bool_decide _); [by res_inv; destruct db|].
    by apply register_p5_did_cutover_frame in H2.
Qed.

Lemma upserted_binding_valid db b :
  (∀ cur, db_bindings db !! ib_owner b = Some cur →
     ib_owner cur = ib_owner b ∧ check_binding_successor cur b = Ok ()) →
  validate_binding b = Ok () → validate_binding (upserted_binding db b) = Ok ().
Proof.
  intros H Hv. destruct (upserted_binding_fields _ _ H) as (E1&E2&E3&E4&E5&E6&E7).
  unfold validate_binding in *. by rewrite E1, E2, E3, E4, E5, E6, E7.
Qed.

Lemma upsert_binding_wf db b db' :
  store_wf db → upsert_identity_account_binding db b = Ok db' → store_wf db'.
Proof.
  intros Hwf H. apply upsert_binding_inv in H as (Hv & Hcur & Huniq & ->); [|done].
  pose proof (upserted_binding_fields _ _ Hcur) as (E1&E2&E3&_&_&_&E7).
  pose proof (upserted_binding_valid _ _ Hcur Hv) as Hv'.
  split; simpl.
  - intros o r [[<- <-]|[? Hr]]%lookup_insert_Some; [done|]. by apply (wf_binding _ Hwf).
  - intros o1 o2 b1 b2 [[<- <-]|[? H1]]%lookup_insert_Some
      [[<- <-]|[? H2]]%lookup_insert_Some Ha Hd; [done| | |].
    + symmetry. apply (Huniq o2 b2); congruence.
    + apply (Huniq o1 b1); congruence.
    + by eapply (wf_binding_unique _ Hwf).
  - intros o s Hs. apply (wf_message_state _ Hwf) in Hs as (?&?&cur&Hc&Ha&Hd&Hg).
    split; [done|]. split; [done|].
    destruct (decide (o = ib_owner b)) as [->|Hne].
    + exists (upserted_binding db b). rewrite lookup_insert_eq.
      destruct (Hcur cur Hc) as [_ Hs'].
      apply check_binding_successor_Ok in Hs' as (Ea&Ed&_&Eg&_).
      rewrite E2, E3, E7. split; [done|]. split; [congruence|]. split; [congruence|].
      unfold gen_le in *. lia.
    + exists cur. by rewrite lookup_insert_ne by congruence.
  - apply (wf_run_state _ Hwf).
  - apply (wf_recovery _ Hwf).
Qed.

(** Changing only a table the invariant does not read. *)
Lemma with_cutovers_wf t db : store_wf db → store_wf (with_cutovers t db).
Proof. intros []. split; done. Qed.

Lemma register_cutover_wf db c db' :
  store_wf db → register_p5_did_cutover db c = Ok db' → store_wf db'.
Proof. intros ? ->%register_p5_did_cutover_frame. by apply with_cutovers_wf. Qed.

Lemma complete_cutover_wf db owner old r db' :
  store_wf db → complete_p5_did_cutover_if_drained db owner old = (r, db') → store_wf db'.
Proof.
  intros Hwf. unfold complete_p5_did_cutover_if_drained. destruct (exists_where _ _);
    intros [= _ <-]; [done|by apply with_cutovers_wf].
Qed.

(** *** Bootstrap *)

(** Under the invariant the unique index is never the reason a bootstrap
    fails: the state was checked against the binding of its own owner. *)
Lemma upsert_bootstrap_state_wf db s b :
  store_wf db →
  db_bindings db !! ms_owner s = Some b →
  ib_account b = ms_account s → ib_device b = ms_device s →
  upsert_bootstrap_state db s =
    Ok (with_message_states (<[ms_owner s := s]> (db_message_states db)) db).
Proof.
  intros Hwf Hb Ha Hd. unfold upsert_bootstrap_state, owner_bound.
  rewrite bool_decide_eq_true_2 by eauto. simpl.
  destruct (existsb _ _) eqn:E; [|done]. exfalso.
  apply existsb_exists in E as ([o' s'] & Hin & Hp). simpl in Hp. bool_hyps.
  apply list_elem_of_In, elem_of_map_to_list in Hin.
  apply (wf_message_state _ Hwf) in Hin as (?&?&b'&Hb'&?&?&_).
  assert (o' = ms_owner s); [|done].
  eapply (wf_binding_unique _ Hwf); [exact Hb'|exact Hb|congruence|congruence].
Qed.

Lemma bootstrap_inv db s db' :
  store_wf db → bootstrap_message_sync_state db s = Ok db' →
  validate_message_sync_state s = Ok () ∧
  ∃ b, db_bindings db !! ms_owner s = Some b ∧ ib_account b = ms_account s ∧
    ib_device b = ms_device s ∧ ib_auth_generation b = ms_auth_generation s ∧
    db' = complete_active_recovery
            (with_message_states (<[ms_owner s := s]> (db_message_states db)) db) s.
Proof.
  intros Hwf H. unfold bootstrap_message_sync_state, binding_conflict in H.
  res_inv. bool_hyps. split; [done|]. eexists. split; [done|].
  rewrite (upsert_bootstrap_state_wf _ _ _ Hwf H0) in H1 by done. res_inv. done.
Qed.

Lemma bootstrap_wf db s db' :
  store_wf db → bootstrap_message_sync_state db s = Ok db' → store_wf db'.
Proof.
  intros Hwf H. apply bootstrap_inv in H as (Hv & b & Hb & Ha & Hd & Hg & ->); [|done].
  split; simpl.
  - apply (wf_binding _ Hwf).
  - apply (wf_binding_unique _ Hwf).
  - intros o s' [[<- <-]|[? Hs]]%lookup_insert_Some; [|by apply (wf_message_state _ Hwf)].
    split; [done|]. split; [done|]. exists b. rewrite Hg. unfold gen_le.
    repeat split; try done.
  - apply (wf_run_state _ Hwf).
  - intros o r Hr. rewrite lookup_alter_Some in Hr.
    destruct Hr as [(<- & r0 & Hr0 & ->)|(_ & Hr)]; [|by apply (wf_recovery _ Hwf)].
    apply (wf_recovery _ Hwf) in Hr0 as (?&?&?&?).
    apply validate_message_sync_state_Ok in Hv as (_&_&?).
    by destruct (recovery_active _).
Qed.

(** *** Advancing *)

Lemma load_message_sync_state_Ready db o s :
  load_message_sync_state db o = Ok (Ready s) →
  db_message_states db !! o = Some s ∧
  ∃ b, db_bindings db !! o = Some b ∧ ms_account s = ib_account b ∧
    ms_device s = ib_device b ∧ ms_auth_generation s = ib_auth_generation b.
Proof.
  unfold load_message_sync_state, load_message_sync_state_row,
    load_identity_account_binding, binding_conflict. intros. res_inv.
  destruct (db_message_states db !! o) eqn:E; res_inv. bool_hyps.
  destruct (negb _) eqn:E2 in *; res_inv. bool_hyps. eauto 10.
Qed.

Lemma advance_inv db next a db' :
  store_wf db → advance_message_sync_state db next = Ok (a, db') →
  (∃ fence, a = BootstrapRequired fence ∧ db' = db) ∨
  (a = Ready next ∧ validate_message_sync_state next = Ok () ∧
   ∃ cur, db_message_states db !! ms_owner next = Some cur ∧
     ms_account cur = ms_account next ∧ ms_device cur = ms_device next ∧
     ms_auth_generation cur = ms_auth_generation next ∧
     ms_stream_epoch cur = ms_stream_epoch next ∧
     gen_le (ms_scan_seq cur) (ms_scan_seq next) ∧
     db' = with_message_states (<[ms_owner next := next]> (db_message_states db)) db).
Proof.
  intros Hwf H. unfold advance_message_sync_state, binding_conflict in H.
  res_inv. bool_hyps.
  match goal with
  | H : load_message_sync_state _ _ = Ok ?acc |- _ =>
      destruct acc as [cur|fence]; [apply load_message_sync_state_Ready in H as (Hc & _)|]
  end; [|left; res_inv; eauto].
  res_inv. destruct (bool_decide (ms_stream_epoch cur = ms_stream_epoch next)) eqn:E;
    simpl in *; [right|left; res_inv; eauto].
  res_inv. bool_hyps.
  match goal with
  | H : compare_decimal _ _ = Ok ?ord |- _ =>
      apply compare_decimal_Ok_inv in H as (_ & _ & Hcmp); rename ord into order
  end.
  assert (order ≠ Lt ∧ advance_matches cur next = true ∧ a = Ready next ∧
    db' = with_message_states
      (<[ms_owner next := advanced_row cur next]> (db_message_states db)) db)
    as (Hlt & Hm & -> & ->).
  { rewrite Hc in *. destruct order; res_inv; done. }
  split; [done|]. split; [done|]. exists cur. unfold advance_matches in Hm. bool_hyps.
  split_and!; try done.
  - unfold gen_le. subst order. by apply Z.compare_ge_iff in Hlt.
  - apply (wf_message_state _ Hwf) in Hc as (?&_).
    unfold advanced_row. destruct next, cur; simpl in *; by subst.
Qed.

Lemma advance_wf db next a db' :
  store_wf db → advance_message_sync_state db next = Ok (a, db') → store_wf db'.
Proof.
  intros Hwf H.
  apply advance_inv in H
    as [(?&_&->)|(_ & Hv & cur & Hc & Ha & Hd & Hg & He & Hs & ->)]; [done| |done].
  split; simpl.
  - apply (wf_binding _ Hwf).
  - apply (wf_binding_unique _ Hwf).
  - intros o s [[<- <-]|[? Hs']]%lookup_insert_Some; [|by apply (wf_message_state _ Hwf)].
    apply (wf_message_state _ Hwf) in Hc as (_&_&b&?&?&?&?).
    split; [done|]. split; [done|]. exists b. unfold gen_le in *. by rewrite <-Ha, <-Hd, <-Hg.
  - apply (wf_run_state _ Hwf).
  - apply (wf_recovery _ Hwf).
Qed.

(** *** Runs and recovery *)

Lemma i64_checked_add_Some a b c :
  i64_checked_add a b = Some c → c = a + b ∧ i64_min ≤ c ≤ i64_max.
Proof.
  unfold i64_checked_add. destruct (_ && _) eqn:E; [|done]. intros [= <-].
  bool_hyps. lia.
Qed.

Lemma begin_run_inv db owner now r db' :
  begin_message_sync_run db owner now = Ok (r, db') →
  rs_run_generation r =
    default 0 (rs_run_generation <$> db_run_states db !! owner) + 1 ∧
  rs_run_generation r ≤ i64_max ∧
  r = mkRunState owner true (rs_run_generation r) None None now ∧
  db' = with_run_states (<[owner := r]> (db_run_states db)) db.
Proof.
  unfold begin_message_sync_run, binding_conflict. intros H. res_inv.
  destruct (load_identity_account_binding db owner); res_inv.
  match goal with
  | H : i64_checked_add _ _ = Some _ |- _ => apply i64_checked_add_Some in H as (->&?)
  end. simpl. split_and!; [done|lia|done|done].
Qed.

Lemma begin_run_wf db owner now r db' :
  store_wf db → begin_message_sync_run db owner now = Ok (r, db') → store_wf db'.
Proof.
  intros Hwf (Hg & Hmax & Hr & ->)%begin_run_inv. destruct Hwf as [H1 H2 H3 H4 H5].
  split; simpl; try done.
  intros o r' [[<- <-]|[? Hr']]%lookup_insert_Some; [|by apply H4].
  rewrite Hr. simpl. split; [done|]. split; [|done].
  destruct (db_run_states db !! owner) as [r0|] eqn:E; simpl in Hg; [|lia].
  apply H4 in E. lia.
Qed.

Lemma finish_run_inv db r b db' :
  finish_message_sync_run db r = Ok (b, db') →
  (b = false ∧ db' = db ∧
     rs_run_generation <$> db_run_states db !! rs_owner r ≠ Some (rs_run_generation r)) ∨
  (b = true ∧ ∃ row, db_run_states db !! rs_owner r = Some row ∧
     rs_run_generation row = rs_run_generation r ∧
     db' = with_run_states
       (<[rs_owner r := mkRunState (rs_owner row) (rs_sync_pending r)
            (rs_run_generation row) (rs_next_retry_at r) (rs_last_result_json r)
            (rs_updated_at r)]> (db_run_states db)) db).
Proof.
  unfold finish_message_sync_run. intros H. res_inv. bool_hyps.
  destruct (db_run_states db !! rs_owner r) as [row|] eqn:E; [|left; res_inv; done].
  destruct (_ =? _) eqn:E2 in *; bool_hyps; res_inv; [right; eauto|left].
  split_and!; [done|done|]. simpl. congruence.
Qed.

Lemma finish_run_wf db r b db' :
  store_wf db → finish_message_sync_run db r = Ok (b, db') → store_wf db'.
Proof.
  intros Hwf [(_&->&_)|(_&row&Hrow&Hg&->)]%finish_run_inv; [done|].
  destruct Hwf as [H1 H2 H3 H4 H5]. split; simpl; try done.
  intros o r' [[<- <-]|[? Hr']]%lookup_insert_Some; [|by apply H4].
  apply H4 in Hrow as (?&?). simpl. by split.
Qed.

Lemma upsert_recovery_wf db r db' :
  store_wf db → upsert_recovery_state db r = Ok db' → store_wf db'.
Proof.
  intros [H1 H2 H3 H4 H5] H. unfold upsert_recovery_state, constraint_failed in H. res_inv.
  split; simpl; try done.
  intros o r' [[<- <-]|[? Hr']]%lookup_insert_Some; [|by apply H5].
  apply validate_positive_decimal_Ok in H7 as [??]. apply validate_decimal_Ok in H8.
  split_and!; [done..|].
  destruct (rc_snapshot_scan_seq r); simpl; [|done]. by apply validate_decimal_Ok in H9.
Qed.

Lemma store_step_wf db db' : store_wf db → store_step db db' → store_wf db'.
Proof.
  intros Hwf Hs. destruct Hs.
  - by eapply upsert_binding_wf.
  - by eapply register_cutover_wf.
  - by eapply complete_cutover_wf.
  - by eapply bootstrap_wf.
  - by eapply advance_wf.
  - by eapply begin_run_wf.
  - by eapply finish_run_wf.
  - by eapply upsert_recovery_wf.
Qed.

Lemma store_steps_wf db db' : store_wf db → rtc store_step db db' → store_wf db'.
Proof. intros Hwf Hs. induction Hs as [|???? ? IH]; [done|]. apply IH. by eapply store_step_wf. Qed.

Lemma empty_db_wf : store_wf empty_db.
Proof. split; simpl; intros; by rewrite lookup_empty in *. Qed.

(** ** What a step may change *)

(** The frame of each operation: which tables a step leaves alone. *)
Lemma store_step_bindings db db' :
  store_wf db → store_step db db' →
  db_bindings db' = db_bindings db ∨
  ∃ b, upsert_identity_account_binding db b = Ok db'.
Proof.
  intros Hwf Hs. destruct Hs as [db b db' H|db c db' H|db o old r db' H|db s db' H
    |db s a db' H|db o now r db' H|db r b db' H|db r db' H]; [by eauto|left..].
  - by rewrite (register_p5_did_cutover_frame _ _ _ H).
  - unfold complete_p5_did_cutover_if_drained in H. by destruct (exists_where _ _);
      injection H as _ <-.
  - by apply bootstrap_inv in H as (_&?&_&_&_&_&->).
  - by apply advance_inv in H as [(?&_&->)|(_&_&?&_&_&_&_&_&_&->)].
  - by apply begin_run_inv in H as (_&_&_&->).
  - by apply finish_run_inv in H as [(_&->&_)|(_&?&_&_&->)].
  - unfold upsert_recovery_state, constraint_failed in H. by res_inv.
Qed.

Lemma store_step_run_states db db' o r :
  store_wf db → store_step db db' → db_run_states db !! o = Some r →
  ∃ r', db_run_states db' !! o = Some r' ∧ rs_run_generation r ≤ rs_run_generation r'.
Proof.
  intros Hwf Hs Hr.
  assert (db_run_states db' = db_run_states db → ∃ r',
    db_run_states db' !! o = Some r' ∧ rs_run_generation r ≤ rs_run_generation r') as Hsame.
  { intros ->. exists r. split; [done|lia]. }
  destruct Hs as [db b db' H|db c db' H|db o' old r' db' H|db s db' H
    |db s a db' H|db o' now r' db' H|db r' b db' H|db r' db' H].
  - apply Hsame. apply upsert_binding_inv in H as (_&_&_&E); [|done]. by rewrite E.
  - apply Hsame. by rewrite (register_p5_did_cutover_frame _ _ _ H).
  - apply Hsame. unfold complete_p5_did_cutover_if_drained in H.
    by destruct (exists_where _ _); injection H as _ <-.
  - apply bootstrap_inv in H as (_&?&_&_&_&_&->); [|done]. by apply Hsame.
  - by apply advance_inv in H as [(?&_&->)|(_&_&?&_&_&_&_&_&_&->)]; [apply Hsame..|].
  - apply begin_run_inv in H as (Hg&_&_&->). simpl in *.
    destruct (decide (o = o')) as [->|];
      [|rewrite lookup_insert_ne by done; exists r; split; [done|lia]].
    rewrite lookup_insert_eq. rewrite Hr in Hg. simpl in Hg. eexists. split; [done|lia].
  - apply finish_run_inv in H as [(_&->&_)|(_&row&Hrow&Hg&->)]; [by apply Hsame|]. simpl in *.
    destruct (decide (o = rs_owner r')) as [->|];
      [|rewrite lookup_insert_ne by done; exists r; split; [done|lia]].
    rewrite lookup_insert_eq. eexists. split; [done|]. simpl. simplify_eq. lia.
  - unfold upsert_recovery_state, constraint_failed in H. res_inv. by apply Hsame.
Qed.

Lemma store_steps_run_states db db' o r :
  store_wf db → rtc store_step db db' → db_run_states db !! o = Some r →
  ∃ r', db_run_states db' !! o = Some r' ∧ rs_run_generation r ≤ rs_run_generation r'.
Proof.
  intros Hwf Hs. revert r. induction Hs as [|x y z Hxy _ IH]; intros r Hr;
    [exists r; split; [done|lia]|].
  destruct (store_step_run_states _ _ _ _ Hwf Hxy Hr) as (r1&H1&?).
  destruct (IH (store_step_wf _ _ Hwf Hxy) r1 H1) as (r2&H2&?). exists r2. split; [done|lia].
Qed.

Lemma store_step_binding_monotone db db' o b :
  store_wf db → store_step db db' → db_bindings db !! o = Some b →
  ∃ b', db_bindings db' !! o = Some b' ∧
    ib_account b' = ib_account b ∧ ib_device b' = ib_device b ∧
    gen_le (ib_identity_generation b) (ib_identity_generation b') ∧
    gen_le (ib_auth_generation b) (ib_auth_generation b') ∧
    (ib_current_did b' ≠ ib_current_did b →
     gen_lt (ib_identity_generation b) (ib_identity_generation b')).
Proof.
  intros Hwf Hs Hb. destruct (store_step_bindings _ _ Hwf Hs) as [->|(nb&H)].
  { exists b. unfold gen_le, gen_lt. split_and!; try done. }
  apply upsert_binding_inv in H as (_&Hcur&_&->); [|done]. simpl.
  destruct (decide (o = ib_owner nb)) as [->|];
    [|rewrite lookup_insert_ne by done; exists b; unfold gen_le; split_and!; done].
  rewrite lookup_insert_eq. exists (upserted_binding db nb). split; [done|].
  destruct (upserted_binding_fields _ _ Hcur) as (_&->&->&->&_&->&->).
  destruct (Hcur _ Hb) as (_&Hok). by apply check_binding_successor_Ok in Hok.
Qed.

(** The receive cursor of an owner: only an advance moves it, and only
    forward, until a bootstrap of the same owner replaces it. *)
Lemma store_step_cursor db db' o s :
  store_wf db → store_step db db' → db_message_states db !! o = Some s →
  ∃ s', db_message_states db' !! o = Some s' ∧
    ((ms_stream_epoch s' = ms_stream_epoch s ∧
      ms_auth_generation s' = ms_auth_generation s ∧
      gen_le (ms_scan_seq s) (ms_scan_seq s')) ∨
     (bootstrap_message_sync_state db s' = Ok db' ∧ ms_owner s' = o)).
Proof.
  intros Hwf Hs Hr.
  assert (db_message_states db' = db_message_states db → ∃ s',
    db_message_states db' !! o = Some s' ∧
    ((ms_stream_epoch s' = ms_stream_epoch s ∧
      ms_auth_generation s' = ms_auth_generation s ∧
      gen_le (ms_scan_seq s) (ms_scan_seq s')) ∨
     (bootstrap_message_sync_state db s' = Ok db' ∧ ms_owner s' = o))) as Hsame.
  { intros ->. exists s. split; [done|]. left. unfold gen_le. done. }
  destruct Hs as [db b db' H|db c db' H|db o' old r' db' H|db s2 db' H
    |db s2 a db' H|db o' now r' db' H|db r' b db' H|db r' db' H].
  - apply Hsame. apply upsert_binding_inv in H as (_&_&_&E); [|done]. by rewrite E.
  - apply Hsame. by rewrite (register_p5_did_cutover_frame _ _ _ H).
  - apply Hsame. unfold complete_p5_did_cutover_if_drained in H.
    by destruct (exists_where _ _); injection H as _ <-.
  - pose proof H as Hb. apply bootstrap_inv in H as (_&?&_&_&_&_&E); [|done].
    rewrite E in Hsame |- *. simpl in *.
    destruct (decide (o = ms_owner s2)) as [->|];
      [|rewrite lookup_insert_ne by done; exists s; split; [done|]; left; by unfold gen_le].
    rewrite lookup_insert_eq. exists s2. split; [done|]. right. by rewrite Hb, E.
  - apply advance_inv in H as [(?&_&->)|(_&_&cur&Hc&_&_&Hg&He&Hle&->)]; [by apply Hsame| |done].
    simpl in *. destruct (decide (o = ms_owner s2)) as [->|];
      [|rewrite lookup_insert_ne by done; exists s; split; [done|]; left; by unfold gen_le].
    rewrite lookup_insert_eq. exists s2. split; [done|]. left. simplify_eq. done.
  - apply begin_run_inv in H as (_&_&_&->). by apply Hsame.
  - by apply finish_run_inv in H as [(_&->&_)|(_&row&Hrow&Hg&->)]; apply Hsame.
  - unfold upsert_recovery_state, constraint_failed in H. res_inv. by apply Hsame.
Qed.

(** A binding history keeps its account and device and never goes back. *)
Definition binding_succeeds (b b' : IdentityAccountBinding) : Prop :=
  ib_account b' = ib_account b ∧ ib_device b' = ib_device b ∧
  gen_le (ib_identity_generation b) (ib_identity_generation b') ∧
  gen_le (ib_auth_generation b) (ib_auth_generation b') ∧
  (ib_current_did b' ≠ ib_current_did b →
   gen_lt (ib_identity_generation b) (ib_identity_generation b')).

#[export] Instance binding_succeeds_preorder : PreOrder binding_succeeds.
Proof.
  split.
  - intros b. unfold binding_succeeds, gen_le. split_and!; try done; lia.
  - intros a b c (?&?&?&?&Hd) (?&?&?&?&Hd'). unfold binding_succeeds, gen_le, gen_lt in *.
    split_and!; try congruence; try lia. intros Hne.
    destruct (decide (ib_current_did b = ib_current_did a)) as [E|E];
      [rewrite <-E in Hne; specialize (Hd' Hne)|specialize (Hd E)]; lia.
Qed.

(** Along any sequence of the store's operations, the binding of an owner is
    never lost and never changes account or device; its identity and device
    authorization generations never decrease, and its current DID changes only
    together with a strictly newer identity generation. *)
Theorem binding_history_monotone db db' o b :
  store_wf db → rtc store_step db db' → db_bindings db !! o = Some b →
  store_wf db' ∧ ∃ b', db_bindings db' !! o = Some b' ∧ binding_succeeds b b'.
Proof.
  intros Hwf Hs Hb. split; [by eapply store_steps_wf|]. revert b Hb.
  induction Hs as [x|x y z Hxy _ IH]; intros b Hb; [by exists b|].
  destruct (store_step_binding_monotone _ _ _ _ Hwf Hxy Hb) as (b1&Hb1&H1).
  destruct (IH (store_step_wf _ _ Hwf Hxy) b1 Hb1) as (b2&Hb2&H2).
  exists b2. split; [done|]. by transitivity b1.
Qed.


(** What [advance_message_sync_state] reports is what it stored: on [Ready]
    the returned cursor is the caller's, it is what the next load returns, and
    it stays in the stream epoch and the active authorization generation; on
    [BootstrapRequired] the database is unchanged. *)
Theorem advance_reports_stored db next a db' :
  store_wf db → advance_message_sync_state db next = Ok (a, db') →
  match a with
  | BootstrapRequired _ => db' = db
  | Ready n =>
      n = next ∧ load_message_sync_state db' (ms_owner next) = Ok (Ready next) ∧
      ∃ cur b, load_message_sync_state db (ms_owner next) = Ok (Ready cur) ∧
        db_bindings db !! ms_owner next = Some b ∧
        ms_auth_generation next = ib_auth_generation b ∧
        ms_stream_epoch cur = ms_stream_epoch next ∧
        gen_le (ms_scan_seq cur) (ms_scan_seq next)
  end.
Proof.
  intros Hwf H. pose proof H as H'.
  apply advance_inv in H as [(f&->&->)|(->&Hv&cur&Hc&Ha&Hd&Hg&He&Hle&->)]; [done| |done].
  split; [done|].
  assert (∃ c, load_message_sync_state db (ms_owner next) = Ok (Ready c)) as [c Hload].
  { unfold advance_message_sync_state, binding_conflict in H'. res_inv.
    match goal with H : load_message_sync_state _ _ = Ok ?x |- _ => destruct x end;
      [eauto|res_inv]. }
  pose proof Hload as Hl. apply load_message_sync_state_Ready in Hl as (Hc'&b&Hb&?&?&Hgb).
  simplify_eq. split; [|exists cur, b; split_and!; try done; congruence].
  unfold load_message_sync_state, load_message_sync_state_row,
    load_identity_account_binding. simpl. rewrite Hb. simpl. rewrite lookup_insert_eq.
  by rewrite !bool_decide_eq_true_2 by congruence.
Qed.

(** Run generations fence superseded runs. A run that begins gets a strictly
    larger generation than every run before it and passes the generation check;
    from then on, whatever else the store does, a run with an earlier generation
    fails the check with [SYNC_RUN_SUPERSEDED] and its completion is dropped
    without touching the database. *)
Theorem superseded_run_fenced db o now r db1 db2 g (st : MessageSyncRunState) :
  store_wf db → begin_message_sync_run db o now = Ok (r, db1) →
  rtc store_step db1 db2 → 0 < g < rs_run_generation r →
  rs_owner st = o → rs_run_generation st = g →
  require_message_sync_run_generation db1 o (Some (rs_run_generation r)) = Ok () ∧
  (∀ old, db_run_states db !! o = Some old → rs_run_generation old < rs_run_generation r) ∧
  require_message_sync_run_generation db2 o (Some g) =
    Err (sync_error "SYNC_RUN_SUPERSEDED"
           "a newer sync run superseded this apply transaction") ∧
  finish_message_sync_run db2 st = Ok (false, db2).
Proof.
  intros Hwf Hb Hs Hg Ho Hst. pose proof (begin_run_wf _ _ _ _ _ Hwf Hb) as Hwf1.
  pose proof Hb as Hval. apply begin_run_inv in Hb as (Hr&_&_&E). subst db1.
  destruct (store_steps_run_states _ _ o r Hwf1 Hs) as (r2&H2&Hle);
    [simpl; apply lookup_insert_eq|].
  split_and!.
  - unfold require_message_sync_run_generation. simpl. rewrite lookup_insert_eq. simpl.
    by rewrite bool_decide_eq_true_2.
  - intros old Hold. rewrite Hold in Hr. simpl in Hr. lia.
  - unfold require_message_sync_run_generation. rewrite H2. simpl.
    rewrite bool_decide_eq_false_2; [done|]. intros [= ?]. lia.
  - unfold begin_message_sync_run in Hval. res_inv. unfold finish_message_sync_run.
    match goal with H : validate_required _ _ = Ok () |- _ => rewrite H end.
    simpl. destruct (_ <=? 0) eqn:E; bool_hyps; [lia|]. rewrite H2.
    destruct (_ =? _) eqn:E2; bool_hyps; [lia|done].
Qed.

(** A bootstrap succeeds exactly when the state is well-formed and names the
    account, device and authorization generation of the owner's active binding
    (the unique index never rejects it); it then installs that cursor, which the
    next load returns, and leaves no interrupted recovery of the owner active. *)
Theorem bootstrap_succeeds_iff db s :
  store_wf db →
  (∃ db', bootstrap_message_sync_state db s = Ok db' ∧
     load_message_sync_state db' (ms_owner s) = Ok (Ready s) ∧
     (∀ r, load_recovery_state db' (ms_owner s) = Some r →
        recovery_active (rc_status r) = false)) ↔
  validate_message_sync_state s = Ok () ∧
  ∃ b, db_bindings db !! ms_owner s = Some b ∧ ib_account b = ms_account s ∧
    ib_device b = ms_device s ∧ ib_auth_generation b = ms_auth_generation s.
Proof.
  intros Hwf. split.
  - intros (db'&H&_). apply bootstrap_inv in H as (?&b&?&?&?&?&_); [|done]. eauto 10.
  - intros (Hv&b&Hb&Ha&Hd&Hg). eexists. split_and!.
    + unfold bootstrap_message_sync_state, load_identity_account_binding.
      rewrite Hv, Hb. simpl. rewrite !bool_decide_eq_true_2 by done. simpl.
      by rewrite (upsert_bootstrap_state_wf _ _ _ Hwf Hb Ha Hd).
    + unfold load_message_sync_state, load_message_sync_state_row,
        load_identity_account_binding. simpl. rewrite Hb. simpl.
      rewrite lookup_insert_eq. by rewrite !bool_decide_eq_true_2 by done.
    + unfold load_recovery_state. simpl. intros r Hr.
      apply lookup_alter_Some in Hr as [(_&r0&_&->)|(?&_)]; [|done].
      destruct (recovery_active (rc_status r0)) eqn:E; [done|by rewrite E].
Qed.

(** A binding whose current DID changes records a cutover from the old DID
    to the new one that drains for the closed-lane retention after the change. A
    cutover that is already recorded keeps its status: one that was drained
    before is recorded again as drained, with its new deadline. *)
Theorem did_change_records_cutover db b cur db' :
  store_wf db → db_bindings db !! ib_owner b = Some cur →
  ib_current_did cur ≠ ib_current_did b →
  upsert_identity_account_binding db b = Ok db' →
  let same := same_cutover (ib_owner b) (ib_current_did cur) (ib_current_did b) in
  ∃ c, c ∈ db_cutovers db' ∧ same c = true ∧
    cu_drain_deadline c =
      i64_saturating_add (ib_updated_at b) SYNC_LANE_CLOSED_RETENTION_SECONDS ∧
    ((∀ c0, c0 ∈ db_cutovers db → same c0 = false) → cu_status c = "draining"%string) ∧
    (∀ c0, c0 ∈ db_cutovers db → same c0 = true →
       ∃ c', c' ∈ db_cutovers db' ∧ same c' = true ∧ cu_status c' = cu_status c0).
Proof.
  intros Hwf Hcur Hdid H. cbv zeta. unfold upsert_identity_account_binding,
    load_identity_account_binding in H. rewrite Hcur in H. res_inv.
  rewrite bool_decide_eq_false_2 in * by done.
  unfold register_p5_did_cutover, binding_conflict in *. simpl in *. res_inv.
  set (same := same_cutover _ _ _) in *.
  destruct (exists_where same (db_cutovers db)) eqn:E.
  - destruct (forallb _ _); [|done]. res_inv. simpl.
    apply exists_where_true in E as (c0&Hc0&Hs0).
    assert (∀ c1, c1 ∈ db_cutovers db → same c1 = true → ∃ c', c' ∈ update_where same
        (λ c, mkCutover (cu_owner c) (cu_old_did c) (cu_new_did c) (cu_cutover_at c)
           (i64_saturating_add (ib_updated_at b) SYNC_LANE_CLOSED_RETENTION_SECONDS)
           (cu_status c)) (db_cutovers db) ∧ same c' = true ∧
        cu_drain_deadline c' =
          i64_saturating_add (ib_updated_at b) SYNC_LANE_CLOSED_RETENTION_SECONDS ∧
        cu_status c' = cu_status c1) as Hup.
    { intros c1 Hc1 Hs1. eexists. split_and!;
        [apply elem_of_update_where; exists c1; split; [done|by rewrite Hs1]|done..]. }
    destruct (Hup c0 Hc0 Hs0) as (c&?&?&?&?). exists c. split_and!; try done.
    + intros Hno. by rewrite (Hno c0 Hc0) in Hs0.
    + intros c1 Hc1 Hs1. destruct (Hup c1 Hc1 Hs1) as (c'&?&?&_&?). eauto.
  - res_inv. simpl. eexists. split_and!;
      [apply elem_of_app; right; by left| | | |]; simpl; try done.
    + unfold same, same_cutover. simpl. by rewrite !bool_decide_eq_true_2.
    + intros c0 Hc0 Hs0. by rewrite (proj1 (exists_where_false _ _) E c0 Hc0) in Hs0.
Qed.

(** ** Concrete histories *)

Definition ex_binding : IdentityAccountBinding :=
  mkBinding "owner-1" "account-1" None "did:a" "device-1" "1" "1" 100 100.
Definition ex_rebound (did generation : string) (at_time : Z) : IdentityAccountBinding :=
  mkBinding "owner-1" "account-1" None did "device-1" generation "1" 100 at_time.
Definition ex_db : Db := unwrap_or (upsert_identity_account_binding empty_db ex_binding) empty_db.
Definition ex_state (seq : string) : MessageSyncState :=
  mkMessageState "owner-1" "account-1" "device-1" "1" "3" seq "active" None None None None 101.
Definition ex_cursor_db : Db :=
  unwrap_or (bootstrap_message_sync_state ex_db (ex_state "9")) empty_db.

Lemma ex_db_wf : store_wf ex_db.
Proof. apply (upsert_binding_wf empty_db ex_binding); [apply empty_db_wf|]. by vm_compute. Qed.

Lemma ex_cursor_db_wf : store_wf ex_cursor_db.
Proof. apply (bootstrap_wf ex_db (ex_state "9")); [apply ex_db_wf|]. by vm_compute. Qed.

Lemma binding_history_monotone_witness :
  ∃ b', db_bindings (unwrap_or (upsert_identity_account_binding ex_db
           (ex_rebound "did:b" "2" 200)) ex_db) !! "owner-1"%string = Some b' ∧
        binding_succeeds ex_binding b'.
Proof.
  refine (proj2 (binding_history_monotone ex_db _ "owner-1" ex_binding ex_db_wf _ _)).
  - apply rtc_once, (step_upsert_binding _ (ex_rebound "did:b" "2" 200)).
    vm_compute. reflexivity.
  - vm_compute. reflexivity.
Defined.


Lemma advance_reports_stored_witness :
  load_message_sync_state
    (unwrap_or (advance_message_sync_state ex_cursor_db (ex_state "12"))
       (Ready (ex_state "0"), ex_db)).2 "owner-1" = Ok (Ready (ex_state "12")).
Proof.
  refine (proj1 (proj2 (advance_reports_stored ex_cursor_db (ex_state "12")
    (Ready (ex_state "12")) _ ex_cursor_db_wf _))).
  vm_compute. reflexivity.
Defined.

Definition ex_run (n : nat) (db : Db) : Db :=
  Nat.iter n (λ db, (unwrap_or (begin_message_sync_run db "owner-1" 300)
                       (mkRunState "" false 0 None None 0, db)).2) db.

Lemma ex_run_wf : store_wf (ex_run 1 ex_db).
Proof.
  apply (begin_run_wf ex_db "owner-1" 300 (mkRunState "owner-1" true 1 None None 300));
    [apply ex_db_wf|]. vm_compute. reflexivity.
Qed.

Lemma superseded_run_fenced_witness :
  finish_message_sync_run (ex_run 2 ex_db) (mkRunState "owner-1" false 1 None None 301)
  = Ok (false, ex_run 2 ex_db).
Proof.
  refine (proj2 (proj2 (proj2 (superseded_run_fenced (ex_run 1 ex_db) "owner-1" 300
    (mkRunState "owner-1" true 2 None None 300) (ex_run 2 ex_db) (ex_run 2 ex_db) 1
    (mkRunState "owner-1" false 1 None None 301) ex_run_wf _ _ _ eq_refl eq_refl)))).
  - vm_compute. reflexivity.
  - apply rtc_refl.
  - simpl. lia.
Defined.

Lemma bootstrap_succeeds_iff_witness :
  ∃ db', bootstrap_message_sync_state ex_db (ex_state "9") = Ok db' ∧
     load_message_sync_state db' "owner-1" = Ok (Ready (ex_state "9")) ∧
     (∀ r, load_recovery_state db' "owner-1" = Some r →
        recovery_active (rc_status r) = false).
Proof.
  apply (bootstrap_succeeds_iff ex_db (ex_state "9") ex_db_wf).
  split; [vm_compute; reflexivity|]. exists ex_binding. vm_compute. repeat split.
Defined.

(** The owner moves from [did:a] to [did:b], the backlog drains, it moves back
    and then to [did:b] again. *)
Definition ex_moved : Db :=
  let db1 := unwrap_or (upsert_identity_account_binding ex_db (ex_rebound "did:b" "2" 200)) ex_db in
  let db2 := (complete_p5_did_cutover_if_drained db1 "owner-1" "did:a").2 in
  unwrap_or (upsert_identity_account_binding db2 (ex_rebound "did:a" "3" 300)) ex_db.

Lemma ex_moved_wf : store_wf ex_moved.
Proof.
  set (db1 := unwrap_or (upsert_identity_account_binding ex_db
                (ex_rebound "did:b" "2" 200)) ex_db).
  set (db2 := (complete_p5_did_cutover_if_drained db1 "owner-1" "did:a").2).
  apply (upsert_binding_wf db2 (ex_rebound "did:a" "3" 300)); [|by vm_compute].
  apply (complete_cutover_wf db1 "owner-1" "did:a" true); [|by vm_compute].
  apply (upsert_binding_wf ex_db (ex_rebound "did:b" "2" 200)); [apply ex_db_wf|].
  by vm_compute.
Qed.

(** The second move is recorded, with a deadline, as already drained. *)
Lemma did_change_records_cutover_witness :
  let db := unwrap_or (upsert_identity_account_binding ex_moved (ex_rebound "did:b" "4" 400)) ex_db in
  (∃ c', c' ∈ db_cutovers db ∧ same_cutover "owner-1" "did:a" "did:b" c' = true ∧
     cu_status c' = "drained"%string) ∧
  load_p5_did_cutover db "owner-1" "did:a" =
    Some (mkCutover "owner-1" "did:a" "did:b" 200 (400 + 604800) "drained").
Proof.
  split; [|vm_compute; reflexivity].
  destruct (did_change_records_cutover ex_moved (ex_rebound "did:b" "4" 400)
    (ex_rebound "did:a" "3" 300)
    (unwrap_or (upsert_identity_account_binding ex_moved (ex_rebound "did:b" "4" 400)) ex_db)
    ex_moved_wf) as (c & _ & _ & _ & _ & Hkeep).
  - vm_compute. reflexivity.
  - vm_compute. discriminate.
  - vm_compute. reflexivity.
  - apply (Hkeep (mkCutover "owner-1" "did:a" "did:b" 200 (200 + 604800) "drained")).
    + vm_compute. left.
    + vm_compute. reflexivity.
Defined.
