(* ===== verification/Receipts.v ===== *)
(** * Applied-event receipts

    [local_state/sync_v2.rs]: the receipts that make applying an event
    idempotent ([record_applied_event], [applied_event_position]) and their
    bounded pruning ([prune_applied_events]), which must never drop a receipt
    that a redelivery or an interrupted recovery can still ask for. *)

From S2P Require Import Prelude RustStr ImError Decimal Store SyncStore.
Local Open Scope Z_scope.

Definition APPLIED_EVENT_MIN_RECEIPTS_PER_OWNER : Z := 10000.
Definition APPLIED_EVENT_SAFETY_WINDOW : Z := 1000.

Definition receipt_of (owner event_id : string) (r : AppliedEventRow) : bool :=
  bool_decide (ae_owner (ar_receipt r) = owner)
  && bool_decide (ae_event_id (ar_receipt r) = event_id).

Definition applied_event_position (db : Db) (owner event_id : string)
    : option (string * string) :=
  (λ r, (ae_stream_epoch (ar_receipt r), ae_event_seq (ar_receipt r))) <$>
    head (select_where (receipt_of owner event_id) (db_applied db)).

Definition record_applied_event (db : Db) (receipt : AppliedEventReceipt)
    : ImResult (bool * Db) :=
  _ ← validate_required "owner_identity_id" (ae_owner receipt);
  _ ← validate_required "event_id" (ae_event_id receipt);
  _ ← validate_positive_decimal "stream_epoch" (ae_stream_epoch receipt);
  _ ← validate_positive_decimal "event_seq" (ae_event_seq receipt);
  match applied_event_position db (ae_owner receipt) (ae_event_id receipt) with
  | Some (stream_epoch, event_seq) =>
      if bool_decide (stream_epoch = ae_stream_epoch receipt)
         && bool_decide (event_seq = ae_event_seq receipt) then Ok (false, db)
      else binding_conflict
             "sync event id was already applied at a different stream position"
  | None =>
      if negb (owner_bound db (ae_owner receipt)) then constraint_failed
      else Ok (true, with_applied (db_applied db ++ [mkAppliedRow receipt None]) db)
  end.

(** ** Pruning *)

(** The SQL order on decimal texts: [length] first, then the bytes. *)
Definition sql_decimal_lt (a b : string) : bool :=
  (String.length a <? String.length b)%nat
  || ((String.length a =? String.length b)%nat && str_ltb a b).

(** The [WHERE] clause that selects the rows before a stream position. *)
Definition row_before (epoch seq : string) (r : AppliedEventReceipt) : bool :=
  sql_decimal_lt (ae_stream_epoch r) epoch
  || (bool_decide (ae_stream_epoch r = epoch) && sql_decimal_lt (ae_event_seq r) seq).

(** [ORDER BY length(stream_epoch), stream_epoch, length(event_seq), event_seq];
    rows at one position are in an order SQLite does not fix. *)
Definition position_le (r r' : AppliedEventRow) : Prop :=
  row_before (ae_stream_epoch (ar_receipt r)) (ae_event_seq (ar_receipt r))
    (ar_receipt r') = false.
Definition position_ge (r r' : AppliedEventRow) : Prop := position_le r' r.

#[export] Instance position_le_dec r r' : Decision (position_le r r').
Proof. unfold position_le. apply _. Defined.
#[export] Instance position_ge_dec r r' : Decision (position_ge r r').
Proof. unfold position_ge. apply _. Defined.

Definition owned_by (owner : string) (r : AppliedEventRow) : bool :=
  bool_decide (ae_owner (ar_receipt r) = owner).

Definition recovery_terminal (status : string) : bool :=
  bool_decide (status ∈ ["completed"; "permanent_failure"]%string).

(** The position below which receipts may go: the safety window behind the
    cursor, or the anchor of a recovery that has not ended when it is older. *)
Definition prune_boundary (db : Db) (owner epoch safe_seq : string)
    : ImResult (string * string) :=
  match load_recovery_state db owner with
  | Some recovery =>
      if negb (recovery_terminal (rc_status recovery)) then
        order ← compare_stream_position (rc_requested_from_epoch recovery)
                  (rc_requested_from_seq recovery) epoch safe_seq;
        match order with
        | Lt => Ok (rc_requested_from_epoch recovery, rc_requested_from_seq recovery)
        | _ => Ok (epoch, safe_seq)
        end
      else Ok (epoch, safe_seq)
  | None => Ok (epoch, safe_seq)
  end.

(** The event ids the [SELECT] of the pruning statement returns. *)
Definition prune_victims (db : Db) (owner safe_epoch safe_seq : string) (limit : Z)
    : list AppliedEventRow :=
  let mine := select_where (owned_by owner) (db_applied db) in
  let newest := order_limit position_ge APPLIED_EVENT_MIN_RECEIPTS_PER_OWNER mine in
  order_limit position_le limit
    (select_where
       (λ r, row_before safe_epoch safe_seq (ar_receipt r)
             && negb (bool_decide (ae_event_id (ar_receipt r)
                        ∈ (λ n, ae_event_id (ar_receipt n)) <$> newest)))
       mine).

Definition prune_applied_events (db : Db) (owner current_stream_epoch current_scan_seq : string)
    (max_delete : Z) : ImResult (Z * Db) :=
  _ ← validate_required "owner_identity_id" owner;
  _ ← validate_positive_decimal "stream_epoch" current_stream_epoch;
  _ ← validate_decimal "scan_seq" current_scan_seq;
  if max_delete =? 0 then Ok (0, db)
  else
    let count := Z.of_nat (count_where (owned_by owner) (db_applied db)) in
    if count <=? APPLIED_EVENT_MIN_RECEIPTS_PER_OWNER then Ok (0, db)
    else
      safe ← subtract_small_decimal current_scan_seq APPLIED_EVENT_SAFETY_WINDOW;
      match safe with
      | None => Ok (0, db)
      | Some safe_seq =>
          boundary ← prune_boundary db owner current_stream_epoch safe_seq;
          let delete_limit :=
            Z.min max_delete (count - APPLIED_EVENT_MIN_RECEIPTS_PER_OWNER) in
          let event_ids := (λ r, ae_event_id (ar_receipt r)) <$>
            prune_victims db owner boundary.1 boundary.2 delete_limit in
          Ok (Z.of_nat (length event_ids),
              with_applied
                (fold_left (λ t event_id, delete_where (receipt_of owner event_id) t)
                   event_ids (db_applied db)) db)
      end.

(** * Properties *)

Definition receipt_key (r : AppliedEventRow) : string * string :=
  (ae_owner (ar_receipt r), ae_event_id (ar_receipt r)).

(** The primary key and the decimal checks of [sync_applied_events]. *)
Record applied_wf (db : Db) : Prop := {
  applied_keys : NoDup (receipt_key <$> db_applied db);
  applied_canonical : ∀ r, r ∈ db_applied db →
    canonical (ae_stream_epoch (ar_receipt r)) ∧ canonical (ae_event_seq (ar_receipt r)) }.

(** The position of a receipt, as numbers, and the lexicographic order. *)
Definition position (r : AppliedEventReceipt) : Z * Z :=
  (decimal_value (ae_stream_epoch r), decimal_value (ae_event_seq r)).
Definition pos_lt (a b : Z * Z) : Prop := a.1 < b.1 ∨ (a.1 = b.1 ∧ a.2 < b.2).

Lemma receipt_of_true o e r :
  receipt_of o e r = true ↔ receipt_key r = (o, e).
Proof.
  unfold receipt_of, receipt_key. rewrite andb_true_iff, !bool_decide_eq_true. naive_solver.
Qed.

Lemma applied_key_inj db r r' :
  applied_wf db → r ∈ db_applied db → r' ∈ db_applied db →
  receipt_key r = receipt_key r' → r = r'.
Proof.
  intros Hwf. apply key_inj, Hwf.
Qed.

Lemma applied_NoDup db : applied_wf db → NoDup (db_applied db).
Proof. intros Hwf. exact (NoDup_fmap_1 _ _ (applied_keys _ Hwf)). Qed.

(** A receipt found by its key. *)
Lemma applied_event_position_Some db o e p :
  applied_event_position db o e = Some p →
  ∃ r, r ∈ db_applied db ∧ receipt_key r = (o, e) ∧
    p = (ae_stream_epoch (ar_receipt r), ae_event_seq (ar_receipt r)).
Proof.
  unfold applied_event_position. intros (r & Hr & ->)%fmap_Some.
  apply head_Some_elem_of, elem_of_select_where in Hr as [? Hk%receipt_of_true]. eauto.
Qed.

Lemma applied_event_position_None db o e :
  applied_event_position db o e = None →
  ∀ r, r ∈ db_applied db → receipt_key r ≠ (o, e).
Proof.
  unfold applied_event_position. intros H%fmap_None r Hr Hk%receipt_of_true.
  destruct (select_where _ _) eqn:E; [|done].
  assert (r ∈ select_where (receipt_of o e) (db_applied db)) as Hin
    by by apply elem_of_select_where.
  rewrite E in Hin. by apply elem_of_nil in Hin.
Qed.

Lemma applied_event_position_in db r :
  applied_wf db → r ∈ db_applied db →
  applied_event_position db (ae_owner (ar_receipt r)) (ae_event_id (ar_receipt r)) =
    Some (ae_stream_epoch (ar_receipt r), ae_event_seq (ar_receipt r)).
Proof.
  intros Hwf Hr. destruct (applied_event_position _ _ _) as [p|] eqn:E.
  - apply applied_event_position_Some in E as (r' & Hr' & Hk & ->).
    by rewrite (applied_key_inj _ _ _ Hwf Hr Hr' (eq_sym Hk)).
  - by destruct (applied_event_position_None _ _ _ E r Hr).
Qed.

Lemma record_applied_event_inv db rc b db' :
  record_applied_event db rc = Ok (b, db') →
  canonical (ae_stream_epoch rc) ∧ canonical (ae_event_seq rc) ∧
  ((b = false ∧ db' = db ∧
    applied_event_position db (ae_owner rc) (ae_event_id rc) =
      Some (ae_stream_epoch rc, ae_event_seq rc)) ∨
   (b = true ∧ applied_event_position db (ae_owner rc) (ae_event_id rc) = None ∧
    db' = with_applied (db_applied db ++ [mkAppliedRow rc None]) db)).
Proof.
  unfold record_applied_event, binding_conflict, constraint_failed. intros H. res_inv.
  repeat match goal with
  | H : validate_positive_decimal _ _ = Ok () |- _ =>
      apply validate_positive_decimal_Ok in H as [? _]
  end.
  destruct (applied_event_position _ _ _) as [[ep sq]|] eqn:E.
  - res_inv. bool_hyps. subst. eauto 10.
  - res_inv. eauto 10.
Qed.

Lemma record_applied_event_wf db rc b db' :
  applied_wf db → record_applied_event db rc = Ok (b, db') → applied_wf db'.
Proof.
  intros Hwf (Hc1 & Hc2 & [(_&->&_)|(_&HN&->)])%record_applied_event_inv; [done|].
  split; simpl.
  - rewrite fmap_app. apply NoDup_app. split; [apply Hwf|]. split; [|apply NoDup_singleton].
    intros k (r & -> & Hr)%list_elem_of_fmap. simpl. intros Hk%list_elem_of_singleton.
    by eapply applied_event_position_None.
  - intros r [Hr| ->%list_elem_of_singleton]%elem_of_app; [by apply Hwf|done].
Qed.

(** ** The SQL order is the numeric one *)

Lemma sql_decimal_lt_value a b :
  canonical a → canonical b →
  sql_decimal_lt a b = true ↔ decimal_value a < decimal_value b.
Proof.
  intros Ha Hb. rewrite <-Z.compare_lt_iff, <-(decimal_order_value a b) by done.
  unfold sql_decimal_lt, decimal_order, str_ltb, then_with.
  rewrite orb_true_iff, andb_true_iff, Nat.ltb_lt, Nat.eqb_eq.
  destruct (Z.compare_spec (Z.of_nat (String.length a)) (Z.of_nat (String.length b)))
    as [E|E|E].
  - destruct (str_cmp a b); naive_solver lia.
  - naive_solver lia.
  - split; [|done]. naive_solver lia.
Qed.

Lemma row_before_pos epoch seq r :
  canonical epoch → canonical seq →
  canonical (ae_stream_epoch r) → canonical (ae_event_seq r) →
  row_before epoch seq r = true ↔
  pos_lt (position r) (decimal_value epoch, decimal_value seq).
Proof.
  intros. unfold row_before, pos_lt, position. simpl.
  rewrite orb_true_iff, andb_true_iff, !sql_decimal_lt_value, bool_decide_eq_true by done.
  split; [naive_solver congruence|]. intros [?|[E ?]]; [by left|]. right.
  split; [by apply canonical_value_inj|done].
Qed.

(** ** Deleting the victims *)

Lemma fold_delete_elem o ids t r :
  r ∈ fold_left (λ t e, delete_where (receipt_of o e) t) ids t ↔
  r ∈ t ∧ ¬ (ae_owner (ar_receipt r) = o ∧ ae_event_id (ar_receipt r) ∈ ids).
Proof.
  revert t. induction ids as [|e ids IH]; intros t; simpl.
  - split; [|naive_solver]. intros ?. split; [done|]. intros [_ []%elem_of_nil].
  - rewrite IH, elem_of_delete_where, <-not_true_iff_false, receipt_of_true.
    unfold receipt_key. rewrite elem_of_cons. naive_solver.
Qed.

Lemma fold_delete_sublist o ids t :
  fold_left (λ t e, delete_where (receipt_of o e) t) ids t `sublist_of` t.
Proof.
  revert t. induction ids as [|e ids IH]; intros t; simpl; [done|].
  etrans; [apply IH|]. apply sublist_delete_where.
Qed.

Section prune.
Context (db : Db) (Hwf : applied_wf db) (o se sq : string) (limit : Z) (Hlimit : 0 ≤ limit).

Notation mine := (select_where (owned_by o) (db_applied db)).
Notation victims := (prune_victims db o se sq limit).
Notation victim_ids := ((λ r, ae_event_id (ar_receipt r)) <$> victims).
Notation pruned :=
  (fold_left (λ t e, delete_where (receipt_of o e) t) victim_ids (db_applied db)).

Lemma victim_inv r :
  r ∈ victims →
  r ∈ db_applied db ∧ ae_owner (ar_receipt r) = o ∧
  row_before se sq (ar_receipt r) = true.
Proof.
  unfold prune_victims. intros Hr%order_limit_sub.
  apply elem_of_select_where in Hr as [[? Ho]%elem_of_select_where Hp].
  unfold owned_by in Ho. bool_hyps. done.
Qed.

Lemma victims_NoDup : NoDup victims.
Proof.
  unfold prune_victims, order_limit. eapply sublist_NoDup; [|apply sublist_take].
  rewrite merge_sort_Permutation. unfold select_where.
  apply NoDup_filter, NoDup_filter. by apply applied_NoDup.
Qed.

Lemma pruned_elem r : r ∈ pruned ↔ r ∈ db_applied db ∧ r ∉ victims.
Proof.
  rewrite fold_delete_elem. split; intros [Hr Hn]; (split; [done|]).
  - intros Hv. apply Hn. split; [by apply victim_inv in Hv as (?&?&?)|].
    by apply (list_elem_of_fmap_2 (λ r, ae_event_id (ar_receipt r))).
  - intros [Ho (v & Hid & Hv)%list_elem_of_fmap]. apply Hn.
    pose proof Hv as (Hv' & Hvo & _)%victim_inv.
    rewrite (applied_key_inj db r v); [done|done|done|done|].
    unfold receipt_key. congruence.
Qed.

Lemma pruned_length : (length pruned + length victims = length (db_applied db))%nat.
Proof.
  rewrite <-length_app. apply Permutation_length, NoDup_Permutation.
  - apply NoDup_app. split; [|split].
    + eapply sublist_NoDup; [by apply applied_NoDup|apply fold_delete_sublist].
    + intros r [_ ?]%pruned_elem. done.
    + apply victims_NoDup.
  - by apply applied_NoDup.
  - intros r. rewrite elem_of_app, pruned_elem. split.
    + intros [[]|(?&?&?)%victim_inv]; done.
    + intros Hr. destruct (decide (r ∈ victims)); eauto.
Qed.

Lemma victims_length : Z.of_nat (length victims) ≤ limit.
Proof.
  unfold prune_victims. rewrite order_limit_length by done. lia.
Qed.

Lemma pruned_count :
  (count_where (owned_by o) pruned + length victims
   = count_where (owned_by o) (db_applied db))%nat.
Proof.
  pose proof pruned_length as Hl. unfold count_where.
  assert (delete_where (owned_by o) pruned ≡ₚ delete_where (owned_by o) (db_applied db))
    as Hother.
  { apply NoDup_Permutation.
    - eapply sublist_NoDup; [|apply sublist_delete_where].
      eapply sublist_NoDup; [by apply applied_NoDup|apply fold_delete_sublist].
    - eapply sublist_NoDup; [by apply applied_NoDup|apply sublist_delete_where].
    - intros r. rewrite !elem_of_delete_where, pruned_elem. split; [naive_solver|].
      intros [Hr Ho]. split; [|done]. split; [done|]. intros (_&E&_)%victim_inv.
      unfold owned_by in Ho. bool_hyps. done. }
  apply Permutation_length in Hother.
  pose proof (length_delete_select (owned_by o) pruned).
  pose proof (length_delete_select (owned_by o) (db_applied db)). lia.
Qed.
End prune.

Lemma prune_boundary_spec db o epoch seq :
  store_wf db → canonical epoch → canonical seq →
  ∃ be bs, prune_boundary db o epoch seq = Ok (be, bs) ∧ canonical be ∧ canonical bs ∧
    (∀ p, pos_lt p (decimal_value be, decimal_value bs) →
       pos_lt p (decimal_value epoch, decimal_value seq) ∧
       ∀ rec, load_recovery_state db o = Some rec →
         recovery_terminal (rc_status rec) = false →
         pos_lt p (decimal_value (rc_requested_from_epoch rec),
                   decimal_value (rc_requested_from_seq rec))).
Proof.
  intros Hwf He Hs. unfold prune_boundary.
  destruct (load_recovery_state db o) as [rec|] eqn:Hrec.
  2: { exists epoch, seq. split_and!; [done..|]. intros p Hp. split; [done|]. done. }
  apply (wf_recovery _ Hwf) in Hrec as (_ & Hre & Hrs & _).
  destruct (recovery_terminal (rc_status rec)) eqn:Ht; simpl.
  { exists epoch, seq. split_and!; [done..|]. intros p Hp. split; [done|].
    intros ? [= <-]. congruence. }
  unfold compare_stream_position.
  rewrite (compare_decimal_value (rc_requested_from_epoch rec)) by done. simpl.
  destruct (Z.compare_spec (decimal_value (rc_requested_from_epoch rec))
    (decimal_value epoch)); simpl.
  1: rewrite compare_decimal_value by done; simpl;
     destruct (Z.compare_spec (decimal_value (rc_requested_from_seq rec))
       (decimal_value seq)); simpl.
  all: eexists _, _; split; [reflexivity|]; split; [done|]; split; [done|];
    intros p Hp; split; [|intros ? [= <-] _]; unfold pos_lt in *; simpl in *; lia.
Qed.

Lemma APPLIED_MIN_eq : APPLIED_EVENT_MIN_RECEIPTS_PER_OWNER = 10000.
Proof. reflexivity. Qed.

(** What pruning guarantees of the database it leaves. *)
Record prune_spec (db : Db) (o epoch seq : string) (max_delete n : Z) (db' : Db) : Prop := {
  prune_frame : db' = with_applied (db_applied db') db;
  prune_sublist : db_applied db' `sublist_of` db_applied db;
  prune_returns : Z.of_nat (length (db_applied db')) + n = Z.of_nat (length (db_applied db));
  prune_bounded : 0 ≤ n ≤ max_delete;
  prune_keeps_min :
    Z.min APPLIED_EVENT_MIN_RECEIPTS_PER_OWNER
      (Z.of_nat (count_where (owned_by o) (db_applied db)))
    ≤ Z.of_nat (count_where (owned_by o) (db_applied db'));
  prune_only_old : ∀ r, r ∈ db_applied db → r ∉ db_applied db' →
    ae_owner (ar_receipt r) = o ∧
    pos_lt (position (ar_receipt r))
      (decimal_value epoch, decimal_value seq - APPLIED_EVENT_SAFETY_WINDOW) ∧
    ∀ rec, load_recovery_state db o = Some rec →
      recovery_terminal (rc_status rec) = false →
      pos_lt (position (ar_receipt r))
        (decimal_value (rc_requested_from_epoch rec),
         decimal_value (rc_requested_from_seq rec)) }.

Lemma prune_spec_nothing db o epoch seq max_delete :
  0 ≤ max_delete → prune_spec db o epoch seq max_delete 0 db.
Proof. intros. split; try done; try lia. by destruct db. Qed.

Lemma prune_applied_events_spec db o epoch seq max_delete :
  store_wf db → applied_wf db →
  validate_required "owner_identity_id" o = Ok () →
  validate_positive_decimal "stream_epoch" epoch = Ok () → canonical seq →
  0 ≤ max_delete →
  ∃ n db', prune_applied_events db o epoch seq max_delete = Ok (n, db') ∧
    prune_spec db o epoch seq max_delete n db'.
Proof.
  intros Hwf Hawf Ho He Hs Hmax. unfold prune_applied_events.
  rewrite Ho, He, validate_decimal_ok_any by done. simpl mbind.
  apply validate_positive_decimal_Ok in He as [He _].
  destruct (max_delete =? 0) eqn:E0; [eauto using prune_spec_nothing|].
  set (count := Z.of_nat (count_where (owned_by o) (db_applied db))).
  destruct (count <=? APPLIED_EVENT_MIN_RECEIPTS_PER_OWNER) eqn:Ec;
    [eauto using prune_spec_nothing|]. bool_hyps.
  destruct (subtract_small_decimal_value seq APPLIED_EVENT_SAFETY_WINDOW Hs)
    as (safe & -> & Hsafe); [done|]. simpl mbind.
  destruct safe as [safe|]; [|eauto using prune_spec_nothing].
  destruct Hsafe as (Hsc & Hsv & _).
  destruct (prune_boundary_spec db o epoch safe Hwf He Hsc) as (be & bs & -> & Hbe & Hbs & Hb).
  simpl mbind. cbn [fst snd].
  set (limit := Z.min max_delete (count - APPLIED_EVENT_MIN_RECEIPTS_PER_OWNER)).
  assert (0 ≤ limit ∧ limit ≤ max_delete ∧ limit ≤ count - APPLIED_EVENT_MIN_RECEIPTS_PER_OWNER)
    as (Hl & Hl1 & Hl2) by (unfold limit; lia). clearbody limit.
  eexists _, _. split; [reflexivity|]. rewrite length_fmap.
  pose proof (pruned_length db Hawf o be bs limit) as Hlen.
  pose proof (pruned_count db Hawf o be bs limit) as Hcount.
  pose proof (victims_length db o be bs limit Hl) as Hv.
  split; cbn [db_applied with_applied].
  - done.
  - apply fold_delete_sublist.
  - lia.
  - lia.
  - unfold count in *. lia.
  - intros r Hr Hn. rewrite (pruned_elem db Hawf) in Hn.
    destruct (decide (r ∈ prune_victims db o be bs limit)) as [Hin|]; [|by destruct Hn].
    apply victim_inv in Hin as (_ & Hro & Hbef).
    destruct (applied_canonical _ Hawf _ Hr).
    apply row_before_pos in Hbef; [|done..]. apply Hb in Hbef as [Hbef Hrec].
    split; [done|]. by rewrite <-Hsv.
Qed.

Lemma prune_applied_events_wf db o epoch seq max_delete n db' :
  prune_spec db o epoch seq max_delete n db' → applied_wf db → applied_wf db'.
Proof.
  intros [_ Hsub _ _ _ _] [Hk Hc]. split.
  - eapply sublist_NoDup; [exact Hk|]. by apply fmap_sublist.
  - intros r Hr. apply Hc. by eapply elem_of_sublist.
Qed.

(** Pruning receipts is safe and total. On any well-formed store it succeeds,
    removes at most [max_delete] receipts of the given owner only, leaves that
    owner its 10,000 receipts (or all of them if it has fewer), and removes only
    receipts more than the 1,000-event safety window behind the cursor and, while
    a recovery has not ended, strictly before its anchor: a receipt a redelivery
    or the recovery can ask for is never lost. *)
Theorem prune_applied_events_safe db o epoch seq max_delete :
  store_wf db → applied_wf db →
  validate_required "owner_identity_id" o = Ok () →
  validate_positive_decimal "stream_epoch" epoch = Ok () → canonical seq →
  0 ≤ max_delete →
  ∃ n db', prune_applied_events db o epoch seq max_delete = Ok (n, db') ∧
    prune_spec db o epoch seq max_delete n db' ∧ applied_wf db'.
Proof.
  intros Hwf Hawf Ho He Hs Hm.
  destruct (prune_applied_events_spec db o epoch seq max_delete) as (n & db' & ? & Hspec);
    [done..|].
  exists n, db'. split; [done|]. split; [done|]. by eapply prune_applied_events_wf.
Qed.

(** Recording a receipt is idempotent and exclusive: after it, the event is
    found at its position, recording it again reports a duplicate and changes
    nothing, recording the same event at any other valid position is refused,
    and the receipts of every other event are as before. *)
Theorem record_applied_event_once db rc b db' :
  applied_wf db → record_applied_event db rc = Ok (b, db') →
  applied_wf db' ∧
  applied_event_position db' (ae_owner rc) (ae_event_id rc) =
    Some (ae_stream_epoch rc, ae_event_seq rc) ∧
  record_applied_event db' rc = Ok (false, db') ∧
  (∀ rc' b' db'', record_applied_event db' rc' = Ok (b', db'') →
     ae_owner rc' = ae_owner rc → ae_event_id rc' = ae_event_id rc →
     ae_stream_epoch rc' = ae_stream_epoch rc ∧ ae_event_seq rc' = ae_event_seq rc ∧
     b' = false ∧ db'' = db') ∧
  (∀ r, receipt_key r ≠ (ae_owner rc, ae_event_id rc) →
     (r ∈ db_applied db' ↔ r ∈ db_applied db)).
Proof.
  intros Hwf H. pose proof (record_applied_event_wf _ _ _ _ Hwf H) as Hwf'.
  assert (applied_event_position db' (ae_owner rc) (ae_event_id rc) =
    Some (ae_stream_epoch rc, ae_event_seq rc)) as Hpos.
  { pose proof H as (_ & _ & [(_&->&?)|(_&_&->)])%record_applied_event_inv; [done|].
    apply (applied_event_position_in _ (mkAppliedRow rc None) Hwf').
    simpl. apply elem_of_app. right. by left. }
  split_and!; [done|done| | |].
  - unfold record_applied_event in H |- *. res_inv.
    repeat match goal with H : _ = Ok () |- _ => rewrite H; clear H end. simpl mbind.
    rewrite Hpos. by rewrite !bool_decide_eq_true_2 by done.
  - intros rc' b' db'' (_ & _ & H2)%record_applied_event_inv Eo Ei.
    rewrite Eo, Ei, Hpos in H2. destruct H2 as [(->&->&[= -> ->])|(_&[=]&_)]. done.
  - intros r Hk. apply record_applied_event_inv in H as (_ & _ & [(_&->&_)|(_&_&->)]); [done|].
    simpl. rewrite elem_of_app, list_elem_of_singleton. naive_solver.
Qed.

(** ** Concrete receipts *)

Definition ex_receipt (id seq : string) : AppliedEventReceipt :=
  mkReceipt "owner-1" id "3" seq 150.
Definition ex_receipts_db : Db :=
  with_applied [mkAppliedRow (ex_receipt "event-1" "7") None] ex_cursor_db.

Lemma ex_receipts_wf : applied_wf ex_receipts_db.
Proof.
  split.
  - apply NoDup_singleton.
  - intros r ->%list_elem_of_singleton. by vm_compute.
Qed.

Lemma prune_applied_events_safe_witness :
  ∃ n db', prune_applied_events ex_receipts_db "owner-1" "3" "5000" 256 = Ok (n, db') ∧
    prune_spec ex_receipts_db "owner-1" "3" "5000" 256 n db' ∧ applied_wf db'.
Proof.
  apply (prune_applied_events_safe ex_receipts_db "owner-1" "3" "5000" 256).
  - destruct ex_cursor_db_wf. split; done.
  - exact ex_receipts_wf.
  - vm_compute. reflexivity.
  - vm_compute. reflexivity.
  - vm_compute. reflexivity.
  - lia.
Defined.

Lemma record_applied_event_once_witness :
  applied_event_position
    (unwrap_or (record_applied_event ex_receipts_db (ex_receipt "event-2" "8"))
       (false, ex_db)).2 "owner-1" "event-2" = Some ("3", "8")%string.
Proof.
  refine (proj1 (proj2 (record_applied_event_once ex_receipts_db (ex_receipt "event-2" "8")
    true _ ex_receipts_wf _))).
  vm_compute. reflexivity.
Defined.
