(* ===== verification/Outbox.v ===== *)
(** * The read-mutation outbox

    [local_state/sync_v2.rs]: the durable queue of read-state mutations that the
    client still owes the server. [upsert_read_outbox] coalesces untried
    mutations of a thread, [claim_next_read_mutation] and
    [claim_read_mutation_by_operation_id] take one for sending,
    [acknowledge_read_outbox], [retry_local_mutation] and
    [permanently_fail_local_mutation] settle it, [recover_interrupted_work]
    returns what a crash left in flight, and [cleanup_terminal_sync_state]
    removes what is settled and old. Random identifiers and the clock are
    arguments. *)

From S2P Require Import Prelude RustStr ImError Decimal Store SyncStore Receipts.
Local Open Scope Z_scope.

Definition TERMINAL_SYNC_STATE_RETENTION_SECONDS : Z := 7 * 24 * 60 * 60.

(** ** Rows and statuses *)

Definition validate_local_mutation_status (value : string) : ImResult unit :=
  if bool_decide (value ∈ ["pending"; "in_flight"; "retryable"; "committed";
                           "permanent_failure"]%string) then Ok ()
  else Err (invalid_input (Some "status"%string) "local mutation status is not supported").

Definition is_status (status : string) (m : LocalMutationRecord) : bool :=
  bool_decide (lm_status m = status).
Definition lm_terminal (m : LocalMutationRecord) : bool :=
  bool_decide (lm_status m ∈ ["committed"; "permanent_failure"]%string).
Definition lm_of (owner mutation_id : string) (m : LocalMutationRecord) : bool :=
  bool_decide (lm_owner m = owner) && bool_decide (lm_mutation_id m = mutation_id).
Definition same_aggregate (m m' : LocalMutationRecord) : bool :=
  bool_decide (lm_owner m = lm_owner m')
  && bool_decide (lm_aggregate_id m = lm_aggregate_id m').

(** The columns an update of the outbox may set. *)
Definition lm_set (m : LocalMutationRecord) (status : string) (attempts : Z)
    (retry_at in_flight_since : option Z) (error : option string) (updated_at : Z)
    : LocalMutationRecord :=
  mkMutation (lm_owner m) (lm_mutation_id m) (lm_operation_id m) (lm_mutation_type m)
    (lm_aggregate_id m) (lm_payload_json m) status attempts retry_at in_flight_since
    error (lm_created_at m) updated_at.
Definition lm_set_payload (m : LocalMutationRecord) (payload : option Value)
    (attempts updated_at : Z) : LocalMutationRecord :=
  mkMutation (lm_owner m) (lm_mutation_id m) (lm_operation_id m) (lm_mutation_type m)
    (lm_aggregate_id m) payload (lm_status m) attempts (lm_retry_at m)
    (lm_in_flight_since m) (lm_last_error_code m) (lm_created_at m) updated_at.

Definition update_outbox (p : LocalMutationRecord → bool)
    (f : LocalMutationRecord → LocalMutationRecord) (db : Db) : Db :=
  with_outbox (update_where p f (db_outbox db)) db.

(** ** Enqueueing *)

Definition enqueue_local_mutation (db : Db) (record : LocalMutationRecord) : ImResult Db :=
  _ ← validate_required "owner_identity_id" (lm_owner record);
  _ ← validate_required "mutation_id" (lm_mutation_id record);
  _ ← validate_required "operation_id" (lm_operation_id record);
  _ ← validate_required "aggregate_id" (lm_aggregate_id record);
  _ ← validate_local_mutation_status (lm_status record);
  if lm_attempt_count record <? 0 then
    Err (invalid_input (Some "attempt_count"%string) "attempt_count must not be negative")
  else if negb (bool_decide (lm_mutation_type record = "read_state_mark_read"%string)) then
    Err (invalid_input (Some "mutation_type"%string)
           "only read_state_mark_read is supported by the v2 local mutation outbox")
  else if negb (owner_bound db (lm_owner record))
       || exists_where
            (λ m, bool_decide (lm_owner m = lm_owner record)
                  && (bool_decide (lm_mutation_id m = lm_mutation_id record)
                      || bool_decide (lm_operation_id m = lm_operation_id record)))
            (db_outbox db)
  then constraint_failed
  else Ok (with_outbox (db_outbox db ++ [record]) db).

(** [SELECT .. ORDER BY created_at DESC, mutation_id DESC]. *)
Definition created_le (m m' : LocalMutationRecord) : Prop :=
  lm_created_at m < lm_created_at m' ∨
  (lm_created_at m = lm_created_at m' ∧ str_le (lm_mutation_id m) (lm_mutation_id m')).
Definition created_ge (m m' : LocalMutationRecord) : Prop := created_le m' m.
#[export] Instance created_le_dec m m' : Decision (created_le m m').
Proof. unfold created_le. apply _. Defined.
#[export] Instance created_ge_dec m m' : Decision (created_ge m m').
Proof. unfold created_ge. apply _. Defined.

Definition opt_string (o : option string) : Value :=
  match o with Some s => VString s | None => VNull end.

Definition payload_seq (payload : Value) : option string :=
  vget payload "read_watermark_seq" ≫= as_str.

Definition outbox_corrupt {A} (detail : string) : ImResult A :=
  Err (sync_error "SYNC_LOCAL_OUTBOX_CORRUPT" detail).

Definition upsert_read_outbox (db : Db) (owner thread_kind thread_id remote_thread_key
    read_watermark_seq : string) (read_watermark_message_id read_watermark_at : option string)
    (new_mutation_id new_operation_id : string) (now : Z) : ImResult (string * Db) :=
  _ ← validate_decimal "read_watermark_seq" read_watermark_seq;
  let existing := head (order_limit created_ge 1
    (select_where
       (λ m, bool_decide (lm_owner m = owner)
             && bool_decide (lm_aggregate_id m = remote_thread_key)
             && is_status "pending" m && (lm_attempt_count m =? 0))
       (db_outbox db))) in
  let payload := VObject
    [("thread_kind", VString thread_kind); ("thread_id", VString thread_id);
     ("remote_thread_key", VString remote_thread_key);
     ("read_watermark_seq", VString read_watermark_seq);
     ("read_watermark_message_id", opt_string read_watermark_message_id);
     ("read_watermark_at", opt_string read_watermark_at)]%string in
  match existing with
  | Some current =>
      match lm_payload_json current with
      | None => outbox_corrupt "read outbox payload is invalid"
      | Some current_payload =>
          let current_seq := default "0"%string (payload_seq current_payload) in
          order ← compare_decimal read_watermark_seq current_seq;
          Ok (lm_operation_id current,
              match order with
              | Gt => update_outbox (lm_of owner (lm_mutation_id current))
                        (λ m, lm_set_payload m (Some payload) (lm_attempt_count m) now) db
              | _ => db
              end)
      end
  | None =>
      db' ← enqueue_local_mutation db
        (mkMutation owner new_mutation_id new_operation_id "read_state_mark_read"
           remote_thread_key (Some payload) "pending" 0 None None None now now);
      Ok (new_operation_id, db')
  end.

(** ** Claiming *)

Definition load_local_mutation (db : Db) (owner mutation_id : string)
    : ImResult (option LocalMutationRecord) :=
  _ ← validate_required "owner_identity_id" owner;
  _ ← validate_required "mutation_id" mutation_id;
  Ok (head (select_where (lm_of owner mutation_id) (db_outbox db))).

(** [x.map(str::trim).filter(|v| !v.is_empty())]. *)
Definition trimmed_nonempty (o : option string) : option string :=
  o ≫= λ s, if is_empty (trim s) then None else Some (trim s).

(** A text inside the JSON metadata column: [CASE WHEN json_valid(..) THEN
    NULLIF(TRIM(json_extract(..)), '') ELSE NULL END]. *)
Definition metadata_text (m : MessageRow) (key : string) : option string :=
  json_text (mg_metadata m) [key] ≫= λ s, nullif_empty (sql_trim s).

Definition group_read_candidate (owner thread_id server_seq : string) (m : MessageRow) : bool :=
  bool_decide (mg_owner_identity_id m = owner)
  && bool_decide ((if is_empty (mg_conversation_id m) then mg_thread_id m
                   else mg_conversation_id m) = thread_id)
  && bool_decide (mg_wire_thread_kind m = "group"%string)
  && bool_decide (mg_hydration_state m = "hydrated"%string)
  && (mg_is_e2ee m =? 0)
  && bool_decide (mg_server_seq m = Some (sql_cast_integer server_seq))
  && negb (bool_decide (metadata_text m "message_role" = Some "group_system_event"%string)).

Definition stored_ge (m m' : MessageRow) : Prop :=
  (mg_stored_at m ≠ mg_stored_at m' ∧ str_le (mg_stored_at m') (mg_stored_at m)) ∨
  (mg_stored_at m = mg_stored_at m' ∧ str_le (mg_msg_id m') (mg_msg_id m)).
#[export] Instance stored_ge_dec m m' : Decision (stored_ge m m').
Proof. unfold stored_ge. apply _. Defined.

Definition failed_group_read_message_id_is_untrusted (db : Db) (owner : string)
    (payload : Value) : ImResult bool :=
  match trimmed_nonempty (vget payload "read_watermark_message_id" ≫= as_str),
        trimmed_nonempty (vget payload "thread_id" ≫= as_str),
        trimmed_nonempty (vget payload "read_watermark_seq" ≫= as_str) with
  | Some message_id, Some thread_id, Some server_seq =>
      _ ← validate_decimal "read_watermark_seq" server_seq;
      match head (order_limit stored_ge 1
                    (select_where (group_read_candidate owner thread_id server_seq)
                       (db_messages db))) with
      | None => Ok false
      | Some target =>
          let raw_message_id := metadata_text target "raw_message_id" in
          if bool_decide (raw_message_id = Some message_id) then Ok false
          else Ok (bool_decide (is_Some raw_message_id)
                   || bool_decide (mg_msg_id target = message_id)
                   || bool_decide (metadata_text target "operation_id" = Some message_id))
      end
  | _, _, _ => Ok false
  end.

Definition normalize_claimed_group_read_mutation (db : Db) (record : LocalMutationRecord)
    : ImResult (LocalMutationRecord * Db) :=
  if negb (bool_decide (lm_last_error_code record = Some "anp.target_not_found"%string)) then
    Ok (record, db)
  else
    payload ← ok_or (lm_payload_json record)
      (sync_error "SYNC_LOCAL_OUTBOX_CORRUPT" "read outbox payload is invalid");
    match payload with
    | VObject object =>
        if negb (bool_decide ((assoc "thread_kind" object ≫= as_str) = Some "group"%string)) then
          Ok (record, db)
        else if bool_decide (trimmed_nonempty
                  (assoc "read_watermark_message_id" object ≫= as_str) = None) then
          Ok (record, db)
        else
          untrusted ← failed_group_read_message_id_is_untrusted db (lm_owner record) payload;
          if negb untrusted then Ok (record, db)
          else
            let payload' := VObject (filter
              (λ kv, kv.1 ≠ "read_watermark_message_id"%string) object) in
            let p := λ m, lm_of (lm_owner record) (lm_mutation_id record) m
                          && is_status "in_flight" m in
            if negb (bool_decide (count_where p (db_outbox db) = 1%nat)) then
              Err (sync_error "SYNC_LOCAL_OUTBOX_CONFLICT"
                     "read outbox normalization lost its in-flight mutation")
            else
              Ok (lm_set_payload record (Some payload') 1 (lm_updated_at record),
                  update_outbox p
                    (λ m, lm_set_payload m (Some payload') 1
                            (Z.max (lm_updated_at m)
                               (default (lm_updated_at record) (lm_in_flight_since record)))) db)
    | _ => outbox_corrupt "read outbox payload must be an object"
    end.

(** Pending or retryable, and due. *)
Definition lm_due (owner : string) (now : Z) (m : LocalMutationRecord) : bool :=
  bool_decide (lm_owner m = owner)
  && (is_status "pending" m || is_status "retryable" m)
  && match lm_retry_at m with None => true | Some t => t <=? now end.

Definition has_in_flight (t : list LocalMutationRecord) (m : LocalMutationRecord) : bool :=
  exists_where (λ p, same_aggregate p m && is_status "in_flight" p) t.

Definition claim_record (db : Db) (owner mutation_id : string)
    : ImResult (option LocalMutationRecord * Db) :=
  loaded ← load_local_mutation db owner mutation_id;
  match loaded with
  | None => Ok (None, db)
  | Some record =>
      r ← normalize_claimed_group_read_mutation db record;
      Ok (Some r.1, r.2)
  end.

Definition claim_next_read_mutation (db : Db) (owner : string) (now : Z)
    : ImResult (option LocalMutationRecord * Db) :=
  match head (order_limit created_le 1
                (select_where (λ m, lm_due owner now m && negb (has_in_flight (db_outbox db) m))
                   (db_outbox db))) with
  | None => Ok (None, db)
  | Some next =>
      let db' := update_outbox (lm_of owner (lm_mutation_id next))
        (λ m, lm_set m "in_flight" (lm_attempt_count m + 1) (lm_retry_at m) (Some now)
                (lm_last_error_code m) now) db in
      claim_record db' owner (lm_mutation_id next)
  end.

Definition claim_read_mutation_by_operation_id (db : Db) (owner operation_id : string)
    (now : Z) : ImResult (option LocalMutationRecord * Db) :=
  _ ← validate_required "owner_identity_id" owner;
  _ ← validate_required "operation_id" operation_id;
  match head (select_where
                (λ m, lm_due owner now m && bool_decide (lm_operation_id m = operation_id)
                      && negb (exists_where
                                 (λ p, same_aggregate p m && is_status "in_flight" p
                                       && negb (bool_decide (lm_mutation_id p = lm_mutation_id m)))
                                 (db_outbox db)))
                (db_outbox db)) with
  | None => Ok (None, db)
  | Some next =>
      let p := λ m, lm_of owner (lm_mutation_id next) m
                    && (is_status "pending" m || is_status "retryable" m) in
      if negb (bool_decide (count_where p (db_outbox db) = 1%nat)) then
        Err (sync_error "SYNC_LOCAL_OUTBOX_CONFLICT" "read outbox claim lost its operation")
      else
        let db' := update_outbox p
          (λ m, lm_set m "in_flight" (lm_attempt_count m + 1) None (Some now)
                  (lm_last_error_code m) now) db in
        claim_record db' owner (lm_mutation_id next)
  end.

(** ** Settling *)

Definition retry_local_mutation (db : Db) (owner mutation_id error_code : string)
    (retry_at : Z) : Db :=
  update_outbox (λ m, lm_of owner mutation_id m && is_status "in_flight" m)
    (λ m, lm_set m "retryable" (lm_attempt_count m) (Some retry_at) None
            (Some error_code) retry_at) db.

(** The read states whose acknowledgement the failed mutation was the last
    pending reason for. *)
Definition read_state_released (t : list LocalMutationRecord) (owner mutation_id : string)
    (r : ThreadReadStateRecord) : bool :=
  let failed := head (select_where (lm_of owner mutation_id) t) in
  bool_decide (tr_owner r = owner) && bool_decide (tr_scope r = "group"%string)
  && match failed with
     | None => false
     | Some m =>
         bool_decide (json_text (lm_payload_json m) ["thread_id"%string]
                      = Some (tr_thread_id r))
         && match tr_watermark_seq r with
            | Some seq => bool_decide
                (json_text (lm_payload_json m) ["read_watermark_seq"%string] = Some seq)
            | None => false
            end
         && negb (exists_where
                    (λ p, bool_decide (lm_owner p = owner)
                          && bool_decide (lm_aggregate_id p = lm_aggregate_id m)
                          && negb (lm_terminal p)) t)
     end.

Definition permanently_fail_local_mutation (db : Db) (owner mutation_id error_code : string)
    (failed_at : Z) : ImResult Db :=
  _ ← validate_required "owner_identity_id" owner;
  _ ← validate_required "mutation_id" mutation_id;
  _ ← validate_required "error_code" error_code;
  let p := λ m, lm_of owner mutation_id m && is_status "in_flight" m in
  if negb (bool_decide (count_where p (db_outbox db) = 1%nat)) then
    Err (sync_error "SYNC_LOCAL_OUTBOX_CONFLICT"
           "read outbox permanent failure lost its in-flight mutation")
  else
    let db' := update_outbox p
      (λ m, lm_set m "permanent_failure" (lm_attempt_count m) None None
              (Some error_code) failed_at) db in
    Ok (with_read_states
          (update_where (read_state_released (db_outbox db') owner mutation_id)
             (λ r, mkReadState (tr_owner r) (tr_owner_did r) (tr_scope r) (tr_thread_id r)
                     (tr_conversation_id r) (tr_watermark_message_id r) (tr_watermark_seq r)
                     (tr_watermark_at r) false None (tr_remote_state_version r)
                     (tr_updated_at r))
             (db_read_states db')) db').

(** The mutations a remote acknowledgement may settle. *)
Definition ack_candidate (owner aggregate_id : string) (conversation_id : option string)
    (m : LocalMutationRecord) : bool :=
  bool_decide (lm_owner m = owner) && negb (lm_terminal m)
  && (bool_decide (lm_aggregate_id m = aggregate_id)
      || match conversation_id with
         | Some c => json_eq (lm_payload_json m) ["thread_id"%string] c
         | None => false
         end).

(** The loop that collects the mutations at or below the acknowledged mark. *)
Definition ack_step (acknowledged_seq : string) (committed : list string)
    (m : LocalMutationRecord) : ImResult (list string) :=
  payload ← ok_or (lm_payload_json m)
    (sync_error "SYNC_LOCAL_OUTBOX_CORRUPT" "read outbox payload is invalid");
  seq ← ok_or (payload_seq payload)
    (sync_error "SYNC_LOCAL_OUTBOX_CORRUPT" "read outbox payload has no watermark");
  order ← compare_decimal seq acknowledged_seq;
  Ok match order with
     | Gt => committed
     | _ => committed ++ [lm_mutation_id m]
     end.

Definition acknowledge_read_outbox (db : Db) (owner aggregate_id : string)
    (conversation_id : option string) (acknowledged_seq : string) (now : Z) : ImResult Db :=
  committed ← try_fold (ack_step acknowledged_seq) []
    (select_where (ack_candidate owner aggregate_id conversation_id) (db_outbox db));
  Ok (fold_left
        (λ db mutation_id,
           update_outbox (lm_of owner mutation_id)
             (λ m, lm_set m "committed" (lm_attempt_count m) None None None now) db)
        committed db).

(** ** Restart and cleanup *)

Definition recover_interrupted_work (db : Db) (recovered_at : Z) : Db :=
  let db1 := with_recovery
    ((λ r, if bool_decide (rc_status r ∈ ["recovering"; "downloading"; "applying"]%string)
           then mkRecovery (rc_owner r) (rc_mode r) (rc_requested_from_epoch r)
                  (rc_requested_from_seq r) (rc_recovery_id_hash r) (rc_snapshot_scan_seq r)
                  "retryable" (rc_retry_count r) (rc_last_error_code r) (rc_started_at r)
                  recovered_at
           else r) <$> db_recovery db) db in
  update_outbox (is_status "in_flight")
    (λ m, lm_set m "retryable" (lm_attempt_count m) (lm_retry_at m) None
            (lm_last_error_code m) recovered_at) db1.

Record SyncCleanupOutcome := mkCleanup {
  applied_events_deleted : Z;
  terminal_mutations_deleted : Z;
  terminal_recovery_deleted : bool }.

Definition updated_le (m m' : LocalMutationRecord) : Prop :=
  lm_updated_at m < lm_updated_at m' ∨
  (lm_updated_at m = lm_updated_at m' ∧ str_le (lm_mutation_id m) (lm_mutation_id m')).
#[export] Instance updated_le_dec m m' : Decision (updated_le m m').
Proof. unfold updated_le. apply _. Defined.

(** The settled mutations of an owner that are past retention, oldest first. *)
Definition expired_mutations (db : Db) (owner : string) (cutoff limit : Z)
    : list LocalMutationRecord :=
  order_limit updated_le limit
    (select_where
       (λ m, bool_decide (lm_owner m = owner) && lm_terminal m && (lm_updated_at m <=? cutoff))
       (db_outbox db)).

(** Whether the ended recovery of the owner is past retention and behind the
    cursor. *)
Definition recovery_covered (recovery : RecoveryState) (cutoff : Z)
    (stream_epoch scan_seq : string) : ImResult bool :=
  if recovery_terminal (rc_status recovery) && (rc_updated_at recovery <=? cutoff) then
    order ← compare_stream_position (rc_requested_from_epoch recovery)
      (default (rc_requested_from_seq recovery) (rc_snapshot_scan_seq recovery))
      stream_epoch scan_seq;
    Ok (negb (bool_decide (order = Gt)))
  else Ok false.

Definition cleanup_terminal_sync_state (db : Db) (owner stream_epoch scan_seq : string)
    (max_delete now : Z) : ImResult (SyncCleanupOutcome * Db) :=
  _ ← validate_required "owner_identity_id" owner;
  _ ← validate_positive_decimal "stream_epoch" stream_epoch;
  _ ← validate_decimal "scan_seq" scan_seq;
  if max_delete =? 0 then Ok (mkCleanup 0 0 false, db)
  else
    let cutoff := i64_saturating_sub now TERMINAL_SYNC_STATE_RETENTION_SECONDS in
    pruned ← prune_applied_events db owner stream_epoch scan_seq max_delete;
    let remaining := Z.max 0 (max_delete - Z.min u32_max pruned.1) in
    let expired := expired_mutations pruned.2 owner cutoff remaining in
    let db2 := with_outbox
      (delete_where
         (λ m, existsb (λ e, bool_decide (lm_owner m = lm_owner e)
                             && bool_decide (lm_mutation_id m = lm_mutation_id e)) expired)
         (db_outbox pruned.2)) pruned.2 in
    let n := Z.of_nat (length expired) in
    match load_recovery_state db2 owner with
    | None => Ok (mkCleanup pruned.1 n false, db2)
    | Some recovery =>
        covered ← recovery_covered recovery cutoff stream_epoch scan_seq;
        if (pruned.1 + n <? max_delete) && covered then
          Ok (mkCleanup pruned.1 n true,
              with_recovery (delete owner (db_recovery db2)) db2)
        else Ok (mkCleanup pruned.1 n false, db2)
    end.

(** ** Diagnostics *)

Record SyncDiagnosticsState := mkDiagnostics {
  dg_last_success_at : option Z;
  dg_bootstrap_state : option string;
  dg_recovery_status : option string;
  dg_pending_mutation_count : Z;
  dg_pending_count : Z;
  dg_in_flight_count : Z;
  dg_retryable_count : Z;
  dg_permanent_failure_count : Z;
  dg_next_retry_at : option Z }.

Definition to_u32 (n : Z) : Z := if n <=? u32_max then n else u32_max.

Definition load_sync_diagnostics (db : Db) (owner : string) : ImResult SyncDiagnosticsState :=
  _ ← validate_required "owner_identity_id" owner;
  let state := db_message_states db !! owner in
  let mine := select_where (λ m, bool_decide (lm_owner m = owner)) (db_outbox db) in
  let count status := Z.of_nat (count_where (is_status status) mine) in
  let pending := count "pending"%string in
  let in_flight := count "in_flight"%string in
  let retryable := count "retryable"%string in
  Ok (mkDiagnostics
        (state ≫= ms_last_success_at)
        (ms_bootstrap_state <$> state)
        (rc_status <$> db_recovery db !! owner)
        (to_u32 (i64_saturating_add (i64_saturating_add pending in_flight) retryable))
        (to_u32 pending) (to_u32 in_flight) (to_u32 retryable)
        (to_u32 (count "permanent_failure"%string))
        (sql_min ((λ m, if is_status "retryable" m then lm_retry_at m else None) <$> mine))).

(** * Properties *)

(** The columns that identify a mutation; no operation changes them. *)
Definition lm_ident (m : LocalMutationRecord) : string * string * string * string :=
  (lm_owner m, lm_mutation_id m, lm_operation_id m, lm_aggregate_id m).
Definition lm_key (m : LocalMutationRecord) : string * string :=
  (lm_owner m, lm_mutation_id m).
Definition lm_op_key (m : LocalMutationRecord) : string * string :=
  (lm_owner m, lm_operation_id m).

Definition lm_valid (m : LocalMutationRecord) : Prop :=
  validate_required "owner_identity_id" (lm_owner m) = Ok () ∧
  validate_required "mutation_id" (lm_mutation_id m) = Ok () ∧
  validate_local_mutation_status (lm_status m) = Ok () ∧ 0 ≤ lm_attempt_count m.

Definition in_flight (m : LocalMutationRecord) : Prop := lm_status m = "in_flight"%string.

(** Unique keys, valid rows, and at most one mutation of a thread in flight. *)
Record outbox_wf (t : list LocalMutationRecord) : Prop := {
  ob_keys : NoDup (lm_key <$> t);
  ob_op_keys : NoDup (lm_op_key <$> t);
  ob_valid : ∀ m, m ∈ t → lm_valid m;
  ob_single : ∀ m m', m ∈ t → m' ∈ t → in_flight m → in_flight m' →
    same_aggregate m m' = true → lm_key m = lm_key m' }.

(** A mutation keeps its identity, and once settled keeps its status. *)
Definition lm_follows (m m' : LocalMutationRecord) : Prop :=
  lm_ident m' = lm_ident m ∧ (lm_terminal m = true → lm_status m' = lm_status m).

Lemma lm_of_true owner id m : lm_of owner id m = true ↔ lm_key m = (owner, id).
Proof.
  unfold lm_of, lm_key. rewrite andb_true_iff, !bool_decide_eq_true. naive_solver.
Qed.

Lemma lm_ident_keys m m' :
  lm_ident m' = lm_ident m →
  lm_key m' = lm_key m ∧ lm_op_key m' = lm_op_key m ∧ lm_owner m' = lm_owner m ∧
  lm_mutation_id m' = lm_mutation_id m ∧ lm_aggregate_id m' = lm_aggregate_id m.
Proof. unfold lm_ident, lm_key, lm_op_key. intros [= -> -> -> ->]. done. Qed.

Lemma same_aggregate_true m m' :
  same_aggregate m m' = true ↔
  lm_owner m = lm_owner m' ∧ lm_aggregate_id m = lm_aggregate_id m'.
Proof. unfold same_aggregate. by rewrite andb_true_iff, !bool_decide_eq_true. Qed.

(** ** Updates *)

Section update.
Context (t : list LocalMutationRecord) (p : LocalMutationRecord → bool)
  (f : LocalMutationRecord → LocalMutationRecord).
Hypothesis Hident : ∀ m, lm_ident (f m) = lm_ident m.

Lemma update_keys :
  lm_key <$> update_where p f t = lm_key <$> t ∧
  lm_op_key <$> update_where p f t = lm_op_key <$> t.
Proof using Hident.
  split; apply map_update_where; intros m _ _;
    by destruct (lm_ident_keys _ _ (Hident m)) as (?&?&_).
Qed.

Lemma update_elem m' :
  m' ∈ update_where p f t →
  ∃ m, m ∈ t ∧ lm_ident m' = lm_ident m ∧ m' = (if p m then f m else m).
Proof using Hident.
  intros (m & Hm & ->)%elem_of_update_where. exists m. split; [done|].
  by destruct (p m).
Qed.

(** An update that puts nothing new in flight keeps the invariant. *)
Lemma update_wf :
  outbox_wf t →
  (∀ m, m ∈ t → p m = true → lm_valid (f m) ∧ (in_flight (f m) → in_flight m)) →
  outbox_wf (update_where p f t).
Proof using Hident.
  intros Hwf Hf. destruct update_keys as [E1 E2]. split.
  - rewrite E1. apply Hwf.
  - rewrite E2. apply Hwf.
  - intros m' (m & Hm & _ & ->)%update_elem. destruct (p m) eqn:Hp; [by apply Hf|].
    by apply Hwf.
  - intros m1' m2' (m1 & H1 & I1 & E1')%update_elem (m2 & H2 & I2 & E2')%update_elem F1 F2 Hs.
    destruct (lm_ident_keys _ _ I1) as (K1&_&O1&_&A1), (lm_ident_keys _ _ I2) as (K2&_&O2&_&A2).
    rewrite K1, K2. apply (ob_single _ Hwf); [done|done| | |].
    + subst m1'. destruct (p m1) eqn:Hp; [|done]. by apply Hf.
    + subst m2'. destruct (p m2) eqn:Hp; [|done]. by apply Hf.
    + apply same_aggregate_true in Hs. apply same_aggregate_true. intuition congruence.
Qed.
End update.

Lemma outbox_sublist_wf t t' : t' `sublist_of` t → outbox_wf t → outbox_wf t'.
Proof.
  intros Hs [H1 H2 H3 H4]. split.
  - eapply sublist_NoDup; [exact H1|]. by apply fmap_sublist.
  - eapply sublist_NoDup; [exact H2|]. by apply fmap_sublist.
  - intros m Hm. apply H3. by eapply elem_of_sublist.
  - intros m m' Hm Hm'. apply H4; by eapply elem_of_sublist.
Qed.

Lemma is_status_true s m : is_status s m = true ↔ lm_status m = s.
Proof. unfold is_status. apply bool_decide_eq_true. Qed.

Lemma lm_set_ident m st a r i e u : lm_ident (lm_set m st a r i e u) = lm_ident m.
Proof. done. Qed.
Lemma lm_set_payload_ident m p a u : lm_ident (lm_set_payload m p a u) = lm_ident m.
Proof. done. Qed.

Lemma status_ok s :
  s ∈ ["pending"; "in_flight"; "retryable"; "committed"; "permanent_failure"]%string →
  validate_local_mutation_status s = Ok ().
Proof. intros. unfold validate_local_mutation_status. by rewrite bool_decide_eq_true_2. Qed.

Lemma lm_valid_set m st a r i e u :
  lm_valid m → validate_local_mutation_status st = Ok () → 0 ≤ a →
  lm_valid (lm_set m st a r i e u).
Proof. intros (?&?&_&_) ??. by repeat split. Qed.

(** Claiming one due mutation whose thread has nothing in flight keeps the
    invariant. *)
Lemma claim_wf t p f next :
  (∀ m, lm_ident (f m) = lm_ident m) →
  outbox_wf t → next ∈ t →
  (∀ m, m ∈ t → p m = true → lm_key m = lm_key next) →
  (∀ m, m ∈ t → p m = true → lm_valid (f m)) →
  (∀ m, m ∈ t → same_aggregate m next = true → in_flight m → lm_key m = lm_key next) →
  outbox_wf (update_where p f t).
Proof.
  intros Hid Hwf Hn Hp Hv Hfree. destruct (update_keys t p f Hid) as [E1 E2]. split.
  - rewrite E1. apply Hwf.
  - rewrite E2. apply Hwf.
  - intros m' (m & Hm & _ & ->)%update_elem; [|done].
    destruct (p m) eqn:E; [by apply Hv|by apply Hwf].
  - intros m1' m2' H1 H2 F1 F2 Hs.
    apply update_elem in H1 as (m1 & H1 & I1 & E1'); [|done].
    apply update_elem in H2 as (m2 & H2 & I2 & E2'); [|done].
    destruct (lm_ident_keys _ _ I1) as (K1&_&O1&_&A1), (lm_ident_keys _ _ I2) as (K2&_&O2&_&A2).
    apply same_aggregate_true in Hs as [So Sa].
    rewrite K1, K2. destruct (p m1) eqn:P1, (p m2) eqn:P2; subst m1' m2'.
    + by rewrite (Hp m1), (Hp m2).
    + rewrite (Hp m1) by done. symmetry. apply Hfree; [done| |done].
      assert (m1 = next) as -> by (eapply (key_inj lm_key t); eauto; apply Hwf).
      apply same_aggregate_true. intuition congruence.
    + rewrite (Hp m2) by done. apply Hfree; [done| |done].
      assert (m2 = next) as -> by (eapply (key_inj lm_key t); eauto; apply Hwf).
      apply same_aggregate_true. intuition congruence.
    + apply (ob_single _ Hwf); [done..|]. apply same_aggregate_true. by split.
Qed.

(** ** Each operation *)

Lemma update_outbox_false f db : update_outbox (λ _, false) f db = db.
Proof. unfold update_outbox. rewrite update_where_false. by destruct db. Qed.

Lemma normalize_inv db r r' db' :
  normalize_claimed_group_read_mutation db r = Ok (r', db') →
  lm_ident r' = lm_ident r ∧ lm_status r' = lm_status r ∧
  lm_in_flight_since r' = lm_in_flight_since r ∧
  (lm_attempt_count r' = lm_attempt_count r ∨ lm_attempt_count r' = 1) ∧
  ∃ p f, db' = update_outbox p f db ∧
    (∀ m, lm_ident (f m) = lm_ident m) ∧ (∀ m, lm_status (f m) = lm_status m) ∧
    (∀ m, lm_valid m → lm_valid (f m)).
Proof.
  intros H.
  assert ((r', db') = (r, db) → lm_ident r' = lm_ident r ∧ lm_status r' = lm_status r ∧
    lm_in_flight_since r' = lm_in_flight_since r ∧
    (lm_attempt_count r' = lm_attempt_count r ∨ lm_attempt_count r' = 1) ∧
    ∃ p f, db' = update_outbox p f db ∧
      (∀ m, lm_ident (f m) = lm_ident m) ∧ (∀ m, lm_status (f m) = lm_status m) ∧
      (∀ m, lm_valid m → lm_valid (f m))) as Hsame.
  { intros [= -> ->]. split_and!; try done; [by left|].
    exists (λ _, false), id. by rewrite update_outbox_false. }
  unfold normalize_claimed_group_read_mutation, outbox_corrupt in H.
  destruct (negb _); [by injection H as <- <-; apply Hsame|]. res_inv.
  destruct x as [| | | | |object]; res_inv.
  destruct (negb _); [by res_inv; apply Hsame|].
  destruct (bool_decide _); [by res_inv; apply Hsame|]. res_inv.
  destruct (negb _); [by res_inv; apply Hsame|].
  destruct (negb _); res_inv.
  split_and!; try done; [by right|]. eexists _, _. split; [reflexivity|].
  split_and!; try done. intros m (?&?&?&?). by repeat split.
Qed.

Lemma claim_record_inv db owner id r db' :
  claim_record db owner id = Ok (r, db') →
  ∃ p f, db' = update_outbox p f db ∧
    (∀ m, lm_ident (f m) = lm_ident m) ∧ (∀ m, lm_status (f m) = lm_status m) ∧
    (∀ m, lm_valid m → lm_valid (f m)) ∧
    match head (select_where (lm_of owner id) (db_outbox db)), r with
    | Some m, Some m' =>
        lm_ident m' = lm_ident m ∧ lm_status m' = lm_status m ∧
        lm_in_flight_since m' = lm_in_flight_since m ∧
        (lm_attempt_count m' = lm_attempt_count m ∨ lm_attempt_count m' = 1)
    | None, None => True
    | _, _ => False
    end.
Proof.
  unfold claim_record, load_local_mutation. intros H. res_inv.
  destruct (head _) as [m|] eqn:E.
  - res_inv. destruct x as [m' db'']. simpl.
    match goal with H : normalize_claimed_group_read_mutation _ _ = _ |- _ =>
      apply normalize_inv in H as (?&?&?&?&p&f&->&?&?&?) end. eauto 15.
  - res_inv. exists (λ _, false), (λ m, m). by rewrite update_outbox_false.
Qed.

(** After marking the row of a key, loading that key finds the marked row. *)
Lemma head_select_update owner id f t m :
  NoDup (lm_key <$> t) → (∀ m, lm_ident (f m) = lm_ident m) →
  m ∈ t → lm_key m = (owner, id) → ∀ p : LocalMutationRecord → bool, p m = true →
  head (select_where (lm_of owner id) (update_where p f t)) = Some (f m).
Proof.
  intros Hnd Hid Hm Hk p Hp.
  assert (f m ∈ select_where (lm_of owner id) (update_where p f t)) as Hin.
  { apply elem_of_select_where. split.
    - apply elem_of_update_where. exists m. by rewrite Hp.
    - apply lm_of_true. by destruct (lm_ident_keys _ _ (Hid m)) as (->&_). }
  destruct (select_where _ _) as [|m' l] eqn:E; [by apply elem_of_nil in Hin|]. simpl. f_equal.
  assert (m' ∈ select_where (lm_of owner id) (update_where p f t)) as Hin'
    by (rewrite E; left). clear E Hin.
  apply elem_of_select_where in Hin' as [(m0 & Hm0 & I0 & ->)%update_elem Hk']; [|done].
  apply lm_of_true in Hk'. destruct (lm_ident_keys _ _ I0) as (Ek&_).
  assert (m0 = m) as -> by (eapply (key_inj lm_key t); eauto; congruence). by rewrite Hp.
Qed.

(** The mutation [claim_next_read_mutation] may take. *)
Definition claimable (t : list LocalMutationRecord) (owner : string) (now : Z)
    (m : LocalMutationRecord) : bool :=
  lm_due owner now m && negb (has_in_flight t m).

(** What makes a mutation the next to send: due, with no mutation of its thread in
    flight. *)
Definition ready_to_send (t : list LocalMutationRecord) (owner : string) (now : Z)
    (m : LocalMutationRecord) : Prop :=
  lm_owner m = owner ∧ lm_status m ∈ ["pending"; "retryable"]%string ∧
  (∀ at_time, lm_retry_at m = Some at_time → at_time ≤ now) ∧
  ∀ p, p ∈ t → lm_owner p = lm_owner m → lm_aggregate_id p = lm_aggregate_id m →
    lm_status p ≠ "in_flight"%string.

Lemma claimable_true t owner now m :
  claimable t owner now m = true ↔ ready_to_send t owner now m.
Proof.
  unfold claimable, lm_due, ready_to_send, has_in_flight, is_status, same_aggregate.
  rewrite !andb_true_iff, orb_true_iff, !bool_decide_eq_true, negb_true_iff, exists_where_false.
  rewrite !elem_of_cons, elem_of_nil. split.
  - intros [[[Ho Hs] Hr] Hf]. split_and!; [done|tauto| |].
    + intros x E. rewrite E in Hr. by apply Z.leb_le.
    + intros p Hp E1 E2 E3. specialize (Hf p Hp). by rewrite !bool_decide_eq_true_2 in Hf.
  - intros (Ho & Hs & Hr & Hf). split_and!; [done|tauto| |].
    + destruct (lm_retry_at m); [|done]. by apply Z.leb_le, Hr.
    + intros p Hp. apply not_true_iff_false. rewrite !andb_true_iff, !bool_decide_eq_true.
      intros [[E1 E2] E3]. by apply (Hf p).
Qed.

#[export] Instance created_le_trans : Transitive created_le.
Proof.
  intros a b c [?|[??]] [?|[??]]; unfold created_le in *; [left; lia..|].
  right. split; [lia|]. by etrans.
Qed.
#[export] Instance created_le_total : Total created_le.
Proof.
  intros a b. unfold created_le.
  destruct (Z.lt_total (lm_created_at a) (lm_created_at b)) as [?|[?|?]]; [eauto| |eauto].
  destruct (total str_le (lm_mutation_id a) (lm_mutation_id b)); [left|right]; right; done.
Qed.

Lemma order_limit_head {A} (R : relation A) `{∀ x y, Decision (R x y)} (t : list A) :
  Transitive R → Total R →
  match head (order_limit R 1 t) with
  | None => t = []
  | Some r => r ∈ t ∧ ∀ r', r' ∈ t → r' = r ∨ R r r'
  end.
Proof.
  intros ??. unfold order_limit. pose proof (merge_sort_Permutation R t) as Hp.
  pose proof (Sorted_merge_sort R t) as Hs. apply Sorted_StronglySorted in Hs; [|done].
  change (Z.to_nat 1) with 1%nat.
  destruct (merge_sort R t) as [|r l]; simpl; [by apply Permutation_nil|].
  split; [rewrite <-Hp; left|]. intros r' Hr'. rewrite <-Hp in Hr'.
  apply elem_of_cons in Hr' as [->|Hr']; [by left|right].
  inversion Hs; subst. by eapply Forall_forall.
Qed.

Lemma has_in_flight_false t m :
  has_in_flight t m = false ↔
  ∀ m', m' ∈ t → same_aggregate m' m = true → ¬ in_flight m'.
Proof.
  unfold has_in_flight. rewrite exists_where_false. unfold in_flight.
  setoid_rewrite andb_false_iff. setoid_rewrite <-is_status_true.
  split; intros H m' Hm'; specialize (H m' Hm').
  - intros Ha Hf. destruct H; congruence.
  - destruct (same_aggregate m' m); [|by left]. right. apply not_true_iff_false. eauto.
Qed.

(** What a claim that took the mutation [m] leaves behind. *)
Record claimed (db : Db) (now : Z) (m c : LocalMutationRecord) (db' : Db) : Prop := {
  cl_wf : outbox_wf (db_outbox db');
  cl_frame : db' = with_outbox (db_outbox db') db;
  cl_follows : ∀ m0, m0 ∈ db_outbox db → ∃ m', m' ∈ db_outbox db' ∧ lm_follows m0 m';
  cl_ident : lm_ident c = lm_ident m;
  cl_in_flight : in_flight c;
  cl_since : lm_in_flight_since c = Some now;
  cl_attempts : lm_attempt_count c = lm_attempt_count m + 1 ∨ lm_attempt_count c = 1;
  cl_stored : ∃ m', m' ∈ db_outbox db' ∧ lm_ident m' = lm_ident m ∧ in_flight m';
  cl_origin : ∀ m', m' ∈ db_outbox db' → ∃ m0, m0 ∈ db_outbox db ∧ lm_ident m' = lm_ident m0 ∧
    (in_flight m' → in_flight m0 ∨ m0 = m) }.

(** Both claims mark one live row whose thread is free, then load and normalise
    it. *)
Lemma claim_finish db owner next sel retry now r db' :
  outbox_wf (db_outbox db) → next ∈ db_outbox db → lm_owner next = owner →
  lm_terminal next = false → sel next = true →
  (∀ m, m ∈ db_outbox db → sel m = true → lm_key m = lm_key next) →
  (∀ m, m ∈ db_outbox db → same_aggregate m next = true → in_flight m →
     lm_key m = lm_key next) →
  claim_record
    (update_outbox sel (λ m, lm_set m "in_flight" (lm_attempt_count m + 1) (retry m)
                               (Some now) (lm_last_error_code m) now) db)
    owner (lm_mutation_id next) = Ok (r, db') →
  ∃ c, r = Some c ∧ claimed db now next c db'.
Proof.
  intros Hwf Hn Ho Ht Hsn Hsel Hfree H.
  set (mark := λ m, lm_set m _ _ _ _ _ _) in H.
  assert (lm_key next = (owner, lm_mutation_id next)) as Hkn by (unfold lm_key; congruence).
  assert (outbox_wf (update_where sel mark (db_outbox db))) as Hwf1.
  { apply (claim_wf _ _ _ next); [done|done|done|done| |done].
    intros m Hm _. pose proof (ob_valid _ Hwf m Hm) as Hv. pose proof Hv as (_&_&_&?).
    apply lm_valid_set; [done|by apply status_ok; set_solver|lia]. }
  apply claim_record_inv in H as (p & f & -> & Hid & Hst & Hv & Hr).
  change (db_outbox (update_outbox sel mark db)) with (update_where sel mark (db_outbox db)) in *.
  rewrite (head_select_update _ _ mark _ next) in Hr; [|apply Hwf|done..].
  destruct r as [c|]; [|done]. destruct Hr as (Ic & Sc & Fc & Ac).
  exists c. split; [done|].
  assert (∀ m, m ∈ db_outbox db → let m1 := if sel m then mark m else m in
    (if p m1 then f m1 else m1) ∈ update_where p f (update_where sel mark (db_outbox db)))
    as Hin.
  { intros m Hm m1. apply elem_of_update_where. exists m1. split; [|done].
    apply elem_of_update_where. by exists m. }
  split; [|by destruct db| |done|done|done|done| |].
  - apply update_wf; [done|done|]. intros m Hm _. split; [by apply Hv, Hwf1|].
    unfold in_flight. by rewrite Hst.
  - intros m Hm. eexists. split; [by apply Hin|]. simpl.
    assert (lm_follows m (if sel m then mark m else m)) as [I1 T1].
    { destruct (sel m) eqn:Es; [|done]. split; [done|]. intros Htm.
      assert (m = next) as -> by (eapply (key_inj lm_key); [apply Hwf|done|done|eauto]).
      congruence. }
    destruct (p _); [|done]. split; [by rewrite Hid|]. intros. rewrite Hst. by apply T1.
  - eexists. split; [by apply (Hin next)|]. cbn zeta. rewrite Hsn.
    unfold in_flight. destruct (p _); rewrite ?Hid, ?Hst; done.
  - intros m' (m1 & Hm1 & ->)%elem_of_update_where.
    apply elem_of_update_where in Hm1 as (m0 & Hm0 & ->). exists m0. split; [done|].
    assert (∀ x, lm_ident (if p x then f x else x) = lm_ident x ∧
                 lm_status (if p x then f x else x) = lm_status x) as Hpf.
    { intros x. by destruct (p x); rewrite ?Hid, ?Hst. }
    split; [rewrite (proj1 (Hpf _)); by destruct (sel m0)|].
    unfold in_flight. rewrite (proj2 (Hpf _)). destruct (sel m0) eqn:Es; [|by left].
    intros _. right. eapply (key_inj lm_key); [apply Hwf|done|done|by apply Hsel].
Qed.

Lemma lm_due_live owner now m : lm_due owner now m = true →
  lm_owner m = owner ∧ lm_terminal m = false.
Proof.
  unfold lm_due, is_status, lm_terminal. intros. bool_hyps. split; [done|].
  apply bool_decide_eq_false.
  match goal with H : _ || _ = true |- _ => apply orb_true_iff in H as [E|E] end;
    bool_hyps; rewrite E; set_solver.
Qed.

Lemma claim_next_inv db owner now r db' :
  outbox_wf (db_outbox db) →
  claim_next_read_mutation db owner now = Ok (r, db') →
  match r with
  | None => db' = db ∧ ∀ m, m ∈ db_outbox db → claimable (db_outbox db) owner now m = false
  | Some c =>
      ∃ m, m ∈ db_outbox db ∧ claimable (db_outbox db) owner now m = true ∧
        (∀ m', m' ∈ db_outbox db → claimable (db_outbox db) owner now m' = true →
           m' = m ∨ created_le m m') ∧
        claimed db now m c db'
  end.
Proof.
  intros Hwf H. unfold claim_next_read_mutation in H.
  change (λ m, lm_due owner now m && negb (has_in_flight (db_outbox db) m))
    with (claimable (db_outbox db) owner now) in H.
  pose proof (order_limit_head created_le (select_where
    (claimable (db_outbox db) owner now) (db_outbox db)) _ _) as Hhead.
  destruct (head _) as [next|] eqn:E in H, Hhead.
  2: { res_inv. split; [done|].
       intros m Hm. apply not_true_iff_false. intros Hc.
       assert (m ∈ select_where (claimable (db_outbox db') owner now) (db_outbox db')) as Hin
         by by apply elem_of_select_where.
       rewrite Hhead in Hin. by apply elem_of_nil in Hin. }
  destruct Hhead as [[Hn Hc]%elem_of_select_where Hmin].
  pose proof Hc as [Hd Hf]%andb_true_iff. apply lm_due_live in Hd as [Ho Ht].
  apply negb_true_iff in Hf. rewrite has_in_flight_false in Hf.
  apply claim_finish in H as (c & -> & Hcl); try done.
  - exists next. split_and!; try done. intros m' Hm' Hc2. apply Hmin.
    by apply elem_of_select_where.
  - by apply lm_of_true; unfold lm_key; rewrite Ho.
  - intros m _ Hk%lm_of_true. unfold lm_key in *. congruence.
  - intros m Hm Ha Hfl. by destruct (Hf m Hm Ha).
Qed.

Lemma claim_by_operation_inv db owner op now r db' :
  outbox_wf (db_outbox db) →
  claim_read_mutation_by_operation_id db owner op now = Ok (r, db') →
  match r with
  | None => db' = db
  | Some c => ∃ m, m ∈ db_outbox db ∧ lm_due owner now m = true ∧
      lm_operation_id m = op ∧ claimed db now m c db'
  end.
Proof.
  intros Hwf H. unfold claim_read_mutation_by_operation_id in H. res_inv.
  destruct (head _) as [next|] eqn:E; [|by res_inv].
  apply head_Some_elem_of, elem_of_select_where in E as [Hn Hc]. bool_hyps.
  match goal with H : lm_due _ _ _ = true |- _ => rename H into Hdue end.
  pose proof Hdue as [Ho Ht]%lm_due_live.
  match goal with H : exists_where _ _ = false |- _ =>
    rename H into Hfree; rewrite exists_where_false in Hfree end.
  destruct (negb _); [done|]. bool_hyps.
  assert (is_status "pending" next || is_status "retryable" next = true) as Hlive.
  { unfold lm_due in Hdue. bool_hyps. done. }
  match goal with H : claim_record _ _ _ = _ |- _ =>
    apply (claim_finish _ _ _ _ (λ _, None)) in H as (c & -> & Hcl); try done end.
  - exists next. done.
  - rewrite Hlive, andb_true_r. by apply lm_of_true; unfold lm_key; rewrite Ho.
  - intros m _ [Hk%lm_of_true _]%andb_true_iff. unfold lm_key in *. congruence.
  - intros m Hm Ha Hfl. specialize (Hfree m Hm).
    rewrite Ha, (proj2 (is_status_true _ _) Hfl) in Hfree. simpl in Hfree. bool_hyps.
    apply same_aggregate_true in Ha as [? _]. unfold lm_key. congruence.
Qed.

(** ** Acknowledging *)

(** The watermark of a mutation is at or below the acknowledged sequence. *)
Definition at_or_below (acknowledged_seq : string) (m : LocalMutationRecord) : bool :=
  match lm_payload_json m ≫= payload_seq with
  | Some seq => decimal_value seq <=? decimal_value acknowledged_seq
  | None => false
  end.

Definition commit (now : Z) (m : LocalMutationRecord) : LocalMutationRecord :=
  lm_set m "committed" (lm_attempt_count m) None None None now.

Lemma ack_fold_Ok seq acc l ids :
  try_fold (ack_step seq) acc l = Ok ids →
  ids = acc ++ (lm_mutation_id <$> filter (λ m, at_or_below seq m = true) l).
Proof.
  revert acc. induction l as [|m l IH]; intros acc H; simpl in H.
  { res_inv. by rewrite app_nil_r. }
  apply bind_Ok in H as (acc' & Hstep & H). unfold ack_step in Hstep. res_inv.
  match goal with
  | H : compare_decimal _ _ = Ok _ |- _ => apply compare_decimal_Ok_inv in H as (_&_&->)
  end.
  match goal with H : try_fold _ _ _ = Ok _ |- _ => apply IH in H as -> end.
  assert (at_or_below seq m = (decimal_value x0 <=? decimal_value seq)) as Hab.
  { unfold at_or_below. by simplify_option_eq. }
  rewrite filter_cons, Hab.
  destruct (Z.compare_spec (decimal_value x0) (decimal_value seq)) as [E|E|E];
    destruct (Z.leb_spec (decimal_value x0) (decimal_value seq)); try lia;
    case_decide; try done; simpl; by rewrite <-?app_assoc.
Qed.

Lemma fold_update_outbox owner f ids db :
  (∀ m, lm_ident (f m) = lm_ident m) → (∀ m, f (f m) = f m) →
  fold_left (λ db id, update_outbox (lm_of owner id) f db) ids db =
  update_outbox (λ m, existsb (λ id, lm_of owner id m) ids) f db.
Proof.
  intros Hid Hidem. unfold update_outbox at 2.
  rewrite <-(fold_update_where (lm_of owner) f ids (db_outbox db)); [|intros id m|done].
  - revert db. induction ids as [|id ids IH]; intros db; simpl; [by destruct db|].
    rewrite IH. by destruct db.
  - apply eq_true_iff_eq. rewrite !lm_of_true.
    by destruct (lm_ident_keys _ _ (Hid m)) as (->&_).
Qed.

(** What a remote acknowledgement settles: a live mutation of the thread, named by
    its key or by the conversation its payload carries, whose watermark is
    numerically at or below the acknowledged one. *)
Definition acknowledged (owner agg : string) (conv : option string) (seq : string)
    (m : LocalMutationRecord) : Prop :=
  lm_owner m = owner ∧ lm_status m ∉ ["committed"; "permanent_failure"]%string ∧
  ∃ payload s, lm_payload_json m = Some payload ∧
    (lm_aggregate_id m = agg ∨
     ∃ c, conv = Some c ∧ pointer payload ["thread_id"%string] = Some (VString c)) ∧
    vget payload "read_watermark_seq" = Some (VString s) ∧ decimal_value s ≤ decimal_value seq.

Lemma acknowledged_true owner agg conv seq m :
  ack_candidate owner agg conv m && at_or_below seq m = true ↔ acknowledged owner agg conv seq m.
Proof.
  unfold ack_candidate, at_or_below, acknowledged, lm_terminal, json_eq, payload_seq.
  rewrite !andb_true_iff, orb_true_iff, negb_true_iff, bool_decide_eq_false, !bool_decide_eq_true.
  destruct (lm_payload_json m) as [v|]; simpl.
  2: { split; [by intros [_ [=]]|intros (_&_&?&?&[=]&_)]. }
  split.
  - intros [[[Ho Ht] Hc] Hs]. split_and!; [done..|].
    destruct (vget v "read_watermark_seq") as [[| | |s| |]|] eqn:Ev; simpl in Hs; try done.
    exists v, s. split_and!; [done| |done|by apply Z.leb_le].
    destruct Hc as [?|Hc]; [by left|right]. destruct conv as [c|]; [|done]. exists c. split; [done|].
    destruct (vget v "thread_id") as [[| | |x| |]|]; try done. simpl in *. by apply bool_decide_eq_true in Hc as ->.
  - intros (Ho & Ht & v' & s & [= <-] & Hc & Ev & Hle). rewrite Ev. simpl.
    split_and!; [done|done| |by apply Z.leb_le].
    destruct Hc as [?|(c & -> & Hp)]; [by left|right]. by rewrite Hp, bool_decide_eq_true_2.
Qed.

Lemma acknowledge_inv db owner agg conv seq now db' :
  outbox_wf (db_outbox db) →
  acknowledge_read_outbox db owner agg conv seq now = Ok db' →
  db' = update_outbox (λ m, ack_candidate owner agg conv m && at_or_below seq m)
          (commit now) db.
Proof.
  intros Hwf H. unfold acknowledge_read_outbox in H. res_inv.
  match goal with H : try_fold _ _ _ = Ok _ |- _ => apply ack_fold_Ok in H as -> end.
  rewrite (fold_update_outbox owner (commit now)) by done. unfold update_outbox. f_equal.
  unfold update_where. apply list_fmap_ext. intros i m Hm.
  apply list_elem_of_lookup_2 in Hm.
  replace (existsb _ _) with (ack_candidate owner agg conv m && at_or_below seq m); [done|].
  apply eq_true_iff_eq. rewrite existsb_exists, andb_true_iff. simpl. split.
  - intros [Hc Hb]. exists (lm_mutation_id m). split.
    + apply list_elem_of_In, list_elem_of_fmap_2, list_elem_of_filter. split; [done|].
      by apply elem_of_select_where.
    + apply lm_of_true. unfold ack_candidate in Hc. bool_hyps. unfold lm_key. congruence.
  - intros (id & (m' & -> & [Hb [Hm' Hc]%elem_of_select_where]%list_elem_of_filter)%list_elem_of_In%list_elem_of_fmap
      & Hk%lm_of_true).
    assert (m = m') as ->; [|done].
    eapply (key_inj lm_key); [apply Hwf|done|done|]. rewrite Hk.
    unfold ack_candidate in Hc. bool_hyps. unfold lm_key. congruence.
Qed.

(** ** The lifecycle of a mutation *)

Inductive outbox_step (now : Z) : Db → Db → Prop :=
| ob_upsert db owner kind tid key seq mid at_time id op r db' :
    upsert_read_outbox db owner kind tid key seq mid at_time id op now = Ok (r, db') →
    outbox_step now db db'
| ob_claim_next db owner r db' :
    claim_next_read_mutation db owner now = Ok (r, db') → outbox_step now db db'
| ob_claim_operation db owner op r db' :
    claim_read_mutation_by_operation_id db owner op now = Ok (r, db') → outbox_step now db db'
| ob_retry db owner id code at_time :
    outbox_step now db (retry_local_mutation db owner id code at_time)
| ob_fail db owner id code db' :
    permanently_fail_local_mutation db owner id code now = Ok db' → outbox_step now db db'
| ob_acknowledge db owner agg conv seq db' :
    acknowledge_read_outbox db owner agg conv seq now = Ok db' → outbox_step now db db'
| ob_recover db : outbox_step now db (recover_interrupted_work db now)
| ob_cleanup db owner epoch seq max_delete r db' :
    cleanup_terminal_sync_state db owner epoch seq max_delete now = Ok (r, db') →
    outbox_step now db db'.

(** A mutation leaves the outbox only settled and past retention. *)
Definition lm_expired (now : Z) (m : LocalMutationRecord) : Prop :=
  lm_terminal m = true ∧
  lm_updated_at m ≤ i64_saturating_sub now TERMINAL_SYNC_STATE_RETENTION_SECONDS.

Definition outbox_advances (now : Z) (t t' : list LocalMutationRecord) : Prop :=
  outbox_wf t' ∧
  ∀ m, m ∈ t → (∃ m', m' ∈ t' ∧ lm_follows m m') ∨ lm_expired now m.

Lemma outbox_advances_refl now t : outbox_wf t → outbox_advances now t t.
Proof. intros. split; [done|]. intros m Hm. left. by exists m. Qed.

(** An update that settles or releases rows. *)
Lemma update_advances now t p f :
  outbox_wf t → (∀ m, lm_ident (f m) = lm_ident m) →
  (∀ m, m ∈ t → p m = true → lm_valid (f m) ∧ (in_flight (f m) → in_flight m) ∧
     (lm_terminal m = true → lm_status (f m) = lm_status m)) →
  outbox_advances now t (update_where p f t).
Proof.
  intros Hwf Hid Hf. split.
  - apply update_wf; [done|done|]. intros m Hm Hp. by destruct (Hf m Hm Hp) as (?&?&_).
  - intros m Hm. left. exists (if p m then f m else m).
    split; [apply elem_of_update_where; by exists m|].
    destruct (p m) eqn:Hp; [|done]. split; [done|]. by apply Hf.
Qed.

Lemma status_update_advances now t p st g r i e u :
  outbox_wf t → validate_local_mutation_status st = Ok () → st ≠ "in_flight"%string →
  (∀ m, m ∈ t → p m = true → lm_terminal m = false) → (∀ m, g m = lm_attempt_count m) →
  outbox_advances now t
    (update_where p (λ m, lm_set m st (g m) (r m) (i m) (e m) (u m)) t).
Proof.
  intros Hwf Hst Hne Hp Hg. apply update_advances; [done|done|]. intros m Hm Hpm.
  pose proof (ob_valid _ Hwf m Hm) as Hv. pose proof Hv as (_&_&_&?). split_and!.
  - apply lm_valid_set; [done|done|by rewrite Hg].
  - unfold in_flight. simpl. done.
  - rewrite (Hp m Hm Hpm). done.
Qed.

Lemma in_flight_live m : is_status "in_flight" m = true → lm_terminal m = false.
Proof.
  unfold is_status, lm_terminal. intros E%bool_decide_eq_true.
  apply bool_decide_eq_false_2. rewrite E. set_solver.
Qed.

Lemma upsert_read_outbox_advances now db owner kind tid key seq mid at_time id op r db' :
  outbox_wf (db_outbox db) →
  upsert_read_outbox db owner kind tid key seq mid at_time id op now = Ok (r, db') →
  outbox_advances now (db_outbox db) (db_outbox db').
Proof.
  intros Hwf H. unfold upsert_read_outbox, outbox_corrupt in H. res_inv.
  destruct (head _) as [cur|] eqn:E.
  - destruct (lm_payload_json cur); [|done]. res_inv.
    destruct x; try by apply outbox_advances_refl.
    apply update_advances; [done|done|]. intros m Hm _.
    split_and!; [|done|done]. destruct (ob_valid _ Hwf m Hm) as (?&?&?&?). by repeat split.
  - res_inv. match goal with H : enqueue_local_mutation _ _ = _ |- _ => rename H into He end.
    unfold enqueue_local_mutation, constraint_failed in He. simpl in He. res_inv. bool_hyps.
    match goal with H : exists_where _ _ = false |- _ => rename H into Hfresh end.
    rewrite exists_where_false in Hfresh. simpl. split.
    + split.
      * rewrite fmap_app. apply NoDup_app. split; [apply Hwf|]. split; [|apply NoDup_singleton].
        intros k (m & -> & Hm)%list_elem_of_fmap [= Ho Hi]%list_elem_of_singleton.
        specialize (Hfresh m Hm). by rewrite !bool_decide_eq_true_2 in Hfresh.
      * rewrite fmap_app. apply NoDup_app. split; [apply Hwf|]. split; [|apply NoDup_singleton].
        intros k (m & -> & Hm)%list_elem_of_fmap [= Ho Hi]%list_elem_of_singleton.
        specialize (Hfresh m Hm). rewrite (bool_decide_eq_true_2 _ Ho) in Hfresh.
        by rewrite (bool_decide_eq_true_2 _ Hi), orb_true_r in Hfresh.
      * intros m [Hm| ->%list_elem_of_singleton]%elem_of_app; [by apply Hwf|].
        by repeat split.
      * intros m m' [Hm| ->%list_elem_of_singleton]%elem_of_app
          [Hm'| ->%list_elem_of_singleton]%elem_of_app F F'; try done.
        by apply (ob_single _ Hwf).
    + intros m Hm. left. exists m. split; [|done]. apply elem_of_app. by left.
Qed.

Lemma permanently_fail_inv db owner id code at_time db' :
  permanently_fail_local_mutation db owner id code at_time = Ok db' →
  db_outbox db' = update_where (λ m, lm_of owner id m && is_status "in_flight" m)
    (λ m, lm_set m "permanent_failure" (lm_attempt_count m) None None (Some code) at_time)
    (db_outbox db).
Proof.
  unfold permanently_fail_local_mutation. intros H. res_inv. destruct (negb _); by res_inv.
Qed.

Lemma cleanup_inv db owner epoch seq max_delete now r db' :
  cleanup_terminal_sync_state db owner epoch seq max_delete now = Ok (r, db') →
  (r = mkCleanup 0 0 false ∧ db' = db) ∨
  ∃ n db1,
    prune_applied_events db owner epoch seq max_delete = Ok (n, db1) ∧
    let cutoff := i64_saturating_sub now TERMINAL_SYNC_STATE_RETENTION_SECONDS in
    let expired := expired_mutations db1 owner cutoff
                     (Z.max 0 (max_delete - Z.min u32_max n)) in
    applied_events_deleted r = n ∧
    terminal_mutations_deleted r = Z.of_nat (length expired) ∧
    db_outbox db' = delete_where
      (λ m, existsb (λ e, bool_decide (lm_owner m = lm_owner e)
                          && bool_decide (lm_mutation_id m = lm_mutation_id e)) expired)
      (db_outbox db1) ∧
    db_applied db' = db_applied db1 ∧
    (terminal_recovery_deleted r = true →
       n + Z.of_nat (length expired) < max_delete).
Proof.
  unfold cleanup_terminal_sync_state. intros H. res_inv.
  destruct (max_delete =? 0); [left; by res_inv|right]. res_inv.
  match goal with H : prune_applied_events _ _ _ _ _ = Ok ?x |- _ => destruct x as [n db1] end.
  exists n, db1. split; [done|]. cbn zeta. cbn [fst snd] in *.
  destruct (load_recovery_state _ owner) as [rec|]; [|by res_inv]. res_inv.
  destruct (_ && _) eqn:E; res_inv; [|done]. bool_hyps. done.
Qed.

Lemma prune_outbox db owner epoch seq n r db' :
  prune_applied_events db owner epoch seq n = Ok (r, db') →
  db_outbox db' = db_outbox db ∧ db_recovery db' = db_recovery db.
Proof.
  unfold prune_applied_events. intros H. res_inv.
  repeat (destruct (_ =? _) || destruct (_ <=? _)); res_inv; [done..|].
  match goal with H : match ?x with _ => _ end = _ |- _ => destruct x; by res_inv end.
Qed.

Lemma expired_elem db owner cutoff limit m :
  m ∈ expired_mutations db owner cutoff limit →
  m ∈ db_outbox db ∧ lm_owner m = owner ∧ lm_terminal m = true ∧ lm_updated_at m ≤ cutoff.
Proof.
  unfold expired_mutations. intros Hm%order_limit_sub.
  apply elem_of_select_where in Hm as [? Hp]. bool_hyps. done.
Qed.

Lemma cleanup_advances db owner epoch seq max_delete now r db' :
  outbox_wf (db_outbox db) →
  cleanup_terminal_sync_state db owner epoch seq max_delete now = Ok (r, db') →
  outbox_advances now (db_outbox db) (db_outbox db').
Proof.
  intros Hwf [(_&->)|(n&db1&Hp&_&_&E&_)]%cleanup_inv; [by apply outbox_advances_refl|].
  apply prune_outbox in Hp as [Eo _]. rewrite Eo in E. rewrite E. split.
  - eapply outbox_sublist_wf; [apply sublist_delete_where|done].
  - intros m Hm.
    destruct (existsb (λ e, bool_decide (lm_owner m = lm_owner e)
      && bool_decide (lm_mutation_id m = lm_mutation_id e)) (expired_mutations db1 owner
        (i64_saturating_sub now TERMINAL_SYNC_STATE_RETENTION_SECONDS)
        (Z.max 0 (max_delete - Z.min u32_max n)))) eqn:Ex.
    + right. apply existsb_exists in Ex as (e & He & Hk). bool_hyps.
      apply list_elem_of_In, expired_elem in He as (He & _ & Ht & Hu). rewrite Eo in He.
      assert (m = e) as ->; [|done].
      eapply (key_inj lm_key); [apply Hwf|done|done|]. unfold lm_key. congruence.
    + left. exists m. split; [|done]. by apply elem_of_delete_where.
Qed.

Lemma outbox_step_advances now db db' :
  outbox_wf (db_outbox db) → outbox_step now db db' →
  outbox_advances now (db_outbox db) (db_outbox db').
Proof.
  intros Hwf Hs. destruct Hs as [db owner kind tid key seq mid at_time id op r db' H
    |db owner r db' H|db owner op r db' H|db owner id code at_time|db owner id code db' H
    |db owner agg conv seq db' H|db|db owner epoch seq max_delete r db' H].
  - by eapply upsert_read_outbox_advances.
  - apply claim_next_inv in H; [|done]. destruct r as [c|]; [|destruct H as [-> _];
      by apply outbox_advances_refl].
    destruct H as (m & _ & _ & _ & []). split; [done|]. eauto.
  - apply claim_by_operation_inv in H; [|done]. destruct r as [c|]; [|subst;
      by apply outbox_advances_refl].
    destruct H as (m & _ & _ & _ & []). split; [done|]. eauto.
  - apply (status_update_advances now _ _ "retryable" lm_attempt_count (λ _, Some at_time)
      (λ _, None) (λ _, Some code) (λ _, at_time)); [done|done|done| |done].
    intros m _ [_ ?]%andb_true_iff. by apply in_flight_live.
  - rewrite (permanently_fail_inv _ _ _ _ _ _ H).
    apply (status_update_advances now _ _ "permanent_failure" lm_attempt_count (λ _, None)
      (λ _, None) (λ _, Some code) (λ _, now)); [done|done|done| |done].
    intros m _ [_ ?]%andb_true_iff. by apply in_flight_live.
  - apply acknowledge_inv in H as ->; [|done].
    apply (status_update_advances now _ _ "committed" lm_attempt_count (λ _, None)
      (λ _, None) (λ _, None) (λ _, now)); [done|done|done| |done].
    intros m _ [Hc _]%andb_true_iff. unfold ack_candidate in Hc. by bool_hyps.
  - apply (status_update_advances now _ _ "retryable" lm_attempt_count lm_retry_at
      (λ _, None) lm_last_error_code (λ _, now)); [done|done|done| |done].
    intros m _ ?. by apply in_flight_live.
  - by eapply cleanup_advances.
Qed.

(** ** Claims *)

(** The outbox never loses work. Every operation keeps the primary and unique
    keys, the row checks and at most one mutation in flight per thread; every
    mutation keeps its identity, a settled one (committed or permanently failed)
    is never reopened or resettled, and only settled mutations past the
    seven-day retention are removed. *)
Theorem outbox_lifecycle now db db' :
  outbox_wf (db_outbox db) → outbox_step now db db' →
  outbox_wf (db_outbox db') ∧
  ∀ m, m ∈ db_outbox db →
    (∃ m', m' ∈ db_outbox db' ∧ lm_follows m m') ∨ lm_expired now m.
Proof. apply outbox_step_advances. Qed.

(** Claiming takes the right mutation. [claim_next_read_mutation] returns none
    exactly when no mutation of the owner is due with its thread free, and then
    changes nothing; otherwise it takes the oldest such mutation, marks it in
    flight from now with one more attempt (or a restarted count after
    normalisation) and touches no other table. *)
Theorem claim_next_takes_oldest_due db owner now r db' :
  outbox_wf (db_outbox db) →
  claim_next_read_mutation db owner now = Ok (r, db') →
  match r with
  | None => db' = db ∧ ∀ m, m ∈ db_outbox db → ¬ ready_to_send (db_outbox db) owner now m
  | Some c =>
      ∃ m, m ∈ db_outbox db ∧ ready_to_send (db_outbox db) owner now m ∧
        (∀ m', m' ∈ db_outbox db → ready_to_send (db_outbox db) owner now m' →
           m' = m ∨ created_le m m') ∧
        claimed db now m c db'
  end.
Proof.
  intros Hwf Hc. pose proof (claim_next_inv _ _ _ _ _ Hwf Hc) as Hinv. destruct r as [c|].
  - destruct Hinv as (m & Hm & Hr & Hold & Hcl). exists m.
    split_and!; [done|by apply claimable_true| |done].
    intros m' Hm' Hr'. by apply Hold, claimable_true.
  - destruct Hinv as [-> Hnone]. split; [done|]. intros m Hm Hr%claimable_true.
    by rewrite Hnone in Hr.
Qed.

(** A remote acknowledgement commits exactly the live mutations of the thread
    whose watermark is numerically at or below the acknowledged sequence, and
    leaves every other mutation as it was. *)
Theorem acknowledge_commits_exactly db owner agg conv seq now db' :
  outbox_wf (db_outbox db) →
  acknowledge_read_outbox db owner agg conv seq now = Ok db' →
  db' = with_outbox (db_outbox db') db ∧
  length (db_outbox db') = length (db_outbox db) ∧
  ∀ i m, db_outbox db !! i = Some m → ∃ m', db_outbox db' !! i = Some m' ∧
    (acknowledged owner agg conv seq m → m' = commit now m) ∧
    (¬ acknowledged owner agg conv seq m → m' = m).
Proof.
  intros Hwf ->%acknowledge_inv; [|done]. simpl. split_and!; [done|apply length_update_where|].
  intros i m Hm. unfold update_where. rewrite list_lookup_fmap, Hm. simpl.
  eexists. split; [done|]. split; intros Hack.
  - by rewrite (proj2 (acknowledged_true _ _ _ _ _) Hack).
  - rewrite <-acknowledged_true, not_true_iff_false in Hack. by rewrite Hack.
Qed.

(** After a restart nothing is stuck: no mutation stays in flight and no
    recovery stays in a running state, and every mutation that was in flight is
    again claimable as soon as its retry time has come. *)
Theorem recover_releases_in_flight db recovered_at :
  let db' := recover_interrupted_work db recovered_at in
  (∀ m, m ∈ db_outbox db' → ¬ in_flight m) ∧
  (∀ o r, db_recovery db' !! o = Some r →
     rc_status r ∉ ["recovering"; "downloading"; "applying"]%string) ∧
  (∀ m now, m ∈ db_outbox db → in_flight m →
     (∀ t, lm_retry_at m = Some t → t ≤ now) →
     ∃ m', m' ∈ db_outbox db' ∧ lm_ident m' = lm_ident m ∧
       ready_to_send (db_outbox db') (lm_owner m) now m').
Proof.
  cbv zeta. unfold recover_interrupted_work. simpl.
  assert (∀ m, m ∈ update_where (is_status "in_flight")
     (λ m, lm_set m "retryable" (lm_attempt_count m) (lm_retry_at m) None
        (lm_last_error_code m) recovered_at) (db_outbox db) → ¬ in_flight m) as Hnone.
  { intros m (m0 & _ & ->)%elem_of_update_where.
    destruct (is_status "in_flight" m0) eqn:E; unfold in_flight; simpl; [done|].
    unfold is_status in E. by bool_hyps. }
  split_and!; [done| |].
  - intros o r Hr. rewrite lookup_fmap in Hr. apply fmap_Some in Hr as (r0 & _ & ->).
    case_bool_decide; simpl; [set_solver|done].
  - intros m now Hm Hf Hretry. eexists. split; [apply elem_of_update_where; exists m;
      rewrite (proj2 (is_status_true _ _) Hf); done|].
    split; [done|]. split_and!; simpl; [done|set_solver|done|].
    intros p Hp _ _. exact (Hnone p Hp).
Qed.

(** An untried pending mutation of a thread: the one [upsert_read_outbox] may
    rewrite in place. *)
Definition untried (owner key : string) (m : LocalMutationRecord) : bool :=
  bool_decide (lm_owner m = owner) && bool_decide (lm_aggregate_id m = key)
  && is_status "pending" m && (lm_attempt_count m =? 0).

Lemma untried_update owner key p (g : LocalMutationRecord → option Value) now t :
  count_where (untried owner key)
    (update_where p (λ m, lm_set_payload m (g m) (lm_attempt_count m) now) t) =
  count_where (untried owner key) t.
Proof.
  unfold count_where, select_where, update_where.
  induction t as [|m t IH]; [done|]. rewrite fmap_cons, !filter_cons.
  assert (untried owner key (if p m then lm_set_payload m (g m) (lm_attempt_count m) now
    else m) = untried owner key m) as ->; [by destruct (p m)|].
  case_decide; simpl; congruence.
Qed.

(** Marking a thread read coalesces: with at most one untried pending mutation
    of the thread before, there is exactly one afterwards, it carries the
    returned operation id, and its watermark is at least the new one. *)
Theorem upsert_read_outbox_coalesces db owner kind tid key seq mid at_time id op now r db' :
  outbox_wf (db_outbox db) →
  (count_where (untried owner key) (db_outbox db) ≤ 1)%nat →
  upsert_read_outbox db owner kind tid key seq mid at_time id op now = Ok (r, db') →
  count_where (untried owner key) (db_outbox db') = 1%nat ∧
  ∃ m s, m ∈ db_outbox db' ∧ untried owner key m = true ∧ lm_operation_id m = r ∧
    default "0"%string (lm_payload_json m ≫= payload_seq) = s ∧
    decimal_value seq ≤ decimal_value s.
Proof.
  intros Hwf Hone H. unfold upsert_read_outbox, outbox_corrupt in H. res_inv.
  change (λ m, bool_decide (lm_owner m = owner) && bool_decide (lm_aggregate_id m = key)
     && is_status "pending" m && (lm_attempt_count m =? 0)) with (untried owner key) in *.
  destruct (head _) as [cur|] eqn:E.
  - apply head_Some_elem_of, order_limit_sub, elem_of_select_where in E as [Hcur Hu].
    assert (count_where (untried owner key) (db_outbox db) = 1%nat) as Hc.
    { assert (cur ∈ select_where (untried owner key) (db_outbox db)) as Hin
        by by apply elem_of_select_where.
      unfold count_where in *. destruct (select_where _ _); [by apply elem_of_nil in Hin|].
      simpl in *. lia. }
    destruct (lm_payload_json cur) as [payload|] eqn:Ep; [|done]. res_inv.
    match goal with
    | H : compare_decimal _ _ = Ok _ |- _ => apply compare_decimal_Ok_inv in H as (_&_&Hcmp)
    end. destruct x.
    + split; [done|]. exists cur. eexists. split_and!; [done..|]. rewrite Ep. simpl.
      symmetry in Hcmp. apply Z.compare_eq in Hcmp. lia.
    + split; [done|]. exists cur. eexists. split_and!; [done..|]. rewrite Ep. simpl.
      symmetry in Hcmp. rewrite Z.compare_lt_iff in Hcmp. lia.
    + split; [simpl; rewrite untried_update; done|].
      eexists _, seq. split_and!; [apply elem_of_update_where; exists cur;
        split; [done|]; unfold untried in Hu; bool_hyps;
        rewrite (proj2 (lm_of_true _ _ _)) by (unfold lm_key; congruence); reflexivity
        |exact Hu|done|done|done].
  - res_inv. match goal with H : enqueue_local_mutation _ _ = _ |- _ => rename H into He end.
    assert (count_where (untried owner key) (db_outbox db) = 0%nat) as Hc.
    { unfold count_where, order_limit in *. apply head_None in E.
      assert (length (merge_sort created_ge (select_where (untried owner key) (db_outbox db))) = 0%nat)
        as Hl by (destruct (merge_sort _ _); [done|discriminate E]).
      by rewrite merge_sort_Permutation in Hl. }
    unfold enqueue_local_mutation, constraint_failed in He. simpl in He. res_inv.
    set (new := mkMutation _ _ _ _ _ _ _ _ _ _ _ _ _).
    assert (untried owner key new = true) as Hu
      by (unfold untried; simpl; by rewrite !bool_decide_eq_true_2).
    split.
    + unfold count_where, select_where in *. rewrite filter_app, length_app, Hc.
      rewrite filter_cons, decide_True by done. done.
    + exists new, seq. split_and!; [apply elem_of_app; right; by left|done..].
Qed.

Lemma recovery_covered_total rec cutoff epoch seq :
  canonical (rc_requested_from_epoch rec) → canonical (rc_requested_from_seq rec) →
  from_option canonical True (rc_snapshot_scan_seq rec) →
  canonical epoch → canonical seq →
  ∃ b, recovery_covered rec cutoff epoch seq = Ok b.
Proof.
  intros He Hs Hsn Hce Hcs. unfold recovery_covered. destruct (_ && _); [|eauto].
  unfold compare_stream_position.
  rewrite (compare_decimal_value (rc_requested_from_epoch rec)) by done. simpl.
  assert (canonical (default (rc_requested_from_seq rec) (rc_snapshot_scan_seq rec)))
    by by destruct (rc_snapshot_scan_seq rec).
  destruct (_ ?= _); simpl; [rewrite compare_decimal_value by done|..]; simpl; eauto.
Qed.

Lemma delete_expired_length db owner cutoff limit t :
  outbox_wf t → db_outbox db = t →
  let expired := expired_mutations db owner cutoff limit in
  (length (delete_where
     (λ m, existsb (λ e, bool_decide (lm_owner m = lm_owner e)
                         && bool_decide (lm_mutation_id m = lm_mutation_id e)) expired) t)
   + length expired = length t)%nat.
Proof.
  intros Hwf <- expired.
  refine (proj1 (proj2 (delete_victims lm_key (λ e m, bool_decide (lm_owner m = lm_owner e)
    && bool_decide (lm_mutation_id m = lm_mutation_id e)) _ _ _ _ _ _))).
  - apply Hwf.
  - unfold expired, expired_mutations, order_limit.
    eapply sublist_NoDup; [|apply sublist_take]. rewrite merge_sort_Permutation.
    apply NoDup_filter. exact (NoDup_fmap_1 _ _ (ob_keys _ Hwf)).
  - intros m (?&_)%expired_elem. done.
  - intros v r. rewrite andb_true_iff, !bool_decide_eq_true. unfold lm_key.
    split; [by intros [-> ->]|by intros [= -> ->]].
Qed.


(** ** Concrete outboxes *)

Definition ex_read_db : Db :=
  (unwrap_or (upsert_read_outbox ex_db "owner-1" "direct" "thread-1" "key-1" "7"
     (Some "m-7"%string) None "read-1" "op-read-1" 500) (""%string, ex_db)).2.

Lemma empty_outbox_wf : outbox_wf [].
Proof. split; [constructor|constructor|intros ? []%elem_of_nil|intros ?? []%elem_of_nil]. Qed.

Lemma ex_read_wf : outbox_wf (db_outbox ex_read_db).
Proof.
  refine (proj1 (upsert_read_outbox_advances 500 ex_db "owner-1" "direct" "thread-1" "key-1"
    "7" (Some "m-7"%string) None "read-1" "op-read-1" "op-read-1" ex_read_db empty_outbox_wf _)).
  by vm_compute.
Qed.

Definition ex_claimed_db : Db :=
  (unwrap_or (claim_next_read_mutation ex_read_db "owner-1" 510) (None, ex_db)).2.

Definition ex_claim : LocalMutationRecord :=
  mkMutation "owner-1" "read-1" "op-read-1" "read_state_mark_read" "key-1"
    (Some (VObject
       [("thread_kind", VString "direct"); ("thread_id", VString "thread-1");
        ("remote_thread_key", VString "key-1"); ("read_watermark_seq", VString "7");
        ("read_watermark_message_id", VString "m-7"); ("read_watermark_at", VNull)]%string))
    "in_flight" 1 None (Some 510) None 500 510.

Lemma outbox_lifecycle_witness :
  outbox_wf (db_outbox ex_claimed_db) ∧
  ∀ m, m ∈ db_outbox ex_read_db →
    (∃ m', m' ∈ db_outbox ex_claimed_db ∧ lm_follows m m') ∨ lm_expired 510 m.
Proof.
  apply (outbox_lifecycle 510 ex_read_db ex_claimed_db ex_read_wf).
  apply (ob_claim_next 510 _ "owner-1" (Some ex_claim)).
  vm_compute. reflexivity.
Defined.

Lemma claim_next_takes_oldest_due_witness :
  ∃ m, m ∈ db_outbox ex_read_db ∧
    ready_to_send (db_outbox ex_read_db) "owner-1" 510 m ∧
    (∀ m', m' ∈ db_outbox ex_read_db →
       ready_to_send (db_outbox ex_read_db) "owner-1" 510 m' → m' = m ∨ created_le m m') ∧
    claimed ex_read_db 510 m ex_claim ex_claimed_db.
Proof.
  apply (claim_next_takes_oldest_due ex_read_db "owner-1" 510 (Some ex_claim) ex_claimed_db
    ex_read_wf).
  vm_compute. reflexivity.
Defined.

Lemma acknowledge_commits_exactly_witness :
  ∃ m', db_outbox (unwrap_or
      (acknowledge_read_outbox ex_claimed_db "owner-1" "key-1" None "9" 520) ex_db) !! 0%nat = Some m' ∧
    (acknowledged "owner-1" "key-1" None "9" ex_claim → m' = commit 520 ex_claim) ∧
    (¬ acknowledged "owner-1" "key-1" None "9" ex_claim → m' = ex_claim).
Proof.
  apply (acknowledge_commits_exactly ex_claimed_db "owner-1" "key-1" None "9" 520).
  - refine (proj1 (outbox_step_advances 510 ex_read_db ex_claimed_db ex_read_wf _)).
    apply (ob_claim_next 510 _ "owner-1" (Some ex_claim)). vm_compute. reflexivity.
  - vm_compute. reflexivity.
  - vm_compute. reflexivity.
Defined.

Lemma upsert_read_outbox_coalesces_witness :
  count_where (untried "owner-1" "key-1")
    (db_outbox (unwrap_or (upsert_read_outbox ex_read_db "owner-1" "direct" "thread-1" "key-1"
       "12" None None "read-2" "op-read-2" 505) (""%string, ex_db)).2) = 1%nat.
Proof.
  refine (proj1 (upsert_read_outbox_coalesces ex_read_db "owner-1" "direct" "thread-1" "key-1"
    "12" None None "read-2" "op-read-2" 505 "op-read-1" _ ex_read_wf _ _)).
  - vm_compute. lia.
  - vm_compute. reflexivity.
Defined.

