(* ===== verification/Inbox.v ===== *)
(** * The durable receive queue

    [local_state/sync_inbox.rs]: events received from the server wait in
    [sync_lane_inbox] until a processing attempt completes them. [receive_ordinary]
    commits a page and the cursor behind it in one transaction, [claim_inputs]
    leases due inputs fairly over lanes and conversation scopes, and
    [fail_claim], [park_timeout], [release_timeout], [renew_claims] and
    [complete_claim] settle an attempt, each fenced by the attempt token and its
    lease.

    The JSON encoder, the canonical digest, the RFC 3339 printer and the random
    token generator are libraries: they are the operations of the class
    [QueueCodec] and explicit token arguments. *)

From S2P Require Import Prelude RustStr ImError Decimal Dto Store SyncStore.
Local Open Scope Z_scope.

Definition MAX_INBOX_RECORDS : Z := 16384.
Definition RETENTION_SECONDS : Z := 48 * 60 * 60.
Definition CLAIM_SECONDS : Z := 60.
Definition MAX_ACTIVE_INPUTS : Z := 8.
Definition SYNC_CLEANUP_BATCH_SIZE : Z := 256.

(** What the queue takes from serde_json, serde_json_canonicalizer with sha2, and
    chrono. Encoded identities are distinct for distinct identities. *)
Class QueueCodec := {
  (** [serde_json::to_string(&json!([owner, lane, epoch, event_id]))] *)
  encode_input_id : string → string → string → string → string;
  (** [serde_json::to_string(payload).len()] *)
  encoded_len : Value → Z;
  (** the hex digest of the canonical bytes; [None] when canonicalising fails *)
  canonical_digest : Value → option string;
  (** [DateTime::from_timestamp(now, 0).to_rfc3339()] *)
  to_rfc3339 : Z → option string;
  encode_input_id_inj : ∀ o l e i o' l' e' i',
    encode_input_id o l e i = encode_input_id o' l' e' i' →
    o = o' ∧ l = l' ∧ e = e' ∧ i = i' }.

Record InboxEvent := mkInboxEvent {
  ev_event_id : string;
  ev_position : string;
  ev_event_type : string;
  ev_payload : Value;
  ev_scope : string;
  ev_group_did : option string }.

Record OrdinaryReceiveBatch := mkBatch {
  rb_binding : IdentityAccountBinding;
  rb_client_instance_id : string;
  rb_expected_run_generation : option Z;
  rb_stream_epoch : string;
  rb_expected_scan_seq : string;
  rb_next_scan_seq : string;
  rb_server_time : string;
  rb_events : list InboxEvent }.

Record RemovedInput := mkRemoved {
  rm_input_id : string;
  rm_owner : string;
  rm_event_id : string }.

Record ReceiveOutcome := mkReceiveOutcome {
  rv_received : Z;
  rv_duplicates : Z;
  rv_removed : list RemovedInput }.

Record ProcessingSummary := mkSummary {
  ps_pending : Z;
  ps_active : Z;
  ps_blocked : Z;
  ps_next_retry_at : option Z;
  ps_error_code : option string }.

Record InputClaim := mkClaim {
  ic_input_id : string;
  ic_owner : string;
  ic_owner_did : string;
  ic_account : string;
  ic_device : string;
  ic_auth_generation : string;
  ic_lane : string;
  ic_lane_epoch : string;
  ic_position : string;
  ic_event_id : string;
  ic_event_type : string;
  ic_payload : Value;
  ic_group_did : option string;
  ic_logical_event_seq : option string;
  ic_received_at : string;
  ic_source_created_at : option string;
  ic_source_expires_at : option string;
  ic_token : string;
  ic_attempt_count : Z }.

(** The wire envelope of an ordinary event ([wire/sync_v2.rs]). *)
Record SyncEventV2 := mkSyncEvent {
  se_event_id : string;
  se_stream_epoch : string;
  se_event_seq : string;
  se_event_type : string;
  se_schema_version : Z;
  se_ignore_safe : bool;
  se_account_id : string;
  se_recipient_device_id : option string;
  se_origin_did : option string;
  se_origin_device_id : option string;
  se_aggregate_kind : string;
  se_aggregate_id : string;
  se_state_version : option string;
  se_thread_key : option string;
  se_occurred_at : string;
  se_payload : Value;
  se_source : option Value }.

(** [serde_json::from_value]: a derived struct reads an object by field name or
    an array by position; an optional field may be absent or null. *)
Section from_value.
Variable v : Value.

Definition de_field (i : nat) (name : string) : option Value :=
  match v with
  | VObject m => assoc name m
  | VArray l => if (length l =? 17)%nat then l !! i else None
  | _ => None
  end.
Definition de_str i name : option string := de_field i name ≫= as_str.
Definition de_opt_str i name : option (option string) :=
  match de_field i name, v with
  | Some VNull, _ => Some None
  | Some (VString s), _ => Some (Some s)
  | Some _, _ => None
  | None, VObject _ => Some None
  | None, _ => None
  end.
Definition de_u32 i name : option Z :=
  n ← de_field i name ≫= as_u64; if n <=? u32_max then Some n else None.

Definition sync_event_from_value : option SyncEventV2 :=
  event_id ← de_str 0 "event_id";
  stream_epoch ← de_str 1 "stream_epoch";
  event_seq ← de_str 2 "event_seq";
  event_type ← de_str 3 "event_type";
  schema_version ← de_u32 4 "schema_version";
  ignore_safe ← de_field 5 "ignore_safe" ≫= as_bool;
  account_id ← de_str 6 "account_id";
  recipient_device_id ← de_opt_str 7 "recipient_device_id";
  origin_did ← de_opt_str 8 "origin_did";
  origin_device_id ← de_opt_str 9 "origin_device_id";
  aggregate_kind ← de_str 10 "aggregate_kind";
  aggregate_id ← de_str 11 "aggregate_id";
  state_version ← de_opt_str 12 "state_version";
  thread_key ← de_opt_str 13 "thread_key";
  occurred_at ← de_str 14 "occurred_at";
  payload ← de_field 15 "payload";
  Some (mkSyncEvent event_id stream_epoch event_seq event_type schema_version ignore_safe
          account_id recipient_device_id origin_did origin_device_id aggregate_kind
          aggregate_id state_version thread_key occurred_at payload
          match de_field 16 "source" with
          | Some VNull | None => None
          | Some s => Some s
          end).
End from_value.

(** ** Bindings and hashes *)

Definition require_binding (db : Db) (binding : IdentityAccountBinding) : ImResult unit :=
  match load_identity_account_binding db (ib_owner binding) with
  | Some current =>
      if bool_decide (ib_account current = ib_account binding)
         && bool_decide (ib_device current = ib_device binding)
         && bool_decide (ib_current_did current = ib_current_did binding)
         && bool_decide (ib_auth_generation current = ib_auth_generation binding)
      then Ok ()
      else Err (sync_error "SYNC_ACCOUNT_BINDING_MISMATCH"
                  "processing or receive binding is no longer current")
  | None => Err (sync_error "SYNC_ACCOUNT_BINDING_MISMATCH"
                   "processing or receive binding is no longer current")
  end.

Definition is_ordinary_or_baseline (lane : string) : bool :=
  bool_decide (lane ∈ ["ordinary"; "baseline"]%string).

(** The part of a payload that may not change between deliveries. *)
Definition immutable_payload (lane : string) (payload : Value) : Value :=
  match vget payload "event" with
  | Some event =>
      if bool_decide (lane = "ordinary"%string) then
        VArray [event; default VNull (vget payload "hydrated")]
      else payload
  | None => payload
  end.

Section queue.
Context `{QueueCodec}.

Definition payload_hash (lane : string) (payload : Value) : ImResult string :=
  ok_or (canonical_digest (immutable_payload lane payload))
    (sync_error "SYNC_INPUT_INVALID" "receive payload cannot be canonicalized").

(** ** Duplicates and insertion *)

Definition same_event (owner lane epoch event_id : string) (r : InboxRow) : bool :=
  bool_decide (in_owner r = owner) && bool_decide (in_lane r = lane)
  && bool_decide (in_lane_epoch r = epoch) && bool_decide (in_event_id r = event_id).
Definition same_position (owner lane epoch position : string) (r : InboxRow) : bool :=
  bool_decide (in_owner r = owner) && bool_decide (in_lane r = lane)
  && bool_decide (in_lane_epoch r = epoch) && bool_decide (in_position r = position).

Definition receipt_hash (db : Db) (owner lane epoch event_id : string) : option string :=
  if is_ordinary_or_baseline lane then
    head (select_where
            (λ r, bool_decide (ae_owner (ar_receipt r) = owner)
                  && bool_decide (ae_event_id (ar_receipt r) = event_id)
                  && bool_decide (ae_stream_epoch (ar_receipt r) = epoch))
            (db_applied db)) ≫= ar_payload_hash
  else
    head (select_where
            (λ r, bool_decide (la_owner r = owner) && bool_decide (la_lane r = lane)
                  && bool_decide (la_event_id r = event_id)
                  && bool_decide (la_stream_epoch r = epoch))
            (db_lane_applied db)) ≫= la_payload_hash.

Definition input_conflict {A} (detail : string) : ImResult A :=
  Err (sync_error "SYNC_INPUT_CONFLICT" detail).

Definition input_is_duplicate (db : Db) (owner lane epoch : string) (event : InboxEvent)
    : ImResult bool :=
  match head (select_where (same_event owner lane epoch (ev_event_id event)) (db_inbox db)) with
  | Some existing =>
      if negb (bool_decide (in_position existing = ev_position event))
         || negb (bool_decide (in_event_type existing = ev_event_type event)) then
        input_conflict "event identity conflicts with an existing receive payload"
      else
        stored ← payload_hash lane (in_payload existing);
        received ← payload_hash lane (ev_payload event);
        if negb (bool_decide (stored = received)) then
          input_conflict "event identity conflicts with an existing receive payload"
        else Ok true
  | None =>
      if exists_where (same_position owner lane epoch (ev_position event)) (db_inbox db) then
        input_conflict "receive position belongs to another event"
      else
        match receipt_hash db owner lane epoch (ev_event_id event) with
        | Some hash =>
            received ← payload_hash lane (ev_payload event);
            if bool_decide (hash = received) then Ok true
            else input_conflict "completed event was redelivered with a different payload"
        | None => Ok false
        end
  end.

(** The [CHECK]s of [sync_lane_inbox]. *)
Definition positive_decimal (s : string) : bool :=
  negb (is_empty s) && all_digits s && negb (starts_with s "0").
Definition not_blank (s : string) : bool := negb (is_empty (sql_trim s)).

Definition inbox_checks_sized (payload_bytes : Z) (r : InboxRow) : bool :=
  (0 <=? in_attempt_count r)
  && bool_decide (is_Some (in_attempt_token r) ↔ is_Some (in_attempt_deadline r))
  && bool_decide (in_lane r ∈ ["ordinary"; "baseline"; "p5_device"; "p6_group"]%string)
  && not_blank (in_event_type r)
  && is_object (in_payload r)
  && (0 <? payload_bytes)
  && (payload_bytes <=?
        if bool_decide (in_lane r = "baseline"%string) then 67108864 else 16777216)
  && not_blank (in_input_id r) && not_blank (in_event_id r) && not_blank (in_received_at r)
  && positive_decimal (in_lane_epoch r) && positive_decimal (in_position r)
  && (is_ordinary_or_baseline (in_lane r)
      || (bool_decide (in_lane r = "p5_device"%string)
          && bool_decide (in_event_type r = "p5.delivery.created"%string)
          && bool_decide (in_group_did r = None))
      || (bool_decide (in_lane r = "p6_group"%string)
          && bool_decide (in_event_type r ∈ ["p6.delivery.created"; "p6.control.notice"]%string)
          && from_option not_blank false (in_group_did r))).
Definition inbox_checks (r : InboxRow) : bool :=
  inbox_checks_sized (encoded_len (in_payload r)) r.

(** The unique constraints a new row meets. *)
Definition inbox_collides (t : list InboxRow) (r : InboxRow) : bool :=
  exists_where
    (λ x, bool_decide (in_input_id x = in_input_id r)
          || same_event (in_owner r) (in_lane r) (in_lane_epoch r) (in_event_id r) x
          || same_position (in_owner r) (in_lane r) (in_lane_epoch r) (in_position r) x) t.

Definition insert_input (db : Db) (binding : IdentityAccountBinding)
    (installation lane epoch : string) (event : InboxEvent) (now : Z) : ImResult Db :=
  received_at ← ok_or (to_rfc3339 now)
    (sync_error "SYNC_INPUT_INVALID" "receive time is invalid");
  let row := mkInbox
    (encode_input_id (ib_owner binding) lane epoch (ev_event_id event))
    (ib_owner binding) lane epoch (ev_position event) (ev_event_id event)
    (ev_event_type event) (ev_payload event) (ib_account binding) (ib_device binding)
    (ib_auth_generation binding) installation (ev_group_did event) None received_at
    None None None now (ev_scope event) 0 None None None (Some 0) None in
  if negb (owner_bound db (in_owner row)) || negb (inbox_checks row)
     || inbox_collides (db_inbox db) row
  then constraint_failed
  else Ok (with_inbox (db_inbox db ++ [row]) db).

(** ** Retention and capacity *)

Definition oldest_le (r r' : InboxRow) : Prop :=
  in_created_at r < in_created_at r' ∨
  (in_created_at r = in_created_at r' ∧ str_le (in_input_id r) (in_input_id r')).
#[export] Instance oldest_le_dec r r' : Decision (oldest_le r r').
Proof. unfold oldest_le. apply _. Defined.

Definition removed_of (r : InboxRow) : RemovedInput :=
  mkRemoved (in_input_id r) (in_owner r) (in_event_id r).

Definition oldest_rows (t : list InboxRow) (cutoff : option Z) (limit : Z) : list InboxRow :=
  order_limit oldest_le limit
    (select_where
       (λ r, match cutoff with None => true | Some c => in_created_at r <=? c end) t).

Definition delete_oldest (db : Db) (cutoff : option Z) (limit : Z)
    : list RemovedInput * Db :=
  let removed := removed_of <$> oldest_rows (db_inbox db) cutoff limit in
  (removed,
   with_inbox
     (fold_left
        (λ t item, delete_where
           (λ r, bool_decide (in_input_id r = rm_input_id item)
                 && bool_decide (in_owner r = rm_owner item)) t)
        removed (db_inbox db)) db).

Definition purge_expired (db : Db) (now limit : Z) : ImResult (list RemovedInput * Db) :=
  if (limit =? 0) || (4096 <? limit) then
    Err (invalid_input (Some "limit"%string)
           "inbox cleanup limit must be between 1 and 4096")
  else Ok (delete_oldest db (Some (i64_saturating_sub now RETENTION_SECONDS)) limit).

Definition make_room_with_limit (db : Db) (additional now max_records : Z)
    : ImResult (list RemovedInput * Db) :=
  if (i64_max <? additional) || (max_records <? additional) || (max_records <=? 0) then
    Err (sync_error "SYNC_INBOX_BATCH_TOO_LARGE" "receive batch exceeds inbox capacity")
  else
    let first := delete_oldest db (Some (i64_saturating_sub now RETENTION_SECONDS))
                   SYNC_CLEANUP_BATCH_SIZE in
    let count := Z.of_nat (length (db_inbox first.2)) in
    let excess := Z.max 0
      (i64_saturating_sub (i64_saturating_add count additional) max_records) in
    if (0 <? additional) && (0 <? excess) then
      let second := delete_oldest first.2 None excess in
      Ok (first.1 ++ second.1, second.2)
    else Ok first.

Definition make_room (db : Db) (additional now : Z) : ImResult (list RemovedInput * Db) :=
  make_room_with_limit db additional now MAX_INBOX_RECORDS.

(** ** Receiving a page *)

Definition invalid_page {A} (detail : string) : ImResult A :=
  Err (sync_error "SYNC_INVALID_PAGE" detail).
Definition input_incomplete {A} (detail : string) : ImResult A :=
  Err (sync_error "SYNC_INPUT_INCOMPLETE" detail).

(** The loop's state: the identities seen, the events to insert, the number of
    duplicates. *)
Record ReceiveLoop := mkReceiveLoop {
  rl_event_ids : list string;
  rl_positions : list string;
  rl_pending : list InboxEvent;
  rl_duplicates : Z }.

Definition check_envelope (input : OrdinaryReceiveBatch) (event : InboxEvent)
    (envelope : SyncEventV2) : bool :=
  negb (bool_decide (se_event_id envelope = ev_event_id event))
  || negb (bool_decide (se_event_seq envelope = ev_position event))
  || negb (bool_decide (se_event_type envelope = ev_event_type event))
  || negb (bool_decide (se_stream_epoch envelope = rb_stream_epoch input))
  || negb (bool_decide (se_account_id envelope = ib_account (rb_binding input)))
  || match se_recipient_device_id envelope with
     | Some device => negb (bool_decide (device = ib_device (rb_binding input)))
     | None => false
     end
  || (bool_decide (ev_event_type event ∈ ["message.created"; "system.notification"]%string)
      && negb (from_option is_object false (vget (ev_payload event) "hydrated"))).

Definition receive_event (db : Db) (input : OrdinaryReceiveBatch) (s : ReceiveLoop)
    (event : InboxEvent) : ImResult ReceiveLoop :=
  if is_empty (trim (ev_event_id event))
     || negb (bool_decide (trim (ev_event_id event) = ev_event_id event))
     || is_empty (trim (ev_event_type event))
     || negb (is_object (ev_payload event))
     || bool_decide (ev_event_id event ∈ rl_event_ids s)
     || bool_decide (ev_position event ∈ rl_positions s) then
    invalid_page "receive events have invalid or duplicate identities"
  else
    _ ← validate_positive_decimal "event_seq" (ev_position event);
    order ← compare_decimal (ev_position event) (rb_next_scan_seq input);
    if bool_decide (order = Gt) then
      invalid_page "received event is ahead of the page cursor"
    else
      value ← ok_or (vget (ev_payload event) "event")
        (sync_error "SYNC_INPUT_INCOMPLETE" "ordinary receive envelope is missing");
      envelope ← ok_or (sync_event_from_value value)
        (sync_error "SYNC_INPUT_INCOMPLETE" "ordinary receive envelope is incomplete");
      if check_envelope input event envelope then
        input_incomplete "ordinary receive data does not match its exact envelope"
      else
        input_is_duplicate db (ib_owner (rb_binding input)) "ordinary"
          (rb_stream_epoch input) event ≫= λ duplicate : bool,
        Ok (mkReceiveLoop (ev_event_id event :: rl_event_ids s)
              (ev_position event :: rl_positions s)
              (if duplicate then rl_pending s else rl_pending s ++ [event])
              (rl_duplicates s + if duplicate then 1 else 0)).

Definition receive_superseded {A} (detail : string) : ImResult A :=
  Err (sync_error "SYNC_RECEIVE_SUPERSEDED" detail).

Definition receive_ordinary (db : Db) (input : OrdinaryReceiveBatch) (now : Z)
    : ImResult (ReceiveOutcome * Db) :=
  let binding := rb_binding input in
  let owner := ib_owner binding in
  _ ← require_binding db binding;
  _ ← require_message_sync_run_generation db owner (rb_expected_run_generation input);
  if negb (bool_decide (db_installations db !! owner = Some (rb_client_instance_id input))) then
    Err (sync_error "SYNC_INSTALLATION_CHANGED" "receive installation is no longer current")
  else
    access ← load_message_sync_state db owner;
    match access with
    | BootstrapRequired _ =>
        Err (sync_error "SYNC_BOOTSTRAP_REQUIRED" "receive requires a bootstrapped cursor")
    | Ready current =>
        if negb (bool_decide (ms_stream_epoch current = rb_stream_epoch input))
           || negb (bool_decide (ms_scan_seq current = rb_expected_scan_seq input)) then
          receive_superseded "receive cursor changed before commit"
        else
          order ← compare_decimal (rb_next_scan_seq input) (ms_scan_seq current);
          if bool_decide (order = Lt) then
            Err (sync_error "SYNC_CURSOR_REGRESSION" "receive cursor cannot move backwards")
          else
            loop ← try_fold (receive_event db input) (mkReceiveLoop [] [] [] 0)
                     (rb_events input);
            room ← make_room db (Z.of_nat (length (rl_pending loop))) now;
            db' ← try_fold
              (λ db event, insert_input db binding (rb_client_instance_id input) "ordinary"
                             (rb_stream_epoch input) event now)
              room.2 (rl_pending loop);
            let next := mkMessageState (ms_owner current) (ms_account current)
              (ms_device current) (ms_auth_generation current) (ms_stream_epoch current)
              (rb_next_scan_seq input) (ms_bootstrap_state current)
              (Some (rb_server_time input)) (Some now) None (ms_metadata_json current) now in
            advanced ← advance_message_sync_state db' next;
            match advanced.1 with
            | BootstrapRequired _ =>
                receive_superseded "receive binding changed before commit"
            | Ready _ =>
                Ok (mkReceiveOutcome (Z.of_nat (length (rl_pending loop)))
                      (rl_duplicates loop) room.1, advanced.2)
            end
    end.

(** ** Claiming *)

(** The columns a processing attempt writes. *)
Definition in_set (r : InboxRow) (closed : option Z) (count : Z) (token : option string)
    (deadline last next : option Z) (error : option string) : InboxRow :=
  mkInbox (in_input_id r) (in_owner r) (in_lane r) (in_lane_epoch r) (in_position r)
    (in_event_id r) (in_event_type r) (in_payload r) (in_account r) (in_device r)
    (in_auth_generation r) (in_client_instance r) (in_group_did r) (in_logical_event_seq r)
    (in_received_at r) (in_source_created_at r) (in_source_expires_at r) closed
    (in_created_at r) (in_scope r) count token deadline last next error.

Definition update_inbox (p : InboxRow → bool) (f : InboxRow → InboxRow) (db : Db) : Db :=
  with_inbox (update_where p f (db_inbox db)) db.

(** An own P6 echo that older clients blocked, joined with the accepted local
    send projection. *)
Definition blocked_own_echo (binding : IdentityAccountBinding) (i : InboxRow)
    (m : MessageRow) : bool :=
  let payload := Some (in_payload i) in
  let seq := json_text payload ["body"; "group_event_seq"]%string in
  let did := ib_current_did binding in
  bool_decide (mg_owner_identity_id m = in_owner i)
  && match json_text payload ["body"; "group_did"]%string, seq with
     | Some group, Some seq => bool_decide (mg_msg_id m = group +:+ ":" +:+ seq)%string
     | _, _ => false
     end
  && bool_decide (Some (mg_group_did m) = in_group_did i)
  && bool_decide (mg_sender_did m = did) && bool_decide (mg_owner_did m = did)
  && (mg_direction m =? 1)
  && match seq with
     | Some seq => bool_decide (mg_server_seq m = Some (sql_cast_integer seq))
     | None => false
     end
  && (mg_is_e2ee m =? 1)
  && json_eq (mg_metadata m) ["security"%string] "group-e2ee"
  && json_eq (mg_metadata m) ["delivery_state"%string] "accepted"
  && bool_decide (in_owner i = ib_owner binding)
  && bool_decide (in_device i = ib_device binding)
  && bool_decide (in_lane i = "p6_group"%string)
  && bool_decide (in_event_type i = "p6.delivery.created"%string)
  && bool_decide (in_error_code i = Some "sync.processing_blocked"%string)
  && bool_decide (in_closed_at i = None) && bool_decide (in_attempt_token i = None)
  && bool_decide (in_next_attempt_at i = None)
  && json_eq payload ["meta"; "sender_did"]%string did
  && json_eq payload ["meta"; "sender_device_id"]%string (ib_device binding)
  && json_eq payload ["meta"; "target"; "did"]%string did
  && json_eq payload ["meta"; "recipient_device_id"]%string (ib_device binding).

Definition reclaim_blocked_echoes (binding : IdentityAccountBinding) (now : Z) (db : Db) : Db :=
  let ids := take 64 (i ← db_inbox db; m ← db_messages db;
                      if blocked_own_echo binding i m then [in_input_id i] else []) in
  update_inbox (λ r, bool_decide (in_input_id r ∈ ids))
    (λ r, in_set r (in_closed_at r) (in_attempt_count r) (in_attempt_token r)
            (in_attempt_deadline r) (in_last_attempt_at r) (Some now)
            (Some "sync.group_sent_projection_pending"%string)) db.

Definition drop_expired_leases (now : Z) (db : Db) : Db :=
  with_leases (filter (λ kv : string * Z, (now < kv.2)%Z) (db_leases db) : gmap string Z) db.

Definition no_lease (db : Db) (token : option string) : bool :=
  match token with
  | Some t => bool_decide (db_leases db !! t = None)
  | None => true
  end.

(** A baseline marker that holds back the row at rowid [i]. *)
Definition baseline_blocks (db : Db) (cutoff : Z) (i : nat) (r : InboxRow) : bool :=
  existsb
    (λ jb : nat * InboxRow,
       bool_decide (in_owner jb.2 = in_owner r) && bool_decide (in_lane jb.2 = "baseline"%string)
       && bool_decide (in_closed_at jb.2 = None) && (cutoff <? in_created_at jb.2)
       && (bool_decide (in_lane r = "ordinary"%string) || (jb.1 <? i)%nat))
    (imap pair (db_inbox db)).

(** The rows of the [due] table expression. *)
Definition input_due (db : Db) (binding : IdentityAccountBinding) (now : Z) (i : nat)
    (r : InboxRow) : bool :=
  let cutoff := i64_saturating_sub now RETENTION_SECONDS in
  bool_decide (in_owner r = ib_owner binding) && bool_decide (in_account r = ib_account binding)
  && bool_decide (in_device r = ib_device binding) && bool_decide (in_closed_at r = None)
  && (cutoff <? in_created_at r)
  && (match in_next_attempt_at r with Some t => t <=? now | None => false end
      || (bool_decide (in_error_code r = Some "sync.processing_timeout"%string)
          && bool_decide (is_Some (in_attempt_token r)) && no_lease db (in_attempt_token r)))
  && (bool_decide (in_attempt_token r = None)
      || match in_attempt_deadline r with Some t => t <=? now | None => false end
      || no_lease db (in_attempt_token r))
  && (negb (is_ordinary_or_baseline (in_lane r)) || negb (baseline_blocks db cutoff i r)).

Definition due_inputs (db : Db) (binding : IdentityAccountBinding) (now : Z) : list InboxRow :=
  snd <$> filter (λ ir : nat * InboxRow, input_due db binding now ir.1 ir.2 = true)
            (imap pair (db_inbox db)).

(** [attempt_count, COALESCE(last_attempt_at,0), created_at, input_id]. *)
Definition attempt_lt (r r' : InboxRow) : bool :=
  let l x := default 0 (in_last_attempt_at x) in
  (in_attempt_count r <? in_attempt_count r')
  || ((in_attempt_count r =? in_attempt_count r')
      && ((l r <? l r')
          || ((l r =? l r')
              && ((in_created_at r <? in_created_at r')
                  || ((in_created_at r =? in_created_at r')
                      && str_ltb (in_input_id r) (in_input_id r')))))).

(** [ROW_NUMBER() OVER (PARTITION BY .. ORDER BY ..)]: one more than the rows of
    the partition before it. *)
Definition scope_rank (due : list InboxRow) (r : InboxRow) : nat :=
  S (count_where (λ x, bool_decide (in_lane x = in_lane r)
                       && bool_decide (in_scope x = in_scope r) && attempt_lt x r) due).
Definition lane_rank (due : list InboxRow) (r : InboxRow) : nat :=
  S (count_where
       (λ x, bool_decide (in_lane x = in_lane r)
             && ((scope_rank due x <? scope_rank due r)%nat
                 || ((scope_rank due x =? scope_rank due r)%nat && attempt_lt x r))) due).

Definition fair_le (due : list InboxRow) (r r' : InboxRow) : Prop :=
  (lane_rank due r < lane_rank due r')%nat ∨
  (lane_rank due r = lane_rank due r' ∧ str_le (in_lane r) (in_lane r')).
#[export] Instance fair_le_dec due r r' : Decision (fair_le due r r').
Proof. unfold fair_le. apply _. Defined.

Definition fair_inputs (db : Db) (binding : IdentityAccountBinding) (now limit : Z)
    : list InboxRow :=
  let due := due_inputs db binding now in order_limit (fair_le due) limit due.

Definition claim_of (binding : IdentityAccountBinding) (r : InboxRow) (token : string)
    : InputClaim :=
  mkClaim (in_input_id r) (ib_owner binding) (ib_current_did binding) (ib_account binding)
    (ib_device binding) (ib_auth_generation binding) (in_lane r) (in_lane_epoch r)
    (in_position r) (in_event_id r) (in_event_type r) (in_payload r) (in_group_did r)
    (in_logical_event_seq r) (in_received_at r) (in_source_created_at r)
    (in_source_expires_at r) token (i64_saturating_add (in_attempt_count r) 1).

(** One iteration of the claiming loop: lease, then mark the row. *)
Definition claim_input (binding : IdentityAccountBinding) (now : Z)
    (s : list InputClaim * Db) (rt : InboxRow * string) : ImResult (list InputClaim * Db) :=
  let deadline := i64_saturating_add now CLAIM_SECONDS in
  if bool_decide (is_Some (db_leases s.2 !! rt.2)) then constraint_failed
  else
    let db1 := with_leases (<[rt.2 := deadline]> (db_leases s.2)) s.2 in
    let db2 := update_inbox (λ r, bool_decide (in_input_id r = in_input_id rt.1))
      (λ r, in_set r (in_closed_at r) (in_attempt_count r + 1) (Some rt.2) (Some deadline)
              (Some now) (Some (default now (in_next_attempt_at r))) None) db1 in
    Ok (s.1 ++ [claim_of binding rt.1 rt.2], db2).

(** [tokens i] is the random token of the [i]-th claim. When no slot is free the
    transaction is dropped without a commit. *)
Definition claim_inputs (db : Db) (binding : IdentityAccountBinding) (now limit : Z)
    (tokens : nat → string) : ImResult (list InputClaim * Db) :=
  if (limit =? 0) || (64 <? limit) then
    Err (invalid_input (Some "limit"%string) "claim limit must be between 1 and 64")
  else
    _ ← require_binding db binding;
    let db1 := drop_expired_leases now (reclaim_blocked_echoes binding now db) in
    let leased := Z.of_nat (size (filter (λ kv : string * Z, (now < kv.2)%Z) (db_leases db1) : gmap string Z)) in
    let limit := Z.min limit (Z.max 0 (MAX_ACTIVE_INPUTS - leased)) in
    if limit =? 0 then Ok ([], db)
    else
      try_fold (claim_input binding now) ([], db1)
        (imap (λ i r, (r, tokens i)) (fair_inputs db1 binding now limit)).

(** ** Settling an attempt *)

Definition superseded {A} : ImResult A :=
  Err (sync_error "SYNC_INPUT_SUPERSEDED"
         "receive input was removed or its processing attempt is stale").

(** The row, its binding and its lease still belong to the claim. *)
Definition claim_row_live (db : Db) (claim : InputClaim) (now : Z) (r : InboxRow) : bool :=
  bool_decide (in_input_id r = ic_input_id claim) && bool_decide (in_owner r = ic_owner claim)
  && bool_decide (in_attempt_token r = Some (ic_token claim))
  && match in_attempt_deadline r with Some t => now <? t | None => false end
  && negb (bool_decide (in_error_code r = Some "sync.processing_timeout"%string))
  && match db_leases db !! ic_token claim with Some t => now <? t | None => false end
  && match db_bindings db !! in_owner r with
     | Some b =>
         bool_decide (ib_account b = ic_account claim)
         && bool_decide (ib_device b = ic_device claim)
         && bool_decide (ib_auth_generation b = ic_auth_generation claim)
         && bool_decide (ib_current_did b = ic_owner_did claim)
     | None => false
     end.

Definition require_claim (db : Db) (claim : InputClaim) (now : Z) : ImResult unit :=
  if exists_where (claim_row_live db claim now) (db_inbox db) then Ok () else superseded.

Definition release_processing_slot (db : Db) (token : string) : Db :=
  with_leases (delete token (db_leases db)) db.
Definition release_claim_lease (db : Db) (claim : InputClaim) : Db :=
  release_processing_slot db (ic_token claim).

Definition fail_claim (db : Db) (claim : InputClaim) (code : string) (retry_at : option Z)
    (now : Z) : ImResult Db :=
  _ ← require_claim db claim now;
  Ok (release_claim_lease
        (update_inbox (λ r, bool_decide (in_input_id r = ic_input_id claim))
           (λ r, in_set r None (in_attempt_count r) None None (in_last_attempt_at r)
                   retry_at (Some code)) db) claim).

(** The row of a claim, whether or not its lease is still live. *)
Definition claim_row (claim : InputClaim) (r : InboxRow) : bool :=
  bool_decide (in_input_id r = ic_input_id claim) && bool_decide (in_owner r = ic_owner claim)
  && bool_decide (in_attempt_token r = Some (ic_token claim)).

Definition park_timeout (db : Db) (claim : InputClaim) (now : Z) : bool * Db :=
  (bool_decide (count_where (claim_row claim) (db_inbox db) = 1%nat),
   update_inbox (claim_row claim)
     (λ r, in_set r None (in_attempt_count r) (in_attempt_token r)
             (Some (i64_saturating_add now CLAIM_SECONDS)) (in_last_attempt_at r) None
             (Some "sync.processing_timeout"%string)) db).

Definition release_timeout (db : Db) (claim : InputClaim) (retry_at : Z) : bool * Db :=
  let p := λ r, claim_row claim r
                && bool_decide (in_error_code r = Some "sync.processing_timeout"%string) in
  (bool_decide (count_where p (db_inbox db) = 1%nat),
   update_inbox p
     (λ r, in_set r (in_closed_at r) (in_attempt_count r) None None (in_last_attempt_at r)
             (Some retry_at) (in_error_code r)) db).

Definition renew_lease (token : string) (now : Z) (db : Db) : Db :=
  with_leases (alter (λ _, i64_saturating_add now CLAIM_SECONDS) token (db_leases db)) db.

Definition renew_claims (db : Db) (claims : list InputClaim) (now : Z) : Db :=
  fold_left
    (λ db claim,
       update_inbox (claim_row claim)
         (λ r, in_set r (in_closed_at r) (in_attempt_count r) (in_attempt_token r)
                 (Some (i64_saturating_add now CLAIM_SECONDS)) (in_last_attempt_at r)
                 (in_next_attempt_at r) (in_error_code r))
         (renew_lease (ic_token claim) now db)) claims db.

Definition reserve_processing_slot (db : Db) (now : Z) (token : string)
    : ImResult (option string * Db) :=
  let db1 := drop_expired_leases now db in
  if MAX_ACTIVE_INPUTS <=? Z.of_nat (size (db_leases db1)) then Ok (None, db)
  else if bool_decide (is_Some (db_leases db1 !! token)) then constraint_failed
  else Ok (Some token,
           with_leases (<[token := i64_saturating_add now CLAIM_SECONDS]> (db_leases db1)) db1).

Definition renew_processing_slots (db : Db) (tokens : list string) (now : Z) : Db :=
  fold_left (λ db token, renew_lease token now db) tokens db.

(** ** Completing *)

(** The text of [/body/group_event_seq], or the sequence kept with the row. *)
Definition logical_sequence (claim : InputClaim) : option string :=
  match pointer (ic_payload claim) ["body"; "group_event_seq"]%string with
  | Some (VString s) => Some s
  | Some (VNumber (PosInt n)) => Some (u64_to_string n)
  | _ => ic_logical_event_seq claim
  end.

(** The [CHECK]s and secondary unique constraints of [sync_lane_applied_events]. *)
Definition lane_applied_ok (t : list LaneAppliedRow) (r : LaneAppliedRow) : bool :=
  bool_decide (la_lane r ∈ ["p5_device"; "p6_group"]%string) && not_blank (la_event_id r)
  && positive_decimal (la_stream_epoch r) && positive_decimal (la_event_seq r)
  && match la_group_did r, la_group_event_seq r with
     | None, None => true
     | Some did, seq =>
         bool_decide (la_lane r = "p6_group"%string) && not_blank did
         && from_option positive_decimal true seq
     | None, Some _ => false
     end
  && negb (exists_where
             (λ x, bool_decide (la_owner x = la_owner r) && bool_decide (la_lane x = la_lane r)
                   && ((bool_decide (la_stream_epoch x = la_stream_epoch r)
                        && bool_decide (la_event_seq x = la_event_seq r))
                       || (bool_decide (la_lane r = "p6_group"%string)
                           && bool_decide (is_Some (la_group_event_seq r))
                           && bool_decide (is_Some (la_group_did r))
                           && bool_decide (la_group_did x = la_group_did r)
                           && bool_decide (la_group_event_seq x = la_group_event_seq r)))) t).

Definition record_completion (db : Db) (claim : InputClaim) (hash : string) (now : Z)
    : ImResult Db :=
  if is_ordinary_or_baseline (ic_lane claim) then
    Ok (with_applied
          (update_where
             (λ r, bool_decide (ae_owner (ar_receipt r) = ic_owner claim)
                   && bool_decide (ae_event_id (ar_receipt r) = ic_event_id claim))
             (λ r, mkAppliedRow (ar_receipt r) (Some hash)) (db_applied db)) db)
  else
    let same := λ r, bool_decide (la_owner r = ic_owner claim)
                     && bool_decide (la_lane r = ic_lane claim)
                     && bool_decide (la_event_id r = ic_event_id claim) in
    let row := mkLaneApplied (ic_owner claim) (ic_lane claim) (ic_event_id claim)
      (ic_lane_epoch claim) (ic_position claim) (ic_group_did claim)
      (logical_sequence claim) now (Some hash) in
    if exists_where same (db_lane_applied db) then
      Ok (with_lane_applied
            (update_where same
               (λ r, mkLaneApplied (la_owner r) (la_lane r) (la_event_id r)
                       (la_stream_epoch r) (la_event_seq r) (la_group_did r)
                       (la_group_event_seq r) (la_applied_at r) (Some hash))
               (db_lane_applied db)) db)
    else if owner_bound db (ic_owner claim) && lane_applied_ok (db_lane_applied db) row then
      Ok (with_lane_applied (db_lane_applied db ++ [row]) db)
    else constraint_failed.

(** Inputs of the same scope that were waiting for the completed one. *)
Definition waits_for (scope : option string) (claim : InputClaim) (r : InboxRow) : bool :=
  bool_decide (in_owner r = ic_owner claim)
  && negb (bool_decide (in_input_id r = ic_input_id claim))
  && bool_decide (in_closed_at r = None) && bool_decide (in_attempt_token r = None)
  && bool_decide (Some (in_scope r) = scope)
  && bool_decide (in_error_code r ∈
       (Some <$> ["p5.session_pending"; "anp.direct.e2ee.max_skip_exceeded";
                  "group.e2ee.epoch_conflict"; "group.e2ee.state_not_ready"]%string)).

Definition complete_claim (db : Db) (claim : InputClaim) (now : Z) : ImResult Db :=
  _ ← require_claim db claim now;
  hash ← payload_hash (ic_lane claim) (ic_payload claim);
  db1 ← record_completion db claim hash now;
  let scope := in_scope <$>
    head (select_where (λ r, bool_decide (in_input_id r = ic_input_id claim)) (db_inbox db1)) in
  let db2 :=
    if bool_decide (ic_lane claim ∈ ["p5_device"; "p6_group"]%string) then
      update_inbox (waits_for scope claim)
        (λ r, in_set r (in_closed_at r) (in_attempt_count r) (in_attempt_token r)
                (in_attempt_deadline r) (in_last_attempt_at r) (Some now) (in_error_code r)) db1
    else db1 in
  Ok (with_inbox (delete_where (claim_row claim) (db_inbox db2)) db2).

Definition claim_was_completed (db : Db) (claim : InputClaim) : ImResult bool :=
  hash ← payload_hash (ic_lane claim) (ic_payload claim);
  Ok (bool_decide (receipt_hash db (ic_owner claim) (ic_lane claim) (ic_lane_epoch claim)
                     (ic_event_id claim) = Some hash)).

(** ** Applying an ordinary claim *)

(** What the transaction checks of the reducer's input ([DeltaApplyInputV2]); the
    projected facts are [da_body]. *)
Record DeltaApplyInput (B : Type) := mkDeltaApply {
  da_owner : string;
  da_owner_did : string;
  da_account : string;
  da_device : string;
  da_auth_generation : string;
  da_stream_epoch : string;
  da_events : list (string * string * string);
  da_body : B }.
#[global] Arguments da_owner {B} _.
#[global] Arguments da_owner_did {B} _.
#[global] Arguments da_account {B} _.
#[global] Arguments da_device {B} _.
#[global] Arguments da_auth_generation {B} _.
#[global] Arguments da_stream_epoch {B} _.
#[global] Arguments da_events {B} _.
#[global] Arguments da_body {B} _.

Definition apply_matches {B} (claim : InputClaim) (input : DeltaApplyInput B) : bool :=
  bool_decide (ic_lane claim = "ordinary"%string)
  && bool_decide (da_owner input = ic_owner claim)
  && bool_decide (da_events input =
       [(ic_event_id claim, ic_position claim, ic_event_type claim)])
  && bool_decide (da_stream_epoch input = ic_lane_epoch claim)
  && bool_decide (da_owner_did input = ic_owner_did claim)
  && bool_decide (da_account input = ic_account claim)
  && bool_decide (da_device input = ic_device claim)
  && bool_decide (da_auth_generation input = ic_auth_generation claim).

Definition baseline_pending (db : Db) (owner : string) (now : Z) : bool :=
  exists_where
    (λ r, bool_decide (in_owner r = owner) && bool_decide (in_lane r = "baseline"%string)
          && bool_decide (in_closed_at r = None)
          && (i64_saturating_sub now RETENTION_SECONDS <? in_created_at r)) (db_inbox db).

(** The reducer and the caller's commit action run inside the transaction; both
    are arguments, as [commit_domain] is in the source. *)
Definition apply_ordinary_claim_with {B O} (db : Db) (claim : InputClaim)
    (input : DeltaApplyInput B) (now : Z)
    (apply_delta_events : Db → DeltaApplyInput B → ImResult (O * Db))
    (commit_domain : Db → ImResult Db) : ImResult (O * Db) :=
  if negb (apply_matches claim input) then
    input_conflict "business result does not match its claimed input"
  else
    _ ← require_claim db claim now;
    if baseline_pending db (ic_owner claim) now then
      Err (sync_error "sync.baseline_pending"
             "ordinary projection awaits local baseline replacement")
    else
      outcome ← apply_delta_events db input;
      db2 ← commit_domain outcome.2;
      db3 ← complete_claim db2 claim now;
      Ok (outcome.1, db3).

(** ** Inspection and manual retry *)

Definition processing_summary (db : Db) (owner : string) (now : Z) : ProcessingSummary :=
  let open := select_where
    (λ r, bool_decide (in_owner r = owner) && bool_decide (in_closed_at r = None))
    (db_inbox db) in
  let count p := Z.of_nat (count_where p open) in
  mkSummary (Z.of_nat (length open))
    (count (λ r, bool_decide (is_Some (in_attempt_token r))))
    (count (λ r, bool_decide (in_next_attempt_at r = None)
                 && bool_decide (in_attempt_token r = None)))
    (sql_min ((λ r, match in_next_attempt_at r with
                        | Some t => if now <? t then Some t else None
                        | None => None
                        end) <$> open))
    (sql_min_text ((λ r, match in_next_attempt_at r with
                         | Some _ => None
                         | None => in_error_code r
                         end) <$> open)).

Definition retry_event (db : Db) (owner event_id : string) (now : Z) : ImResult (Z * Db) :=
  if is_empty event_id || negb (bool_decide (trim event_id = event_id)) then
    Err (invalid_input (Some "event_id"%string)
           "processing event id must be a non-empty canonical string")
  else
    let p := λ r, bool_decide (in_owner r = owner) && bool_decide (in_event_id r = event_id)
                  && bool_decide (in_closed_at r = None)
                  && bool_decide (in_attempt_token r = None)
                  && (i64_saturating_sub now RETENTION_SECONDS <? in_created_at r) in
    Ok (Z.min u32_max (Z.of_nat (count_where p (db_inbox db))),
        update_inbox p
          (λ r, in_set r (in_closed_at r) (in_attempt_count r) (in_attempt_token r)
                  (in_attempt_deadline r) (in_last_attempt_at r) (Some now) None) db).

(** [ORDER BY (next_attempt_at IS NOT NULL), created_at, input_id]. *)
Definition blocked_first_le (r r' : InboxRow) : Prop :=
  let b x := bool_decide (is_Some (in_next_attempt_at x)) in
  (b r = false ∧ b r' = true) ∨ (b r = b r' ∧ oldest_le r r').
#[export] Instance blocked_first_le_dec r r' : Decision (blocked_first_le r r').
Proof. unfold blocked_first_le. apply _. Defined.

Definition pending_updates {M} (db : Db) (owner : string) (limit now : Z)
    : ImResult (list (MessageProcessingUpdate M)) :=
  if (limit =? 0) || (256 <? limit) then
    Err (invalid_input (Some "limit"%string)
           "pending processing limit must be between 1 and 256")
  else
    Ok ((λ r, {| up_event_id := in_event_id r;
                 up_status := match in_next_attempt_at r with
                              | None => Blocked
                              | Some _ => Retrying
                              end;
                 up_changed_conversation_ids := [];
                 up_committed_incoming_messages := [];
                 up_error_code := in_error_code r |}) <$>
        order_limit blocked_first_le limit
          (select_where
             (λ r, bool_decide (in_owner r = owner) && bool_decide (in_closed_at r = None)
                   && (i64_saturating_sub now RETENTION_SECONDS <? in_created_at r))
             (db_inbox db))).

Inductive SyncLaneV3 : Type := P5Device | P6Group.

Record SyncLaneInboxRecord := mkSecureInput {
  si_input_id : string;
  si_owner : string;
  si_lane : SyncLaneV3;
  si_lane_epoch : string;
  si_position : string;
  si_event_id : string;
  si_event_type : string;
  si_raw_payload : Value;
  si_group_did : option string;
  si_received_at : string;
  si_source_created_at : option string;
  si_source_expires_at : option string }.

Definition secure_input (claim : InputClaim) : ImResult SyncLaneInboxRecord :=
  lane ← (if bool_decide (ic_lane claim = "p5_device"%string) then Ok P5Device
          else if bool_decide (ic_lane claim = "p6_group"%string) then Ok P6Group
          else Err (sync_error "SYNC_INPUT_TYPE_INVALID"
                      "ordinary input is not a secure lane"));
  Ok (mkSecureInput (ic_input_id claim) (ic_owner claim) lane (ic_lane_epoch claim)
        (ic_position claim) (ic_event_id claim) (ic_event_type claim) (ic_payload claim)
        (ic_group_did claim) (ic_received_at claim) (ic_source_created_at claim)
        (ic_source_expires_at claim)).
End queue.
