(* ===== verification/InboxProps.v ===== *)
(** * Correctness of the receive queue

    The invariant of [sync_lane_inbox] and [sync_input_leases] and what each
    operation of [Inbox] does: bounded leases and records, fenced claims, durable
    receipt of a page before its cursor, and retention. *)

From S2P Require Import Prelude RustStr ImError Decimal Dto Store SyncStore Inbox.
Local Open Scope Z_scope.

(** ** The invariant *)

Definition event_key (r : InboxRow) : string * string * string * string :=
  (in_owner r, in_lane r, in_lane_epoch r, in_event_id r).
Definition position_key (r : InboxRow) : string * string * string * string :=
  (in_owner r, in_lane r, in_lane_epoch r, in_position r).

Record inbox_wf (t : list InboxRow) : Prop := {
  ix_ids : NoDup (in_input_id <$> t);
  ix_events : NoDup (event_key <$> t);
  ix_positions : NoDup (position_key <$> t);
  ix_attempts : ∀ r, r ∈ t → is_Some (in_attempt_token r) ↔ is_Some (in_attempt_deadline r) }.

Record queue_wf (db : Db) : Prop := {
  qw_inbox : inbox_wf (db_inbox db);
  qw_leases : Z.of_nat (size (db_leases db)) ≤ MAX_ACTIVE_INPUTS;
  qw_records : Z.of_nat (length (db_inbox db)) ≤ MAX_INBOX_RECORDS }.

(** The columns no processing attempt changes. *)
Definition in_ident (r : InboxRow) :=
  (in_input_id r, event_key r, in_position r, in_payload r, in_created_at r, in_scope r).

Lemma in_set_ident r cl n tk dl la nx er : in_ident (in_set r cl n tk dl la nx er) = in_ident r.
Proof. done. Qed.

Lemma same_event_true o l e i r : same_event o l e i r = true ↔ event_key r = (o, l, e, i).
Proof.
  unfold same_event, event_key. rewrite !andb_true_iff, !bool_decide_eq_true.
  split; [by intros [[[-> ->] ->] ->]|by intros [= -> -> -> ->]].
Qed.

Lemma same_position_true o l e i r :
  same_position o l e i r = true ↔ position_key r = (o, l, e, i).
Proof.
  unfold same_position, position_key. rewrite !andb_true_iff, !bool_decide_eq_true.
  split; [by intros [[[-> ->] ->] ->]|by intros [= -> -> -> ->]].
Qed.

Section update.
Context (t : list InboxRow) (p : InboxRow → bool) (f : InboxRow → InboxRow).
Hypothesis Hident : ∀ r, in_ident (f r) = in_ident r.

Lemma in_ident_ids r :
  in_input_id (f r) = in_input_id r ∧ event_key (f r) = event_key r ∧
  position_key (f r) = position_key r.
Proof using Hident.
  split_and!; [exact (f_equal (λ x, x.1.1.1.1.1) (Hident r))
              |exact (f_equal (λ x, x.1.1.1.1.2) (Hident r))
              |exact (f_equal (λ x, (x.1.1.1.1.2.1, x.1.1.1.2)) (Hident r))].
Qed.

Lemma inbox_update_wf :
  inbox_wf t →
  (∀ r, r ∈ t → p r = true →
     is_Some (in_attempt_token (f r)) ↔ is_Some (in_attempt_deadline (f r))) →
  inbox_wf (update_where p f t).
Proof using Hident.
  intros [H1 H2 H4 H3] Hf. split.
  - rewrite map_update_where; [done|]. intros r _ _. apply in_ident_ids.
  - rewrite map_update_where; [done|]. intros r _ _. apply in_ident_ids.
  - rewrite map_update_where; [done|]. intros r _ _. apply in_ident_ids.
  - intros r (r0 & Hr0 & ->)%elem_of_update_where. destruct (p r0) eqn:E; [by apply Hf|].
    by apply H3.
Qed.
End update.

Lemma update_inbox_queue_wf p f db :
  (∀ r, in_ident (f r) = in_ident r) →
  (∀ r, r ∈ db_inbox db → p r = true →
     is_Some (in_attempt_token (f r)) ↔ is_Some (in_attempt_deadline (f r))) →
  queue_wf db → queue_wf (update_inbox p f db).
Proof.
  intros Hid Hf [H1 H2 H3]. split; simpl; [by apply inbox_update_wf|done|].
  by rewrite length_update_where.
Qed.

Lemma inbox_sublist_wf t t' : t' `sublist_of` t → inbox_wf t → inbox_wf t'.
Proof.
  intros Hs [H1 H2 H4 H3]. split.
  - eapply sublist_NoDup; [exact H1|by apply fmap_sublist].
  - eapply sublist_NoDup; [exact H2|by apply fmap_sublist].
  - eapply sublist_NoDup; [exact H4|by apply fmap_sublist].
  - intros r Hr. apply H3. by eapply elem_of_sublist.
Qed.

Lemma delete_inbox_queue_wf p db :
  queue_wf db → queue_wf (with_inbox (delete_where p (db_inbox db)) db).
Proof.
  intros [H1 H2 H3]. split; simpl; [|done|].
  - eapply inbox_sublist_wf; [apply sublist_delete_where|done].
  - pose proof (length_delete_select p (db_inbox db)). lia.
Qed.

(** ** Retention *)

#[export] Instance oldest_le_trans : Transitive oldest_le.
Proof.
  intros a b c [?|[??]] [?|[??]]; unfold oldest_le in *; [left; lia..|].
  right. split; [lia|]. by etrans.
Qed.
#[export] Instance oldest_le_total : Total oldest_le.
Proof.
  intros a b. unfold oldest_le.
  destruct (Z.lt_total (in_created_at a) (in_created_at b)) as [?|[?|?]]; [eauto| |eauto].
  destruct (total str_le (in_input_id a) (in_input_id b)); [left|right]; right; done.
Qed.

(** What [delete_oldest] removes and keeps. *)
Record removed_oldest (t : list InboxRow) (cutoff : option Z) (limit : Z)
    (removed : list RemovedInput) (t' : list InboxRow) : Prop := {
  ro_sublist : t' `sublist_of` t;
  ro_partition : ∀ r, r ∈ t → r ∈ t' ∨ (r ∉ t' ∧ removed_of r ∈ removed);
  ro_count : (length t' + length removed = length t)%nat;
  ro_limit : Z.of_nat (length removed) ≤ limit;
  ro_cutoff : ∀ r c, r ∈ t → r ∉ t' → cutoff = Some c → in_created_at r ≤ c;
  ro_oldest : ∀ r r', r ∈ t → r ∉ t' → r' ∈ t' →
    (∀ c, cutoff = Some c → in_created_at r' ≤ c) → oldest_le r r';
  ro_full : (∀ c, cutoff = Some c → ∀ r, r ∈ t → in_created_at r ≤ c) →
    Z.of_nat (length removed) = Z.min limit (Z.of_nat (length t)) }.

Lemma oldest_rows_elem t cutoff limit r :
  r ∈ oldest_rows t cutoff limit →
  r ∈ t ∧ ∀ c, cutoff = Some c → in_created_at r ≤ c.
Proof.
  unfold oldest_rows. intros Hr%order_limit_sub. apply elem_of_select_where in Hr as [? Hc].
  split; [done|]. intros c ->. by apply Z.leb_le.
Qed.

Lemma delete_oldest_spec db cutoff limit removed db' :
  inbox_wf (db_inbox db) → 0 ≤ limit → delete_oldest db cutoff limit = (removed, db') →
  db' = with_inbox (db_inbox db') db ∧
  removed_oldest (db_inbox db) cutoff limit removed (db_inbox db').
Proof.
  intros Hwf Hl [= <- <-]. split; [done|]. simpl. set (t := db_inbox db) in *.
  set (victims := oldest_rows t cutoff limit).
  assert (NoDup victims) as Hnd.
  { unfold victims, oldest_rows, order_limit. eapply sublist_NoDup; [|apply sublist_take].
    rewrite merge_sort_Permutation. apply NoDup_filter. exact (NoDup_fmap_1 _ _ (ix_ids _ Hwf)). }
  rewrite (fold_delete_where (λ item r, bool_decide (in_input_id r = rm_input_id item)
     && bool_decide (in_owner r = rm_owner item))).
  destruct (delete_victims (λ r, (in_input_id r, in_owner r))
    (λ v r, bool_decide (in_input_id r = in_input_id v)
            && bool_decide (in_owner r = in_owner v)) victims t) as (Hel & Hlen & Hpart).
  { apply (NoDup_fmap_1 fst). rewrite <-list_fmap_compose. apply Hwf. }
  { done. }
  { intros v (?&_)%oldest_rows_elem. done. }
  { intros v r. rewrite andb_true_iff, !bool_decide_eq_true.
    split; [by intros [-> ->]|by intros [= -> ->]]. }
  set (t' := delete_where _ t) in Hel, Hlen, Hpart.
  match goal with |- removed_oldest _ _ _ _ ?u => replace u with t' end.
  2: { unfold t', delete_where. apply list_filter_iff. intros r. by rewrite existsb_fmap. }
  assert (∀ r, r ∈ t → r ∉ t' → r ∈ victims) as Hgone.
  { intros r Hr Hn. by destruct (Hpart r Hr). }
  split.
  - apply sublist_delete_where.
  - intros r Hr. destruct (Hpart r Hr); [by left|right].
    split; [by intros [_ ?]%Hel|by apply list_elem_of_fmap_2].
  - by rewrite length_fmap.
  - rewrite length_fmap. unfold victims, oldest_rows. rewrite order_limit_length by done. lia.
  - intros r c Hr Hn ->. by apply (oldest_rows_elem t (Some c) limit r (Hgone r Hr Hn)).
  - intros r r' Hr Hn [Hr' Hnv]%Hel Hc. specialize (Hgone r Hr Hn).
    unfold victims, oldest_rows in *. eapply order_limit_first; [apply _|apply _|done| |done].
    apply elem_of_select_where. split; [done|]. destruct cutoff; [|done].
    apply Z.leb_le. by apply Hc.
  - intros Hall. rewrite length_fmap. unfold victims, oldest_rows.
    rewrite order_limit_length by done.
    assert (select_where (λ r, match cutoff with
      | Some c => in_created_at r <=? c | None => true end) t = t) as ->; [|lia].
    unfold select_where. clear -Hall. induction t as [|r t IH]; [done|].
    rewrite filter_cons, decide_True.
    + f_equal. apply IH. intros c Hc r' Hr'. apply (Hall c Hc). by right.
    + destruct cutoff as [c|]; [|done]. apply Z.leb_le, (Hall c eq_refl). left.
Qed.

Lemma removed_oldest_wf t c l rm t' :
  removed_oldest t c l rm t' → inbox_wf t → inbox_wf t'.
Proof. intros [] ?. by eapply inbox_sublist_wf. Qed.

(** ** Making room *)

Lemma make_room_frame db additional now removed db' :
  make_room db additional now = Ok (removed, db') → db' = with_inbox (db_inbox db') db.
Proof.
  unfold make_room, make_room_with_limit, delete_oldest. intros Hr. res_inv. destruct (_ && _); by simplify_eq.
Qed.

Lemma make_room_spec db additional now removed db' :
  inbox_wf (db_inbox db) → Z.of_nat (length (db_inbox db)) ≤ MAX_INBOX_RECORDS →
  0 ≤ additional → make_room db additional now = Ok (removed, db') →
  db' = with_inbox (db_inbox db') db ∧ inbox_wf (db_inbox db') ∧
  db_inbox db' `sublist_of` db_inbox db ∧
  Z.of_nat (length (db_inbox db')) + additional ≤ MAX_INBOX_RECORDS ∧
  (∀ r, r ∈ db_inbox db → r ∈ db_inbox db' ∨ removed_of r ∈ removed) ∧
  (∀ r, r ∈ db_inbox db → r ∉ db_inbox db' →
     in_created_at r ≤ i64_saturating_sub now RETENTION_SECONDS ∨
     ∀ r', r' ∈ db_inbox db' → oldest_le r r').
Proof.
  intros Hwf Hmax Hadd H. unfold make_room, make_room_with_limit in H.
  destruct (_ || _) eqn:E in H; [done|]. bool_hyps.
  destruct (delete_oldest db _ _) as [rm1 db1] eqn:E1 in H.
  apply delete_oldest_spec in E1 as [F1 S1]; [|done|done].
  pose proof (removed_oldest_wf _ _ _ _ _ S1 Hwf) as Hwf1. cbn [fst snd] in H.
  pose proof (ro_count _ _ _ _ _ S1) as C1.
  set (n := Z.of_nat (length (db_inbox db1))) in *.
  assert (0 ≤ n ≤ MAX_INBOX_RECORDS) as Hn by (unfold n; lia).
  assert (i64_saturating_sub (i64_saturating_add n additional) MAX_INBOX_RECORDS
    = n + additional - MAX_INBOX_RECORDS) as Hsat.
  { unfold i64_saturating_sub, i64_saturating_add, MAX_INBOX_RECORDS in *.
    rewrite (clamp_i64_id (n + additional)); [apply clamp_i64_id|];
      unfold is_i64, i64_min, i64_max; lia. }
  rewrite Hsat in H. destruct (_ && _) eqn:Ea in H.
  - bool_hyps. destruct (delete_oldest db1 _ _) as [rm2 db2] eqn:E2 in H.
    apply delete_oldest_spec in E2 as [F2 S2]; [|done|lia]. res_inv. cbn [fst snd] in *.
    pose proof (ro_count _ _ _ _ _ S2) as C2.
    pose proof (ro_full _ _ _ _ _ S2 ltac:(done)) as L2.
    split_and!.
    + rewrite F2, F1. done.
    + by eapply removed_oldest_wf.
    + etrans; [apply S2|apply S1].
    + fold n in L2. unfold n in *. lia.
    + intros r Hr. rewrite elem_of_app. destruct (ro_partition _ _ _ _ _ S1 r Hr) as [Hr1|[_ ?]];
        [|by eauto]. destruct (ro_partition _ _ _ _ _ S2 r Hr1) as [?|[_ ?]]; eauto.
    + intros r Hr Hn'. destruct (ro_partition _ _ _ _ _ S1 r Hr) as [Hr1|[Hout _]].
      * right. intros r' Hr'. by apply (ro_oldest _ _ _ _ _ S2).
      * left. by apply (ro_cutoff _ _ _ _ _ S1 r _ Hr Hout).
  - res_inv. split_and!; try done; [apply S1| | |].
    + apply andb_false_iff in Ea as [Ea|Ea]; bool_hyps; unfold n in *; lia.
    + intros r Hr. destruct (ro_partition _ _ _ _ _ S1 r Hr) as [?|[_ ?]]; eauto.
    + intros r Hr Hn'. left. by apply (ro_cutoff _ _ _ _ _ S1 r _ Hr Hn').
Qed.

(** ** Receiving *)

(** Writing the inbox or the leases does not touch what [store_wf] reads. *)
Lemma with_inbox_store_wf t db : store_wf db → store_wf (with_inbox t db).
Proof. intros []. by split. Qed.

Section queue.
Context `{QueueCodec}.

Lemma insert_input_inv db b inst lane epoch ev now db' :
  insert_input db b inst lane epoch ev now = Ok db' →
  ∃ row, db' = with_inbox (db_inbox db ++ [row]) db ∧
    event_key row = (ib_owner b, lane, epoch, ev_event_id ev) ∧
    in_position row = ev_position ev ∧ in_payload row = ev_payload ev ∧
    in_created_at row = now ∧ in_attempt_token row = None ∧ in_attempt_deadline row = None ∧
    inbox_collides (db_inbox db) row = false.
Proof.
  unfold insert_input, constraint_failed. intros Hi. res_inv.
  eexists. split; [reflexivity|]. simpl. split_and!; try done. by bool_hyps.
Qed.

Lemma NoDup_fmap_snoc {K} (key : InboxRow → K) t row :
  NoDup (key <$> t) → (∀ r, r ∈ t → key r ≠ key row) → NoDup (key <$> t ++ [row]).
Proof.
  intros Hn Hne. rewrite fmap_app. apply NoDup_app. split_and!; [done| |apply NoDup_singleton].
  intros k (r & -> & Hr)%list_elem_of_fmap E%list_elem_of_singleton. by apply (Hne r Hr).
Qed.

Lemma insert_inbox_wf t row :
  inbox_wf t → inbox_collides t row = false →
  (is_Some (in_attempt_token row) ↔ is_Some (in_attempt_deadline row)) →
  inbox_wf (t ++ [row]).
Proof.
  intros [H1 H2 H4 H3] Hc Ha. unfold inbox_collides in Hc. rewrite exists_where_false in Hc.
  split; [apply NoDup_fmap_snoc; [done|]; intros r Hr E; specialize (Hc r Hr);
          rewrite !orb_false_iff in Hc; destruct Hc as [[Hi He] Hp]..|].
  - by rewrite bool_decide_eq_true_2 in Hi.
  - by rewrite (proj2 (same_event_true _ _ _ _ r) E) in He.
  - by rewrite (proj2 (same_position_true _ _ _ _ r) E) in Hp.
  - intros r [Hr| ->%list_elem_of_singleton]%elem_of_app; [by apply H3|done].
Qed.

(** Inserting pending events one after another, each on its lane. *)
Lemma insert_items_spec b inst epoch now (items : list (string * InboxEvent)) db db' :
  try_fold (λ db item, insert_input db b inst item.1 epoch item.2 now) db items = Ok db' →
  inbox_wf (db_inbox db) →
  db' = with_inbox (db_inbox db') db ∧ inbox_wf (db_inbox db') ∧
  (∀ r, r ∈ db_inbox db → r ∈ db_inbox db') ∧
  length (db_inbox db') = (length (db_inbox db) + length items)%nat ∧
  (∀ lane ev, (lane, ev) ∈ items → ∃ r, r ∈ db_inbox db' ∧
     event_key r = (ib_owner b, lane, epoch, ev_event_id ev) ∧
     in_position r = ev_position ev ∧ in_payload r = ev_payload ev).
Proof.
  revert db. induction items as [|[lane ev] items IH]; intros db Hf Hwf; simpl in Hf.
  { res_inv. split_and!; [by destruct db'|done|done|simpl; lia|]. intros ? ? []%elem_of_nil. }
  res_inv. match goal with H : insert_input _ _ _ _ _ _ _ = _ |- _ =>
    apply insert_input_inv in H as (row & -> & Hk & Hp & Hpl & _ & Ht & Hd & Hc) end.
  match goal with H : try_fold _ _ _ = _ |- _ => apply IH in H as (Fr & Hwf' & Hkeep & Hlen & Hev) end.
  2: { simpl. apply insert_inbox_wf; [done|done|]. rewrite Ht, Hd. done. }
  simpl in *. split_and!; try done.
  - intros r Hr. apply Hkeep, elem_of_app. by left.
  - rewrite Hlen, length_app. simpl. lia.
  - intros l e [[= -> ->]|He]%elem_of_cons; [|by apply Hev]. exists row. split_and!; try done.
    apply Hkeep, elem_of_app. right. by left.
Qed.

Lemma insert_all_spec b inst epoch now evs db db' :
  try_fold (λ db ev, insert_input db b inst "ordinary" epoch ev now) db evs = Ok db' →
  inbox_wf (db_inbox db) →
  db' = with_inbox (db_inbox db') db ∧ inbox_wf (db_inbox db') ∧
  (∀ r, r ∈ db_inbox db → r ∈ db_inbox db') ∧
  length (db_inbox db') = (length (db_inbox db) + length evs)%nat ∧
  (∀ ev, ev ∈ evs → ∃ r, r ∈ db_inbox db' ∧
     event_key r = (ib_owner b, "ordinary", epoch, ev_event_id ev)%string ∧
     in_position r = ev_position ev ∧ in_payload r = ev_payload ev).
Proof.
  intros Hf Hwf. rewrite <-(try_fold_fmap (λ ev, ("ordinary"%string, ev))
    (λ db item, insert_input db b inst item.1 epoch item.2 now)) in Hf.
  apply insert_items_spec in Hf as (? & ? & ? & Hl & Hev); [|done].
  rewrite length_fmap in Hl. split_and!; try done.
  intros ev He. apply Hev, list_elem_of_fmap. by exists ev.
Qed.

(** What makes a redelivered event a duplicate: a stored copy or a receipt with
    the same digest. *)
Definition stored_copy (t : list InboxRow) (owner lane epoch : string) (ev : InboxEvent)
    (r : InboxRow) : Prop :=
  r ∈ t ∧ event_key r = (owner, lane, epoch, ev_event_id ev) ∧
  in_position r = ev_position ev ∧
  ∃ h, payload_hash lane (in_payload r) = Ok h ∧ payload_hash lane (ev_payload ev) = Ok h.

Lemma input_is_duplicate_true db owner lane epoch ev :
  input_is_duplicate db owner lane epoch ev = Ok true →
  (∃ r, stored_copy (db_inbox db) owner lane epoch ev r) ∨
  (∃ h, receipt_hash db owner lane epoch (ev_event_id ev) = Some h ∧
        payload_hash lane (ev_payload ev) = Ok h).
Proof.
  unfold input_is_duplicate, input_conflict. intros Hd.
  destruct (head _) as [r|] eqn:E.
  - left. exists r. apply head_Some_elem_of, elem_of_select_where in E as [Hr Hk%same_event_true].
    res_inv. bool_hyps. subst. split_and!; try done. eauto.
  - right. destruct (exists_where _ _); [done|].
    destruct (receipt_hash _ _ _ _ _) as [h|]; [|done]. res_inv. bool_hyps. subst. eauto.
Qed.

Lemma receive_loop_spec db input evs s s' :
  try_fold (receive_event db input) s evs = Ok s' →
  (∃ l, rl_pending s' = rl_pending s ++ l ∧ (∀ ev, ev ∈ l → ev ∈ evs)) ∧
  rl_duplicates s' + Z.of_nat (length (rl_pending s')) =
    rl_duplicates s + Z.of_nat (length (rl_pending s)) + Z.of_nat (length evs) ∧
  (∀ ev, ev ∈ evs → ev ∈ rl_pending s' ∨
     input_is_duplicate db (ib_owner (rb_binding input)) "ordinary" (rb_stream_epoch input) ev
       = Ok true).
Proof.
  revert s. induction evs as [|ev evs IH]; intros s Hf; simpl in Hf.
  { res_inv. split_and!; [|simpl; lia|intros ? []%elem_of_nil].
    exists []. rewrite app_nil_r. split; [done|]. intros ? []%elem_of_nil. }
  res_inv. match goal with H : receive_event _ _ _ _ = _ |- _ => rename H into Hev end.
  unfold receive_event, invalid_page, input_incomplete in Hev. res_inv.
  match goal with H : try_fold _ _ _ = _ |- _ => apply IH in H as ((l & El & Hl) & Hn & Hd) end.
  simpl in *. match goal with H : input_is_duplicate _ _ _ _ _ = Ok ?d |- _ =>
    rename d into dup; rename H into Hdup end.
  split_and!.
  - destruct dup; [exists l|exists (ev :: l)]; rewrite El, <-?app_assoc; (split; [done|]).
    + intros e He. right. by apply Hl.
    + intros e [->|He]%elem_of_cons; [left|right; by apply Hl].
  - destruct dup; [|rewrite length_app in Hn; simpl in Hn]; lia.
  - intros e [->|He]%elem_of_cons; [|by apply Hd].
    destruct dup; [by right|left]. rewrite El, !elem_of_app. left. right. by left.
Qed.

(** A page that is committed: every event is durable, the cursor is behind it. *)
Record received (db : Db) (input : OrdinaryReceiveBatch) (now : Z)
    (out : ReceiveOutcome) (db' : Db) : Prop := {
  rc_count : rv_received out + rv_duplicates out = Z.of_nat (length (rb_events input));
  rc_cursor : ∃ s, load_message_sync_state db' (ib_owner (rb_binding input)) = Ok (Ready s) ∧
    ms_scan_seq s = rb_next_scan_seq input ∧ ms_stream_epoch s = rb_stream_epoch input;
  rc_durable : ∀ ev, ev ∈ rb_events input →
    (∃ r, stored_copy (db_inbox db') (ib_owner (rb_binding input)) "ordinary"
            (rb_stream_epoch input) ev r) ∨
    (∃ r, stored_copy (db_inbox db) (ib_owner (rb_binding input)) "ordinary"
            (rb_stream_epoch input) ev r ∧ removed_of r ∈ rv_removed out) ∨
    (∃ r, r ∈ db_inbox db' ∧ event_key r =
         (ib_owner (rb_binding input), "ordinary", rb_stream_epoch input, ev_event_id ev)%string ∧
       in_payload r = ev_payload ev) ∨
    (∃ h, receipt_hash db' (ib_owner (rb_binding input)) "ordinary" (rb_stream_epoch input)
            (ev_event_id ev) = Some h ∧ payload_hash "ordinary" (ev_payload ev) = Ok h);
  rc_kept : ∀ r, r ∈ db_inbox db → r ∈ db_inbox db' ∨ removed_of r ∈ rv_removed out;
  rc_frame : db' = with_inbox (db_inbox db')
                     (with_message_states (db_message_states db') db) }.

Lemma receive_ordinary_inv db input now out db' :
  receive_ordinary db input now = Ok (out, db') →
  ∃ cur loop room db1 next a,
    load_message_sync_state db (ib_owner (rb_binding input)) = Ok (Ready cur) ∧
    ms_stream_epoch cur = rb_stream_epoch input ∧
    try_fold (receive_event db input) (mkReceiveLoop [] [] [] 0) (rb_events input) = Ok loop ∧
    make_room db (Z.of_nat (length (rl_pending loop))) now = Ok room ∧
    try_fold (λ db ev, insert_input db (rb_binding input) (rb_client_instance_id input)
       "ordinary" (rb_stream_epoch input) ev now) room.2 (rl_pending loop) = Ok db1 ∧
    advance_message_sync_state db1 next = Ok (Ready a, db') ∧
    ms_owner next = ms_owner cur ∧ ms_stream_epoch next = ms_stream_epoch cur ∧
    ms_scan_seq next = rb_next_scan_seq input ∧
    out = mkReceiveOutcome (Z.of_nat (length (rl_pending loop))) (rl_duplicates loop) room.1.
Proof.
  unfold receive_ordinary, receive_superseded. intros Hr. res_inv.
  match goal with H : load_message_sync_state _ _ = Ok ?acc |- _ =>
    destruct acc as [cur|]; [|done] end.
  destruct (_ || _) eqn:Eg; [done|]. res_inv. bool_hyps.
  match goal with H : advance_message_sync_state _ _ = Ok ?adv |- _ =>
    destruct adv as [[a|] db2]; [|done] end. simpl in *. simplify_eq.
  eexists cur, _, _, _, _, _. split_and!; try done.
Qed.

Lemma received_spec db input now out db' :
  store_wf db → queue_wf db → receive_ordinary db input now = Ok (out, db') →
  received db input now out db' ∧ queue_wf db' ∧ store_wf db'.
Proof.
  intros Hsw Hqw Hr.
  apply receive_ordinary_inv in Hr
    as (cur & loop & [rm db0] & db1 & next & a & Hl & He & Hloop & Hroom & Hins & Hadv & Ho & Hep & Hsq & ->).
  apply make_room_spec in Hroom as (F0 & Hwf0 & Hsub0 & Hcap & Hpart0 & _);
    [|apply Hqw|apply Hqw|lia]. cbn [fst snd] in *.
  apply insert_all_spec in Hins as (F1 & Hwf1 & Hkeep & Hlen & Hevs); [|done].
  assert (store_wf db1) as Hsw1.
  { rewrite F1, F0. do 2 apply with_inbox_store_wf. done. }
  pose proof (advance_wf _ _ _ _ Hsw1 Hadv) as Hsw2.
  pose proof Hl as Hl'. apply load_message_sync_state_Ready in Hl' as (Hcur & b & Hb & Ha & Hd & Hg).
  pose proof (wf_message_state _ Hsw _ _ Hcur) as (Hown & _ & _).
  apply advance_inv in Hadv as [(?&[=]&_)|([= ->]&_&cur1&Hc1&Ea&Ed&Eg&_&_&->)]; [|done].
  apply receive_loop_spec in Hloop as (_ & Hn & Hdup). simpl in Hn.
  assert (cur1 = cur) as ->.
  { rewrite Ho, Hown in Hc1. rewrite F1, F0 in Hc1. simpl in Hc1. congruence. }
  assert (∀ r, r ∈ db_inbox db → r ∈ db_inbox db1 ∨ removed_of r ∈ rm) as Hkept.
  { intros r Hr. destruct (Hpart0 r Hr); [left; by apply Hkeep|by right]. }
  split; [|split; [|done]].
  - split; simpl.
    + lia.
    + exists next. split_and!; [|done|congruence].
      unfold load_message_sync_state, load_message_sync_state_row,
        load_identity_account_binding. simpl. rewrite F1, F0. simpl.
      rewrite Hb. simpl. rewrite Ho, Hown, lookup_insert_eq.
      by rewrite !bool_decide_eq_true_2 by congruence.
    + intros ev Hev. destruct (Hdup ev Hev) as [Hp|Hdup'].
      * right. right. left. destruct (Hevs ev Hp) as (r & ? & ? & ? & ?). eauto.
      * apply input_is_duplicate_true in Hdup' as [(r & Hr & Hk & Hp & Hh)|Hrec].
        -- destruct (Hkept r Hr); [left; by exists r|right; left; exists r]. done.
        -- right. right. right. rewrite F1, F0. done.
    + done.
    + rewrite F1, F0. by destruct db.
  - split; simpl; [done|rewrite F1, F0; apply Hqw|]. unfold MAX_INBOX_RECORDS in *. lia.
Qed.

(** ** Claiming *)

Definition lease_deadline (now : Z) : Z := i64_saturating_add now CLAIM_SECONDS.

(** The state of a row that was claimed with a token. *)
Definition row_claimed (r r' : InboxRow) (token : string) (deadline : Z) : Prop :=
  in_ident r' = in_ident r ∧ in_attempt_token r' = Some token ∧
  in_attempt_deadline r' = Some deadline ∧ in_error_code r' = None.

(** The state after the claiming loop took the inputs [l]. *)
Record claim_loop_post (now : Z) (d : Db) (l : list (InboxRow * string)) (d' : Db) : Prop := {
  clp_frame : d' = with_leases (db_leases d') (with_inbox (db_inbox d') d);
  clp_wf : inbox_wf (db_inbox d');
  clp_length : length (db_inbox d') = length (db_inbox d);
  clp_tokens : NoDup (l.*2);
  clp_fresh : ∀ t, t ∈ l.*2 → db_leases d !! t = None;
  clp_leased : ∀ t, t ∈ l.*2 → db_leases d' !! t = Some (lease_deadline now);
  clp_other_leases : ∀ t, t ∉ l.*2 → db_leases d' !! t = db_leases d !! t;
  clp_size : size (db_leases d') = (size (db_leases d) + length l)%nat;
  clp_other : ∀ r, r ∈ db_inbox d → in_input_id r ∉ (in_input_id <$> l.*1) → r ∈ db_inbox d';
  clp_claimed : ∀ rt r, rt ∈ l → r ∈ db_inbox d → in_input_id r = in_input_id rt.1 →
    ∃ r', r' ∈ db_inbox d' ∧ row_claimed r r' rt.2 (lease_deadline now) }.

Lemma claim_input_inv b now acc d rt acc' d' :
  claim_input b now (acc, d) rt = Ok (acc', d') →
  acc' = acc ++ [claim_of b rt.1 rt.2] ∧ db_leases d !! rt.2 = None ∧
  d' = update_inbox (λ r, bool_decide (in_input_id r = in_input_id rt.1))
    (λ r, in_set r (in_closed_at r) (in_attempt_count r + 1) (Some rt.2)
            (Some (lease_deadline now)) (Some now)
            (Some (default now (in_next_attempt_at r))) None)
    (with_leases (<[rt.2 := lease_deadline now]> (db_leases d)) d).
Proof.
  unfold claim_input, constraint_failed. cbn [fst snd]. intros Hc. res_inv.
  bool_hyps. split_and!; [done| |done]. by apply eq_None_not_Some.
Qed.

Lemma claim_loop_spec b now l acc d claims d' :
  try_fold (claim_input b now) (acc, d) l = Ok (claims, d') →
  NoDup (in_input_id <$> l.*1) → inbox_wf (db_inbox d) →
  claims = acc ++ ((λ rt, claim_of b rt.1 rt.2) <$> l) ∧ claim_loop_post now d l d'.
Proof.
  revert acc d. induction l as [|rt l IH]; intros acc d Hf Hnd Hwf; simpl in Hf.
  { res_inv. split; [by rewrite app_nil_r|]. split; simpl.
    - by destruct d'.
    - done.
    - done.
    - constructor.
    - by intros ? ?%elem_of_nil.
    - by intros ? ?%elem_of_nil.
    - done.
    - lia.
    - done.
    - by intros ?? ?%elem_of_nil. }
  apply bind_Ok in Hf as ([acc1 d1] & Hc & Hf).
  apply claim_input_inv in Hc as (-> & Hfree & ->). rewrite fmap_cons in Hnd. simpl in Hnd.
  apply NoDup_cons in Hnd as [Hni Hnd].
  set (f := λ r, in_set r _ _ _ _ _ _ _) in Hf. set (p := λ r, bool_decide _) in Hf.
  apply IH in Hf as [-> [F W L T1 T0 T2 T3 S O C]]; [|done|].
  2: { simpl. apply inbox_update_wf; done. }
  simpl in *. split; [by rewrite <-app_assoc|].
  assert (rt.2 ∉ l.*2) as Hnt.
  { intros Hin. specialize (T0 _ Hin). by rewrite lookup_insert_eq in T0. }
  split; simpl.
  - rewrite F. done.
  - done.
  - by rewrite L, length_update_where.
  - by apply NoDup_cons.
  - intros t [->|Ht]%elem_of_cons; [done|]. specialize (T0 _ Ht).
    by apply lookup_insert_None in T0 as [? _].
  - intros t [->|Ht]%elem_of_cons; [|by apply T2]. rewrite T3 by done. by rewrite lookup_insert_eq.
  - intros t [Hn Ht]%not_elem_of_cons. rewrite T3 by done. by rewrite lookup_insert_ne.
  - rewrite S, map_size_insert_None by done. lia.
  - intros r Hr [Hn Hni']%not_elem_of_cons. apply O; [|done].
    apply elem_of_update_where. exists r. split; [done|].
    unfold p. by rewrite bool_decide_eq_false_2.
  - intros rt' r [->|Hin]%elem_of_cons Hr Hid.
    + exists (f r). split; [|done]. apply O; [|unfold f; simpl; by rewrite Hid].
      apply elem_of_update_where. exists r. split; [done|].
      unfold p. by rewrite bool_decide_eq_true_2.
    + apply (C rt' r Hin); [|done]. apply elem_of_update_where. exists r. split; [done|].
      unfold p. rewrite bool_decide_eq_false_2; [done|]. rewrite Hid. intros E. apply Hni.
      rewrite <-E. apply list_elem_of_fmap_2, (list_elem_of_fmap_2 fst), Hin.
Qed.

(** *** The claimed inputs *)

Lemma due_inputs_elem d b now r :
  r ∈ due_inputs d b now →
  r ∈ db_inbox d ∧ in_owner r = ib_owner b ∧ in_account r = ib_account b ∧
  in_device r = ib_device b ∧ in_closed_at r = None ∧
  i64_saturating_sub now RETENTION_SECONDS < in_created_at r.
Proof.
  unfold due_inputs. intros ([i r'] & -> & [Hd Hin]%list_elem_of_filter)%list_elem_of_fmap.
  simpl in *. apply elem_of_lookup_imap in Hin as (i' & r0 & [= -> ->] & Hl).
  apply list_elem_of_lookup_2 in Hl. unfold input_due in Hd. bool_hyps. done.
Qed.

Lemma imap_pair_snd {A} (l : list A) : snd <$> imap pair l = l.
Proof.
  apply list_eq. intros i. rewrite list_lookup_fmap, list_lookup_imap. by destruct (l !! i).
Qed.

Lemma due_inputs_sublist d b now : due_inputs d b now `sublist_of` db_inbox d.
Proof.
  unfold due_inputs. rewrite <-(imap_pair_snd (db_inbox d)) at 2.
  apply fmap_sublist, sublist_filter.
Qed.

Lemma fair_inputs_spec d b now limit :
  inbox_wf (db_inbox d) → 0 ≤ limit →
  NoDup (in_input_id <$> fair_inputs d b now limit) ∧
  Z.of_nat (length (fair_inputs d b now limit)) ≤ limit ∧
  ∀ r, r ∈ fair_inputs d b now limit → r ∈ due_inputs d b now.
Proof.
  intros Hwf Hl. unfold fair_inputs. split_and!.
  - unfold order_limit. eapply sublist_NoDup; [|apply fmap_sublist, sublist_take].
    rewrite merge_sort_Permutation.
    eapply sublist_NoDup; [apply (ix_ids _ Hwf)|]. apply fmap_sublist, due_inputs_sublist.
  - rewrite order_limit_length by done. lia.
  - intros r. apply order_limit_sub.
Qed.

Lemma reclaim_spec b now db :
  queue_wf db → let d := drop_expired_leases now (reclaim_blocked_echoes b now db) in
  inbox_wf (db_inbox d) ∧ length (db_inbox d) = length (db_inbox db) ∧
  d = with_leases (db_leases d) (with_inbox (db_inbox d) db) ∧
  (size (db_leases d) ≤ size (db_leases db))%nat ∧
  size (filter (λ kv : string * Z, now < kv.2) (db_leases d) : gmap string Z)
    = size (db_leases d) ∧
  (∀ r, r ∈ db_inbox db → ∃ r', r' ∈ db_inbox d ∧ in_ident r' = in_ident r ∧
     in_attempt_token r' = in_attempt_token r ∧ in_attempt_deadline r' = in_attempt_deadline r) ∧
  (∀ r', r' ∈ db_inbox d → ∃ r, r ∈ db_inbox db ∧ in_ident r' = in_ident r ∧
     in_attempt_token r' = in_attempt_token r ∧ in_attempt_deadline r' = in_attempt_deadline r) ∧
  (∀ t z, db_leases db !! t = Some z → now < z → db_leases d !! t = Some z).
Proof.
  intros [Hwf Hl Hr] d. unfold d, drop_expired_leases, reclaim_blocked_echoes.
  unfold update_inbox. cbn [db_inbox db_leases with_inbox with_leases].
  generalize (λ r, bool_decide (in_input_id r ∈ take 64 (i ← db_inbox db; m ← db_messages db;
    if blocked_own_echo b i m then [in_input_id i] else []))) as p. intros p.
  split_and!.
  - apply inbox_update_wf; [done|done|]. intros r Hin _. exact (ix_attempts _ Hwf r Hin).
  - apply length_update_where.
  - done.
  - apply map_size_filter.
  - by rewrite map_filter_filter_l by naive_solver.
  - intros r Hin. eexists. split; [apply elem_of_update_where; by exists r|].
    by destruct (p r).
  - intros r' (r & Hin & ->)%elem_of_update_where. exists r.
    split; [done|]. by destruct (p r).
  - intros t z Ht Hz. by apply map_lookup_filter_Some.
Qed.

Lemma require_binding_Ok db b :
  require_binding db b = Ok () →
  ∃ cur, db_bindings db !! ib_owner b = Some cur ∧ ib_account cur = ib_account b ∧
    ib_device cur = ib_device b ∧ ib_current_did cur = ib_current_did b ∧
    ib_auth_generation cur = ib_auth_generation b.
Proof.
  unfold require_binding, load_identity_account_binding. intros Hr.
  destruct (db_bindings db !! ib_owner b) as [cur|]; [|done]. res_inv. bool_hyps. eauto 10.
Qed.

Lemma require_claim_inv db c now :
  require_claim db c now = Ok () →
  ∃ r, r ∈ db_inbox db ∧ in_input_id r = ic_input_id c ∧ in_owner r = ic_owner c ∧
    in_attempt_token r = Some (ic_token c) ∧
    (∃ t, db_leases db !! ic_token c = Some t ∧ now < t) ∧
    ∃ t, in_attempt_deadline r = Some t ∧ now < t.
Proof.
  unfold require_claim, superseded. intros Hr. res_inv.
  match goal with H : exists_where _ _ = true |- _ =>
    apply exists_where_true in H as (r & Hin & Hl) end.
  unfold claim_row_live in Hl. bool_hyps.
  exists r. split_and!; try done.
  - destruct (db_leases db !! ic_token c) as [t|]; [|done]. bool_hyps. eauto.
  - destruct (in_attempt_deadline r) as [t|]; [|done]. bool_hyps. eauto.
Qed.

Lemma require_claim_cases db c now :
  require_claim db c now = Ok () ∨ require_claim db c now = superseded.
Proof. unfold require_claim. case_match; auto. Qed.

(** What a successful [claim_inputs] gives. *)
Record claims_granted (db : Db) (b : IdentityAccountBinding) (now limit : Z)
    (claims : list InputClaim) (db' : Db) : Prop := {
  cg_count : Z.of_nat (length claims) ≤ Z.min limit MAX_ACTIVE_INPUTS;
  cg_inputs : NoDup (ic_input_id <$> claims);
  cg_tokens : NoDup (ic_token <$> claims);
  cg_fresh : ∀ c, c ∈ claims → now < default now (db_leases db !! ic_token c) → False;
  cg_exclusive : ∀ c old, c ∈ claims → ic_input_id old = ic_input_id c →
    require_claim db old now = superseded;
  cg_live : ∀ c t, c ∈ claims → t < lease_deadline now → require_claim db' c t = Ok ();
  cg_source : ∀ c, c ∈ claims → ∃ r, r ∈ db_inbox db ∧ in_input_id r = ic_input_id c ∧
    in_owner r = ib_owner b ∧ in_payload r = ic_payload c ∧ in_position r = ic_position c ∧
    event_key r = (ic_owner c, ic_lane c, ic_lane_epoch c, ic_event_id c) ∧
    i64_saturating_sub now RETENTION_SECONDS < in_created_at r;
  cg_kept : ∀ r, r ∈ db_inbox db → ∃ r', r' ∈ db_inbox db' ∧ in_ident r' = in_ident r;
  cg_frame : db' = with_leases (db_leases db') (with_inbox (db_inbox db') db) }.

Lemma in_ident_inv r r' :
  in_ident r' = in_ident r →
  in_input_id r' = in_input_id r ∧ event_key r' = event_key r ∧ in_owner r' = in_owner r ∧
  in_payload r' = in_payload r ∧ in_position r' = in_position r ∧
  in_created_at r' = in_created_at r.
Proof.
  intros E. split_and!.
  - exact (f_equal (λ x, x.1.1.1.1.1) E).
  - exact (f_equal (λ x, x.1.1.1.1.2) E).
  - exact (f_equal (λ x, x.1.1.1.1.2.1.1.1) E).
  - exact (f_equal (λ x, x.1.1.2) E).
  - exact (f_equal (λ x, x.1.1.1.2) E).
  - exact (f_equal (λ x, x.1.2) E).
Qed.

Lemma loop_claim_live d l d' b now rt t :
  claim_loop_post now d l d' → require_binding d b = Ok () → rt ∈ l →
  rt.1 ∈ db_inbox d → in_owner rt.1 = ib_owner b → t < lease_deadline now →
  require_claim d' (claim_of b rt.1 rt.2) t = Ok ().
Proof.
  intros P Hb Hrt Hin Ho Ht.
  destruct (clp_claimed _ _ _ _ P rt rt.1 Hrt Hin eq_refl) as (r' & Hr' & Hid & Htok & Hdl & Her).
  apply in_ident_inv in Hid as (Ei & _ & Eo & _).
  apply require_binding_Ok in Hb as (cur & Hcur & Ea & Ed & Ec & Eg).
  unfold require_claim. rewrite (proj2 (exists_where_true _ _)); [done|].
  exists r'. split; [done|]. unfold claim_row_live. simpl.
  rewrite Htok, Hdl, Her, Ei, Eo, Ho.
  rewrite (clp_leased _ _ _ _ P rt.2 (list_elem_of_fmap_2 snd _ _ Hrt)).
  rewrite (clp_frame _ _ _ _ P). simpl. rewrite Hcur.
  rewrite !bool_decide_eq_true_2 by done. rewrite ?bool_decide_eq_false_2 by done. simpl.
  by rewrite (proj2 (Z.ltb_lt _ _) Ht).
Qed.

Lemma loop_keeps d l d' now r :
  claim_loop_post now d l d' → r ∈ db_inbox d →
  ∃ r', r' ∈ db_inbox d' ∧ in_ident r' = in_ident r.
Proof.
  intros P Hr. destruct (decide (in_input_id r ∈ in_input_id <$> l.*1)) as [Hin|Hin].
  - apply list_elem_of_fmap in Hin as (r2 & E2 & (rt & -> & Hrt)%list_elem_of_fmap).
    destruct (clp_claimed _ _ _ _ P rt r Hrt Hr E2) as (r' & Hr' & E' & _). by exists r'.
  - exists r. split; [by apply (clp_other _ _ _ _ P)|done].
Qed.

(** An input is due only when no attempt on it is live. *)
Lemma due_not_live d b now r token dl :
  r ∈ due_inputs d b now → in_attempt_token r = Some token →
  in_attempt_deadline r = Some dl → now < dl → db_leases d !! token = None.
Proof.
  unfold due_inputs. intros ([i r'] & -> & [Hd Hin]%list_elem_of_filter)%list_elem_of_fmap.
  simpl in *. unfold input_due in Hd. intros Et Edl Hlt. rewrite Et, Edl in Hd.
  rewrite (proj2 (Z.leb_gt dl now)) in Hd by lia. simpl in Hd. bool_hyps. done.
Qed.

Lemma due_superseded db b now r old :
  let d := drop_expired_leases now (reclaim_blocked_echoes b now db) in
  queue_wf db → r ∈ due_inputs d b now → in_input_id r = ic_input_id old →
  require_claim db old now = superseded.
Proof.
  intros d Hqw Hdue Eid. destruct (require_claim_cases db old now) as [Hreq|]; [|done].
  destruct (reclaim_spec b now db Hqw) as (Hwf1 & _ & _ & _ & _ & Hkeep & _ & Hlease).
  apply require_claim_inv in Hreq as (r0 & Hr0 & Ei0 & _ & Et & (z & Hz & Hzt) & dl & Edl & Hdl).
  destruct (Hkeep r0 Hr0) as (r1 & Hr1 & (Ei1 & _)%in_ident_inv & Et1 & Ed1).
  pose proof Hdue as (Hin & _)%due_inputs_elem.
  assert (r1 = r) as -> by (eapply (key_inj in_input_id); [apply Hwf1|done|done|congruence]).
  pose proof (due_not_live _ _ _ _ (ic_token old) dl Hdue) as Hnl.
  rewrite Et1, Ed1 in Hnl. specialize (Hnl Et Edl Hdl). by rewrite (Hlease _ _ Hz Hzt : db_leases d !! ic_token old = Some z) in Hnl.
Qed.

(** The two ways [claim_inputs] returns: no slot is free, or the loop ran. *)
Lemma claim_inputs_inv db b now limit tokens claims db' :
  queue_wf db → 0 ≤ limit → claim_inputs db b now limit tokens = Ok (claims, db') →
  let d := drop_expired_leases now (reclaim_blocked_echoes b now db) in
  require_binding db b = Ok () ∧ 0 < limit ∧
  ((claims = [] ∧ db' = db) ∨
   ∃ lim, 0 < lim ≤ limit ∧ lim ≤ MAX_ACTIVE_INPUTS - Z.of_nat (size (db_leases d)) ∧
     try_fold (claim_input b now) ([], d)
       (imap (λ i r, (r, tokens i)) (fair_inputs d b now lim)) = Ok (claims, db')).
Proof.
  intros Hqw Hlim0 Hc d. unfold claim_inputs in Hc.
  destruct (_ || _) eqn:Elim in Hc; [done|]. bool_hyps.
  apply bind_Ok in Hc as ([] & Hb & Hc). split; [done|]. split; [lia|].
  destruct (reclaim_spec b now db Hqw) as (_ & _ & _ & _ & Hfil & _).
  fold d in Hc. fold d in Hfil. cbv zeta in Hc. rewrite Hfil in Hc. clearbody d.
  destruct (_ =? 0) eqn:E0 in Hc; [left; by injection Hc as <- <-|].
  right. bool_hyps. eexists. split_and!; [| | |exact Hc]; lia.
Qed.

Lemma claim_inputs_spec db b now limit tokens claims db' :
  queue_wf db → 0 ≤ limit → claim_inputs db b now limit tokens = Ok (claims, db') →
  claims_granted db b now limit claims db' ∧ queue_wf db'.
Proof.
  intros Hqw Hlim0 Hc. apply claim_inputs_inv in Hc as (Hb & Hpos & Hc); [|done..].
  destruct Hc as [(-> & ->)|(lim & [Hl0 Hl1] & Hl2 & Hc)].
  { split; [|done]. split; try by intros ? ?%elem_of_nil.
    - simpl. unfold MAX_ACTIVE_INPUTS. lia.
    - constructor.
    - constructor.
    - by intros ? ? ?%elem_of_nil.
    - by intros ? ? ?%elem_of_nil.
    - intros r Hr. by exists r.
    - by destruct db. }
  pose proof (λ r old, due_superseded db b now r old Hqw) as Hsup.
  destruct (reclaim_spec b now db Hqw)
    as (Hwf1 & Hlen1 & F1 & Hsz & Hfil & Hkeep1 & Hback1 & Hlease).
  set (d := drop_expired_leases now (reclaim_blocked_echoes b now db)) in *. clearbody d.
  destruct (fair_inputs_spec d b now lim Hwf1) as (Hnd & Hlen & Hdue); [lia|].
  set (rows := fair_inputs d b now lim) in *.
  set (l := imap (λ i r, (r, tokens i)) rows) in Hc.
  assert (l.*1 = rows) as El.
  { apply list_eq. intros i. unfold l. rewrite list_lookup_fmap, list_lookup_imap.
    by destruct (rows !! i). }
  assert (length l = length rows) as Ell by apply length_imap.
  apply claim_loop_spec in Hc as [-> P]; [|by rewrite El|done]. simpl.
  assert (∀ rt, rt ∈ l → rt.1 ∈ due_inputs d b now) as Hrow.
  { intros rt Hrt. apply Hdue. rewrite <-El. by apply (list_elem_of_fmap_2 fst). }
  split; [split|split].
  - rewrite length_fmap, Ell. lia.
  - rewrite <-list_fmap_compose. simpl. change (ic_input_id ∘ _) with (in_input_id ∘ @fst InboxRow string).
    rewrite list_fmap_compose, El. done.
  - rewrite <-list_fmap_compose. apply (clp_tokens _ _ _ _ P).
  - intros c (rt & -> & Hrt)%list_elem_of_fmap Hnow. simpl in Hnow.
    pose proof (clp_fresh _ _ _ _ P rt.2 (list_elem_of_fmap_2 snd _ _ Hrt)) as Hf.
    destruct (db_leases db !! rt.2) as [z|] eqn:E; simpl in Hnow; [|lia].
    rewrite (Hlease _ _ E Hnow) in Hf. done.
  - intros c old (rt & -> & Hrt)%list_elem_of_fmap E. exact (Hsup _ _ (Hrow rt Hrt) (eq_sym E)).
  - intros c t (rt & -> & Hrt)%list_elem_of_fmap Ht.
    pose proof (Hrow rt Hrt) as (Hin & Ho & _)%due_inputs_elem.
    eapply loop_claim_live; try done. rewrite F1. exact Hb.
  - intros c (rt & -> & Hrt)%list_elem_of_fmap.
    pose proof (Hrow rt Hrt) as (Hin & Ho & _ & _ & _ & Hcr)%due_inputs_elem.
    destruct (Hback1 _ Hin) as (r & Hr & (Ei & Ek & Eo & Ep & Epo & Ec)%in_ident_inv & _).
    exists r. simpl. rewrite <-Ei, <-Ek, <-Eo, <-Ep, <-Epo, <-Ec. unfold event_key. rewrite Ho.
    done.
  - intros r Hr. destruct (Hkeep1 r Hr) as (r1 & Hr1 & E1 & _).
    destruct (loop_keeps _ _ _ _ _ P Hr1) as (r' & ? & ?). exists r'. split; [done|congruence].
  - rewrite (clp_frame _ _ _ _ P), F1. done.
  - apply P.
  - rewrite (clp_size _ _ _ _ P), Ell. lia.
  - rewrite (clp_length _ _ _ _ P), Hlen1. apply Hqw.
Qed.

(** ** Fencing *)

Lemma claims_exclusive db c c' now :
  inbox_wf (db_inbox db) → require_claim db c now = Ok () → require_claim db c' now = Ok () →
  ic_input_id c = ic_input_id c' → ic_token c = ic_token c' ∧ ic_owner c = ic_owner c'.
Proof.
  intros Hwf (r & Hr & Ei & Eo & Et & _)%require_claim_inv
    (r' & Hr' & Ei' & Eo' & Et' & _)%require_claim_inv E.
  assert (r = r') as -> by (eapply (key_inj in_input_id); [apply Hwf|done|done|congruence]).
  split; congruence.
Qed.

(** A claim none of whose rows carries its token has lost its input. *)
Lemma lost_claim db c :
  (∀ r, r ∈ db_inbox db → claim_row c r = false) →
  (∀ t, require_claim db c t = superseded) ∧
  (∀ code r t, fail_claim db c code r t = superseded) ∧
  (∀ t, complete_claim db c t = superseded) ∧
  (∀ t, park_timeout db c t = (false, db)) ∧ (∀ r, release_timeout db c r = (false, db)).
Proof.
  intros Hn.
  assert (∀ t, require_claim db c t = superseded) as Hreq.
  { intros t. unfold require_claim. rewrite (proj2 (exists_where_false _ _)); [done|].
    intros r Hr. specialize (Hn r Hr). unfold claim_row_live. unfold claim_row in Hn.
    by rewrite Hn. }
  split_and!.
  - done.
  - intros. unfold fail_claim. by rewrite Hreq.
  - intros. unfold complete_claim. by rewrite Hreq.
  - intros. unfold park_timeout, update_inbox.
    rewrite count_where_none, update_where_none by done. by destruct db.
  - intros. unfold release_timeout, update_inbox.
    rewrite count_where_none, update_where_none; [by destruct db| |];
      intros x Hx; by rewrite Hn.
Qed.

Lemma other_token_lost db c old t :
  inbox_wf (db_inbox db) → require_claim db c t = Ok () →
  ic_input_id old = ic_input_id c → ic_token old ≠ ic_token c →
  ∀ r, r ∈ db_inbox db → claim_row old r = false.
Proof.
  intros Hwf (r0 & Hr0 & Ei & _ & Et & _)%require_claim_inv Eid Hne r Hr.
  apply not_true_iff_false. unfold claim_row. rewrite !andb_true_iff, !bool_decide_eq_true.
  intros [[Ei' _] Et'].
  assert (r = r0) as -> by (eapply (key_inj in_input_id); [apply Hwf|done|done|congruence]).
  congruence.
Qed.

(** ** Completion *)

(** The receipt the completion is recorded on: an ordinary input was recorded as
    applied by its reducer, a secure one has no receipt of another epoch. *)
Definition receipt_ready (db : Db) (c : InputClaim) : Prop :=
  if is_ordinary_or_baseline (ic_lane c)
  then ∃ r, r ∈ db_applied db ∧ ae_owner (ar_receipt r) = ic_owner c ∧
         ae_event_id (ar_receipt r) = ic_event_id c ∧
         ae_stream_epoch (ar_receipt r) = ic_lane_epoch c
  else ∀ r, r ∈ db_lane_applied db → la_owner r = ic_owner c → la_lane r = ic_lane c →
         la_event_id r = ic_event_id c → la_stream_epoch r = ic_lane_epoch c.

Lemma record_completion_frame db c hash now db' :
  record_completion db c hash now = Ok db' →
  db' = with_applied (db_applied db') (with_lane_applied (db_lane_applied db') db).
Proof.
  unfold record_completion, constraint_failed. intros Hr.
  destruct (is_ordinary_or_baseline _); [res_inv; by destruct db|].
  destruct (exists_where _ _); [res_inv; by destruct db|].
  destruct (_ && _); [res_inv; by destruct db|done].
Qed.

Lemma record_completion_receipt db c hash now db' :
  record_completion db c hash now = Ok db' → receipt_ready db c →
  receipt_hash db' (ic_owner c) (ic_lane c) (ic_lane_epoch c) (ic_event_id c) = Some hash.
Proof.
  unfold record_completion, receipt_hash, receipt_ready.
  destruct (is_ordinary_or_baseline (ic_lane c)).
  - intros Hr (r & Hr0 & Ho & Hi & He). res_inv. simpl.
    destruct (head_select (λ r, bool_decide (ae_owner (ar_receipt r) = ic_owner c)
        && bool_decide (ae_event_id (ar_receipt r) = ic_event_id c)
        && bool_decide (ae_stream_epoch (ar_receipt r) = ic_lane_epoch c)) (update_where
        (λ r, bool_decide (ae_owner (ar_receipt r) = ic_owner c)
              && bool_decide (ae_event_id (ar_receipt r) = ic_event_id c))
        (λ r, mkAppliedRow (ar_receipt r) (Some hash)) (db_applied db))
      (λ x, ar_payload_hash x = Some hash) (mkAppliedRow (ar_receipt r) (Some hash)))
      as (x & -> & Hx); [| | |done].
    + apply elem_of_update_where. exists r. split; [done|]. by rewrite !bool_decide_eq_true_2.
    + simpl. by rewrite !bool_decide_eq_true_2.
    + intros x (x0 & _ & ->)%elem_of_update_where Hs.
      destruct (bool_decide (ae_owner (ar_receipt x0) = ic_owner c)
        && bool_decide (ae_event_id (ar_receipt x0) = ic_event_id c)) eqn:E; [done|].
      simpl in Hs. bool_hyps. by rewrite !bool_decide_eq_true_2 in E.
  - intros Hr Hep. set (same := λ r : LaneAppliedRow, _ && _ && _) in Hr.
    assert (∀ r, same r = true ↔ la_owner r = ic_owner c ∧ la_lane r = ic_lane c ∧
      la_event_id r = ic_event_id c) as Hsame.
    { intros r. unfold same. rewrite !andb_true_iff, !bool_decide_eq_true. tauto. }
    set (sel := λ r : LaneAppliedRow, _ && _ && _ && _).
    assert (∀ r, sel r = true ↔ same r = true ∧ la_stream_epoch r = ic_lane_epoch c) as Hsel.
    { intros r. rewrite Hsame. unfold sel. rewrite !andb_true_iff, !bool_decide_eq_true. tauto. }
    destruct (exists_where same (db_lane_applied db)) eqn:Ex.
    + res_inv. simpl. apply exists_where_true in Ex as (r & Hr & Hs).
      set (upd := λ r : LaneAppliedRow, mkLaneApplied _ _ _ _ _ _ _ _ _).
      destruct (head_select sel (update_where same upd (db_lane_applied db))
        (λ x, la_payload_hash x = Some hash) (upd r)) as (x & -> & Hx); [| | |done].
      * apply elem_of_update_where. exists r. by rewrite Hs.
      * apply Hsel. split; [exact Hs|]. apply Hsame in Hs as (?&?&?). by apply (Hep r).
      * intros x (x0 & _ & ->)%elem_of_update_where Hsx.
        destruct (same x0) eqn:E0; [done|]. apply Hsel in Hsx as [Hsx _]. congruence.
    + unfold constraint_failed in Hr. res_inv. simpl. rewrite exists_where_false in Ex.
      set (new := mkLaneApplied _ _ _ _ _ _ _ _ _).
      destruct (head_select sel (db_lane_applied db ++ [new])
        (λ x, la_payload_hash x = Some hash) new) as (x & -> & Hx); [| | |done].
      * apply elem_of_app. right. by left.
      * apply Hsel. split; [by apply Hsame|done].
      * intros x [Hx| ->%list_elem_of_singleton]%elem_of_app Hs; [|done].
        apply Hsel in Hs as [Hs _]. by rewrite (Ex x Hx) in Hs.
Qed.

(** The completed row leaves the table; the rows that waited for it become due. *)
Lemma complete_claim_shape db c now db' :
  complete_claim db c now = Ok db' →
  ∃ hash db1 p f, require_claim db c now = Ok () ∧
    payload_hash (ic_lane c) (ic_payload c) = Ok hash ∧
    record_completion db c hash now = Ok db1 ∧
    (∀ r, in_ident (f r) = in_ident r ∧ in_attempt_token (f r) = in_attempt_token r ∧
          in_attempt_deadline (f r) = in_attempt_deadline r) ∧
    (∀ r, in_input_id r = ic_input_id c → p r = false) ∧
    db' = with_inbox (delete_where (claim_row c) (update_where p f (db_inbox db))) db1.
Proof.
  intros Hc. unfold complete_claim in Hc. res_inv.
  match goal with H : record_completion _ _ ?h _ = Ok ?d |- _ =>
    exists h, d; pose proof (record_completion_frame _ _ _ _ _ H) as F; rename d into db1 end.
  assert (db_inbox db1 = db_inbox db) as Ei1 by by rewrite F.
  set (scope := in_scope <$> _). set (f := λ r, in_set r _ _ _ _ _ _ _).
  destruct (bool_decide (ic_lane c ∈ _)).
  - exists (waits_for scope c), f. split_and!; try done.
    + intros r E. unfold waits_for. rewrite (bool_decide_eq_true_2 _ E). by rewrite andb_false_r.
    + unfold update_inbox. simpl. by rewrite Ei1.
  - exists (λ _, false), f. split_and!; try done. by rewrite update_where_false, Ei1.
Qed.

Section completed_rows.
Context (t : list InboxRow) (c : InputClaim) (p : InboxRow → bool) (f : InboxRow → InboxRow).
Hypothesis Hwf : inbox_wf t.
Hypothesis Hident : ∀ r, in_ident (f r) = in_ident r ∧ in_attempt_token (f r) = in_attempt_token r ∧
  in_attempt_deadline (f r) = in_attempt_deadline r.
Hypothesis Hp : ∀ r, in_input_id r = ic_input_id c → p r = false.
Let t' := delete_where (claim_row c) (update_where p f t).

Lemma completed_rows_wf : inbox_wf t'.
Proof using Hwf Hident.
  eapply inbox_sublist_wf; [apply sublist_delete_where|].
  apply inbox_update_wf; [apply Hident|done|]. intros r Hr _.
  destruct (Hident r) as (_ & -> & ->). by apply Hwf.
Qed.

Lemma completed_rows_back r' :
  r' ∈ t' → ∃ r, r ∈ t ∧ in_ident r' = in_ident r ∧ claim_row c r = false.
Proof using Hident Hp.
  intros [(r & Hr & ->)%elem_of_update_where Hn]%elem_of_delete_where.
  exists r. split; [done|]. destruct (p r) eqn:E; [|done]. split; [apply Hident|].
  unfold claim_row. rewrite bool_decide_eq_false_2; [done|]. intros Ei. by rewrite Hp in E.
Qed.

Lemma completed_rows_kept r :
  r ∈ t → in_input_id r ≠ ic_input_id c → ∃ r', r' ∈ t' ∧ in_ident r' = in_ident r.
Proof using Hident.
  intros Hr Hne. exists (if p r then f r else r).
  assert (in_ident (if p r then f r else r) = in_ident r) as E by (destruct (p r); [apply Hident|done]).
  split; [|done]. apply elem_of_delete_where. split; [apply elem_of_update_where; by exists r|].
  apply in_ident_inv in E as (E & _). unfold claim_row. by rewrite bool_decide_eq_false_2 by congruence.
Qed.
End completed_rows.

Record completed (db : Db) (c : InputClaim) (db' : Db) : Prop := {
  cc_receipt : receipt_ready db c → claim_was_completed db' c = Ok true;
  cc_gone : ∀ r, r ∈ db_inbox db' → in_input_id r ≠ ic_input_id c;
  cc_origin : ∀ r', r' ∈ db_inbox db' → ∃ r, r ∈ db_inbox db ∧ in_ident r' = in_ident r;
  cc_kept : ∀ r, r ∈ db_inbox db → in_input_id r ≠ ic_input_id c →
    ∃ r', r' ∈ db_inbox db' ∧ in_ident r' = in_ident r;
  cc_frame : db' = with_applied (db_applied db') (with_lane_applied (db_lane_applied db')
               (with_inbox (db_inbox db') db)) }.

Lemma complete_claim_spec db c now db' :
  queue_wf db → complete_claim db c now = Ok db' →
  require_claim db c now = Ok () ∧ queue_wf db' ∧ completed db c db'.
Proof.
  intros [Hwf Hl Hn] (hash & db1 & p & f & Hreq & Hh & Hrec & Hf & Hp & ->)%complete_claim_shape.
  pose proof (record_completion_frame _ _ _ _ _ Hrec) as F.
  split; [done|]. split; [|split].
  - split; simpl; [by apply completed_rows_wf|by rewrite F|].
    pose proof (length_delete_select (claim_row c) (update_where p f (db_inbox db))) as E.
    rewrite length_update_where in E. lia.
  - intros Hready. unfold claim_was_completed. rewrite Hh. simpl.
    pose proof (record_completion_receipt _ _ _ _ _ Hrec Hready) as Hrh.
    unfold receipt_hash in *. simpl. by rewrite Hrh, bool_decide_eq_true_2.
  - intros r' (r & Hr & Ei & Hcr)%completed_rows_back Eid; [|done..].
    apply require_claim_inv in Hreq as (r0 & Hr0 & Ei0 & Eo0 & Et0 & _).
    apply in_ident_inv in Ei as (Ei & _).
    assert (r = r0) as -> by (eapply (key_inj in_input_id); [apply Hwf|done|done|congruence]).
    unfold claim_row in Hcr. by rewrite !bool_decide_eq_true_2 in Hcr.
  - intros r' (r & Hr & Ei & _)%completed_rows_back; [by exists r|done..].
  - intros r. simpl. by apply completed_rows_kept.
  - simpl. by rewrite F.
Qed.

(** ** The queue as a state machine *)

Inductive queue_step : Db → Db → Prop :=
| q_receive db input now out db' :
    receive_ordinary db input now = Ok (out, db') → queue_step db db'
| q_claim db b now limit tokens claims db' :
    0 ≤ limit → claim_inputs db b now limit tokens = Ok (claims, db') → queue_step db db'
| q_fail db c code retry_at now db' :
    fail_claim db c code retry_at now = Ok db' → queue_step db db'
| q_park db c now : queue_step db (park_timeout db c now).2
| q_release db c retry_at : queue_step db (release_timeout db c retry_at).2
| q_renew db claims now : queue_step db (renew_claims db claims now)
| q_free db token : queue_step db (release_processing_slot db token)
| q_reserve db now token r db' :
    reserve_processing_slot db now token = Ok (r, db') → queue_step db db'
| q_renew_slots db tokens now : queue_step db (renew_processing_slots db tokens now)
| q_complete db c now db' : complete_claim db c now = Ok db' → queue_step db db'
| q_purge db now limit removed db' :
    0 ≤ limit → purge_expired db now limit = Ok (removed, db') → queue_step db db'
| q_retry db owner event_id now n db' :
    retry_event db owner event_id now = Ok (n, db') → queue_step db db'.

Lemma delete_lease_queue_wf k db : queue_wf db → queue_wf (with_leases (delete k (db_leases db)) db).
Proof.
  intros [H1 H2 H3]. split; simpl; [done| |done].
  rewrite map_size_delete. destruct (db_leases db !! k); simpl; lia.
Qed.

Lemma with_leases_queue_wf m db :
  (size m ≤ size (db_leases db))%nat → queue_wf db → queue_wf (with_leases m db).
Proof. intros Hs [H1 H2 H3]. split; simpl; [done|lia|done]. Qed.

Lemma renew_lease_queue_wf token now db : queue_wf db → queue_wf (renew_lease token now db).
Proof.
  intros Hqw. apply with_leases_queue_wf; [|done].
  rewrite <-!size_dom. by rewrite dom_alter_L.
Qed.

Lemma fail_claim_inv db c code retry_at now db' :
  fail_claim db c code retry_at now = Ok db' →
  require_claim db c now = Ok () ∧
  db' = with_leases (delete (ic_token c) (db_leases db))
    (update_inbox (λ r, bool_decide (in_input_id r = ic_input_id c))
       (λ r, in_set r None (in_attempt_count r) None None (in_last_attempt_at r)
               retry_at (Some code)) db).
Proof. unfold fail_claim. intros Hf. res_inv. done. Qed.

Lemma reserve_queue_wf db now token r db' :
  queue_wf db → reserve_processing_slot db now token = Ok (r, db') → queue_wf db'.
Proof.
  intros Hqw Hr. unfold reserve_processing_slot, constraint_failed in Hr.
  destruct (_ <=? _) eqn:E in Hr; [by res_inv|]. res_inv. bool_hyps.
  destruct Hqw as [H1 H2 H3]. split; simpl; [done| |done].
  rewrite map_size_insert_None by by apply eq_None_not_Some.
  unfold MAX_ACTIVE_INPUTS, drop_expired_leases in *. simpl in *. lia.
Qed.

Lemma purge_expired_spec db now limit removed db' :
  inbox_wf (db_inbox db) → 0 ≤ limit → purge_expired db now limit = Ok (removed, db') →
  limit ≠ 0 ∧ db' = with_inbox (db_inbox db') db ∧
  removed_oldest (db_inbox db) (Some (i64_saturating_sub now RETENTION_SECONDS)) limit
    removed (db_inbox db').
Proof.
  intros Hwf Hl Hp. unfold purge_expired in Hp. destruct (_ || _) eqn:E; [done|].
  bool_hyps. split; [lia|]. apply delete_oldest_spec; [done..|]. congruence.
Qed.

Lemma queue_step_wf db db' :
  store_wf db → queue_wf db → queue_step db db' → queue_wf db'.
Proof.
  intros Hsw Hqw Hs. destruct Hs as [db input now out db' Hr|db b now limit tokens claims db' Hl Hc
    |db c code retry_at now db' Hf|db c now|db c retry_at|db claims now|db token
    |db now token r db' Hr|db tokens now|db c now db' Hc|db now limit removed db' Hl Hp
    |db owner event_id now n db' Hr].
  - by destruct (received_spec _ _ _ _ _ Hsw Hqw Hr) as (_&?&_).
  - by destruct (claim_inputs_spec _ _ _ _ _ _ _ Hqw Hl Hc).
  - apply fail_claim_inv in Hf as (_ & ->).
    match goal with |- queue_wf (with_leases _ ?d) => apply (delete_lease_queue_wf _ d) end.
    apply update_inbox_queue_wf; [done|intros r _ _; split; by intros []|done].
  - apply update_inbox_queue_wf; [done| |done]. intros r Hr Hcr. simpl.
    unfold claim_row in Hcr. bool_hyps.
    match goal with E : in_attempt_token r = _ |- _ => rewrite E end. done.
  - apply update_inbox_queue_wf; [done|intros r _ _; split; by intros []|done].
  - unfold renew_claims. revert db Hsw Hqw. induction claims as [|c claims IH]; [done|].
    intros db Hsw Hqw. simpl. apply IH.
    + destruct Hsw. by split.
    + apply update_inbox_queue_wf; [done| |by apply renew_lease_queue_wf].
      intros r Hr Hcr. simpl. unfold claim_row in Hcr. bool_hyps.
      match goal with E : in_attempt_token r = _ |- _ => rewrite E end. done.
  - by apply delete_lease_queue_wf.
  - by eapply reserve_queue_wf.
  - unfold renew_processing_slots. revert db Hsw Hqw.
    induction tokens as [|t tokens IH]; [done|]. intros db Hsw Hqw. simpl. apply IH.
    + destruct Hsw. by split.
    + by apply renew_lease_queue_wf.
  - by destruct (complete_claim_spec _ _ _ _ Hqw Hc) as (_&?&_).
  - apply purge_expired_spec in Hp as (_ & -> & Ho); [|apply Hqw|done]. simpl in Ho.
    pose proof (ro_count _ _ _ _ _ Ho). destruct Hqw as [H1 H2 H3].
    split; simpl; [by eapply removed_oldest_wf|done|lia].
  - unfold retry_event in Hr. res_inv. apply update_inbox_queue_wf; [done| |done].
    intros r Hr _. exact (ix_attempts _ (qw_inbox _ Hqw) r Hr).
Qed.

Lemma queue_step_store_wf db db' :
  store_wf db → queue_wf db → queue_step db db' → store_wf db'.
Proof.
  intros Hsw Hqw Hs. destruct Hs as [db input now out db' Hr|db b now limit tokens claims db' Hl Hc
    |db c code retry_at now db' Hf|db c now|db c retry_at|db claims now|db token
    |db now token r db' Hr|db tokens now|db c now db' Hc|db now limit removed db' Hl Hp
    |db owner event_id now n db' Hr].
  - by destruct (received_spec _ _ _ _ _ Hsw Hqw Hr) as (_&_&?).
  - destruct (claim_inputs_spec _ _ _ _ _ _ _ Hqw Hl Hc) as [G _].
    rewrite (cg_frame _ _ _ _ _ _ G). destruct Hsw. by split.
  - apply fail_claim_inv in Hf as (_ & ->). destruct Hsw. by split.
  - destruct Hsw. by split.
  - destruct Hsw. by split.
  - unfold renew_claims. revert db Hsw Hqw. induction claims as [|c claims IH]; [done|].
    intros db Hsw Hqw. simpl. apply IH; [destruct Hsw; by split|].
    apply (queue_step_wf _ _ Hsw Hqw (q_renew db [c] now)).
  - destruct Hsw. by split.
  - unfold reserve_processing_slot, constraint_failed in Hr. destruct (_ <=? _); [by res_inv|].
    res_inv. destruct Hsw. by split.
  - unfold renew_processing_slots. revert db Hsw Hqw.
    induction tokens as [|t tokens IH]; [done|]. intros db Hsw Hqw. simpl.
    apply IH; [destruct Hsw; by split|]. by apply renew_lease_queue_wf.
  - destruct (complete_claim_spec _ _ _ _ Hqw Hc) as (_ & _ & G).
    rewrite (cc_frame _ _ _ G). destruct Hsw. by split.
  - apply purge_expired_spec in Hp as (_ & -> & Ho); [|apply Hqw|done]. destruct Hsw. by split.
  - unfold retry_event in Hr. res_inv. destruct Hsw. by split.
Qed.
End queue.
