(* ===== verification/InboxFair.v ===== *)
(** * Fair selection of due inputs

    [claim_inputs] orders due inputs by a rank within their lane, which in turn
    deals the scopes (conversations) of a lane in turn. This file shows what the
    two [ROW_NUMBER] windows give: one lane cannot starve another, and a busy
    conversation cannot overtake a quiet one of its lane. *)

From S2P Require Import Prelude RustStr ImError Decimal Dto Store SyncStore Inbox InboxProps.
Local Open Scope Z_scope.

(** ** Ranks of a strict order *)

Section rank.
Context {A : Type} (lt : A → A → bool) (t : list A).
Definition rank (x : A) : nat := S (count_where (λ y, lt y x) t).
Hypothesis lt_trans : ∀ x y z, lt x y = true → lt y z = true → lt x z = true.
Hypothesis lt_irrefl : ∀ x, lt x x = false.

Lemma count_where_lt (p q : A → bool) (l : list A) (y : A) :
  (∀ x, p x = true → q x = true) → y ∈ l → p y = false → q y = true →
  (count_where p l < count_where q l)%nat.
Proof.
  intros Hpq Hy Hp Hq. unfold count_where, select_where.
  induction l as [|x l IH]; [by apply elem_of_nil in Hy|].
  assert (length (filter (λ r, p r = true) l) ≤ length (filter (λ r, q r = true) l))%nat as Hle.
  { clear IH Hy. induction l as [|z l IHl]; [done|].
    rewrite !filter_cons. destruct (decide (p z = true)) as [Hz|Hz].
    - rewrite decide_True by auto. simpl. lia.
    - case_decide; simpl; lia. }
  rewrite !filter_cons. apply elem_of_cons in Hy as [<-|Hy].
  - rewrite Hp, Hq. simpl. lia.
  - specialize (IH Hy). destruct (decide (p x = true)) as [Hx|Hx].
    + rewrite decide_True by auto. simpl. lia.
    + case_decide; simpl; lia.
Qed.

Lemma rank_lt x y : x ∈ t → lt x y = true → (rank x < rank y)%nat.
Proof using lt_trans lt_irrefl.
  intros Hx Hlt. unfold rank. apply (proj1 (Nat.succ_lt_mono _ _)).
  apply (count_where_lt _ _ _ x); [|done|apply lt_irrefl|done].
  intros z Hz. by eapply lt_trans.
Qed.

(** Some element of a lower set has the first rank. *)
Lemma rank_first (P : A → Prop) :
  (∀ x y, P y → lt x y = true → P x) → ∀ x, x ∈ t → P x → ∃ y, y ∈ t ∧ P y ∧ rank y = 1%nat.
Proof using lt_trans lt_irrefl.
  intros Hdown x. remember (rank x) as n eqn:En. revert x En.
  induction n as [n IH] using lt_wf_ind. intros x -> Hx HP.
  destruct (select_where (λ y, lt y x) t) as [|y l] eqn:E.
  - exists x. split_and!; [done|done|]. unfold rank, count_where. by rewrite E.
  - assert (y ∈ select_where (λ y, lt y x) t) as [Hy Hlt]%elem_of_select_where
      by (rewrite E; by left).
    apply (IH (rank y) ltac:(by apply rank_lt) y); [done|done|by eapply Hdown].
Qed.
End rank.

(** ** The two windows *)

Lemma str_ltb_true a b : str_ltb a b = true ↔ str_le a b ∧ a ≠ b.
Proof.
  unfold str_ltb, str_le. rewrite <-str_cmp_eq. destruct (str_cmp a b); naive_solver.
Qed.

Lemma attempt_lt_true r r' :
  attempt_lt r r' = true ↔
  in_attempt_count r < in_attempt_count r' ∨ in_attempt_count r = in_attempt_count r' ∧
  (default 0 (in_last_attempt_at r) < default 0 (in_last_attempt_at r') ∨
   default 0 (in_last_attempt_at r) = default 0 (in_last_attempt_at r') ∧
   (in_created_at r < in_created_at r' ∨ in_created_at r = in_created_at r' ∧
    (str_le (in_input_id r) (in_input_id r') ∧ in_input_id r ≠ in_input_id r'))).
Proof.
  unfold attempt_lt. cbv zeta.
  by rewrite !orb_true_iff, !andb_true_iff, !orb_true_iff, !andb_true_iff, !orb_true_iff,
    !andb_true_iff, !Z.ltb_lt, !Z.eqb_eq, str_ltb_true.
Qed.

Lemma attempt_lt_irrefl r : attempt_lt r r = false.
Proof. apply not_true_iff_false. rewrite attempt_lt_true. intuition lia. Qed.

Lemma attempt_lt_trans x y z :
  attempt_lt x y = true → attempt_lt y z = true → attempt_lt x z = true.
Proof.
  rewrite !attempt_lt_true. intros Hxy Hyz.
  assert (str_le (in_input_id x) (in_input_id y) → in_input_id x ≠ in_input_id y →
          str_le (in_input_id y) (in_input_id z) → in_input_id y ≠ in_input_id z →
          str_le (in_input_id x) (in_input_id z) ∧ in_input_id x ≠ in_input_id z).
  { intros Hl Hn Hl' Hn'. split; [by etrans|]. intros E. rewrite <-E in Hl'.
    by apply Hn, (anti_symm str_le). }
  intuition lia.
Qed.

Lemma attempt_lt_total x y :
  in_input_id x ≠ in_input_id y → attempt_lt x y = true ∨ attempt_lt y x = true.
Proof.
  intros Hne. rewrite !attempt_lt_true.
  destruct (Z.lt_total (in_attempt_count x) (in_attempt_count y)) as [?|[?|?]]; [auto| |auto].
  destruct (Z.lt_total (default 0 (in_last_attempt_at x)) (default 0 (in_last_attempt_at y)))
    as [?|[?|?]]; [auto 6| |auto 6].
  destruct (Z.lt_total (in_created_at x) (in_created_at y)) as [?|[?|?]]; [auto 8| |auto 8].
  destruct (total str_le (in_input_id x) (in_input_id y)); [left|right]; auto 10.
Qed.

Section windows.
Context (due : list InboxRow).

Definition lane_lt (x y : InboxRow) : bool :=
  bool_decide (in_lane x = in_lane y)
  && ((scope_rank due x <? scope_rank due y)%nat
      || ((scope_rank due x =? scope_rank due y)%nat && attempt_lt x y)).

Lemma lane_lt_true x y :
  lane_lt x y = true ↔ in_lane x = in_lane y ∧
    ((scope_rank due x < scope_rank due y)%nat ∨
     scope_rank due x = scope_rank due y ∧ attempt_lt x y = true).
Proof.
  unfold lane_lt. by rewrite andb_true_iff, orb_true_iff, andb_true_iff, bool_decide_eq_true,
    Nat.ltb_lt, Nat.eqb_eq.
Qed.

Lemma lane_lt_trans a b c : lane_lt a b = true → lane_lt b c = true → lane_lt a c = true.
Proof.
  rewrite !lane_lt_true. intros [-> Hab] [-> Hbc]. split; [done|].
  destruct Hab as [?|[? Hab]], Hbc as [?|[? Hbc]]; [left; lia..|right].
  split; [lia|by eapply attempt_lt_trans].
Qed.

Lemma lane_lt_irrefl a : lane_lt a a = false.
Proof.
  apply not_true_iff_false. rewrite lane_lt_true, attempt_lt_irrefl. intros [_ [?|[_ [=]]]]. lia.
Qed.

Lemma lane_rank_lt x y : x ∈ due → lane_lt x y = true → (lane_rank due x < lane_rank due y)%nat.
Proof. apply (rank_lt lane_lt due); [apply lane_lt_trans|apply lane_lt_irrefl]. Qed.

Lemma lane_rank_inj x y :
  x ∈ due → y ∈ due → in_lane x = in_lane y → lane_rank due x = lane_rank due y →
  in_input_id x = in_input_id y.
Proof.
  intros Hx Hy El Er. destruct (decide (in_input_id x = in_input_id y)) as [|Hne]; [done|exfalso].
  assert (lane_lt x y = true ∨ lane_lt y x = true) as [Hlt|Hlt].
  { rewrite !lane_lt_true. destruct (attempt_lt_total x y Hne);
      destruct (Nat.lt_total (scope_rank due x) (scope_rank due y)) as [?|[?|?]]; auto. }
  - pose proof (lane_rank_lt _ _ Hx Hlt). lia.
  - pose proof (lane_rank_lt _ _ Hy Hlt). lia.
Qed.

(** The first input of a lane. *)
Lemma lane_rank_first x :
  x ∈ due → ∃ y, y ∈ due ∧ in_lane y = in_lane x ∧ lane_rank due y = 1%nat.
Proof.
  intros Hx. apply (rank_first lane_lt due) with (P := λ y, in_lane y = in_lane x) (x := x);
    [apply lane_lt_trans|apply lane_lt_irrefl| |done|done].
  by intros a b Hb [-> _]%lane_lt_true.
Qed.

#[export] Instance fair_le_trans : Transitive (fair_le due).
Proof.
  intros a b c [?|[??]] [?|[??]]; unfold fair_le in *; [left; lia..|].
  right. split; [lia|]. by etrans.
Qed.
#[export] Instance fair_le_total : Total (fair_le due).
Proof.
  intros a b. unfold fair_le.
  destruct (Nat.lt_total (lane_rank due a) (lane_rank due b)) as [?|[?|?]]; [eauto| |eauto].
  destruct (total str_le (in_lane a) (in_lane b)); [left|right]; right; done.
Qed.
End windows.

(** ** What a claim round selects *)

Section fair.
Context (db : Db) (b : IdentityAccountBinding) (now limit : Z).
Hypothesis Hwf : inbox_wf (db_inbox db).
Hypothesis Hlimit : 0 ≤ limit.
Let due := due_inputs db b now.
Let chosen := fair_inputs db b now limit.

Lemma fair_unselected r r' : r ∈ chosen → r' ∈ due → r' ∉ chosen → fair_le due r r'.
Proof using. intros Hr Hr' Hn. eapply order_limit_first; [apply _|apply _|exact Hr|done|done]. Qed.

Lemma fair_scopes r r' :
  r ∈ chosen → r' ∈ due → r' ∉ chosen → in_lane r = in_lane r' →
  (scope_rank due r ≤ scope_rank due r')%nat.
Proof using.
  intros Hr Hr' Hn El. destruct (Nat.le_gt_cases (scope_rank due r) (scope_rank due r')) as [|Hgt];
    [done|exfalso].
  assert (lane_rank due r' < lane_rank due r)%nat as Hlt.
  { apply lane_rank_lt; [done|]. apply lane_lt_true. auto. }
  destruct (fair_unselected r r' Hr Hr' Hn) as [?|[? _]]; lia.
Qed.

(** Inputs that all have the first rank come from different lanes. *)
Lemma first_ranks_lanes (l : list InboxRow) :
  NoDup (in_input_id <$> l) → (∀ r, r ∈ l → r ∈ due ∧ lane_rank due r = 1%nat) →
  NoDup (in_lane <$> l).
Proof using.
  induction l as [|x l IH]; intros Hnd Hall; [constructor|].
  rewrite fmap_cons in Hnd |- *. apply NoDup_cons in Hnd as [Hni Hnd].
  apply NoDup_cons. split; [|apply IH; [done|]; intros r Hr; apply Hall; by right].
  intros (y & El & Hy)%list_elem_of_fmap. apply Hni.
  destruct (Hall x ltac:(by left)) as [Hx Rx], (Hall y ltac:(by right)) as [Hyd Ry].
  rewrite (lane_rank_inj due x y Hx Hyd El) by congruence. by apply list_elem_of_fmap_2.
Qed.

Lemma fair_lanes r' :
  Z.of_nat (length (remove_dups (in_lane <$> due))) ≤ limit → r' ∈ due →
  ∃ r, r ∈ chosen ∧ in_lane r = in_lane r'.
Proof using Hwf Hlimit.
  intros Hlim Hr'. destruct (decide (in_lane r' ∈ in_lane <$> chosen)) as [Hin|Hnin].
  { apply list_elem_of_fmap in Hin as (r & E & Hr). by exists r. }
  destruct (lane_rank_first due r' Hr') as (x & Hx & Elx & Rx).
  destruct (fair_inputs_spec db b now limit Hwf Hlimit) as (Hnd & _ & Hsub).
  assert (x ∉ chosen) as Hxn.
  { intros Hc. apply Hnin. rewrite <-Elx. by apply list_elem_of_fmap_2. }
  assert (NoDup (in_lane <$> chosen)) as Hlanes.
  { apply first_ranks_lanes; [done|]. intros r Hr. split; [by apply Hsub|].
    assert (1 ≤ lane_rank due r)%nat by (unfold lane_rank; lia).
    destruct (fair_unselected r x Hr Hx Hxn) as [?|[? _]]; lia. }
  assert (NoDup (in_lane r' :: (in_lane <$> chosen))) as Hnd' by by apply NoDup_cons.
  assert (S (length chosen) ≤ length (remove_dups (in_lane <$> due)))%nat as Hlen.
  { rewrite <-(length_fmap in_lane chosen). apply (submseteq_length (in_lane r' :: _)).
    apply NoDup_submseteq; [done|]. intros k [->|Hk]%elem_of_cons.
    - by apply elem_of_remove_dups, list_elem_of_fmap_2.
    - apply list_elem_of_fmap in Hk as (r & -> & Hr).
      by apply elem_of_remove_dups, list_elem_of_fmap_2, Hsub. }
  exfalso. assert (length (remove_dups (in_lane <$> due)) ≤ length due)%nat as Hle.
  { rewrite <-(length_fmap in_lane due). apply submseteq_length.
    apply NoDup_submseteq; [apply NoDup_remove_dups|]. intros k. by rewrite elem_of_remove_dups. }
  unfold chosen, fair_inputs in Hlen. rewrite order_limit_length in Hlen by done. fold due in Hlen.
  lia.
Qed.
End fair.
