(* ===== verification/InboxClaims.v ===== *)
(** * The promises of the receive queue

    The theorems a client of the queue relies on, and a concrete codec and
    database on which they are evaluated. *)

From Stdlib Require Import Ascii.
From S2P Require Import Prelude RustStr ImError Decimal Dto Store SyncStore Inbox InboxProps InboxFair.
Local Open Scope Z_scope.

Section queue.
Context `{QueueCodec}.

(** The row a claim was made from: identity, position and event agree. *)
Definition claim_source (db : Db) (c : InputClaim) : Prop :=
  ∃ r, r ∈ db_inbox db ∧ in_input_id r = ic_input_id c ∧ in_position r = ic_position c ∧
    event_key r = (ic_owner c, ic_lane c, ic_lane_epoch c, ic_event_id c).

(** After its completion an event is known by its receipt alone. *)
Lemma completed_redelivery db c now db' ev :
  queue_wf db → complete_claim db c now = Ok db' → receipt_ready db c → claim_source db c →
  ev_event_id ev = ic_event_id c → ev_position ev = ic_position c →
  ev_payload ev = ic_payload c →
  input_is_duplicate db' (ic_owner c) (ic_lane c) (ic_lane_epoch c) ev = Ok true.
Proof.
  intros Hqw Hc Hready (r0 & Hr0 & Ei & Ep & Ek) Eid Epos Epay.
  destruct (complete_claim_spec _ _ _ _ Hqw Hc) as (_ & _ & G).
  pose proof (cc_receipt _ _ _ G Hready) as Hdone.
  assert (∀ r', r' ∈ db_inbox db' → event_key r' ≠ event_key r0 ∧
            position_key r' ≠ position_key r0) as Hgone.
  { intros r' Hr'. destruct (cc_origin _ _ _ G r' Hr') as (r & Hr & Hid).
    pose proof (cc_gone _ _ _ G r' Hr') as Hne. pose proof (in_ident_inv _ _ Hid) as (Ei' & Ek' & _).
    rewrite Ek'. replace (position_key r') with (position_key r)
      by exact (f_equal (λ x, (x.1.1.1.1.2.1, x.1.1.1.2)) (eq_sym Hid)).
    split; intros E; apply Hne; rewrite Ei', <-Ei; f_equal.
    - eapply (key_inj event_key); [apply Hqw|done..].
    - eapply (key_inj position_key); [apply Hqw|done..]. }
  unfold input_is_duplicate. rewrite Eid, Epos, Epay.
  destruct (head _) as [r|] eqn:E.
  { apply head_Some_elem_of, elem_of_select_where in E as [Hr Hk%same_event_true].
    by destruct (Hgone r Hr) as [? _]; rewrite Hk, Ek in *. }
  rewrite (proj2 (exists_where_false _ _)).
  - unfold claim_was_completed in Hdone. res_inv. bool_hyps.
    match goal with E : receipt_hash _ _ _ _ _ = _ |- _ => rewrite E end.
    match goal with E : payload_hash _ _ = Ok _ |- _ => rewrite E end.
    simpl. by rewrite bool_decide_eq_true_2.
  - intros r Hr. apply not_true_iff_false. rewrite same_position_true.
    destruct (Hgone r Hr) as [_ Hn]. unfold event_key in Ek. injection Ek as <- <- <- _.
    by rewrite <-Ep.
Qed.

(** C3: A page is durable before its cursor. When [receive_ordinary] commits, the
    stored cursor is the page's next position, and every event of the page is in
    the queue with its payload, or was already there or already completed with
    the same immutable content; a record that left the queue to make room is
    reported as removed. The queue invariant (at most 16,384 records) holds. *)
Theorem receive_ordinary_durable db input now out db' :
  store_wf db → queue_wf db → receive_ordinary db input now = Ok (out, db') →
  received db input now out db' ∧ queue_wf db'.
Proof. intros Hs Hq Hr. by destruct (received_spec _ _ _ _ _ Hs Hq Hr) as (?&?&_). Qed.

(** The queue is bounded in every reachable state: whatever sequence of
    receives, claims, failures, parked and released timeouts, renewals, slot
    reservations, completions, purges and manual retries runs, at most 8 attempts
    are leased, at most 16,384 records wait, and input ids, event identities and
    positions stay unique. *)
Theorem queue_bounded db db' :
  store_wf db → queue_wf db → rtc queue_step db db' → store_wf db' ∧ queue_wf db'.
Proof.
  intros Hs Hq Hr. induction Hr as [|x y z Hxy _ IH]; [done|].
  apply IH; [by eapply queue_step_store_wf|by eapply queue_step_wf].
Qed.

(** C7: A successful [claim_inputs] grants at most eight distinct inputs of the
    bound owner that are inside the retention window, each under its own fresh
    token; no older attempt on a granted input is live; every granted claim stays
    valid until its lease deadline; and no other data changes. *)
Theorem claims_exclusive_and_live db b now limit tokens claims db' :
  queue_wf db → 0 ≤ limit → claim_inputs db b now limit tokens = Ok (claims, db') →
  claims_granted db b now limit claims db'.
Proof. intros Hq Hl Hc. by destruct (claim_inputs_spec _ _ _ _ _ _ _ Hq Hl Hc). Qed.

(** A superseded attempt cannot settle. While another token holds the input,
    the old claim's [fail_claim] and [complete_claim] are refused with
    [SYNC_INPUT_SUPERSEDED] and its timeouts change nothing. *)
Theorem stale_claim_fenced db c old t :
  queue_wf db → require_claim db c t = Ok () →
  ic_input_id old = ic_input_id c → ic_token old ≠ ic_token c →
  (∀ code r now, fail_claim db old code r now = superseded) ∧
  (∀ now, complete_claim db old now = superseded) ∧
  (∀ now, park_timeout db old now = (false, db)) ∧
  (∀ r, release_timeout db old r = (false, db)).
Proof.
  intros [Hwf _ _] Hc Eid Hne.
  by destruct (lost_claim db old (other_token_lost _ _ _ _ Hwf Hc Eid Hne)) as (_&?&?&?&?).
Qed.

(** An input is completed exactly once. [complete_claim] succeeds only for a
    live claim; then the input is gone and every other input kept, no attempt on
    it can settle again, the completion is on record, and a redelivery of the
    same event is recognised as a duplicate. *)
Theorem complete_claim_once db c now db' :
  queue_wf db → complete_claim db c now = Ok db' → receipt_ready db c → claim_source db c →
  require_claim db c now = Ok () ∧ completed db c db' ∧
  claim_was_completed db' c = Ok true ∧
  (∀ c' t, ic_input_id c' = ic_input_id c → complete_claim db' c' t = superseded) ∧
  (∀ ev, ev_event_id ev = ic_event_id c → ev_position ev = ic_position c →
     ev_payload ev = ic_payload c →
     input_is_duplicate db' (ic_owner c) (ic_lane c) (ic_lane_epoch c) ev = Ok true).
Proof.
  intros Hqw Hc Hready Hsrc. destruct (complete_claim_spec _ _ _ _ Hqw Hc) as (Hreq & _ & G).
  split_and!; [done|done|by apply (cc_receipt _ _ _ G)| |].
  - intros c' t E. apply (lost_claim db' c'). intros r Hr. unfold claim_row.
    rewrite bool_decide_eq_false_2; [done|]. rewrite E. by apply (cc_gone _ _ _ G).
  - intros ev. by eapply completed_redelivery.
Qed.
End queue.

(** No lane and no conversation starves. The inputs a claim round selects are
    [min limit due] many; when the limit is at least the number of lanes with due
    inputs, each of these lanes gets one; and within a lane a conversation's k-th
    input is selected only when every unselected input of the lane is at least
    k-th in its own conversation. *)
Theorem claim_round_fair db b now limit :
  inbox_wf (db_inbox db) → 0 ≤ limit →
  let due := due_inputs db b now in
  let chosen := fair_inputs db b now limit in
  Z.of_nat (length chosen) = Z.min limit (Z.of_nat (length due)) ∧
  (∀ r, r ∈ due → Z.of_nat (length (remove_dups (in_lane <$> due))) ≤ limit →
     ∃ x, x ∈ chosen ∧ in_lane x = in_lane r) ∧
  (∀ r r', r ∈ chosen → r' ∈ due → r' ∉ chosen → in_lane r = in_lane r' →
     (scope_rank due r ≤ scope_rank due r')%nat).
Proof.
  intros Hwf Hl due chosen. split_and!.
  - unfold chosen, fair_inputs. rewrite order_limit_length by done. fold due. lia.
  - intros r Hr Hlim. by apply fair_lanes.
  - intros r r'. apply fair_scopes.
Qed.

(** ** A concrete codec *)

(** Every character is marked and every component ends with a dot. *)
Fixpoint mark (s : string) : string :=
  match s with
  | EmptyString => "."
  | String c s => String "+"%char (String c (mark s))
  end.

Lemma mark_inj s s' r r' : mark s +:+ r = mark s' +:+ r' → s = s' ∧ r = r'.
Proof.
  revert s'. induction s as [|c s IH]; intros [|c' s']; simpl; intros E; simplify_eq; [done|].
  by destruct (IH s' ltac:(done)) as [-> ->].
Qed.

Definition ex_encode_id (o l e i : string) : string :=
  mark o +:+ (mark l +:+ (mark e +:+ (mark i +:+ "")))%string.

Lemma ex_encode_id_inj o l e i o' l' e' i' :
  ex_encode_id o l e i = ex_encode_id o' l' e' i' → o = o' ∧ l = l' ∧ e = e' ∧ i = i'.
Proof.
  unfold ex_encode_id. intros (? & (? & (? & (? & _)%mark_inj)%mark_inj)%mark_inj)%mark_inj. done.
Qed.

Definition ex_codec : QueueCodec := {|
  encode_input_id := ex_encode_id;
  encoded_len v := match v with VString s => Z.of_nat (String.length s) | _ => 64 end;
  canonical_digest v := Some match v with VArray _ => "array" | VObject _ => "object" | _ => "scalar" end%string;
  to_rfc3339 t := Some "2026-01-01T00:00:00Z"%string;
  encode_input_id_inj := ex_encode_id_inj |}.

(** ** A page of two events *)

Definition ex_envelope (id seq : string) : Value :=
  VObject [("event_id", VString id); ("stream_epoch", VString "3"); ("event_seq", VString seq);
           ("event_type", VString "thread.read"); ("schema_version", VNumber (PosInt 2));
           ("ignore_safe", VBool true); ("account_id", VString "account-1");
           ("aggregate_kind", VString "thread"); ("aggregate_id", VString "t1");
           ("occurred_at", VString "2026-01-01T00:00:00Z"); ("payload", VNull)]%string.
Definition ex_event (id seq scope : string) : InboxEvent :=
  mkInboxEvent id seq "thread.read" (VObject [("event", ex_envelope id seq)])%string scope None.
Definition ex_batch : OrdinaryReceiveBatch :=
  mkBatch ex_binding "inst-1" None "3" "9" "12" "2026-01-01T00:00:00Z"
    [ex_event "e10" "10" "s1"; ex_event "e12" "12" "s2"].
Definition ex_queue_db : Db := with_installations {["owner-1"%string := "inst-1"%string]} ex_cursor_db.

Lemma ex_queue_store : store_wf ex_queue_db.
Proof. destruct ex_cursor_db_wf. by split. Qed.
Lemma ex_queue_wf : queue_wf ex_queue_db.
Proof.
  split; [split|..]; try by apply NoDup_nil.
  - by intros r ?%elem_of_nil.
  - by vm_compute.
  - by vm_compute.
Qed.

Definition ex_receive : ReceiveOutcome * Db :=
  unwrap_or (@receive_ordinary ex_codec ex_queue_db ex_batch 500) (mkReceiveOutcome 0 0 [], empty_db).

Lemma ex_receive_ok : @receive_ordinary ex_codec ex_queue_db ex_batch 500 = Ok (ex_receive.1, ex_receive.2).
Proof. vm_compute. reflexivity. Qed.

Lemma receive_ordinary_durable_witness :
  rv_received ex_receive.1 = 2 ∧
  @received ex_codec ex_queue_db ex_batch 500 ex_receive.1 ex_receive.2 ∧ queue_wf ex_receive.2.
Proof.
  split; [vm_compute; reflexivity|].
  exact (@receive_ordinary_durable ex_codec _ _ _ _ _ ex_queue_store ex_queue_wf ex_receive_ok).
Defined.

(** ** Claiming and completing the page *)

Definition ex_tokens (i : nat) : string := ("token-" +:+ u64_to_string (Z.of_nat i))%string.
Definition ex_claimed : list InputClaim * Db :=
  unwrap_or (claim_inputs ex_receive.2 ex_binding 600 8 ex_tokens) ([], empty_db).

Lemma ex_received_wf : store_wf ex_receive.2 ∧ queue_wf ex_receive.2.
Proof.
  destruct (@received_spec ex_codec _ _ _ _ _ ex_queue_store ex_queue_wf ex_receive_ok)
    as (_ & ? & ?). done.
Qed.

Lemma ex_claimed_ok :
  claim_inputs ex_receive.2 ex_binding 600 8 ex_tokens = Ok (ex_claimed.1, ex_claimed.2).
Proof. vm_compute. reflexivity. Qed.

Lemma ex_claimed_wf : queue_wf ex_claimed.2.
Proof.
  exact (proj2 (claim_inputs_spec ex_receive.2 ex_binding 600 8 ex_tokens ex_claimed.1
           ex_claimed.2 (proj2 ex_received_wf) ltac:(lia) ex_claimed_ok)).
Qed.

Lemma queue_bounded_witness : store_wf ex_claimed.2 ∧ queue_wf ex_claimed.2.
Proof.
  apply (@queue_bounded ex_codec ex_queue_db ex_claimed.2 ex_queue_store ex_queue_wf).
  apply (rtc_l _ _ ex_receive.2).
  - exact (@q_receive ex_codec ex_queue_db ex_batch 500 ex_receive.1 ex_receive.2 ex_receive_ok).
  - apply rtc_once.
    exact (@q_claim ex_codec ex_receive.2 ex_binding 600 8 ex_tokens ex_claimed.1 ex_claimed.2
             ltac:(lia) ex_claimed_ok).
Defined.

Lemma claims_exclusive_and_live_witness :
  length ex_claimed.1 = 2%nat ∧
  claims_granted ex_receive.2 ex_binding 600 8 ex_claimed.1 ex_claimed.2.
Proof.
  split; [vm_compute; reflexivity|].
  exact (claims_exclusive_and_live ex_receive.2 ex_binding 600 8 ex_tokens ex_claimed.1
           ex_claimed.2 (proj2 ex_received_wf) ltac:(lia) ex_claimed_ok).
Defined.

Definition ex_claim : InputClaim := default (claim_of ex_binding (mkInbox "" "" "" "" "" "" "" VNull
  "" "" "" "" None None "" None None None 0 "" 0 None None None None None) "") (head ex_claimed.1).
Definition ex_old_claim : InputClaim :=
  mkClaim (ic_input_id ex_claim) "owner-1" "did:a" "account-1" "device-1" "1" "ordinary" "3" "10"
    "e10" "thread.read" (ic_payload ex_claim) None None "" None None "token-old" 1.

Lemma stale_claim_fenced_witness :
  @complete_claim ex_codec ex_claimed.2 ex_old_claim 610 = superseded ∧
  park_timeout ex_claimed.2 ex_old_claim 610 = (false, ex_claimed.2).
Proof.
  destruct (@stale_claim_fenced ex_codec ex_claimed.2 ex_claim ex_old_claim 610)
    as (_ & Hc & Hp & _).
  - exact ex_claimed_wf.
  - vm_compute. reflexivity.
  - vm_compute. reflexivity.
  - by vm_compute.
  - by split; [apply Hc|apply Hp].
Defined.

Definition ex_row (id lane scope : string) (created : Z) : InboxRow :=
  mkInbox id "owner-1" lane "3" id id "thread.read" VNull "account-1" "device-1" "1" "inst-1"
    None None "" None None None created scope 0 None None None (Some 0) None.

(** The reducer recorded the event as applied. *)
Definition ex_applied_row : AppliedEventRow :=
  mkAppliedRow (mkReceipt "owner-1" "e10" "3" "10" 610) None.
Definition ex_reduced_db : Db := with_applied [ex_applied_row] ex_claimed.2.
Definition ex_completed_db : Db :=
  unwrap_or (@complete_claim ex_codec ex_reduced_db ex_claim 611) empty_db.

Lemma with_applied_queue_wf t db : queue_wf db → queue_wf (with_applied t db).
Proof. intros [H1 H2 H3]. by split. Qed.

Lemma ex_reduced_ready : receipt_ready ex_reduced_db ex_claim.
Proof.
  unfold receipt_ready.
  replace (is_ordinary_or_baseline (ic_lane ex_claim)) with true by (vm_compute; reflexivity).
  exists ex_applied_row. split; [by left|]. split_and!; vm_compute; reflexivity.
Qed.

Lemma ex_reduced_source : claim_source ex_reduced_db ex_claim.
Proof.
  exists (default (ex_row "" "" "" 0) (head (db_inbox ex_claimed.2))).
  split; [apply (list_elem_of_lookup_2 _ 0); vm_compute; reflexivity|].
  split_and!; vm_compute; reflexivity.
Qed.

Lemma complete_claim_once_witness :
  @claim_was_completed ex_codec ex_completed_db ex_claim = Ok true ∧
  @input_is_duplicate ex_codec ex_completed_db "owner-1" "ordinary" "3"
    (ex_event "e10" "10" "s1") = Ok true.
Proof.
  destruct (@complete_claim_once ex_codec ex_reduced_db ex_claim 611 ex_completed_db)
    as (_ & _ & Hd & _ & Hr).
  - exact (with_applied_queue_wf _ _ ex_claimed_wf).
  - vm_compute. reflexivity.
  - exact ex_reduced_ready.
  - exact ex_reduced_source.
  - split; [exact Hd|]. apply (Hr (ex_event "e10" "10" "s1")); vm_compute; reflexivity.
Defined.

(** A busy conversation of the ordinary lane beside one secure input. *)
Definition ex_busy_db : Db :=
  with_inbox [ex_row "1" "ordinary" "busy" 1; ex_row "2" "ordinary" "busy" 2;
              ex_row "3" "ordinary" "quiet" 3; ex_row "4" "p5_device" "quiet" 4] ex_queue_db.

Example ex_fair_order :
  in_input_id <$> fair_inputs ex_busy_db ex_binding 600 3 = ["1"; "4"; "3"]%string.
Proof. vm_compute. reflexivity. Qed.

Lemma claim_round_fair_witness :
  Z.of_nat (length (fair_inputs ex_busy_db ex_binding 600 2)) = 2 ∧
  ∃ x, x ∈ fair_inputs ex_busy_db ex_binding 600 2 ∧ in_lane x = "p5_device"%string.
Proof.
  destruct (claim_round_fair ex_busy_db ex_binding 600 2) as (Hn & Hl & _); [|lia|].
  - split; [apply (bool_decide_unpack _); vm_compute; exact I..|].
    intros r Hr. repeat (apply elem_of_cons in Hr as [->|Hr]; [split; by intros []|]).
    by apply elem_of_nil in Hr.
  - split; [exact Hn|].
    apply (Hl (ex_row "4" "p5_device" "quiet" 4)); [apply (list_elem_of_lookup_2 _ 3); vm_compute; reflexivity|].
    vm_compute. discriminate.
Defined.
