(* ===== verification/Lanes.v ===== *)
(** * Secure lanes

    [local_state/sync_v2.rs]: the two end-to-end encrypted lanes (P5 device
    messages, P6 group messages) have their own cursors, negotiated with the
    server. [commit_sync_lane_handoff] stores a lane event in the receive queue
    and moves the lane cursor in one transaction; the domain (session or group)
    later records an outcome for it, which is final once closed; receipts and
    blockers serve the older direct path.

    The lane tables live beside the tables of [Db] in [LaneDb]. The outcome tables
    reference the queue with [ON DELETE CASCADE]: [with_queue] removes the
    outcomes of inputs that left it. *)

From S2P Require Import Prelude RustStr ImError Decimal Dto Store SyncStore Inbox.
Local Open Scope Z_scope.

Definition SYNC_LANE_INPUT_MAX_BYTES : Z := 1024 * 1024.

Definition lane_as_str (lane : SyncLaneV3) : string :=
  match lane with P5Device => "p5_device" | P6Group => "p6_group" end.
#[export] Instance sync_lane_eq_dec : EqDecision SyncLaneV3.
Proof. solve_decision. Defined.

Record LaneSyncState := mkLaneState {
  ln_owner : string;
  ln_lane : SyncLaneV3;
  ln_stream_epoch : string;
  ln_scan_seq : string;
  ln_committed_seq : string }.

Record SyncLaneHandoffInput := mkHandoff {
  ho_owner : string;
  ho_account : string;
  ho_device : string;
  ho_auth_generation : string;
  ho_client_instance : string;
  ho_lane : SyncLaneV3;
  ho_lane_epoch : string;
  ho_position : string;
  ho_event_id : string;
  ho_event_type : string;
  ho_raw_payload : Value;
  ho_group_did : option string;
  ho_received_at : string;
  ho_source_created_at : option string;
  ho_source_expires_at : option string }.

Inductive SyncLaneHandoffOutcome : Type := Inserted | Duplicate.

Inductive SyncLaneDomainStatus : Type :=
| Pending
| Processing
| DomainApplied
| Terminal
| RejoinRequired
| RepairRequired
| UpgradeRequired
| ActionRequired.
#[export] Instance domain_status_eq_dec : EqDecision SyncLaneDomainStatus.
Proof. solve_decision. Defined.

Definition status_as_str (s : SyncLaneDomainStatus) : string :=
  match s with
  | Pending => "pending"
  | Processing => "processing"
  | DomainApplied => "applied"
  | Terminal => "terminal"
  | RejoinRequired => "rejoin_required"
  | RepairRequired => "repair_required"
  | UpgradeRequired => "upgrade_required"
  | ActionRequired => "action_required"
  end.
Definition is_closed (s : SyncLaneDomainStatus) : bool :=
  match s with Pending | Processing => false | _ => true end.

Record SyncLaneDomainState := mkDomainState {
  ds_input_id : string;
  ds_lane : SyncLaneV3;
  ds_scope : string;
  ds_status : SyncLaneDomainStatus;
  ds_retryable : bool;
  ds_attempt_count : Z;
  ds_next_retry_at : option Z;
  ds_operation_ref : option string;
  ds_last_error_code : option string }.

Record SyncLaneEventReceipt := mkLaneReceipt {
  lr_owner : string;
  lr_lane : SyncLaneV3;
  lr_event_id : string;
  lr_stream_epoch : string;
  lr_event_seq : string;
  lr_group_did : option string;
  lr_group_event_seq : option string;
  lr_applied_at : Z }.

Inductive SyncLaneEventReceiptMatch : Type := Missing | Exact | Conflict.

Record P6LaneBlocker := mkBlocker {
  bl_owner : string;
  bl_event_id : string;
  bl_stream_epoch : string;
  bl_event_seq : string;
  bl_event_type : string;
  bl_group_did : string;
  bl_group_event_seq : option string;
  bl_payload_json : string;
  bl_attempt_count : Z;
  bl_last_error_code : string;
  bl_created_at : Z;
  bl_updated_at : Z }.

(** ** The lane tables *)

(** A row of [lane_sync_state], keyed by owner and lane name. *)
Record LaneRow := mkLaneRow {
  lw_stream_epoch : string;
  lw_scan_seq : string;
  lw_committed_seq : string }.

(** A row of [sync_lane_capability_state]. *)
Record LaneCapability := mkCapability {
  lc_generation : string;
  lc_client_instance : option string;
  lc_capabilities_json : option string }.

(** A row of [sync_p5_input_outcomes] or [sync_p6_input_outcomes]. *)
Record OutcomeRow := mkOutcome {
  oc_owner : string;
  oc_scope : string;
  oc_status : string;
  oc_retryable : bool;
  oc_attempt_count : Z;
  oc_next_retry_at : option Z;
  oc_operation_ref : option string;
  oc_last_error_code : option string;
  oc_updated_at : Z }.

Record LaneDb := mkLaneDb {
  ld_db : Db;
  ld_lanes : gmap (string * string) LaneRow;
  ld_capabilities : gmap string LaneCapability;
  ld_transport : gmap (string * string) (option string * Z);
  ld_p5 : gmap string OutcomeRow;
  ld_p6 : gmap string OutcomeRow;
  ld_blockers : list P6LaneBlocker }.

Definition with_lanes m db :=
  mkLaneDb (ld_db db) m (ld_capabilities db) (ld_transport db) (ld_p5 db) (ld_p6 db)
    (ld_blockers db).
Definition with_capabilities m db :=
  mkLaneDb (ld_db db) (ld_lanes db) m (ld_transport db) (ld_p5 db) (ld_p6 db)
    (ld_blockers db).
Definition with_transport m db :=
  mkLaneDb (ld_db db) (ld_lanes db) (ld_capabilities db) m (ld_p5 db) (ld_p6 db)
    (ld_blockers db).
Definition with_blockers t db :=
  mkLaneDb (ld_db db) (ld_lanes db) (ld_capabilities db) (ld_transport db) (ld_p5 db)
    (ld_p6 db) t.
Definition with_store d db :=
  mkLaneDb d (ld_lanes db) (ld_capabilities db) (ld_transport db) (ld_p5 db) (ld_p6 db)
    (ld_blockers db).

Definition outcomes (lane : SyncLaneV3) (db : LaneDb) : gmap string OutcomeRow :=
  match lane with P5Device => ld_p5 db | P6Group => ld_p6 db end.
Definition with_outcomes (lane : SyncLaneV3) m db :=
  match lane with
  | P5Device => mkLaneDb (ld_db db) (ld_lanes db) (ld_capabilities db) (ld_transport db) m
                  (ld_p6 db) (ld_blockers db)
  | P6Group => mkLaneDb (ld_db db) (ld_lanes db) (ld_capabilities db) (ld_transport db)
                 (ld_p5 db) m (ld_blockers db)
  end.

(** A new queue, with [ON DELETE CASCADE] on the outcomes of its inputs. *)
Definition queued (d : Db) (id : string) : Prop := id ∈ (in_input_id <$> db_inbox d).
#[export] Instance queued_dec d id : Decision (queued d id).
Proof. unfold queued. apply _. Defined.
Definition with_queue (d : Db) (db : LaneDb) : LaneDb :=
  let keep := filter (λ kv : string * OutcomeRow, queued d kv.1) in
  mkLaneDb d (ld_lanes db) (ld_capabilities db) (ld_transport db) (keep (ld_p5 db))
    (keep (ld_p6 db)) (ld_blockers db).

(** ** Names and validation *)

Definition parse_lane_name (value : string) : ImResult SyncLaneV3 :=
  if bool_decide (value = "p5_device"%string) then Ok P5Device
  else if bool_decide (value = "p6_group"%string) then Ok P6Group
  else Err (sync_error "SYNC_LOCAL_STATE_CORRUPT" "stored lane name is invalid").

Definition parse_lane_domain_status (value : string) : ImResult SyncLaneDomainStatus :=
  match find (λ s, bool_decide (status_as_str s = value))
          [Pending; Processing; DomainApplied; Terminal; RejoinRequired; RepairRequired;
           UpgradeRequired; ActionRequired] with
  | Some s => Ok s
  | None => Err (sync_error "LANE_DOMAIN_STATE_INVALID" "stored lane domain state is unknown")
  end.

Definition validate_lane_sync_state (state : LaneSyncState) : ImResult unit :=
  _ ← validate_required "owner_identity_id" (ln_owner state);
  _ ← validate_positive_decimal "stream_epoch" (ln_stream_epoch state);
  _ ← validate_decimal "scan_seq" (ln_scan_seq state);
  _ ← validate_decimal "committed_seq" (ln_committed_seq state);
  order ← compare_decimal (ln_committed_seq state) (ln_scan_seq state);
  if bool_decide (order = Gt) then
    Err (sync_error "SYNC_INVALID_PAGE"
           "lane committed watermark cannot exceed its scan cursor")
  else Ok ().

Definition blank (o : option string) : bool :=
  match o with Some s => is_empty (trim s) | None => true end.

Definition validate_sync_lane_handoff_input (input : SyncLaneHandoffInput) : ImResult unit :=
  _ ← validate_required "owner_identity_id" (ho_owner input);
  _ ← validate_required "account_id_snapshot" (ho_account input);
  _ ← validate_required "device_id_snapshot" (ho_device input);
  _ ← validate_positive_decimal "auth_generation_snapshot" (ho_auth_generation input);
  _ ← validate_required "client_instance_id_snapshot" (ho_client_instance input);
  _ ← validate_positive_decimal "lane_epoch" (ho_lane_epoch input);
  _ ← validate_positive_decimal "position" (ho_position input);
  _ ← validate_required "event_id" (ho_event_id input);
  _ ← validate_required "received_at" (ho_received_at input);
  if negb (is_object (ho_raw_payload input)) then
    Err (sync_error "LANE_INPUT_INVALID" "lane raw payload must be a complete JSON object")
  else if negb match ho_lane input with
               | P5Device =>
                   bool_decide (ho_event_type input = "p5.delivery.created"%string)
                   && bool_decide (ho_group_did input = None)
               | P6Group =>
                   bool_decide (ho_event_type input ∈
                     ["p6.delivery.created"; "p6.control.notice"]%string)
                   && negb (blank (ho_group_did input))
               end then
    Err (sync_error "LANE_INPUT_INVALID"
           "lane input does not match its production event discriminator")
  else Ok ().

Definition validate_sync_lane_domain_state (state : SyncLaneDomainState) : ImResult unit :=
  _ ← validate_required "input_id" (ds_input_id state);
  _ ← validate_required "scope" (ds_scope state);
  if (ds_attempt_count state <? 0)
     || (is_closed (ds_status state) && ds_retryable state)
     || (negb (ds_retryable state) && bool_decide (is_Some (ds_next_retry_at state)))
     || (bool_decide (ds_lane state = P5Device)
         && bool_decide (ds_status state ∈ [RejoinRequired; ActionRequired])) then
    Err (sync_error "LANE_DOMAIN_STATE_INVALID"
           "lane domain state violates its closed retry contract")
  else Ok ().

Definition validate_sync_lane_event_receipt (receipt : SyncLaneEventReceipt) : ImResult unit :=
  _ ← validate_required "owner_identity_id" (lr_owner receipt);
  _ ← validate_required "event_id" (lr_event_id receipt);
  _ ← validate_positive_decimal "stream_epoch" (lr_stream_epoch receipt);
  _ ← validate_positive_decimal "event_seq" (lr_event_seq receipt);
  match lr_lane receipt with
  | P5Device =>
      if bool_decide (is_Some (lr_group_did receipt))
         || bool_decide (is_Some (lr_group_event_seq receipt)) then
        Err (sync_error "SYNC_INVALID_PAGE" "P5 receipt cannot carry a group position")
      else Ok ()
  | P6Group =>
      if blank (lr_group_did receipt) then
        Err (sync_error "SYNC_INVALID_PAGE" "P6 receipt requires group_did")
      else
        match lr_group_event_seq receipt with
        | Some seq => validate_positive_decimal "group_event_seq" seq
        | None => Ok ()
        end
  end.

(** ** Lane cursors and negotiated capabilities *)

(** [serde_json::from_str]; [None] when the text is not valid JSON. *)
Class JsonText := { from_str : string → option Value }.

Definition lane_binding {A} (detail : string) : ImResult A :=
  Err (IdentityBindingConflict detail).

(** The rows of an owner, the P5 lane first; the table admits these two lanes. *)
Definition lane_rows (db : LaneDb) (owner : string) : list (string * LaneRow) :=
  omap (λ lane, (λ row, (lane, row)) <$> ld_lanes db !! (owner, lane))
    ["p5_device"; "p6_group"]%string.

Definition load_all_lane_sync_states (db : LaneDb) (owner : string)
    : ImResult (list LaneSyncState) :=
  _ ← validate_required "owner_identity_id" owner;
  match load_identity_account_binding (ld_db db) owner with
  | None => lane_binding "lane sync state requires an active account binding"
  | Some _ =>
      try_fold
        (λ states lr,
           lane ← parse_lane_name lr.1;
           let state := mkLaneState owner lane (lw_stream_epoch lr.2) (lw_scan_seq lr.2)
                          (lw_committed_seq lr.2) in
           _ ← validate_lane_sync_state state;
           Ok (states ++ [state]))
        [] (lane_rows db owner)
  end.

Definition put_lane (state : LaneSyncState) (db : LaneDb) : LaneDb :=
  with_lanes
    (<[(ln_owner state, lane_as_str (ln_lane state)) :=
         mkLaneRow (ln_stream_epoch state) (ln_scan_seq state) (ln_committed_seq state)]>
       (ld_lanes db)) db.

Definition replace_lane_sync_states_in_transaction (db : LaneDb) (owner : string)
    (states : list LaneSyncState) : ImResult LaneDb :=
  _ ← validate_required "owner_identity_id" owner;
  match load_identity_account_binding (ld_db db) owner with
  | None => lane_binding "lane sync state requires an active account binding"
  | Some binding =>
      _ ← try_fold
        (λ lanes state,
           _ ← validate_lane_sync_state state;
           if negb (bool_decide (ln_owner state = owner)) then
             lane_binding "lane sync state belongs to another owner"
           else if bool_decide (ln_lane state ∈ lanes) then
             Err (sync_error "SYNC_INVALID_PAGE" "lane bootstrap contains a duplicate lane")
           else Ok (ln_lane state :: lanes))
        [] states;
      let db1 := fold_left (λ db state, put_lane state db) states db in
      let row := match ld_capabilities db1 !! owner with
                 | Some c => mkCapability (ib_auth_generation binding)
                               (lc_client_instance c) (lc_capabilities_json c)
                 | None => mkCapability (ib_auth_generation binding) None None
                 end in
      Ok (with_capabilities (<[owner := row]> (ld_capabilities db1)) db1)
  end.

Definition replace_lane_sync_states := replace_lane_sync_states_in_transaction.

Definition capability_input {A} (detail : string) : ImResult A :=
  Err (invalid_input (Some "negotiated_capabilities_json"%string) detail).

Definition negotiation_state_invalid {A} (detail : string) : ImResult A :=
  Err (sync_error "SYNC_NEGOTIATION_STATE_INVALID" detail).

Section text.
Context `{JsonText}.

Definition record_sync_lane_capability_negotiation_v1a (db : LaneDb)
    (owner generation client_instance capabilities_json : string) : ImResult LaneDb :=
  _ ← validate_required "owner_identity_id" owner;
  _ ← validate_positive_decimal "device_auth_generation" generation;
  _ ← validate_required "client_instance_id" client_instance;
  match from_str capabilities_json with
  | None => capability_input "negotiated capabilities must be valid JSON"
  | Some v =>
      match as_array v with
      | None => capability_input "negotiated capabilities must be an array"
      | Some capabilities =>
          _ ← try_fold
            (λ seen v,
               match as_str v with
               | None => capability_input "negotiated capabilities must contain strings"
               | Some c =>
                   if negb (bool_decide (c ∈ ["lanes.p5_device.v1"; "lanes.p6_group.v1"]%string))
                      || bool_decide (c ∈ seen) then
                     capability_input
                       "negotiated capabilities contain an unknown or duplicate lane"
                   else Ok (c :: seen)
               end) [] capabilities;
          if owner_bound (ld_db db) owner then
            Ok (with_capabilities
                  (<[owner := mkCapability generation (Some client_instance)
                                (Some capabilities_json)]> (ld_capabilities db)) db)
          else constraint_failed
      end
  end.

Definition reconcile_sync_lane_capability_v1a (db : LaneDb) (owner : string)
    (states : list LaneSyncState) (generation client_instance capabilities_json : string)
    : ImResult LaneDb :=
  db1 ← replace_lane_sync_states_in_transaction db owner states;
  record_sync_lane_capability_negotiation_v1a db1 owner generation client_instance
    capabilities_json.

(** [None]: nothing negotiated yet; a set of an older generation or installation
    counts as empty. *)
Definition load_negotiated_lanes_v1a (db : LaneDb) (binding : IdentityAccountBinding)
    : ImResult (option (list SyncLaneV3)) :=
  match ld_capabilities db !! ib_owner binding with
  | None => Ok None
  | Some row =>
      match lc_client_instance row, lc_capabilities_json row with
      | None, None => Ok None
      | Some client_instance, Some json =>
          if negb (bool_decide (lc_generation row = ib_auth_generation binding))
             || negb (bool_decide (db_installations (ld_db db) !! ib_owner binding
                                     = Some client_instance)) then
            Ok (Some [])
          else
            match from_str json with
            | None =>
                negotiation_state_invalid "stored negotiated lane capabilities are invalid JSON"
            | Some v =>
                match as_array v with
                | None =>
                    negotiation_state_invalid
                      "stored negotiated lane capabilities are not an array"
                | Some values =>
                    lanes ← try_fold
                      (λ lanes v,
                         match as_str v with
                         | None =>
                             negotiation_state_invalid
                               "stored negotiated lane capability is not a string"
                         | Some c =>
                             lane ← (if bool_decide (c = "lanes.p5_device.v1"%string)
                                     then Ok P5Device
                                     else if bool_decide (c = "lanes.p6_group.v1"%string)
                                     then Ok P6Group
                                     else negotiation_state_invalid
                                       "stored negotiated lane capability is unknown");
                             if bool_decide (lane ∈ lanes) then
                               negotiation_state_invalid
                                 "stored negotiated lane capability is duplicated"
                             else Ok (lanes ++ [lane])
                         end) [] values;
                    Ok (Some lanes)
                end
            end
      | _, _ =>
          negotiation_state_invalid "stored negotiated lane capability state is incomplete"
      end
  end.

Definition load_lane_sync_states (db : LaneDb) (owner : string)
    : ImResult (list LaneSyncState) :=
  _ ← validate_required "owner_identity_id" owner;
  match load_identity_account_binding (ld_db db) owner with
  | None => lane_binding "lane sync state requires an active account binding"
  | Some binding =>
      negotiated ← load_negotiated_lanes_v1a db binding;
      states ← load_all_lane_sync_states db owner;
      Ok match negotiated with
         | None => states
         | Some lanes => filter (λ state, ln_lane state ∈ lanes) states
         end
  end.

(** The generation negotiated by the current installation. *)
Definition negotiated_generation (db : LaneDb) (owner : string) : option string :=
  row ← ld_capabilities db !! owner;
  installation ← db_installations (ld_db db) !! owner;
  if bool_decide (lc_client_instance row = Some installation) then Some (lc_generation row)
  else None.

(** Two [BTreeSet]s of lanes are equal when they have the same lanes. *)
Definition same_lanes (a b : list SyncLaneV3) : bool :=
  forallb (λ lane, bool_decide (lane ∈ a ↔ lane ∈ b)) [P5Device; P6Group].

Definition lane_capability_negotiation_required_with_lanes (db : LaneDb)
    (owner generation : string) (desired : option (list SyncLaneV3)) : ImResult bool :=
  _ ← validate_required "owner_identity_id" owner;
  _ ← validate_positive_decimal "device_auth_generation" generation;
  match load_identity_account_binding (ld_db db) owner with
  | None =>
      lane_binding "lane capability negotiation requires an active account binding"
  | Some binding =>
      if negb (bool_decide (ib_auth_generation binding = generation)) then
        lane_binding
          "lane capability negotiation uses a stale device authorization generation"
      else
        changed ← match desired with
                  | Some lanes =>
                      stored ← load_negotiated_lanes_v1a db binding;
                      Ok match stored with
                         | Some s => negb (same_lanes s lanes)
                         | None => true
                         end
                  | None => Ok false
                  end;
        Ok (negb (bool_decide (negotiated_generation db owner = Some generation)) || changed)
  end.

Definition lane_capability_negotiation_required (db : LaneDb) (owner generation : string)
    : ImResult bool :=
  lane_capability_negotiation_required_with_lanes db owner generation None.
End text.

Definition advance_lane_sync_state_in_transaction (db : LaneDb) (next : LaneSyncState)
    : ImResult LaneDb :=
  _ ← validate_lane_sync_state next;
  states ← load_all_lane_sync_states db (ln_owner next);
  current ← ok_or (find (λ state, bool_decide (ln_lane state = ln_lane next)) states)
    (sync_error "SYNC_LANE_BOOTSTRAP_REQUIRED" "lane state is missing");
  if negb (bool_decide (ln_stream_epoch current = ln_stream_epoch next)) then
    Err (sync_error "SYNC_LANE_EPOCH_MISMATCH"
           "lane stream epoch does not match the bootstrapped cursor")
  else
    scan ← compare_decimal (ln_scan_seq next) (ln_scan_seq current);
    regressed ← (if bool_decide (scan = Lt) then Ok true
                 else committed ← compare_decimal (ln_committed_seq next)
                                    (ln_committed_seq current);
                      Ok (bool_decide (committed = Lt)));
    if regressed : bool then
      Err (sync_error "SYNC_CURSOR_REGRESSION"
             "lane cursor and committed watermark cannot move backwards")
    else
      let key := (ln_owner next, lane_as_str (ln_lane next)) in
      match ld_lanes db !! key with
      | Some row =>
          if bool_decide (lw_stream_epoch row = ln_stream_epoch next) then
            Ok (with_lanes
                  (<[key := mkLaneRow (lw_stream_epoch row) (ln_scan_seq next)
                              (ln_committed_seq next)]> (ld_lanes db)) db)
          else lane_binding "lane sync cursor changed while it was being advanced"
      | None => lane_binding "lane sync cursor changed while it was being advanced"
      end.

(** ** Transport errors *)

Definition put_transport (owner : string) (lane : SyncLaneV3) (error : option string) (now : Z)
    (db : LaneDb) : LaneDb :=
  with_transport (<[(owner, lane_as_str lane) := (error, now)]> (ld_transport db)) db.

Definition record_lane_transport_error (db : LaneDb) (owner : string) (lane : SyncLaneV3)
    (error : option string) (now : Z) : ImResult LaneDb :=
  _ ← validate_required "owner_identity_id" owner;
  if owner_bound (ld_db db) owner then Ok (put_transport owner lane error now db)
  else constraint_failed.

Definition clear_lane_transport_error_in_transaction (db : LaneDb) (owner : string)
    (lane : SyncLaneV3) (now : Z) : ImResult LaneDb :=
  if owner_bound (ld_db db) owner then Ok (put_transport owner lane None now db)
  else constraint_failed.

Definition load_lane_transport_states (db : LaneDb) (owner : string)
    : list (SyncLaneV3 * option string) :=
  omap (λ lane, (λ row : option string * Z, (lane, row.1)) <$>
                  ld_transport db !! (owner, lane_as_str lane)) [P5Device; P6Group].

(** ** Handing an event to the queue *)

(** [PartialEq for serde_json::Value]; objects are maps. *)
Definition number_eqb (a b : Number) : bool :=
  match a, b with
  | PosInt x, PosInt y | NegInt x, NegInt y | Float x, Float y => x =? y
  | _, _ => false
  end.
Fixpoint value_eqb (a b : Value) {struct a} : bool :=
  match a, b with
  | VNull, VNull => true
  | VBool x, VBool y => eqb x y
  | VNumber x, VNumber y => number_eqb x y
  | VString x, VString y => bool_decide (x = y)
  | VArray l, VArray l' =>
      (fix go l l' :=
         match l, l' with
         | [], [] => true
         | x :: l, y :: l' => value_eqb x y && go l l'
         | _, _ => false
         end) l l'
  | VObject m, VObject m' =>
      (length m =? length m')%nat
      && (fix go m :=
            match m with
            | [] => true
            | (k, v) :: m =>
                match assoc k m' with Some v' => value_eqb v v' | None => false end && go m
            end) m
  | _, _ => false
  end.

Definition lane_conflict {A} (detail : string) : ImResult A :=
  Err (sync_error "LANE_INPUT_CONFLICT" detail).

Definition validate_sync_lane_handoff_binding (db : LaneDb) (input : SyncLaneHandoffInput)
    : ImResult unit :=
  match load_identity_account_binding (ld_db db) (ho_owner input) with
  | None => lane_binding "lane handoff requires an active account binding"
  | Some binding =>
      if negb (bool_decide (ib_account binding = ho_account input))
         || negb (bool_decide (ib_device binding = ho_device input))
         || negb (bool_decide (ib_auth_generation binding = ho_auth_generation input)) then
        lane_binding "lane handoff binding snapshot does not match the active replica"
      else if negb (bool_decide (db_installations (ld_db db) !! ho_owner input
                                   = Some (ho_client_instance input))) then
        lane_binding "lane handoff client installation snapshot is stale"
      else Ok ()
  end.

Section handoff.
Context `{QueueCodec}.

Definition stable_sync_lane_input_id (owner : string) (lane : SyncLaneV3)
    (epoch event_id : string) : ImResult string :=
  _ ← validate_required "owner_identity_id" owner;
  _ ← validate_positive_decimal "lane_epoch" epoch;
  _ ← validate_required "event_id" event_id;
  Ok (encode_input_id owner (lane_as_str lane) epoch event_id).

(** The group, else the sender, else the event itself. *)
Definition handoff_scope (input : SyncLaneHandoffInput) : string :=
  match ho_group_did input with
  | Some did => did
  | None => default (ho_event_id input)
              (pointer (ho_raw_payload input) ["meta"; "sender_did"]%string ≫= as_str)
  end.

Definition handoff_row (input : SyncLaneHandoffInput) (input_id : string) (now : Z) : InboxRow :=
  mkInbox input_id (ho_owner input) (lane_as_str (ho_lane input)) (ho_lane_epoch input)
    (ho_position input) (ho_event_id input) (ho_event_type input) (ho_raw_payload input)
    (ho_account input) (ho_device input) (ho_auth_generation input) (ho_client_instance input)
    (ho_group_did input) None (ho_received_at input) (ho_source_created_at input)
    (ho_source_expires_at input) None now (handoff_scope input) 0 None None None (Some 0) None.

Definition handoff_cursor (input : SyncLaneHandoffInput) : LaneSyncState :=
  mkLaneState (ho_owner input) (ho_lane input) (ho_lane_epoch input) (ho_position input)
    (ho_position input).

(** [clock i] is the [i]-th reading of the system clock by the call. *)
Definition commit_sync_lane_handoff (db : LaneDb) (input : SyncLaneHandoffInput)
    (clock : nat → Z) : ImResult (SyncLaneHandoffOutcome * LaneDb) :=
  _ ← validate_sync_lane_handoff_input input;
  if SYNC_LANE_INPUT_MAX_BYTES <? encoded_len (ho_raw_payload input) then
    Err (sync_error "LANE_INPUT_TOO_LARGE" "lane payload exceeds the fixed 1 MiB limit")
  else
    input_id ← stable_sync_lane_input_id (ho_owner input) (ho_lane input)
                 (ho_lane_epoch input) (ho_event_id input);
    _ ← validate_sync_lane_handoff_binding db input;
    let lane := lane_as_str (ho_lane input) in
    let t := db_inbox (ld_db db) in
    match head (select_where
                  (same_event (ho_owner input) lane (ho_lane_epoch input) (ho_event_id input)) t)
    with
    | Some stored =>
        if negb (bool_decide (in_position stored = ho_position input))
           || negb (bool_decide (in_event_type stored = ho_event_type input))
           || negb (value_eqb (in_payload stored) (ho_raw_payload input)) then
          lane_conflict "lane event identity is already bound to another position or payload"
        else
          db1 ← advance_lane_sync_state_in_transaction db (handoff_cursor input);
          db2 ← clear_lane_transport_error_in_transaction db1 (ho_owner input)
                  (ho_lane input) (clock 0%nat);
          Ok (Duplicate, db2)
    | None =>
        if exists_where
             (same_position (ho_owner input) lane (ho_lane_epoch input) (ho_position input)) t
        then lane_conflict "lane position is already bound to another event"
        else
          room ← make_room (ld_db db) 1 (clock 0%nat);
          let row := handoff_row input input_id (clock 1%nat) in
          if negb (owner_bound room.2 (ho_owner input)) || negb (inbox_checks row)
             || inbox_collides (db_inbox room.2) row
          then constraint_failed
          else
            let db1 := with_queue (with_inbox (db_inbox room.2 ++ [row]) room.2) db in
            db2 ← advance_lane_sync_state_in_transaction db1 (handoff_cursor input);
            db3 ← clear_lane_transport_error_in_transaction db2 (ho_owner input)
                    (ho_lane input) (clock 2%nat);
            Ok (Inserted, db3)
    end.
End handoff.

(** ** Consuming inputs and recording outcomes *)

(** [ORDER BY length(lane_epoch), lane_epoch, length(position), position, input_id]. *)
Definition shortlex_le (a b : string) : Prop :=
  (chars_count a < chars_count b)%nat ∨ (chars_count a = chars_count b ∧ str_le a b).
Definition lane_order_le (r r' : InboxRow) : Prop :=
  let key r := (in_lane_epoch r, in_position r) in
  (key r = key r' ∧ str_le (in_input_id r) (in_input_id r')) ∨
  (in_lane_epoch r = in_lane_epoch r' ∧ in_position r ≠ in_position r' ∧
     shortlex_le (in_position r) (in_position r')) ∨
  (in_lane_epoch r ≠ in_lane_epoch r' ∧ shortlex_le (in_lane_epoch r) (in_lane_epoch r')).
#[export] Instance shortlex_le_dec a b : Decision (shortlex_le a b).
Proof. unfold shortlex_le. apply _. Defined.
#[export] Instance lane_order_le_dec r r' : Decision (lane_order_le r r').
Proof. unfold lane_order_le. apply _. Defined.

Definition lane_record (r : InboxRow) : ImResult SyncLaneInboxRecord :=
  lane ← parse_lane_name (in_lane r);
  Ok (mkSecureInput (in_input_id r) (in_owner r) lane (in_lane_epoch r) (in_position r)
        (in_event_id r) (in_event_type r) (in_payload r) (in_group_did r) (in_received_at r)
        (in_source_created_at r) (in_source_expires_at r)).

Definition lane_pending (db : LaneDb) (owner : string) (lane : SyncLaneV3) (now : Z)
    (r : InboxRow) : bool :=
  bool_decide (in_owner r = owner) && bool_decide (in_lane r = lane_as_str lane)
  && bool_decide (in_closed_at r = None)
  && match outcomes lane db !! in_input_id r with
     | None => true
     | Some o =>
         bool_decide (oc_status o ∈ ["pending"; "processing"]%string)
         && match oc_next_retry_at o with Some t => t <=? now | None => true end
     end.

Definition list_pending_sync_lane_inputs (db : LaneDb) (owner : string) (lane : SyncLaneV3)
    (now limit : Z) : ImResult (list SyncLaneInboxRecord) :=
  _ ← validate_required "owner_identity_id" owner;
  if (limit =? 0) || (256 <? limit) then
    Err (invalid_input (Some "limit"%string) "lane consumer limit must be between 1 and 256")
  else
    try_fold (λ acc r, rec ← lane_record r; Ok (acc ++ [rec])) []
      (order_limit lane_order_le limit
         (select_where (lane_pending db owner lane now) (db_inbox (ld_db db)))).

Definition state_owner_identity_id (state : SyncLaneDomainState) (db : LaneDb)
    : ImResult string :=
  ok_or (in_owner <$> head (select_where
           (λ r, bool_decide (in_input_id r = ds_input_id state)) (db_inbox (ld_db db))))
    (sync_error "LANE_INPUT_MISSING" "lane input does not exist").

Definition write_outcome (db : LaneDb) (state : SyncLaneDomainState) (owner : string) (now : Z)
    : LaneDb :=
  let db1 := with_outcomes (ds_lane state)
    (<[ds_input_id state :=
         mkOutcome match outcomes (ds_lane state) db !! ds_input_id state with
                   | Some o => oc_owner o
                   | None => owner
                   end (ds_scope state) (status_as_str (ds_status state)) (ds_retryable state)
           (ds_attempt_count state) (ds_next_retry_at state) (ds_operation_ref state)
           (ds_last_error_code state) now]> (outcomes (ds_lane state) db)) db in
  with_store
    (update_inbox (λ r, bool_decide (in_input_id r = ds_input_id state))
       (λ r, in_set r (if is_closed (ds_status state) then Some now else None)
               (in_attempt_count r) (in_attempt_token r) (in_attempt_deadline r)
               (in_last_attempt_at r) (in_next_attempt_at r) (in_error_code r))
       (ld_db db1)) db1.

Definition write_sync_lane_domain_state_in_transaction (db : LaneDb)
    (state : SyncLaneDomainState) (now : Z) : ImResult LaneDb :=
  _ ← validate_sync_lane_domain_state state;
  owner ← state_owner_identity_id state db;
  row ← ok_or (head (select_where
      (λ r, bool_decide (in_input_id r = ds_input_id state) && bool_decide (in_owner r = owner))
      (db_inbox (ld_db db))))
    (sync_error "LANE_INPUT_MISSING" "domain outcome references a missing lane input");
  stored_lane ← parse_lane_name (in_lane row);
  if negb (bool_decide (stored_lane = ds_lane state)) then
    lane_conflict "domain outcome lane does not match its input"
  else
    match outcomes (ds_lane state) db !! ds_input_id state with
    | None => Ok (write_outcome db state owner now)
    | Some existing =>
        status ← parse_lane_domain_status (oc_status existing);
        if is_closed status then
          if bool_decide (status = ds_status state) then Ok db
          else Err (sync_error "LANE_DOMAIN_STATE_CONFLICT"
                      "closed lane domain outcome cannot be reopened or rewritten")
        else Ok (write_outcome db state owner now)
    end.

Definition write_sync_lane_domain_state := write_sync_lane_domain_state_in_transaction.

Definition outcome_id_le (a b : string * OutcomeRow) : Prop := str_le a.1 b.1.
#[export] Instance outcome_id_le_dec a b : Decision (outcome_id_le a b).
Proof. unfold outcome_id_le. apply _. Defined.

Definition load_sync_lane_domain_states (db : LaneDb) (owner : string)
    : ImResult (list SyncLaneDomainState) :=
  _ ← validate_required "owner_identity_id" owner;
  try_fold
    (λ states lane,
       try_fold
         (λ states io,
            status ← parse_lane_domain_status (oc_status io.2);
            Ok (states ++ [mkDomainState io.1 lane (oc_scope io.2) status (oc_retryable io.2)
                             (oc_attempt_count io.2) (oc_next_retry_at io.2)
                             (oc_operation_ref io.2) (oc_last_error_code io.2)]))
         states
         (merge_sort outcome_id_le
            (map_to_list (filter (λ io : string * OutcomeRow, oc_owner io.2 = owner)
                            (outcomes lane db)))))
    [] [P5Device; P6Group].

Definition purge_closed_sync_lane_inputs (db : LaneDb) (now limit : Z)
    : ImResult (Z * LaneDb) :=
  if (limit =? 0) || (1024 <? limit) then
    Err (invalid_input (Some "limit"%string)
           "lane inbox cleanup limit must be between 1 and 1024")
  else
    purged ← purge_expired (ld_db db) now limit;
    Ok (Z.of_nat (length purged.1), with_queue purged.2 db).

(** ** Receipts and blockers of the direct path *)

Definition receipt_row (receipt : SyncLaneEventReceipt) (r : LaneAppliedRow) : bool :=
  bool_decide (la_owner r = lr_owner receipt)
  && bool_decide (la_lane r = lane_as_str (lr_lane receipt))
  && bool_decide (la_event_id r = lr_event_id receipt).

Definition group_position_exists (t : list LaneAppliedRow) (receipt : SyncLaneEventReceipt)
    : bool :=
  match lr_lane receipt, lr_group_did receipt, lr_group_event_seq receipt with
  | P6Group, Some did, Some seq =>
      exists_where
        (λ r, bool_decide (la_owner r = lr_owner receipt)
              && bool_decide (la_lane r = "p6_group"%string)
              && bool_decide (la_group_did r = Some did)
              && bool_decide (la_group_event_seq r = Some seq)) t
  | _, _, _ => false
  end.

Definition position_exists (t : list LaneAppliedRow) (receipt : SyncLaneEventReceipt) : bool :=
  exists_where
    (λ r, bool_decide (la_owner r = lr_owner receipt)
          && bool_decide (la_lane r = lane_as_str (lr_lane receipt))
          && bool_decide (la_stream_epoch r = lr_stream_epoch receipt)
          && bool_decide (la_event_seq r = lr_event_seq receipt)) t.

Definition sync_lane_event_receipt_match (db : LaneDb) (receipt : SyncLaneEventReceipt)
    : ImResult SyncLaneEventReceiptMatch :=
  _ ← validate_sync_lane_event_receipt receipt;
  let t := db_lane_applied (ld_db db) in
  Ok match head (select_where (receipt_row receipt) t) with
     | Some r =>
         if bool_decide (la_stream_epoch r = lr_stream_epoch receipt)
            && bool_decide (la_event_seq r = lr_event_seq receipt)
            && bool_decide (la_group_did r = lr_group_did receipt)
            && bool_decide (la_group_event_seq r = lr_group_event_seq receipt)
         then Exact else Conflict
     | None =>
         if group_position_exists t receipt then Exact
         else if position_exists t receipt then Conflict
         else Missing
     end.

(** A checkpoint that covers the event at [seq]. *)
Definition covers (next : LaneSyncState) (seq : string) : ImResult bool :=
  scan ← compare_decimal (ln_scan_seq next) seq;
  if bool_decide (scan = Lt) then Ok false
  else
    committed ← compare_decimal (ln_committed_seq next) seq;
    Ok (negb (bool_decide (committed = Lt))).

Definition invalid_checkpoint {A} (detail : string) : ImResult A :=
  Err (sync_error "SYNC_INVALID_PAGE" detail).

Definition check_receipt_checkpoint (receipt : SyncLaneEventReceipt)
    (next_state : option LaneSyncState) : ImResult unit :=
  match next_state with
  | None => Ok ()
  | Some next =>
      if negb (bool_decide (ln_owner next = lr_owner receipt))
         || negb (bool_decide (ln_lane next = lr_lane receipt)) then
        lane_binding "lane receipt and checkpoint belong to different scopes"
      else if negb (bool_decide (ln_stream_epoch next = lr_stream_epoch receipt)) then
        invalid_checkpoint "lane checkpoint does not cover the committed event"
      else
        covered ← covers next (lr_event_seq receipt);
        if covered : bool then Ok ()
        else invalid_checkpoint "lane checkpoint does not cover the committed event"
  end.

Definition receipt_of (receipt : SyncLaneEventReceipt) : LaneAppliedRow :=
  mkLaneApplied (lr_owner receipt) (lane_as_str (lr_lane receipt)) (lr_event_id receipt)
    (lr_stream_epoch receipt) (lr_event_seq receipt) (lr_group_did receipt)
    (lr_group_event_seq receipt) (lr_applied_at receipt) None.

Definition insert_lane_receipt (db : LaneDb) (receipt : SyncLaneEventReceipt) : ImResult LaneDb :=
  let t := db_lane_applied (ld_db db) in
  if owner_bound (ld_db db) (lr_owner receipt) && negb (exists_where (receipt_row receipt) t)
     && lane_applied_ok t (receipt_of receipt)
  then Ok (with_store (with_lane_applied (t ++ [receipt_of receipt]) (ld_db db)) db)
  else constraint_failed.

Definition blocker_key (owner event_id : string) (b : P6LaneBlocker) : bool :=
  bool_decide (bl_owner b = owner) && bool_decide (bl_event_id b = event_id).

Definition commit_sync_lane_event (db : LaneDb) (receipt : SyncLaneEventReceipt)
    (next_state : option LaneSyncState) (resolve_p6_blocker : bool) : ImResult LaneDb :=
  _ ← validate_sync_lane_event_receipt receipt;
  _ ← check_receipt_checkpoint receipt next_state;
  if resolve_p6_blocker && negb (bool_decide (lr_lane receipt = P6Group)) then
    invalid_checkpoint "only P6 receipts can resolve P6 blockers"
  else
    found ← sync_lane_event_receipt_match db receipt;
    db1 ← match found with
          | Missing => insert_lane_receipt db receipt
          | Exact => Ok db
          | Conflict =>
              Err (sync_error "SYNC_LANE_EVENT_CONFLICT"
                     "lane event identity conflicts with a committed receipt")
          end;
    let db2 :=
      if resolve_p6_blocker then
        with_blockers (delete_where (blocker_key (lr_owner receipt) (lr_event_id receipt))
                         (ld_blockers db1)) db1
      else db1 in
    match next_state with
    | Some next => advance_lane_sync_state_in_transaction db2 next
    | None => Ok db2
    end.

Section blockers.
Context `{JsonText}.

Definition blocker_canonical (b : P6LaneBlocker) : bool :=
  bool_decide (bl_event_type b ∈ ["p6.delivery.created"; "p6.control.notice"]%string)
  && (0 <? bl_attempt_count b) && (0 <=? bl_created_at b) && (bl_created_at b <=? bl_updated_at b)
  && negb (is_empty (trim (bl_last_error_code b)))
  && from_option is_object false (from_str (bl_payload_json b)).

Definition validate_p6_lane_blocker (b : P6LaneBlocker) : ImResult unit :=
  _ ← validate_required "owner_identity_id" (bl_owner b);
  _ ← validate_required "event_id" (bl_event_id b);
  _ ← validate_positive_decimal "stream_epoch" (bl_stream_epoch b);
  _ ← validate_positive_decimal "event_seq" (bl_event_seq b);
  _ ← validate_required "group_did" (bl_group_did b);
  _ ← match bl_group_event_seq b with
      | Some seq => validate_positive_decimal "group_event_seq" seq
      | None => Ok ()
      end;
  if blocker_canonical b then Ok ()
  else Err (sync_error "SYNC_LOCAL_STATE_CORRUPT" "P6 blocker is not canonical").

Definition blocker_same (a b : P6LaneBlocker) : bool :=
  bool_decide (bl_stream_epoch a = bl_stream_epoch b)
  && bool_decide (bl_event_seq a = bl_event_seq b)
  && bool_decide (bl_event_type a = bl_event_type b)
  && bool_decide (bl_group_did a = bl_group_did b)
  && bool_decide (bl_group_event_seq a = bl_group_event_seq b)
  && bool_decide (bl_payload_json a = bl_payload_json b).

Definition blocker_retried (new old : P6LaneBlocker) : P6LaneBlocker :=
  mkBlocker (bl_owner old) (bl_event_id old) (bl_stream_epoch old) (bl_event_seq old)
    (bl_event_type old) (bl_group_did old) (bl_group_event_seq old) (bl_payload_json old)
    (bl_attempt_count old + 1) (bl_last_error_code new) (bl_created_at old) (bl_updated_at new).

Definition upsert_blocker (db : LaneDb) (b : P6LaneBlocker) : ImResult LaneDb :=
  let t := ld_blockers db in
  let key := blocker_key (bl_owner b) (bl_event_id b) in
  if exists_where key t then
    Ok (with_blockers (update_where key (blocker_retried b) t) db)
  else if owner_bound (ld_db db) (bl_owner b)
          && negb (exists_where
                     (λ x, bool_decide (bl_owner x = bl_owner b)
                           && bool_decide (bl_stream_epoch x = bl_stream_epoch b)
                           && bool_decide (bl_event_seq x = bl_event_seq b)) t)
  then Ok (with_blockers (t ++ [b]) db)
  else constraint_failed.

Definition record_p6_lane_blocker_and_advance (db : LaneDb) (b : P6LaneBlocker)
    (next : LaneSyncState) : ImResult LaneDb :=
  _ ← validate_p6_lane_blocker b;
  covered ← (if negb (bool_decide (ln_owner next = bl_owner b))
                || negb (bool_decide (ln_lane next = P6Group))
                || negb (bool_decide (ln_stream_epoch next = bl_stream_epoch b))
             then Ok false else covers next (bl_event_seq b));
  if negb covered then
    invalid_checkpoint "P6 blocker checkpoint does not cover the deferred event"
  else if match head (select_where (blocker_key (bl_owner b) (bl_event_id b)) (ld_blockers db))
          with Some old => negb (blocker_same old b) | None => false end then
    Err (sync_error "SYNC_LANE_EVENT_CONFLICT"
           "P6 blocker identity conflicts with its stored payload")
  else
    db1 ← upsert_blocker db b;
    advance_lane_sync_state_in_transaction db1 next.

(** [ORDER BY length(event_seq), event_seq, event_id]. *)
Definition blocker_le (a b : P6LaneBlocker) : Prop :=
  (bl_event_seq a = bl_event_seq b ∧ str_le (bl_event_id a) (bl_event_id b)) ∨
  (bl_event_seq a ≠ bl_event_seq b ∧ shortlex_le (bl_event_seq a) (bl_event_seq b)).
#[export] Instance blocker_le_dec a b : Decision (blocker_le a b).
Proof. unfold blocker_le. apply _. Defined.

Definition list_p6_lane_blockers (db : LaneDb) (owner : string) (limit : Z)
    : ImResult (list P6LaneBlocker) :=
  _ ← validate_required "owner_identity_id" owner;
  if (limit =? 0) || (1000 <? limit) then
    Err (invalid_input (Some "limit"%string) "P6 blocker limit must be between 1 and 1000")
  else
    try_fold (λ acc b, _ ← validate_p6_lane_blocker b; Ok (acc ++ [b])) []
      (order_limit blocker_le limit
         (select_where (λ b, bool_decide (bl_owner b = owner)) (ld_blockers db))).
End blockers.
