(* ===== verification/LaneProps.v ===== *)
(** * Correctness of the secure lanes

    The invariant of the lane cursors, the step relation of the lane store and
    what each of its operations guarantees: durable handoff, cursors that never
    move back, outcomes that are final once closed, receipts recorded once, and
    deferred events that stay on record. *)

From S2P Require Import Prelude RustStr ImError Decimal Dto Store SyncStore Inbox InboxProps Lanes.
Local Open Scope Z_scope.

(** ** Cursors *)

Definition lane_key (s : LaneSyncState) : string * string := (ln_owner s, lane_as_str (ln_lane s)).
Definition lane_row (s : LaneSyncState) : LaneRow :=
  mkLaneRow (ln_stream_epoch s) (ln_scan_seq s) (ln_committed_seq s).

(** Every stored cursor names a lane and is well-formed: its epoch is a positive
    decimal and its committed position does not exceed its scan position. *)
Definition lanes_wf (m : gmap (string * string) LaneRow) : Prop :=
  ∀ k row, m !! k = Some row → ∃ s, k = lane_key s ∧ row = lane_row s ∧
    validate_lane_sync_state s = Ok ().

Lemma lane_as_str_inj l l' : lane_as_str l = lane_as_str l' → l = l'.
Proof. by destruct l, l'. Qed.

Lemma parse_lane_as_str l : parse_lane_name (lane_as_str l) = Ok l.
Proof. by destruct l. Qed.

Lemma parse_lane_name_Ok v l : parse_lane_name v = Ok l → v = lane_as_str l.
Proof. unfold parse_lane_name. intros Hp. repeat case_bool_decide; by simplify_eq. Qed.

Lemma validate_lane_Ok s :
  validate_lane_sync_state s = Ok () →
  canonical (ln_stream_epoch s) ∧ canonical (ln_scan_seq s) ∧ canonical (ln_committed_seq s) ∧
  gen_le (ln_committed_seq s) (ln_scan_seq s).
Proof.
  unfold validate_lane_sync_state. intros Hv. res_inv. bool_hyps.
  repeat match goal with
  | H : validate_positive_decimal _ _ = Ok () |- _ => apply validate_positive_decimal_Ok in H as [??]
  | H : compare_decimal _ _ = Ok _ |- _ => apply compare_decimal_Ok_inv in H as (?&?&->)
  end.
  done.
Qed.

Lemma load_all_elem db owner states s :
  load_all_lane_sync_states db owner = Ok states → s ∈ states →
  ln_owner s = owner ∧ ld_lanes db !! lane_key s = Some (lane_row s) ∧
  owner_bound (ld_db db) owner = true.
Proof.
  unfold load_all_lane_sync_states, load_identity_account_binding. intros Hl Hs. res_inv.
  destruct (db_bindings _ !! owner) eqn:Eb; [|done].
  match goal with H : try_fold _ _ _ = _ |- _ =>
    apply (try_fold_push (λ lr, lane ← parse_lane_name lr.1;
      Ok (mkLaneState owner lane (lw_stream_epoch lr.2) (lw_scan_seq lr.2)
                          (lw_committed_seq lr.2)))) in H as (ys & -> & Hall) end.
  2: { intros acc x r Hg. res_inv.
       match goal with H : parse_lane_name _ = _ |- _ => rewrite H end. simpl. eauto. }
  simpl in Hs. apply list_elem_of_lookup_1 in Hs as (j & Hj).
  destruct (Forall2_lookup_r _ _ _ _ _ Hall Hj) as ([lane row] & Hlr & Hf). simpl in Hf.
  apply list_elem_of_lookup_2 in Hlr. unfold lane_rows in Hlr.
  apply list_elem_of_omap in Hlr as (lane0 & _ & Hrow).
  apply fmap_Some in Hrow as (row0 & Hrow & [= -> ->]). res_inv.
  match goal with H : parse_lane_name _ = _ |- _ => apply parse_lane_name_Ok in H as -> end.
  unfold lane_key, lane_row. simpl. split_and!; [done| |].
  - rewrite Hrow. by destruct row0.
  - unfold owner_bound. by rewrite Eb.
Qed.

(** What a successful advance does. *)
Lemma advance_lane_inv db next db' :
  advance_lane_sync_state_in_transaction db next = Ok db' →
  validate_lane_sync_state next = Ok () ∧ owner_bound (ld_db db) (ln_owner next) = true ∧
  (∃ row, ld_lanes db !! lane_key next = Some row ∧
     lw_stream_epoch row = ln_stream_epoch next ∧
     gen_le (lw_scan_seq row) (ln_scan_seq next) ∧
     gen_le (lw_committed_seq row) (ln_committed_seq next)) ∧
  db' = with_lanes (<[lane_key next := lane_row next]> (ld_lanes db)) db.
Proof.
  unfold advance_lane_sync_state_in_transaction, lane_binding. intros Ha.
  apply bind_Ok in Ha as ([] & Hv & Ha). apply bind_Ok in Ha as (states & Hl & Ha).
  apply bind_Ok in Ha as (cur & Hf & Ha). apply ok_or_Ok, find_some in Hf as [Hin Hlane].
  apply bool_decide_eq_true in Hlane. apply list_elem_of_In in Hin.
  destruct (load_all_elem _ _ _ _ Hl Hin) as (Ho & Hrow & Hb).
  destruct (negb _) eqn:Ee in Ha; [done|].
  apply bind_Ok in Ha as (scan & Hs & Ha). apply bind_Ok in Ha as (regressed & Hr & Ha).
  destruct regressed; [done|].
  apply compare_decimal_Ok_inv in Hs as (_ & _ & ->).
  case_bool_decide as Hlt; [done|]. apply bind_Ok in Hr as (com & Hc & Hr).
  apply compare_decimal_Ok_inv in Hc as (_ & _ & ->). injection Hr as Hr.
  bool_hyps. assert (lane_key cur = lane_key next) as Ek
    by (unfold lane_key; by rewrite Ho, Hlane).
  rewrite Ek in Hrow. change (ln_owner next, lane_as_str (ln_lane next)) with (lane_key next) in Ha.
  rewrite Hrow in Ha. case_bool_decide as Hep; [|done]. injection Ha as <-.
  split_and!; [done|done| |].
  - exists (lane_row cur). split_and!; [done|done|..]; by apply Z.ge_le.
  - simpl in Hep. unfold lane_row. simpl. by rewrite Hep.
Qed.

Lemma advance_lanes_wf db next db' :
  lanes_wf (ld_lanes db) → advance_lane_sync_state_in_transaction db next = Ok db' →
  lanes_wf (ld_lanes db').
Proof.
  intros Hwf (Hv & _ & _ & ->)%advance_lane_inv k row. simpl. intros Hk.
  apply lookup_insert_Some in Hk as [[<- <-]|[_ Hk]]; [by exists next|by apply Hwf].
Qed.

Lemma clear_transport_inv db owner lane now db' :
  clear_lane_transport_error_in_transaction db owner lane now = Ok db' →
  db' = put_transport owner lane None now db.
Proof. unfold clear_lane_transport_error_in_transaction, constraint_failed. intros. by res_inv. Qed.

(** ** Handoff *)

Section handoff.
Context `{QueueCodec}.

Definition handoff_key (input : SyncLaneHandoffInput) : string * string * string * string :=
  (ho_owner input, lane_as_str (ho_lane input), ho_lane_epoch input, ho_event_id input).

(** The two ways a handoff commits. *)
Lemma handoff_inv db input clock out db' :
  commit_sync_lane_handoff db input clock = Ok (out, db') →
  ∃ d1 d2, advance_lane_sync_state_in_transaction d1 (handoff_cursor input) = Ok d2 ∧
  match out with
  | Duplicate =>
      d1 = db ∧ db' = put_transport (ho_owner input) (ho_lane input) None (clock 0%nat) d2 ∧
      ∃ r, r ∈ db_inbox (ld_db db) ∧ event_key r = handoff_key input ∧
        in_position r = ho_position input ∧ value_eqb (in_payload r) (ho_raw_payload input) = true
  | Inserted =>
      db' = put_transport (ho_owner input) (ho_lane input) None (clock 2%nat) d2 ∧
      ∃ id removed d0, make_room (ld_db db) 1 (clock 0%nat) = Ok (removed, d0) ∧
        inbox_collides (db_inbox d0) (handoff_row input id (clock 1%nat)) = false ∧
        d1 = with_queue (with_inbox (db_inbox d0 ++ [handoff_row input id (clock 1%nat)]) d0) db
  end.
Proof.
  unfold commit_sync_lane_handoff. intros Hc.
  apply bind_Ok in Hc as ([] & _ & Hc). destruct (_ <? _); [done|].
  apply bind_Ok in Hc as (id & _ & Hc). apply bind_Ok in Hc as ([] & _ & Hc).
  cbv zeta in Hc. destruct (head _) as [r|] eqn:Er.
  - destruct (_ || _) eqn:Eg in Hc; [done|]. apply bind_Ok in Hc as (d2 & Ha & Hc).
    apply bind_Ok in Hc as (d3 & ->%clear_transport_inv & [= <- <-]).
    exists db, d2. split; [done|]. split_and!; [done|done|]. exists r.
    apply head_Some_elem_of, elem_of_select_where in Er as [Hr Hk%same_event_true].
    bool_hyps. done.
  - destruct (exists_where _ _); [done|]. apply bind_Ok in Hc as ([removed d0] & Hroom & Hc).
    cbn [fst snd] in Hc. destruct (_ || _ || _) eqn:Eg in Hc; [done|].
    apply bind_Ok in Hc as (d2 & Ha & Hc).
    apply bind_Ok in Hc as (d3 & ->%clear_transport_inv & [= <- <-]).
    eexists _, d2. split; [exact Ha|]. split; [done|]. exists id, removed, d0.
    split_and!; [done| |done]. by bool_hyps.
Qed.

(** What a committed handoff guarantees. *)
Record handed_off (db : LaneDb) (input : SyncLaneHandoffInput) (now : Z)
    (out : SyncLaneHandoffOutcome) (db' : LaneDb) : Prop := {
  hf_stored : ∃ r, r ∈ db_inbox (ld_db db') ∧ event_key r = handoff_key input ∧
    in_position r = ho_position input ∧
    match out with
    | Inserted => in_payload r = ho_raw_payload input
    | Duplicate => value_eqb (in_payload r) (ho_raw_payload input) = true
    end;
  hf_cursor : ld_lanes db' !! (ho_owner input, lane_as_str (ho_lane input))
    = Some (mkLaneRow (ho_lane_epoch input) (ho_position input) (ho_position input));
  hf_forward : ∃ row, ld_lanes db !! (ho_owner input, lane_as_str (ho_lane input)) = Some row ∧
    lw_stream_epoch row = ho_lane_epoch input ∧ gen_le (lw_scan_seq row) (ho_position input);
  hf_kept : ∀ r, r ∈ db_inbox (ld_db db) → r ∈ db_inbox (ld_db db') ∨
    out = Inserted ∧
    (in_created_at r ≤ i64_saturating_sub now RETENTION_SECONDS ∨
     ∀ r', r' ∈ db_inbox (ld_db db') → event_key r' ≠ handoff_key input → oldest_le r r');
  hf_outcomes : ∀ lane id o, outcomes lane db !! id = Some o →
    outcomes lane db' !! id = Some o ∨ ¬ queued (ld_db db') id;
  hf_transport : ∃ t, ld_transport db' !! (ho_owner input, lane_as_str (ho_lane input))
    = Some (None, t) }.

Lemma with_queue_outcomes d db lane id o :
  outcomes lane db !! id = Some o →
  outcomes lane (with_queue d db) !! id = Some o ∨ ¬ queued d id.
Proof.
  intros Ho. destruct (decide (queued d id)); [left|by right].
  destruct lane; simpl in *; by apply map_lookup_filter_Some.
Qed.

Lemma handoff_spec db input clock out db' :
  queue_wf (ld_db db) → commit_sync_lane_handoff db input clock = Ok (out, db') →
  handed_off db input (clock 0%nat) out db' ∧ queue_wf (ld_db db').
Proof.
  intros Hqw (d1 & d2 & Ha & Hout)%handoff_inv.
  apply advance_lane_inv in Ha as (_ & _ & (row & Hrow & Hep & Hsc & _) & ->).
  destruct out.
  - destruct Hout as (-> & id & removed & d0 & Hroom & Hcol & ->). simpl in Hrow.
    apply make_room_spec in Hroom as (F & Hwf & Hsub & Hcap & Hpart & Hold);
      [|apply Hqw|apply Hqw|lia].
    split.
    + split; simpl.
      * eexists. split; [apply elem_of_app; right; by left|]. done.
      * apply lookup_insert_eq.
      * by exists row.
      * intros r Hr. destruct (decide (in_input_id r ∈ (in_input_id <$> db_inbox d0))) as [Hin|Hn].
        -- left. apply list_elem_of_fmap in Hin as (r' & E & Hr'). apply elem_of_app. left.
           replace r with r'; [done|]. eapply (key_inj in_input_id); [apply Hqw| |done|done].
           by eapply elem_of_sublist.
        -- right. split; [done|]. assert (r ∉ db_inbox d0) as Hn'.
           { intros Hin. by apply Hn, list_elem_of_fmap_2. }
           destruct (Hold r Hr Hn') as [?|Ho]; [by left|right].
           intros r' [?|Hnew]%elem_of_app Hne; [by apply Ho|].
           by apply list_elem_of_singleton in Hnew as ->.
      * intros lane i o Ho. by apply with_queue_outcomes.
      * eexists. apply lookup_insert_eq.
    + split; simpl.
      * apply insert_inbox_wf; [done|done|split; by intros []].
      * rewrite F. apply Hqw.
      * rewrite length_app. simpl. lia.
  - destruct Hout as (-> & -> & r & Hr & Hk & Hp & He). split; [split; simpl|done].
    + by exists r.
    + apply lookup_insert_eq.
    + by exists row.
    + by left.
    + by left.
    + eexists. apply lookup_insert_eq.
Qed.
End handoff.

(** ** Receipts *)

Lemma insert_lane_receipt_inv db receipt db' :
  insert_lane_receipt db receipt = Ok db' →
  exists_where (receipt_row receipt) (db_lane_applied (ld_db db)) = false ∧
  db' = with_store (with_lane_applied (db_lane_applied (ld_db db) ++ [receipt_of receipt])
                      (ld_db db)) db.
Proof.
  unfold insert_lane_receipt, constraint_failed. intros Hi. res_inv. bool_hyps. done.
Qed.

(** Committing an event: the receipt is there or is added, the blocker goes when
    asked, and the checkpoint is the last step. *)
Lemma commit_event_inv db receipt next resolve db' :
  commit_sync_lane_event db receipt next resolve = Ok db' →
  validate_sync_lane_event_receipt receipt = Ok () ∧
  check_receipt_checkpoint receipt next = Ok () ∧
  ∃ d1 d2,
    ((sync_lane_event_receipt_match db receipt = Ok Missing ∧
      insert_lane_receipt db receipt = Ok d1) ∨
     (sync_lane_event_receipt_match db receipt = Ok Exact ∧ d1 = db)) ∧
    d2 = (if resolve then
            with_blockers (delete_where (blocker_key (lr_owner receipt) (lr_event_id receipt))
                             (ld_blockers d1)) d1 else d1) ∧
    match next with
    | Some n => advance_lane_sync_state_in_transaction d2 n = Ok db'
    | None => db' = d2
    end.
Proof.
  unfold commit_sync_lane_event. intros Hc.
  apply bind_Ok in Hc as ([] & Hv & Hc). apply bind_Ok in Hc as ([] & Hk & Hc).
  destruct (_ && _); [done|]. apply bind_Ok in Hc as (found & Hm & Hc).
  apply bind_Ok in Hc as (d1 & Hd1 & Hc). split; [done|]. split; [done|].
  eexists d1, _. split; [|split; [reflexivity|]].
  - destruct found; [by left|right; by injection Hd1 as ->|done].
  - destruct next; [exact Hc|by injection Hc as ->].
Qed.

Lemma commit_event_frame db receipt next resolve db' :
  commit_sync_lane_event db receipt next resolve = Ok db' →
  ld_db db' = with_lane_applied (db_lane_applied (ld_db db')) (ld_db db) ∧
  (∀ lane, outcomes lane db' = outcomes lane db) ∧
  (ld_lanes db' = ld_lanes db ∨
   ∃ n, validate_lane_sync_state n = Ok () ∧
     ld_lanes db' = <[lane_key n := lane_row n]> (ld_lanes db) ∧
     ∃ row, ld_lanes db !! lane_key n = Some row ∧ lw_stream_epoch row = ln_stream_epoch n ∧
       gen_le (lw_scan_seq row) (ln_scan_seq n) ∧ gen_le (lw_committed_seq row) (ln_committed_seq n)).
Proof.
  intros (_ & _ & d1 & d2 & Hd1 & -> & Hn)%commit_event_inv.
  assert (ld_db d1 = with_lane_applied (db_lane_applied (ld_db d1)) (ld_db db) ∧
    (∀ lane, outcomes lane d1 = outcomes lane db) ∧ ld_lanes d1 = ld_lanes db) as (E1 & E2 & E3).
  { destruct Hd1 as [[_ [_ ->]%insert_lane_receipt_inv]|[_ ->]]; [by simpl|].
    split; [by destruct (ld_db db)|done]. }
  destruct next as [n|].
  - apply advance_lane_inv in Hn as (Hv & _ & Hrow & ->). destruct resolve; simpl in *;
      (split_and!; [done|done|right; exists n; by rewrite <-E3]).
  - subst db'. destruct resolve; simpl; (split_and!; [done|done|by left]).
Qed.

(** ** The lane store as a state machine *)

Section steps.
Context `{QueueCodec, JsonText}.

Inductive lane_step : LaneDb → LaneDb → Prop :=
| l_handoff db input clock out db' :
    commit_sync_lane_handoff db input clock = Ok (out, db') → lane_step db db'
| l_event db receipt next resolve db' :
    commit_sync_lane_event db receipt next resolve = Ok db' → lane_step db db'
| l_blocker db b next db' :
    record_p6_lane_blocker_and_advance db b next = Ok db' → lane_step db db'
| l_outcome db state now db' :
    write_sync_lane_domain_state db state now = Ok db' → lane_step db db'
| l_transport db owner lane error now db' :
    record_lane_transport_error db owner lane error now = Ok db' → lane_step db db'
| l_purge db now limit n db' :
    purge_closed_sync_lane_inputs db now limit = Ok (n, db') → lane_step db db'
| l_negotiate db owner generation client json db' :
    record_sync_lane_capability_negotiation_v1a db owner generation client json = Ok db' →
    lane_step db db'
| l_replace db owner states db' :
    replace_lane_sync_states db owner states = Ok db' → lane_step db db'
| l_queue db d : queue_step (ld_db db) d → lane_step db (with_queue d db).

Lemma upsert_blocker_inv db b db' :
  upsert_blocker db b = Ok db' →
  db' = with_blockers (ld_blockers db') db ∧
  (∀ x, x ∈ ld_blockers db → bl_owner x ≠ bl_owner b ∨ bl_event_id x ≠ bl_event_id b →
     x ∈ ld_blockers db') ∧
  ((∃ x, head (select_where (blocker_key (bl_owner b) (bl_event_id b)) (ld_blockers db)) = Some x ∧
      blocker_key (bl_owner b) (bl_event_id b) x = true ∧
      blocker_retried b x ∈ ld_blockers db') ∨ b ∈ ld_blockers db').
Proof.
  unfold upsert_blocker, constraint_failed. intros Hu.
  destruct (exists_where _ (ld_blockers db)) eqn:Ex in Hu.
  - injection Hu as <-. simpl. split; [done|].
    apply exists_where_true in Ex as (x & Hx & Hk). split.
    + intros y Hy Hne. apply elem_of_update_where. exists y. split; [done|].
      destruct (blocker_key _ _ y) eqn:E; [|done]. unfold blocker_key in E. bool_hyps. naive_solver.
    + left. assert (x ∈ select_where (blocker_key (bl_owner b) (bl_event_id b)) (ld_blockers db))
        as Hsel by by apply elem_of_select_where.
      destruct (select_where _ _) as [|y l] eqn:E in Hsel |- *; [by apply elem_of_nil in Hsel|].
      assert (y ∈ select_where (blocker_key (bl_owner b) (bl_event_id b)) (ld_blockers db))
        as [Hy Hky]%elem_of_select_where by (rewrite E; by left).
      exists y. split_and!; [done|done|]. apply elem_of_update_where. exists y. by rewrite Hky.
  - destruct (_ && _); [|done]. injection Hu as <-. simpl. split; [done|]. split.
    + intros x Hx _. apply elem_of_app. by left.
    + right. apply elem_of_app. right. by left.
Qed.

Lemma record_blocker_inv db b next db' :
  record_p6_lane_blocker_and_advance db b next = Ok db' →
  validate_p6_lane_blocker b = Ok () ∧ ln_owner next = bl_owner b ∧ ln_lane next = P6Group ∧
  ln_stream_epoch next = bl_stream_epoch b ∧ covers next (bl_event_seq b) = Ok true ∧
  (∀ old, head (select_where (blocker_key (bl_owner b) (bl_event_id b)) (ld_blockers db))
     = Some old → blocker_same old b = true) ∧
  ∃ d1, upsert_blocker db b = Ok d1 ∧ advance_lane_sync_state_in_transaction d1 next = Ok db'.
Proof.
  unfold record_p6_lane_blocker_and_advance. intros Hr.
  apply bind_Ok in Hr as ([] & Hv & Hr). apply bind_Ok in Hr as (covered & Hc & Hr).
  destruct covered; simpl in Hr; [|done].
  destruct (_ || _ || _) eqn:Eg in Hc; [done|]. bool_hyps.
  match type of Hr with (if ?c then _ else _) = _ => destruct c eqn:Es in Hr; [done|] end.
  apply bind_Ok in Hr as (d1 & Hu & Ha). split_and!; try done; [|eauto].
  intros old Hold. rewrite Hold in Es. by bool_hyps.
Qed.

Lemma record_capability_inv db owner generation client json db' :
  record_sync_lane_capability_negotiation_v1a db owner generation client json = Ok db' →
  ∃ row, db' = with_capabilities (<[owner := row]> (ld_capabilities db)) db.
Proof.
  unfold record_sync_lane_capability_negotiation_v1a, capability_input, constraint_failed.
  intros Hr. do 3 apply bind_Ok in Hr as ([] & _ & Hr).
  destruct (from_str json) as [v|]; [|done]. destruct (as_array v) as [caps|]; [|done].
  apply bind_Ok in Hr as (seen & _ & Hr). destruct (owner_bound _ _); [|done].
  injection Hr as <-. eauto.
Qed.

(** Recording an outcome: the input exists on that lane; a closed outcome is only
    confirmed. *)
Lemma write_state_inv db state now db' :
  write_sync_lane_domain_state db state now = Ok db' →
  (∃ r, r ∈ db_inbox (ld_db db) ∧ in_input_id r = ds_input_id state ∧
     in_lane r = lane_as_str (ds_lane state)) ∧
  (db' = db ∧ (∃ o, outcomes (ds_lane state) db !! ds_input_id state = Some o ∧
     parse_lane_domain_status (oc_status o) = Ok (ds_status state) ∧
     is_closed (ds_status state) = true) ∨
   ∃ owner, (∀ o s, outcomes (ds_lane state) db !! ds_input_id state = Some o →
        parse_lane_domain_status (oc_status o) = Ok s → is_closed s = false) ∧
     db' = write_outcome db state owner now).
Proof.
  unfold write_sync_lane_domain_state, write_sync_lane_domain_state_in_transaction.
  intros Hw. apply bind_Ok in Hw as ([] & Hv & Hw). apply bind_Ok in Hw as (owner & Ho & Hw).
  apply bind_Ok in Hw as (row & Hrow & Hw). apply ok_or_Ok, head_Some_elem_of in Hrow.
  apply elem_of_select_where in Hrow as [Hin Hk]. bool_hyps.
  apply bind_Ok in Hw as (lane & Hl%parse_lane_name_Ok & Hw).
  unfold lane_conflict in Hw. case_bool_decide as El; simpl in Hw; [|done]. subst lane.
  split; [by exists row|].
  destruct (outcomes (ds_lane state) db !! ds_input_id state) as [o|] eqn:Eo.
  - apply bind_Ok in Hw as (st & Hst & Hw). destruct (is_closed st) eqn:Ec.
    + case_bool_decide as Es; [|done]. subst st. injection Hw as <-. left. split; [done|]. eauto.
    + injection Hw as <-. right. exists owner. split; [|done]. intros ? ? [= <-] Hp. congruence.
  - injection Hw as <-. right. exists owner. by split.
Qed.

(** *** Cursors *)

Definition cursor_follows (row row' : LaneRow) : Prop :=
  lw_stream_epoch row' = lw_stream_epoch row ∧ gen_le (lw_scan_seq row) (lw_scan_seq row') ∧
  gen_le (lw_committed_seq row) (lw_committed_seq row').

(** A step either keeps the cursors or advances one of them. *)
Definition lanes_advance (m m' : gmap (string * string) LaneRow) : Prop :=
  m' = m ∨ ∃ n row, validate_lane_sync_state n = Ok () ∧ m' = <[lane_key n := lane_row n]> m ∧
    m !! lane_key n = Some row ∧ cursor_follows row (lane_row n).

Lemma lanes_advance_spec m m' :
  lanes_advance m m' → lanes_wf m →
  lanes_wf m' ∧ ∀ k row, m !! k = Some row → ∃ row', m' !! k = Some row' ∧ cursor_follows row row'.
Proof.
  intros [->|(n & row0 & Hv & -> & Hrow & Hf)] Hwf.
  { split; [done|]. intros k row Hk. exists row. split; [done|].
    unfold cursor_follows, gen_le. split_and!; [done|lia|lia]. }
  split.
  - intros k row [[<- <-]|[_ Hk]]%lookup_insert_Some; [by exists n|by apply Hwf].
  - intros k row Hk. destruct (decide (k = lane_key n)) as [->|Hne].
    + rewrite lookup_insert_eq. eexists. split; [done|]. congruence.
    + rewrite lookup_insert_ne by done. exists row. split; [done|].
      unfold cursor_follows, gen_le. split_and!; [done|lia|lia].
Qed.

Lemma advance_lanes_advance db next db' :
  advance_lane_sync_state_in_transaction db next = Ok db' →
  lanes_advance (ld_lanes db) (ld_lanes db').
Proof.
  intros (Hv & _ & (row & Hrow & He & Hs & Hc) & ->)%advance_lane_inv. right. exists next, row.
  split_and!; [done|done|done|]. by split_and!.
Qed.

Lemma put_lanes_frame states db :
  let db' := fold_left (λ db state, put_lane state db) states db in
  ld_db db' = ld_db db ∧ ∀ lane, outcomes lane db' = outcomes lane db.
Proof.
  revert db. induction states as [|s states IH]; intros db; simpl; [done|].
  destruct (IH (put_lane s db)) as [-> Ho]. split; [done|]. intros lane. rewrite Ho.
  by destruct lane.
Qed.

(** Replacing the cursors of an owner. *)
Lemma replace_lanes_inv db owner states db' :
  replace_lane_sync_states db owner states = Ok db' →
  (∀ s, s ∈ states → validate_lane_sync_state s = Ok () ∧ ln_owner s = owner) ∧
  NoDup (ln_lane <$> states) ∧
  ld_lanes db' = ld_lanes (fold_left (λ db state, put_lane state db) states db) ∧
  ld_db db' = ld_db db ∧ (∀ lane, outcomes lane db' = outcomes lane db).
Proof.
  unfold replace_lane_sync_states, replace_lane_sync_states_in_transaction, lane_binding.
  intros Hr. apply bind_Ok in Hr as ([] & _ & Hr).
  destruct (load_identity_account_binding _ _) as [b|]; [|done].
  apply bind_Ok in Hr as (lanes & Hl & Hr). injection Hr as <-.
  assert (∀ acc, try_fold (λ lanes state,
      _ ← validate_lane_sync_state state;
      if negb (bool_decide (ln_owner state = owner)) then
        Err (IdentityBindingConflict "lane sync state belongs to another owner")
      else if bool_decide (ln_lane state ∈ lanes) then
        Err (sync_error "SYNC_INVALID_PAGE" "lane bootstrap contains a duplicate lane")
      else Ok (ln_lane state :: lanes)) acc states = Ok lanes →
    (∀ s, s ∈ states → validate_lane_sync_state s = Ok () ∧ ln_owner s = owner) ∧
    NoDup (ln_lane <$> states) ∧ ∀ s, s ∈ states → ln_lane s ∉ acc) as Hall.
  { clear. induction states as [|s states IH]; intros acc Hf; simpl in Hf.
    { split_and!; [by intros ? ?%elem_of_nil|constructor|by intros ? ?%elem_of_nil]. }
    res_inv. bool_hyps.
    match goal with H : try_fold _ _ _ = _ |- _ => apply IH in H as (H1 & H2 & H3) end.
    split_and!.
    - intros x [->|Hx]%elem_of_cons; [done|by apply H1].
    - apply NoDup_cons. split; [|done].
      intros (x & E & Hx)%list_elem_of_fmap. specialize (H3 x Hx). set_solver.
    - intros x [->|Hx]%elem_of_cons; [done|]. specialize (H3 x Hx). set_solver. }
  apply Hall in Hl as (H1 & H2 & _). split_and!; try done.
  - exact (proj1 (put_lanes_frame states db)).
  - intros lane. rewrite <-(proj2 (put_lanes_frame states db) lane). by destruct lane.
Qed.

Lemma fold_put_lane states owner db :
  (∀ s, s ∈ states → validate_lane_sync_state s = Ok () ∧ ln_owner s = owner) →
  let m := ld_lanes (fold_left (λ db state, put_lane state db) states db) in
  (lanes_wf (ld_lanes db) → lanes_wf m) ∧
  ∀ k, k.1 ≠ owner → m !! k = ld_lanes db !! k.
Proof.
  revert db. induction states as [|s states IH]; intros db Hall; simpl; [done|].
  destruct (Hall s ltac:(by left)) as [Hv Ho].
  destruct (IH (put_lane s db)) as [Hw Hk]; [intros x Hx; apply Hall; by right|]. split.
  - intros Hwf. apply Hw. intros k row Hl. unfold put_lane in Hl. simpl in Hl.
    apply lookup_insert_Some in Hl as [[<- <-]|[_ Hl]];
      [by exists s|by apply Hwf].
  - intros k Hne. rewrite Hk by done. apply lookup_insert_ne. intros <-. by apply Hne.
Qed.

Lemma lane_step_cursors db db' :
  lane_step db db' → lanes_wf (ld_lanes db) →
  lanes_wf (ld_lanes db') ∧
  ∀ k row, ld_lanes db !! k = Some row →
    (∃ row', ld_lanes db' !! k = Some row' ∧ cursor_follows row row') ∨
    ∃ states, replace_lane_sync_states db k.1 states = Ok db'.
Proof.
  intros Hs Hwf.
  assert (lanes_advance (ld_lanes db) (ld_lanes db') ∨
    ∃ owner states, replace_lane_sync_states db owner states = Ok db') as [Hadv|(o & ss & Hrep)].
  - destruct Hs as [db input clock out db' Hh|db receipt next res db' Hc|db b next db' Hb
      |db state now db' Hw|db owner lane err now db' Ht|db now limit n db' Hp
      |db owner gen cl json db' Hn|db owner states db' Hr|db d Hq].
    + left. apply handoff_inv in Hh as (d1 & d2 & Ha%advance_lanes_advance & Hout).
      destruct out; [destruct Hout as (-> & id & rm & d0 & _ & _ & ->)|destruct Hout as (-> & -> & _)];
        exact Ha.
    + left. apply commit_event_frame in Hc as (_ & _ & [->|(n & Hv & -> & row & Hrow & ?)]);
        [by left|right; exists n, row; split_and!; [done..|]; unfold cursor_follows; simpl; intuition].
    + left. apply record_blocker_inv in Hb as (_&_&_&_&_&_& d1 & Hu & Ha%advance_lanes_advance).
      apply upsert_blocker_inv in Hu as (E & _). rewrite E in Ha. exact Ha.
    + left. left. apply write_state_inv in Hw as (_ & [[-> _]|(owner & _ & ->)]); [done|].
      unfold write_outcome. by destruct (ds_lane state).
    + left. left. unfold record_lane_transport_error, constraint_failed in Ht. by res_inv.
    + left. left. unfold purge_closed_sync_lane_inputs in Hp. by res_inv.
    + left. left. by apply record_capability_inv in Hn as (row & ->).
    + right. eauto.
    + by left; left.
  - destruct (lanes_advance_spec _ _ Hadv Hwf) as [? Hf]. split; [done|]. intros k row Hk. left. eauto.
  - pose proof (replace_lanes_inv _ _ _ _ Hrep) as (Hall & _ & El & _).
    destruct (fold_put_lane ss o db Hall) as [Hw Hk]. rewrite El. split; [by apply Hw|].
    intros k row Hrow. destruct (decide (k.1 = o)) as [<-|Hne]; [right; eauto|left].
    exists row. rewrite Hk by done. split; [done|]. unfold cursor_follows, gen_le. split_and!; [done|lia|lia].
Qed.

(** *** Outcomes *)

Lemma write_outcome_other db state owner now lane id :
  (lane, id) ≠ (ds_lane state, ds_input_id state) →
  outcomes lane (write_outcome db state owner now) !! id = outcomes lane db !! id.
Proof.
  intros Hne. unfold write_outcome. destruct (ds_lane state), lane; simpl; try done;
    apply lookup_insert_ne; congruence.
Qed.

Lemma lane_step_outcome db db' lane id o st :
  lane_step db db' → outcomes lane db !! id = Some o →
  parse_lane_domain_status (oc_status o) = Ok st → is_closed st = true →
  outcomes lane db' !! id = Some o ∨ ¬ queued (ld_db db') id.
Proof.
  intros Hs Ho Hp Hc.
  destruct Hs as [db input clock out db' Hh|db receipt next res db' He|db b next db' Hb
      |db state now db' Hw|db owner l err now db' Ht|db now limit n db' Hpu
      |db owner gen cl json db' Hn|db owner states db' Hr|db d Hq].
  - apply handoff_inv in Hh as (d1 & d2 & (_ & _ & _ & ->)%advance_lane_inv & Hout).
    destruct out; [destruct Hout as (-> & i & rm & d0 & _ & _ & ->)|destruct Hout as (-> & -> & _)].
    + destruct (with_queue_outcomes (with_inbox (db_inbox d0 ++ [handoff_row input i (clock 1%nat)]) d0)
        db lane id o Ho) as [Hl|Hl]; [left|by right]. by destruct lane.
    + left. by destruct lane.
  - apply commit_event_frame in He as (_ & E & _). left. by rewrite E.
  - apply record_blocker_inv in Hb as (_&_&_&_&_&_& d1 & Hu & (_ & _ & _ & ->)%advance_lane_inv).
    apply upsert_blocker_inv in Hu as (E & _). left. rewrite E. by destruct lane.
  - left. apply write_state_inv in Hw as (_ & [[-> _]|(owner & Hnc & ->)]); [done|].
    destruct (decide ((lane, id) = (ds_lane state, ds_input_id state))) as [[= -> ->]|Hne].
    + by rewrite (Hnc o st Ho Hp) in Hc.
    + by rewrite write_outcome_other.
  - left. unfold record_lane_transport_error, constraint_failed in Ht. res_inv. by destruct lane.
  - unfold purge_closed_sync_lane_inputs in Hpu. res_inv. by apply with_queue_outcomes.
  - left. apply record_capability_inv in Hn as (row & ->). by destruct lane.
  - left. by rewrite (proj2 (proj2 (proj2 (proj2 (replace_lanes_inv _ _ _ _ Hr))))).
  - by apply with_queue_outcomes.
Qed.

(** The stored outcome and the input it settles. *)
Lemma write_outcome_stored db state owner now :
  ∃ o, outcomes (ds_lane state) (write_outcome db state owner now) !! ds_input_id state = Some o ∧
    oc_status o = status_as_str (ds_status state) ∧ oc_scope o = ds_scope state ∧
    oc_retryable o = ds_retryable state ∧ oc_attempt_count o = ds_attempt_count state ∧
    oc_next_retry_at o = ds_next_retry_at state ∧ oc_operation_ref o = ds_operation_ref state ∧
    oc_last_error_code o = ds_last_error_code state.
Proof.
  unfold write_outcome. destruct (ds_lane state); simpl; rewrite lookup_insert_eq; eauto 10.
Qed.

Lemma parse_status_as_str st : parse_lane_domain_status (status_as_str st) = Ok st.
Proof. by destruct st. Qed.

Lemma parse_status_Ok v st : parse_lane_domain_status v = Ok st → v = status_as_str st.
Proof.
  unfold parse_lane_domain_status. destruct (find _ _) as [s|] eqn:E; [|done].
  intros [= ->]. apply find_some in E as [_ E]. by apply bool_decide_eq_true in E.
Qed.

Lemma closed_not_pending lane id o st db owner now r :
  outcomes lane db !! id = Some o → parse_lane_domain_status (oc_status o) = Ok st →
  is_closed st = true → in_input_id r = id → lane_pending db owner lane now r = false.
Proof.
  intros Ho Hp Hc <-. apply not_true_iff_false. unfold lane_pending. rewrite Ho. intros Hl. bool_hyps.
  match goal with H : oc_status o ∈ _ |- _ => rewrite !elem_of_cons, elem_of_nil in H end.
  destruct_or!; try done; match goal with H : oc_status o = _ |- _ => rewrite H in Hp end;
    vm_compute in Hp; by simplify_eq.
Qed.

Lemma list_pending_elem db owner lane now limit l x :
  list_pending_sync_lane_inputs db owner lane now limit = Ok l → x ∈ l →
  ∃ r, r ∈ db_inbox (ld_db db) ∧ lane_pending db owner lane now r = true ∧
    lane_record r = Ok x ∧ si_input_id x = in_input_id r.
Proof.
  unfold list_pending_sync_lane_inputs. intros Hl Hx.
  apply bind_Ok in Hl as ([] & _ & Hl). destruct (_ || _); [done|].
  apply (try_fold_push lane_record) in Hl as (ys & -> & Hall).
  2: { intros acc r out Hg. apply bind_Ok in Hg as (y & Hy & [= <-]). eauto. }
  simpl in Hx. apply list_elem_of_lookup_1 in Hx as (j & Hj).
  destruct (Forall2_lookup_r _ _ _ _ _ Hall Hj) as (r & Hr & Hrec).
  apply list_elem_of_lookup_2, order_limit_sub, elem_of_select_where in Hr as [Hr Hp].
  exists r. split_and!; [done..|]. unfold lane_record in Hrec. by res_inv.
Qed.
End steps.

(** ** Receipts are recorded once *)

Lemma receipt_match_applied db db' receipt :
  db_lane_applied (ld_db db') = db_lane_applied (ld_db db) →
  sync_lane_event_receipt_match db' receipt = sync_lane_event_receipt_match db receipt.
Proof. unfold sync_lane_event_receipt_match. by intros ->. Qed.

Lemma head_select_snoc {A} (p : A → bool) t x :
  exists_where p t = false → p x = true → head (select_where p (t ++ [x])) = Some x.
Proof.
  intros Hn Hx. unfold select_where. rewrite filter_app.
  assert (filter (λ r, p r = true) t = []) as ->.
  { apply elem_of_nil_inv. intros y [Hy Hin]%list_elem_of_filter.
    by rewrite (proj1 (exists_where_false _ _) Hn y Hin) in Hy. }
  rewrite filter_cons_True by done. done.
Qed.

Lemma commit_event_applied db receipt next resolve db' :
  commit_sync_lane_event db receipt next resolve = Ok db' →
  sync_lane_event_receipt_match db receipt = Ok Exact ∧
    db_lane_applied (ld_db db') = db_lane_applied (ld_db db) ∨
  sync_lane_event_receipt_match db receipt = Ok Missing ∧
    exists_where (receipt_row receipt) (db_lane_applied (ld_db db)) = false ∧
    db_lane_applied (ld_db db') = db_lane_applied (ld_db db) ++ [receipt_of receipt].
Proof.
  intros (_ & _ & d1 & d2 & Hd1 & -> & Hn)%commit_event_inv.
  assert (ld_db db' = ld_db d1) as ->.
  { destruct next as [n|]; [apply advance_lane_inv in Hn as (_&_&_&->)|subst db'];
      by destruct resolve. }
  destruct Hd1 as [[Hm [Hnone ->]%insert_lane_receipt_inv]|[Hm ->]]; [by right|by left].
Qed.

Lemma receipt_row_self receipt : receipt_row receipt (receipt_of receipt) = true.
Proof. unfold receipt_row. simpl. by rewrite !bool_decide_eq_true_2. Qed.

Lemma commit_event_exact db receipt next resolve db' :
  commit_sync_lane_event db receipt next resolve = Ok db' →
  sync_lane_event_receipt_match db' receipt = Ok Exact.
Proof.
  intros Hc. pose proof (commit_event_inv _ _ _ _ _ Hc) as (Hv & _).
  destruct (commit_event_applied _ _ _ _ _ Hc) as [[Hm E]|(Hm & Hn & E)].
  - by rewrite (receipt_match_applied db db' receipt E).
  - unfold sync_lane_event_receipt_match. rewrite Hv. simpl. f_equal. rewrite E.
    rewrite (head_select_snoc _ _ _ Hn (receipt_row_self receipt)). simpl.
    by rewrite !bool_decide_eq_true_2.
Qed.

Lemma commit_event_blockers db receipt next resolve db' :
  commit_sync_lane_event db receipt next resolve = Ok db' →
  ld_blockers db' = if resolve then
    delete_where (blocker_key (lr_owner receipt) (lr_event_id receipt)) (ld_blockers db)
  else ld_blockers db.
Proof.
  intros (_ & _ & d1 & d2 & Hd1 & -> & Hn)%commit_event_inv.
  assert (ld_blockers d1 = ld_blockers db) as E.
  { by destruct Hd1 as [[_ [_ ->]%insert_lane_receipt_inv]|[_ ->]]. }
  destruct next as [n|]; [apply advance_lane_inv in Hn as (_&_&_&->)|subst db'];
    destruct resolve; simpl; by rewrite E.
Qed.

(** An event whose receipt was just recorded cannot be committed at another
    position. *)
Lemma commit_event_conflict db receipt next resolve db' receipt' next' resolve' :
  commit_sync_lane_event db receipt next resolve = Ok db' →
  sync_lane_event_receipt_match db receipt = Ok Missing →
  lr_owner receipt' = lr_owner receipt → lr_lane receipt' = lr_lane receipt →
  lr_event_id receipt' = lr_event_id receipt →
  (lr_stream_epoch receipt', lr_event_seq receipt') ≠ (lr_stream_epoch receipt, lr_event_seq receipt) →
  ∀ db'', commit_sync_lane_event db' receipt' next' resolve' ≠ Ok db''.
Proof.
  intros Hc Hm Eo El Ei Hne db'' Hc'.
  destruct (commit_event_applied _ _ _ _ _ Hc) as [[Hm' _]|(_ & Hn & E)]; [congruence|].
  assert (sync_lane_event_receipt_match db' receipt' = Ok Conflict) as Hconf.
  { pose proof (commit_event_inv _ _ _ _ _ Hc') as (Hv' & _).
    unfold sync_lane_event_receipt_match. rewrite Hv'. simpl. f_equal. rewrite E.
    assert (receipt_row receipt' = receipt_row receipt) as ->
      by (unfold receipt_row; by rewrite Eo, El, Ei).
    rewrite (head_select_snoc _ _ _ Hn (receipt_row_self receipt)). simpl.
    destruct (bool_decide (lr_stream_epoch receipt = _)) eqn:E1,
      (bool_decide (lr_event_seq receipt = _)) eqn:E2; try done. bool_hyps. congruence. }
  destruct (commit_event_applied _ _ _ _ _ Hc') as [[? _]|(? & _)]; congruence.
Qed.

(** ** Negotiation *)

(** The lane a capability string names. *)
Definition capability_lane (v : Value) : option SyncLaneV3 :=
  c ← as_str v;
  if bool_decide (c = "lanes.p5_device.v1"%string) then Some P5Device
  else if bool_decide (c = "lanes.p6_group.v1"%string) then Some P6Group
  else None.

Section negotiation.
Context `{JsonText}.

(** What the check of [record] accepts, the reading of [load] accepts, and it
    yields the lanes in the order of the array. *)
Lemma negotiated_loops caps (seen : list string) r (lanes : list SyncLaneV3) :
  try_fold
    (λ seen v,
       match as_str v with
       | None => capability_input "negotiated capabilities must contain strings"
       | Some c =>
           if negb (bool_decide (c ∈ ["lanes.p5_device.v1"; "lanes.p6_group.v1"]%string))
              || bool_decide (c ∈ seen) then
             capability_input "negotiated capabilities contain an unknown or duplicate lane"
           else Ok (c :: seen)
       end) seen caps = Ok r →
  (∀ v c lane, as_str v = Some c → capability_lane v = Some lane → lane ∈ lanes → c ∈ seen) →
  try_fold
    (λ lanes v,
       match as_str v with
       | None =>
           negotiation_state_invalid "stored negotiated lane capability is not a string"
       | Some c =>
           lane ← (if bool_decide (c = "lanes.p5_device.v1"%string) then Ok P5Device
                   else if bool_decide (c = "lanes.p6_group.v1"%string) then Ok P6Group
                   else negotiation_state_invalid
                          "stored negotiated lane capability is unknown");
           if bool_decide (lane ∈ lanes) then
             negotiation_state_invalid "stored negotiated lane capability is duplicated"
           else Ok (lanes ++ [lane])
       end) lanes caps = Ok (lanes ++ omap capability_lane caps).
Proof.
  revert seen lanes. induction caps as [|v caps IH]; intros seen lanes Hrec Hrel; simpl in *.
  { by rewrite app_nil_r. }
  apply bind_Ok in Hrec as (seen' & Hv & Hrec). unfold capability_input in Hv.
  destruct (as_str v) as [c|] eqn:Ev; [|done]. destruct (_ || _) eqn:Eg in Hv; [done|].
  injection Hv as <-. bool_hyps.
  assert (∃ lane, capability_lane v = Some lane ∧
    (if bool_decide (c = "lanes.p5_device.v1"%string) then Ok P5Device
     else if bool_decide (c = "lanes.p6_group.v1"%string) then Ok P6Group
     else negotiation_state_invalid "stored negotiated lane capability is unknown") = Ok lane)
    as (lane & Hl & ->).
  { unfold capability_lane. rewrite Ev. simpl. repeat case_bool_decide; eauto. set_solver. }
  rewrite Hl. simpl. rewrite bool_decide_eq_false_2 by (intros Hin; naive_solver). simpl.
  rewrite (IH (c :: seen) (lanes ++ [lane])); [by rewrite <-app_assoc|done|].
  intros v' c' lane' Ev' Hl' [Hin| ->%list_elem_of_singleton]%elem_of_app.
  - right. by eapply Hrel.
  - assert (c' = c) as ->; [|by left]. revert Hl Hl'. unfold capability_lane.
    rewrite Ev, Ev'. simpl. repeat case_bool_decide; intros; by simplify_eq.
Qed.

Lemma record_capability_row db owner generation client json db' :
  record_sync_lane_capability_negotiation_v1a db owner generation client json = Ok db' →
  ∃ caps, from_str json = Some (VArray caps) ∧
    db' = with_capabilities
      (<[owner := mkCapability generation (Some client) (Some json)]> (ld_capabilities db)) db ∧
    ∀ b, ib_owner b = owner → ib_auth_generation b = generation →
      db_installations (ld_db db) !! owner = Some client →
      load_negotiated_lanes_v1a db' b = Ok (Some (omap capability_lane caps)).
Proof.
  intros Hr. unfold record_sync_lane_capability_negotiation_v1a, constraint_failed in Hr.
  do 3 apply bind_Ok in Hr as ([] & _ & Hr).
  destruct (from_str json) as [v|] eqn:Ej; [|done].
  destruct v; try done. simpl in Hr.
  apply bind_Ok in Hr as (seen & Hloop & Hr). destruct (owner_bound _ _); [|done].
  injection Hr as <-. eexists. split_and!; [done|done|].
  intros b Eo Eg Hi. unfold load_negotiated_lanes_v1a. simpl. rewrite Eo, lookup_insert_eq. simpl.
  rewrite !bool_decide_eq_true_2 by done. simpl. rewrite Ej. simpl.
  rewrite (negotiated_loops _ _ _ [] Hloop); [done|]. by intros ? ? ? ? ? ?%elem_of_nil.
Qed.

Lemma same_lanes_refl l : same_lanes l l = true.
Proof. unfold same_lanes. simpl. by rewrite !bool_decide_eq_true_2. Qed.

(** A negotiation of another generation or installation no longer counts. *)
Lemma stale_negotiation db b row client json :
  ld_capabilities db !! ib_owner b = Some row → lc_client_instance row = Some client →
  lc_capabilities_json row = Some json →
  lc_generation row ≠ ib_auth_generation b ∨
    db_installations (ld_db db) !! ib_owner b ≠ Some client →
  load_negotiated_lanes_v1a db b = Ok (Some []).
Proof.
  intros Hr Hc Hj Hs. unfold load_negotiated_lanes_v1a. rewrite Hr, Hc, Hj.
  destruct Hs as [Hs|Hs]; rewrite (bool_decide_eq_false_2 _ Hs); [done|].
  by rewrite orb_true_r.
Qed.
End negotiation.
