(* ===== verification/LaneClaims.v ===== *)
(** * The promises of the secure lanes

    The theorems a client of the lane store relies on, evaluated on a concrete
    lane store. *)

From S2P Require Import Prelude RustStr ImError Decimal Dto Store SyncStore Inbox InboxProps InboxClaims Lanes LaneProps.
Local Open Scope Z_scope.

Section claims.
Context `{QueueCodec, JsonText}.


(** Lane cursors only move forward. Every operation on the lane store keeps
    every stored cursor well-formed (committed position at most the scan
    position), in its epoch and at or after its previous position, except an
    explicit replacement of that owner's cursors by a new negotiation. *)
Theorem lane_cursor_monotone db db' k row :
  lanes_wf (ld_lanes db) → lane_step db db' → ld_lanes db !! k = Some row →
  lanes_wf (ld_lanes db') ∧
  ((∃ row', ld_lanes db' !! k = Some row' ∧ cursor_follows row row') ∨
   ∃ states, replace_lane_sync_states db k.1 states = Ok db').
Proof.
  intros Hwf Hs Hk. destruct (lane_step_cursors _ _ Hs Hwf) as [? Hf]. split; [done|]. by apply Hf.
Qed.

(** A closed domain outcome is final. No operation on the lane store or on the
    queue below it rewrites or reopens it; it can only disappear together with
    its input. *)
Theorem closed_outcome_final db db' lane id o st :
  lane_step db db' → outcomes lane db !! id = Some o →
  parse_lane_domain_status (oc_status o) = Ok st → is_closed st = true →
  outcomes lane db' !! id = Some o ∨ ¬ queued (ld_db db') id.
Proof. apply lane_step_outcome. Qed.

(** Recording an outcome settles its input. After a successful write the
    stored outcome has the written status, no other outcome changed, the input
    is marked closed exactly when the status is closed (unless that closed
    outcome was already stored), and a closed input is never listed as pending
    work again. *)
Theorem domain_state_settles db state now db' :
  write_sync_lane_domain_state db state now = Ok db' →
  (∃ o, outcomes (ds_lane state) db' !! ds_input_id state = Some o ∧
     oc_status o = status_as_str (ds_status state)) ∧
  (∀ lane id, (lane, id) ≠ (ds_lane state, ds_input_id state) →
     outcomes lane db' !! id = outcomes lane db !! id) ∧
  (db' = db ∨ ∀ r, r ∈ db_inbox (ld_db db') → in_input_id r = ds_input_id state →
     in_closed_at r = if is_closed (ds_status state) then Some now else None) ∧
  (is_closed (ds_status state) = true → ∀ owner t limit l,
     list_pending_sync_lane_inputs db' owner (ds_lane state) t limit = Ok l →
     ∀ x, x ∈ l → si_input_id x ≠ ds_input_id state).
Proof.
  intros (_ & Hcase)%write_state_inv.
  assert (∃ o, outcomes (ds_lane state) db' !! ds_input_id state = Some o ∧
    oc_status o = status_as_str (ds_status state)) as (o & Ho & Es).
  { destruct Hcase as [[-> (o & Ho & Hp & _)]|(owner & _ & ->)].
    - exists o. split; [done|by apply parse_status_Ok].
    - destruct (write_outcome_stored db state owner now) as (o & ? & ? & _). eauto. }
  split_and!.
  - by exists o.
  - intros lane id Hne. destruct Hcase as [[-> _]|(owner & _ & ->)]; [done|].
    by apply write_outcome_other.
  - destruct Hcase as [[-> _]|(owner & _ & ->)]; [by left|right].
    intros r Hr Eid. unfold write_outcome, update_inbox in Hr. simpl in Hr.
    destruct (ds_lane state); simpl in Hr;
      apply elem_of_update_where in Hr as (r0 & Hr0 & ->); case_bool_decide; [done| |done|]; congruence.
  - intros Hc owner t limit l Hl x Hx Eid.
    destruct (list_pending_elem _ _ _ _ _ _ _ Hl Hx) as (r & _ & Hp & _ & E).
    rewrite (closed_not_pending (ds_lane state) (ds_input_id state) o (ds_status state)) in Hp;
      [done|done| |done|congruence]. rewrite Es. apply parse_status_as_str.
Qed.

(** A lane event is recorded once. After [commit_sync_lane_event] succeeds its
    receipt matches exactly; committing it again changes nothing; if it was new,
    the same event at another position is refused; and the blocker of a resolved
    event is gone while every other blocker stays. *)
Theorem lane_event_once db receipt next resolve db' :
  commit_sync_lane_event db receipt next resolve = Ok db' →
  sync_lane_event_receipt_match db' receipt = Ok Exact ∧
  commit_sync_lane_event db' receipt None false = Ok db' ∧
  (sync_lane_event_receipt_match db receipt = Ok Missing →
   ∀ receipt' next' resolve' db'', lr_owner receipt' = lr_owner receipt →
     lr_lane receipt' = lr_lane receipt → lr_event_id receipt' = lr_event_id receipt →
     (lr_stream_epoch receipt', lr_event_seq receipt')
       ≠ (lr_stream_epoch receipt, lr_event_seq receipt) →
     commit_sync_lane_event db' receipt' next' resolve' ≠ Ok db'') ∧
  (∀ b, b ∈ ld_blockers db' ↔ b ∈ ld_blockers db ∧
     (resolve = true → bl_owner b ≠ lr_owner receipt ∨ bl_event_id b ≠ lr_event_id receipt)).
Proof.
  intros Hc. pose proof (commit_event_exact _ _ _ _ _ Hc) as He. split_and!.
  - done.
  - unfold commit_sync_lane_event.
    rewrite (proj1 (commit_event_inv _ _ _ _ _ Hc)). simpl. by rewrite He.
  - intros Hm receipt' next' resolve' db'' ? ? ? ?. by eapply commit_event_conflict.
  - intros b. rewrite (commit_event_blockers _ _ _ _ _ Hc). destruct resolve; [|naive_solver].
    rewrite elem_of_delete_where. unfold blocker_key.
    rewrite andb_false_iff, !bool_decide_eq_false. naive_solver.
Qed.

(** A deferred P6 event stays on record. When
    [record_p6_lane_blocker_and_advance] lets the cursor pass an event that could
    not be applied, a blocker with the event's identity, position and payload is
    stored, the cursor covers the event, and every other blocker is kept. *)
Theorem p6_blocker_kept db b next db' :
  record_p6_lane_blocker_and_advance db b next = Ok db' →
  (∃ x, x ∈ ld_blockers db' ∧ bl_owner x = bl_owner b ∧ bl_event_id x = bl_event_id b ∧
     blocker_same x b = true ∧ 0 < bl_attempt_count b) ∧
  ld_lanes db' !! (bl_owner b, "p6_group"%string) = Some (lane_row next) ∧
  gen_le (bl_event_seq b) (ln_committed_seq next) ∧
  (∀ x, x ∈ ld_blockers db → bl_owner x ≠ bl_owner b ∨ bl_event_id x ≠ bl_event_id b →
     x ∈ ld_blockers db').
Proof.
  intros (Hv & Eo & El & _ & Hcov & Hsame & d1 & Hu & Ha)%record_blocker_inv.
  apply upsert_blocker_inv in Hu as (_ & Hkeep & Hnew).
  apply advance_lane_inv in Ha as (_ & _ & _ & ->). simpl. split_and!.
  - assert (0 < bl_attempt_count b) as Hpos.
    { unfold validate_p6_lane_blocker, blocker_canonical in Hv. res_inv. bool_hyps. done. }
    destruct Hnew as [(x & Hh & Hk & Hx)|Hx].
    + exists (blocker_retried b x). unfold blocker_key in Hk. bool_hyps.
      split_and!; [done..| |done]. specialize (Hsame x Hh). unfold blocker_same in *. done.
    + exists b. split_and!; [done..| |done]. unfold blocker_same. by rewrite !bool_decide_eq_true_2.
  - replace (bl_owner b, "p6_group"%string) with (lane_key next)
      by (unfold lane_key; by rewrite Eo, El). apply lookup_insert_eq.
  - unfold covers in Hcov. apply bind_Ok in Hcov as (c1 & _ & Hcov).
    case_bool_decide; [done|]. apply bind_Ok in Hcov as (c2 & Hc2 & [= Hcov]). bool_hyps.
    apply compare_decimal_Ok_inv in Hc2 as (_ & _ & ->). by apply Z.ge_le.
  - done.
Qed.

(** Lanes are used only as negotiated. After [reconcile_sync_lane_capability_v1a]
    for the bound generation and the current installation, exactly the lanes of
    the capability array are negotiated, no further negotiation for them is
    required, and only their cursors are loaded; under another generation or
    another installation the same negotiation counts as empty. *)
Theorem negotiation_scoped db owner states b client json db' :
  reconcile_sync_lane_capability_v1a db owner states (ib_auth_generation b) client json = Ok db' →
  db_bindings (ld_db db) !! owner = Some b → ib_owner b = owner →
  db_installations (ld_db db) !! owner = Some client →
  ∃ caps, from_str json = Some (VArray caps) ∧
    let lanes := omap capability_lane caps in
    load_negotiated_lanes_v1a db' b = Ok (Some lanes) ∧
    lane_capability_negotiation_required_with_lanes db' owner (ib_auth_generation b) (Some lanes)
      = Ok false ∧
    (∀ l s, load_lane_sync_states db' owner = Ok l → s ∈ l → ln_lane s ∈ lanes) ∧
    (∀ b' d, ib_owner b' = owner →
       ib_auth_generation b' ≠ ib_auth_generation b ∨ db_installations d !! owner ≠ Some client →
       load_negotiated_lanes_v1a (with_store d db') b' = Ok (Some [])).
Proof.
  unfold reconcile_sync_lane_capability_v1a. intros Hr Hb Eo Hi.
  apply bind_Ok in Hr as (db1 & Hrep & Hrec).
  pose proof (replace_lanes_inv _ _ _ _ Hrep) as (_ & _ & _ & Ed & _).
  pose proof Hrec as Hrec'. unfold record_sync_lane_capability_negotiation_v1a in Hrec'.
  apply bind_Ok in Hrec' as ([] & Hvo & Hrec'). apply bind_Ok in Hrec' as ([] & Hvg & _).
  apply record_capability_row in Hrec as (caps & Hj & -> & Hload).
  rewrite <-Ed in Hb, Hi. pose proof (Hload b Eo eq_refl Hi) as Hneg. exists caps.
  split; [done|]. cbv zeta. split_and!.
  - exact Hneg.
  - unfold lane_capability_negotiation_required_with_lanes, load_identity_account_binding.
    rewrite Hvo, Hvg. simpl. rewrite Hb. rewrite bool_decide_eq_true_2 by done. simpl.
    rewrite Hneg. simpl. rewrite same_lanes_refl. unfold negotiated_generation. simpl.
    rewrite lookup_insert_eq, Hi. simpl. rewrite (bool_decide_eq_true_2 (Some client = _)) by done.
    by rewrite bool_decide_eq_true_2.
  - intros l s Hl Hs. unfold load_lane_sync_states, load_identity_account_binding in Hl.
    rewrite Hvo in Hl. simpl in Hl. rewrite Hb in Hl. rewrite Hneg in Hl.
    simpl in Hl. apply bind_Ok in Hl as (all & _ & Hl). injection Hl as <-.
    by apply list_elem_of_filter in Hs as [? _].
  - intros b' d Eo' Hne. eapply stale_negotiation; simpl; [rewrite Eo'; apply lookup_insert_eq|done..|].
    rewrite Eo'. destruct Hne as [Hne|Hne]; [left; simpl; congruence|by right].
Qed.
End claims.

(** ** A concrete lane store *)

Definition quoted (s : string) : string :=
  String (Ascii.ascii_of_nat 34) (s +:+ String (Ascii.ascii_of_nat 34) EmptyString).
Definition ex_caps_json : string := ("[" +:+ quoted "lanes.p6_group.v1" +:+ "]")%string.

(** A reader for the two documents of the example. *)
Definition ex_json : JsonText := {|
  from_str s :=
    if bool_decide (s = ex_caps_json) then Some (VArray [VString "lanes.p6_group.v1"])
    else if bool_decide (s = "{}"%string) then Some (VObject []) else None |}.

Definition ex_lane_db : LaneDb :=
  mkLaneDb ex_queue_db {[("owner-1"%string, "p6_group"%string) := mkLaneRow "7" "3" "3"]}
    ∅ ∅ ∅ ∅ [].
Definition ex_handoff : SyncLaneHandoffInput :=
  mkHandoff "owner-1" "account-1" "device-1" "1" "inst-1" P6Group "7" "4" "g4"
    "p6.control.notice" (VObject []) (Some "did:group"%string) "2026-01-01T00:00:00Z" None None.
Definition ex_handed : SyncLaneHandoffOutcome * LaneDb :=
  unwrap_or (@commit_sync_lane_handoff ex_codec ex_lane_db ex_handoff (λ _, 700))
    (Duplicate, ex_lane_db).

Lemma ex_handed_ok :
  @commit_sync_lane_handoff ex_codec ex_lane_db ex_handoff (λ _, 700) = Ok (ex_handed.1, ex_handed.2).
Proof. vm_compute. reflexivity. Qed.


Lemma ex_lanes_wf : lanes_wf (ld_lanes ex_lane_db).
Proof.
  intros k row Hk. unfold ex_lane_db in Hk. cbn [ld_lanes] in Hk.
  apply lookup_singleton_Some in Hk as [<- <-].
  exists (mkLaneState "owner-1" P6Group "7" "3" "3"). split_and!; vm_compute; reflexivity.
Qed.

Lemma lane_cursor_monotone_witness :
  lanes_wf (ld_lanes ex_handed.2) ∧
  ((∃ row', ld_lanes ex_handed.2 !! ("owner-1"%string, "p6_group"%string) = Some row' ∧
      cursor_follows (mkLaneRow "7" "3" "3") row') ∨
   ∃ states, replace_lane_sync_states ex_lane_db "owner-1" states = Ok ex_handed.2).
Proof.
  apply (@lane_cursor_monotone ex_codec ex_json ex_lane_db ex_handed.2
           ("owner-1"%string, "p6_group"%string) (mkLaneRow "7" "3" "3") ex_lanes_wf).
  - exact (@l_handoff ex_codec ex_json ex_lane_db ex_handoff (λ _, 700) ex_handed.1 ex_handed.2
             ex_handed_ok).
  - vm_compute. reflexivity.
Defined.

(** The handed-off event is rejected for good. *)
Definition ex_terminal (st : SyncLaneDomainStatus) : SyncLaneDomainState :=
  mkDomainState (ex_encode_id "owner-1" "p6_group" "7" "g4") P6Group "did:group" st false 1 None
    None None.
Definition ex_settled_db : LaneDb :=
  unwrap_or (write_sync_lane_domain_state ex_handed.2 (ex_terminal Terminal) 710) ex_lane_db.

Lemma ex_settled_ok :
  write_sync_lane_domain_state ex_handed.2 (ex_terminal Terminal) 710 = Ok ex_settled_db.
Proof. vm_compute. reflexivity. Qed.

Lemma domain_state_settles_witness :
  ∃ o, outcomes P6Group ex_settled_db !! ex_encode_id "owner-1" "p6_group" "7" "g4" = Some o ∧
    oc_status o = "terminal"%string.
Proof.
  exact (proj1 (domain_state_settles ex_handed.2 (ex_terminal Terminal) 710 ex_settled_db
                  ex_settled_ok)).
Defined.

Definition ex_outcome : OutcomeRow :=
  mkOutcome "owner-1" "did:group" "terminal" false 1 None None None 710.

Lemma closed_outcome_final_witness :
  outcomes P6Group ex_settled_db !! ex_encode_id "owner-1" "p6_group" "7" "g4" = Some ex_outcome ∨
  ¬ queued (ld_db ex_settled_db) (ex_encode_id "owner-1" "p6_group" "7" "g4").
Proof.
  apply (@closed_outcome_final ex_codec ex_json ex_settled_db ex_settled_db P6Group
           (ex_encode_id "owner-1" "p6_group" "7" "g4") ex_outcome Terminal).
  - apply (@l_outcome ex_codec ex_json ex_settled_db (ex_terminal Terminal) 720).
    vm_compute. reflexivity.
  - vm_compute. reflexivity.
  - vm_compute. reflexivity.
  - reflexivity.
Defined.

(** A closed outcome refuses another status. *)
Example ex_reopen_refused :
  write_sync_lane_domain_state ex_settled_db (ex_terminal Pending) 720 =
  Err (sync_error "LANE_DOMAIN_STATE_CONFLICT"
         "closed lane domain outcome cannot be reopened or rewritten").
Proof. vm_compute. reflexivity. Qed.

Definition ex_blocker : P6LaneBlocker :=
  mkBlocker "owner-1" "g4" "7" "4" "p6.control.notice" "did:group" None "{}" 1
    "group.e2ee.state_not_ready" 700 700.
Definition ex_lane_cursor (seq : string) : LaneSyncState :=
  mkLaneState "owner-1" P6Group "7" seq seq.
Definition ex_blocked_db : LaneDb :=
  unwrap_or (@record_p6_lane_blocker_and_advance ex_json ex_lane_db ex_blocker (ex_lane_cursor "4"))
    ex_lane_db.

Lemma p6_blocker_kept_witness :
  ∃ x, x ∈ ld_blockers ex_blocked_db ∧ bl_owner x = "owner-1"%string ∧
    bl_event_id x = "g4"%string ∧ blocker_same x ex_blocker = true ∧ 0 < bl_attempt_count ex_blocker.
Proof.
  refine (proj1 (@p6_blocker_kept ex_json ex_lane_db ex_blocker (ex_lane_cursor "4")
                   ex_blocked_db _)).
  vm_compute. reflexivity.
Defined.

Definition ex_lane_receipt : SyncLaneEventReceipt :=
  mkLaneReceipt "owner-1" P6Group "g4" "7" "4" (Some "did:group"%string) None 720.
Definition ex_resolved_db : LaneDb :=
  unwrap_or (commit_sync_lane_event ex_blocked_db ex_lane_receipt (Some (ex_lane_cursor "4")) true)
    ex_lane_db.

Lemma lane_event_once_witness :
  sync_lane_event_receipt_match ex_resolved_db ex_lane_receipt = Ok Exact ∧
  commit_sync_lane_event ex_resolved_db ex_lane_receipt None false = Ok ex_resolved_db.
Proof.
  assert (commit_sync_lane_event ex_blocked_db ex_lane_receipt (Some (ex_lane_cursor "4")) true
          = Ok ex_resolved_db) as Hc by (vm_compute; reflexivity).
  destruct (lane_event_once ex_blocked_db ex_lane_receipt (Some (ex_lane_cursor "4")) true
    ex_resolved_db Hc) as (H1 & H2 & _).
  exact (conj H1 H2).
Defined.

Definition ex_negotiated_db : LaneDb :=
  unwrap_or (@reconcile_sync_lane_capability_v1a ex_json ex_lane_db "owner-1"
    [ex_lane_cursor "3"] "1" "inst-1" ex_caps_json) ex_lane_db.

Lemma negotiation_scoped_witness :
  ∃ caps, @from_str ex_json ex_caps_json = Some (VArray caps) ∧
    @load_negotiated_lanes_v1a ex_json ex_negotiated_db ex_binding
      = Ok (Some (omap capability_lane caps)).
Proof.
  destruct (@negotiation_scoped ex_json ex_lane_db "owner-1" [ex_lane_cursor "3"] ex_binding
    "inst-1" ex_caps_json ex_negotiated_db) as (caps & Hj & Hn & _).
  - vm_compute. reflexivity.
  - vm_compute. reflexivity.
  - reflexivity.
  - vm_compute. reflexivity.
  - exists caps. exact (conj Hj Hn).
Defined.
