(* ===== verification/Wire.v ===== *)
(** * The sync wire protocol

    [wire/sync_v2.rs]: the requests the client sends ([sync.bootstrap],
    [sync.delta], [sync.snapshot], [sync.thread_after], [message.get_batch]) and
    the parsers of their responses. A response is untrusted; everything past this
    file works on the parsed types only.

    The canonical JSON encoder, SHA-256, the RFC 3339 parsers of [time] and
    [chrono] and the transport profile constant of the [anp] crate are libraries:
    they are the operations of the class [WireCodec]. The operation id and clock
    text [local_meta] stamps on a request are arguments. *)

From stdpp Require Import gmap.
From Stdlib Require Import Ascii.
From S2P Require Import Prelude RustStr ImError Decimal Dto Store SyncStore Inbox Lanes.
Local Open Scope Z_scope.

Definition SYNC_V2_PROFILE : string := "anp.sync.local.v2".
Definition MESSAGE_SYNC_EXPLICIT_NEGOTIATION_V1 : string :=
  "awiki.message-sync.explicit-negotiation.v1".
Definition SNAPSHOT_PAGING_V1 : string := "sync.snapshot_paging.v1".
Definition SYNC_CAPABILITY_P5_DEVICE_V1 : string := "lanes.p5_device.v1".
Definition SYNC_CAPABILITY_P6_GROUP_V1 : string := "lanes.p6_group.v1".
Definition P6_DELIVERY_CONTEXT_CAPABILITY_V1 : string := "p6.delivery_context.v1".
Definition MESSAGE_GET_BATCH_MAX_EVENT_IDS : nat := 100.
Definition SNAPSHOT_PAGE_MAX_ITEMS : Z := 100.
Definition SNAPSHOT_PAGE_MAX_ENCODED_BYTES : Z := 1048576.
Definition SNAPSHOT_PACKAGE_MAX_ITEMS : Z := 10000.
Definition SNAPSHOT_PACKAGE_MAX_ENCODED_BYTES : Z := 67108864.
Definition SNAPSHOT_PACKAGE_MAX_PAGES : Z := 100.

Class WireCodec := {
  (** [serde_json_canonicalizer::to_vec] *)
  to_canonical : Value → option string;
  (** [format!("{:x}", Sha256::digest(..))] *)
  sha256_hex : string → string;
  (** [time::OffsetDateTime::parse(.., &Rfc3339).is_ok()] *)
  time_rfc3339 : string → bool;
  (** [chrono::DateTime::parse_from_rfc3339]: the instant, ordered by time *)
  chrono_rfc3339 : string → option Z;
  (** [anp::group_e2ee::GROUP_E2EE_TRANSPORT_PROFILE_V2] *)
  group_transport_profile : string }.

(** ** Data *)

Record SyncCursorV2 := mkCursor {
  cu_stream_epoch : string;
  cu_scan_seq : string }.

Definition lane_capability (lane : SyncLaneV3) : string :=
  match lane with
  | P5Device => SYNC_CAPABILITY_P5_DEVICE_V1
  | P6Group => SYNC_CAPABILITY_P6_GROUP_V1
  end.

#[export] Instance SyncLaneV3_countable : Countable SyncLaneV3.
Proof.
  refine (inj_countable' (λ l, match l with P5Device => true | P6Group => false end)
            (λ b : bool, if b then P5Device else P6Group) _); by intros [].
Defined.

Record SyncLaneCursorV3 := mkLaneCursor {
  lcu_cursor : SyncCursorV2;
  lcu_committed_seq : string }.

Record SyncLaneBootstrapV3 := mkLaneBootstrap {
  lb_capabilities : gset SyncLaneV3;
  lb_lanes : gmap SyncLaneV3 SyncLaneCursorV3 }.

Record SyncRecoveryV2 := mkSyncRecovery {
  sr_recovery_id : string;
  sr_token : string;
  sr_stream_epoch : string;
  sr_snapshot_scan_seq : string;
  sr_expires_at : string;
  sr_snapshot_schema : Z;
  sr_snapshot_delivery : string }.

Record SyncBootstrapV2 := mkSyncBootstrap {
  sb_account_id : string;
  sb_device_id : string;
  sb_server_time : string;
  sb_cursor : SyncCursorV2;
  sb_read_state_baseline : list Value;
  sb_group_state_baseline : list Value;
  sb_warnings : list string;
  sb_lane_bootstrap : SyncLaneBootstrapV3;
  sb_p6_delivery_client_instance_id : option string;
  sb_snapshot_paging_v1 : bool }.

Inductive SyncBootstrapResponseV2 : Type :=
| TailOnly (bootstrap : SyncBootstrapV2)
| BootstrapRecoveryRequired (recovery : SyncRecoveryV2) (lane_bootstrap : SyncLaneBootstrapV3)
    (p6_delivery_client_instance_id : option string) (snapshot_paging_v1 : bool).

Inductive SyncLaneEventV3 : Type :=
| P5Delivery (delivery_id seq : string) (envelope : Value)
| P6Delivery (delivery_id seq group_did group_event_seq : string) (envelope : Value)
| P6ControlNotice (notice_id seq group_did : string) (notice : Value).

Definition lane_event_seq (e : SyncLaneEventV3) : string :=
  match e with
  | P5Delivery _ seq _ | P6Delivery _ seq _ _ _ | P6ControlNotice _ seq _ _ => seq
  end.

Record SyncLaneErrorV3 := mkLaneError {
  le_code : Z;
  le_anp_code : string;
  le_message : string }.

Inductive SyncLaneDeltaSectionV3 : Type :=
| Page (events : list SyncLaneEventV3) (next_cursor : SyncCursorV2) (has_more : bool)
| LaneError (error : SyncLaneErrorV3)
| TransportInvalid.

Record SyncDeltaPageV2 := mkDeltaPage {
  dp_server_time : string;
  dp_events : list SyncEventV2;
  dp_next_cursor : SyncCursorV2;
  dp_has_more : bool;
  dp_warnings : list string;
  dp_lanes : gmap SyncLaneV3 SyncLaneDeltaSectionV3;
  dp_lane_transport_invalid : bool }.

Inductive SyncDeltaResponseV2 : Type :=
| Delta (page : SyncDeltaPageV2)
| DeltaRecoveryRequired (recovery : SyncRecoveryV2).

Record HydratedMessageV2 := mkHydrated {
  hm_event_id : string;
  hm_message : Value }.

Record MessageBatchV2 := mkMessageBatch {
  mb_items : list HydratedMessageV2;
  mb_unavailable : list string }.

(** ** Field readers *)

Definition invalid_page {A} (message : string) : ImResult A :=
  Err (sync_error "SYNC_INVALID_PAGE" message).

Definition or_invalid {A} (o : option A) (message : string) : ImResult A :=
  match o with Some a => Ok a | None => invalid_page message end.

Definition required_string (field value : string) : ImResult string :=
  if is_empty (trim value) || negb (bool_decide (trim value = value)) then
    Err (invalid_input (Some field) (field +:+ " must be a non-empty canonical string"))
  else Ok value.

Notation Obj := (list (string * Value)).

Definition object (value : Value) (label : string) : ImResult Obj :=
  or_invalid (as_object value) (label +:+ " must be an object").

Definition contains_key (m : Obj) (k : string) : bool := bool_decide (is_Some (assoc k m)).

Definition exact_fields (m : Obj) (expected : list string) (label : string) : ImResult unit :=
  if negb (length m =? length expected)%nat
     || existsb (λ field, negb (contains_key m field)) expected then
    invalid_page (label +:+ " must contain exactly the frozen fields")
  else Ok ().

Definition canonical_string_field (m : Obj) (field : string) : ImResult string :=
  s ← or_invalid (assoc field m ≫= as_str) (field +:+ " must be a string");
  required_string field s.

Definition optional_canonical_string_field (m : Obj) (field : string)
    : ImResult (option string) :=
  match assoc field m with
  | None | Some VNull => Ok None
  | Some (VString value) => s ← required_string field value; Ok (Some s)
  | Some _ => invalid_page (field +:+ " must be a string or null")
  end.

(** [map_err(|_| invalid_page(..))] *)
Definition map_invalid {A} (r : ImResult A) (message : string) : ImResult A :=
  match r with Ok a => Ok a | Err _ => invalid_page message end.

Definition decimal_field (m : Obj) (field : string) : ImResult string :=
  value ← canonical_string_field m field;
  _ ← map_invalid (validate_decimal field value)
        (field +:+ " must be a canonical decimal string");
  Ok value.

Definition positive_decimal_field (m : Obj) (field : string) : ImResult string :=
  value ← canonical_string_field m field;
  _ ← map_invalid (validate_positive_decimal field value)
        (field +:+ " must be a canonical positive decimal string");
  Ok value.

Definition optional_decimal_field (m : Obj) (field : string) : ImResult (option string) :=
  match assoc field m with
  | None | Some VNull => Ok None
  | Some (VString value) =>
      _ ← map_invalid (validate_decimal field value)
            (field +:+ " must be a canonical decimal string or null");
      Ok (Some value)
  | Some _ => invalid_page (field +:+ " must be a decimal string or null")
  end.

Definition u64_field (m : Obj) (field : string) : ImResult Z :=
  or_invalid (assoc field m ≫= as_u64) (field +:+ " must be a non-negative integer").

Definition bool_field (m : Obj) (field message : string) : ImResult bool :=
  or_invalid (assoc field m ≫= as_bool) message.

Definition exact_mode (m : Obj) (expected : string) : ImResult unit :=
  mode ← canonical_string_field m "mode";
  if bool_decide (mode = expected) then Ok ()
  else invalid_page ("response mode must be " +:+ debug_str expected +:+ ", got "
                       +:+ debug_str mode).

(** [iter().map(f).collect::<ImResult<Vec<_>>>()]: the first error wins. *)
Fixpoint collect {A B} (f : A → ImResult B) (l : list A) : ImResult (list B) :=
  match l with
  | [] => Ok []
  | x :: l => y ← f x; ys ← collect f l; Ok (y :: ys)
  end.

Definition warnings (value : option Value) : ImResult (list string) :=
  match value ≫= as_array with
  | None => invalid_page "warnings must be an array"
  | Some values =>
      collect (λ value, s ← or_invalid (as_str value) "warning entries must be strings";
                        required_string "warning" s) values
  end.

(** ** Cursors, limits and request identifiers *)

Definition validate_cursor (cursor : SyncCursorV2) : ImResult unit :=
  _ ← validate_positive_decimal "stream_epoch" (cu_stream_epoch cursor);
  validate_decimal "scan_seq" (cu_scan_seq cursor).

Definition parse_cursor (value : Value) : ImResult SyncCursorV2 :=
  m ← object value "cursor";
  stream_epoch ← positive_decimal_field m "stream_epoch";
  scan_seq ← decimal_field m "scan_seq";
  let cursor := mkCursor stream_epoch scan_seq in
  _ ← validate_cursor cursor;
  Ok cursor.

Definition validate_limit (limit : Z) : ImResult Z :=
  if (1 <=? limit) && (limit <=? 500) then Ok limit
  else Err (invalid_input (Some "limit"%string) "message sync limit must be between 1 and 500").

Definition sync_reasons : list string :=
  ["session_start"; "app_resume"; "websocket_hint"; "websocket_reconnect";
   "foreground_reconcile"; "manual_refresh"; "after_mutation"]%string.

Definition validate_reason (value : string) : ImResult string :=
  value ← required_string "reason" value;
  if bool_decide (value ∈ sync_reasons) then Ok value
  else Err (invalid_input (Some "reason"%string) "unsupported message sync reason").

Definition validate_event_ids (event_ids : list string) : ImResult unit :=
  if (length event_ids =? 0)%nat || (MESSAGE_GET_BATCH_MAX_EVENT_IDS <? length event_ids)%nat then
    Err (invalid_input (Some "event_ids"%string)
           "event_ids must contain between 1 and 100 entries")
  else
    _ ← try_fold
      (λ unique event_id,
         _ ← required_string "event_ids" event_id;
         if bool_decide (event_id ∈ unique) then
           Err (invalid_input (Some "event_ids"%string) "event_ids must not contain duplicates")
         else Ok (event_id :: unique)) [] event_ids;
    Ok ().

(** ** Requests *)

(** What [local_meta] reads from the process: [generate_operation_id()] and
    [now_rfc3339()]. *)
Record Stamp := mkStamp {
  st_operation_id : string;
  st_created_at : string }.

Definition local_meta (stamp : Stamp) (sender_did profile : string) : Value :=
  VObject [("profile", VString profile);
           ("security_profile", VString "transport-protected");
           ("sender_did", VString sender_did);
           ("operation_id", VString ("op-" +:+ st_operation_id stamp));
           ("created_at", VString (st_created_at stamp))]%string.

Definition request (meta : Value) (body : Obj) : Value :=
  VObject [("meta", meta); ("body", VObject body)]%string.

Definition build_capability_discovery_params (stamp : Stamp) (identity_did : string)
    : ImResult Value :=
  did ← required_string "identity.did" identity_did;
  Ok (request (local_meta stamp did "anp.core.binding.v1") []).

Definition requested_capabilities (lanes : gset SyncLaneV3) : list string :=
  (if bool_decide (P5Device ∈ lanes) then [SYNC_CAPABILITY_P5_DEVICE_V1] else []) ++
  (if bool_decide (P6Group ∈ lanes)
   then [SYNC_CAPABILITY_P6_GROUP_V1; P6_DELIVERY_CONTEXT_CAPABILITY_V1] else []).

Definition build_bootstrap_params_with_lanes (stamp : Stamp) (identity_did client_instance_id : string)
    (lanes : gset SyncLaneV3) : ImResult Value :=
  did ← required_string "identity.did" identity_did;
  client_instance_id ← required_string "client_instance_id" client_instance_id;
  let capabilities :=
    [("sync_profile", VString SYNC_V2_PROFILE);
     ("event_schema_max", VNumber (PosInt 1));
     ("requested_sync_capabilities", VArray (VString <$> requested_capabilities lanes));
     ("requested_snapshot_capabilities",
       VObject [("schema_max", VNumber (PosInt 3));
                ("deliveries", VArray [VString "paged_v1"])])]%string in
  let p6 := if bool_decide (P6Group ∈ lanes)
            then [("p6_delivery"%string, VString P6_DELIVERY_CONTEXT_CAPABILITY_V1)] else [] in
  Ok (request (local_meta stamp did SYNC_V2_PROFILE)
        [("client_instance_id", VString client_instance_id);
         ("capabilities", VObject (capabilities ++ p6))]%string).

Definition build_bootstrap_params (stamp : Stamp) (identity_did client_instance_id : string)
    : ImResult Value :=
  build_bootstrap_params_with_lanes stamp identity_did client_instance_id ∅.

Definition cursor_value (cursor : SyncCursorV2) : Value :=
  VObject [("stream_epoch", VString (cu_stream_epoch cursor));
           ("scan_seq", VString (cu_scan_seq cursor))]%string.

(** One iteration of the loop over the two lanes of a delta request. *)
Definition lane_section (lanes : gmap SyncLaneV3 SyncLaneCursorV3) (sections : Obj)
    (lane : SyncLaneV3) : ImResult Obj :=
  match lanes !! lane with
  | None => Ok sections
  | Some state =>
      _ ← validate_cursor (lcu_cursor state);
      _ ← validate_decimal "committed_seq" (lcu_committed_seq state);
      order ← compare_decimal (lcu_committed_seq state) (cu_scan_seq (lcu_cursor state));
      if bool_decide (order = Gt) then
        Err (invalid_input (Some "lanes.committed_seq"%string)
               "lane committed_seq must not exceed scan_seq")
      else
        Ok (sections ++ [(lane_as_str lane,
              VObject [("cursor", cursor_value (lcu_cursor state));
                       ("committed_seq", VString (lcu_committed_seq state))]%string)])
  end.

Definition build_delta_params_with_lanes (stamp : Stamp) (identity_did : string)
    (cursor : SyncCursorV2) (limit : Z) (reason : string)
    (lanes : gmap SyncLaneV3 SyncLaneCursorV3) (client_instance_id : string) : ImResult Value :=
  did ← required_string "identity.did" identity_did;
  _ ← validate_cursor cursor;
  limit ← validate_limit limit;
  reason ← validate_reason reason;
  client_instance_id ← required_string "client_instance_id" client_instance_id;
  let base := [("cursor", cursor_value cursor); ("limit", VNumber (PosInt limit));
               ("reason", VString reason)]%string in
  with_lanes ←
    (if bool_decide (lanes = ∅) then Ok base
     else sections ← try_fold (lane_section lanes) [] [P5Device; P6Group];
          Ok (base ++ [("lanes"%string, VObject sections)]));
  let p6 := if bool_decide (is_Some (lanes !! P6Group))
            then [("p6_delivery"%string,
                    VObject [("profile", VString P6_DELIVERY_CONTEXT_CAPABILITY_V1);
                             ("client_instance_id", VString client_instance_id)]%string)]
            else [] in
  Ok (request (local_meta stamp did SYNC_V2_PROFILE) (with_lanes ++ p6)).

Definition build_delta_params (stamp : Stamp) (identity_did : string) (cursor : SyncCursorV2)
    (limit : Z) (reason client_instance_id : string) : ImResult Value :=
  build_delta_params_with_lanes stamp identity_did cursor limit reason ∅ client_instance_id.

Definition build_message_get_batch_params (stamp : Stamp) (identity_did : string)
    (event_ids : list string) : ImResult Value :=
  did ← required_string "identity.did" identity_did;
  _ ← validate_event_ids event_ids;
  Ok (request (local_meta stamp did SYNC_V2_PROFILE)
        [("event_ids"%string, VArray (VString <$> event_ids))]).

Definition build_snapshot_page_params (stamp : Stamp) (identity_did : string)
    (recovery : SyncRecoveryV2) (page_ref : option string) : ImResult Value :=
  did ← required_string "identity.did" identity_did;
  recovery_id ← required_string "recovery_id" (sr_recovery_id recovery);
  token ← required_string "token" (sr_token recovery);
  let body := [("recovery_id", VString recovery_id); ("token", VString token)]%string in
  let meta := local_meta stamp did SYNC_V2_PROFILE in
  match page_ref with
  | None => Ok (request meta body)
  | Some page_ref =>
      page_ref ← required_string "page_ref" page_ref;
      Ok (request meta (body ++ [("page_ref"%string, VString page_ref)]))
  end.

Definition build_snapshot_params (stamp : Stamp) (identity_did : string)
    (recovery : SyncRecoveryV2) : ImResult Value :=
  build_snapshot_page_params stamp identity_did recovery None.

Definition build_thread_after_params (stamp : Stamp) (identity_did thread_key after_server_seq : string)
    (limit : Z) : ImResult Value :=
  did ← required_string "identity.did" identity_did;
  thread_key ← required_string "thread_key" thread_key;
  _ ← validate_decimal "after_server_seq" after_server_seq;
  limit ← validate_limit limit;
  Ok (request (local_meta stamp did SYNC_V2_PROFILE)
        [("thread_key", VString thread_key); ("after_server_seq", VString after_server_seq);
         ("limit", VNumber (PosInt limit))]%string).

(** ** Ordinary values carry no end-to-end encryption discriminator *)

Definition forbidden_tokens : list string :=
  ["anp.direct.e2ee"; "anp.group.e2ee"; "group.e2ee."; "e2ee"; "mls"; "secure_direct"]%string.

Definition has_forbidden_discriminator (m : Obj) : bool :=
  existsb (λ field,
    match assoc field m ≫= as_str with
    | Some s => existsb (contains (to_ascii_lowercase s)) forbidden_tokens
    | None => false
    end) ["profile"; "security_profile"; "thread_kind"]%string.

Definition reject_e2ee_discriminators (m : Obj) : ImResult unit :=
  if has_forbidden_discriminator m
     || bool_decide (assoc "secure" m ≫= as_bool = Some true) then
    invalid_page "ordinary sync v2 response contains an E2EE/MLS value"
  else Ok ().

Definition reject_e2ee_value (value : Value) : ImResult unit :=
  m ← or_invalid (as_object value) "ordinary sync v2 value must be an object";
  _ ← reject_e2ee_discriminators m;
  match assoc "metadata" m ≫= as_object with
  | Some metadata => reject_e2ee_discriminators metadata
  | None => Ok ()
  end.

(** ** Ordinary events *)

Definition object_field (m : Obj) (field message : string) : ImResult Value :=
  match assoc field m with
  | Some v => if is_object v then Ok v else invalid_page message
  | None => invalid_page message
  end.

Definition schema_version_field (m : Obj) : ImResult Z :=
  let message := "schema_version must be a positive integer"%string in
  n ← or_invalid (assoc "schema_version" m ≫= as_u64) message;
  if negb (n <=? u32_max) then invalid_page message
  else if n =? 0 then invalid_page message else Ok n.

Definition source_field (m : Obj) : ImResult (option Value) :=
  match assoc "source" m with
  | None | Some VNull => Ok None
  | Some value =>
      if is_object value then Ok (Some value)
      else invalid_page "source must be an object or null"
  end.

Definition parse_event (value : Value) : ImResult SyncEventV2 :=
  m ← object value "sync event";
  payload ← object_field m "payload" "event payload must be an object";
  schema_version ← schema_version_field m;
  state_version ← optional_decimal_field m "state_version";
  source ← source_field m;
  event_id ← canonical_string_field m "event_id";
  stream_epoch ← positive_decimal_field m "stream_epoch";
  event_seq ← positive_decimal_field m "event_seq";
  event_type ← canonical_string_field m "event_type";
  ignore_safe ← bool_field m "ignore_safe" "ignore_safe must be a boolean";
  account_id ← canonical_string_field m "account_id";
  recipient_device_id ← optional_canonical_string_field m "recipient_device_id";
  origin_did ← optional_canonical_string_field m "origin_did";
  origin_device_id ← optional_canonical_string_field m "origin_device_id";
  aggregate_kind ← canonical_string_field m "aggregate_kind";
  aggregate_id ← canonical_string_field m "aggregate_id";
  thread_key ← optional_canonical_string_field m "thread_key";
  occurred_at ← canonical_string_field m "occurred_at";
  Ok (mkSyncEvent event_id stream_epoch event_seq event_type schema_version ignore_safe
        account_id recipient_device_id origin_did origin_device_id aggregate_kind
        aggregate_id state_version thread_key occurred_at payload source).

Definition inline_event_fields : list string :=
  ["event_id"; "stream_epoch"; "event_seq"; "event_type"; "schema_version"; "ignore_safe";
   "account_id"; "recipient_device_id"; "origin_did"; "origin_device_id"; "aggregate_kind";
   "aggregate_id"; "state_version"; "thread_key"; "occurred_at"; "payload"; "source"]%string.

Definition parse_inline_event (value : Value) : ImResult SyncEventV2 :=
  m ← object value "inline sync event";
  _ ← exact_fields m inline_event_fields "inline sync event";
  parse_event value.

(** The derived [Serialize] of an event: one entry per field, in order. *)
Definition opt_string_value (o : option string) : Value :=
  match o with Some s => VString s | None => VNull end.
Definition event_to_value (e : SyncEventV2) : Value :=
  VObject
    [("event_id", VString (se_event_id e)); ("stream_epoch", VString (se_stream_epoch e));
     ("event_seq", VString (se_event_seq e)); ("event_type", VString (se_event_type e));
     ("schema_version", VNumber (PosInt (se_schema_version e)));
     ("ignore_safe", VBool (se_ignore_safe e)); ("account_id", VString (se_account_id e));
     ("recipient_device_id", opt_string_value (se_recipient_device_id e));
     ("origin_did", opt_string_value (se_origin_did e));
     ("origin_device_id", opt_string_value (se_origin_device_id e));
     ("aggregate_kind", VString (se_aggregate_kind e));
     ("aggregate_id", VString (se_aggregate_id e));
     ("state_version", opt_string_value (se_state_version e));
     ("thread_key", opt_string_value (se_thread_key e));
     ("occurred_at", VString (se_occurred_at e)); ("payload", se_payload e);
     ("source", match se_source e with Some v => v | None => VNull end)]%string.

(** ** message.get_batch *)

(** The position of an id in the request. The source keeps a map from id to
    index; the ids were checked to be distinct. *)
Definition request_index (ids : list string) (id : string) : option nat :=
  fst <$> list_find (λ x, x = id) ids.

Definition response_order_step (ids : list string) (field : string)
    (s : option nat * list string) (event_id : string) : ImResult (option nat * list string) :=
  match request_index ids event_id with
  | None => invalid_page (field +:+ " contains an event_id that was not requested")
  | Some index =>
      if match s.1 with Some previous => (index <=? previous)%nat | None => false end then
        invalid_page (field +:+ " does not preserve request order")
      else if bool_decide (event_id ∈ s.2) then
        invalid_page "message.get_batch repeats an event_id across response fields"
      else Ok (Some index, event_id :: s.2)
  end.

Definition validate_response_order (event_ids ids : list string) (field : string)
    (seen : list string) : ImResult (list string) :=
  s ← try_fold (response_order_step ids field) (None, seen) event_ids;
  Ok s.2.

Definition parse_batch_item (item : Value) : ImResult HydratedMessageV2 :=
  m ← object item "message.get_batch item";
  event_id ← canonical_string_field m "event_id";
  message ← object_field m "message" "hydrated message must be an object";
  _ ← reject_e2ee_value message;
  Ok (mkHydrated event_id message).

Definition parse_message_batch (raw : Value) (requested_event_ids : list string)
    : ImResult MessageBatchV2 :=
  _ ← validate_event_ids requested_event_ids;
  response ← object raw "message.get_batch response";
  item_values ← or_invalid (assoc "items" response ≫= as_array) "items must be an array";
  items ← collect parse_batch_item item_values;
  unavailable_values ← or_invalid (assoc "unavailable" response ≫= as_array)
    "unavailable must be an array";
  unavailable ← collect
    (λ value, s ← or_invalid (as_str value) "unavailable entries must be strings";
              required_string "unavailable.event_id" s) unavailable_values;
  seen ← validate_response_order (hm_event_id <$> items) requested_event_ids "items" [];
  seen ← validate_response_order unavailable requested_event_ids "unavailable" seen;
  if negb (length seen =? length requested_event_ids)%nat then
    invalid_page "message.get_batch response does not cover every requested event_id"
  else Ok (mkMessageBatch items unavailable).

Definition parse_inline_message (event_id : string) (message : Value) : ImResult Value :=
  batch ← parse_message_batch
    (VObject [("items", VArray [VObject [("event_id", VString event_id); ("message", message)]]);
              ("unavailable", VArray [])]%string) [event_id];
  or_invalid (hm_message <$> head (mb_items batch)) "inline message projection is missing".

(** ** sync.thread_after *)

Definition validate_thread_after_response (raw : Value) (expected_thread_kind : string)
    : ImResult unit :=
  if negb (bool_decide (expected_thread_kind ∈ ["direct"; "group"]%string)) then
    Err (invalid_input (Some "thread_kind"%string) "thread_kind must be direct or group")
  else
    response ← object raw "sync.thread_after response";
    _ ← map_invalid
      (exact_fields response ["messages"; "next_after_server_seq"; "has_more"; "warnings"]%string "")
      "sync.thread_after response fields do not match the v2 contract";
    messages ← or_invalid (assoc "messages" response ≫= as_array) "messages must be an array";
    _ ← try_each
      (λ message,
         m ← object message "sync.thread_after message";
         kind ← canonical_string_field m "thread_kind";
         if negb (bool_decide (kind = expected_thread_kind)) then
           invalid_page
             "sync.thread_after message thread_kind does not match the requested thread"
         else Ok ()) messages;
    _ ← decimal_field response "next_after_server_seq";
    _ ← bool_field response "has_more" "has_more must be a boolean";
    _ ← warnings (assoc "warnings" response);
    Ok ().

(** ** Capability discovery *)

Definition require_explicit_sync_negotiation_capability (raw : Value) : ImResult unit :=
  response ← object raw "anp.get_capabilities response";
  profiles ← or_invalid (assoc "supported_profiles" response ≫= as_array)
    "supported_profiles must be an array";
  let has_profile expected :=
    existsb (λ value, bool_decide (as_str value = Some expected)) profiles in
  if has_profile MESSAGE_SYNC_EXPLICIT_NEGOTIATION_V1 && has_profile SNAPSHOT_PAGING_V1
  then Ok () else Err (unsupported SNAPSHOT_PAGING_V1).

(** ** Secure-lane sections of a delta *)

Definition validate_lane_envelope_v3 (value : Value)
    (expected_profile expected_security_profile : string) : ImResult unit :=
  envelope ← object value "E2EE lane envelope";
  meta ← or_invalid (assoc "meta" envelope ≫= as_object)
    "E2EE lane envelope meta must be an object";
  if negb (bool_decide (assoc "profile" meta ≫= as_str = Some expected_profile))
     || negb (bool_decide (assoc "security_profile" meta ≫= as_str
                             = Some expected_security_profile))
     || negb match assoc "body" envelope with Some body => is_object body | None => false end then
    invalid_page "E2EE lane envelope profile does not match its lane"
  else Ok ().

Definition as_i64 (v : Value) : option Z :=
  match v with
  | VNumber (PosInt n) => if n <=? i64_max then Some n else None
  | VNumber (NegInt n) => Some n
  | _ => None
  end.

Section codec.
Context `{WireCodec}.

Definition canonical_timestamp_field (m : Obj) (field : string) : ImResult string :=
  value ← canonical_string_field m field;
  if time_rfc3339 value then Ok value
  else invalid_page (field +:+ " must be an RFC 3339 timestamp").

Definition parse_lane_event_v3 (lane : SyncLaneV3) (value : Value) : ImResult SyncLaneEventV3 :=
  event ← object value "sync.delta lane event";
  event_type ← canonical_string_field event "event_type";
  match lane with
  | P5Device =>
      if bool_decide (event_type = "p5.delivery.created"%string) then
        _ ← exact_fields event ["event_type"; "delivery_id"; "seq"; "envelope"]%string
              "p5 delivery event";
        envelope ← object_field event "envelope" "p5 delivery envelope must be an object";
        _ ← validate_lane_envelope_v3 envelope "anp.direct.e2ee.v2" "direct-e2ee";
        delivery_id ← canonical_string_field event "delivery_id";
        seq ← positive_decimal_field event "seq";
        Ok (P5Delivery delivery_id seq envelope)
      else invalid_page "sync.delta lane event does not match its closed lane shape"
  | P6Group =>
      if bool_decide (event_type = "p6.delivery.created"%string) then
        _ ← exact_fields event ["event_type"; "delivery_id"; "seq"; "group_did";
                                "group_event_seq"; "envelope"]%string "p6 delivery event";
        envelope ← object_field event "envelope" "p6 delivery envelope must be an object";
        _ ← validate_lane_envelope_v3 envelope "anp.group.e2ee.v2" "group-e2ee";
        delivery_id ← canonical_string_field event "delivery_id";
        seq ← positive_decimal_field event "seq";
        group_did ← canonical_string_field event "group_did";
        group_event_seq ← positive_decimal_field event "group_event_seq";
        Ok (P6Delivery delivery_id seq group_did group_event_seq envelope)
      else if bool_decide (event_type = "p6.control.notice"%string) then
        _ ← exact_fields event ["event_type"; "notice_id"; "seq"; "group_did"; "notice"]%string
              "p6 control notice";
        notice ← object_field event "notice" "p6 control notice must be an object";
        _ ← validate_lane_envelope_v3 notice "anp.group.e2ee.v2" group_transport_profile;
        notice_id ← canonical_string_field event "notice_id";
        seq ← positive_decimal_field event "seq";
        group_did ← canonical_string_field event "group_did";
        Ok (P6ControlNotice notice_id seq group_did notice)
      else invalid_page "sync.delta lane event does not match its closed lane shape"
  end.

(** One event of a lane page: after the previous one, at most the next cursor. *)
Definition lane_order_step (next_cursor : SyncCursorV2) (previous : option string)
    (event : SyncLaneEventV3) : ImResult (option string) :=
  let seq := lane_event_seq event in
  if match previous with
     | Some previous =>
         match compare_decimal previous seq with
         | Ok order => negb (bool_decide (order = Lt))
         | Err _ => true
         end
     | None => false
     end then
    invalid_page "lane events must have unique increasing sequence values"
  else
    order ← compare_decimal seq (cu_scan_seq next_cursor);
    if bool_decide (order = Gt) then invalid_page "lane event is ahead of its next cursor"
    else Ok (Some seq).

Definition parse_lane_delta_section_v3 (lane : SyncLaneV3) (value : Value)
    : ImResult SyncLaneDeltaSectionV3 :=
  section ← object value "sync.delta lane section";
  match assoc "error" section with
  | Some error =>
      _ ← exact_fields section ["error"]%string "sync.delta lane error section";
      error ← object error "sync.delta lane error";
      _ ← exact_fields error ["code"; "anp_code"; "message"]%string "sync.delta lane error";
      code ← or_invalid (assoc "code" error ≫= as_i64) "lane error code must be an integer";
      anp_code ← canonical_string_field error "anp_code";
      message ← canonical_string_field error "message";
      Ok (LaneError (mkLaneError code anp_code message))
  | None =>
      _ ← exact_fields section ["events"; "next_cursor"; "has_more"]%string "sync.delta lane page";
      values ← or_invalid (assoc "events" section ≫= as_array) "lane events must be an array";
      events ← collect (parse_lane_event_v3 lane) values;
      cursor ← or_invalid (assoc "next_cursor" section) "lane next_cursor is required";
      next_cursor ← parse_cursor cursor;
      _ ← try_fold (lane_order_step next_cursor) None events;
      has_more ← bool_field section "has_more" "lane has_more must be a boolean";
      Ok (Page events next_cursor has_more)
  end.

Definition is_lane_name (name : string) : bool :=
  bool_decide (name ∈ ["p5_device"; "p6_group"]%string).

Definition parse_lane_delta_sections_v3 (value : option Value)
    : gmap SyncLaneV3 SyncLaneDeltaSectionV3 * bool :=
  match value with
  | None => (∅, false)
  | Some value =>
      match as_object value with
      | None => (∅, true)
      | Some sections =>
          let transport_invalid :=
            (length sections =? 0)%nat || existsb (λ name, negb (is_lane_name name)) sections.*1 in
          (foldl (λ parsed lane,
             match assoc (lane_as_str lane) sections with
             | None => parsed
             | Some value =>
                 <[lane := unwrap_or (parse_lane_delta_section_v3 lane value) TransportInvalid]>
                   parsed
             end) ∅ [P5Device; P6Group], transport_invalid)
      end
  end.

(** ** Recovery descriptors and sync.delta *)

Definition parse_recovery_descriptor_v3 (recovery : Obj) : ImResult SyncRecoveryV2 :=
  _ ← exact_fields recovery
    ["recovery_id"; "token"; "snapshot_schema"; "snapshot_delivery"; "stream_epoch";
     "snapshot_scan_seq"; "message_cutoff"; "expires_at"]%string "Schema 3 recovery descriptor";
  if negb (bool_decide (assoc "snapshot_schema" recovery ≫= as_u64 = Some 3))
     || negb (bool_decide (assoc "snapshot_delivery" recovery ≫= as_str
                             = Some "paged_v1"%string)) then
    invalid_page "compact recovery must use Schema 3 paged_v1 without fallback"
  else
    _ ← canonical_timestamp_field recovery "message_cutoff";
    recovery_id ← canonical_string_field recovery "recovery_id";
    token ← canonical_string_field recovery "token";
    stream_epoch ← positive_decimal_field recovery "stream_epoch";
    snapshot_scan_seq ← decimal_field recovery "snapshot_scan_seq";
    expires_at ← canonical_timestamp_field recovery "expires_at";
    Ok (mkSyncRecovery recovery_id token stream_epoch snapshot_scan_seq expires_at 3 "paged_v1").

Definition unique_event_step (s : list string * list string) (event : SyncEventV2)
    : ImResult (list string * list string) :=
  if bool_decide (se_event_id event ∈ s.1) then
    invalid_page "sync.delta contains a duplicate event_id"
  else if bool_decide (se_event_seq event ∈ s.2) then
    invalid_page "sync.delta contains a duplicate event_seq"
  else Ok (se_event_id event :: s.1, se_event_seq event :: s.2).

Definition parse_delta_recovery (m : Obj) : ImResult SyncDeltaResponseV2 :=
  events ← or_invalid (assoc "events" m ≫= as_array) "events must be an array";
  if negb (length events =? 0)%nat
     || negb match assoc "next_cursor" m with Some VNull => true | _ => false end
     || negb (bool_decide (assoc "has_more" m ≫= as_bool = Some false)) then
    invalid_page "compact recovery response must not carry events or a next cursor"
  else
    value ← or_invalid (assoc "recovery" m) "recovery is required";
    recovery ← object value "sync recovery";
    descriptor ← parse_recovery_descriptor_v3 recovery;
    Ok (DeltaRecoveryRequired descriptor).

Definition parse_delta_page (m : Obj) : ImResult SyncDeltaResponseV2 :=
  if match assoc "recovery" m with None | Some VNull => false | Some _ => true end then
    invalid_page "delta response recovery must be null"
  else
    values ← or_invalid (assoc "events" m ≫= as_array) "events must be an array";
    events ← collect parse_event values;
    _ ← try_fold unique_event_step ([], []) events;
    let '(lanes, lane_transport_invalid) := parse_lane_delta_sections_v3 (assoc "lanes" m) in
    server_time ← canonical_string_field m "server_time";
    cursor ← or_invalid (assoc "next_cursor" m) "next_cursor is required";
    next_cursor ← parse_cursor cursor;
    has_more ← bool_field m "has_more" "has_more must be a boolean";
    warnings ← warnings (assoc "warnings" m);
    Ok (Delta (mkDeltaPage server_time events next_cursor has_more warnings lanes
                 lane_transport_invalid)).

Definition parse_delta_response (raw : Value) : ImResult SyncDeltaResponseV2 :=
  m ← object raw "sync.delta response";
  let mode := assoc "mode" m ≫= as_str in
  if bool_decide (mode = Some "compact_recovery_required"%string) then parse_delta_recovery m
  else if bool_decide (mode = Some "delta"%string) then parse_delta_page m
  else invalid_page "sync.delta response has an unsupported mode".

Definition parse_delta (raw : Value) : ImResult SyncDeltaPageV2 :=
  response ← parse_delta_response raw;
  match response with
  | Delta page => Ok page
  | DeltaRecoveryRequired _ =>
      Err (sync_error "SYNC_RECOVERY_REQUIRED" "sync.delta requires compact recovery")
  end.

(** ** sync.bootstrap *)

Definition parse_snapshot_capability (response : Obj) : ImResult bool :=
  value ← or_invalid (assoc "snapshot_capability" response) "snapshot_capability is required";
  capability ← object value "snapshot_capability";
  _ ← exact_fields capability ["schema"; "delivery"]%string "snapshot_capability";
  if negb (bool_decide (assoc "schema" capability ≫= as_u64 = Some 3))
     || negb (bool_decide (assoc "delivery" capability ≫= as_str = Some "paged_v1"%string)) then
    invalid_page "snapshot_capability must confirm Schema 3 paged_v1"
  else Ok true.

Definition parse_p6_delivery_bootstrap (response : Obj) : ImResult (option string) :=
  match assoc "p6_delivery" response with
  | None => Ok None
  | Some value =>
      m ← object value "p6_delivery";
      if negb (length m =? 3)%nat
         || negb (bool_decide (assoc "profile" m ≫= as_str
                                 = Some P6_DELIVERY_CONTEXT_CAPABILITY_V1))
         || negb (bool_decide (assoc "activated" m ≫= as_bool = Some true)) then
        invalid_page "p6_delivery must confirm p6.delivery_context.v1 activation"
      else id ← canonical_string_field m "client_instance_id"; Ok (Some id)
  end.

(** One advertised capability: the raw names seen and the lanes recognized. *)
Definition capability_step (s : list string * gset SyncLaneV3) (value : Value)
    : ImResult (list string * gset SyncLaneV3) :=
  text ← or_invalid (as_str value) "sync_capabilities entries must be strings";
  name ← map_invalid (required_string "sync_capabilities" text)
           "sync_capabilities entries must be canonical";
  if bool_decide (name ∈ s.1) then invalid_page "sync_capabilities contains a duplicate"
  else
    Ok (name :: s.1,
        foldl (λ recognized lane,
          if bool_decide (name = lane_capability lane) then {[lane]} ∪ recognized
          else recognized) s.2 [P5Device; P6Group]).

Definition parse_sync_capabilities (response : Obj) : ImResult (gset SyncLaneV3) :=
  match assoc "sync_capabilities" response with
  | None => Ok ∅
  | Some value =>
      values ← or_invalid (as_array value) "sync_capabilities must be an array";
      s ← try_fold capability_step ([], ∅) values;
      Ok s.2
  end.

Definition bootstrap_lane_step (capabilities : gset SyncLaneV3) (lane_values : Obj)
    (lanes : gmap SyncLaneV3 SyncLaneCursorV3) (lane : SyncLaneV3)
    : ImResult (gmap SyncLaneV3 SyncLaneCursorV3) :=
  match assoc (lane_as_str lane) lane_values with
  | None =>
      if bool_decide (lane ∈ capabilities) then
        invalid_page "advertised sync lane is missing its bootstrap cursor"
      else Ok lanes
  | Some value =>
      if negb (bool_decide (lane ∈ capabilities)) then
        invalid_page "bootstrap lane cursor was returned without its capability"
      else
        section ← object value "bootstrap lane";
        _ ← exact_fields section ["cursor"; "committed_seq"]%string "bootstrap lane";
        cursor ← or_invalid (assoc "cursor" section) "bootstrap lane cursor is required";
        cursor ← parse_cursor cursor;
        committed_seq ← decimal_field section "committed_seq";
        order ← compare_decimal committed_seq (cu_scan_seq cursor);
        if bool_decide (order = Gt) then
          invalid_page "bootstrap lane committed_seq exceeds its scan cursor"
        else Ok (<[lane := mkLaneCursor cursor committed_seq]> lanes)
  end.

Definition parse_lane_bootstrap_v3 (response : Obj) : ImResult SyncLaneBootstrapV3 :=
  capabilities ← parse_sync_capabilities response;
  match assoc "lanes" response with
  | None =>
      if bool_decide (capabilities = ∅) then Ok (mkLaneBootstrap ∅ ∅)
      else invalid_page "advertised sync lanes require bootstrap cursors"
  | Some value =>
      lane_values ← object value "bootstrap lanes";
      if existsb (λ name, negb (is_lane_name name)) lane_values.*1 then
        invalid_page "bootstrap lanes contains an unknown lane"
      else
        lanes ← try_fold (bootstrap_lane_step capabilities lane_values) ∅ [P5Device; P6Group];
        Ok (mkLaneBootstrap capabilities lanes)
  end.

(** A baseline array: every item an object without encryption discriminators. *)
Definition check_baseline (label : string) (values : list Value) : ImResult unit :=
  try_each (λ value,
    if negb (is_object value) then invalid_page (label +:+ " items must be objects")
    else reject_e2ee_value value) values.

Definition parse_tail_bootstrap (m : Obj) (lane_bootstrap : SyncLaneBootstrapV3)
    (p6_delivery_client_instance_id : option string) (snapshot_paging_v1 : bool)
    : ImResult SyncBootstrapResponseV2 :=
  _ ← exact_mode m "tail_only";
  read_state_baseline ← or_invalid (assoc "read_state_baseline" m ≫= as_array)
    "read_state_baseline must be an array";
  _ ← check_baseline "read_state_baseline" read_state_baseline;
  groups ← or_invalid (assoc "group_state_baseline" m ≫= as_array)
    "group_state_baseline must be an array";
  _ ← check_baseline "group_state_baseline" groups;
  account_id ← canonical_string_field m "account_id";
  device_id ← canonical_string_field m "device_id";
  server_time ← canonical_string_field m "server_time";
  cursor ← or_invalid (assoc "cursor" m) "cursor is required";
  cursor ← parse_cursor cursor;
  warnings ← warnings (assoc "warnings" m);
  Ok (TailOnly (mkSyncBootstrap account_id device_id server_time cursor read_state_baseline
                  groups warnings lane_bootstrap p6_delivery_client_instance_id
                  snapshot_paging_v1)).

Definition parse_bootstrap_response (raw : Value) : ImResult SyncBootstrapResponseV2 :=
  m ← object raw "sync.bootstrap response";
  snapshot_paging_v1 ← parse_snapshot_capability m;
  lane_bootstrap ← parse_lane_bootstrap_v3 m;
  p6 ← parse_p6_delivery_bootstrap m;
  if negb (Bool.eqb (bool_decide (P6Group ∈ lb_capabilities lane_bootstrap))
             (bool_decide (is_Some p6))) then
    invalid_page "P6 lane capability and p6_delivery activation must occur together"
  else if bool_decide (assoc "mode" m ≫= as_str = Some "compact_recovery_required"%string) then
    value ← or_invalid (assoc "recovery" m) "bootstrap recovery is required";
    recovery ← object value "bootstrap recovery";
    descriptor ← parse_recovery_descriptor_v3 recovery;
    Ok (BootstrapRecoveryRequired descriptor lane_bootstrap p6 snapshot_paging_v1)
  else parse_tail_bootstrap m lane_bootstrap p6 snapshot_paging_v1.

Definition parse_bootstrap (raw : Value) : ImResult SyncBootstrapV2 :=
  response ← parse_bootstrap_response raw;
  match response with
  | TailOnly bootstrap => Ok bootstrap
  | BootstrapRecoveryRequired _ _ _ _ =>
      Err (sync_error "SYNC_RECOVERY_REQUIRED" "sync.bootstrap requires compact recovery")
  end.
End codec.
