(* ===== verification/Snapshot.v ===== *)
(** * Recovery snapshots

    [wire/sync_v2.rs], Schema 3: a compact recovery arrives as a manifest and
    pages of four sections. Each page and the manifest carry a digest of their
    canonical encoding; [finalize_snapshot_package_v3] accepts the assembled
    sections only when counts, digests, byte and page totals all match the
    manifest and every item is well-formed.

    [u64] sums over untrusted counts wrap, as in a build without overflow checks
    (with them the same input panics). *)

From stdpp Require Import gmap.
From Stdlib Require Import Ascii.
From S2P Require Import Prelude RustStr ImError Decimal Dto Store SyncStore Inbox Lanes Wire.
Local Open Scope Z_scope.

Inductive SnapshotSectionV3 : Type :=
| ReadStates
| Groups
| RecentPlainMessages
| UnexpiredSystemNotifications.

#[export] Instance SnapshotSectionV3_eq_dec : EqDecision SnapshotSectionV3.
Proof. solve_decision. Defined.
#[export] Instance SnapshotSectionV3_countable : Countable SnapshotSectionV3.
Proof.
  refine (inj_countable'
    (λ s, match s with
          | ReadStates => (true, true) | Groups => (true, false)
          | RecentPlainMessages => (false, true) | UnexpiredSystemNotifications => (false, false)
          end)
    (λ b : bool * bool,
       match b with
       | (true, true) => ReadStates | (true, false) => Groups
       | (false, true) => RecentPlainMessages | (false, false) => UnexpiredSystemNotifications
       end) _); by intros [].
Defined.

Definition ORDERED : list SnapshotSectionV3 :=
  [ReadStates; Groups; RecentPlainMessages; UnexpiredSystemNotifications].

Definition section_as_str (s : SnapshotSectionV3) : string :=
  match s with
  | ReadStates => "read_states"
  | Groups => "groups"
  | RecentPlainMessages => "recent_plain_messages"
  | UnexpiredSystemNotifications => "unexpired_system_notifications"
  end.

Definition section_parse (value : string) : ImResult SnapshotSectionV3 :=
  if bool_decide (value = "read_states"%string) then Ok ReadStates
  else if bool_decide (value = "groups"%string) then Ok Groups
  else if bool_decide (value = "recent_plain_messages"%string) then Ok RecentPlainMessages
  else if bool_decide (value = "unexpired_system_notifications"%string)
  then Ok UnexpiredSystemNotifications
  else invalid_page "snapshot page section is unknown".

Record SnapshotSectionSummaryV3 := mkSectionSummary {
  ss_item_count : Z;
  ss_digest : string }.

Record SnapshotRecoveryBudgetV3 := mkBudget {
  bu_required_state_items : Z;
  bu_required_state_encoded_bytes : Z;
  bu_required_state_pages : Z }.

Record SnapshotHistoryPolicyV3 := mkHistory {
  hp_returned_items : Z;
  hp_returned_encoded_bytes : Z;
  hp_returned_pages : Z;
  hp_oldest_included_event_seq : option string;
  hp_excluded_older_messages : Z;
  hp_older_history_excluded : bool;
  hp_truncation_reason : option string }.

Record SyncSnapshotManifestV3 := mkManifest {
  mf_frozen_at : string;
  mf_snapshot_cursor : SyncCursorV2;
  mf_sections : gmap SnapshotSectionV3 SnapshotSectionSummaryV3;
  mf_recovery_budget : SnapshotRecoveryBudgetV3;
  mf_history_policy : SnapshotHistoryPolicyV3;
  mf_server_cutoff : string;
  mf_total_items : Z;
  mf_total_encoded_bytes : Z;
  mf_total_pages : Z;
  mf_manifest_digest : string;
  mf_raw : Value }.

Record SnapshotPageV3 := mkSnapshotPage {
  sp_section : SnapshotSectionV3;
  sp_items : list Value;
  sp_returned_items : Z;
  sp_returned_encoded_bytes : Z;
  sp_page_digest : string;
  sp_has_more : bool;
  sp_next_page_ref : option string }.

Record SyncSnapshotPageV3 := mkSyncSnapshotPage {
  sn_recovery_id : string;
  sn_account_id : string;
  sn_device_id : string;
  sn_device_auth_generation : string;
  sn_client_instance_id : string;
  sn_server_time : string;
  sn_snapshot_cursor : SyncCursorV2;
  sn_manifest : option SyncSnapshotManifestV3;
  sn_manifest_digest : string;
  sn_page : SnapshotPageV3 }.

Record SnapshotPlainMessageV2 := mkPlainMessage {
  pm_event : SyncEventV2;
  pm_message : Value }.

Record SnapshotSystemNotificationV2 := mkSystemNotification {
  sy_event : SyncEventV2;
  sy_message : Value }.

Record SyncSnapshotV3 := mkSnapshot {
  sv_account_id : string;
  sv_device_id : string;
  sv_server_time : string;
  sv_server_cutoff : string;
  sv_snapshot_cursor : SyncCursorV2;
  sv_read_states : list Value;
  sv_groups : list Value;
  sv_recent_plain_messages : list SnapshotPlainMessageV2;
  sv_unexpired_system_notifications : list SnapshotSystemNotificationV2;
  sv_older_history_excluded : bool }.

(** ** Digests *)

Definition u64_saturating_add (a b : Z) : Z := Z.min u64_max (a + b).
Definition str_len (s : string) : Z := Z.of_nat (String.length s).

Definition is_lower_hex (a : ascii) : bool :=
  is_ascii_digit a || ((97 <=? byte_of a) && (byte_of a <=? 102)).

Definition digest_field (m : Obj) (field : string) : ImResult string :=
  digest ← canonical_string_field m field;
  let message := (field +:+ " must use sha256 lowercase hex")%string in
  if negb (starts_with digest "sha256:") then invalid_page message
  else
    let hex := String.substring 7 (String.length digest - 7) digest in
    if negb (String.length hex =? 64)%nat || negb (forallb is_lower_hex (bytes hex))
    then invalid_page message else Ok digest.

(** [Map::remove] *)
Definition remove_key (k : string) (m : Obj) : Obj :=
  filter (λ e, e.1 ≠ k) m.

(** [accepted_at] of a message, or its [created_at]. *)
Definition message_timestamp (message : Value) : option string :=
  match vget message "accepted_at" with
  | Some v => as_str v
  | None => vget message "created_at" ≫= as_str
  end.

Definition validate_message_kind_matches_hydration (event : SyncEventV2) (message : Value)
    : ImResult unit :=
  kind ← or_invalid (vget (se_payload event) "message_kind" ≫= as_str)
    "message.created payload is missing message_kind";
  expected ←
    (if bool_decide (kind = "direct_plain"%string) then Ok "direct"%string
     else if bool_decide (kind = "group_plain"%string) then Ok "group"%string
     else invalid_page "snapshot message event is not an ordinary Direct/Group message");
  if negb (bool_decide (vget message "thread_kind" ≫= as_str = Some expected)) then
    invalid_page "snapshot message thread_kind conflicts with its event message_kind"
  else Ok ().

(** [system_notification::wire::is_trusted_delivery_marker] *)
Definition is_trusted_delivery_marker (value : Value) : bool :=
  bool_decide (vget value "projection_kind" ≫= as_str = Some "system_notification"%string).

Section codec.
Context `{WireCodec}.

Definition canonical_digest (value : Value) : ImResult string :=
  encoded ← or_invalid (to_canonical value) "snapshot value is not canonicalizable";
  Ok ("sha256:" +:+ sha256_hex encoded).

(** The encoded size of a list of items, saturating. *)
Definition items_bytes (message : string) (items : list Value) : ImResult Z :=
  try_fold (λ total item,
    encoded ← or_invalid (to_canonical item) message;
    Ok (u64_saturating_add total (str_len encoded))) 0 items.

(** ** Pages *)

Definition next_page_ref_field (page : Obj) : ImResult (option string) :=
  match assoc "next_page_ref" page with
  | Some VNull => Ok None
  | Some (VString value) => s ← required_string "next_page_ref" value; Ok (Some s)
  | _ => invalid_page "snapshot page next_page_ref has invalid shape"
  end.

Definition parse_snapshot_page_envelope_v3 (raw : Value) : ImResult SnapshotPageV3 :=
  page ← object raw "snapshot page";
  _ ← exact_fields page
    ["section"; "items"; "returned_items"; "returned_encoded_bytes"; "page_digest"; "has_more";
     "next_page_ref"]%string "snapshot page";
  section_name ← canonical_string_field page "section";
  section ← section_parse section_name;
  items ← or_invalid (assoc "items" page ≫= as_array) "snapshot page items must be an array";
  returned_items ← u64_field page "returned_items";
  if negb (returned_items =? Z.of_nat (length items))
     || (SNAPSHOT_PAGE_MAX_ITEMS <? returned_items) then
    invalid_page "snapshot page returned_items does not match its bounded item array"
  else
    actual_item_bytes ← items_bytes "snapshot page item is not canonicalizable" items;
    returned_encoded_bytes ← u64_field page "returned_encoded_bytes";
    if negb (returned_encoded_bytes =? actual_item_bytes)
       || (SNAPSHOT_PAGE_MAX_ENCODED_BYTES <? returned_encoded_bytes) then
      invalid_page "snapshot page returned_encoded_bytes does not match item JCS"
    else
      page_digest ← digest_field page "page_digest";
      digest ← canonical_digest (VArray items);
      if negb (bool_decide (page_digest = digest)) then
        invalid_page "snapshot page digest mismatch"
      else
        has_more ← bool_field page "has_more" "snapshot page has_more must be a boolean";
        next_page_ref ← next_page_ref_field page;
        if negb (Bool.eqb has_more (bool_decide (is_Some next_page_ref)))
           || (has_more && (length items =? 0)%nat) then
          invalid_page "snapshot page continuation fields are inconsistent"
        else Ok (mkSnapshotPage section items returned_items returned_encoded_bytes page_digest
                   has_more next_page_ref).

(** ** The manifest *)

Definition parse_section_summary (sections : Obj)
    (parsed : gmap SnapshotSectionV3 SnapshotSectionSummaryV3) (section : SnapshotSectionV3)
    : ImResult (gmap SnapshotSectionV3 SnapshotSectionSummaryV3) :=
  value ← or_invalid (assoc (section_as_str section) sections)
    "snapshot section summary is missing";
  summary ← object value "snapshot section summary";
  _ ← exact_fields summary ["item_count"; "digest"]%string "snapshot section summary";
  item_count ← u64_field summary "item_count";
  digest ← digest_field summary "digest";
  Ok (<[section := mkSectionSummary item_count digest]> parsed).

Definition parse_manifest_sections (manifest : Obj)
    : ImResult (gmap SnapshotSectionV3 SnapshotSectionSummaryV3) :=
  value ← or_invalid (assoc "sections" manifest) "snapshot manifest sections are required";
  sections ← object value "snapshot manifest sections";
  _ ← exact_fields sections (section_as_str <$> ORDERED) "snapshot manifest sections";
  try_fold (parse_section_summary sections) ∅ ORDERED.

Definition parse_recovery_budget (manifest : Obj) : ImResult SnapshotRecoveryBudgetV3 :=
  value ← or_invalid (assoc "recovery_budget" manifest) "recovery_budget is required";
  budget ← object value "snapshot recovery budget";
  _ ← exact_fields budget
    ["max_items"; "max_encoded_bytes"; "max_pages"; "required_state_items";
     "required_state_encoded_bytes"; "required_state_pages"]%string "snapshot recovery budget";
  max_items ← u64_field budget "max_items";
  if negb (max_items =? SNAPSHOT_PACKAGE_MAX_ITEMS) then
    invalid_page "snapshot recovery budget constants mismatch"
  else
    max_bytes ← u64_field budget "max_encoded_bytes";
    if negb (max_bytes =? SNAPSHOT_PACKAGE_MAX_ENCODED_BYTES) then
      invalid_page "snapshot recovery budget constants mismatch"
    else
      max_pages ← u64_field budget "max_pages";
      if negb (max_pages =? SNAPSHOT_PACKAGE_MAX_PAGES) then
        invalid_page "snapshot recovery budget constants mismatch"
      else
        items ← u64_field budget "required_state_items";
        bytes ← u64_field budget "required_state_encoded_bytes";
        pages ← u64_field budget "required_state_pages";
        Ok (mkBudget items bytes pages).

Definition oldest_seq_field (history : Obj) (returned_items : Z) : ImResult (option string) :=
  match assoc "oldest_included_event_seq" history with
  | Some VNull =>
      if returned_items =? 0 then Ok None
      else invalid_page "oldest_included_event_seq does not match returned history"
  | Some (VString value) =>
      if 0 <? returned_items then
        _ ← validate_decimal "oldest_included_event_seq" value; Ok (Some value)
      else invalid_page "oldest_included_event_seq does not match returned history"
  | _ => invalid_page "oldest_included_event_seq does not match returned history"
  end.

Definition truncation_reason_field (history : Obj) : ImResult (option string) :=
  match assoc "truncation_reason" history with
  | Some VNull => Ok None
  | Some (VString value) =>
      if bool_decide (value ∈ ["max_items"; "max_encoded_bytes"; "max_pages"]%string)
      then Ok (Some value) else invalid_page "snapshot truncation_reason is invalid"
  | _ => invalid_page "snapshot truncation_reason is invalid"
  end.

Definition parse_history_policy (manifest : Obj) : ImResult SnapshotHistoryPolicyV3 :=
  value ← or_invalid (assoc "history_policy" manifest) "history_policy is required";
  history ← object value "snapshot history policy";
  _ ← exact_fields history
    ["selection"; "returned_items"; "returned_encoded_bytes"; "returned_pages";
     "oldest_included_event_seq"; "excluded_older_messages"; "older_history_excluded";
     "truncation_reason"; "complete_within_policy"]%string "snapshot history policy";
  if negb (bool_decide (assoc "selection" history ≫= as_str
                          = Some "newest_complete_suffix"%string))
     || negb (bool_decide (assoc "complete_within_policy" history ≫= as_bool = Some true)) then
    invalid_page "snapshot history policy is not complete"
  else
    returned_items ← u64_field history "returned_items";
    oldest ← oldest_seq_field history returned_items;
    excluded ← u64_field history "excluded_older_messages";
    older_excluded ← bool_field history "older_history_excluded"
      "older_history_excluded must be a boolean";
    reason ← truncation_reason_field history;
    if negb (Bool.eqb older_excluded ((0 <? excluded) && bool_decide (is_Some reason)))
       || (negb older_excluded && (negb (excluded =? 0) || bool_decide (is_Some reason))) then
      invalid_page "snapshot bounded-history declaration is inconsistent"
    else
      returned_bytes ← u64_field history "returned_encoded_bytes";
      returned_pages ← u64_field history "returned_pages";
      Ok (mkHistory returned_items returned_bytes returned_pages oldest excluded older_excluded
            reason).

(** The message policy object of the manifest, its selection checked. *)
Definition parse_message_policy (manifest : Obj) : ImResult Obj :=
  value ← or_invalid (assoc "message_policy" manifest) "message_policy is required";
  policy ← object value "snapshot message policy";
  _ ← exact_fields policy ["server_cutoff"; "selection"]%string "snapshot message policy";
  if negb (bool_decide (assoc "selection" policy ≫= as_str
                          = Some "ordinary_plain_only"%string)) then
    invalid_page "snapshot message selection is invalid"
  else Ok policy.

Definition parse_system_policy (manifest : Obj) : ImResult Obj :=
  value ← or_invalid (assoc "system_notification_policy" manifest)
    "system_notification_policy is required";
  policy ← object value "snapshot system notification policy";
  _ ← exact_fields policy ["scope"; "complete_through_scan_seq"; "complete"]%string
        "snapshot system notification policy";
  if negb (bool_decide (assoc "scope" policy ≫= as_str = Some "exact_device_unexpired"%string))
     || negb (bool_decide (assoc "complete" policy ≫= as_bool = Some true)) then
    invalid_page "snapshot system notification policy is incomplete"
  else Ok policy.

Definition check_excluded_policy (manifest : Obj) : ImResult unit :=
  value ← or_invalid (assoc "excluded" manifest) "snapshot excluded policy is required";
  excluded ← object value "snapshot excluded policy";
  _ ← exact_fields excluded ["e2ee_messages"; "plain_messages_before_cutoff"]%string
        "snapshot excluded policy";
  if negb (bool_decide (assoc "e2ee_messages" excluded ≫= as_bool = Some true))
     || negb (bool_decide (assoc "plain_messages_before_cutoff" excluded ≫= as_bool
                             = Some true)) then
    invalid_page "snapshot excluded policy is invalid"
  else Ok ().

Definition item_count (sections : gmap SnapshotSectionV3 SnapshotSectionSummaryV3)
    (section : SnapshotSectionV3) : Z :=
  match sections !! section with Some s => ss_item_count s | None => 0 end.

(** [values().map(item_count).sum::<u64>()] *)
Definition total_item_count (sections : gmap SnapshotSectionV3 SnapshotSectionSummaryV3) : Z :=
  map_fold (λ _ s total, u64_wrapping_add total (ss_item_count s)) 0 sections.

Definition manifest_totals_inconsistent
    (sections : gmap SnapshotSectionV3 SnapshotSectionSummaryV3)
    (budget : SnapshotRecoveryBudgetV3) (history : SnapshotHistoryPolicyV3)
    (total_items total_encoded_bytes total_pages : Z) : bool :=
  (SNAPSHOT_PACKAGE_MAX_ITEMS <? total_items)
  || (SNAPSHOT_PACKAGE_MAX_ENCODED_BYTES <? total_encoded_bytes)
  || negb ((1 <=? total_pages) && (total_pages <=? SNAPSHOT_PACKAGE_MAX_PAGES))
  || negb (total_item_count sections =? total_items)
  || negb (item_count sections RecentPlainMessages =? hp_returned_items history)
  || negb (u64_saturating_add
             (u64_saturating_add (item_count sections ReadStates) (item_count sections Groups))
             (item_count sections UnexpiredSystemNotifications)
           =? bu_required_state_items budget).

Definition manifest_pages_inconsistent (budget : SnapshotRecoveryBudgetV3)
    (history : SnapshotHistoryPolicyV3) (total_items total_pages : Z) : bool :=
  let page_sum :=
    u64_saturating_add (bu_required_state_pages budget) (hp_returned_pages history) in
  negb (page_sum =? total_pages)
  && negb ((total_items =? 0) && (page_sum =? 0) && (total_pages =? 1)).

Definition parse_snapshot_manifest_v3 (raw : Value) : ImResult SyncSnapshotManifestV3 :=
  manifest ← object raw "snapshot manifest";
  _ ← exact_fields manifest
    ["manifest_schema"; "frozen_at"; "snapshot_cursor"; "sections"; "recovery_budget";
     "history_policy"; "message_policy"; "system_notification_policy"; "excluded";
     "total_items"; "total_encoded_bytes"; "total_pages"; "manifest_digest"]%string
    "snapshot manifest";
  if negb (bool_decide (assoc "manifest_schema" manifest ≫= as_u64 = Some 1)) then
    invalid_page "snapshot manifest_schema must equal 1"
  else
    sections ← parse_manifest_sections manifest;
    recovery_budget ← parse_recovery_budget manifest;
    history_policy ← parse_history_policy manifest;
    message_policy ← parse_message_policy manifest;
    system_policy ← parse_system_policy manifest;
    _ ← check_excluded_policy manifest;
    total_items ← u64_field manifest "total_items";
    total_encoded_bytes ← u64_field manifest "total_encoded_bytes";
    total_pages ← u64_field manifest "total_pages";
    if manifest_totals_inconsistent sections recovery_budget history_policy total_items
         total_encoded_bytes total_pages then
      invalid_page "snapshot manifest totals are inconsistent"
    else if manifest_pages_inconsistent recovery_budget history_policy total_items total_pages then
      invalid_page "snapshot manifest page totals are inconsistent"
    else
      cursor ← or_invalid (assoc "snapshot_cursor" manifest)
        "manifest snapshot_cursor is required";
      snapshot_cursor ← parse_cursor cursor;
      complete_through ← decimal_field system_policy "complete_through_scan_seq";
      if negb (bool_decide (complete_through = cu_scan_seq snapshot_cursor)) then
        invalid_page "notification policy does not match the snapshot anchor"
      else
        manifest_digest ← digest_field manifest "manifest_digest";
        digest ← canonical_digest (VObject (remove_key "manifest_digest" manifest));
        if negb (bool_decide (manifest_digest = digest)) then
          invalid_page "snapshot manifest digest mismatch"
        else
          frozen_at ← canonical_timestamp_field manifest "frozen_at";
          server_cutoff ← canonical_timestamp_field message_policy "server_cutoff";
          Ok (mkManifest frozen_at snapshot_cursor sections recovery_budget history_policy
                server_cutoff total_items total_encoded_bytes total_pages manifest_digest raw).

(** ** A snapshot response *)

Definition snapshot_page_fields (first_page : bool) : list string :=
  ["mode"; "recovery_id"; "account_id"; "device_id"; "device_auth_generation";
   "client_instance_id"; "server_time"; "snapshot_schema"; "snapshot_delivery";
   "snapshot_cursor"; "page"; if first_page then "manifest" else "manifest_digest"]%string.

Definition parse_snapshot_page_v3 (raw : Value) (first_page : bool)
    : ImResult SyncSnapshotPageV3 :=
  response ← object raw "Schema 3 sync.snapshot response";
  _ ← exact_fields response (snapshot_page_fields first_page) "Schema 3 sync.snapshot response";
  _ ← exact_mode response "compact_recovery";
  if negb (bool_decide (assoc "snapshot_schema" response ≫= as_u64 = Some 3))
     || negb (bool_decide (assoc "snapshot_delivery" response ≫= as_str
                             = Some "paged_v1"%string)) then
    invalid_page "sync.snapshot must use Schema 3 paged_v1 without fallback"
  else
    manifest ←
      (if first_page then
         value ← or_invalid (assoc "manifest" response) "first snapshot page requires manifest";
         manifest ← parse_snapshot_manifest_v3 value;
         Ok (Some manifest)
       else Ok None);
    manifest_digest ←
      match manifest with
      | Some manifest => Ok (mf_manifest_digest manifest)
      | None => digest_field response "manifest_digest"
      end;
    value ← or_invalid (assoc "page" response) "snapshot page is required";
    page ← parse_snapshot_page_envelope_v3 value;
    recovery_id ← canonical_string_field response "recovery_id";
    account_id ← canonical_string_field response "account_id";
    device_id ← canonical_string_field response "device_id";
    device_auth_generation ← positive_decimal_field response "device_auth_generation";
    client_instance_id ← canonical_string_field response "client_instance_id";
    server_time ← canonical_timestamp_field response "server_time";
    cursor ← or_invalid (assoc "snapshot_cursor" response) "snapshot_cursor is required";
    snapshot_cursor ← parse_cursor cursor;
    Ok (mkSyncSnapshotPage recovery_id account_id device_id device_auth_generation
          client_instance_id server_time snapshot_cursor manifest manifest_digest page).

(** ** The assembled package *)

Section finalize.
Variable manifest : SyncSnapshotManifestV3.
Variables account_id device_id server_time : string.
Variable sections : gmap SnapshotSectionV3 (list Value).
Variable page_counts : gmap SnapshotSectionV3 Z.

Definition section_items (section : SnapshotSectionV3) : list Value :=
  match sections !! section with Some items => items | None => [] end.
Definition pages (section : SnapshotSectionV3) : Z :=
  match page_counts !! section with Some n => n | None => 0 end.

Definition check_section (section : SnapshotSectionV3) : ImResult unit :=
  let items := section_items section in
  expected ← or_invalid (mf_sections manifest !! section) "snapshot manifest section is missing";
  if negb (ss_item_count expected =? Z.of_nat (length items)) then
    invalid_page "snapshot section count or digest does not match the manifest"
  else
    digest ← canonical_digest (VArray items);
    if negb (bool_decide (ss_digest expected = digest)) then
      invalid_page "snapshot section count or digest does not match the manifest"
    else Ok ().

Definition logical_package : Value :=
  VObject ((λ s, (section_as_str s, VArray (section_items s))) <$> ORDERED).

Definition item_bytes (section : SnapshotSectionV3) : ImResult Z :=
  items_bytes "snapshot item is not canonicalizable" (section_items section).

Definition check_package_bytes : ImResult unit :=
  encoded ← or_invalid (to_canonical logical_package) "snapshot package is not canonicalizable";
  if negb (str_len encoded =? mf_total_encoded_bytes manifest) then
    invalid_page "snapshot package byte count does not match the manifest"
  else
    read_bytes ← item_bytes ReadStates;
    group_bytes ← item_bytes Groups;
    notification_bytes ← item_bytes UnexpiredSystemNotifications;
    let required := u64_saturating_add (u64_saturating_add read_bytes group_bytes)
                      notification_bytes in
    if negb (required =? bu_required_state_encoded_bytes (mf_recovery_budget manifest)) then
      invalid_page "snapshot item byte totals do not match the manifest"
    else
      message_bytes ← item_bytes RecentPlainMessages;
      if negb (message_bytes =? hp_returned_encoded_bytes (mf_history_policy manifest)) then
        invalid_page "snapshot item byte totals do not match the manifest"
      else Ok ().

Definition check_package_pages : ImResult unit :=
  let actual_required_pages :=
    u64_saturating_add (u64_saturating_add (pages ReadStates) (pages Groups))
      (pages UnexpiredSystemNotifications) in
  let required := bu_required_state_pages (mf_recovery_budget manifest) in
  let empty_terminal_page :=
    (mf_total_items manifest =? 0) && (actual_required_pages =? 1) && (required =? 0) in
  if negb (pages RecentPlainMessages =? hp_returned_pages (mf_history_policy manifest))
     || (negb (actual_required_pages =? required) && negb empty_terminal_page)
     || negb (map_fold (λ _ n total, u64_wrapping_add total n) 0 page_counts
              =? mf_total_pages manifest) then
    invalid_page "snapshot section page counts do not match the manifest"
  else Ok ().

(** The identifiers and sequences taken by the items before. *)
Definition Anchored : Type := list string * list string.

(** The event of an item lies in the snapshot's stream, at most its cursor, and
    is not repeated. *)
Definition anchor_event (event_type : string) (recipient : option string) (message : string)
    (taken : Anchored) (event : SyncEventV2) : ImResult Anchored :=
  if negb (bool_decide (se_event_type event = event_type))
     || negb (bool_decide (se_account_id event = account_id))
     || negb (bool_decide (se_stream_epoch event
                             = cu_stream_epoch (mf_snapshot_cursor manifest)))
     || negb (bool_decide (se_recipient_device_id event = recipient)) then invalid_page message
  else
    order ← compare_decimal (se_event_seq event) (cu_scan_seq (mf_snapshot_cursor manifest));
    if bool_decide (order = Gt)
       || bool_decide (se_event_id event ∈ taken.1)
       || bool_decide (se_event_seq event ∈ taken.2) then invalid_page message
    else Ok (se_event_id event :: taken.1, se_event_seq event :: taken.2).

Definition plain_message_step (cutoff : Z) (s : Anchored * list SnapshotPlainMessageV2)
    (item : Value) : ImResult (Anchored * list SnapshotPlainMessageV2) :=
  m ← object item "snapshot plain message";
  _ ← exact_fields m ["event"; "message"]%string "snapshot plain message";
  event ← or_invalid (assoc "event" m) "snapshot message event is required";
  event ← parse_event event;
  taken ← anchor_event "message.created" None
    "snapshot message event is outside its unique account anchor" s.1 event;
  message ← object_field m "message" "snapshot message must be an object";
  text ← or_invalid (message_timestamp message) "snapshot message timestamp is required";
  accepted_at ← or_invalid (chrono_rfc3339 text) "snapshot message timestamp must be RFC3339";
  if accepted_at <? cutoff then
    invalid_page "snapshot message timestamp is before the server cutoff"
  else
    _ ← reject_e2ee_value message;
    _ ← validate_message_kind_matches_hydration event message;
    Ok (taken, s.2 ++ [mkPlainMessage event message]).

Definition notification_step (s : Anchored * list SnapshotSystemNotificationV2) (item : Value)
    : ImResult (Anchored * list SnapshotSystemNotificationV2) :=
  m ← object item "snapshot system notification";
  _ ← exact_fields m ["event"; "message"]%string "snapshot system notification";
  event ← or_invalid (assoc "event" m) "snapshot notification event is required";
  event ← parse_event event;
  taken ← anchor_event "system.notification" (Some device_id)
    "snapshot notification is outside its unique exact-device anchor" s.1 event;
  message ← object_field m "message" "snapshot notification must be an object";
  fields ← object message "snapshot notification";
  _ ← exact_fields fields ["projection_kind"; "meta"; "auth"; "body"]%string
        "snapshot notification message";
  if negb (is_trusted_delivery_marker message) then
    invalid_page "snapshot notification must use its trusted projection marker"
  else Ok (taken, s.2 ++ [mkSystemNotification event message]).

Definition check_read_state (value : Value) : ImResult unit :=
  state ← object value "snapshot read state";
  _ ← exact_fields state
    ["thread_kind"; "thread_key"; "read_up_to_thread_seq"; "read_up_to_message_id";
     "state_version"; "updated_by_device_id"; "updated_at"]%string "snapshot read state";
  _ ← canonical_timestamp_field state "updated_at";
  _ ← optional_canonical_string_field state "read_up_to_message_id";
  _ ← optional_canonical_string_field state "updated_by_device_id";
  reject_e2ee_value value.

Definition check_group_state (value : Value) : ImResult unit :=
  state ← object value "snapshot group state";
  _ ← exact_fields state
    ["group_did"; "host_service_did"; "creator_did"; "group_state_version"; "group_event_seq";
     "required_security_profile"; "group_profile"; "member_role"; "membership_status";
     "member_count"; "updated_at"]%string "snapshot group state";
  _ ← canonical_timestamp_field state "updated_at";
  reject_e2ee_value value.

Definition check_oldest (messages : list SnapshotPlainMessageV2) : ImResult unit :=
  match hp_oldest_included_event_seq (mf_history_policy manifest) with
  | Some oldest =>
      if negb (bool_decide (se_event_seq ∘ pm_event <$> head messages = Some oldest)) then
        invalid_page "snapshot oldest included event does not match history"
      else Ok ()
  | None => Ok ()
  end.

Definition finalize_snapshot_package_v3 : ImResult SyncSnapshotV3 :=
  _ ← try_each check_section ORDERED;
  _ ← check_package_bytes;
  _ ← check_package_pages;
  cutoff ← or_invalid (chrono_rfc3339 (mf_server_cutoff manifest))
    "snapshot server cutoff is invalid";
  messages ← try_fold (plain_message_step cutoff) (([], []), [])
    (section_items RecentPlainMessages);
  _ ← check_oldest messages.2;
  notifications ← try_fold notification_step (messages.1, [])
    (section_items UnexpiredSystemNotifications);
  _ ← try_each check_read_state (section_items ReadStates);
  _ ← try_each check_group_state (section_items Groups);
  Ok (mkSnapshot account_id device_id server_time (mf_server_cutoff manifest)
        (mf_snapshot_cursor manifest) (section_items ReadStates) (section_items Groups)
        messages.2 notifications.2 (hp_older_history_excluded (mf_history_policy manifest))).
End finalize.
End codec.
