(* ===== verification/WireProps.v ===== *)
(** * What the wire parsers guarantee

    Reading lemmas: each field reader succeeds exactly on its shape, so a parser
    is characterised by the fields it reads. From these: the events of a page and
    their round trip, the order of lane pages, and the completeness of a
    hydration batch. *)

From stdpp Require Import gmap.
From S2P Require Import Prelude RustStr ImError Decimal Dto Store SyncStore Inbox Lanes Wire.
Local Open Scope Z_scope.

(** ** Guards *)

Lemma or_invalid_Ok {A} (o : option A) msg a : or_invalid o msg = Ok a ↔ o = Some a.
Proof. destruct o; simpl; naive_solver. Qed.

Lemma map_invalid_Ok {A} (r : ImResult A) msg a : map_invalid r msg = Ok a ↔ r = Ok a.
Proof. destruct r; simpl; naive_solver. Qed.

Lemma guard_Ok {A} (b : bool) msg (r : ImResult A) a :
  (if b then invalid_page msg else r) = Ok a ↔ b = false ∧ r = Ok a.
Proof. destruct b; simpl; naive_solver. Qed.

Lemma unless_Ok {A} (b : bool) msg (r : ImResult A) a :
  (if b then r else invalid_page msg) = Ok a ↔ b = true ∧ r = Ok a.
Proof. destruct b; simpl; naive_solver. Qed.

Lemma unit_bind_Ok {A} (m : ImResult unit) (r : ImResult A) a :
  (_ ← m; r) = Ok a ↔ m = Ok () ∧ r = Ok a.
Proof. destruct m as [[]|]; simpl; naive_solver. Qed.

(** ** Fields *)

(** Text as the protocol admits it: non-empty, without surrounding blanks. *)
Definition canonical_text (s : string) : Prop := trimmed s ∧ s ≠ ""%string.

Lemma required_string_Ok f v s : required_string f v = Ok s ↔ s = v ∧ canonical_text v.
Proof.
  unfold required_string, canonical_text, trimmed, is_empty.
  destruct (decide (trim v = v)) as [E|E].
  - rewrite E. repeat case_bool_decide; simpl; naive_solver.
  - rewrite (bool_decide_eq_false_2 (trim v = v)), orb_true_r by done. naive_solver.
Qed.

Lemma canonical_canonical_text s : canonical s → canonical_text s.
Proof.
  intros Hs. split; [by apply canonical_trimmed|]. intros ->.
  apply canonical_nonempty in Hs. simpl in Hs. lia.
Qed.

Definition positive (s : string) : Prop := canonical s ∧ s ≠ "0"%string.

Lemma positive_canonical_text s : positive s → canonical_text s.
Proof. intros [? _]. by apply canonical_canonical_text. Qed.

Section readers.
Variable m : Obj.

Lemma string_text f s : assoc f m ≫= as_str = Some s ↔ assoc f m = Some (VString s).
Proof. destruct (assoc f m) as [[]|]; simpl; naive_solver. Qed.
Lemma array_items f l : assoc f m ≫= as_array = Some l ↔ assoc f m = Some (VArray l).
Proof. destruct (assoc f m) as [[]|]; simpl; naive_solver. Qed.
Lemma bool_value f b : assoc f m ≫= as_bool = Some b ↔ assoc f m = Some (VBool b).
Proof. destruct (assoc f m) as [[]|]; simpl; naive_solver. Qed.
Lemma u64_value f n : assoc f m ≫= as_u64 = Some n ↔ assoc f m = Some (VNumber (PosInt n)).
Proof. destruct (assoc f m) as [[| |[]| | |]|]; simpl; naive_solver. Qed.

Lemma canonical_string_field_Ok f s :
  canonical_string_field m f = Ok s ↔ assoc f m = Some (VString s) ∧ canonical_text s.
Proof.
  unfold canonical_string_field. rewrite bind_Ok. setoid_rewrite or_invalid_Ok.
  setoid_rewrite string_text. setoid_rewrite required_string_Ok. naive_solver.
Qed.

Lemma decimal_field_Ok f s :
  decimal_field m f = Ok s ↔ assoc f m = Some (VString s) ∧ canonical s.
Proof.
  unfold decimal_field. rewrite bind_Ok. setoid_rewrite unit_bind_Ok.
  setoid_rewrite map_invalid_Ok. setoid_rewrite canonical_string_field_Ok.
  setoid_rewrite validate_decimal_Ok. split; [naive_solver|].
  intros [? Hc]. exists s. auto using canonical_canonical_text.
Qed.

Lemma positive_decimal_field_Ok f s :
  positive_decimal_field m f = Ok s ↔ assoc f m = Some (VString s) ∧ positive s.
Proof.
  unfold positive_decimal_field. rewrite bind_Ok. setoid_rewrite unit_bind_Ok.
  setoid_rewrite map_invalid_Ok. setoid_rewrite canonical_string_field_Ok.
  setoid_rewrite validate_positive_decimal_Ok. split; [unfold positive; naive_solver|].
  intros [? Hc]. exists s. auto using positive_canonical_text.
Qed.

(** An optional field: absent or null, or text of the given shape. *)
Definition optional_text (P : string → Prop) (f : string) (o : option string) : Prop :=
  match o with
  | None => assoc f m = None ∨ assoc f m = Some VNull
  | Some s => assoc f m = Some (VString s) ∧ P s
  end.

Lemma optional_canonical_string_field_Ok f o :
  optional_canonical_string_field m f = Ok o ↔ optional_text canonical_text f o.
Proof.
  unfold optional_canonical_string_field, optional_text.
  destruct (assoc f m) as [[| | |s| |]|] eqn:E; try (destruct o; naive_solver).
  rewrite bind_Ok. setoid_rewrite required_string_Ok. destruct o; naive_solver.
Qed.

Lemma optional_decimal_field_Ok f o :
  optional_decimal_field m f = Ok o ↔ optional_text canonical f o.
Proof.
  unfold optional_decimal_field, optional_text.
  destruct (assoc f m) as [[| | |s| |]|] eqn:E; try (destruct o; naive_solver).
  rewrite unit_bind_Ok, map_invalid_Ok, validate_decimal_Ok. destruct o; naive_solver.
Qed.

Lemma bool_field_Ok f msg b : bool_field m f msg = Ok b ↔ assoc f m = Some (VBool b).
Proof. unfold bool_field. by rewrite or_invalid_Ok, bool_value. Qed.

Lemma object_field_Ok f msg v :
  object_field m f msg = Ok v ↔ assoc f m = Some v ∧ is_object v = true.
Proof.
  unfold object_field. destruct (assoc f m) as [w|]; [|naive_solver].
  rewrite unless_Ok. naive_solver.
Qed.

Lemma u64_field_Ok f n : u64_field m f = Ok n ↔ assoc f m = Some (VNumber (PosInt n)).
Proof. unfold u64_field. by rewrite or_invalid_Ok, u64_value. Qed.

Lemma schema_version_field_Ok n :
  schema_version_field m = Ok n ↔
  assoc "schema_version" m = Some (VNumber (PosInt n)) ∧ n ≤ u32_max ∧ n ≠ 0.
Proof.
  unfold schema_version_field. rewrite bind_Ok. setoid_rewrite or_invalid_Ok.
  setoid_rewrite u64_value. setoid_rewrite guard_Ok. setoid_rewrite guard_Ok.
  split.
  - intros (n' & Ha & Hb & Hc & [= <-]). bool_hyps. done.
  - intros (Ha & Hb & Hc). exists n. split_and!; [done| |by apply Z.eqb_neq|done].
    apply negb_false_iff. by apply Z.leb_le.
Qed.

Lemma source_field_Ok o :
  source_field m = Ok o ↔
  match o with
  | None => assoc "source" m = None ∨ assoc "source" m = Some VNull
  | Some v => assoc "source" m = Some v ∧ is_object v = true
  end.
Proof.
  unfold source_field. destruct (assoc "source" m) as [[]|]; simpl; destruct o; naive_solver.
Qed.
End readers.

Lemma object_Ok v label m : object v label = Ok m ↔ v = VObject m.
Proof. unfold object. rewrite or_invalid_Ok. destruct v; simpl; naive_solver. Qed.

Lemma exact_fields_Ok m expected label :
  exact_fields m expected label = Ok () ↔
  length m = length expected ∧ ∀ f, f ∈ expected → is_Some (assoc f m).
Proof.
  unfold exact_fields. rewrite guard_Ok, orb_false_iff, negb_false_iff, Nat.eqb_eq.
  rewrite <-not_true_iff_false, existsb_exists. unfold contains_key.
  setoid_rewrite negb_true_iff. setoid_rewrite bool_decide_eq_false.
  setoid_rewrite <-list_elem_of_In. split.
  - intros [[? Hn] _]. split; [done|]. intros f Hf.
    destruct (assoc f m) eqn:E; [done|]. exfalso. apply Hn. exists f. rewrite E. auto.
  - intros [? Hf]. split; [|done]. split; [done|]. intros (f & Hin & Hn). auto.
Qed.

Lemma collect_Ok {A B} (f : A → ImResult B) l ys :
  collect f l = Ok ys ↔ Forall2 (λ x y, f x = Ok y) l ys.
Proof.
  revert ys. induction l as [|x l IH]; intros ys; simpl.
  - split; [intros [= <-]; constructor|by inversion 1].
  - rewrite bind_Ok. setoid_rewrite bind_Ok. setoid_rewrite IH. split.
    + intros (y & Hy & ys' & Hys & [= <-]). by constructor.
    + inversion 1; subst. eauto.
Qed.

(** ** Cursors *)

Record cursor_wf (c : SyncCursorV2) : Prop := {
  cw_epoch : positive (cu_stream_epoch c);
  cw_scan : canonical (cu_scan_seq c) }.

Lemma validate_cursor_Ok c : validate_cursor c = Ok () ↔ cursor_wf c.
Proof.
  unfold validate_cursor. rewrite unit_bind_Ok, validate_positive_decimal_Ok, validate_decimal_Ok.
  split; [intros [??]; by split|intros [??]; by split].
Qed.

Lemma parse_cursor_Ok v c :
  parse_cursor v = Ok c ↔
  ∃ m, v = VObject m ∧ assoc "stream_epoch" m = Some (VString (cu_stream_epoch c)) ∧
    assoc "scan_seq" m = Some (VString (cu_scan_seq c)) ∧ cursor_wf c.
Proof.
  unfold parse_cursor. split.
  - intros (m & ->%object_Ok & Hp)%bind_Ok. apply bind_Ok in Hp as (e & [? ?]%positive_decimal_field_Ok & Hp).
    apply bind_Ok in Hp as (q & [? ?]%decimal_field_Ok & Hp). cbv zeta in Hp.
    apply unit_bind_Ok in Hp as [Hw%validate_cursor_Ok [= <-]]. eauto.
  - intros (m & -> & ? & ? & Hw). pose proof Hw as [??]. cbn [object as_object or_invalid].
    apply bind_Ok. exists m. split; [done|].
    rewrite (proj2 (positive_decimal_field_Ok m "stream_epoch" (cu_stream_epoch c))) by done.
    cbn [mbind result_bind]. rewrite (proj2 (decimal_field_Ok m "scan_seq" (cu_scan_seq c))) by done.
    cbn [mbind result_bind]. cbv zeta.
    replace (mkCursor (cu_stream_epoch c) (cu_scan_seq c)) with c by by destruct c.
    apply unit_bind_Ok. split; [by apply validate_cursor_Ok|done].
Qed.

(** A cursor that is sent is the cursor that is read back. *)
Lemma cursor_roundtrip c : cursor_wf c → parse_cursor (cursor_value c) = Ok c.
Proof. intros Hw. apply parse_cursor_Ok. eexists. split_and!; done. Qed.

(** ** Ordinary events *)

Definition opt_all {A} (P : A → Prop) (o : option A) : Prop :=
  match o with Some a => P a | None => True end.

Record event_wf (e : SyncEventV2) : Prop := {
  ew_event_id : canonical_text (se_event_id e);
  ew_stream_epoch : positive (se_stream_epoch e);
  ew_event_seq : positive (se_event_seq e);
  ew_event_type : canonical_text (se_event_type e);
  ew_schema : se_schema_version e ≤ u32_max ∧ se_schema_version e ≠ 0;
  ew_account : canonical_text (se_account_id e);
  ew_recipient : opt_all canonical_text (se_recipient_device_id e);
  ew_origin_did : opt_all canonical_text (se_origin_did e);
  ew_origin_device : opt_all canonical_text (se_origin_device_id e);
  ew_aggregate_kind : canonical_text (se_aggregate_kind e);
  ew_aggregate_id : canonical_text (se_aggregate_id e);
  ew_state_version : opt_all canonical (se_state_version e);
  ew_thread_key : opt_all canonical_text (se_thread_key e);
  ew_occurred_at : canonical_text (se_occurred_at e);
  ew_payload : is_object (se_payload e) = true;
  ew_source : opt_all (λ v, is_object v = true) (se_source e) }.

(** The object [m] holds the fields of [e]. *)
Definition nullable (m : Obj) (f : string) (o : option Value) : Prop :=
  match o with
  | Some v => assoc f m = Some v
  | None => assoc f m = None ∨ assoc f m = Some VNull
  end.
Record event_fields (m : Obj) (e : SyncEventV2) : Prop := {
  ef_event_id : assoc "event_id" m = Some (VString (se_event_id e));
  ef_stream_epoch : assoc "stream_epoch" m = Some (VString (se_stream_epoch e));
  ef_event_seq : assoc "event_seq" m = Some (VString (se_event_seq e));
  ef_event_type : assoc "event_type" m = Some (VString (se_event_type e));
  ef_schema : assoc "schema_version" m = Some (VNumber (PosInt (se_schema_version e)));
  ef_ignore : assoc "ignore_safe" m = Some (VBool (se_ignore_safe e));
  ef_account : assoc "account_id" m = Some (VString (se_account_id e));
  ef_recipient : nullable m "recipient_device_id" (VString <$> se_recipient_device_id e);
  ef_origin_did : nullable m "origin_did" (VString <$> se_origin_did e);
  ef_origin_device : nullable m "origin_device_id" (VString <$> se_origin_device_id e);
  ef_aggregate_kind : assoc "aggregate_kind" m = Some (VString (se_aggregate_kind e));
  ef_aggregate_id : assoc "aggregate_id" m = Some (VString (se_aggregate_id e));
  ef_state_version : nullable m "state_version" (VString <$> se_state_version e);
  ef_thread_key : nullable m "thread_key" (VString <$> se_thread_key e);
  ef_occurred_at : assoc "occurred_at" m = Some (VString (se_occurred_at e));
  ef_payload : assoc "payload" m = Some (se_payload e);
  ef_source : nullable m "source" (se_source e) }.

Lemma optional_text_nullable m P f o :
  optional_text m P f o ↔ nullable m f (VString <$> o) ∧ opt_all P o.
Proof. unfold optional_text. destruct o; simpl; naive_solver. Qed.

Lemma source_field_nullable m o :
  source_field m = Ok o ↔
  nullable m "source" o ∧ opt_all (λ v, is_object v = true) o.
Proof. rewrite source_field_Ok. destruct o; simpl; naive_solver. Qed.

(** Turning every successful field reader into what it read, and back. *)
Ltac read_fields :=
  repeat match goal with
  | H : object_field _ _ _ = Ok _ |- _ => apply object_field_Ok in H as [??]
  | H : schema_version_field _ = Ok _ |- _ => apply schema_version_field_Ok in H as (?&?&?)
  | H : optional_decimal_field _ _ = Ok _ |- _ =>
      apply optional_decimal_field_Ok, optional_text_nullable in H as [??]
  | H : optional_canonical_string_field _ _ = Ok _ |- _ =>
      apply optional_canonical_string_field_Ok, optional_text_nullable in H as [??]
  | H : canonical_string_field _ _ = Ok _ |- _ => apply canonical_string_field_Ok in H as [??]
  | H : positive_decimal_field _ _ = Ok _ |- _ => apply positive_decimal_field_Ok in H as [??]
  | H : decimal_field _ _ = Ok _ |- _ => apply decimal_field_Ok in H as [??]
  | H : bool_field _ _ _ = Ok _ |- _ => apply bool_field_Ok in H
  | H : u64_field _ _ = Ok _ |- _ => apply u64_field_Ok in H
  end.
Ltac read_back :=
  first
  [ apply canonical_string_field_Ok; split; eassumption
  | apply positive_decimal_field_Ok; split; eassumption
  | apply decimal_field_Ok; split; eassumption
  | apply object_field_Ok; split; eassumption
  | apply bool_field_Ok; eassumption
  | apply schema_version_field_Ok; split; eassumption
  | apply optional_canonical_string_field_Ok, optional_text_nullable; split; eassumption
  | apply optional_decimal_field_Ok, optional_text_nullable; split; eassumption ].

(** [parse_event] accepts exactly the objects that hold a well-formed event. *)
Lemma parse_event_Ok v e :
  parse_event v = Ok e ↔ ∃ m, v = VObject m ∧ event_fields m e ∧ event_wf e.
Proof.
  unfold parse_event. rewrite bind_Ok. setoid_rewrite object_Ok. split.
  - intros (m & -> & Hp). exists m. split; [done|].
    repeat (apply bind_Ok in Hp as (? & ? & Hp)). injection Hp as <-.
    read_fields.
    match goal with H : source_field _ = Ok _ |- _ => apply source_field_nullable in H as [??] end.
    by split; split.
  - intros (m & -> & [] & []). exists m. split; [done|].
    repeat (apply bind_Ok; eexists; split;
      [first [read_back | apply source_field_nullable; split; eassumption]|]).
    by destruct e.
Qed.

Lemma event_to_value_fields e :
  opt_all (λ v, is_object v = true) (se_source e) →
  ∃ m, event_to_value e = VObject m ∧ event_fields m e.
Proof.
  intros Hs. eexists. split; [reflexivity|].
  split; try reflexivity; unfold nullable.
  - destruct (se_recipient_device_id e); [reflexivity|right; reflexivity].
  - destruct (se_origin_did e); [reflexivity|right; reflexivity].
  - destruct (se_origin_device_id e); [reflexivity|right; reflexivity].
  - destruct (se_state_version e); [reflexivity|right; reflexivity].
  - destruct (se_thread_key e); [reflexivity|right; reflexivity].
  - destruct (se_source e); [reflexivity|right; reflexivity].
Qed.

Lemma event_wf_schema e : event_wf e → (se_schema_version e <=? u32_max) = true.
Proof. intros []. naive_solver lia. Qed.

Lemma event_roundtrip_inline e : event_wf e → parse_inline_event (event_to_value e) = Ok e.
Proof.
  intros Hw. destruct (event_to_value_fields e (ew_source _ Hw)) as (m & E & Hf).
  unfold parse_inline_event.
  assert (object (event_to_value e) "inline sync event" = Ok m) as -> by by apply object_Ok.
  cbn [mbind result_bind]. apply unit_bind_Ok. split.
  - unfold event_to_value in E. injection E as <-. vm_compute. reflexivity.
  - apply parse_event_Ok. by exists m.
Qed.

Lemma de_opt_str_nullable m i f o :
  nullable m f (VString <$> o) → de_opt_str (VObject m) i f = Some o.
Proof.
  unfold de_opt_str, de_field. destruct o; simpl; [by intros ->|by intros [-> | ->]].
Qed.

Lemma de_str_field m i f s :
  assoc f m = Some (VString s) → de_str (VObject m) i f = Some s.
Proof. unfold de_str, de_field. by intros ->. Qed.

(** What the queue decodes from an event's fields is that event. *)
Lemma sync_event_from_fields m e :
  event_fields m e → event_wf e → sync_event_from_value (VObject m) = Some e.
Proof.
  intros [] Hw. unfold sync_event_from_value.
  assert (∀ i, de_u32 (VObject m) i "schema_version" = Some (se_schema_version e)) as Hu.
  { intros i. unfold de_u32, de_field. rewrite ef_schema0. simpl. by rewrite event_wf_schema. }
  repeat (apply bind_Some; eexists; split;
    [first [apply de_str_field; eassumption | apply de_opt_str_nullable; eassumption
           | apply Hu
           | unfold de_field; rewrite ?ef_ignore0, ?ef_payload0; reflexivity]|]).
  f_equal. unfold de_field. destruct Hw as [].
  destruct e as [? ? ? ? ? ? ? ? ? ? ? ? ? ? ? ? [src|]]; simpl in *.
  - rewrite ef_source0. by destruct src.
  - by destruct ef_source0 as [-> | ->].
Qed.

Lemma event_roundtrip_value e :
  event_wf e → sync_event_from_value (event_to_value e) = Some e.
Proof.
  intros Hw. destruct (event_to_value_fields e (ew_source _ Hw)) as (m & -> & Hf).
  by apply sync_event_from_fields.
Qed.

(** ** Lane pages *)

#[export] Instance gen_lt_trans : Transitive gen_lt.
Proof. unfold gen_lt. intros a b c. lia. Qed.

(** The envelope of a lane event is bound to its lane's profiles. *)
Definition envelope_of (profile security : string) (v : Value) : Prop :=
  pointer v ["meta"; "profile"]%string = Some (VString profile) ∧
  pointer v ["meta"; "security_profile"]%string = Some (VString security) ∧
  ∃ body, vget v "body" = Some (VObject body).

Lemma validate_lane_envelope_Ok v profile security :
  validate_lane_envelope_v3 v profile security = Ok () → envelope_of profile security v.
Proof.
  unfold validate_lane_envelope_v3. intros (env & ->%object_Ok & Hp)%bind_Ok.
  apply bind_Ok in Hp as (meta & Hm%or_invalid_Ok & Hp). apply guard_Ok in Hp as [Hb _].
  bool_hyps. unfold envelope_of, pointer, vget. simpl.
  destruct (assoc "meta" env) as [[]|] eqn:E; simpl in Hm; simplify_eq. simpl.
  repeat match goal with H : _ ≫= as_str = Some _ |- _ => apply string_text in H end.
  split_and!; [by simplify_option_eq..|].
  destruct (assoc "body" env) as [[]|]; simpl in *; naive_solver.
Qed.

Section lanes.
Context `{WireCodec}.

Definition lane_event_wf (lane : SyncLaneV3) (e : SyncLaneEventV3) : Prop :=
  match lane, e with
  | P5Device, P5Delivery id seq envelope =>
      canonical_text id ∧ positive seq ∧
      envelope_of "anp.direct.e2ee.v2" "direct-e2ee" envelope
  | P6Group, P6Delivery id seq group group_seq envelope =>
      canonical_text id ∧ positive seq ∧ canonical_text group ∧ positive group_seq ∧
      envelope_of "anp.group.e2ee.v2" "group-e2ee" envelope
  | P6Group, P6ControlNotice id seq group notice =>
      canonical_text id ∧ positive seq ∧ canonical_text group ∧
      envelope_of "anp.group.e2ee.v2" group_transport_profile notice
  | _, _ => False
  end.

Lemma lane_event_wf_seq lane e : lane_event_wf lane e → positive (lane_event_seq e).
Proof. destruct lane, e; simpl; naive_solver. Qed.

Ltac lane_fields :=
  repeat match goal with
  | H : mbind _ _ = Ok _ |- _ => apply bind_Ok in H as (? & ? & H)
  | H : validate_lane_envelope_v3 _ _ _ = Ok ?u |- _ =>
      destruct u; apply validate_lane_envelope_Ok in H
  end; read_fields.

Lemma parse_lane_event_wf lane v e : parse_lane_event_v3 lane v = Ok e → lane_event_wf lane e.
Proof.
  unfold parse_lane_event_v3. intros (m & _ & Hp)%bind_Ok.
  apply bind_Ok in Hp as (ty & _ & Hp). destruct lane.
  - apply unless_Ok in Hp as [_ Hp]. lane_fields. injection Hp as <-. done.
  - destruct (bool_decide (ty = _)).
    + lane_fields. injection Hp as <-. done.
    + apply unless_Ok in Hp as [_ Hp]. lane_fields. injection Hp as <-. done.
Qed.

Lemma lane_order_step_Ok next prev e r :
  lane_order_step next prev e = Ok r ↔
  canonical (lane_event_seq e) ∧ canonical (cu_scan_seq next) ∧
  gen_le (lane_event_seq e) (cu_scan_seq next) ∧
  opt_all (λ p, canonical p ∧ gen_lt p (lane_event_seq e)) prev ∧ r = Some (lane_event_seq e).
Proof.
  unfold lane_order_step. cbv zeta. rewrite guard_Ok, bind_Ok. setoid_rewrite guard_Ok.
  assert (match prev with
    | Some p => match compare_decimal p (lane_event_seq e) with
                | Ok order => negb (bool_decide (order = Lt)) | Err _ => true end
    | None => false end = false ↔
    opt_all (λ p, canonical p ∧ canonical (lane_event_seq e) ∧ gen_lt p (lane_event_seq e)) prev)
    as ->.
  { destruct prev as [p|]; simpl; [|done].
    destruct (compare_decimal p (lane_event_seq e)) as [o|] eqn:E.
    - apply compare_decimal_Ok_inv in E as (? & ? & ->). unfold gen_lt.
      rewrite negb_false_iff, bool_decide_eq_true, Z.compare_lt_iff. naive_solver.
    - split; [done|]. intros (? & ? & _). rewrite compare_decimal_value in E by done. done. }
  split.
  - intros (Hp & o & Ho & Hg & [= <-]). apply compare_decimal_Ok_inv in Ho as (? & ? & ->).
    bool_hyps. split_and!; [done..| | |done].
    + unfold gen_le. by apply Z.compare_le_iff.
    + destruct prev; simpl in *; naive_solver.
  - intros (? & ? & Hle & Hp & ->). split; [destruct prev; simpl in *; naive_solver|].
    eexists. split; [by apply compare_decimal_value|]. split; [|done].
    apply bool_decide_eq_false. by apply Z.compare_le_iff.
Qed.

Lemma lane_order_fold_Ok next events prev r :
  try_fold (lane_order_step next) prev events = Ok r →
  Forall (λ e, canonical (lane_event_seq e) ∧ gen_le (lane_event_seq e) (cu_scan_seq next)) events ∧
  StronglySorted gen_lt (lane_event_seq <$> events) ∧
  opt_all (λ p, Forall (gen_lt p) (lane_event_seq <$> events)) prev.
Proof.
  revert prev. induction events as [|e events IH]; intros prev Hf.
  { split_and!; [constructor|constructor|destruct prev; simpl; constructor]. }
  simpl in Hf. apply bind_Ok in Hf as (p & (Hc & _ & Hle & Hp & ->)%lane_order_step_Ok & Hf).
  apply IH in Hf as (Ha & Hs & Hb). simpl in Hb. split_and!.
  - by constructor.
  - simpl. by constructor.
  - destruct prev as [p|]; simpl in *; [|done]. destruct Hp as [_ Hp]. constructor; [done|].
    eapply Forall_impl; [exact Hb|]. intros x. by apply gen_lt_trans.
Qed.

Definition section_wf (lane : SyncLaneV3) (s : SyncLaneDeltaSectionV3) : Prop :=
  match s with
  | Page events next _ =>
      cursor_wf next ∧ Forall (lane_event_wf lane) events ∧
      StronglySorted gen_lt (lane_event_seq <$> events) ∧
      Forall (λ e, gen_le (lane_event_seq e) (cu_scan_seq next)) events
  | LaneError e => canonical_text (le_anp_code e) ∧ canonical_text (le_message e)
  | TransportInvalid => True
  end.

Lemma parse_section_wf lane v s : parse_lane_delta_section_v3 lane v = Ok s → section_wf lane s.
Proof.
  unfold parse_lane_delta_section_v3. intros (m & _ & Hp)%bind_Ok.
  destruct (assoc "error" m) as [err|].
  - repeat (apply bind_Ok in Hp as (? & ? & Hp)). read_fields. injection Hp as <-. done.
  - apply bind_Ok in Hp as (? & _ & Hp). apply bind_Ok in Hp as (values & _ & Hp).
    apply bind_Ok in Hp as (events & He%collect_Ok & Hp).
    apply bind_Ok in Hp as (cur & _ & Hp).
    apply bind_Ok in Hp as (next & (? & _ & _ & _ & Hc)%parse_cursor_Ok & Hp).
    apply bind_Ok in Hp as (? & (Ha & Hs & _)%lane_order_fold_Ok & Hp).
    apply bind_Ok in Hp as (more & _ & [= <-]). simpl. split_and!; [done| |done|].
    + clear -He. induction He; constructor; [by eapply parse_lane_event_wf|done].
    + eapply Forall_impl; [exact Ha|]. by intros ? [].
Qed.

Lemma parse_sections_wf v lanes inv lane s :
  parse_lane_delta_sections_v3 v = (lanes, inv) → lanes !! lane = Some s → section_wf lane s.
Proof.
  unfold parse_lane_delta_sections_v3. destruct v as [v|]; [|by intros [= <- <-]].
  destruct (as_object v) as [m|]; [|by intros [= <- <-]].
  intros [= <- _]. simpl.
  assert (∀ lane v, section_wf lane (unwrap_or (parse_lane_delta_section_v3 lane v) TransportInvalid))
    as Hw.
  { intros l w. destruct (parse_lane_delta_section_v3 l w) eqn:E; simpl; [|done].
    by eapply parse_section_wf. }
  destruct (assoc "p6_group" m) as [v6|], (assoc "p5_device" m) as [v5|]; simpl;
    rewrite ?lookup_insert_Some, ?lookup_empty; naive_solver.
Qed.
End lanes.

(** ** Delta pages *)

Lemma unique_events_Ok events ids seqs r :
  try_fold unique_event_step (ids, seqs) events = Ok r →
  NoDup (se_event_id <$> events) ∧ NoDup (se_event_seq <$> events) ∧
  (∀ e, e ∈ events → se_event_id e ∉ ids ∧ se_event_seq e ∉ seqs).
Proof.
  revert ids seqs. induction events as [|e events IH]; intros ids seqs Hf; simpl in *.
  { split_and!; [constructor|constructor|]. intros ? []%elem_of_nil. }
  apply bind_Ok in Hf as (s & Hs & Hf). unfold unique_event_step in Hs. simpl in Hs.
  apply guard_Ok in Hs as [Hi Hs]. apply guard_Ok in Hs as [Hq [= <-]]. bool_hyps.
  apply IH in Hf as (Hni & Hns & Hnew). split_and!.
  - constructor; [|done]. intros (e' & E & [Hn _]%Hnew)%list_elem_of_fmap. apply Hn.
    rewrite <-E. by left.
  - constructor; [|done]. intros (e' & E & [_ Hn]%Hnew)%list_elem_of_fmap. apply Hn.
    rewrite <-E. by left.
  - intros e' [->|[H1 H2]%Hnew]%elem_of_cons; [done|].
    rewrite elem_of_cons in H1, H2. naive_solver.
Qed.

Lemma warnings_Ok v ws : warnings v = Ok ws → Forall canonical_text ws.
Proof.
  unfold warnings. destruct (v ≫= as_array) as [l|]; [|done]. intros Hc%collect_Ok.
  induction Hc as [|x y l ws Hx _ IH]; constructor; [|done].
  by apply bind_Ok in Hx as (s & _ & [-> ?]%required_string_Ok).
Qed.

Section delta.
Context `{WireCodec}.

Record delta_page_wf (page : SyncDeltaPageV2) : Prop := {
  dw_server_time : canonical_text (dp_server_time page);
  dw_cursor : cursor_wf (dp_next_cursor page);
  dw_events : Forall event_wf (dp_events page);
  dw_ids : NoDup (se_event_id <$> dp_events page);
  dw_seqs : NoDup (se_event_seq <$> dp_events page);
  dw_warnings : Forall canonical_text (dp_warnings page);
  dw_lanes : ∀ lane s, dp_lanes page !! lane = Some s → section_wf lane s }.

Lemma parse_delta_page_wf m page : parse_delta_page m = Ok (Delta page) → delta_page_wf page.
Proof.
  unfold parse_delta_page. intros [_ Hp]%guard_Ok.
  apply bind_Ok in Hp as (values & _ & Hp). apply bind_Ok in Hp as (events & He%collect_Ok & Hp).
  apply bind_Ok in Hp as (u & (Hi & Hs & _)%unique_events_Ok & Hp).
  destruct (parse_lane_delta_sections_v3 _) as [lanes inv] eqn:El.
  apply bind_Ok in Hp as (time & Ht & Hp). apply bind_Ok in Hp as (cv & _ & Hp).
  apply bind_Ok in Hp as (next & (? & _ & _ & _ & Hc)%parse_cursor_Ok & Hp).
  apply bind_Ok in Hp as (more & _ & Hp). apply bind_Ok in Hp as (ws & Hw%warnings_Ok & [= <-]).
  read_fields. split; simpl; try done.
  - clear -He. induction He as [|x y l ys Hx _ IH]; constructor; [|done].
    apply parse_event_Ok in Hx as (? & _ & _ & ?). done.
  - intros lane s Hl. by eapply parse_sections_wf.
Qed.

Lemma parse_delta_response_cases raw r :
  parse_delta_response raw = Ok r →
  ∃ m, raw = VObject m ∧
    (assoc "mode" m = Some (VString "delta") ∧ parse_delta_page m = Ok r ∨
     assoc "mode" m = Some (VString "compact_recovery_required") ∧ parse_delta_recovery m = Ok r).
Proof.
  unfold parse_delta_response. intros (m & ->%object_Ok & Hp)%bind_Ok. exists m. split; [done|].
  cbv zeta in Hp. case_bool_decide as E1; [right|].
  - split; [by apply string_text|done].
  - apply unless_Ok in Hp as [E2 Hp]. bool_hyps. left. split; [by apply string_text|done].
Qed.

Lemma parse_delta_recovery_kind m page : parse_delta_recovery m ≠ Ok (Delta page).
Proof.
  unfold parse_delta_recovery. intros (? & _ & Hp)%bind_Ok. apply guard_Ok in Hp as [_ Hp].
  repeat (apply bind_Ok in Hp as (? & _ & Hp)). done.
Qed.

(** The ordinary part of a response. *)
Definition ordinary_part (r : SyncDeltaResponseV2) :=
  match r with
  | Delta p => inl (dp_server_time p, dp_events p, dp_next_cursor p, dp_has_more p, dp_warnings p)
  | DeltaRecoveryRequired d => inr d
  end.

(** Two responses that differ at most in their lane sections. *)
Definition same_but_lanes (m m' : Obj) : Prop := ∀ k, k ≠ "lanes"%string → assoc k m = assoc k m'.

Lemma canonical_string_field_agree m m' f :
  assoc f m = assoc f m' → canonical_string_field m f = canonical_string_field m' f.
Proof. unfold canonical_string_field. by intros ->. Qed.

Lemma parse_delta_page_agree m m' :
  same_but_lanes m m' →
  match parse_delta_page m, parse_delta_page m' with
  | Ok r, Ok r' => ordinary_part r = ordinary_part r'
  | Err e, Err e' => e = e'
  | _, _ => False
  end.
Proof.
  intros Ha. unfold parse_delta_page, bool_field.
  rewrite <-(canonical_string_field_agree m m' "server_time") by by apply Ha.
  rewrite <-(Ha "recovery"%string), <-(Ha "events"%string), <-(Ha "next_cursor"%string),
    <-(Ha "has_more"%string), <-(Ha "warnings"%string) by done.
  destruct (match assoc "recovery" m with Some VNull => false | Some _ => true | None => false end);
    [done|].
  destruct (or_invalid (assoc "events" m ≫= as_array) _) as [values|]; [|done]. cbn [mbind result_bind].
  destruct (collect parse_event values) as [events|]; [|done]. cbn [mbind result_bind].
  destruct (try_fold unique_event_step ([], []) events); [|done]. cbn [mbind result_bind].
  destruct (parse_lane_delta_sections_v3 (assoc "lanes" m)).
  destruct (parse_lane_delta_sections_v3 (assoc "lanes" m')).
  destruct (canonical_string_field m "server_time"); [|done]. cbn [mbind result_bind].
  destruct (or_invalid (assoc "next_cursor" m) _) as [c|]; [|done]. cbn [mbind result_bind].
  destruct (parse_cursor c); [|done]. cbn [mbind result_bind].
  destruct (or_invalid (assoc "has_more" m ≫= as_bool) _); [|done]. cbn [mbind result_bind].
  by destruct (warnings (assoc "warnings" m)).
Qed.

Lemma parse_delta_recovery_agree m m' :
  same_but_lanes m m' → parse_delta_recovery m = parse_delta_recovery m'.
Proof.
  intros Ha. unfold parse_delta_recovery.
  by rewrite <-(Ha "recovery"%string), <-(Ha "events"%string), <-(Ha "next_cursor"%string),
    <-(Ha "has_more"%string) by done.
Qed.
End delta.

(** ** Hydration batches *)

Lemma validate_event_ids_Ok ids :
  validate_event_ids ids = Ok () →
  (1 ≤ length ids ≤ MESSAGE_GET_BATCH_MAX_EVENT_IDS)%nat ∧ NoDup ids ∧ Forall canonical_text ids.
Proof.
  unfold validate_event_ids. destruct (_ || _) eqn:Hb; [done|].
  apply orb_false_iff in Hb as [Hl%Nat.eqb_neq Hu%Nat.ltb_ge].
  intros (r & Hf & _)%bind_Ok. split; [lia|].
  enough (∀ unique, try_fold (λ unique event_id,
      _ ← required_string "event_ids" event_id;
      if bool_decide (event_id ∈ unique)
      then Err (invalid_input (Some "event_ids"%string) "event_ids must not contain duplicates")
      else Ok (event_id :: unique)) unique ids = Ok r →
    NoDup ids ∧ Forall canonical_text ids ∧ (∀ x, x ∈ ids → x ∉ unique)) as Hgen.
  { apply Hgen in Hf. naive_solver. }
  clear Hf Hl Hu. induction ids as [|x ids IH]; intros unique Hf; simpl in Hf.
  { split_and!; [constructor|constructor|]. intros ? []%elem_of_nil. }
  apply bind_Ok in Hf as (u & Hs & Hf). apply bind_Ok in Hs as (s & [-> ?]%required_string_Ok & Hs).
  destruct (bool_decide (x ∈ unique)) eqn:Hx; [done|]. injection Hs as <-. bool_hyps.
  apply IH in Hf as (Hn & Hc & Hout). split_and!.
  - constructor; [|done]. intros Hin%Hout. apply Hin. by left.
  - by constructor.
  - intros y [->|Hy%Hout]%elem_of_cons; [done|]. rewrite elem_of_cons in Hy. naive_solver.
Qed.

Lemma request_index_Some ids id i : request_index ids id = Some i → ids !! i = Some id.
Proof.
  unfold request_index. destruct (list_find _ ids) as [[j x]|] eqn:E; simpl; [|done].
  intros [= <-]. apply list_find_Some in E as (? & -> & _). done.
Qed.

Lemma response_order_fold ids field es prev seen r :
  try_fold (response_order_step ids field) (prev, seen) es = Ok r →
  NoDup seen →
  es `sublist_of` drop (match prev with Some p => S p | None => 0 end) ids ∧
  r.2 = reverse es ++ seen ∧ NoDup r.2.
Proof.
  revert prev seen. induction es as [|e es IH]; intros prev seen Hf Hn; simpl in Hf.
  { injection Hf as <-. split_and!; [apply sublist_nil_l|done|done]. }
  apply bind_Ok in Hf as (s & Hs & Hf). unfold response_order_step in Hs.
  destruct (request_index ids e) as [i|] eqn:Ei; [|done]. simpl in Hs.
  apply guard_Ok in Hs as [Hp Hs]. apply guard_Ok in Hs as [Hx [= <-]]. bool_hyps.
  apply IH in Hf as (Hsub & -> & Hnd); [|by constructor]. apply request_index_Some in Ei.
  split_and!; [|by rewrite reverse_cons, <-app_assoc|done].
  transitivity (drop i ids).
  - rewrite (drop_S _ _ _ Ei). by apply sublist_skip.
  - destruct prev as [p|].
    + apply Nat.leb_gt in Hp. replace i with (S p + (i - S p))%nat by lia.
      rewrite <-drop_drop. apply sublist_drop.
    + rewrite drop_0. apply sublist_drop.
Qed.

Lemma validate_response_order_Ok es ids field seen seen' :
  validate_response_order es ids field seen = Ok seen' → NoDup seen →
  es `sublist_of` ids ∧ seen' = reverse es ++ seen ∧ NoDup seen'.
Proof.
  unfold validate_response_order. intros (r & Hf & [= <-])%bind_Ok Hn.
  apply response_order_fold in Hf as (Hs & ? & ?); [|done]. by rewrite drop_0 in Hs.
Qed.

(** A value the ordinary reader admits carries no encryption discriminator. *)
Definition plain_value (v : Value) : Prop := is_object v = true ∧ reject_e2ee_value v = Ok ().

Lemma parse_batch_item_plain v x : parse_batch_item v = Ok x → plain_value (hm_message x).
Proof.
  unfold parse_batch_item. intros (m & _ & Hp)%bind_Ok. apply bind_Ok in Hp as (id & _ & Hp).
  apply bind_Ok in Hp as (msg & [_ ?]%object_field_Ok & Hp).
  by apply unit_bind_Ok in Hp as [? [= <-]].
Qed.

Record batch_complete (ids : list string) (b : MessageBatchV2) : Prop := {
  bc_cover : (hm_event_id <$> mb_items b) ++ mb_unavailable b ≡ₚ ids;
  bc_items : (hm_event_id <$> mb_items b) `sublist_of` ids;
  bc_unavailable : mb_unavailable b `sublist_of` ids;
  bc_plain : Forall (λ x, plain_value (hm_message x)) (mb_items b) }.

Lemma parse_message_batch_Ok raw ids b :
  parse_message_batch raw ids = Ok b →
  validate_event_ids ids = Ok () ∧ batch_complete ids b.
Proof.
  unfold parse_message_batch. intros [Hv Hp]%unit_bind_Ok.
  apply bind_Ok in Hp as (resp & _ & Hp). apply bind_Ok in Hp as (ivs & _ & Hp).
  apply bind_Ok in Hp as (items & Hi%collect_Ok & Hp). apply bind_Ok in Hp as (uvs & _ & Hp).
  apply bind_Ok in Hp as (un & _ & Hp).
  apply bind_Ok in Hp as (seen & (Hs1 & -> & Hn1)%validate_response_order_Ok & Hp); [|constructor].
  apply bind_Ok in Hp as (seen & (Hs2 & -> & Hn2)%validate_response_order_Ok & Hp); [|done].
  apply guard_Ok in Hp as [Hlen [= <-]]. apply negb_false_iff, Nat.eqb_eq in Hlen.
  split; [done|]. rewrite app_nil_r in *. split; simpl; [|done|done|].
  - assert (reverse un ++ reverse (hm_event_id <$> items) ≡ₚ ids) as <-.
    { apply submseteq_length_Permutation; [|lia]. apply NoDup_submseteq; [done|].
      intros x. rewrite elem_of_app, !elem_of_reverse. intros [Hx|Hx].
      - by apply (sublist_subseteq _ _ Hs2).
      - by apply (sublist_subseteq _ _ Hs1). }
    by rewrite !reverse_Permutation, Permutation_app_comm.
  - clear -Hi. induction Hi; constructor; [by eapply parse_batch_item_plain|done].
Qed.
