(* ===== verification/Recovery.v ===== *)
(** * Downloading a recovery snapshot

    [message_runtime/sync_v2.rs]: [recover_snapshot] requests the pages of a
    snapshot one by one, checks each against the recovery it was authorised for,
    and collects them in [SnapshotAccumulatorV3]; the package is finalised when
    the last page has arrived.

    The server is an arbitrary state machine [rpc]. The download loop takes
    fuel, one unit per request; [fetch_pages_total] (RecoveryProps) shows that
    100 units always suffice, since a manifest admits at most 100 pages. *)

From stdpp Require Import gmap.
From S2P Require Import Prelude RustStr ImError Decimal Dto Store SyncStore Inbox Lanes Wire Snapshot.
Local Open Scope Z_scope.

(** [identity/dto.rs] *)
Record ActiveSyncAccountBinding := mkActiveBinding {
  ab_owner : string;
  ab_account : string;
  ab_current_did : string;
  ab_device : string;
  ab_identity_generation : string;
  ab_auth_generation : string }.

Definition invalid_snapshot {A} (message : string) : ImResult A :=
  Err (sync_error "SYNC_INVALID_SNAPSHOT" message).

(** ** The order of snapshot items *)

(** A non-empty text at a JSON pointer. *)
Definition order_text (value : Value) (path : list string) : ImResult string :=
  match pointer value path ≫= as_str with
  | Some s =>
      if is_empty s then invalid_snapshot "snapshot item is missing its stable ordering key"
      else Ok s
  | None => invalid_snapshot "snapshot item is missing its stable ordering key"
  end.

(** A comparison of two optional keys, equal when one cannot be read. *)
Definition text_cmp_or_eq (path : list string) (previous current : Value) : comparison :=
  unwrap_or (l ← order_text previous path; r ← order_text current path; Ok (str_cmp l r)) Eq.
Definition decimal_cmp_or_eq (path : list string) (previous current : Value) : comparison :=
  unwrap_or (l ← order_text previous path; r ← order_text current path; compare_decimal l r) Eq.

Definition section_index (s : SnapshotSectionV3) : Z :=
  match s with
  | ReadStates => 0 | Groups => 1 | RecentPlainMessages => 2 | UnexpiredSystemNotifications => 3
  end.

Section codec.
Context `{WireCodec}.

Definition order_time (text : string) : ImResult Z :=
  match chrono_rfc3339 text with
  | Some t => Ok t
  | None => invalid_snapshot "invalid message order time"
  end.

Definition snapshot_item_ordering (section : SnapshotSectionV3) (previous current : Value)
    : ImResult comparison :=
  match section with
  | ReadStates =>
      previous_kind ← order_text previous ["thread_kind"]%string;
      current_kind ← order_text current ["thread_kind"]%string;
      Ok (then_with
            (then_with (str_cmp previous_kind current_kind)
               (text_cmp_or_eq ["thread_key"]%string previous current))
            (decimal_cmp_or_eq ["state_version"]%string previous current))
  | Groups =>
      previous_group ← order_text previous ["group_did"]%string;
      current_group ← order_text current ["group_did"]%string;
      Ok (then_with (str_cmp previous_group current_group)
            (decimal_cmp_or_eq ["group_state_version"]%string previous current))
  | RecentPlainMessages =>
      previous_text ← order_text previous ["message"; "created_at"]%string;
      current_text ← order_text current ["message"; "created_at"]%string;
      previous_time ← order_time previous_text;
      current_time ← order_time current_text;
      Ok (then_with
            (then_with (previous_time ?= current_time)
               (decimal_cmp_or_eq ["event"; "event_seq"]%string previous current))
            (text_cmp_or_eq ["event"; "event_id"]%string previous current))
  | UnexpiredSystemNotifications =>
      previous_seq ← order_text previous ["event"; "event_seq"]%string;
      current_seq ← order_text current ["event"; "event_seq"]%string;
      order ← compare_decimal previous_seq current_seq;
      Ok (then_with order (text_cmp_or_eq ["event"; "event_id"]%string previous current))
  end.

Definition require_snapshot_item_after (section : SnapshotSectionV3) (previous current : Value)
    : ImResult unit :=
  ordering ← snapshot_item_ordering section previous current;
  if negb (bool_decide (ordering = Lt)) then
    invalid_snapshot "snapshot section keyset is not strictly increasing"
  else Ok ().

(** [windows(2)] *)
Fixpoint require_increasing (section : SnapshotSectionV3) (items : list Value) : ImResult unit :=
  match items with
  | previous :: (current :: _) as rest =>
      _ ← require_snapshot_item_after section previous current;
      require_increasing section rest
  | _ => Ok ()
  end.

(** ** The accumulator *)

Record SnapshotAccumulatorV3 := mkAccumulator {
  ac_manifest : SyncSnapshotManifestV3;
  ac_sections : gmap SnapshotSectionV3 (list Value);
  ac_page_counts : gmap SnapshotSectionV3 Z;
  ac_last_section : option SnapshotSectionV3;
  ac_last_items : gmap SnapshotSectionV3 Value;
  ac_pages_received : Z }.

Definition accumulator_new (manifest : SyncSnapshotManifestV3) : SnapshotAccumulatorV3 :=
  mkAccumulator manifest ∅ ∅ None ∅ 0.

Definition entry_or_default {A} (d : A) (m : gmap SnapshotSectionV3 A) (s : SnapshotSectionV3) : A :=
  match m !! s with Some a => a | None => d end.

Definition reordered (self : SnapshotAccumulatorV3) (page : SnapshotPageV3) : bool :=
  match ac_last_section self with
  | Some previous => section_index (sp_section page) <? section_index previous
  | None => false
  end.

Definition unexpected_empty (self : SnapshotAccumulatorV3) (page : SnapshotPageV3) : bool :=
  (length (sp_items page) =? 0)%nat
  && negb ((mf_total_items (ac_manifest self) =? 0) && (mf_total_pages (ac_manifest self) =? 1)
           && bool_decide (sp_section page = ReadStates) && negb (sp_has_more page)).

(** The accumulator after the page, before the continuation check. *)
Definition absorb (self : SnapshotAccumulatorV3) (page : SnapshotPageV3) : SnapshotAccumulatorV3 :=
  let s := sp_section page in
  mkAccumulator (ac_manifest self)
    (<[s := entry_or_default [] (ac_sections self) s ++ sp_items page]> (ac_sections self))
    (<[s := entry_or_default 0 (ac_page_counts self) s + 1]> (ac_page_counts self))
    (Some s)
    match last (sp_items page) with
    | Some item => <[s := item]> (ac_last_items self)
    | None => ac_last_items self
    end
    (u64_saturating_add (ac_pages_received self) 1).

Definition push_page (self : SnapshotAccumulatorV3) (page : SnapshotPageV3)
    : ImResult (option string * SnapshotAccumulatorV3) :=
  if reordered self page then
    invalid_snapshot "snapshot pages reordered their fixed section sequence"
  else
    _ ← match ac_last_items self !! sp_section page, sp_items page with
        | Some previous, first :: _ =>
            require_snapshot_item_after (sp_section page) previous first
        | _, _ => Ok ()
        end;
    _ ← require_increasing (sp_section page) (sp_items page);
    if unexpected_empty self page then
      invalid_snapshot "snapshot returned an unexpected empty page"
    else
      let next := absorb self page in
      let total := mf_total_pages (ac_manifest self) in
      if (total <? ac_pages_received next)
         || negb (Bool.eqb (sp_has_more page) (ac_pages_received next <? total)) then
        invalid_snapshot "snapshot page continuation does not match manifest total_pages"
      else Ok (sp_next_page_ref page, next).

(** ** The download loop *)

Section download.
Context {World : Type} (rpc : World → string → Value → ImResult Value * World).
Context (stamp : World → Stamp).
Variable identity_did client_instance_id : string.
Variable binding : ActiveSyncAccountBinding.
Variable recovery : SyncRecoveryV2.

Definition page_mismatch (page : SyncSnapshotPageV3) : bool :=
  negb (bool_decide (sn_recovery_id page = sr_recovery_id recovery))
  || negb (bool_decide (sn_account_id page = ab_account binding))
  || negb (bool_decide (sn_device_id page = ab_device binding))
  || negb (bool_decide (sn_device_auth_generation page = ab_auth_generation binding))
  || negb (bool_decide (sn_client_instance_id page = client_instance_id))
  || negb (bool_decide (cu_stream_epoch (sn_snapshot_cursor page) = sr_stream_epoch recovery))
  || negb (bool_decide (cu_scan_seq (sn_snapshot_cursor page) = sr_snapshot_scan_seq recovery)).

Definition manifest_conflicts (page : SyncSnapshotPageV3) : bool :=
  match sn_manifest page with
  | Some manifest =>
      negb (bool_decide (cu_stream_epoch (mf_snapshot_cursor manifest)
                           = cu_stream_epoch (sn_snapshot_cursor page))
            && bool_decide (cu_scan_seq (mf_snapshot_cursor manifest)
                              = cu_scan_seq (sn_snapshot_cursor page)))
      || negb (bool_decide (mf_manifest_digest manifest = sn_manifest_digest page))
  | None => false
  end.

(** What one response does to the accumulator: the reference of the next page,
    the accumulator and the server time. *)
Definition accept_page (accumulator : option SnapshotAccumulatorV3) (raw : Value)
    : ImResult (option string * SnapshotAccumulatorV3 * string) :=
  let first_page := bool_decide (accumulator = None) in
  page ← parse_snapshot_page_v3 raw first_page;
  if page_mismatch page then
    Err (sync_error "SYNC_ACCOUNT_BINDING_MISMATCH"
           "snapshot page does not match the exact recovery binding and anchor")
  else if manifest_conflicts page then
    invalid_snapshot "first snapshot page conflicts with its manifest"
  else
    acc ← match accumulator with
          | Some acc => Ok acc
          | None =>
              match sn_manifest page with
              | Some manifest => Ok (accumulator_new manifest)
              | None => invalid_snapshot "first snapshot page did not carry a manifest"
              end
          end;
    if negb (bool_decide (mf_manifest_digest (ac_manifest acc) = sn_manifest_digest page)) then
      invalid_snapshot "snapshot page belongs to a mixed manifest"
    else
      pushed ← push_page acc (sn_page page);
      Ok (pushed.1, pushed.2, sn_server_time page).

(** The loop; [None] when the fuel runs out. [pages] is [result.pages_fetched]. *)
Fixpoint fetch_pages (fuel : nat) (w : World) (accumulator : option SnapshotAccumulatorV3)
    (next_page_ref : option string) (pages : Z)
    : option (ImResult (SnapshotAccumulatorV3 * string) * Z * World) :=
  match fuel with
  | O => None
  | S fuel =>
      match build_snapshot_page_params (stamp w) identity_did recovery next_page_ref with
      | Err e => Some (Err e, pages, w)
      | Ok params =>
          let '(response, w) := rpc w "sync.snapshot" params in
          match response ≫= accept_page accumulator with
          | Err e => Some (Err e, pages, w)
          | Ok (next, acc, server_time) =>
              let pages := Z.min u32_max (pages + 1) in
              match next with
              | None => Some (Ok (acc, server_time), pages, w)
              | Some page_ref => fetch_pages fuel w (Some acc) (Some page_ref) pages
              end
          end
      end
  end.

Definition FETCH_FUEL : nat := 100.

(** The download part of [recover_snapshot]: from the authorisation to the
    verified package. *)
Definition download_snapshot (w : World) (pages : Z)
    : option (ImResult SyncSnapshotV3 * Z * World) :=
  if negb (sr_snapshot_schema recovery =? 3)
     || negb (bool_decide (sr_snapshot_delivery recovery = "paged_v1"%string)) then
    Some (Err (sync_error "SYNC_INVALID_SNAPSHOT"
                 "compact recovery authorization is not Schema 3 paged_v1"), pages, w)
  else
    match fetch_pages FETCH_FUEL w None None pages with
    | None => None
    | Some (Err e, pages, w) => Some (Err e, pages, w)
    | Some (Ok (acc, server_time), pages, w) =>
        Some (finalize_snapshot_package_v3 (ac_manifest acc) (ab_account binding)
                (ab_device binding) server_time (ac_sections acc) (ac_page_counts acc), pages, w)
    end.
End download.
End codec.
