(* ===== verification/RecoveryProps.v ===== *)
(** * Recovery downloads end, and what they yield

    The page counter of the accumulator drives the download: every accepted page
    brings it one closer to the manifest's total, and only a page below the total
    carries a reference to a next one. The finalised package is bounded and its
    events are unique and anchored at the snapshot's cursor. *)

From stdpp Require Import gmap.
From S2P Require Import Prelude RustStr ImError Decimal Dto Store SyncStore Inbox Lanes Wire Snapshot WireProps Recovery.
Local Open Scope Z_scope.

Section props.
Context `{WireCodec}.

(** ** Pages and manifests *)

Record page_wf (p : SnapshotPageV3) : Prop := {
  pw_items : Z.of_nat (length (sp_items p)) ≤ SNAPSHOT_PAGE_MAX_ITEMS;
  pw_next : sp_has_more p = bool_decide (is_Some (sp_next_page_ref p)) }.

Lemma parse_page_envelope_wf raw p : parse_snapshot_page_envelope_v3 raw = Ok p → page_wf p.
Proof.
  unfold parse_snapshot_page_envelope_v3. intros (m & _ & Hp)%bind_Ok.
  do 5 (apply bind_Ok in Hp as (? & _ & Hp)). apply guard_Ok in Hp as [Hi Hp].
  do 2 (apply bind_Ok in Hp as (? & _ & Hp)). apply guard_Ok in Hp as [_ Hp].
  do 2 (apply bind_Ok in Hp as (? & _ & Hp)). apply guard_Ok in Hp as [_ Hp].
  do 2 (apply bind_Ok in Hp as (? & _ & Hp)). apply guard_Ok in Hp as [Hn [= <-]].
  bool_hyps. split; simpl; [lia|by apply eqb_prop].
Qed.

Record manifest_wf (m : SyncSnapshotManifestV3) : Prop := {
  mw_cursor : cursor_wf (mf_snapshot_cursor m);
  mw_items : mf_total_items m ≤ SNAPSHOT_PACKAGE_MAX_ITEMS;
  mw_pages : 1 ≤ mf_total_pages m ≤ SNAPSHOT_PACKAGE_MAX_PAGES }.

Lemma parse_manifest_wf raw m : parse_snapshot_manifest_v3 raw = Ok m → manifest_wf m.
Proof.
  unfold parse_snapshot_manifest_v3. intros (o & _ & Hp)%bind_Ok.
  apply bind_Ok in Hp as (? & _ & Hp). apply guard_Ok in Hp as [_ Hp].
  do 9 (apply bind_Ok in Hp as (? & _ & Hp)). apply guard_Ok in Hp as [Ht Hp].
  apply guard_Ok in Hp as [_ Hp]. apply bind_Ok in Hp as (? & _ & Hp).
  apply bind_Ok in Hp as (cur & (? & _ & _ & _ & Hc)%parse_cursor_Ok & Hp).
  apply bind_Ok in Hp as (? & _ & Hp). apply guard_Ok in Hp as [_ Hp].
  do 2 (apply bind_Ok in Hp as (? & _ & Hp)). apply guard_Ok in Hp as [_ Hp].
  do 2 (apply bind_Ok in Hp as (? & _ & Hp)). injection Hp as <-.
  unfold manifest_totals_inconsistent in Ht. bool_hyps. split; simpl; [done|lia|lia].
Qed.

Lemma parse_snapshot_page_wf raw first p :
  parse_snapshot_page_v3 raw first = Ok p →
  page_wf (sn_page p) ∧ cursor_wf (sn_snapshot_cursor p) ∧
  (if first then ∃ m, sn_manifest p = Some m ∧ manifest_wf m else sn_manifest p = None).
Proof.
  unfold parse_snapshot_page_v3. intros (o & _ & Hp)%bind_Ok.
  do 2 (apply bind_Ok in Hp as (? & _ & Hp)). apply guard_Ok in Hp as [_ Hp].
  apply bind_Ok in Hp as (mo & Hm & Hp). do 2 (apply bind_Ok in Hp as (? & _ & Hp)).
  apply bind_Ok in Hp as (pg & Hpg%parse_page_envelope_wf & Hp).
  do 7 (apply bind_Ok in Hp as (? & _ & Hp)).
  apply bind_Ok in Hp as (cur & (? & _ & _ & _ & Hc)%parse_cursor_Ok & [= <-]). simpl.
  split_and!; [done..|]. destruct first.
  - apply bind_Ok in Hm as (v & _ & Hm). apply bind_Ok in Hm as (m & Hw%parse_manifest_wf & [= <-]).
    eauto.
  - by injection Hm as <-.
Qed.

(** ** The accumulator *)

(** How many items the accumulator holds. *)
Definition held (acc : SnapshotAccumulatorV3) : nat :=
  sum_list_with (λ s, length (entry_or_default [] (ac_sections acc) s)) ORDERED.

Record acc_wf (acc : SnapshotAccumulatorV3) : Prop := {
  aw_manifest : manifest_wf (ac_manifest acc);
  aw_received : 0 ≤ ac_pages_received acc ≤ mf_total_pages (ac_manifest acc);
  aw_held : Z.of_nat (held acc) ≤ SNAPSHOT_PAGE_MAX_ITEMS * ac_pages_received acc }.

Lemma held_absorb acc page : held (absorb acc page) = (held acc + length (sp_items page))%nat.
Proof.
  unfold held, absorb, entry_or_default. simpl.
  destruct (sp_section page); simpl;
    rewrite lookup_insert_eq, !lookup_insert_ne by done; rewrite length_app; lia.
Qed.

Lemma push_page_Ok acc page next acc' :
  acc_wf acc → page_wf page → push_page acc page = Ok (next, acc') →
  acc_wf acc' ∧ ac_manifest acc' = ac_manifest acc ∧
  ac_pages_received acc' = ac_pages_received acc + 1 ∧
  (is_Some next ↔ ac_pages_received acc' < mf_total_pages (ac_manifest acc)).
Proof.
  intros [Hm Hr Hh] [Hi Hn]. unfold push_page. destruct (reordered acc page); [done|].
  intros (? & _ & Hp)%bind_Ok. apply bind_Ok in Hp as (? & _ & Hp).
  destruct (unexpected_empty acc page); [done|]. cbv zeta in Hp.
  destruct (_ || _) eqn:Hc; [done|]. injection Hp as <- <-.
  apply orb_false_iff in Hc as [Hlt Hmore]. apply negb_false_iff, eqb_prop in Hmore.
  pose proof (mw_pages _ Hm) as Hp. pose proof (held_absorb acc page) as Ha.
  assert (ac_pages_received (absorb acc page) = ac_pages_received acc + 1) as E.
  { simpl. unfold u64_saturating_add, u64_max, SNAPSHOT_PACKAGE_MAX_PAGES in *. lia. }
  unfold SNAPSHOT_PAGE_MAX_ITEMS in *. apply Z.ltb_ge in Hlt. split_and!; [|done|done|].
  - split; [done|rewrite E in *; change (ac_manifest (absorb acc page)) with (ac_manifest acc); lia|].
    rewrite Ha, E. unfold SNAPSHOT_PAGE_MAX_ITEMS. lia.
  - rewrite Hn in Hmore. destruct (_ <? _) eqn:Hlt'; apply bool_decide_eq_true in Hmore
      || apply bool_decide_eq_false in Hmore.
    + apply Z.ltb_lt in Hlt'. done.
    + apply Z.ltb_ge in Hlt'. split; [done|]. lia.
Qed.

Lemma accumulator_new_wf m : manifest_wf m → acc_wf (accumulator_new m).
Proof. intros Hw. pose proof (mw_pages _ Hw). split; simpl; [done|lia|]. vm_compute. done. Qed.

(** ** The download loop *)

Section download.
Context {World : Type} (rpc : World → string → Value → ImResult Value * World).
Context (stamp : World → Stamp).
Variables identity_did client : string.
Variable binding : ActiveSyncAccountBinding.
Variable recovery : SyncRecoveryV2.
Notation accept := (accept_page client binding recovery).
Notation fetch := (fetch_pages rpc stamp identity_did client binding recovery).

(** Pages that may still be requested. *)
Definition remaining (acc : option SnapshotAccumulatorV3) : Z :=
  match acc with
  | None => SNAPSHOT_PACKAGE_MAX_PAGES
  | Some acc => mf_total_pages (ac_manifest acc) - ac_pages_received acc
  end.

Lemma accept_page_Ok acc raw next acc' time :
  opt_all acc_wf acc → accept acc raw = Ok (next, acc', time) →
  acc_wf acc' ∧ remaining (Some acc') < remaining acc ∧
  (is_Some next ↔ 0 < remaining (Some acc')) ∧
  opt_all (λ a, ac_manifest acc' = ac_manifest a) acc.
Proof.
  intros Hw. unfold accept_page. cbv zeta. intros (p & Hp%parse_snapshot_page_wf & Hr)%bind_Ok.
  destruct Hp as (Hpg & _ & Hm). destruct (page_mismatch _ _ _ p); [done|].
  destruct (manifest_conflicts p); [done|]. apply bind_Ok in Hr as (a & Ha & Hr).
  assert (acc_wf a ∧ remaining (Some a) ≤ remaining acc ∧
    opt_all (λ a', ac_manifest a = ac_manifest a') acc) as (Hwa & Hrem & Hman).
  { destruct acc as [a0|]; [by injection Ha as <-|].
    rewrite bool_decide_eq_true_2 in Hm by done. destruct Hm as (m & Em & Hmw).
    rewrite Em in Ha. injection Ha as <-. split; [by apply accumulator_new_wf|]. split; [|done].
    simpl. pose proof (mw_pages _ Hmw). lia. }
  destruct (negb _); [done|]. apply bind_Ok in Hr as ([n a'] & Hpush & [= <- <- <-]).
  simpl. apply push_page_Ok in Hpush as (Hwa' & Em & Er & Hn); [|done..].
  simpl in *. rewrite Em in *. split_and!; [done|lia| |done]. rewrite Hn. lia.
Qed.

Lemma fetch_pages_total fuel w acc ref n :
  opt_all acc_wf acc → 0 < remaining acc → remaining acc ≤ Z.of_nat fuel →
  ∃ r, fetch fuel w acc ref n = Some r.
Proof.
  revert w acc ref n. induction fuel as [|fuel IH]; intros w acc ref n Hw Hpos Hf; [lia|].
  simpl. destruct (build_snapshot_page_params _ _ _ _) as [params|e]; [|eauto].
  destruct (rpc w "sync.snapshot" params) as [resp w'].
  destruct (resp ≫= accept acc) as [[[next acc'] time]|e] eqn:E; [|eauto].
  destruct next as [page_ref|]; [|eauto].
  apply bind_Ok in E as (raw & _ & Ha). apply accept_page_Ok in Ha as (Hw' & Hlt & Hn & _); [|done].
  apply IH; [done|by apply Hn|lia].
Qed.

(** A download that succeeds has received every page of its manifest. *)
Lemma fetch_pages_complete fuel w acc ref n acc' time n' w' :
  opt_all acc_wf acc → fetch fuel w acc ref n = Some (Ok (acc', time), n', w') →
  acc_wf acc' ∧ ac_pages_received acc' = mf_total_pages (ac_manifest acc').
Proof.
  revert w acc ref n. induction fuel as [|fuel IH]; intros w acc ref n Hw; [done|]. simpl.
  destruct (build_snapshot_page_params _ _ _ _) as [params|e]; [|done].
  destruct (rpc w "sync.snapshot" params) as [resp w1].
  destruct (resp ≫= accept acc) as [[[next acc1] time1]|e] eqn:E; [|done].
  apply bind_Ok in E as (raw & _ & Ha). apply accept_page_Ok in Ha as (Hw1 & _ & Hn & _); [|done].
  destruct next as [page_ref|]; [by apply IH|]. intros [= -> -> _ _]. split; [done|].
  pose proof (aw_received _ Hw1). simpl in Hn.
  destruct (decide (0 < mf_total_pages (ac_manifest acc') - ac_pages_received acc')) as [Hd|Hd];
    [|lia]. by apply Hn in Hd as [].
Qed.
End download.

(** ** The finalised package *)

Section package.
Variable manifest : SyncSnapshotManifestV3.
Variables account_id device_id server_time : string.

(** An event inside the snapshot's anchor. *)
Record anchored (ty : string) (recipient : option string) (e : SyncEventV2) : Prop := {
  an_wf : event_wf e;
  an_type : se_event_type e = ty;
  an_account : se_account_id e = account_id;
  an_epoch : se_stream_epoch e = cu_stream_epoch (mf_snapshot_cursor manifest);
  an_recipient : se_recipient_device_id e = recipient;
  an_seq : gen_le (se_event_seq e) (cu_scan_seq (mf_snapshot_cursor manifest)) }.

Lemma anchor_event_Ok ty recipient msg taken e taken' :
  event_wf e → anchor_event manifest account_id ty recipient msg taken e = Ok taken' →
  anchored ty recipient e ∧ se_event_id e ∉ taken.1 ∧ se_event_seq e ∉ taken.2 ∧
  taken' = (se_event_id e :: taken.1, se_event_seq e :: taken.2).
Proof.
  intros Hw. unfold anchor_event. intros [Hg Hr]%guard_Ok.
  apply bind_Ok in Hr as (o & (_ & _ & ->)%compare_decimal_Ok_inv & Hr).
  apply guard_Ok in Hr as [Ho [= <-]]. bool_hyps.
  split; [|done]. by split.
Qed.

(** A loop whose every step anchors one more event. *)
Section collecting.
Context {A : Type} (event_of : A → SyncEventV2) (Q : A → Prop).
Variable step : Anchored * list A → Value → ImResult (Anchored * list A).
Hypothesis step_ok : ∀ s item s', step s item = Ok s' →
  ∃ x, Q x ∧ se_event_id (event_of x) ∉ s.1.1 ∧ se_event_seq (event_of x) ∉ s.1.2 ∧
    s' = ((se_event_id (event_of x) :: s.1.1, se_event_seq (event_of x) :: s.1.2), s.2 ++ [x]).

Lemma collecting_Ok items s s' :
  try_fold step s items = Ok s' →
  ∃ l, s'.2 = s.2 ++ l ∧ length l = length items ∧ Forall Q l ∧
    s'.1.1 = reverse (se_event_id ∘ event_of <$> l) ++ s.1.1 ∧
    s'.1.2 = reverse (se_event_seq ∘ event_of <$> l) ++ s.1.2 ∧
    (NoDup s.1.1 → NoDup s'.1.1) ∧ (NoDup s.1.2 → NoDup s'.1.2).
Proof using step_ok.
  revert s. induction items as [|item items IH]; intros s Hf; simpl in Hf.
  { injection Hf as <-. exists []. rewrite app_nil_r. split_and!; done || constructor. }
  apply bind_Ok in Hf as (s1 & (x & HQ & Hi & Hq & ->)%step_ok & Hf).
  apply IH in Hf as (l & E & El & HF & E1 & E2 & N1 & N2). simpl in *.
  exists (x :: l). rewrite E, E1, E2. simpl. rewrite !reverse_cons, <-!app_assoc. simpl.
  split_and!; [done|lia|by constructor|done|done| |].
  - intros Hn. rewrite <-E1. apply N1. by constructor.
  - intros Hn. rewrite <-E2. apply N2. by constructor.
Qed.
End collecting.

(** What a plain message of the package satisfies. *)
Definition message_ok (cutoff : Z) (x : SnapshotPlainMessageV2) : Prop :=
  anchored "message.created" None (pm_event x) ∧ plain_value (pm_message x) ∧
  ∃ t, (message_timestamp (pm_message x) ≫= chrono_rfc3339) = Some t ∧ cutoff ≤ t.

Lemma plain_message_step_Ok cutoff s item s' :
  plain_message_step manifest account_id cutoff s item = Ok s' →
  ∃ x, message_ok cutoff x ∧ se_event_id (pm_event x) ∉ s.1.1 ∧ se_event_seq (pm_event x) ∉ s.1.2 ∧
    s' = ((se_event_id (pm_event x) :: s.1.1, se_event_seq (pm_event x) :: s.1.2), s.2 ++ [x]).
Proof.
  unfold plain_message_step. intros (m & _ & Hp)%bind_Ok.
  do 2 (apply bind_Ok in Hp as (? & _ & Hp)).
  apply bind_Ok in Hp as (e & (? & _ & _ & Hw)%parse_event_Ok & Hp).
  apply bind_Ok in Hp as (taken & Ht & Hp). apply bind_Ok in Hp as (msg & [_ Hm]%object_field_Ok & Hp).
  apply bind_Ok in Hp as (text & Htext%or_invalid_Ok & Hp).
  apply bind_Ok in Hp as (at_ & Hat%or_invalid_Ok & Hp). apply guard_Ok in Hp as [Hc Hp].
  apply unit_bind_Ok in Hp as [He2 Hp]. apply unit_bind_Ok in Hp as [_ [= <-]].
  apply anchor_event_Ok in Ht as (Ha & Hi & Hq & ->); [|done]. bool_hyps.
  exists (mkPlainMessage e msg). split_and!; [|done..].
  split; [done|]. split; [done|]. exists at_. simpl. rewrite Htext. done.
Qed.

Definition notification_ok (x : SnapshotSystemNotificationV2) : Prop :=
  anchored "system.notification" (Some device_id) (sy_event x) ∧
  is_trusted_delivery_marker (sy_message x) = true.

Lemma notification_step_Ok s item s' :
  notification_step manifest account_id device_id s item = Ok s' →
  ∃ x, notification_ok x ∧ se_event_id (sy_event x) ∉ s.1.1 ∧ se_event_seq (sy_event x) ∉ s.1.2 ∧
    s' = ((se_event_id (sy_event x) :: s.1.1, se_event_seq (sy_event x) :: s.1.2), s.2 ++ [x]).
Proof.
  unfold notification_step. intros (m & _ & Hp)%bind_Ok.
  do 2 (apply bind_Ok in Hp as (? & _ & Hp)).
  apply bind_Ok in Hp as (e & (? & _ & _ & Hw)%parse_event_Ok & Hp).
  apply bind_Ok in Hp as (taken & Ht & Hp). apply bind_Ok in Hp as (msg & [_ Hm]%object_field_Ok & Hp).
  do 2 (apply bind_Ok in Hp as (? & _ & Hp)). apply guard_Ok in Hp as [Hc [= <-]].
  apply anchor_event_Ok in Ht as (Ha & Hi & Hq & ->); [|done]. bool_hyps.
  by exists (mkSystemNotification e msg).
Qed.

(** The events of a package, messages first. *)
Definition snapshot_events (sv : SyncSnapshotV3) : list SyncEventV2 :=
  (pm_event <$> sv_recent_plain_messages sv) ++ (sy_event <$> sv_unexpired_system_notifications sv).

Definition snapshot_size (sv : SyncSnapshotV3) : nat :=
  length (sv_read_states sv) + length (sv_groups sv) +
  length (sv_recent_plain_messages sv) + length (sv_unexpired_system_notifications sv).

Record snapshot_wf (sv : SyncSnapshotV3) : Prop := {
  sw_cursor : sv_snapshot_cursor sv = mf_snapshot_cursor manifest;
  sw_account : sv_account_id sv = account_id;
  sw_device : sv_device_id sv = device_id;
  sw_messages : ∃ cutoff, chrono_rfc3339 (sv_server_cutoff sv) = Some cutoff ∧
    Forall (message_ok cutoff) (sv_recent_plain_messages sv);
  sw_notifications : Forall notification_ok (sv_unexpired_system_notifications sv);
  sw_ids : NoDup (se_event_id <$> snapshot_events sv);
  sw_seqs : NoDup (se_event_seq <$> snapshot_events sv);
  sw_plain : Forall (λ v, reject_e2ee_value v = Ok ()) (sv_read_states sv ++ sv_groups sv) }.

Lemma reverse_NoDup_app {B} (a b : list B) : NoDup (reverse b ++ reverse a) ↔ NoDup (a ++ b).
Proof. by rewrite <-reverse_app, reverse_Permutation. Qed.

Lemma check_read_state_plain v : check_read_state v = Ok () → reject_e2ee_value v = Ok ().
Proof.
  unfold check_read_state. intros (m & _ & Hp)%bind_Ok.
  by do 4 (apply bind_Ok in Hp as (? & _ & Hp)).
Qed.
Lemma check_group_state_plain v : check_group_state v = Ok () → reject_e2ee_value v = Ok ().
Proof.
  unfold check_group_state. intros (m & _ & Hp)%bind_Ok.
  by do 2 (apply bind_Ok in Hp as (? & _ & Hp)).
Qed.

Lemma finalize_Ok sections page_counts sv :
  finalize_snapshot_package_v3 manifest account_id device_id server_time sections page_counts = Ok sv →
  snapshot_wf sv ∧
  snapshot_size sv = sum_list_with (λ s, length (section_items sections s)) ORDERED.
Proof.
  unfold finalize_snapshot_package_v3. intros (? & _ & Hp)%bind_Ok.
  do 2 (apply bind_Ok in Hp as (? & _ & Hp)).
  apply bind_Ok in Hp as (cutoff & Hcut%or_invalid_Ok & Hp).
  apply bind_Ok in Hp as (ms & Hms & Hp). apply bind_Ok in Hp as (? & _ & Hp).
  apply bind_Ok in Hp as (ns & Hns & Hp).
  apply unit_bind_Ok in Hp as [Hr Hp]. apply unit_bind_Ok in Hp as [Hg [= <-]].
  apply (collecting_Ok pm_event (message_ok cutoff) _ (plain_message_step_Ok cutoff)) in Hms
    as (l & El & Hl & HF & Ei & Eq & Ni & Nq).
  apply (collecting_Ok sy_event notification_ok _ notification_step_Ok) in Hns
    as (k & Ek & Hk & HG & Fi & Fq & Mi & Mq).
  simpl in *. rewrite app_nil_r in *. subst l k.
  apply try_each_Ok in Hr, Hg. split.
  - split; simpl; try done.
    + by exists cutoff.
    + unfold snapshot_events. simpl. rewrite fmap_app, <-!list_fmap_compose.
      apply reverse_NoDup_app. rewrite <-Ei, <-Fi. apply Mi, Ni. constructor.
    + unfold snapshot_events. simpl. rewrite fmap_app, <-!list_fmap_compose.
      apply reverse_NoDup_app. rewrite <-Eq, <-Fq. apply Mq, Nq. constructor.
    + apply Forall_app. split; eapply Forall_impl; [exact Hr| |exact Hg|].
      * apply check_read_state_plain.
      * apply check_group_state_plain.
  - unfold snapshot_size. simpl. rewrite Hl, Hk. lia.
Qed.
End package.

Lemma section_items_held acc :
  sum_list_with (λ s, length (section_items (ac_sections acc) s)) ORDERED = held acc.
Proof. done. Qed.
End props.
