(* ===== verification/Failure.v ===== *)
(** * How a sync run classifies failures

    [message_runtime/sync_v2.rs]: [failure_outcome] turns an error into the status
    a caller sees, [receive_run] decides from it whether the run is retried, and
    the hydration loop retries transient transport failures a bounded number of
    times per failure fingerprint. *)

From stdpp Require Import gmap.
From S2P Require Import Prelude RustStr ImError Decimal Dto Store SyncStore Inbox Lanes Wire Snapshot.
Local Open Scope Z_scope.

Section failure.
Context {Message : Type}.
Notation Outcome := (MessageSyncOutcome Message).

Definition empty_outcome : Outcome := {|
  so_status := Idle; so_events_applied := 0; so_pages_fetched := 0; so_messages_hydrated := 0;
  so_duplicates_skipped := 0; so_older_history_excluded := false;
  so_changed_conversation_ids := []; so_committed_incoming_messages := [];
  so_error_code := None; so_warnings := [] |}.

Definition is_device_epoch_rejection (error : ImError) : bool :=
  bool_decide (error_code error = Some "anp.device_not_eligible"%string)
  || bool_decide (error_code error = Some "anp.device_state_changed"%string).

Definition local_state_retry_warning (detail : string) : string :=
  let detail := to_ascii_lowercase detail in
  if contains detail "actor is closed" then "sync.retry.local_state.actor_closed"
  else if contains detail "database is locked" || contains detail "database is busy"
  then "sync.retry.local_state.database_busy"
  else if contains detail "constraint failed" then "sync.retry.local_state.constraint_failed"
  else if contains detail "no such table" || contains detail "no such column"
  then "sync.retry.local_state.schema_unavailable"
  else if contains detail "unable to open database" || contains detail "disk i/o error"
          || contains detail "readonly database"
  then "sync.retry.local_state.storage_unavailable"
  else if contains detail "failed to encode" || contains detail "failed to decode"
  then "sync.retry.local_state.codec_unavailable"
  else "sync.retry.local_state.other".

(** The [local_action] a service error asks for. *)
Definition local_action (data : option Value) : option string :=
  data ≫= λ v, vget v "local_action" ≫= as_str.

Definition code_in (code : option string) (codes : list string) : bool :=
  match code with Some c => bool_decide (c ∈ codes) | None => false end.

Definition service_failure (status_code : option Z) (code : option string) (data : option Value)
    : MessageSyncStatus * string :=
  if bool_decide (status_code = Some 401) || bool_decide (status_code = Some 403) then
    (AuthRevoked, "AUTH_REVOKED"%string)
  else if bool_decide (code = Some "SYNC_RECOVERY_REQUIRED"%string) then
    (RecoveryRequired, "SYNC_RECOVERY_REQUIRED"%string)
  else if bool_decide (local_action data = Some "device_reprovision_required"%string) then
    (SyncBlocked, "device_reprovision_required"%string)
  else if bool_decide (local_action data = Some "server_repair_required"%string) then
    (SyncBlocked, "server_repair_required"%string)
  else if code_in code ["sync.snapshot_item_too_large";
                        "sync.snapshot_required_state_too_large"]%string then
    (SyncBlocked, default "SYNC_CAPACITY_EXCEEDED"%string code)
  else if code_in code ["sync.client_upgrade_required"; "sync.invalid_request";
                        "sync.invalid_cursor"]%string then
    (SyncBlocked, default "SYNC_BLOCKED"%string code)
  else if code_in code ["1401"; "anp.device_not_eligible"; "anp.device_state_changed";
                        "SYNC_ACCOUNT_BINDING_MISMATCH"; "sync.device_binding_mismatch";
                        "SYNC_AUTH_GENERATION_MISMATCH"]%string then
    (AuthRevoked, default "AUTH_REVOKED"%string code)
  else (RetryableFailure, default "SYNC_RETRYABLE_FAILURE"%string code).

Definition failure_status (error : ImError) : option (MessageSyncStatus * string) :=
  match error with
  | MessageWireIdentityConflict _ =>
      Some (SyncBlocked, "message_wire_identity_conflict"%string)
  | AuthRequired | SessionExpired | PermissionDenied | IdentityBindingConflict _ =>
      Some (AuthRevoked, "AUTH_REVOKED"%string)
  | Service status_code code _ data => Some (service_failure status_code code data)
  | TransportUnavailable _ | LocalStateUnavailable _ =>
      Some (RetryableFailure, "SYNC_RETRYABLE_FAILURE"%string)
  | _ => None
  end.

Definition failure_warnings (error : ImError) (status : MessageSyncStatus) : list string :=
  match error with
  | TransportUnavailable _ => ["sync.retry.transport_unavailable"%string]
  | LocalStateUnavailable detail =>
      ["sync.retry.local_state_unavailable"%string; local_state_retry_warning detail]
  | Service _ _ _ _ =>
      if bool_decide (status = RetryableFailure) then ["sync.retry.service_unavailable"%string]
      else if bool_decide (status = SyncBlocked) then ["sync.blocked.action_required"%string]
      else []
  | _ =>
      if bool_decide (status = SyncBlocked) then ["sync.blocked.action_required"%string] else []
  end.

Definition failure_outcome (error : ImError) : option Outcome :=
  '(status, code) ← failure_status error;
  Some {|
    so_status := status; so_events_applied := 0; so_pages_fetched := 0;
    so_messages_hydrated := 0; so_duplicates_skipped := 0; so_older_history_excluded := false;
    so_changed_conversation_ids := []; so_committed_incoming_messages := [];
    so_error_code := Some code; so_warnings := failure_warnings error status |}.

(** ** The end of a receive run *)

(** Whether a finished run leaves work behind: paging budget, retryable error. *)
Definition budget_pending (final_result : ImResult Outcome) : bool :=
  match final_result with
  | Ok outcome => bool_decide ("sync.budget_exhausted"%string ∈ so_warnings outcome)
  | Err _ => false
  end.
Definition error_retryable (final_result : ImResult Outcome) : bool :=
  match final_result with
  | Ok _ => false
  | Err error =>
      negb match failure_outcome error with
           | Some outcome =>
               bool_decide (so_status outcome = SyncBlocked)
               || bool_decide (so_status outcome = AuthRevoked)
           | None => false
           end
  end.

(** The end of [receive_run]: record the result under the run's generation.
    [last_result_json] is the rendered report of the result. *)
Definition finish_receive_run (db : Db) (run : MessageSyncRunState)
    (final_result : ImResult Outcome) (last_result_json : string) (now : Z)
    : ImResult (ImResult Outcome * Db) :=
  finish_message_sync_run db
    (mkRunState (rs_owner run) (budget_pending final_result || error_retryable final_result)
       (rs_run_generation run)
       (if error_retryable final_result then Some (i64_saturating_add now 1) else None)
       (Some last_result_json) now)
  ≫= λ finished : bool * Db,
  if finished.1 then Ok (final_result, finished.2)
  else Ok (Err (sync_error "SYNC_RUN_SUPERSEDED" "a newer sync run superseded this result"),
           finished.2).

(** ** Transient transport failures *)

Definition is_transient_sync_io_error (error : ImError) : bool :=
  match error with
  | TransportUnavailable _ => true
  | Service status_code code _ _ =>
      match status_code with
      | Some s => bool_decide (s ∈ [408; 425; 429]) || ((500 <=? s) && (s <=? 599))
      | None => false
      end
      || bool_decide (code = Some "anp.temporarily_unavailable"%string)
  | _ => false
  end.

Definition sync_failure_fingerprint (operation : string) (error : ImError) : string :=
  match error with
  | Service status_code code _ _ =>
      operation +:+ ":service:"
        +:+ match status_code with Some s => u64_to_string s | None => "none" end
        +:+ ":" +:+ default "none"%string code
  | TransportUnavailable _ => operation +:+ ":transport"
  | _ => operation +:+ ":non_transient"
  end.

(** Milliseconds. *)
Definition sync_retry_delay (error : ImError) (failure_count : Z) : Z :=
  let retry_after_seconds :=
    match error with
    | Service _ _ _ (Some data) =>
        match vget data "retry_after_seconds" with
        | Some v => as_u64 v
        | None => vget data "retry_after" ≫= as_u64
        end
    | _ => None
    end in
  match retry_after_seconds with
  | Some seconds => 1000 * Z.min seconds 30
  | None => 100 * 2 ^ Z.min (Z.max 0 (failure_count - 1)) 8
  end.

(** ** Hydration *)

(** [slice::chunks] *)
Fixpoint chunks_from {A} (n room : nat) (cur l : list A) : list (list A) :=
  match l with
  | [] => match cur with [] => [] | _ => [reverse cur] end
  | x :: l =>
      match room with
      | S (S room) => chunks_from n (S room) (x :: cur) l
      | _ => reverse (x :: cur) :: chunks_from n n [] l
      end
  end.
Definition chunks {A} (n : nat) (l : list A) : list (list A) := chunks_from n n [] l.

Definition MESSAGE_GET_BATCH_CLIENT_CHUNK_EVENT_IDS : nat := 8.
Definition hydration_event_id_batches (event_ids : list string) : list (list string) :=
  chunks MESSAGE_GET_BATCH_CLIENT_CHUNK_EVENT_IDS event_ids.

Definition MAX_FAILURES : Z := 3.

Section transport.
Context {World : Type} (rpc : World → string → Value → ImResult Value * World).
Context (sleep : World → Z → World) (stamp : World → Stamp).

(** The failures counted in this run, by fingerprint ([u8], saturating). *)
Notation Budget := (gmap string Z).
Definition count_failure (budget : Budget) (fingerprint : string) : Z :=
  Z.min 255 (default 0 (budget !! fingerprint) + 1).

(** The retry loop of one request; [None] when the fuel runs out. *)
Fixpoint get_batch (fuel : nat) (w : World) (budget : Budget) (params : Value)
    : option (ImResult Value * Budget * World) :=
  match fuel with
  | O => None
  | S fuel =>
      let '(response, w) := rpc w "message.get_batch" params in
      match response with
      | Ok raw => Some (Ok raw, budget, w)
      | Err error =>
          if is_transient_sync_io_error error then
            let fingerprint := sync_failure_fingerprint "message.get_batch" error in
            let failures := count_failure budget fingerprint in
            let budget := <[fingerprint := failures]> budget in
            if MAX_FAILURES <=? failures then Some (Err error, budget, w)
            else get_batch fuel (sleep w (sync_retry_delay error failures)) budget params
          else Some (Err error, budget, w)
      end
  end.

(** Adding the items of a batch; an event may not come twice. *)
Definition add_hydrated (hydrated : gmap string Value) (item : HydratedMessageV2)
    : ImResult (gmap string Value) :=
  match hydrated !! hm_event_id item with
  | Some _ => invalid_page "message.get_batch returned a duplicate event across chunks"
  | None => Ok (<[hm_event_id item := hm_message item]> hydrated)
  end.

Definition u32_saturating_add (a b : Z) : Z := Z.min u32_max (a + b).

(** What a batch response adds to the hydrated messages. *)
Definition accept_batch (event_ids : list string) (acc : gmap string Value * Z) (raw : Value)
    : ImResult (gmap string Value * Z) :=
  batch ← parse_message_batch raw event_ids;
  if negb (length (mb_unavailable batch) =? 0)%nat then
    Err (sync_error "SYNC_HYDRATION_INCOMPLETE"
           "one or more required ordinary messages are unavailable")
  else
    let count := u32_saturating_add acc.2
      (Z.min u32_max (Z.of_nat (length (mb_items batch)))) in
    hydrated ← try_fold add_hydrated acc.1 (mb_items batch);
    Ok (hydrated, count).

Fixpoint hydrate_batches (fuel : nat) (identity_did : string) (batches : list (list string))
    (w : World) (budget : Budget) (acc : gmap string Value * Z)
    : option (ImResult (gmap string Value * Z) * Budget * World) :=
  match batches with
  | [] => Some (Ok acc, budget, w)
  | event_ids :: batches =>
      match build_message_get_batch_params (stamp w) identity_did event_ids with
      | Err e => Some (Err e, budget, w)
      | Ok params =>
          '(response, budget, w) ← get_batch fuel w budget params;
          match response ≫= accept_batch event_ids acc with
          | Err e => Some (Err e, budget, w)
          | Ok acc => hydrate_batches fuel identity_did batches w budget acc
          end
      end
  end.

Definition hydrate_required_messages_with_budget (fuel : nat) (identity_did : string)
    (message_event_ids : list string) (budget : Budget) (w : World)
    : option (ImResult (gmap string Value * Z) * Budget * World) :=
  hydrate_batches fuel identity_did (hydration_event_id_batches message_event_ids) w budget (∅, 0).
End transport.
End failure.
