(* ===== verification/Delta.v ===== *)
(** * Receiving a delta page

    [message_runtime/sync_v2.rs]: what a sync run does with one [sync.delta]
    response. The page is checked against the account binding and the local
    cursor, its secure-lane sections are handed to the lane store event by event,
    its required messages are hydrated, and its ordinary events are committed to
    the receive queue together with the next cursor.

    Every handoff commits on its own, so an error of a later one leaves the
    earlier ones in place: the run is a state-and-error computation [RunM] whose
    state survives an error. The strict P6 wire parsers belong to the [anp] crate
    and are operations of the class [AnpGroup]. *)

From stdpp Require Import gmap.
From S2P Require Import Prelude RustStr ImError Effects Decimal Dto Store SyncStore Inbox Lanes Wire Snapshot Recovery Failure.
Local Open Scope Z_scope.

(** ** Binding checks *)

Definition stored_binding (handle_scope : option string) (binding : ActiveSyncAccountBinding)
    (now : Z) : IdentityAccountBinding :=
  mkBinding (ab_owner binding) (ab_account binding) handle_scope (ab_current_did binding)
    (ab_device binding) (ab_identity_generation binding) (ab_auth_generation binding) now now.

Definition check_page_event (page : SyncDeltaPageV2) (binding : ActiveSyncAccountBinding)
    (state : MessageSyncState) (event : SyncEventV2) : ImResult unit :=
  if negb (bool_decide (se_account_id event = ab_account binding))
     || negb (bool_decide (se_stream_epoch event = ms_stream_epoch state)) then
    Err (sync_error "SYNC_ACCOUNT_BINDING_MISMATCH"
           "sync event does not match the active account stream")
  else if match se_recipient_device_id event with
          | Some device => negb (bool_decide (device = ab_device binding))
          | None => false
          end then
    Err (sync_error "SYNC_DEVICE_BINDING_MISMATCH" "sync event targets another device")
  else
    order ← compare_decimal (se_event_seq event) (cu_scan_seq (dp_next_cursor page));
    if bool_decide (order = Gt) then invalid_page "visible event is ahead of next cursor"
    else Ok ().

Definition validate_page_binding (page : SyncDeltaPageV2) (binding : ActiveSyncAccountBinding)
    (state : MessageSyncState) : ImResult unit :=
  if negb (bool_decide (cu_stream_epoch (dp_next_cursor page) = ms_stream_epoch state)) then
    Err (sync_error "SYNC_CURSOR_EPOCH_MISMATCH"
           "sync.delta response changed stream epoch without controlled recovery")
  else
    order ← compare_decimal (cu_scan_seq (dp_next_cursor page)) (ms_scan_seq state);
    if bool_decide (order = Lt) then
      Err (sync_error "SYNC_CURSOR_REGRESSION" "sync.delta response cursor moved backwards")
    else try_each (check_page_event page binding state) (dp_events page).

(** ** System notifications *)

Definition is_fingerprint_char (a : Ascii.ascii) : bool :=
  let b := byte_of a in
  is_ascii_digit a || ((65 <=? b) && (b <=? 90)) || ((97 <=? b) && (b <=? 122))
  || (b =? 45) || (b =? 95).

(** The local part after a prefix. *)
Definition strip_prefix (s p : string) : option string :=
  if starts_with s p then Some (String.substring (String.length p) (String.length s - String.length p) s)
  else None.

Definition payload_string (payload : Obj) (field : string) : ImResult string :=
  let message := ("system.notification payload " +:+ field +:+ " must be canonical")%string in
  match assoc field payload ≫= as_str with
  | Some s =>
      if negb (is_empty s) && bool_decide (trim s = s) then Ok s else invalid_page message
  | None => invalid_page message
  end.

Definition exactly (m : Obj) (fields : list string) : bool :=
  (length m =? length fields)%nat && forallb (contains_key m) fields.

Definition check_notification_payload (binding : ActiveSyncAccountBinding) (event : SyncEventV2)
    (payload : Obj) : ImResult string :=
  if negb (exactly payload ["projection_kind"; "event_id"; "message_id"]%string) then
    invalid_page "system.notification payload must contain exactly the frozen fields"
  else
    kind ← payload_string payload "projection_kind";
    if negb (bool_decide (kind = "system_notification"%string)) then
      invalid_page "system.notification payload projection_kind is invalid"
    else
      notification_event_id ← payload_string payload "event_id";
      message_id ← payload_string payload "message_id";
      if negb (bool_decide (notification_event_id = message_id))
         || negb (bool_decide (se_aggregate_id event = notification_event_id)) then
        invalid_page "system.notification business identifiers do not match"
      else if negb (bool_decide (se_event_id event =
                 ("system.notification:" +:+ notification_event_id +:+ ":" +:+ ab_device binding)%string))
      then invalid_page "system.notification sync event_id is not exact-device qualified"
      else Ok message_id.

(** [service_did] is the configured service DID, or [did:wba:] with the client's
    domain. *)
Definition check_notification_origin (service_did : string) (event : SyncEventV2) : ImResult unit :=
  origin_did ← or_invalid (se_origin_did event)
    "system.notification is missing its service origin DID";
  fingerprint ← or_invalid
    (strip_prefix origin_did (service_did +:+ ":agents:system-notification:e1_"))
    "system.notification origin is not the local service notification Agent";
  if negb (String.length fingerprint =? 43)%nat
     || negb (forallb is_fingerprint_char (bytes fingerprint)) then
    invalid_page "system.notification origin has an invalid e1 fingerprint"
  else Ok ().

Definition validate_system_notification_event_contract (service_did : string)
    (binding : ActiveSyncAccountBinding) (event : SyncEventV2) : ImResult unit :=
  if negb (se_schema_version event =? 1) then
    Err (sync_error "SYNC_SCHEMA_UNSUPPORTED"
           ("required system.notification uses unsupported schema version "
              +:+ u64_to_string (se_schema_version event)))
  else if se_ignore_safe event then
    invalid_page "required system.notification must not be marked ignore_safe"
  else if negb (bool_decide (se_aggregate_kind event = "system_notification"%string))
          || bool_decide (is_Some (se_state_version event))
          || bool_decide (is_Some (se_thread_key event))
          || bool_decide (is_Some (se_origin_device_id event)) then
    invalid_page "system.notification envelope fields violate the frozen schema"
  else if negb (bool_decide (se_recipient_device_id event = Some (ab_device binding))) then
    Err (sync_error "SYNC_DEVICE_BINDING_MISMATCH"
           "system.notification must target the active exact device")
  else
    _ ← check_notification_origin service_did event;
    payload ← or_invalid (as_object (se_payload event))
      "system.notification payload must be an object";
    message_id ← check_notification_payload binding event payload;
    source ← or_invalid (se_source event ≫= as_object)
      "system.notification source must be an object";
    if negb (exactly source ["method"; "operation_id"; "client_message_id"]%string)
       || negb (bool_decide (assoc "method" source ≫= as_str = Some "direct.send"%string))
       || negb (bool_decide (assoc "operation_id" source ≫= as_str = Some message_id))
       || negb (bool_decide (assoc "client_message_id" source ≫= as_str = Some message_id)) then
      invalid_page "system.notification source violates the frozen service binding"
    else Ok ().

Definition hydration_incomplete {A} (message : string) : ImResult A :=
  Err (sync_error "SYNC_HYDRATION_INCOMPLETE" message).

(** The event's identifiers were validated before, so the [expect]s of the source
    read them. *)
Definition validate_system_notification_hydration (binding : ActiveSyncAccountBinding)
    (event : SyncEventV2) (projection : Value) : ImResult unit :=
  match as_object projection with
  | None => hydration_incomplete "system.notification hydration must be an object"
  | Some wrapper =>
      if negb (exactly wrapper ["projection_kind"; "meta"; "auth"; "body"]%string)
         || negb (is_trusted_delivery_marker projection) then
        hydration_incomplete
          "system.notification hydration must be the exact trusted projection wrapper"
      else
        match assoc "meta" wrapper ≫= as_object with
        | None => hydration_incomplete "system.notification trusted projection meta is missing"
        | Some meta =>
            let message_id := vget (se_payload event) "message_id" ≫= as_str in
            if negb (bool_decide (assoc "message_id" meta ≫= as_str = message_id))
               || negb (bool_decide (assoc "operation_id" meta ≫= as_str = message_id))
               || negb (bool_decide (assoc "sender_did" meta ≫= as_str = se_origin_did event))
               || negb (bool_decide (((assoc "target" meta ≫= as_object) ≫= assoc "did") ≫= as_str
                                       = Some (ab_current_did binding))) then
              invalid_page
                "system.notification hydrated projection conflicts with its sync envelope"
            else Ok ()
        end
  end.

(** ** The queue records of a page *)

Definition is_notification (event : SyncEventV2) : bool :=
  bool_decide (se_event_type event = "system.notification"%string).
Definition needs_hydration (event : SyncEventV2) : bool :=
  bool_decide (se_event_type event ∈ ["message.created"; "system.notification"]%string).

Definition hydration_event_ids (events : list SyncEventV2) : list string :=
  se_event_id <$> filter (λ e, needs_hydration e = true) events.

(** [json!({"event": .., "hydrated": .., "server_time": .., "source": ..})] *)
Definition inbox_event (hydrated : option Value) (server_time source : string)
    (event : SyncEventV2) : InboxEvent :=
  mkInboxEvent (se_event_id event) (se_event_seq event) (se_event_type event)
    (VObject [("event", event_to_value event); ("hydrated", default VNull hydrated);
              ("server_time", VString server_time); ("source", VString source)]%string)
    (default (se_aggregate_id event) (se_thread_key event))
    (if bool_decide (se_aggregate_kind event = "group"%string)
     then Some (se_aggregate_id event) else None).

Definition page_event (hydrated : gmap string Value) (page : SyncDeltaPageV2)
    (event : SyncEventV2) : InboxEvent :=
  inbox_event (hydrated !! se_event_id event) (dp_server_time page) "live_delta" event.

Definition receive_batch (binding : IdentityAccountBinding) (client_instance_id : string)
    (run_generation : Z) (scan_seq : string) (hydrated : gmap string Value)
    (page : SyncDeltaPageV2) : OrdinaryReceiveBatch :=
  mkBatch binding client_instance_id (Some run_generation)
    (cu_stream_epoch (dp_next_cursor page)) scan_seq (cu_scan_seq (dp_next_cursor page))
    (dp_server_time page)
    (page_event hydrated page <$> dp_events page).

Definition check_notification_hydration (binding : ActiveSyncAccountBinding)
    (hydrated : gmap string Value) (event : SyncEventV2) : ImResult unit :=
  match hydrated !! se_event_id event with
  | None => hydration_incomplete "system notification hydration is missing"
  | Some projection => validate_system_notification_hydration binding event projection
  end.

(** The ordinary half of a page, after hydration: validate the notifications and
    commit the events behind the next cursor. *)
Definition receive_page `{QueueCodec} (db : Db) (handle_scope : option string)
    (binding : ActiveSyncAccountBinding) (client_instance_id : string) (run_generation : Z)
    (state : MessageSyncState) (hydrated : gmap string Value) (page : SyncDeltaPageV2)
    (bound_at now : Z) : ImResult (ReceiveOutcome * Db) :=
  _ ← try_each (check_notification_hydration binding hydrated)
        (filter (λ e, is_notification e = true) (dp_events page));
  receive_ordinary db
    (receive_batch (stored_binding handle_scope binding bound_at) client_instance_id run_generation
       (ms_scan_seq state) hydrated page) now.

(** ** Secure-lane sections *)

Class AnpGroup := {
  METHOD_GROUP_INCOMING_V2 : string;
  METHOD_GROUP_NOTICE_V2 : string;
  (** [parse_group_incoming_notification_v2(..).is_ok()] *)
  parses_group_incoming : Value → bool;
  (** [parse_group_notice_notification_v2(..).is_ok()] *)
  parses_group_notice : Value → bool }.

Section strict.
Context `{AnpGroup}.

(** [notice_meta_value] and [notice_body_value] of [group_e2ee/v2_notice.rs]. *)
Definition notice_part (k : string) (value : Value) : option Value :=
  match vget value k with
  | Some v => Some v
  | None => pointer value ["params"%string; k]
  end.

Definition parse_notice_object (m : Obj) : bool :=
  if contains_key m "method" then parses_group_notice (VObject m)
  else
    match notice_part "meta" (VObject m), notice_part "body" (VObject m) with
    | Some meta, Some body =>
        parses_group_notice
          (VObject [("method", VString METHOD_GROUP_NOTICE_V2);
                    ("params", VObject [("meta", meta); ("body", body)])]%string)
    | _, _ => false
    end.

(** [group_e2ee::v2_notice::parse_notice(..).is_ok()] *)
Definition parse_notice (value : Value) : bool :=
  match as_object value with
  | None => false
  | Some m =>
      match assoc "jsonrpc" m with
      | Some v =>
          bool_decide (as_str v = Some "2.0"%string)
          && parse_notice_object (remove_key "jsonrpc" m)
      | None => parse_notice_object m
      end
  end.

Definition nonconformant {A} (message : string) : ImResult A :=
  Err (sync_error "SYNC_P6_NONCONFORMANT" message).

Definition validate_strict_p6_lane_wire (event : SyncLaneEventV3) : ImResult unit :=
  match event with
  | P6Delivery _ _ _ _ envelope =>
      match vget envelope "meta", vget envelope "auth", vget envelope "body" with
      | None, _, _ => nonconformant "P6 delivery meta is missing"
      | Some _, None, _ => nonconformant "P6 delivery auth is missing"
      | Some _, Some _, None => nonconformant "P6 delivery body is missing"
      | Some meta, Some auth, Some body =>
          if parses_group_incoming
               (VObject [("method", VString METHOD_GROUP_INCOMING_V2);
                         ("params", VObject [("meta", meta); ("auth", auth); ("body", body)])]%string)
          then Ok ()
          else nonconformant "P6 delivery does not satisfy the strict live-wire contract"
      end
  | P6ControlNotice _ _ _ notice =>
      if parse_notice notice then Ok ()
      else nonconformant "P6 notice does not satisfy the strict live-wire contract"
  | P5Delivery _ _ _ => nonconformant "P6 lane contains a P5 delivery"
  end.
End strict.

(** The first of the pointers that holds non-blank text, trimmed. *)
Definition optional_wire_time (payload : Value) (paths : list (list string)) : option string :=
  head (omap (λ path,
    s ← pointer payload path ≫= as_str;
    if is_empty (trim s) then None else Some (trim s)) paths).

Definition lane_handoff_input_from_wire (binding : ActiveSyncAccountBinding)
    (client_instance_id lane_epoch : string) (event : SyncLaneEventV3) (received_at : string)
    : SyncLaneHandoffInput :=
  let make lane position event_id event_type payload group_did :=
    mkHandoff (ab_owner binding) (ab_account binding) (ab_device binding)
      (ab_auth_generation binding) client_instance_id lane lane_epoch position event_id event_type
      payload group_did received_at
      (optional_wire_time payload [["meta"; "created_at"]]%string)
      (optional_wire_time payload [["meta"; "expires_at"]; ["body"; "expires_at"]]%string) in
  match event with
  | P5Delivery delivery_id seq envelope =>
      make P5Device seq delivery_id "p5.delivery.created"%string envelope None
  | P6Delivery delivery_id seq group_did _ envelope =>
      make P6Group seq delivery_id "p6.delivery.created"%string envelope (Some group_did)
  | P6ControlNotice notice_id seq group_did notice =>
      make P6Group seq notice_id "p6.control.notice"%string notice (Some group_did)
  end.

Definition validate_lane_page_progress (current : LaneSyncState) (events : list SyncLaneEventV3)
    (next_cursor : SyncCursorV2) : ImResult unit :=
  let expected_next :=
    match last events with Some e => lane_event_seq e | None => ln_scan_seq current end in
  if negb (bool_decide (expected_next = cu_scan_seq next_cursor)) then
    invalid_page "lane next cursor must equal the last returned event sequence"
  else if match head events with
          | Some event =>
              match compare_decimal (lane_event_seq event) (ln_scan_seq current) with
              | Ok order => negb (bool_decide (order = Gt))
              | Err _ => true
              end
          | None => false
          end then
    invalid_page "lane events must be strictly ahead of the requested cursor"
  else Ok ().

(** What the lanes of a run work on. [ru_readings] counts clock readings. *)
Record LaneRun := mkLaneRun {
  ru_db : LaneDb;
  ru_readings : nat;
  ru_states : gmap SyncLaneV3 LaneSyncState;
  ru_blocked : gset SyncLaneV3;
  ru_attempted : gset SyncLaneV3;
  ru_recover : gset SyncLaneV3;
  ru_applied : Z;
  ru_duplicates : Z;
  ru_warnings : list string;
  ru_has_more : bool }.

Definition push_warning (w : string) (s : LaneRun) : LaneRun :=
  mkLaneRun (ru_db s) (ru_readings s) (ru_states s) (ru_blocked s) (ru_attempted s)
    (ru_recover s) (ru_applied s) (ru_duplicates s) (ru_warnings s ++ [w]) (ru_has_more s).
Definition block_lane (lane : SyncLaneV3) (s : LaneRun) : LaneRun :=
  mkLaneRun (ru_db s) (ru_readings s) (ru_states s) ({[lane]} ∪ ru_blocked s) (ru_attempted s)
    (ru_recover s) (ru_applied s) (ru_duplicates s) (ru_warnings s) (ru_has_more s).
Definition ask_recovery (lane : SyncLaneV3) (s : LaneRun) : LaneRun :=
  mkLaneRun (ru_db s) (ru_readings s) (ru_states s) (ru_blocked s) ({[lane]} ∪ ru_attempted s)
    ({[lane]} ∪ ru_recover s) (ru_applied s) (ru_duplicates s) (ru_warnings s) (ru_has_more s).
Definition handed (db : LaneDb) (outcome : SyncLaneHandoffOutcome) (s : LaneRun) : LaneRun :=
  mkLaneRun db (ru_readings s + 3) (ru_states s) (ru_blocked s) (ru_attempted s) (ru_recover s)
    (match outcome with Inserted => u32_saturating_add (ru_applied s) 1 | Duplicate => ru_applied s end)
    (match outcome with Duplicate => u32_saturating_add (ru_duplicates s) 1 | Inserted => ru_duplicates s end)
    (ru_warnings s) (ru_has_more s).
Definition set_lane_state (lane : SyncLaneV3) (state : LaneSyncState) (s : LaneRun) : LaneRun :=
  mkLaneRun (ru_db s) (ru_readings s) (<[lane := state]> (ru_states s)) (ru_blocked s)
    (ru_attempted s) (ru_recover s) (ru_applied s) (ru_duplicates s) (ru_warnings s)
    (ru_has_more s).
Definition or_more (b : bool) (s : LaneRun) : LaneRun :=
  mkLaneRun (ru_db s) (ru_readings s) (ru_states s) (ru_blocked s) (ru_attempted s)
    (ru_recover s) (ru_applied s) (ru_duplicates s) (ru_warnings s) (ru_has_more s || b).

Definition lane_warning (lane : SyncLaneV3) (what : string) : string :=
  "sync.lane." +:+ lane_as_str lane +:+ "." +:+ what.

Definition block_with (lane : SyncLaneV3) (what : string) : RunM LaneRun unit :=
  modify (λ s, block_lane lane (push_warning (lane_warning lane what) s)).

Definition event_matches_lane (lane : SyncLaneV3) (event : SyncLaneEventV3) : bool :=
  match lane, event with
  | P5Device, P5Delivery _ _ _ | P6Group, P6Delivery _ _ _ _ _ | P6Group, P6ControlNotice _ _ _ _ => true
  | _, _ => false
  end.

Section lanes.
Context `{QueueCodec, AnpGroup}.
Context (clock : nat → Z).
Variable binding : ActiveSyncAccountBinding.
Variable client_instance_id : string.
(** The time a page of a lane is taken at. *)
Variable received_at : SyncLaneV3 → string.

(** One event of a lane page; [true] stops the lane. *)
Definition hand_off_event (lane : SyncLaneV3) (epoch : string) (event : SyncLaneEventV3)
    : RunM LaneRun bool :=
  if negb (event_matches_lane lane event)
     || (bool_decide (lane = P6Group) && negb (is_ok (validate_strict_p6_lane_wire event))) then
    _ ← block_with lane "transport_invalid"; mret true
  else λ s,
    let input := lane_handoff_input_from_wire binding client_instance_id epoch event (received_at lane) in
    match commit_sync_lane_handoff (ru_db s) input (λ i, clock (ru_readings s + i)%nat) with
    | Ok (outcome, db) => (Ok false, handed db outcome s)
    | Err e =>
        if bool_decide (error_code e = Some "LANE_STORAGE_PRESSURE"%string) then
          (_ ← block_with lane "lane_storage_pressure"; mret true) s
        else if bool_decide (error_code e = Some "LANE_INPUT_CONFLICT"%string) then
          (_ ← block_with lane "lane_input_conflict"; mret true) s
        else (Err e, s)
    end.

Fixpoint hand_off_events (lane : SyncLaneV3) (epoch : string) (events : list SyncLaneEventV3)
    : RunM LaneRun bool :=
  match events with
  | [] => mret false
  | event :: events =>
      failed ← hand_off_event lane epoch event;
      if (failed : bool) then mret true else hand_off_events lane epoch events
  end.

Definition bootstrap_required {A} (message : string) : ImResult A :=
  Err (sync_error "SYNC_LANE_BOOTSTRAP_REQUIRED" message).

Definition cursor_conflicts (current : LaneSyncState) (next_cursor : SyncCursorV2) : ImResult bool :=
  if negb (bool_decide (ln_stream_epoch current = cu_stream_epoch next_cursor)) then Ok true
  else order ← compare_decimal (cu_scan_seq next_cursor) (ln_scan_seq current);
       Ok (bool_decide (order = Lt)).

Definition apply_lane_page (lane : SyncLaneV3) (events : list SyncLaneEventV3)
    (next_cursor : SyncCursorV2) (has_more : bool) : RunM LaneRun unit :=
  states ← gets ru_states;
  match states !! lane with
  | None => lift (bootstrap_required "requested lane has no local bootstrap state")
  | Some current =>
      conflict ← lift (cursor_conflicts current next_cursor);
      if (conflict : bool) then
        lift (invalid_page "lane next cursor conflicts with the local checkpoint")
      else
        _ ← lift (validate_lane_page_progress current events next_cursor);
        failed ← hand_off_events lane (ln_stream_epoch current) events;
        if (failed : bool) then mret ()
        else
          let next := mkLaneState (ab_owner binding) lane (cu_stream_epoch next_cursor)
                        (cu_scan_seq next_cursor) (cu_scan_seq next_cursor) in
          _ ← modify (set_lane_state lane next);
          if has_more && bool_decide (ln_scan_seq current = cu_scan_seq next_cursor) then
            lift (invalid_page "lane returned has_more without cursor progress")
          else modify (or_more has_more)
  end.

Definition recoverable (lane : SyncLaneV3) (error : SyncLaneErrorV3) : bool :=
  match lane with
  | P5Device => bool_decide (le_anp_code error = "p5_device_recovery_required"%string)
  | P6Group => bool_decide (le_anp_code error = "p6_group_recovery_required"%string)
  end.

Definition apply_lane_section (requested : gset SyncLaneV3)
    (sections : gmap SyncLaneV3 SyncLaneDeltaSectionV3) (lane : SyncLaneV3) : RunM LaneRun unit :=
  match sections !! lane with
  | None => mret ()
  | Some section =>
      if negb (bool_decide (lane ∈ requested)) then
        modify (push_warning (lane_warning lane "unrequested"))
      else
        match section with
        | TransportInvalid => block_with lane "transport_invalid"
        | LaneError error =>
            attempted ← gets ru_attempted;
            if recoverable lane error && negb (bool_decide (lane ∈ attempted)) then
              modify (ask_recovery lane)
            else block_with lane (le_anp_code error)
        | Page events next_cursor has_more => apply_lane_page lane events next_cursor has_more
        end
  end.

(** [apply_lane_delta_sections], up to the renegotiation that follows it. *)
Definition apply_lane_delta_sections (sections : gmap SyncLaneV3 SyncLaneDeltaSectionV3)
    (transport_invalid : bool) (requested : gset SyncLaneV3) : RunM LaneRun unit :=
  _ ← (if transport_invalid then modify (push_warning "sync.lane.transport_invalid") else mret ());
  _ ← run_each (λ lane,
        if bool_decide (lane ∈ requested) && negb (bool_decide (is_Some (sections !! lane)))
        then block_with lane "missing" else mret ()) [P5Device; P6Group];
  run_each (apply_lane_section requested sections) [P5Device; P6Group].
End lanes.
