(* ===== verification/DeltaProps.v ===== *)
(** * From the wire to the queue

    A page that the parser and the binding checks admit, once hydrated, is
    refused by the receive queue only for a conflict with what is stored. Lane
    pages keep the run's view of a lane and its durable cursor together. *)

From stdpp Require Import gmap.
From S2P Require Import Prelude RustStr ImError Effects Decimal Dto Store SyncStore Inbox InboxProps Lanes LaneProps Wire Snapshot WireProps Recovery Failure Delta.
Local Open Scope Z_scope.

(** ** Hydration covers what was asked for *)

Lemma chunks_from_concat {A} n room (cur l : list A) :
  concat (chunks_from n room cur l) = reverse cur ++ l.
Proof.
  revert room cur. induction l as [|x l IH]; intros room cur; simpl.
  - by destruct cur.
  - destruct room as [|[|room]]; simpl; rewrite IH, reverse_cons, <-app_assoc; done.
Qed.

Lemma hydration_batches_concat ids : concat (hydration_event_id_batches ids) = ids.
Proof. apply chunks_from_concat. Qed.

Lemma add_hydrated_fold items h h' :
  try_fold add_hydrated h items = Ok h' →
  (∀ id v, h' !! id = Some v →
     h !! id = Some v ∨ ∃ x, x ∈ items ∧ id = hm_event_id x ∧ v = hm_message x) ∧
  (∀ id, is_Some (h' !! id) ↔ is_Some (h !! id) ∨ id ∈ (hm_event_id <$> items)).
Proof.
  revert h. induction items as [|x items IH]; intros h Hf; simpl in Hf.
  { injection Hf as <-. split; [naive_solver|]. intros id. simpl. rewrite elem_of_nil. naive_solver. }
  apply bind_Ok in Hf as (h1 & Hx & Hf). unfold add_hydrated in Hx.
  destruct (h !! hm_event_id x) eqn:E; [done|]. injection Hx as <-.
  apply IH in Hf as [Hv Hd]. split.
  - intros id v [Hl|(y & Hy & -> & ->)]%Hv.
    + apply lookup_insert_Some in Hl as [[<- <-]|[_ Hl]]; [|by left].
      right. exists x. split; [by left|done].
    + right. exists y. split; [by right|done].
  - intros id. rewrite Hd, fmap_cons, elem_of_cons, lookup_insert_is_Some.
    destruct (decide (hm_event_id x = id)); naive_solver.
Qed.

(** The messages held are plain, and exactly those of the events asked for. *)
Definition hydrated_exactly (ids : list string) (h : gmap string Value) : Prop :=
  (∀ id, is_Some (h !! id) ↔ id ∈ ids) ∧ ∀ id v, h !! id = Some v → plain_value v.

Lemma accept_batch_Ok ids done h n raw h' n' :
  hydrated_exactly done h → accept_batch ids (h, n) raw = Ok (h', n') →
  hydrated_exactly (done ++ ids) h'.
Proof.
  intros [Hd Hp]. unfold accept_batch. intros (b & [_ Hb]%parse_message_batch_Ok & Hr)%bind_Ok.
  destruct Hb as [Hcover _ _ Hplain]. destruct (negb _) eqn:Hun; [done|].
  apply negb_false_iff, Nat.eqb_eq, length_zero_iff_nil in Hun. rewrite Hun, app_nil_r in Hcover.
  cbv zeta in Hr. apply bind_Ok in Hr as (h1 & [Hv Hi]%add_hydrated_fold & [= <- <-]).
  simpl in *. split.
  - intros id. rewrite Hi, Hd, elem_of_app, Hcover. done.
  - intros id v [Hl|(x & Hx & -> & ->)]%Hv; [by eapply Hp|].
    rewrite Forall_forall in Hplain. by apply Hplain.
Qed.

Section hydrate.
Context {World : Type} (rpc : World → string → Value → ImResult Value * World).
Context (sleep : World → Z → World) (stamp : World → Stamp).
Notation hydrate := (hydrate_required_messages_with_budget rpc sleep stamp).

Lemma hydrate_batches_Ok fuel did batches w budget done acc r budget' w' :
  hydrated_exactly done acc.1 →
  hydrate_batches rpc sleep stamp fuel did batches w budget acc = Some (Ok r, budget', w') →
  hydrated_exactly (done ++ concat batches) r.1.
Proof.
  revert w budget done acc. induction batches as [|ids batches IH]; intros w budget done acc Ha; simpl.
  { intros [= <- <- <-]. by rewrite app_nil_r. }
  destruct (build_message_get_batch_params _ _ _) as [params|e]; [|done].
  destruct (get_batch rpc sleep fuel w budget params) as [[[resp b1] w1]|]; [|done]. simpl.
  destruct (resp ≫= accept_batch ids acc) as [acc'|e] eqn:E; [|done].
  apply bind_Ok in E as (raw & _ & E). destruct acc as [h n], acc' as [h' n'].
  intros Hr. rewrite app_assoc. eapply (IH w1 b1 (done ++ ids) (h', n')); [|exact Hr].
  by eapply accept_batch_Ok.
Qed.

Lemma hydrate_Ok fuel did ids budget w h n budget' w' :
  hydrate fuel did ids budget w = Some (Ok (h, n), budget', w') → hydrated_exactly ids h.
Proof.
  intros Hr. unfold hydrate_required_messages_with_budget in Hr.
  apply (hydrate_batches_Ok _ _ _ _ _ []) in Hr.
  - by rewrite app_nil_l, hydration_batches_concat in Hr.
  - split; [|intros ? ? Hl; simpl in Hl; by rewrite lookup_empty in Hl]. intros id. simpl.
    rewrite lookup_empty, elem_of_nil. split; [by intros []|done].
Qed.
End hydrate.

(** ** Hydration gives up *)

(** Retries left for the failures of [K]: two each. *)
Definition retries_left (budget : gmap string Z) (f : string) : nat :=
  Z.to_nat (2 - default 0 (budget !! f)).
Definition allowance (K : list string) (budget : gmap string Z) : nat :=
  sum_list_with (retries_left budget) K.
Definition budget_wf (budget : gmap string Z) : Prop := ∀ f n, budget !! f = Some n → 0 ≤ n.

Lemma allowance_count K budget f :
  budget_wf budget → f ∈ K → count_failure budget f < MAX_FAILURES →
  (allowance K (<[f := count_failure budget f]> budget) < allowance K budget)%nat.
Proof.
  intros Hw Hf Hlt. set (b' := <[f := count_failure budget f]> budget).
  assert (0 ≤ default 0 (budget !! f)) as Hge.
  { destruct (budget !! f) eqn:E; simpl; [by eapply Hw|lia]. }
  assert (retries_left b' f < retries_left budget f)%nat as Hone.
  { unfold retries_left, b'. rewrite lookup_insert_eq. simpl.
    unfold count_failure, MAX_FAILURES in *. lia. }
  assert (∀ g, retries_left b' g ≤ retries_left budget g)%nat as Hall.
  { intros g. destruct (decide (f = g)) as [<-|Hne]; [lia|].
    unfold retries_left, b'. by rewrite lookup_insert_ne. }
  clearbody b'. unfold allowance. induction K as [|g K IH]; [by apply elem_of_nil in Hf|].
  simpl. pose proof (Hall g). apply elem_of_cons in Hf as [<-|Hf].
  - assert (sum_list_with (retries_left b') K ≤ sum_list_with (retries_left budget) K)%nat; [|lia].
    clear -Hall. induction K as [|h K IH]; simpl; [lia|]. specialize (Hall h). lia.
  - specialize (IH Hf). lia.
Qed.

Lemma budget_wf_count budget f : budget_wf budget → budget_wf (<[f := count_failure budget f]> budget).
Proof.
  intros Hw g n [[<- <-]|[_ Hl]]%lookup_insert_Some; [|by eapply Hw].
  unfold count_failure. destruct (budget !! f) eqn:E; simpl; [apply Hw in E|]; lia.
Qed.

Section giving_up.
Context {World : Type} (rpc : World → string → Value → ImResult Value * World).
Context (sleep : World → Z → World) (stamp : World → Stamp).
(** The transient failures of this server have the fingerprints [K]. *)
Variable K : list string.
Hypothesis fingerprints : ∀ w params e w', rpc w "message.get_batch" params = (Err e, w') →
  is_transient_sync_io_error e = true → sync_failure_fingerprint "message.get_batch" e ∈ K.

Lemma get_batch_total fuel w budget params :
  budget_wf budget → (allowance K budget < fuel)%nat →
  ∃ r budget' w', get_batch rpc sleep fuel w budget params = Some (r, budget', w') ∧
    budget_wf budget' ∧ ((allowance K budget' ≤ allowance K budget)%nat ∨ is_ok r = false).
Proof using fingerprints.
  revert w budget. induction fuel as [|fuel IH]; intros w budget Hw Hf; [lia|]. simpl.
  destruct (rpc w "message.get_batch" params) as [[raw|e] w1] eqn:Hr.
  { eexists _, _, _. split; [done|]. split; [done|]. left. lia. }
  destruct (is_transient_sync_io_error e) eqn:Ht.
  2:{ eexists _, _, _. split; [done|]. split; [done|]. by right. }
  destruct (MAX_FAILURES <=? _) eqn:Hm.
  { eexists _, _, _. split; [done|]. split; [by apply budget_wf_count|by right]. }
  apply Z.leb_gt in Hm.
  pose proof (allowance_count K budget _ Hw (fingerprints _ _ _ _ Hr Ht) Hm) as Hlt.
  set (f := sync_failure_fingerprint "message.get_batch" e) in *.
  destruct (IH (sleep w1 (sync_retry_delay e (count_failure budget f)))
    (<[f := count_failure budget f]> budget)) as (r & b' & w' & E & Hb & Hle);
    [by apply budget_wf_count|lia|].
  exists r, b', w'. split; [exact E|]. split; [done|]. destruct Hle; [left; lia|by right].
Qed.

Lemma hydrate_batches_total fuel did batches w budget acc :
  budget_wf budget → (allowance K budget < fuel)%nat →
  ∃ r budget' w', hydrate_batches rpc sleep stamp fuel did batches w budget acc
                    = Some (r, budget', w') ∧ budget_wf budget'.
Proof using fingerprints.
  revert w budget acc. induction batches as [|ids batches IH]; intros w budget acc Hw Hf; simpl; [eauto|].
  destruct (build_message_get_batch_params _ _ _) as [params|e]; [|eauto].
  destruct (get_batch_total fuel w budget params Hw Hf) as (r & b' & w' & -> & Hb & Hle). simpl.
  destruct (r ≫= accept_batch ids acc) as [acc'|e] eqn:E; [|eauto].
  apply IH; [done|]. destruct Hle as [?|Hr]; [lia|]. by destruct r.
Qed.

(** Two retries per fingerprint are enough, whatever was counted before. *)
Lemma allowance_le budget : budget_wf budget → (allowance K budget ≤ 2 * length K)%nat.
Proof using.
  intros Hw. clear fingerprints. unfold allowance. induction K as [|f l IH]; simpl; [lia|].
  assert (retries_left budget f ≤ 2)%nat; [|lia]. unfold retries_left.
  destruct (budget !! f) eqn:E; simpl; [apply Hw in E|]; lia.
Qed.
Lemma budget_wf_empty : budget_wf ∅.
Proof using. intros f n Hl. by rewrite lookup_empty in Hl. Qed.
End giving_up.

(** ** An admitted page is accepted *)

Section accept.
Context `{QueueCodec, WireCodec}.

(** What the wire layer establishes for one event of a page. *)
Record event_admitted (binding : IdentityAccountBinding) (page : SyncDeltaPageV2)
    (hydrated : gmap string Value) (e : SyncEventV2) : Prop := {
  ea_wf : event_wf e;
  ea_account : se_account_id e = ib_account binding;
  ea_epoch : se_stream_epoch e = cu_stream_epoch (dp_next_cursor page);
  ea_recipient : opt_all (λ d, d = ib_device binding) (se_recipient_device_id e);
  ea_seq : gen_le (se_event_seq e) (cu_scan_seq (dp_next_cursor page));
  ea_hydrated : needs_hydration e = true →
    from_option is_object false (hydrated !! se_event_id e) = true }.

Lemma check_page_event_Ok page binding state e :
  check_page_event page binding state e = Ok () →
  se_account_id e = ab_account binding ∧ se_stream_epoch e = ms_stream_epoch state ∧
  opt_all (λ d, d = ab_device binding) (se_recipient_device_id e) ∧
  gen_le (se_event_seq e) (cu_scan_seq (dp_next_cursor page)).
Proof.
  unfold check_page_event. destruct (_ || _) eqn:H1; [done|].
  destruct (match se_recipient_device_id e with Some _ => _ | None => _ end) eqn:H2; [done|].
  intros (o & (_ & _ & ->)%compare_decimal_Ok_inv & [Hg _]%guard_Ok)%bind_Ok. bool_hyps.
  split_and!; [done..| |done]. destruct (se_recipient_device_id e); simpl; [|done].
  by bool_hyps.
Qed.

Lemma page_events_admitted handle binding state now page hydrated :
  delta_page_wf page → validate_page_binding page binding state = Ok () →
  hydrated_exactly (hydration_event_ids (dp_events page)) hydrated →
  Forall (event_admitted (stored_binding handle binding now) page hydrated) (dp_events page).
Proof.
  intros Hw. unfold validate_page_binding. destruct (negb _) eqn:He; [done|]. bool_hyps.
  intros (o & _ & Hr)%bind_Ok Hh. destruct (bool_decide (o = Lt)); [done|].
  apply try_each_Ok in Hr. pose proof (dw_events _ Hw) as Hew. rewrite Forall_forall in *.
  intros e Hin. destruct (check_page_event_Ok _ _ _ _ (Hr e Hin)) as (? & ? & ? & ?).
  split; simpl; try done; [by apply Hew|congruence|]. intros Hn.
  destruct Hh as [Hd Hp]. destruct (Hd (se_event_id e)) as [_ [v Hv]].
  - unfold hydration_event_ids. apply list_elem_of_fmap. exists e. split; [done|]. by apply list_elem_of_filter.
  - rewrite Hv. simpl. by apply Hp in Hv as [].
Qed.

Lemma not_blank_text s : canonical_text s →
  is_empty (trim s) = false ∧ bool_decide (trim s = s) = true.
Proof.
  intros [Ht Hn]. unfold is_empty. rewrite Ht. split; [by apply bool_decide_eq_false_2|].
  by apply bool_decide_eq_true_2.
Qed.

(** Receiving an admitted event whose identity is new in the page comes down to
    the duplicate check. *)
Lemma receive_admitted_event db binding client run seq hydrated page s e :
  cursor_wf (dp_next_cursor page) → event_admitted binding page hydrated e →
  se_event_id e ∉ rl_event_ids s → se_event_seq e ∉ rl_positions s →
  receive_event db (receive_batch binding client run seq hydrated page) s
      (page_event hydrated page e) =
    (input_is_duplicate db (ib_owner binding) "ordinary" (cu_stream_epoch (dp_next_cursor page))
       (page_event hydrated page e)
     ≫= λ duplicate : bool,
     Ok (mkReceiveLoop (se_event_id e :: rl_event_ids s) (se_event_seq e :: rl_positions s)
           (if duplicate then rl_pending s else rl_pending s ++ [page_event hydrated page e])
           (rl_duplicates s + if duplicate then 1 else 0))).
Proof.
  intros Hc [Hw ? ? Hrec Hle Hh] Hid Hseq.
  pose proof (ew_event_id _ Hw) as Wid. pose proof (ew_event_type _ Hw) as Wty.
  pose proof (ew_event_seq _ Hw) as Wseq.
  destruct (not_blank_text _ Wid) as [E1 E2]. destruct (not_blank_text _ Wty) as [E3 _].
  assert (check_envelope (receive_batch binding client run seq hydrated page)
            (page_event hydrated page e) e = false) as Henv.
  { unfold check_envelope. cbn [ev_event_id ev_event_type ev_position ev_payload page_event
      inbox_event rb_stream_epoch rb_binding receive_batch].
    rewrite !bool_decide_eq_true_2 by done. cbn [negb orb].
    change (vget _ "hydrated") with (Some (default VNull (hydrated !! se_event_id e))).
    assert (match se_recipient_device_id e with
            | Some device => negb (bool_decide (device = ib_device binding)) | None => false end
            = false) as ->.
    { destruct (se_recipient_device_id e); [|done]. simpl in Hrec.
      by rewrite bool_decide_eq_true_2. }
    cbn [orb]. fold (needs_hydration e). destruct (needs_hydration e) eqn:En; [|done].
    specialize (Hh eq_refl). destruct (hydrated !! se_event_id e); [|done].
    simpl in *. by rewrite Hh. }
  unfold receive_event.
  cbn [ev_event_id ev_event_type ev_position ev_payload page_event inbox_event is_object negb].
  rewrite E1, E2, E3, (bool_decide_eq_false_2 _ Hid), (bool_decide_eq_false_2 _ Hseq). cbn [orb negb].
  rewrite (proj2 (validate_positive_decimal_Ok _ _)) by done. cbn [mbind result_bind].
  cbn [rb_next_scan_seq receive_batch].
  rewrite (compare_decimal_value _ _ (proj1 Wseq) (cw_scan _ Hc)). cbn [mbind result_bind].
  rewrite bool_decide_eq_false_2 by exact Hle.
  change (vget _ "event") with (Some (event_to_value e)). cbn [ok_or mbind result_bind].
  rewrite (event_roundtrip_value e Hw). cbn [ok_or mbind result_bind].
  match goal with |- (if ?b then _ else _) = _ => replace b with false by (symmetry; exact Henv) end.
  done.
Qed.

Lemma receive_loop_conflict db binding client run seq hydrated page s events e :
  cursor_wf (dp_next_cursor page) → Forall (event_admitted binding page hydrated) events →
  NoDup (se_event_id <$> events) → NoDup (se_event_seq <$> events) →
  (∀ x, x ∈ events → se_event_id x ∉ rl_event_ids s ∧ se_event_seq x ∉ rl_positions s) →
  try_fold (receive_event db (receive_batch binding client run seq hydrated page)) s
    (page_event hydrated page <$> events) = Err e →
  ∃ x, x ∈ events ∧ input_is_duplicate db (ib_owner binding) "ordinary"
    (cu_stream_epoch (dp_next_cursor page)) (page_event hydrated page x) = Err e.
Proof.
  intros Hc Ha Hi Hq. revert s.
  induction events as [|x events IH]; intros s Hnew Hf; [done|].
  rewrite fmap_cons in Hf. cbn [try_fold] in Hf.
  apply Forall_cons in Ha as [Hx Ha]. apply NoDup_cons in Hi as [Hi Hi'], Hq as [Hq Hq'].
  destruct (Hnew x) as [N1 N2]; [by left|].
  rewrite receive_admitted_event in Hf by done.
  destruct (input_is_duplicate db (ib_owner binding) "ordinary" _ _) as [dup|e'] eqn:Hd;
    cbn [mbind result_bind] in Hf.
  - eapply IH in Hf as (y & Hy & ?); [|done..|].
    + exists y. split; [by right|done].
    + intros y Hy. destruct (Hnew y) as [M1 M2]; [by right|]. simpl.
      rewrite !elem_of_cons. split; intros [E|?]; try done.
      * apply Hi. rewrite <-E. apply list_elem_of_fmap. eauto.
      * apply Hq. rewrite <-E. apply list_elem_of_fmap. eauto.
  - injection Hf as <-. exists x. split; [by left|done].
Qed.
End accept.

(** ** Lane pages *)

Section lanes.
Context `{QueueCodec, AnpGroup}.
Context (clock : nat → Z) (binding : ActiveSyncAccountBinding) (client : string)
  (received_at : SyncLaneV3 → string).
Notation input_of lane epoch := (λ e, lane_handoff_input_from_wire binding client epoch e (received_at lane)).

(** Inputs handed to the lane store one after the other. *)
Inductive handed_all : LaneDb → list SyncLaneHandoffInput → LaneDb → Prop :=
| handed_nil db : handed_all db [] db
| handed_cons db input clk out db1 inputs db2 :
    commit_sync_lane_handoff db input clk = Ok (out, db1) →
    handed_all db1 inputs db2 → handed_all db (input :: inputs) db2.

Lemma handoff_cursor_stored db input clk out db' :
  commit_sync_lane_handoff db input clk = Ok (out, db') →
  ld_lanes db' !! (ho_owner input, lane_as_str (ho_lane input))
    = Some (mkLaneRow (ho_lane_epoch input) (ho_position input) (ho_position input)) ∧
  ∀ k, k ≠ (ho_owner input, lane_as_str (ho_lane input)) → ld_lanes db' !! k = ld_lanes db !! k.
Proof.
  intros (d1 & d2 & (_ & _ & _ & ->)%advance_lane_inv & Hout)%handoff_inv.
  assert (ld_lanes db' = <[lane_key (handoff_cursor input) := lane_row (handoff_cursor input)]>
    (ld_lanes d1) ∧ ld_lanes d1 = ld_lanes db) as [-> ->].
  { destruct out; [|by destruct Hout as (-> & -> & _)].
    destruct Hout as (-> & ? & ? & ? & _ & _ & ->). done. }
  split; [apply lookup_insert_eq|]. intros k Hk. by apply lookup_insert_ne.
Qed.

(** The stored cursor of the lane after the handoffs, and the other cursors. *)
Lemma handed_all_cursor db inputs db' k :
  handed_all db inputs db' →
  Forall (λ i, (ho_owner i, lane_as_str (ho_lane i)) = k) inputs →
  ld_lanes db' !! k = match last inputs with
                      | Some i => Some (mkLaneRow (ho_lane_epoch i) (ho_position i) (ho_position i))
                      | None => ld_lanes db !! k
                      end ∧
  ∀ k', k' ≠ k → ld_lanes db' !! k' = ld_lanes db !! k'.
Proof.
  induction 1 as [db|db i clk out db1 inputs db2 Hc _ IH]; intros Hk; [done|].
  apply Forall_cons in Hk as [Hi Hk]. destruct (IH Hk) as [E Ho].
  apply handoff_cursor_stored in Hc as [Es Hs]. split.
  - rewrite E, last_cons. destruct (last inputs); [done|]. by rewrite <-Hi.
  - intros k' Hne. rewrite Ho by done. apply Hs. by rewrite Hi.
Qed.

Lemma handed_all_steps `{JsonText} db inputs db' : handed_all db inputs db' → rtc lane_step db db'.
Proof.
  induction 1 as [|db i clk out db1 inputs db2 Hc _ IH]; [done|].
  eapply rtc_l; [by eapply l_handoff|done].
Qed.

Lemma input_of_key lane epoch e :
  event_matches_lane lane e = true →
  (ho_owner (input_of lane epoch e), lane_as_str (ho_lane (input_of lane epoch e)))
    = (ab_owner binding, lane_as_str lane) ∧ ho_position (input_of lane epoch e) = lane_event_seq e ∧
  ho_lane_epoch (input_of lane epoch e) = epoch.
Proof. by destruct lane, e. Qed.

(** One event: handed off, refused with its lane blocked, or an error that
    leaves the store alone. *)
Lemma hand_off_event_spec lane epoch e s r s' :
  hand_off_event clock binding client received_at lane epoch e s = (r, s') →
  ru_states s' = ru_states s ∧
  match r with
  | Ok false => ru_blocked s' = ru_blocked s ∧ event_matches_lane lane e = true ∧
      ∃ clk out, commit_sync_lane_handoff (ru_db s) (input_of lane epoch e) clk = Ok (out, ru_db s')
  | Ok true => ru_db s' = ru_db s ∧ ru_blocked s' = {[lane]} ∪ ru_blocked s
  | Err _ => s' = s
  end.
Proof.
  unfold hand_off_event. destruct (_ || _) eqn:Hm.
  - cbn. intros [= <- <-]. done.
  - apply orb_false_iff in Hm as [Hm _]. apply negb_false_iff in Hm.
    destruct (commit_sync_lane_handoff _ _ _) as [[out db]|e'] eqn:Hc.
    + intros [= <- <-]. simpl. split; [done|]. split_and!; [done|done|]. eauto.
    + case_bool_decide; [cbn; by intros [= <- <-]|].
      case_bool_decide; [cbn; by intros [= <- <-]|]. by intros [= <- <-].
Qed.

Lemma hand_off_events_spec lane epoch events s r s' :
  hand_off_events clock binding client received_at lane epoch events s = (r, s') →
  ∃ k, handed_all (ru_db s) (input_of lane epoch <$> take k events) (ru_db s') ∧
    Forall (λ e, event_matches_lane lane e = true) (take k events) ∧
    ru_states s' = ru_states s ∧
    match r with
    | Ok false => (length events ≤ k)%nat ∧ ru_blocked s' = ru_blocked s
    | Ok true => (k < length events)%nat ∧ ru_blocked s' = {[lane]} ∪ ru_blocked s
    | Err _ => (k < length events)%nat ∧ ru_blocked s' = ru_blocked s
    end.
Proof.
  revert s. induction events as [|e events IH]; intros s Hr; simpl in Hr.
  { injection Hr as <- <-. exists 0%nat. simpl. repeat split; constructor. }
  unfold mbind, run_bind in Hr.
  destruct (hand_off_event _ _ _ _ lane epoch e s) as [[failed|err] s1] eqn:He;
    apply hand_off_event_spec in He as [Est He].
  - destruct failed.
    + destruct He as [Edb Ebl]. injection Hr as <- <-. exists 0%nat. simpl.
      rewrite Edb. split_and!; [constructor|constructor|done|lia|done].
    + destruct He as (Ebl & Hm & clk & out & Hc). apply IH in Hr as (k & Hh & Hf & Est' & Hr).
      exists (S k). simpl. split_and!; [by econstructor|by constructor|congruence|].
      rewrite Ebl in Hr. destruct r as [[]|]; [split; [lia|]; tauto..|]. split; [lia|tauto].
  - injection Hr as <- <-. subst s1. exists 0%nat. simpl.
    split_and!; [constructor|constructor|done|lia|done].
Qed.

Notation next_state lane next :=
  (mkLaneState (ab_owner binding) lane (cu_stream_epoch next) (cu_scan_seq next) (cu_scan_seq next)).

(** A page takes a prefix of its events; the run's view of the lane moves only
    when the whole page was taken, to the page's cursor. *)
Lemma apply_lane_page_spec lane events next more s r s' :
  apply_lane_page clock binding client received_at lane events next more s = (r, s') →
  ∃ epoch k, handed_all (ru_db s) (input_of lane epoch <$> take k events) (ru_db s') ∧
    Forall (λ e, event_matches_lane lane e = true) (take k events) ∧
    ((k < length events)%nat → ru_states s' = ru_states s) ∧
    (ru_states s' = ru_states s ∨ ru_states s' = <[lane := next_state lane next]> (ru_states s)) ∧
    (ru_blocked s' = ru_blocked s ∨ ru_blocked s' = {[lane]} ∪ ru_blocked s) ∧
    (r = Ok () → lane ∉ ru_blocked s' →
       ru_states s' = <[lane := next_state lane next]> (ru_states s) ∧
       (length events ≤ k)%nat ∧ epoch = cu_stream_epoch next ∧
       ∃ current, ru_states s !! lane = Some current ∧ ln_stream_epoch current = epoch ∧
         cu_scan_seq next = match last events with
                            | Some e => lane_event_seq e | None => ln_scan_seq current end).
Proof.
  unfold apply_lane_page. intros Hr.
  assert (∀ e, handed_all (ru_db s) (input_of lane e <$> take 0 events) (ru_db s)) as Hnil
    by (intros; constructor).
  unfold mbind at 1, run_bind at 1, gets in Hr. cbn beta iota in Hr. revert Hr.
  destruct (ru_states s !! lane) as [current|] eqn:Ecur; intros Hr.
  2:{ injection Hr as <- <-. exists ""%string, 0%nat. split_and!; [done|constructor|tauto|tauto|tauto|].
      done. }
  destruct (cursor_conflicts current next) as [[]|e] eqn:Ec;
    rewrite ?lift_Ok_bind, ?lift_Err_bind in Hr.
  1,3: injection Hr as <- <-; exists ""%string, 0%nat; split_and!; [done|constructor|tauto..|done].
  destruct (validate_lane_page_progress current events next) as [[]|e] eqn:Ev;
    rewrite ?lift_Ok_bind, ?lift_Err_bind in Hr.
  2: injection Hr as <- <-; exists ""%string, 0%nat; split_and!; [done|constructor|tauto..|done].
  unfold mbind at 1, run_bind at 1 in Hr.
  destruct (hand_off_events _ _ _ _ _ _ _ s) as [[failed|e] s1] eqn:Hh;
    apply hand_off_events_spec in Hh as (k & Hh & Hf & Est & Hk); exists (ln_stream_epoch current), k.
  - destruct failed; cbn in Hr.
    + injection Hr as <- <-. destruct Hk as [Hk Eb].
      split_and!; [done|done|done|by left|by right|]. intros _ Hn. rewrite Eb in Hn. set_solver.
    + destruct Hk as [Hk Eb].
      assert (ru_db s' = ru_db s1 ∧ ru_states s' = <[lane := next_state lane next]> (ru_states s1) ∧
        ru_blocked s' = ru_blocked s1) as (Edb & Est' & Eb').
      { destruct (_ && _); cbn in Hr; injection Hr as <- <-; done. }
      rewrite Edb, Est', Eb', Est. split_and!; [done|done|lia|by right|by left|].
      intros _ _. split; [done|]. split; [done|].
      assert (ln_stream_epoch current = cu_stream_epoch next) as Eep.
      { unfold cursor_conflicts in Ec. destruct (negb _) eqn:Hn; [done|]. by bool_hyps. }
      split; [done|]. exists current. split_and!; [done|done|].
      unfold validate_lane_page_progress in Ev. cbv zeta in Ev. apply guard_Ok in Ev as [Ev _].
      bool_hyps. done.
  - injection Hr as <- <-. destruct Hk as [Hk Eb].
    split_and!; [done|done|done|by left|by left|done].
Qed.

(** The run's view of its open lanes agrees with the durable cursors. *)
Definition tracks (s : LaneRun) : Prop :=
  ∀ lane st, ru_states s !! lane = Some st → lane ∉ ru_blocked s →
  ∃ row, ld_lanes (ru_db s) !! (ab_owner binding, lane_as_str lane) = Some row ∧
    lw_stream_epoch row = ln_stream_epoch st ∧ lw_scan_seq row = ln_scan_seq st.

Lemma apply_lane_page_tracks lane events next more s s' :
  tracks s →
  apply_lane_page clock binding client received_at lane events next more s = (Ok (), s') → tracks s'.
Proof.
  intros Ht Hr. apply apply_lane_page_spec in Hr as (epoch & k & Hh & Hf & _ & Hst & Hbl & Hok).
  set (key := (ab_owner binding, lane_as_str lane)).
  destruct (handed_all_cursor _ _ _ key Hh) as [Ec Ho].
  { apply Forall_fmap. eapply Forall_impl; [exact Hf|]. intros e He.
    by apply (input_of_key lane epoch e He). }
  assert (∀ l st, l ≠ lane → ru_states s !! l = Some st → l ∉ ru_blocked s' → ∃ row,
    ld_lanes (ru_db s') !! (ab_owner binding, lane_as_str l) = Some row ∧
    lw_stream_epoch row = ln_stream_epoch st ∧ lw_scan_seq row = ln_scan_seq st) as Hother.
  { intros l st Hl Hs Hb. rewrite Ho by (unfold key; injection 1 as ?%lane_as_str_inj; done).
    apply Ht; [done|]. destruct Hbl as [<-|E]; [done|]. rewrite E in Hb. set_solver. }
  intros l st Hs Hb. destruct (decide (l = lane)) as [->|Hl].
  - destruct (Hok eq_refl Hb) as (Est & Hk & -> & current & Hcur & Hep & Hseq).
    rewrite Est, lookup_insert_eq in Hs. injection Hs as <-. cbn.
    rewrite take_ge in Ec by lia. unfold key in Ec. rewrite Ec, fmap_last.
    destruct (last events) as [e|] eqn:El; cbn.
    + eexists. split; [done|]. rewrite take_ge in Hf by lia.
      rewrite Forall_forall in Hf. destruct (input_of_key lane (cu_stream_epoch next) e) as (_ & -> & ->).
      { apply Hf. by apply last_Some_elem_of. }
      by rewrite Hseq.
    + destruct (Ht lane current Hcur) as (row & Hrow & He & Hsc).
      { destruct Hbl as [<-|E]; [done|]. rewrite E in Hb. set_solver. }
      exists row. rewrite Hseq, Hsc. split_and!; [done|congruence|done].
  - apply Hother; [done| |done]. destruct Hst as [<-|Est]; [done|].
    by rewrite Est, lookup_insert_ne in Hs.
Qed.

Lemma block_with_spec lane what s r s' :
  block_with lane what s = (r, s') →
  ru_db s' = ru_db s ∧ ru_states s' = ru_states s ∧ ru_blocked s' = {[lane]} ∪ ru_blocked s.
Proof. by intros [= <- <-]. Qed.

Lemma tracks_same s s' :
  tracks s → ru_db s' = ru_db s → ru_states s' = ru_states s → ru_blocked s ⊆ ru_blocked s' →
  tracks s'.
Proof.
  intros Ht Ed Es Hb lane st. rewrite Ed, Es. intros Hl Hn. apply Ht; [done|set_solver].
Qed.

Lemma apply_lane_section_tracks requested sections lane :
  keeps tracks (apply_lane_section clock binding client received_at requested sections lane).
Proof.
  intros s [] s' Ht. unfold apply_lane_section.
  destruct (sections !! lane) as [section|]; [|by intros [= <-]].
  destruct (negb _); [intros [= <-]; by eapply tracks_same|].
  destruct section as [events next more|error|].
  - by apply apply_lane_page_tracks.
  - unfold mbind, run_bind, gets. cbn beta iota. destruct (recoverable lane error && _).
    + intros [= <-]. by eapply tracks_same.
    + intros [= <-]. eapply tracks_same; [done..|set_solver].
  - intros (? & ? & ?)%block_with_spec. eapply tracks_same; [done..|set_solver].
Qed.

Lemma apply_sections_tracks sections invalid requested :
  keeps tracks (apply_lane_delta_sections clock binding client received_at sections invalid requested).
Proof.
  apply keeps_bind; [|intros _; apply keeps_bind; [|intros _; apply keeps_each]].
  - intros s [] s' Ht. destruct invalid; cbn; intros [= <-]; by eapply tracks_same.
  - apply keeps_each. intros lane s [] s' Ht. destruct (_ && _).
    + intros (? & ? & ?)%block_with_spec. eapply tracks_same; [done..|set_solver].
    + by intros [= <-].
  - apply apply_lane_section_tracks.
Qed.

(** Whatever its result, the run only takes steps of the lane store and never
    reopens a lane. *)
Definition run_moves `{JsonText} (s s' : LaneRun) : Prop :=
  rtc lane_step (ru_db s) (ru_db s') ∧ ru_blocked s ⊆ ru_blocked s'.

Lemma run_moves_same `{JsonText} s s' :
  ru_db s' = ru_db s → ru_blocked s ⊆ ru_blocked s' → run_moves s s'.
Proof. unfold run_moves. intros -> ?. done. Qed.

#[local] Instance run_moves_refl `{JsonText} : Reflexive run_moves.
Proof. intros s. by apply run_moves_same. Qed.
#[local] Instance run_moves_trans `{JsonText} : Transitive run_moves.
Proof. intros x y z [? ?] [? ?]. split; [by etrans|set_solver]. Qed.

Lemma apply_lane_section_moves `{JsonText} requested sections lane :
  moves run_moves (apply_lane_section clock binding client received_at requested sections lane).
Proof.
  intros s r s'. unfold apply_lane_section.
  destruct (sections !! lane) as [section|]; [|by intros [= _ <-]].
  destruct (negb _); [intros [= _ <-]; by apply run_moves_same|].
  destruct section as [events next more|error|].
  - intros (epoch & k & Hh & _ & _ & _ & Hb & _)%apply_lane_page_spec.
    split; [by eapply handed_all_steps|]. destruct Hb as [->| ->]; set_solver.
  - unfold mbind, run_bind, gets. cbn beta iota. destruct (recoverable lane error && _);
      intros [= _ <-]; apply run_moves_same; cbn; set_solver.
  - intros (? & ? & ?)%block_with_spec. apply run_moves_same; set_solver.
Qed.

Lemma apply_sections_moves `{JsonText} sections invalid requested :
  moves run_moves
    (apply_lane_delta_sections clock binding client received_at sections invalid requested).
Proof.
  apply (moves_bind run_moves); [|intros _; apply (moves_bind run_moves)].
  - intros s r s'. destruct invalid; cbn; intros [= _ <-]; by apply run_moves_same.
  - apply (moves_each run_moves). intros lane s r s'. destruct (_ && _).
    + intros (? & ? & ?)%block_with_spec. apply run_moves_same; set_solver.
    + by intros [= _ <-].
  - intros _. apply (moves_each run_moves), apply_lane_section_moves.
Qed.
End lanes.
