(* ===== verification/Legacy.v ===== *)
(** * The sync store of a run, and the legacy P6 blockers

    [local_state/sync_v2.rs]: the installation id of an owner
    ([load_or_create_sync_client_instance_id]) and the migration it triggers,
    which moves each legacy P6 blocker into the receive queue
    ([migrate_legacy_p6_blockers_to_inbox]). Every blocker is migrated in its own
    transaction, so an error leaves the earlier ones migrated. *)

From stdpp Require Import gmap sorting.
From S2P Require Import Prelude RustStr ImError Effects Decimal Dto Store SyncStore Inbox Lanes.
Local Open Scope Z_scope.

(** The store of a run: the lane store, the history scopes and the repairs the
    migration asks for, by owner and event. *)
Record SyncDb := mkSyncDb {
  sd_lanes : LaneDb;
  sd_history : gmap string (bool * Z);
  sd_repairs : gmap (string * string) (string * Z) }.

Definition sd_db (db : SyncDb) : Db := ld_db (sd_lanes db).
Definition with_lane_db (l : LaneDb) (db : SyncDb) : SyncDb :=
  mkSyncDb l (sd_history db) (sd_repairs db).
Definition with_history m (db : SyncDb) : SyncDb := mkSyncDb (sd_lanes db) m (sd_repairs db).
Definition with_repairs m (db : SyncDb) : SyncDb := mkSyncDb (sd_lanes db) (sd_history db) m.

(** One transaction: its effects, or none. *)
Definition transaction {A} (f : SyncDb → ImResult (A * SyncDb)) : RunM SyncDb A := λ db,
  match f db with
  | Ok (a, db') => (Ok a, db')
  | Err e => (Err e, db)
  end.

(** ** The migration *)

(** A blocker joined with its binding and, if any, its installation. *)
Record LegacyRow := mkLegacyRow {
  lg_blocker : P6LaneBlocker;
  lg_binding : IdentityAccountBinding;
  lg_installation : option string }.

(** [ORDER BY owner_identity_id, stream_epoch, event_seq], as text. *)
Definition legacy_le (a b : P6LaneBlocker) : Prop :=
  (bl_owner a ≠ bl_owner b ∧ str_le (bl_owner a) (bl_owner b)) ∨
  (bl_owner a = bl_owner b ∧
     ((bl_stream_epoch a ≠ bl_stream_epoch b ∧ str_le (bl_stream_epoch a) (bl_stream_epoch b)) ∨
      (bl_stream_epoch a = bl_stream_epoch b ∧ str_le (bl_event_seq a) (bl_event_seq b)))).
#[export] Instance legacy_le_dec a b : Decision (legacy_le a b).
Proof. unfold legacy_le. apply _. Defined.

Definition legacy_rows (db : SyncDb) : list LegacyRow :=
  omap (λ b, binding ← load_identity_account_binding (sd_db db) (bl_owner b);
             Some (mkLegacyRow b binding (db_installations (sd_db db) !! bl_owner b)))
    (merge_sort legacy_le (ld_blockers (sd_lanes db))).

Record LegacyP6InboxMigrationReport := mkReport {
  mr_migrated : Z;
  mr_already_migrated : Z;
  mr_repair_required : Z }.

Definition shape_valid (b : P6LaneBlocker) (payload : option Value) : bool :=
  from_option is_object false payload
  && bool_decide (bl_event_type b ∈ ["p6.delivery.created"; "p6.control.notice"]%string)
  && ((bool_decide (bl_event_type b = "p6.delivery.created"%string)
       && bool_decide (is_Some (bl_group_event_seq b)))
      || (bool_decide (bl_event_type b = "p6.control.notice"%string)
          && bool_decide (bl_group_event_seq b = None)))
  && (Z.of_nat (String.length (bl_payload_json b)) <=? SYNC_LANE_INPUT_MAX_BYTES).

Definition record_legacy_p6_migration_repair (owner event_id reason : string) (now : Z)
    : RunM SyncDb unit :=
  _ ← transaction (λ db,
        if owner_bound (sd_db db) owner
        then Ok ((), with_repairs (<[(owner, event_id) := (reason, now)]> (sd_repairs db)) db)
        else constraint_failed);
  transaction (λ db,
    lanes ← record_lane_transport_error (sd_lanes db) owner P6Group
              (Some "lane_migration_repair_required"%string) now;
    Ok ((), with_lane_db lanes db)).

(** The queue already holds the blocker's event, with the same content. *)
Definition already_queued (b : P6LaneBlocker) (payload : Value) (r : InboxRow) : bool :=
  bool_decide (in_position r = bl_event_seq b)
  && bool_decide (in_event_type r = bl_event_type b)
  && value_eqb (in_payload r) payload
  && (bool_decide (in_logical_event_seq r = None)
      || bool_decide (in_logical_event_seq r = bl_group_event_seq b)).

Definition drop_blocker (b : P6LaneBlocker) (db : LaneDb) : LaneDb :=
  with_blockers
    (delete_where (λ x, bool_decide (bl_owner x = bl_owner b)
                        && bool_decide (bl_event_id x = bl_event_id b)) (ld_blockers db)) db.

(** [COALESCE(logical_event_seq, ..)] *)
Definition set_logical_seq (input_id : string) (seq : option string) (d : Db) : Db :=
  with_inbox
    (update_where (λ r, bool_decide (in_input_id r = input_id))
       (λ r, mkInbox (in_input_id r) (in_owner r) (in_lane r) (in_lane_epoch r) (in_position r)
               (in_event_id r) (in_event_type r) (in_payload r) (in_account r) (in_device r)
               (in_auth_generation r) (in_client_instance r) (in_group_did r)
               (match in_logical_event_seq r with Some s => Some s | None => seq end)
               (in_received_at r) (in_source_created_at r) (in_source_expires_at r)
               (in_closed_at r) (in_created_at r) (in_scope r) (in_attempt_count r)
               (in_attempt_token r) (in_attempt_deadline r) (in_last_attempt_at r)
               (in_next_attempt_at r) (in_error_code r)) (db_inbox d)) d.

(** [i64::to_string] *)
Definition i64_to_string (n : Z) : string :=
  if n <? 0 then "-" +:+ u64_to_string (- n) else u64_to_string n.

Section migrate.
Context `{QueueCodec, JsonText}.

(** The row a blocker becomes; its attempts and last error are kept. *)
Definition migrated_row (r : LegacyRow) (installation input_id : string) (payload : Value)
    : InboxRow :=
  let b := lg_blocker r in
  let received_at := default ("unix:" +:+ i64_to_string (bl_created_at b))
                       (to_rfc3339 (bl_created_at b)) in
  mkInbox input_id (bl_owner b) "p6_group" (bl_stream_epoch b) (bl_event_seq b) (bl_event_id b)
    (bl_event_type b) payload (ib_account (lg_binding r)) (ib_device (lg_binding r))
    (ib_auth_generation (lg_binding r)) installation (Some (bl_group_did b))
    (bl_group_event_seq b) received_at None None None (bl_created_at b) (bl_group_did b)
    (bl_attempt_count b) None None None (Some 0) (Some (bl_last_error_code b)).

Definition insert_migrated (db : SyncDb) (r : LegacyRow) (installation input_id : string)
    (payload : Value) (now : Z) : ImResult SyncDb :=
  let b := lg_blocker r in
  room ← make_room (sd_db db) 1 now;
  let row := migrated_row r installation input_id payload in
  if negb (owner_bound room.2 (bl_owner b))
     || negb (inbox_checks_sized (Z.of_nat (String.length (bl_payload_json b))) row)
     || inbox_collides (db_inbox room.2) row
  then constraint_failed
  else
    Ok (with_lane_db
          (drop_blocker b
             (with_queue (with_inbox (db_inbox room.2 ++ [row]) room.2) (sd_lanes db))) db).

Definition count_repair (b : P6LaneBlocker) (reason : string)
    (report : LegacyP6InboxMigrationReport) : RunM SyncDb LegacyP6InboxMigrationReport :=
  _ ← record_legacy_p6_migration_repair (bl_owner b) (bl_event_id b) reason (bl_created_at b);
  mret (mkReport (mr_migrated report) (mr_already_migrated report)
          (mr_repair_required report + 1)).

Definition migrate_blocker (r : LegacyRow) (now : Z) (report : LegacyP6InboxMigrationReport)
    : RunM SyncDb LegacyP6InboxMigrationReport :=
  let b := lg_blocker r in
  match lg_installation r with
  | None => mret report
  | Some installation =>
      match from_str (bl_payload_json b) with
      | Some payload =>
          if negb (shape_valid b (Some payload)) then
            count_repair b "legacy blocker cannot be reconstructed losslessly" report
          else
            input_id ← lift (stable_sync_lane_input_id (bl_owner b) P6Group (bl_stream_epoch b)
                               (bl_event_id b));
            inbox ← gets (λ db, db_inbox (sd_db db));
            match head (select_where (λ x, bool_decide (in_input_id x = input_id)) inbox) with
            | Some stored =>
                if already_queued b payload stored then
                  _ ← modify (λ db, with_lane_db
                        (drop_blocker b
                           (with_queue (set_logical_seq input_id (bl_group_event_seq b) (sd_db db))
                              (sd_lanes db))) db);
                  mret (mkReport (mr_migrated report) (mr_already_migrated report + 1)
                          (mr_repair_required report))
                else count_repair b "legacy blocker conflicts with an existing lane input" report
            | None =>
                if exists_where (same_position (bl_owner b) "p6_group" (bl_stream_epoch b)
                                   (bl_event_seq b)) inbox then
                  count_repair b "legacy blocker position conflicts with an existing lane input"
                    report
                else
                  _ ← transaction (λ db, db' ← insert_migrated db r installation input_id payload now;
                                         Ok ((), db'));
                  mret (mkReport (mr_migrated report + 1) (mr_already_migrated report)
                          (mr_repair_required report))
            end
      | None => count_repair b "legacy blocker cannot be reconstructed losslessly" report
      end
  end.

Fixpoint migrate_rows (rows : list LegacyRow) (clock : nat → Z)
    (report : LegacyP6InboxMigrationReport) : RunM SyncDb LegacyP6InboxMigrationReport :=
  match rows with
  | [] => mret report
  | r :: rows =>
      report ← migrate_blocker r (clock 0%nat) report;
      migrate_rows rows (λ i, clock (S i)) report
  end.

Definition migrate_legacy_p6_blockers_to_inbox (clock : nat → Z)
    : RunM SyncDb LegacyP6InboxMigrationReport :=
  rows ← gets legacy_rows;
  migrate_rows rows clock (mkReport 0 0 0).

(** ** The installation of an owner *)

(** [fresh] is the random id, 24 random bytes in base64, of a new installation. *)
Definition load_or_create_sync_client_instance_id (owner fresh : string) (clock : nat → Z)
    : RunM SyncDb string :=
  _ ← lift (validate_required "owner_identity_id" owner);
  installations ← gets (λ db, db_installations (sd_db db));
  match installations !! owner with
  | Some client_instance_id =>
      _ ← lift (validate_required "client_instance_id" client_instance_id);
      _ ← migrate_legacy_p6_blockers_to_inbox clock;
      mret client_instance_id
  | None =>
      let client_instance_id := "core-installation-" +:+ fresh in
      _ ← transaction (λ db,
            if bool_decide (client_instance_id ∈ (map_to_list (db_installations (sd_db db))).*2)
            then constraint_failed
            else Ok ((), with_lane_db
                           (with_store
                              (with_installations
                                 (<[owner := client_instance_id]> (db_installations (sd_db db)))
                                 (sd_db db)) (sd_lanes db)) db));
      _ ← migrate_legacy_p6_blockers_to_inbox clock;
      mret client_instance_id
  end.
End migrate.
