(* ===== verification/Baseline.v ===== *)
(** * Receiving a baseline

    [local_state/sync_baseline.rs] and the parts of [local_state/sync_v2.rs] it
    calls. A bootstrap or snapshot response is received in one transaction: a
    baseline marker and the snapshot's events enter the receive queue, and the
    owner's cursor, lanes and recovery are set to the response's anchor.

    The business projections of a snapshot or bootstrap (groups, read states,
    messages) are applied later, when the marker is processed; the reception
    requires their lists to be empty in its header. *)

From stdpp Require Import gmap sorting.
From S2P Require Import Prelude RustStr ImError Effects Decimal Dto Store SyncStore Inbox Lanes Legacy.
Local Open Scope Z_scope.

Record Baseline := mkBaseline {
  bs_server_time : string;
  bs_server_cutoff : option string;
  bs_groups : list Value;
  bs_read_states : list Value;
  bs_message_ids : gset string;
  bs_notification_ids : gset string }.

Record LaneCapabilityReconcileInputV1a := mkReconcile {
  lr_client_instance_id : string;
  lr_negotiated_capabilities_json : string;
  lr_lane_states : list LaneSyncState }.

(** [SnapshotApplyInputV2], without its business projections. *)
Record SnapshotApplyInput := mkSnapshotInput {
  sa_owner : string;
  sa_expected_run_generation : option Z;
  sa_owner_did : string;
  sa_account : string;
  sa_device : string;
  sa_auth_generation : string;
  sa_expected_stream_epoch : string;
  sa_expected_scan_seq : string;
  sa_allow_missing_previous : bool;
  sa_recovery_id_hash : string;
  sa_stream_epoch : string;
  sa_snapshot_scan_seq : string;
  sa_server_time : string;
  sa_server_cutoff : string;
  sa_older_history_excluded : bool;
  sa_lane_capability_reconcile : option LaneCapabilityReconcileInputV1a }.

(** [BootstrapApplyInputV2]; [bi_projections] counts its groups and read states. *)
Record BootstrapApplyInput := mkBootstrapInput {
  bi_binding : IdentityAccountBinding;
  bi_state : MessageSyncState;
  bi_client_instance_id : string;
  bi_negotiated_capabilities_json : string;
  bi_projections : nat;
  bi_lane_states : list LaneSyncState }.

(** ** Snapshot checkpoints *)

Definition snapshot_cas {A} (message : string) : ImResult A :=
  Err (sync_error "SYNC_SNAPSHOT_CAS_FAILED" message).

Definition validate_snapshot_fields (input : SnapshotApplyInput) : ImResult unit :=
  _ ← validate_required "owner_identity_id" (sa_owner input);
  _ ← validate_required "owner_did" (sa_owner_did input);
  _ ← validate_required "account_id" (sa_account input);
  _ ← validate_required "protocol_device_id" (sa_device input);
  _ ← validate_positive_decimal "device_auth_generation" (sa_auth_generation input);
  _ ← validate_positive_decimal "expected_stream_epoch" (sa_expected_stream_epoch input);
  _ ← validate_decimal "expected_scan_seq" (sa_expected_scan_seq input);
  _ ← validate_required "recovery_id_hash" (sa_recovery_id_hash input);
  _ ← validate_positive_decimal "stream_epoch" (sa_stream_epoch input);
  _ ← validate_decimal "snapshot_scan_seq" (sa_snapshot_scan_seq input);
  _ ← validate_required "server_time" (sa_server_time input);
  _ ← validate_required "server_cutoff" (sa_server_cutoff input);
  validate_expected_run_generation (sa_expected_run_generation input).

(** The cursor the recovery started from is still the stored one. *)
Definition cursor_unchanged (db : Db) (input : SnapshotApplyInput) : bool :=
  match db_message_states db !! sa_owner input with
  | Some current =>
      bool_decide (ms_stream_epoch current = sa_expected_stream_epoch input)
      && bool_decide (ms_scan_seq current = sa_expected_scan_seq input)
  | None =>
      sa_allow_missing_previous input && bool_decide (sa_expected_scan_seq input = "0"%string)
  end.

Definition recovery_authorizes (recovery : RecoveryState) (input : SnapshotApplyInput) : bool :=
  bool_decide (rc_recovery_id_hash recovery = Some (sa_recovery_id_hash input))
  && bool_decide (rc_snapshot_scan_seq recovery = Some (sa_snapshot_scan_seq input))
  && bool_decide (rc_requested_from_epoch recovery = sa_expected_stream_epoch input)
  && bool_decide (rc_requested_from_seq recovery = sa_expected_scan_seq input)
  && bool_decide (rc_status recovery = "applying"%string).

Definition validate_snapshot_receive (db : Db) (input : SnapshotApplyInput) : ImResult unit :=
  _ ← validate_snapshot_fields input;
  _ ← require_message_sync_run_generation db (sa_owner input) (sa_expected_run_generation input);
  binding ← ok_or (load_identity_account_binding db (sa_owner input))
    (IdentityBindingConflict "snapshot requires an active account binding");
  if negb (bool_decide (ib_current_did binding = sa_owner_did input))
     || negb (bool_decide (ib_account binding = sa_account input))
     || negb (bool_decide (ib_device binding = sa_device input))
     || negb (bool_decide (ib_auth_generation binding = sa_auth_generation input)) then
    binding_conflict "snapshot binding does not match the active account device"
  else if negb (cursor_unchanged db input) then
    snapshot_cas "snapshot cursor changed while recovery was in flight"
  else
    match load_recovery_state db (sa_owner input) with
    | None => snapshot_cas "snapshot recovery is missing"
    | Some recovery =>
        if recovery_authorizes recovery input then Ok ()
        else snapshot_cas "snapshot recovery authorization changed before commit"
    end.

(** The text of [json!({"mode": .., "older_history_excluded": ..})]. *)
Definition quote : string := String (Ascii.ascii_of_nat 34) EmptyString.
Definition json_quoted (s : string) : string := quote +:+ s +:+ quote.
Definition recovery_metadata (older_history_excluded : bool) : string :=
  "{" +:+ json_quoted "mode" +:+ ":" +:+ json_quoted "compact_recovery" +:+ ","
    +:+ json_quoted "older_history_excluded" +:+ ":"
    +:+ (if older_history_excluded then "true" else "false") +:+ "}".

Definition snapshot_state (input : SnapshotApplyInput) (now : Z) : MessageSyncState :=
  mkMessageState (sa_owner input) (sa_account input) (sa_device input) (sa_auth_generation input)
    (sa_stream_epoch input) (sa_snapshot_scan_seq input) "active" (Some (sa_server_time input))
    (Some now) None (Some (recovery_metadata (sa_older_history_excluded input))) now.

(** The [CHECK]s of [message_sync_state]. *)
Definition message_state_checks (state : MessageSyncState) : bool :=
  not_blank (ms_owner state) && not_blank (ms_account state) && not_blank (ms_device state)
  && positive_decimal (ms_auth_generation state) && positive_decimal (ms_stream_epoch state)
  && (bool_decide (ms_scan_seq state = "0"%string) || positive_decimal (ms_scan_seq state))
  && bool_decide (ms_bootstrap_state state ∈
       ["uninitialized"; "tail_bootstrapped"; "active"; "recovering"; "blocked"]%string).

Definition store_bootstrap_state (db : Db) (state : MessageSyncState) : ImResult Db :=
  if message_state_checks state then
    db ← upsert_bootstrap_state db state;
    Ok (complete_active_recovery db state)
  else constraint_failed.

Section receive.
Context `{QueueCodec, JsonText}.

Definition reconcile_snapshot_lanes (db : LaneDb) (input : SnapshotApplyInput) : ImResult LaneDb :=
  match sa_lane_capability_reconcile input with
  | None => Ok db
  | Some reconcile =>
      db1 ← replace_lane_sync_states_in_transaction db (sa_owner input) (lr_lane_states reconcile);
      record_sync_lane_capability_negotiation_v1a db1 (sa_owner input) (sa_auth_generation input)
        (lr_client_instance_id reconcile) (lr_negotiated_capabilities_json reconcile)
  end.

Definition commit_snapshot_receive_state (db : SyncDb) (input : SnapshotApplyInput) (now : Z)
    : ImResult SyncDb :=
  lanes ← reconcile_snapshot_lanes (sd_lanes db) input;
  if negb (owner_bound (ld_db lanes) (sa_owner input)) then constraint_failed
  else
    let history := <[sa_owner input := (sa_older_history_excluded input, now)]> (sd_history db) in
    let next_state := snapshot_state input now in
    d ← store_bootstrap_state (ld_db lanes) next_state;
    Ok (mkSyncDb (with_store d lanes) history (sd_repairs db)).

(** ** The marker and its events *)

Definition string_set (s : gset string) : Value :=
  VArray (VString <$> merge_sort str_le (elements s)).

(** [serde_json::to_value(baseline)] with the anchor added. *)
Definition baseline_payload (baseline : Baseline) (anchor : string) : Value :=
  VObject [("server_time", VString (bs_server_time baseline));
           ("server_cutoff", match bs_server_cutoff baseline with
                             | Some cutoff => VString cutoff
                             | None => VNull
                             end);
           ("groups", VArray (bs_groups baseline));
           ("read_states", VArray (bs_read_states baseline));
           ("message_ids", string_set (bs_message_ids baseline));
           ("notification_ids", string_set (bs_notification_ids baseline));
           ("snapshot_scan_seq", VString anchor)]%string.

(** [random] is the random [u128] of the marker's position. *)
Definition baseline_marker (baseline : Baseline) (anchor : string) (random : Z) : InboxEvent :=
  let position := u64_to_string (Z.max random 1) in
  mkInboxEvent ("local-sync-baseline:" +:+ position) position "sync.baseline"
    (baseline_payload baseline anchor) "baseline" None.

Definition baseline_step (db : Db) (owner epoch : string)
    (s : list (string * InboxEvent) * Z) (item : string * InboxEvent)
    : ImResult (list (string * InboxEvent) * Z) :=
  duplicate ← input_is_duplicate db owner item.1 epoch item.2;
  Ok (if duplicate : bool
      then (s.1, s.2 + if bool_decide (item.1 = "ordinary"%string) then 1 else 0)
      else (s.1 ++ [item], s.2)).

Definition insert_baseline_and_events (db : Db) (binding : IdentityAccountBinding)
    (installation epoch anchor : string) (baseline : Baseline) (events : list InboxEvent)
    (random now : Z) : ImResult (ReceiveOutcome * Db) :=
  installed ← ok_or (db_installations db !! ib_owner binding)
    (local_state_unavailable "Query returned no rows");
  if negb (bool_decide (installed = installation)) then
    Err (sync_error "SYNC_INSTALLATION_CHANGED" "baseline receive installation is no longer current")
  else
    let marker := baseline_marker baseline anchor random in
    pending ← try_fold (baseline_step db (ib_owner binding) epoch) ([], 0)
                (("baseline"%string, marker) :: ((λ e, ("ordinary"%string, e)) <$> events));
    room ← make_room db (Z.of_nat (length pending.1)) now;
    db' ← try_fold
      (λ db item, insert_input db binding installation item.1 epoch item.2 now)
      room.2 pending.1;
    Ok (mkReceiveOutcome
          (Z.of_nat (count_where (λ item : string * InboxEvent, bool_decide (item.1 = "ordinary"%string))
                       pending.1))
          pending.2 room.1, db').

(** [now] is the caller's time, [commit_now] the one read at the checkpoint. *)
Definition receive_snapshot (db : SyncDb) (checkpoint : SnapshotApplyInput)
    (binding : IdentityAccountBinding) (installation : string) (baseline : Baseline)
    (events : list InboxEvent) (random now commit_now : Z) : ImResult (ReceiveOutcome * SyncDb) :=
  _ ← validate_snapshot_receive (sd_db db) checkpoint;
  if negb (bool_decide (ib_owner binding = sa_owner checkpoint))
     || negb (bool_decide (ib_current_did binding = sa_owner_did checkpoint)) then
    Err (sync_error "SYNC_ACCOUNT_BINDING_MISMATCH"
           "snapshot queue binding does not match checkpoint")
  else
    inserted ← insert_baseline_and_events (sd_db db) binding installation
      (sa_stream_epoch checkpoint) (sa_snapshot_scan_seq checkpoint) baseline events random now;
    db' ← commit_snapshot_receive_state (with_lane_db (with_queue inserted.2 (sd_lanes db)) db)
            checkpoint commit_now;
    Ok (inserted.1, db').

(** ** Bootstrap *)

(** Lanes of the same epoch keep the received position when it is ahead. *)
Definition retain_lane (received : list LaneSyncState) (lane : LaneSyncState)
    : ImResult LaneSyncState :=
  match find (λ current, bool_decide (ln_lane current = ln_lane lane)
                         && bool_decide (ln_stream_epoch current = ln_stream_epoch lane)) received with
  | None => Ok lane
  | Some current =>
      order ← compare_decimal (ln_scan_seq current) (ln_scan_seq lane);
      Ok (if bool_decide (order = Gt) then current else lane)
  end.
Fixpoint retain_lanes (received lanes : list LaneSyncState) : ImResult (list LaneSyncState) :=
  match lanes with
  | [] => Ok []
  | lane :: lanes =>
      lane ← retain_lane received lane;
      lanes ← retain_lanes received lanes;
      Ok (lane :: lanes)
  end.

Definition with_scan_seq (state : MessageSyncState) (seq : string) : MessageSyncState :=
  mkMessageState (ms_owner state) (ms_account state) (ms_device state) (ms_auth_generation state)
    (ms_stream_epoch state) seq (ms_bootstrap_state state) (ms_last_server_time state)
    (ms_last_success_at state) (ms_last_error_code state) (ms_metadata_json state)
    (ms_updated_at state).

(** Whether the stored position belongs to an older authorization of the same
    replica; only then is it retained. *)
Definition retains_position (stored new : IdentityAccountBinding) (previous : MessageSyncState)
    : ImResult bool :=
  if negb (bool_decide (ib_account stored = ib_account new))
     || negb (bool_decide (ib_device stored = ib_device new))
     || negb (bool_decide (ib_current_did stored = ib_current_did new))
     || negb (bool_decide (ib_identity_generation stored = ib_identity_generation new))
     || negb (bool_decide (ms_account previous = ib_account new))
     || negb (bool_decide (ms_device previous = ib_device new)) then Ok false
  else
    order ← compare_decimal (ms_auth_generation previous) (ib_auth_generation new);
    Ok (bool_decide (order = Lt)).

Definition retain_bootstrap_receive_position (db : LaneDb) (input : BootstrapApplyInput)
    : ImResult BootstrapApplyInput :=
  let binding := bi_binding input in
  match load_identity_account_binding (ld_db db) (ib_owner binding),
        db_message_states (ld_db db) !! ib_owner binding with
  | Some stored, Some previous =>
      retains_position stored binding previous ≫= λ retain : bool,
      if negb retain then Ok input
      else
        let state :=
          if bool_decide (ms_stream_epoch previous = ms_stream_epoch (bi_state input))
          then with_scan_seq (bi_state input) (ms_scan_seq previous) else bi_state input in
        received ← load_lane_sync_states db (ib_owner binding);
        lanes ← retain_lanes received (bi_lane_states input);
        Ok (mkBootstrapInput binding state (bi_client_instance_id input)
              (bi_negotiated_capabilities_json input) (bi_projections input) lanes)
  | _, _ => Ok input
  end.

(** The projections are empty here, so their loops do nothing. *)
Definition apply_bootstrap_in_transaction (db : LaneDb) (input : BootstrapApplyInput)
    : ImResult LaneDb :=
  let binding := bi_binding input in
  d ← upsert_identity_account_binding (ld_db db) binding;
  db1 ← replace_lane_sync_states_in_transaction (with_store d db) (ib_owner binding)
          (bi_lane_states input);
  db2 ← record_sync_lane_capability_negotiation_v1a db1 (ib_owner binding)
          (ib_auth_generation binding) (bi_client_instance_id input)
          (bi_negotiated_capabilities_json input);
  d2 ← store_bootstrap_state (ld_db db2) (bi_state input);
  Ok (with_store d2 db2).

Definition receive_bootstrap (db : SyncDb) (input : BootstrapApplyInput) (baseline : Baseline)
    (expected_run_generation random now : Z)
    : ImResult ((ReceiveOutcome * MessageSyncState) * SyncDb) :=
  let binding := bi_binding input in
  _ ← require_message_sync_run_generation (sd_db db) (ib_owner binding)
        (Some expected_run_generation);
  if negb (bi_projections input =? 0)%nat then
    Err (sync_error "SYNC_INPUT_INVALID" "bootstrap receive header contains business projections")
  else
    kept ← retain_bootstrap_receive_position (sd_lanes db) input;
    lanes ← apply_bootstrap_in_transaction (sd_lanes db) kept;
    inserted ← insert_baseline_and_events (ld_db lanes) binding (bi_client_instance_id input)
      (ms_stream_epoch (bi_state input)) (ms_scan_seq (bi_state input)) baseline [] random now;
    Ok ((inserted.1, bi_state kept), with_lane_db (with_queue inserted.2 lanes) db).
End receive.
