(* ===== verification/BaselineProps.v ===== *)
(** * Reasoning about baselines and the legacy migration

    What the operations of [Legacy] and [Baseline] do to the owner's cursor, to the
    lanes and to the receive queue. *)

From stdpp Require Import gmap sorting.
From S2P Require Import Prelude RustStr ImError Effects Decimal Dto Store SyncStore Receipts Outbox Inbox InboxProps Lanes LaneProps Legacy Baseline.
Local Open Scope Z_scope.

(** ** Operations that leave the cursors alone *)

Definition same_states (db db' : SyncDb) : Prop :=
  db_message_states (sd_db db') = db_message_states (sd_db db).
#[export] Instance same_states_preorder : PreOrder same_states.
Proof. unfold same_states. split; [done|]. intros ??? -> ->. done. Qed.

Lemma moves_transaction {A} (R : relation SyncDb) `{!Reflexive R} (f : SyncDb → ImResult (A * SyncDb)) :
  (∀ db a db', f db = Ok (a, db') → R db db') → moves R (transaction f).
Proof.
  intros Hf db r db'. unfold transaction.
  destruct (f db) as [[a db1]|e] eqn:E; intros [= _ <-]; [by eapply Hf|done].
Qed.

Lemma upsert_recovery_frame db state db' :
  upsert_recovery_state db state = Ok db' → db' = with_recovery (db_recovery db') db.
Proof. unfold upsert_recovery_state, constraint_failed. intros Hr. by res_inv. Qed.
Lemma prune_frame db owner epoch seq n r db' :
  prune_applied_events db owner epoch seq n = Ok (r, db') → db' = with_applied (db_applied db') db.
Proof.
  unfold prune_applied_events. intros Hr. res_inv.
  repeat (destruct (_ =? _) || destruct (_ <=? _)); res_inv; [by destruct db'..|].
  match goal with H : match ?x with _ => _ end = _ |- _ => destruct x end; res_inv; [done|].
  by destruct db'.
Qed.
Lemma cleanup_frame db owner epoch seq max now r db' :
  cleanup_terminal_sync_state db owner epoch seq max now = Ok (r, db') →
  db_message_states db' = db_message_states db.
Proof.
  unfold cleanup_terminal_sync_state. intros Hr. res_inv.
  destruct (max =? 0); [by res_inv|]. res_inv.
  match goal with H : prune_applied_events _ _ _ _ _ = Ok ?x |- _ =>
    destruct x as [n db1]; apply prune_frame in H as Hp end. cbn [fst snd] in *.
  destruct (load_recovery_state _ owner) as [rec|]; res_inv; [|by rewrite Hp].
  destruct (_ && _); res_inv; simpl; by rewrite Hp.
Qed.

Lemma upsert_binding_frame db b db' :
  upsert_identity_account_binding db b = Ok db' → db_message_states db' = db_message_states db.
Proof.
  unfold upsert_identity_account_binding. intros Hu. res_inv.
  destruct (load_identity_account_binding _ _) as [cur|]; [|by res_inv].
  destruct (bool_decide _); [by res_inv|].
  match goal with H : register_p5_did_cutover _ _ = _ |- _ =>
    apply register_p5_did_cutover_frame in H as -> end. done.
Qed.
Lemma begin_run_frame db owner now r db' :
  begin_message_sync_run db owner now = Ok (r, db') → db_message_states db' = db_message_states db.
Proof. by intros (_ & _ & _ & ->)%begin_run_inv. Qed.
Lemma finish_run_frame db r b db' :
  finish_message_sync_run db r = Ok (b, db') → db_message_states db' = db_message_states db.
Proof. by intros [(_ & -> & _)|(_ & row & _ & _ & ->)]%finish_run_inv. Qed.

(** The row an advance writes: the next position, everything that identifies the
    cursor as it was. *)
Lemma advance_states db next a db' :
  advance_message_sync_state db next = Ok (Ready a, db') →
  ∃ cur, db_message_states db !! ms_owner next = Some cur ∧
    ms_stream_epoch cur = ms_stream_epoch next ∧
    db_message_states db' = <[ms_owner next := advanced_row cur next]> (db_message_states db).
Proof.
  unfold advance_message_sync_state, binding_conflict. intros Ha. res_inv.
  match goal with H : load_message_sync_state _ _ = Ok ?acc |- _ =>
    destruct acc as [cur|]; [apply load_message_sync_state_Ready in H as (Hc & _)|done] end.
  res_inv. destruct (bool_decide (ms_stream_epoch cur = ms_stream_epoch next)) eqn:E; [|done].
  bool_hyps. simpl in *. res_inv. rewrite Hc in *. exists cur. split_and!; [done..|].
  match goal with H : match ?o with _ => _ end = _ |- _ => destruct o end; res_inv; done.
Qed.
Lemma receive_ordinary_states `{QueueCodec} db input now out db' :
  receive_ordinary db input now = Ok (out, db') →
  ∃ cur, db_message_states db !! ib_owner (rb_binding input) = Some cur ∧
    ms_stream_epoch cur = rb_stream_epoch input ∧
    (ms_owner cur = ib_owner (rb_binding input) →
     ∃ cur', db_message_states db' !! ib_owner (rb_binding input) = Some cur' ∧
       ms_owner cur' = ib_owner (rb_binding input) ∧
       ms_stream_epoch cur' = rb_stream_epoch input ∧ ms_scan_seq cur' = rb_next_scan_seq input).
Proof.
  intros (cur & loop & [rm d] & db1 & next & a & (Hc & _)%load_message_sync_state_Ready & He & _ &
    Hroom%make_room_frame & Hins & (cur1 & Hc1 & He1 & Hs)%advance_states & Ho & Hep & Hsq & _)
    %receive_ordinary_inv. cbn [snd] in *.
  exists cur. split_and!; [done|done|]. intros Hown. rewrite Ho, Hown in *.
  apply (try_fold_inv (λ d', db_message_states d' = db_message_states db)) in Hins as Hf.
  2: by rewrite Hroom.
  2: { intros ?? ? _ F (row & -> & _)%insert_input_inv. done. }
  rewrite Hf, Hc in Hc1. injection Hc1 as <-. exists (advanced_row cur next).
  rewrite Hs, lookup_insert_eq. unfold advanced_row. simpl. split_and!; congruence.
Qed.
Lemma reconcile_frame `{JsonText} db owner states generation client json db' :
  reconcile_sync_lane_capability_v1a db owner states generation client json = Ok db' →
  ld_db db' = ld_db db.
Proof.
  unfold reconcile_sync_lane_capability_v1a. intros (db1 & H1 & H2)%bind_Ok.
  apply replace_lanes_inv in H1 as (_ & _ & _ & F & _).
  by apply record_capability_inv in H2 as [row ->].
Qed.
Lemma handoff_frame `{QueueCodec} db input times out db' :
  commit_sync_lane_handoff db input times = Ok (out, db') →
  db_message_states (ld_db db') = db_message_states (ld_db db).
Proof.
  intros (d1 & d2 & Ha & Hout)%handoff_inv. apply advance_lane_inv in Ha as (_ & _ & _ & ->).
  destruct out.
  - destruct Hout as (-> & id & removed & d0 & Hroom & _ & ->).
    apply make_room_frame in Hroom. simpl. by rewrite Hroom.
  - by destruct Hout as (-> & -> & _).
Qed.

(** *** The migration of a blocker *)

Section migration.
Context `{QueueCodec, JsonText}.

(** The blocker is in the queue: its event, position, content and sequence. *)
Definition queued_blocker (b : P6LaneBlocker) (t : list InboxRow) : Prop :=
  ∃ r payload input_id,
    r ∈ t ∧ from_str (bl_payload_json b) = Some payload ∧
    stable_sync_lane_input_id (bl_owner b) P6Group (bl_stream_epoch b) (bl_event_id b)
      = Ok input_id ∧
    in_input_id r = input_id ∧ in_position r = bl_event_seq b ∧
    in_event_type r = bl_event_type b ∧
    (in_payload r = payload ∨ value_eqb (in_payload r) payload = true) ∧
    in_logical_event_seq r = bl_group_event_seq b.

(** The ways a blocker's migration ends: left alone, put aside for repair, or
    moved to the queue. *)
Inductive migration (b : P6LaneBlocker) (db : SyncDb) : SyncDb → Prop :=
| MigrationLeft : migration b db db
| MigrationRepair db' :
    sd_db db' = sd_db db → ld_lanes (sd_lanes db') = ld_lanes (sd_lanes db) →
    ld_blockers (sd_lanes db') = ld_blockers (sd_lanes db) → migration b db db'
| MigrationMoved db' :
    db_message_states (sd_db db') = db_message_states (sd_db db) →
    ld_lanes (sd_lanes db') = ld_lanes (sd_lanes db) →
    ld_blockers (sd_lanes db') = ld_blockers (drop_blocker b (sd_lanes db)) →
    queued_blocker b (db_inbox (sd_db db')) → migration b db db'.

Lemma insert_migrated_spec db r installation input_id payload now db' :
  from_str (bl_payload_json (lg_blocker r)) = Some payload →
  stable_sync_lane_input_id (bl_owner (lg_blocker r)) P6Group (bl_stream_epoch (lg_blocker r))
    (bl_event_id (lg_blocker r)) = Ok input_id →
  insert_migrated db r installation input_id payload now = Ok db' →
  migration (lg_blocker r) db db'.
Proof.
  intros Hp Hid. unfold insert_migrated, constraint_failed. intros ([rm d] & Hr & Hi)%bind_Ok.
  apply make_room_frame in Hr. cbv zeta in Hi. destruct (_ || _ || _); [done|].
  injection Hi as <-. simpl in *. apply MigrationMoved; simpl; [by rewrite Hr|done|done|].
  eexists _, payload, input_id. split_and!; [apply elem_of_app; right; by left|done..| |done]. by left.
Qed.

Lemma repair_spec b reason report db res db' :
  count_repair b reason report db = (res, db') → migration b db db'.
Proof.
  unfold count_repair, record_legacy_p6_migration_repair, record_lane_transport_error.
  set (R := λ db db' : SyncDb, sd_db db' = sd_db db ∧
    ld_lanes (sd_lanes db') = ld_lanes (sd_lanes db) ∧
    ld_blockers (sd_lanes db') = ld_blockers (sd_lanes db)).
  assert (PreOrder R) by (unfold R; split; [done|intros ??? (->&->&->) (->&->&->); done]).
  intros Hr. enough (moves R (count_repair b reason report)) as HR.
  { apply HR in Hr as (? & ? & ?). by apply MigrationRepair. }
  apply (moves_bind R); [apply (moves_bind R)|by intros _ ? ? ? [= _ <-]].
  - apply (moves_transaction R). intros d [] d' Ht. destruct (owner_bound _ _); [|done].
    by injection Ht as <-.
  - intros _. apply (moves_transaction R). intros d [] d' (l & Hl & [= <-])%bind_Ok.
    unfold record_lane_transport_error, constraint_failed in Hl. by res_inv.
Qed.

Lemma set_logical_seq_elem id seq d r :
  r ∈ db_inbox d → in_input_id r = id → in_logical_event_seq r = None ∨ in_logical_event_seq r = seq →
  ∃ r', r' ∈ db_inbox (set_logical_seq id seq d) ∧ in_input_id r' = id ∧
    in_position r' = in_position r ∧ in_event_type r' = in_event_type r ∧
    in_payload r' = in_payload r ∧ in_logical_event_seq r' = seq.
Proof.
  intros Hr <- Hl. eexists. split.
  - unfold set_logical_seq, update_where. simpl. apply list_elem_of_fmap. exists r.
    rewrite bool_decide_eq_true_2 by done. split; [reflexivity|done].
  - simpl. destruct (in_logical_event_seq r); naive_solver.
Qed.

Lemma migrate_blocker_spec r now report db res db' :
  migrate_blocker r now report db = (res, db') → migration (lg_blocker r) db db'.
Proof.
  unfold migrate_blocker. set (b := lg_blocker r).
  destruct (lg_installation r) as [installation|]; [|intros [= _ <-]; apply MigrationLeft].
  destruct (from_str (bl_payload_json b)) as [payload|] eqn:Hp; [|apply repair_spec].
  destruct (negb _); [apply repair_spec|].
  destruct (stable_sync_lane_input_id _ _ _ _) as [id|e] eqn:Hid;
    [|rewrite lift_Err_bind; intros [= _ <-]; apply MigrationLeft].
  rewrite lift_Ok_bind. unfold mbind at 1, run_bind at 1, gets at 1.
  destruct (head _) as [stored|] eqn:Hh.
  - apply head_Some_elem_of, elem_of_select_where in Hh as [Hin Hk]. bool_hyps.
    destruct (already_queued b payload stored) eqn:Ha; [|apply repair_spec].
    unfold already_queued in Ha. bool_hyps.
    unfold mbind, run_bind, modify. intros [= _ <-].
    apply MigrationMoved; [done|done|done|]. simpl.
    destruct (set_logical_seq_elem id (bl_group_event_seq b) (sd_db db) stored)
      as (r' & ? & ? & ? & ? & ? & ?); [done|done| |].
    { match goal with H : _ || _ = true |- _ => apply orb_true_iff in H as [?|?] end;
        bool_hyps; eauto. }
    exists r', payload, id. split_and!; try done; [congruence..|right; congruence].
  - destruct (exists_where _ _); [apply repair_spec|]. unfold mbind, run_bind, transaction.
    destruct (insert_migrated _ _ _ _ _ _) as [db1|e] eqn:Hi; simpl; intros [= _ <-];
      [by eapply insert_migrated_spec|apply MigrationLeft].
Qed.

Lemma migration_frame b db db' :
  migration b db db' → same_states db db' ∧ ld_lanes (sd_lanes db') = ld_lanes (sd_lanes db).
Proof. unfold same_states. by intros [|? -> | ]. Qed.

Lemma migrate_rows_states rows clock report : moves same_states (migrate_rows rows clock report).
Proof.
  revert clock report. induction rows as [|r rows IH]; intros clock report; simpl.
  { by intros db x db' [= _ <-]. }
  apply (moves_bind same_states); [|intros report'; apply IH].
  intros db x db' Hm%migrate_blocker_spec. by apply migration_frame in Hm as [].
Qed.
Lemma load_installation_states owner fresh clock :
  moves same_states (load_or_create_sync_client_instance_id owner fresh clock).
Proof.
  assert (∀ {A} (r : ImResult A), moves same_states (lift r)) as Hl by (by intros A r db x db' [= _ <-]).
  assert (∀ {A} (f : SyncDb → A), moves same_states (gets f)) as Hg by (by intros A r db x db' [= _ <-]).
  assert (∀ id : string, moves same_states
    (_ ← migrate_legacy_p6_blockers_to_inbox clock; mret id)) as Hm.
  { intros id. apply (moves_bind same_states); [|by intros _ db x db' [= _ <-]].
    apply (moves_bind same_states); [apply Hg|]. intros rows. apply migrate_rows_states. }
  unfold load_or_create_sync_client_instance_id.
  apply (moves_bind same_states); [apply Hl|intros _].
  apply (moves_bind same_states); [apply Hg|intros installations].
  destruct (installations !! owner); (apply (moves_bind same_states); [|intros _; apply Hm]).
  - apply Hl.
  - apply (moves_transaction same_states). intros db [] db'. case_bool_decide; [done|].
    by intros [= <-].
Qed.
End migration.

(** ** Receiving a baseline *)

Section baseline.
Context `{QueueCodec, JsonText}.

Lemma store_bootstrap_inv db state db' :
  store_bootstrap_state db state = Ok db' →
  message_state_checks state = true ∧
  db' = complete_active_recovery
          (with_message_states (<[ms_owner state := state]> (db_message_states db)) db) state.
Proof.
  unfold store_bootstrap_state, upsert_bootstrap_state, constraint_failed. intros Hs.
  destruct (message_state_checks state); [|done]. split; [done|].
  apply bind_Ok in Hs as (d & Hd & [= <-]). destruct (_ || _); [done|]. by injection Hd as <-.
Qed.

Lemma insert_baseline_frame db binding installation epoch anchor baseline events random now out db' :
  insert_baseline_and_events db binding installation epoch anchor baseline events random now
    = Ok (out, db') → db' = with_inbox (db_inbox db') db.
Proof.
  unfold insert_baseline_and_events. intros Hi. res_inv. destruct (negb _); [done|]. res_inv.
  match goal with H : make_room _ _ _ = Ok ?x |- _ =>
    destruct x as [rm d]; apply make_room_frame in H as Hroom end. cbn [fst snd] in *.
  match goal with H : try_fold _ d _ = Ok _ |- _ =>
    apply (try_fold_inv (λ d', d' = with_inbox (db_inbox d') d)) in H as Hf end.
  - rewrite Hf, Hroom. done.
  - by destruct d.
  - intros d1 [lane ev] d2 _ F (row & -> & _)%insert_input_inv. simpl. by rewrite F.
Qed.

Lemma commit_snapshot_inv db input now db' :
  commit_snapshot_receive_state db input now = Ok db' →
  ∃ lanes, reconcile_snapshot_lanes (sd_lanes db) input = Ok lanes ∧
    db' = mkSyncDb
            (with_store (complete_active_recovery
               (with_message_states
                  (<[sa_owner input := snapshot_state input now]> (db_message_states (ld_db lanes)))
                  (ld_db lanes)) (snapshot_state input now)) lanes)
            (<[sa_owner input := (sa_older_history_excluded input, now)]> (sd_history db))
            (sd_repairs db).
Proof.
  unfold commit_snapshot_receive_state, constraint_failed. intros (lanes & Hl & Hc)%bind_Ok.
  exists lanes. split; [done|]. destruct (negb _); [done|].
  apply bind_Ok in Hc as (d & (_ & ->)%store_bootstrap_inv & [= <-]). done.
Qed.
Lemma reconcile_snapshot_frame db input db' :
  reconcile_snapshot_lanes db input = Ok db' → ld_db db' = ld_db db.
Proof.
  unfold reconcile_snapshot_lanes. destruct (sa_lane_capability_reconcile input); [|by intros [= <-]].
  apply reconcile_frame.
Qed.

Lemma receive_snapshot_inv db checkpoint binding installation baseline events random now t out db' :
  receive_snapshot db checkpoint binding installation baseline events random now t = Ok (out, db') →
  validate_snapshot_receive (sd_db db) checkpoint = Ok () ∧
  ib_owner binding = sa_owner checkpoint ∧
  ∃ d, insert_baseline_and_events (sd_db db) binding installation (sa_stream_epoch checkpoint)
         (sa_snapshot_scan_seq checkpoint) baseline events random now = Ok (out, d) ∧
       commit_snapshot_receive_state (with_lane_db (with_queue d (sd_lanes db)) db) checkpoint t
         = Ok db'.
Proof.
  unfold receive_snapshot. intros ([] & Hv & Hr)%bind_Ok. destruct (_ || _) eqn:Eg; [done|].
  bool_hyps. apply bind_Ok in Hr as ([o d] & Hi & Hr).
  apply bind_Ok in Hr as (db1 & Hc & [= <- <-]). eauto.
Qed.

Lemma receive_snapshot_states db checkpoint binding installation baseline events random now t out db' :
  receive_snapshot db checkpoint binding installation baseline events random now t = Ok (out, db') →
  db_message_states (sd_db db') =
    <[sa_owner checkpoint := snapshot_state checkpoint t]> (db_message_states (sd_db db)).
Proof.
  intros (_ & _ & d & Hi & Hc)%receive_snapshot_inv. apply insert_baseline_frame in Hi.
  apply commit_snapshot_inv in Hc as (lanes & Hl%reconcile_snapshot_frame & ->). simpl in *.
  rewrite Hl. simpl. by rewrite Hi.
Qed.

(** An event is taken: in the queue (as it is, or an earlier copy), removed with
    the oldest inputs to make room, or processed before. *)
Definition taken (db db' : Db) (removed : list RemovedInput) (owner lane epoch : string)
    (ev : InboxEvent) : Prop :=
  (∃ r, r ∈ db_inbox db' ∧ event_key r = (owner, lane, epoch, ev_event_id ev) ∧
     in_position r = ev_position ev ∧ in_payload r = ev_payload ev) ∨
  (∃ r, stored_copy (db_inbox db) owner lane epoch ev r ∧
     (r ∈ db_inbox db' ∨ removed_of r ∈ removed)) ∨
  (∃ h, receipt_hash db owner lane epoch (ev_event_id ev) = Some h ∧
     payload_hash lane (ev_payload ev) = Ok h).

Lemma baseline_loop_spec db owner epoch items s s' :
  try_fold (baseline_step db owner epoch) s items = Ok s' →
  (∀ item, item ∈ items → item ∈ s'.1 ∨ input_is_duplicate db owner item.1 epoch item.2 = Ok true) ∧
  (∀ item, item ∈ s.1 → item ∈ s'.1).
Proof.
  revert s. induction items as [|item items IH]; intros s Hf; simpl in Hf.
  { injection Hf as <-. split; [|done]. by intros ? ?%elem_of_nil. }
  apply bind_Ok in Hf as (s1 & (dup & Hd & [= <-])%bind_Ok & (H1 & H2)%IH). destruct dup; simpl in *.
  - split; [|done]. intros x [->|Hx]%elem_of_cons; [by right|by apply H1].
  - split.
    + intros x [->|Hx]%elem_of_cons; [|by apply H1]. left. apply H2, elem_of_app. right. by left.
    + intros x Hx. apply H2, elem_of_app. by left.
Qed.

(** What a committed baseline guarantees of the queue. *)
Lemma insert_baseline_spec db binding installation epoch anchor baseline events random now out db' :
  queue_wf db →
  insert_baseline_and_events db binding installation epoch anchor baseline events random now
    = Ok (out, db') →
  db_installations db !! ib_owner binding = Some installation ∧
  queue_wf db' ∧
  taken db db' (rv_removed out) (ib_owner binding) "baseline" epoch
    (baseline_marker baseline anchor random) ∧
  (∀ ev, ev ∈ events → taken db db' (rv_removed out) (ib_owner binding) "ordinary" epoch ev) ∧
  (∀ r, r ∈ db_inbox db → r ∈ db_inbox db' ∨ removed_of r ∈ rv_removed out).
Proof.
  intros Hqw Hi. pose proof (insert_baseline_frame _ _ _ _ _ _ _ _ _ _ _ Hi) as F.
  unfold insert_baseline_and_events in Hi. apply bind_Ok in Hi as (inst & Hinst%ok_or_Ok & Hi).
  destruct (negb _) eqn:Ei; [done|]. bool_hyps. subst inst. cbv zeta in Hi.
  apply bind_Ok in Hi as ([pending dups] & [Hp _]%baseline_loop_spec & Hi).
  apply bind_Ok in Hi as ([rm d] & Hroom & Hi). cbn [fst snd] in *.
  apply bind_Ok in Hi as (d' & Hins & [= <- <-]). simpl.
  apply make_room_spec in Hroom as (F0 & Hwf0 & Hsub0 & Hcap & Hpart0 & _);
    [|apply Hqw|apply Hqw|lia].
  apply insert_items_spec in Hins as (F1 & Hwf1 & Hkeep & Hlen & Hevs); [|done].
  assert (∀ r, r ∈ db_inbox db → r ∈ db_inbox d' ∨ removed_of r ∈ rm) as Hkept.
  { intros r Hr. destruct (Hpart0 r Hr); [left; by apply Hkeep|by right]. }
  assert (∀ lane ev, (lane, ev) ∈ ("baseline"%string, baseline_marker baseline anchor random)
      :: ((λ e, ("ordinary"%string, e)) <$> events) →
    taken db d' rm (ib_owner binding) lane epoch ev) as Htaken.
  { intros lane ev [Hpend|Hdup]%Hp; [left; by apply Hevs|]. right.
    apply input_is_duplicate_true in Hdup as [(r & Hr)|Hrec]; [left|by right].
    exists r. split; [done|]. apply Hkept, Hr. }
  split_and!; [done| | | |done].
  - split; [done|rewrite F; apply Hqw|]. rewrite Hlen. lia.
  - apply Htaken. by left.
  - intros ev Hev. apply Htaken, elem_of_cons. right. apply list_elem_of_fmap. by exists ev.
Qed.

(** *** Bootstrap *)

Lemma retain_inv db input kept :
  retain_bootstrap_receive_position db input = Ok kept →
  bi_binding kept = bi_binding input ∧ bi_client_instance_id kept = bi_client_instance_id input ∧
  ms_owner (bi_state kept) = ms_owner (bi_state input) ∧
  ms_stream_epoch (bi_state kept) = ms_stream_epoch (bi_state input).
Proof.
  unfold retain_bootstrap_receive_position.
  destruct (load_identity_account_binding _ _) as [stored|]; [|by intros [= <-]].
  destruct (db_message_states _ !! _) as [previous|]; [|by intros [= <-]].
  intros (retain & _ & Hk)%bind_Ok. destruct retain; simpl in Hk; [|by injection Hk as <-].
  apply bind_Ok in Hk as (received & _ & Hk). apply bind_Ok in Hk as (lanes & _ & [= <-]).
  simpl. by case_bool_decide.
Qed.

Lemma apply_bootstrap_inv db input db' :
  apply_bootstrap_in_transaction db input = Ok db' →
  ∃ d lanes, upsert_identity_account_binding (ld_db db) (bi_binding input) = Ok d ∧
    reconcile_sync_lane_capability_v1a (with_store d db) (ib_owner (bi_binding input))
      (bi_lane_states input) (ib_auth_generation (bi_binding input)) (bi_client_instance_id input)
      (bi_negotiated_capabilities_json input) = Ok lanes ∧
    db' = with_store (complete_active_recovery
            (with_message_states (<[ms_owner (bi_state input) := bi_state input]>
               (db_message_states (ld_db lanes))) (ld_db lanes)) (bi_state input)) lanes.
Proof.
  unfold apply_bootstrap_in_transaction. intros (d & Hu & Ha)%bind_Ok.
  apply bind_Ok in Ha as (db1 & H1 & Ha). apply bind_Ok in Ha as (db2 & H2 & Ha).
  apply bind_Ok in Ha as (d2 & (_ & ->)%store_bootstrap_inv & [= <-]).
  exists d, db2. split_and!; [done| |done]. unfold reconcile_sync_lane_capability_v1a.
  by rewrite H1.
Qed.

Lemma receive_bootstrap_inv db input baseline generation random now out state db' :
  receive_bootstrap db input baseline generation random now = Ok ((out, state), db') →
  ∃ kept lanes d, retain_bootstrap_receive_position (sd_lanes db) input = Ok kept ∧
    state = bi_state kept ∧ apply_bootstrap_in_transaction (sd_lanes db) kept = Ok lanes ∧
    insert_baseline_and_events (ld_db lanes) (bi_binding input) (bi_client_instance_id input)
      (ms_stream_epoch (bi_state input)) (ms_scan_seq (bi_state input)) baseline [] random now
      = Ok (out, d) ∧
    db' = with_lane_db (with_queue d lanes) db.
Proof.
  unfold receive_bootstrap. intros ([] & _ & Hr)%bind_Ok. destruct (negb _); [done|].
  apply bind_Ok in Hr as (kept & Hk & Hr). apply bind_Ok in Hr as (lanes & Ha & Hr).
  apply bind_Ok in Hr as ([o d] & Hi & [= <- <- <-]). eauto 10.
Qed.

Lemma receive_bootstrap_cursor db input baseline generation random now out state db' :
  receive_bootstrap db input baseline generation random now = Ok ((out, state), db') →
  ms_owner state = ms_owner (bi_state input) ∧
  db_message_states (sd_db db') !! ms_owner state = Some state.
Proof.
  intros (kept & lanes & d & Hk & -> & Ha & Hi & ->)%receive_bootstrap_inv.
  apply retain_inv in Hk as (_ & _ & Ho & _). split; [done|].
  apply insert_baseline_frame in Hi. apply apply_bootstrap_inv in Ha as (d0 & l & _ & _ & ->).
  simpl in *. rewrite Hi. simpl. apply lookup_insert_eq.
Qed.

Lemma retain_lane_spec db owner received cur lane kept :
  load_lane_sync_states db owner = Ok received → cur ∈ received →
  ln_lane lane = ln_lane cur → ln_stream_epoch lane = ln_stream_epoch cur →
  retain_lane received lane = Ok kept →
  ln_lane kept = ln_lane cur ∧ ln_stream_epoch kept = ln_stream_epoch cur ∧
  gen_le (ln_scan_seq cur) (ln_scan_seq kept).
Proof.
  intros Hl Hcur El Ee. unfold load_lane_sync_states, lane_binding in Hl. res_inv.
  destruct (load_identity_account_binding _ _) as [b|]; [|done]. res_inv.
  match goal with H : load_all_lane_sync_states _ _ = Ok ?x |- _ => rename x into states; rename H into Hall end.
  set (received := match _ with None => _ | Some _ => _ end) in *.
  assert (∀ x, x ∈ received → x ∈ states) as Hsub.
  { unfold received. intros y. case_match; [|done]. by intros [_ ?]%list_elem_of_filter. }
  clearbody received. unfold retain_lane.
  destruct (find _ received) as [found|] eqn:Ef.
  - apply find_some in Ef as [Hin%list_elem_of_In Hm]. bool_hyps.
    assert (ln_scan_seq found = ln_scan_seq cur) as Es.
    { destruct (load_all_elem _ _ _ _ Hall (Hsub _ Hin)) as (O1 & L1 & _).
      destruct (load_all_elem _ _ _ _ Hall (Hsub _ Hcur)) as (O2 & L2 & _).
      assert (lane_key found = lane_key cur) as Ek by (unfold lane_key; congruence).
      rewrite Ek in L1. unfold lane_row in *. congruence. }
    intros (order & (_ & _ & ->)%compare_decimal_Ok_inv & [= <-])%bind_Ok.
    case_bool_decide as Hgt; (split_and!; [congruence..|]); unfold gen_le; [by rewrite Es|].
    rewrite Es in Hgt. by apply Z.compare_le_iff in Hgt.
  - apply find_none with (x := cur) in Ef; [|by apply list_elem_of_In].
    rewrite !bool_decide_eq_true_2 in Ef by done. done.
Qed.

Lemma retain_lanes_elem received lanes kept lane :
  retain_lanes received lanes = Ok kept → lane ∈ lanes →
  ∃ k, k ∈ kept ∧ retain_lane received lane = Ok k.
Proof.
  revert kept. induction lanes as [|l lanes IH]; intros kept; simpl; [by intros _ ?%elem_of_nil|].
  intros (k & Hk & (ks & Hks & [= <-])%bind_Ok)%bind_Ok [->|Hl]%elem_of_cons.
  - exists k. split; [by left|done].
  - destruct (IH _ Hks Hl) as (k' & ? & ?). exists k'. split; [by right|done].
Qed.

(** A cursor that was replaced is the stored one. *)
Lemma put_lanes_lookup states owner db s :
  NoDup (ln_lane <$> states) → (∀ s, s ∈ states → ln_owner s = owner) → s ∈ states →
  ld_lanes (fold_left (λ db state, put_lane state db) states db) !! lane_key s = Some (lane_row s).
Proof.
  revert db. induction states as [|x states IH]; intros db Hn Ho; simpl; [by intros ?%elem_of_nil|].
  apply NoDup_cons in Hn as [Hx Hn].
  intros [->|Hs]%elem_of_cons; [|apply IH; [done|intros; by apply Ho; right|done]].
  assert (∀ l db, (∀ y, y ∈ l → lane_key y ≠ lane_key x) →
    ld_lanes (fold_left (λ db state, put_lane state db) l db) !! lane_key x
      = ld_lanes db !! lane_key x) as Hframe.
  { clear. intros l. induction l as [|y l IH]; intros db Hne; simpl; [done|].
    rewrite IH; [|intros z Hz; apply Hne; by right]. apply lookup_insert_ne. apply Hne. by left. }
  rewrite Hframe; [apply lookup_insert_eq|].
  intros y Hy E. apply Hx. unfold lane_key in E. injection E as _ E%lane_as_str_inj.
  rewrite <-E. by apply list_elem_of_fmap_2.
Qed.

Lemma retain_kept db input kept stored previous :
  load_identity_account_binding (ld_db db) (ib_owner (bi_binding input)) = Some stored →
  db_message_states (ld_db db) !! ib_owner (bi_binding input) = Some previous →
  retains_position stored (bi_binding input) previous = Ok true →
  retain_bootstrap_receive_position db input = Ok kept →
  (ms_stream_epoch previous = ms_stream_epoch (bi_state input) →
     ms_scan_seq (bi_state kept) = ms_scan_seq previous) ∧
  ∃ received, load_lane_sync_states db (ib_owner (bi_binding input)) = Ok received ∧
    retain_lanes received (bi_lane_states input) = Ok (bi_lane_states kept) ∧
    ib_owner (bi_binding kept) = ib_owner (bi_binding input).
Proof.
  intros Hb Hp Hr. unfold retain_bootstrap_receive_position. rewrite Hb, Hp, Hr. simpl.
  intros (received & Hl & (lanes & Hlanes & [= <-])%bind_Ok)%bind_Ok. simpl. split.
  - intros E. by rewrite bool_decide_eq_true_2.
  - by exists received.
Qed.

Lemma reconcile_lookup db owner states generation client json db' s :
  reconcile_sync_lane_capability_v1a db owner states generation client json = Ok db' → s ∈ states →
  ln_owner s = owner ∧ ld_lanes db' !! lane_key s = Some (lane_row s).
Proof.
  unfold reconcile_sync_lane_capability_v1a. intros (db1 & H1 & H2)%bind_Ok Hs.
  apply replace_lanes_inv in H1 as (Hall & Hn & Hl & _).
  apply record_capability_inv in H2 as [row ->]. simpl. rewrite Hl.
  split; [by apply Hall|]. apply (put_lanes_lookup _ owner); [done| |done].
  intros x Hx. by apply Hall.
Qed.

(** A snapshot is received only while its recovery is being applied. *)
Lemma snapshot_recovery_applying db input :
  validate_snapshot_receive db input = Ok () →
  ∃ rec, db_recovery db !! sa_owner input = Some rec ∧ recovery_active (rc_status rec) = true.
Proof.
  unfold validate_snapshot_receive, snapshot_cas, binding_conflict, load_recovery_state. intros Hv.
  res_inv. destruct (_ || _ || _ || _); [done|]. destruct (negb _); [done|].
  destruct (db_recovery db !! sa_owner input) as [rec|]; [|done]. exists rec. split; [done|].
  destruct (recovery_authorizes rec input) eqn:E; [|done].
  unfold recovery_authorizes in E. bool_hyps.
  match goal with H : rc_status rec = _ |- _ => by rewrite H end.
Qed.
End baseline.
