(* ===== verification/Run.v ===== *)
(** * A sync run

    [message_runtime/sync_v2.rs]: [MessageSyncRuntimeV2::receive_run] and what it
    is made of - [sync_now_once] with its paging loop, [bootstrap],
    [recover_snapshot], [refresh_lane_bootstrap] and [apply_lane_delta_sections].
    The build has the features [secure-direct] and [group-e2ee].

    A run waits for requests and for the store. Where it waits, other tasks may
    change the store ([rt_env]) and the run's deadline may pass, which cancels it
    ([Cancelled]). Requests go to an abstract server whose state is [World];
    clocks and random ids are streams read by a counter. The paging loop takes
    fuel.

    Waking the dispatcher and publishing removed inputs change no sync state and
    are left out, as is the file lock of [sync_receive_lock.rs], whose result is
    an operation of the world. *)

From stdpp Require Import gmap.
From S2P Require Import Prelude RustStr ImError Effects Decimal Dto Store SyncStore Receipts Outbox Inbox Lanes Wire Snapshot Recovery Failure Delta Legacy Baseline.
Local Open Scope Z_scope.

(** [serde_json::Number::to_string] *)
Class JsonNumber := { number_to_string : Number → string }.

(** What a run needs from its surroundings. *)
Record Runtime (World Message : Type) := mkRuntime {
  rt_rpc : World → string → Value → ImResult Value * World;
  rt_sleep : World → Z → World;
  rt_stamp : World → Stamp;
  rt_ensure_session : World → ImResult unit * World;
  rt_refresh_session : World → ImResult unit * World;
  rt_reload_authentication : World → ImResult unit * World;
  rt_active_binding : World → ImResult ActiveSyncAccountBinding * World;
  (** [ReceiveLock::acquire] under its timeout; [None] when the time is up *)
  rt_lock : World → string → option (ImResult unit) * World;
  rt_clock : nat → Z;
  rt_time : nat → string;
  rt_random : nat → Z;
  rt_fresh : nat → string;
  (** whether the run's deadline has passed *)
  rt_late : nat → bool;
  (** what other tasks do to the store meanwhile *)
  rt_env : nat → SyncDb → SyncDb;
  (** the report stored with a run *)
  rt_report : nat → ImResult (MessageSyncOutcome Message) → string;
  rt_client_did : string;
  rt_handle : option string;
  rt_service_did : string;
  (** fuel of the hydration retries *)
  rt_hydration_fuel : nat }.
Arguments mkRuntime {_ _}.
Arguments rt_rpc {_ _}.
Arguments rt_sleep {_ _}.
Arguments rt_stamp {_ _}.
Arguments rt_ensure_session {_ _}.
Arguments rt_refresh_session {_ _}.
Arguments rt_reload_authentication {_ _}.
Arguments rt_active_binding {_ _}.
Arguments rt_lock {_ _}.
Arguments rt_clock {_ _}.
Arguments rt_time {_ _}.
Arguments rt_random {_ _}.
Arguments rt_fresh {_ _}.
Arguments rt_late {_ _}.
Arguments rt_env {_ _}.
Arguments rt_report {_ _}.
Arguments rt_client_did {_ _}.
Arguments rt_handle {_ _}.
Arguments rt_service_did {_ _}.
Arguments rt_hydration_fuel {_ _}.

(** The state of a run. [rn_sent] records each [sync.delta] request with the
    store at that moment. *)
Record Run (World Message : Type) := mkRun {
  rn_world : World;
  rn_tick : nat;
  rn_db : SyncDb;
  rn_outcome : MessageSyncOutcome Message;
  rn_sent : list (Value * SyncDb) }.
Arguments mkRun {_ _}.
Arguments rn_world {_ _}.
Arguments rn_tick {_ _}.
Arguments rn_db {_ _}.
Arguments rn_outcome {_ _}.
Arguments rn_sent {_ _}.

Definition SYNC_RUN_MAX_PAGES : Z := 20.

Section pure.

(** ** Lane negotiation *)

Definition not_ready (state : SyncLaneV3 * option string) : bool :=
  bool_decide (state.2 = Some "lane_consumer_not_ready"%string)
  || (bool_decide (state.1 = P6Group)
      && bool_decide (state.2 = Some "lane_migration_repair_required"%string)).

Definition desired_v1b_lanes_from_transport_states (states : list (SyncLaneV3 * option string))
    : gset SyncLaneV3 :=
  fold_left (λ lanes state, if not_ready state then lanes ∖ {[state.1]} else lanes) states
    {[P5Device; P6Group]}.

Definition negotiated_lane_capabilities_json (lanes : SyncLaneBootstrapV3) : string :=
  "[" +:+ String.concat ","
            (json_quoted ∘ lane_capability
               <$> filter (λ lane, lane ∈ lb_capabilities lanes) [P5Device; P6Group]) +:+ "]".

Definition bootstrap_p6_activation_matches (lanes : SyncLaneBootstrapV3)
    (activated : option string) (expected : string) : bool :=
  if bool_decide (P6Group ∈ lb_capabilities lanes) then bool_decide (activated = Some expected)
  else bool_decide (activated = None).

Definition lane_states_from_bootstrap (owner : string) (bootstrap : SyncLaneBootstrapV3)
    : list LaneSyncState :=
  omap (λ lane,
    state ← lb_lanes bootstrap !! lane;
    if bool_decide (lane ∈ lb_capabilities bootstrap) then
      Some (mkLaneState owner lane (cu_stream_epoch (lcu_cursor state))
              (cu_scan_seq (lcu_cursor state)) (lcu_committed_seq state))
    else None) [P5Device; P6Group].

Definition lane_state_map (states : list LaneSyncState) : gmap SyncLaneV3 LaneSyncState :=
  fold_left (λ m state, <[ln_lane state := state]> m) states ∅.

(** ** Requests *)

(** [wire::sync::validate_limit] *)
Definition validate_sync_limit (limit : Z) : ImResult Z :=
  if limit =? 0 then
    Err (invalid_input (Some "limit"%string) "sync.delta limit must be greater than zero")
  else if 500 <? limit then
    Err (invalid_input (Some "limit"%string) "sync.delta limit must be less than or equal to 500")
  else Ok limit.

Definition check_request_reason (reason : string) : ImResult string :=
  if is_empty (trim reason) || negb (bool_decide (trim reason = reason)) then
    Err (invalid_input (Some "reason"%string)
           "message sync reason must be a non-empty canonical string")
  else Ok (trim reason).

Definition requested_lanes (lanes : gmap SyncLaneV3 LaneSyncState) (blocked : gset SyncLaneV3)
    : gmap SyncLaneV3 SyncLaneCursorV3 :=
  (λ state, mkLaneCursor (mkCursor (ln_stream_epoch state) (ln_scan_seq state))
              (ln_committed_seq state))
    <$> filter (λ kv : SyncLaneV3 * LaneSyncState, kv.1 ∉ blocked) lanes.
End pure.

Section run.
Context `{QueueCodec, JsonText, JsonNumber, WireCodec, AnpGroup}.
Context {World Message : Type} (rt : Runtime World Message).
Notation Outcome := (MessageSyncOutcome Message).
Notation M := (FlowM (Run World Message)).

(** ** Waiting *)

Definition with_world (w : World) (s : Run World Message) : Run World Message :=
  mkRun w (rn_tick s) (rn_db s) (rn_outcome s) (rn_sent s).
Definition with_db (db : SyncDb) (s : Run World Message) : Run World Message :=
  mkRun (rn_world s) (rn_tick s) db (rn_outcome s) (rn_sent s).
Definition with_outcome (o : Outcome) (s : Run World Message) : Run World Message :=
  mkRun (rn_world s) (rn_tick s) (rn_db s) o (rn_sent s).
Definition ticked (s : Run World Message) : Run World Message :=
  mkRun (rn_world s) (S (rn_tick s)) (rn_db s) (rn_outcome s) (rn_sent s).

(** Other tasks run. *)
Definition pause : M unit := writes (λ s, ticked (with_db (rt_env rt (rn_tick s) (rn_db s)) s)).
(** The same under the run's deadline. *)
Definition await : M unit := λ s,
  if rt_late rt (rn_tick s) then (Cancelled, s) else pause s.

(** A reading of a stream of the surroundings. *)
Definition next {A} (stream : nat → A) : M A := λ s, (Returned (stream (rn_tick s)), ticked s).
Definition now : M Z := next (rt_clock rt).

Definition waiting {A} (wait : M unit) (m : M (ImResult A)) : M A :=
  _ ← wait; r ← m; _ ← wait; of_result r.

(** An operation of the surroundings, and a transaction on the store. *)
Definition on_world {A} (f : World → ImResult A * World) : M (ImResult A) := λ s,
  let '(r, w) := f (rn_world s) in (Returned r, with_world w s).
Definition on_store {A} (m : RunM SyncDb A) : M (ImResult A) := λ s,
  let '(r, db) := m (rn_db s) in (Returned r, with_db db s).
Definition world {A} (f : World → ImResult A * World) : M A := waiting await (on_world f).
Definition store {A} (m : RunM SyncDb A) : M A := waiting await (on_store m).

(** An operation of the surroundings that does not wait. *)
Definition of_world {A} (f : World → ImResult A * World) : M A := r ← on_world f; of_result r.

Definition rpc (method : string) (params : Value) : M Value :=
  world (λ w, rt_rpc rt w method params).

(** Changes to the outcome being collected. *)
Definition update_outcome (f : Outcome → Outcome) : M unit :=
  writes (λ s, with_outcome (f (rn_outcome s)) s).

(** ** Store operations of a run *)

Definition load_installation (owner : string) : M string :=
  t ← reads rn_tick;
  fresh ← next (rt_fresh rt);
  store (load_or_create_sync_client_instance_id owner fresh (λ i, rt_clock rt (t + i)%nat)).

Definition desired_v1b_lanes (owner : string) : M (gset SyncLaneV3) :=
  store (gets (λ db, desired_v1b_lanes_from_transport_states
                       (load_lane_transport_states (sd_lanes db) owner))).

Definition put_recovery (state : RecoveryState) : M unit :=
  store (transaction (λ db, d ← upsert_recovery_state (sd_db db) state;
                            Ok ((), with_lane_db (with_store d (sd_lanes db)) db))).

(** [best_effort_cleanup]: whatever the cleanup says, the run goes on. *)
Definition best_effort_cleanup (state : MessageSyncState) : M unit :=
  t ← now;
  _ ← attempt (store (transaction (λ db,
        cleaned ← cleanup_terminal_sync_state (sd_db db) (ms_owner state) (ms_stream_epoch state)
                    (ms_scan_seq state) SYNC_CLEANUP_BATCH_SIZE t;
        Ok ((), with_lane_db (with_store cleaned.2 (sd_lanes db)) db))));
  mret ().

(** ** Negotiation *)

Definition require_explicit_sync_negotiation : M unit :=
  w ← reads rn_world;
  params ← of_result (build_capability_discovery_params (rt_stamp rt w) (rt_client_did rt));
  raw ← rpc "anp.get_capabilities" params;
  of_result (require_explicit_sync_negotiation_capability raw).

Definition request_bootstrap (client_instance_id : string) (lanes : gset SyncLaneV3)
    : M SyncBootstrapResponseV2 :=
  w ← reads rn_world;
  params ← of_result (build_bootstrap_params_with_lanes (rt_stamp rt w) (rt_client_did rt)
                        client_instance_id lanes);
  raw ← rpc "sync.bootstrap" params;
  of_result (parse_bootstrap_response raw).

Definition binding_mismatch {A} (message : string) : ImResult A :=
  Err (sync_error "SYNC_ACCOUNT_BINDING_MISMATCH" message).

(** Account, device, lanes, activated installation and paging of a response; a
    recovery response names no account. *)
Definition bootstrap_identity (binding : ActiveSyncAccountBinding)
    (response : SyncBootstrapResponseV2) :=
  match response with
  | TailOnly b => (sb_account_id b, sb_device_id b, sb_lane_bootstrap b,
                   sb_p6_delivery_client_instance_id b, sb_snapshot_paging_v1 b)
  | BootstrapRecoveryRequired _ lanes activated paging =>
      (ab_account binding, ab_device binding, lanes, activated, paging)
  end.

Definition bootstrap_mismatch (binding : ActiveSyncAccountBinding)
    (response : SyncBootstrapResponseV2) (requested : gset SyncLaneV3)
    (client_instance_id : string) : bool :=
  let '(account, device, lanes, activated, paging) := bootstrap_identity binding response in
  negb (bool_decide (account = ab_account binding))
  || negb (bool_decide (device = ab_device binding)) || negb paging
  || negb (bool_decide (lb_capabilities lanes = requested))
  || negb (bootstrap_p6_activation_matches lanes activated client_instance_id).

(** [refresh_lane_bootstrap_with_transport_async] *)
Definition refresh_lane_bootstrap (binding : ActiveSyncAccountBinding)
    : M (gmap SyncLaneV3 LaneSyncState) :=
  _ ← require_explicit_sync_negotiation;
  client_instance_id ← load_installation (ab_owner binding);
  requested ← desired_v1b_lanes (ab_owner binding);
  response ← request_bootstrap client_instance_id requested;
  if bootstrap_mismatch binding response requested client_instance_id then
    of_result (binding_mismatch "lane bootstrap does not match the active account device")
  else
    let lanes := (bootstrap_identity binding response).1.1.2 in
    received ← store (λ db, (load_lane_sync_states (sd_lanes db) (ab_owner binding), db));
    states ← of_result (retain_lanes received
                          (lane_states_from_bootstrap (ab_owner binding) lanes));
    _ ← store (transaction (λ db,
          l ← reconcile_sync_lane_capability_v1a (sd_lanes db) (ab_owner binding) states
                (ab_auth_generation binding) client_instance_id
                (negotiated_lane_capabilities_json lanes);
          Ok ((), with_lane_db l db)));
    mret (lane_state_map states).

(** ** Recovery *)

Definition add_pages (n : Z) (o : Outcome) : Outcome :=
  {| so_status := so_status o; so_events_applied := so_events_applied o; so_pages_fetched := n;
     so_messages_hydrated := so_messages_hydrated o;
     so_duplicates_skipped := so_duplicates_skipped o;
     so_older_history_excluded := so_older_history_excluded o;
     so_changed_conversation_ids := so_changed_conversation_ids o;
     so_committed_incoming_messages := so_committed_incoming_messages o;
     so_error_code := so_error_code o; so_warnings := so_warnings o |}.

(** [as u32] of a count. *)
Definition as_u32 (n : Z) : Z := n mod 2 ^ 32.

Definition add_received (received : ReceiveOutcome) (hydrated : Z) (older_excluded : bool)
    (o : Outcome) : Outcome :=
  {| so_status := so_status o;
     so_events_applied := u32_saturating_add (so_events_applied o) (as_u32 (rv_received received));
     so_pages_fetched := so_pages_fetched o;
     so_messages_hydrated := u32_saturating_add (so_messages_hydrated o) hydrated;
     so_duplicates_skipped :=
       u32_saturating_add (so_duplicates_skipped o) (as_u32 (rv_duplicates received));
     so_older_history_excluded := so_older_history_excluded o || older_excluded;
     so_changed_conversation_ids := so_changed_conversation_ids o;
     so_committed_incoming_messages := so_committed_incoming_messages o;
     so_error_code := so_error_code o; so_warnings := so_warnings o |}.

Definition string_or_number_value (v : option Value) : string :=
  match v with
  | Some (VString s) => s
  | Some (VNumber n) => number_to_string n
  | _ => ""
  end.

(** [Option::or_else] *)
Definition or_else {A} (o o' : option A) : option A :=
  match o with Some a => Some a | None => o' end.

Definition raw_message_identity (m : Obj) : string :=
  string_or_number_value
    (or_else (assoc "id" m) (or_else (assoc "message_id" m)
      (or_else (assoc "msg_id" m) (assoc "client_msg_id" m)))).

Definition snapshot_items (snapshot : SyncSnapshotV3) : list (SyncEventV2 * Value) :=
  ((λ item, (pm_event item, pm_message item)) <$> sv_recent_plain_messages snapshot) ++
  ((λ item, (sy_event item, sy_message item)) <$> sv_unexpired_system_notifications snapshot).

Definition snapshot_events (snapshot : SyncSnapshotV3) : list InboxEvent :=
  (λ item : SyncEventV2 * Value,
     inbox_event (Some item.2) (sv_server_time snapshot) "snapshot" item.1)
  <$> snapshot_items snapshot.

Definition snapshot_baseline (snapshot : SyncSnapshotV3) : Baseline :=
  mkBaseline (sv_server_time snapshot) (Some (sv_server_cutoff snapshot)) (sv_groups snapshot)
    (sv_read_states snapshot)
    (list_to_set (filter (λ id, id ≠ ""%string)
       (omap (λ item, raw_message_identity <$> as_object (pm_message item))
          (sv_recent_plain_messages snapshot))))
    (list_to_set ((λ item, se_event_id (sy_event item)) <$>
                    sv_unexpired_system_notifications snapshot)).

Definition snapshot_checkpoint (binding : ActiveSyncAccountBinding) (previous : MessageSyncState)
    (recovery : SyncRecoveryV2) (reconcile : option LaneCapabilityReconcileInputV1a)
    (run_generation : Z) (snapshot : SyncSnapshotV3) : SnapshotApplyInput :=
  mkSnapshotInput (ab_owner binding) (Some run_generation) (ab_current_did binding)
    (ab_account binding) (ab_device binding) (ab_auth_generation binding)
    (ms_stream_epoch previous) (ms_scan_seq previous)
    (bool_decide (ms_bootstrap_state previous = "uninitialized"%string))
    (sha256_hex (sr_recovery_id recovery))
    (cu_stream_epoch (sv_snapshot_cursor snapshot)) (cu_scan_seq (sv_snapshot_cursor snapshot))
    (sv_server_time snapshot) (sv_server_cutoff snapshot) (sv_older_history_excluded snapshot)
    reconcile.

Definition recovery_row (binding : ActiveSyncAccountBinding) (previous : MessageSyncState)
    (recovery : SyncRecoveryV2) (status : string) (started_at updated_at : Z) : RecoveryState :=
  mkRecovery (ab_owner binding) "compact_recovery" (ms_stream_epoch previous)
    (ms_scan_seq previous) (Some (sha256_hex (sr_recovery_id recovery)))
    (Some (sr_snapshot_scan_seq recovery)) status 0 None started_at updated_at.

(** The download inside the run: the pages are counted even when it fails. *)
Definition download (binding : ActiveSyncAccountBinding) (recovery : SyncRecoveryV2)
    (client_instance_id : string) : M SyncSnapshotV3 :=
  _ ← await;
  r ← (λ s : Run World Message,
         match download_snapshot (rt_rpc rt) (rt_stamp rt) (rt_client_did rt) client_instance_id
                 binding recovery (rn_world s) (so_pages_fetched (rn_outcome s)) with
         | None => (OutOfFuel, s)
         | Some (r, pages, w) =>
             (Returned r, with_outcome (add_pages pages (rn_outcome s)) (with_world w s))
         end);
  _ ← await;
  of_result r.

Definition check_snapshot_notification (binding : ActiveSyncAccountBinding)
    (item : SnapshotSystemNotificationV2) : ImResult unit :=
  _ ← validate_system_notification_event_contract (rt_service_did rt) binding (sy_event item);
  validate_system_notification_hydration binding (sy_event item) (sy_message item).

Definition recover_snapshot (binding : ActiveSyncAccountBinding) (previous : MessageSyncState)
    (recovery : SyncRecoveryV2) (reconcile : option LaneCapabilityReconcileInputV1a)
    (run_generation : Z) : M MessageSyncState :=
  started ← now;
  _ ← put_recovery (recovery_row binding previous recovery "downloading" started started);
  if negb (sr_snapshot_schema recovery =? 3)
     || negb (bool_decide (sr_snapshot_delivery recovery = "paged_v1"%string)) then
    of_result (Err (sync_error "SYNC_INVALID_SNAPSHOT"
                      "compact recovery authorization is not Schema 3 paged_v1"))
  else
    client_instance_id ← load_installation (ab_owner binding);
    snapshot ← download binding recovery client_instance_id;
    applying ← now;
    _ ← put_recovery (recovery_row binding previous recovery "applying" started applying);
    _ ← of_result (try_each (check_snapshot_notification binding)
                     (sv_unexpired_system_notifications snapshot));
    bound_at ← now; received_at ← now; committed_at ← now; random ← next (rt_random rt);
    received ← store (transaction (λ db,
      receive_snapshot db
        (snapshot_checkpoint binding previous recovery reconcile run_generation snapshot)
        (stored_binding (rt_handle rt) binding bound_at) client_instance_id
        (snapshot_baseline snapshot) (snapshot_events snapshot) random received_at committed_at));
    _ ← update_outcome (add_received received
          (as_u32 (Z.of_nat (length (sv_recent_plain_messages snapshot))))
          (sv_older_history_excluded snapshot));
    success_at ← now; updated_at ← now;
    let next_state := mkMessageState (ab_owner binding) (ab_account binding) (ab_device binding)
      (ab_auth_generation binding) (cu_stream_epoch (sv_snapshot_cursor snapshot))
      (cu_scan_seq (sv_snapshot_cursor snapshot)) "active" (Some (sv_server_time snapshot))
      (Some success_at) None (Some (recovery_metadata (sv_older_history_excluded snapshot)))
      updated_at in
    _ ← best_effort_cleanup next_state;
    mret next_state.

Definition persist_recovery_failure (owner : string) (previous : MessageSyncState)
    (code : string) : M unit :=
  t ← now;
  current ← store (gets (λ db, load_recovery_state (sd_db db) owner));
  put_recovery (mkRecovery owner "compact_recovery" (ms_stream_epoch previous)
    (ms_scan_seq previous) (current ≫= rc_recovery_id_hash) (current ≫= rc_snapshot_scan_seq)
    "retryable" (match current with
                 | Some state => i64_saturating_add (rc_retry_count state) 1
                 | None => 1
                 end) (Some code) t t).

(** ** Bootstrap *)

Definition upsert_binding (binding : IdentityAccountBinding) : M unit :=
  store (transaction (λ db, d ← upsert_identity_account_binding (sd_db db) binding;
                            Ok ((), with_lane_db (with_store d (sd_lanes db)) db))).

Definition tail_state (binding : ActiveSyncAccountBinding) (b : SyncBootstrapV2) (t : Z)
    : MessageSyncState :=
  mkMessageState (ab_owner binding) (ab_account binding) (ab_device binding)
    (ab_auth_generation binding) (cu_stream_epoch (sb_cursor b)) (cu_scan_seq (sb_cursor b))
    "tail_bootstrapped" (Some (sb_server_time b)) (Some t) None
    (Some ("{" +:+ json_quoted "mode" +:+ ":" +:+ json_quoted "tail_only" +:+ "}")%string) t.

Definition uninitialized_state (binding : ActiveSyncAccountBinding) (recovery : SyncRecoveryV2)
    (t : Z) : MessageSyncState :=
  mkMessageState (ab_owner binding) (ab_account binding) (ab_device binding)
    (ab_auth_generation binding) (sr_stream_epoch recovery) "0" "uninitialized" None None None
    None t.

Definition bootstrap (binding : ActiveSyncAccountBinding) (run_generation : Z)
    : M MessageSyncState :=
  _ ← require_explicit_sync_negotiation;
  client_instance_id ← load_installation (ab_owner binding);
  requested ← desired_v1b_lanes (ab_owner binding);
  response ← request_bootstrap client_instance_id requested;
  match response with
  | BootstrapRecoveryRequired recovery lanes _ _ =>
      if bootstrap_mismatch binding response requested client_instance_id then
        of_result (binding_mismatch
          "sync.bootstrap recovery does not match the active account device")
      else
        t ← now;
        _ ← upsert_binding (stored_binding (rt_handle rt) binding t);
        recover_snapshot binding (uninitialized_state binding recovery t) recovery
          (Some (mkReconcile client_instance_id (negotiated_lane_capabilities_json lanes)
                   (lane_states_from_bootstrap (ab_owner binding) lanes))) run_generation
  | TailOnly b =>
      if bootstrap_mismatch binding response requested client_instance_id then
        of_result (binding_mismatch
          "sync.bootstrap response does not match the active account device")
      else
        t ← now; received_at ← now; random ← next (rt_random rt);
        received ← store (transaction (λ db,
          receive_bootstrap db
            (mkBootstrapInput (stored_binding (rt_handle rt) binding t) (tail_state binding b t)
               client_instance_id (negotiated_lane_capabilities_json (sb_lane_bootstrap b)) 0
               (lane_states_from_bootstrap (ab_owner binding) (sb_lane_bootstrap b)))
            (mkBaseline (sb_server_time b) None (sb_group_state_baseline b)
               (sb_read_state_baseline b) ∅ ∅)
            run_generation random received_at));
        mret received.2
  end.

(** ** One page *)

Record LoopVars := mkVars {
  lv_state : MessageSyncState;
  lv_lanes : gmap SyncLaneV3 LaneSyncState;
  lv_recovery_token_retries : Z;
  lv_failures : gmap string Z;
  lv_blocked : gset SyncLaneV3;
  lv_attempted : gset SyncLaneV3;
  lv_pages : Z }.

Definition lane_outcome (run : LaneRun) (o : Outcome) : Outcome :=
  {| so_status := so_status o; so_events_applied := ru_applied run;
     so_pages_fetched := so_pages_fetched o; so_messages_hydrated := so_messages_hydrated o;
     so_duplicates_skipped := ru_duplicates run;
     so_older_history_excluded := so_older_history_excluded o;
     so_changed_conversation_ids := so_changed_conversation_ids o;
     so_committed_incoming_messages := so_committed_incoming_messages o;
     so_error_code := so_error_code o; so_warnings := ru_warnings run |}.

Definition add_warnings (l : list string) (o : Outcome) : Outcome :=
  {| so_status := so_status o; so_events_applied := so_events_applied o;
     so_pages_fetched := so_pages_fetched o; so_messages_hydrated := so_messages_hydrated o;
     so_duplicates_skipped := so_duplicates_skipped o;
     so_older_history_excluded := so_older_history_excluded o;
     so_changed_conversation_ids := so_changed_conversation_ids o;
     so_committed_incoming_messages := so_committed_incoming_messages o;
     so_error_code := so_error_code o; so_warnings := so_warnings o ++ l |}.

(** The lane sections of a page, committed event by event. *)
Definition take_lane_sections (binding : ActiveSyncAccountBinding) (client_instance_id : string)
    (page : SyncDeltaPageV2) (requested : gset SyncLaneV3) (vars : LoopVars) : M LaneRun :=
  _ ← await;
  r ← (λ s : Run World Message,
         let t := rn_tick s in
         let start := mkLaneRun (sd_lanes (rn_db s)) t (lv_lanes vars) (lv_blocked vars)
           (lv_attempted vars) ∅ (so_events_applied (rn_outcome s))
           (so_duplicates_skipped (rn_outcome s)) (so_warnings (rn_outcome s)) false in
         let '(r, run) :=
           apply_lane_delta_sections (rt_clock rt) binding client_instance_id
             (λ lane, rt_time rt match lane with P5Device => t | P6Group => S t end)
             (dp_lanes page) (dp_lane_transport_invalid page) requested start in
         (Returned (match r with Ok _ => Ok run | Err e => Err e end),
          mkRun (rn_world s) (S (ru_readings run)) (with_lane_db (ru_db run) (rn_db s))
            (lane_outcome run (rn_outcome s)) (rn_sent s)));
  _ ← await;
  of_result r.

(** [apply_lane_delta_sections]: the lanes, the blocked and the attempted ones,
    and whether a lane has more. *)
Definition apply_lanes (binding : ActiveSyncAccountBinding) (client_instance_id : string)
    (page : SyncDeltaPageV2) (requested : gset SyncLaneV3) (vars : LoopVars)
    : M (gmap SyncLaneV3 LaneSyncState * gset SyncLaneV3 * gset SyncLaneV3 * bool) :=
  run ← take_lane_sections binding client_instance_id page requested vars;
  if bool_decide (ru_recover run = ∅) then
    mret (ru_states run, ru_blocked run, ru_attempted run, ru_has_more run)
  else
    refreshed ← attempt (refresh_lane_bootstrap binding);
    match refreshed with
    | Ok lanes => mret (lanes, ru_blocked run, ru_attempted run, true)
    | Err _ =>
        let deferred := filter (λ lane, lane ∈ ru_recover run) [P5Device; P6Group] in
        _ ← update_outcome (add_warnings
              ((λ lane, lane_warning lane "recovery_deferred") <$> deferred));
        mret (ru_states run, ru_blocked run ∪ ru_recover run, ru_attempted run, ru_has_more run)
    end.

Definition hydrate (ids : list string) (failures : gmap string Z)
    : M (gmap string Value * gmap string Z) :=
  match ids with
  | [] => mret (∅, failures)
  | _ =>
      _ ← await;
      r ← (λ s : Run World Message,
             match hydrate_required_messages_with_budget (rt_rpc rt) (rt_sleep rt) (rt_stamp rt)
                     (rt_hydration_fuel rt) (rt_client_did rt) ids failures (rn_world s) with
             | None => (OutOfFuel, s)
             | Some (r, failures, w) => (Returned (r, failures), with_world w s)
             end);
      _ ← await;
      hydrated ← of_result r.1;
      mret (hydrated.1, r.2)
  end.

Definition count_page (page : SyncDeltaPageV2) (o : Outcome) : Outcome :=
  add_warnings (dp_warnings page) (add_pages (u32_saturating_add (so_pages_fetched o) 1) o).

Definition add_hydrated_count (n : Z) (o : Outcome) : Outcome :=
  add_received (mkReceiveOutcome 0 0 []) n false o.

(** [sort] and [dedup] of the changed conversations, and the final status. *)
Fixpoint dedup_adjacent (l : list string) : list string :=
  match l with
  | x :: ((y :: _) as rest) => if bool_decide (x = y) then dedup_adjacent rest else x :: dedup_adjacent rest
  | _ => l
  end.
Definition finish_outcome (o : Outcome) : Outcome :=
  let changed := dedup_adjacent (merge_sort str_le (so_changed_conversation_ids o)) in
  {| so_status := if (so_events_applied o =? 0) && (length changed =? 0)%nat then Idle else Changed;
     so_events_applied := so_events_applied o; so_pages_fetched := so_pages_fetched o;
     so_messages_hydrated := so_messages_hydrated o;
     so_duplicates_skipped := so_duplicates_skipped o;
     so_older_history_excluded := so_older_history_excluded o;
     so_changed_conversation_ids := changed;
     so_committed_incoming_messages := so_committed_incoming_messages o;
     so_error_code := so_error_code o; so_warnings := so_warnings o |}.

(** The cursor after a page. *)
Definition advanced_state (state : MessageSyncState) (page : SyncDeltaPageV2) (t : Z)
    : MessageSyncState :=
  mkMessageState (ms_owner state) (ms_account state) (ms_device state) (ms_auth_generation state)
    (cu_stream_epoch (dp_next_cursor page)) (cu_scan_seq (dp_next_cursor page)) "active"
    (Some (dp_server_time page)) (Some t) (ms_last_error_code state) (ms_metadata_json state)
    (ms_updated_at state).

(** What an iteration decides. *)
Inductive Control : Type :=
| Continue (vars : LoopVars)
| Stop.

Definition request_delta (vars : LoopVars) (limit : Z) (reason client_instance_id : string)
    : M SyncDeltaResponseV2 :=
  w ← reads rn_world;
  params ← of_result (build_delta_params_with_lanes (rt_stamp rt w) (rt_client_did rt)
             (mkCursor (ms_stream_epoch (lv_state vars)) (ms_scan_seq (lv_state vars))) limit reason
             (requested_lanes (lv_lanes vars) (lv_blocked vars)) client_instance_id);
  _ ← writes (λ s, mkRun (rn_world s) (rn_tick s) (rn_db s) (rn_outcome s)
                     (rn_sent s ++ [(params, rn_db s)]));
  raw ← rpc "sync.delta" params;
  of_result (parse_delta_response raw).

(** A recovery the server asks for instead of a page. *)
Definition recover_once (binding : ActiveSyncAccountBinding) (run_generation : Z)
    (recovery : SyncRecoveryV2) (vars : LoopVars) : M LoopVars :=
  recovered ← attempt (recover_snapshot binding (lv_state vars) recovery None run_generation);
  match recovered with
  | Ok state =>
      mret (mkVars state (lv_lanes vars) 0 (lv_failures vars) (lv_blocked vars)
              (lv_attempted vars) (lv_pages vars))
  | Err error =>
      if code_in (error_code error)
           ["sync.recovery_token_invalid"; "sync.recovery_token_expired"]%string
         && (lv_recovery_token_retries vars <? 1) then
        _ ← persist_recovery_failure (ab_owner binding) (lv_state vars)
              (default "SYNC_RECOVERY_RETRY"%string (error_code error));
        mret (mkVars (lv_state vars) (lv_lanes vars) (lv_recovery_token_retries vars + 1)
                (lv_failures vars) (lv_blocked vars) (lv_attempted vars) (lv_pages vars))
      else
        _ ← persist_recovery_failure (ab_owner binding) (lv_state vars)
              (default "SYNC_RECOVERY_FAILED"%string (error_code error));
        of_result (Err error)
  end.

Definition apply_page (binding : ActiveSyncAccountBinding) (client_instance_id : string)
    (run_generation : Z) (page : SyncDeltaPageV2) (vars : LoopVars) : M Control :=
  let state := lv_state vars in
  _ ← of_result (validate_page_binding page binding state);
  _ ← update_outcome (count_page page);
  let pages := u32_saturating_add (lv_pages vars) 1 in
  lanes ← apply_lanes binding client_instance_id page
            (dom (requested_lanes (lv_lanes vars) (lv_blocked vars))) vars;
  let '(lane_states, blocked, attempted, lane_has_more) := lanes in
  _ ← of_result (try_each (validate_system_notification_event_contract (rt_service_did rt) binding)
                   (filter (λ e, is_notification e = true) (dp_events page)));
  let ids := hydration_event_ids (dp_events page) in
  hydrated ← hydrate ids (lv_failures vars);
  _ ← (match ids with
       | [] => mret ()
       | _ => update_outcome (add_hydrated_count (Z.min u32_max (Z.of_nat (length
                (filter (λ e, se_event_type e = "message.created"%string) (dp_events page))))))
       end);
  _ ← of_result (try_each (check_notification_hydration binding hydrated.1)
                   (filter (λ e, is_notification e = true) (dp_events page)));
  bound_at ← now; received_at ← now;
  received ← store (transaction (λ db,
    r ← receive_ordinary (sd_db db)
          (receive_batch (stored_binding (rt_handle rt) binding bound_at) client_instance_id
             run_generation (ms_scan_seq state) hydrated.1 page) received_at;
    Ok (r.1, with_lane_db (with_queue r.2 (sd_lanes db)) db)));
  _ ← update_outcome (add_received received 0 false);
  success_at ← now;
  let next_state := advanced_state state page success_at in
  late ← next (rt_late rt);
  let next_vars := mkVars next_state lane_states (lv_recovery_token_retries vars) hydrated.2 blocked
                     attempted pages in
  if (dp_has_more page || lane_has_more) && ((SYNC_RUN_MAX_PAGES <=? pages) || late) then
    _ ← update_outcome (λ o, finish_outcome (add_warnings ["sync.budget_exhausted"%string] o));
    _ ← best_effort_cleanup next_state;
    mret Stop
  else if dp_has_more page && bool_decide (ms_scan_seq next_state = ms_scan_seq state) then
    of_result (Wire.invalid_page "sync.delta returned has_more without cursor progress")
  else if negb (dp_has_more page) && negb lane_has_more then
    _ ← update_outcome finish_outcome;
    _ ← best_effort_cleanup next_state;
    mret Stop
  else mret (Continue next_vars).

Definition sync_iteration (binding : ActiveSyncAccountBinding) (limit : Z)
    (reason client_instance_id : string) (run_generation : Z) (vars : LoopVars) : M Control :=
  response ← request_delta vars limit reason client_instance_id;
  match response with
  | Delta page => apply_page binding client_instance_id run_generation page vars
  | DeltaRecoveryRequired recovery =>
      vars ← recover_once binding run_generation recovery vars; mret (Continue vars)
  end.

Fixpoint sync_loop (fuel : nat) (binding : ActiveSyncAccountBinding) (limit : Z)
    (reason client_instance_id : string) (run_generation : Z) (vars : LoopVars) : M unit :=
  match fuel with
  | O => λ s, (OutOfFuel, s)
  | S fuel =>
      control ← sync_iteration binding limit reason client_instance_id run_generation vars;
      match control with
      | Stop => mret ()
      | Continue vars => sync_loop fuel binding limit reason client_instance_id run_generation vars
      end
  end.

(** ** The run *)

(** [sync_now_once]: its second component is always [None]. *)
Definition sync_now_once (fuel : nat) (request : MessageSyncRequest) (run_generation : Z)
    : M (Outcome * option ImError) :=
  _ ← world (rt_ensure_session rt);
  limit ← of_result (validate_sync_limit (default 100 (Dto.limit request)));
  reason ← of_result (check_request_reason (Dto.reason request));
  binding ← world (rt_active_binding rt);
  let owner := ab_owner binding in
  _ ← update_outcome (λ _, empty_outcome);
  access ← store (λ db, (load_message_sync_state (sd_db db) owner, db));
  state ← (match access with
           | Ready state => mret state
           | BootstrapRequired _ => bootstrap binding run_generation
           end);
  desired ← desired_v1b_lanes owner;
  negotiate ← store (λ db, (lane_capability_negotiation_required_with_lanes (sd_lanes db) owner
                              (ab_auth_generation binding) (Some (elements desired)), db));
  _ ← (if negotiate : bool then _ ← refresh_lane_bootstrap binding; mret () else mret ());
  lanes ← store (λ db, (load_lane_sync_states (sd_lanes db) owner, db));
  client_instance_id ← load_installation owner;
  _ ← sync_loop fuel binding limit reason client_instance_id run_generation
        (mkVars state (lane_state_map lanes) 0 ∅ ∅ ∅ 0);
  outcome ← reads rn_outcome;
  mret (outcome, None).

Definition refresh_session_and_lane_epoch : M unit :=
  _ ← world (rt_refresh_session rt);
  _ ← of_world (rt_reload_authentication rt);
  binding ← world (rt_active_binding rt);
  _ ← refresh_lane_bootstrap binding;
  mret ().

(** The body under the deadline: one retry after a rejected device epoch. *)
Definition run_body (fuel : nat) (request : MessageSyncRequest) (run_generation : Z)
    : M Outcome :=
  first ← attempt (sync_now_once fuel request run_generation);
  match first with
  | Ok (outcome, _) => mret outcome
  | Err error =>
      if is_device_epoch_rejection error then
        _ ← refresh_session_and_lane_epoch;
        second ← sync_now_once fuel request run_generation;
        match second with
        | (outcome, None) => mret outcome
        | (_, Some error) => of_result (Err error)
        end
      else of_result (Err error)
  end.

(** [tokio::time::timeout] around it. *)
Definition under_deadline (m : M Outcome) : M (ImResult Outcome) := λ s,
  match m s with
  | (Returned o, s') => (Returned (Ok o), s')
  | (Failed e, s') => (Returned (Err e), s')
  | (Cancelled, s') =>
      (Returned (Ok (add_warnings ["sync.budget_exhausted"%string] empty_outcome)), s')
  | (OutOfFuel, s') => (OutOfFuel, s')
  end.

Definition free_world {A} (f : World → ImResult A * World) : M A := waiting pause (on_world f).
Definition free_store {A} (m : RunM SyncDb A) : M A := waiting pause (on_store m).

Definition acquire_lock (owner : string) : M unit :=
  _ ← pause;
  r ← (λ s : Run World Message,
         let '(r, w) := rt_lock rt (rn_world s) owner in (Returned r, with_world w s));
  _ ← pause;
  match r with
  | Some r => of_result r
  | None => of_result (Err (sync_error "SYNC_RECEIVE_BUSY"
                              "another receiver still owns this account sync"))
  end.

Definition receive_run (fuel : nat) (request : MessageSyncRequest) : M Outcome :=
  _ ← free_world (rt_ensure_session rt);
  binding ← free_world (rt_active_binding rt);
  _ ← acquire_lock (ab_owner binding);
  started ← now;
  run ← free_store (transaction (λ db,
          r ← begin_message_sync_run (sd_db db) (ab_owner binding) started;
          Ok (r.1, with_lane_db (with_store r.2 (sd_lanes db)) db)));
  final_result ← under_deadline (run_body fuel request (rs_run_generation run));
  finished_at ← now;
  report ← next (rt_report rt);
  finished ← free_store (transaction (λ db,
               r ← finish_receive_run (sd_db db) run final_result (report final_result) finished_at;
               Ok (r.1, with_lane_db (with_store r.2 (sd_lanes db)) db)));
  of_result finished.

Definition receive_now (fuel : nat) (request : MessageSyncRequest) : M MessageReceiveOutcome :=
  outcome ← receive_run fuel request;
  mret (from_receive_run outcome).
End run.
