(* ===== verification/RunProps.v ===== *)
(** * Reasoning about a sync run

    Two analyses of [Run]: that a run ends ([settles]: its waiting never uses up
    its fuel and only moves its time forward), and what its steps do to the
    owner's cursor and to the requests already sent. *)

From stdpp Require Import gmap.
From S2P Require Import Prelude RustStr ImError Effects Decimal Dto Store SyncStore Receipts Outbox Inbox InboxProps Lanes Wire Snapshot WireProps Recovery RecoveryProps Failure Delta DeltaProps Legacy Baseline Run.
Local Open Scope Z_scope.

(** ** The lane sections of a page *)

(** A preorder that ignores everything but the store and the clock readings, and
    allows the handoff of an event, relates the states before and after a page. *)
Create HintDb moves.

Section sections.
Context `{QueueCodec, AnpGroup} (clock : nat → Z) (binding : ActiveSyncAccountBinding).
Context (client : string) (received_at : SyncLaneV3 → string).
Context (R : relation LaneRun) `{!PreOrder R}.
Hypothesis same : ∀ s s', ru_db s' = ru_db s → ru_readings s' = ru_readings s → R s s'.
Hypothesis handoff : ∀ s input times outcome db,
  commit_sync_lane_handoff (ru_db s) input times = Ok (outcome, db) → R s (handed db outcome s).

Lemma moves_modify f : (∀ s, ru_db (f s) = ru_db s ∧ ru_readings (f s) = ru_readings s) →
  moves R (modify f).
Proof using same. intros Hf s r s' [= _ <-]. destruct (Hf s). by apply same. Qed.
Lemma moves_lift {A} (r : ImResult A) : moves R (lift r).
Proof using PreOrder0. by intros s r' s' [= _ <-]. Qed.
Lemma moves_gets {A} (f : LaneRun → A) : moves R (gets f).
Proof using PreOrder0. by intros s r' s' [= _ <-]. Qed.
Lemma moves_mret {A} (a : A) : moves R (mret a).
Proof using PreOrder0. by intros s r' s' [= _ <-]. Qed.
Lemma moves_block lane what : moves R (block_with lane what).
Proof using same. by apply moves_modify. Qed.
Hint Resolve moves_lift moves_gets moves_mret moves_block : moves.

Lemma moves_hand_off lane epoch event :
  moves R (hand_off_event clock binding client received_at lane epoch event).
Proof using All.
  unfold hand_off_event. destruct (_ || _); [apply (moves_bind R); auto with moves|].
  intros s r s'. destruct (commit_sync_lane_handoff _ _ _) as [[outcome db]|e] eqn:E.
  { intros [= _ <-]. by eapply handoff. }
  assert (∀ what, moves R (_ ← block_with lane what; mret true)) as Hb.
  { intros what. apply (moves_bind R); auto with moves. }
  destruct (bool_decide _); [apply Hb|]. destruct (bool_decide _); [apply Hb|by intros [= _ <-]].
Qed.
Lemma moves_hand_offs lane epoch events :
  moves R (hand_off_events clock binding client received_at lane epoch events).
Proof using All.
  induction events as [|e events IH]; simpl; [apply moves_mret|].
  apply (moves_bind R); [apply moves_hand_off|]. intros []; [apply moves_mret|done].
Qed.
Lemma moves_page lane events next more :
  moves R (apply_lane_page clock binding client received_at lane events next more).
Proof using All.
  unfold apply_lane_page. apply (moves_bind R); [apply moves_gets|]. intros states.
  destruct (states !! lane) as [current|]; [|apply moves_lift].
  apply (moves_bind R); [apply moves_lift|]. intros [|]; [apply moves_lift|].
  apply (moves_bind R); [apply moves_lift|]. intros _.
  apply (moves_bind R); [apply moves_hand_offs|]. intros [|]; [apply moves_mret|].
  apply (moves_bind R); [by apply moves_modify|]. intros _.
  destruct (_ && _); [apply moves_lift|by apply moves_modify].
Qed.
Lemma moves_sections sections invalid requested :
  moves R (apply_lane_delta_sections clock binding client received_at sections invalid requested).
Proof using All.
  unfold apply_lane_delta_sections. apply (moves_bind R); [|intros _; apply (moves_bind R)].
  - destruct invalid; [by apply moves_modify|apply moves_mret].
  - apply (moves_each R). intros lane. destruct (_ && _); auto with moves.
  - intros _. apply (moves_each R). intros lane. unfold apply_lane_section.
    destruct (sections !! lane) as [section|]; [|apply moves_mret].
    destruct (negb _); [by apply moves_modify|]. destruct section as [events next more|error|].
    + apply moves_page.
    + apply (moves_bind R); [apply moves_gets|]. intros attempted.
      destruct (_ && _); [by apply moves_modify|apply moves_block].
    + apply moves_block.
Qed.
End sections.

(** ** A run ends *)

Section settling.
Context `{QueueCodec, JsonText, JsonNumber, WireCodec, AnpGroup}.
Context {World Message : Type} (rt : Runtime World Message).
Notation M := (FlowM (Run World Message)).
Notation since t := (λ s : Run World Message, (t ≤ rn_tick s)%nat).

(** Time moves forward and no fuel runs out. *)
Definition settles {A} (m : M A) : Prop :=
  ∀ t, triple (since t) m (λ r s, r ≠ OutOfFuel ∧ since t s).

Lemma settles_bind {A B} (m : M A) (f : A → M B) :
  settles m → (∀ a, settles (f a)) → settles (m ≫= f).
Proof.
  intros Hm Hf t. apply (triple_bind _ _ _ (λ _, since t)); [|intros a; apply Hf].
  apply (triple_weaken _ _ _ _ _ (Hm t)); [done|]. by intros [] s [? ?].
Qed.
Lemma settles_ret {A} (a : A) : settles (mret a : M A).
Proof. intros t. by apply triple_ret. Qed.
Lemma settles_of_result {A} (r : ImResult A) : settles (of_result r : M A).
Proof. intros t. by apply triple_of_result. Qed.
Lemma settles_reads {A} (f : Run World Message → A) : settles (reads f).
Proof. by intros t s Hs. Qed.
Lemma settles_writes f : (∀ s, rn_tick (f s) = rn_tick s) → settles (writes f : M unit).
Proof. intros Hf t s Hs. simpl. by rewrite Hf. Qed.
Lemma settles_attempt {A} (m : M A) : settles m → settles (attempt m).
Proof.
  intros Hm t. apply triple_attempt. apply (triple_weaken _ _ _ _ _ (Hm t)); [done|].
  by intros [] s [? ?].
Qed.
Lemma settles_next {A} (stream : nat → A) : settles (next stream : M A).
Proof. intros t s Hs. simpl in *. split; [done|lia]. Qed.
Lemma settles_pause : settles (pause rt).
Proof. intros t s Hs. simpl in *. split; [done|lia]. Qed.
Lemma settles_await : settles (await rt).
Proof. intros t s Hs. unfold await. destruct (rt_late rt _); [done|]. by apply settles_pause. Qed.
Lemma settles_on_world {A} (f : World → ImResult A * World) : settles (on_world f : M _).
Proof. intros t s Hs. unfold on_world. by destruct (f _). Qed.
Lemma settles_on_store {A} (m : RunM SyncDb A) : settles (on_store m : M _).
Proof. intros t s Hs. unfold on_store. by destruct (m _). Qed.
End settling.

Create HintDb settle.
#[export] Hint Resolve settles_bind settles_ret settles_of_result settles_reads settles_attempt
  settles_next settles_pause settles_await settles_on_world settles_on_store : settle.
#[export] Hint Extern 1 (settles (writes _)) => (apply settles_writes; done) : settle.
Ltac settle :=
  intros;
  lazymatch goal with
  | |- settles (match ?x with _ => _ end) => destruct x; settle
  | |- _ => first [solve [auto with settle] | apply settles_bind; settle | fail]
  end.

Section run.
Context `{QueueCodec, JsonText, JsonNumber, WireCodec, AnpGroup}.
Context {World Message : Type} (rt : Runtime World Message).
Notation M := (FlowM (Run World Message)).

Lemma settles_waiting {A} (wait : M unit) (m : M (ImResult A)) :
  settles wait → settles m → settles (waiting wait m).
Proof. unfold waiting. settle. Qed.
Hint Resolve settles_waiting : settle.
Lemma settles_world {A} (f : World → ImResult A * World) : settles (world rt f).
Proof. unfold world. settle. Qed.
Lemma settles_store {A} (m : RunM SyncDb A) : settles (store rt m).
Proof. unfold store. settle. Qed.
Hint Resolve settles_world settles_store : settle.

Lemma settles_load_installation owner : settles (load_installation rt owner).
Proof. unfold load_installation. settle. Qed.
Lemma settles_desired owner : settles (desired_v1b_lanes rt owner).
Proof. unfold desired_v1b_lanes. settle. Qed.
Lemma settles_cleanup state : settles (best_effort_cleanup rt state).
Proof. unfold best_effort_cleanup, now. settle. Qed.
Lemma settles_require_negotiation : settles (require_explicit_sync_negotiation rt).
Proof. unfold require_explicit_sync_negotiation, rpc. settle. Qed.
Lemma settles_request_bootstrap client lanes : settles (request_bootstrap rt client lanes).
Proof. unfold request_bootstrap, rpc. settle. Qed.
Hint Resolve settles_load_installation settles_desired settles_cleanup settles_require_negotiation
  settles_request_bootstrap : settle.

Lemma settles_refresh binding : settles (refresh_lane_bootstrap rt binding).
Proof. unfold refresh_lane_bootstrap. settle. Qed.
Hint Resolve settles_refresh : settle.

Lemma settles_update f : settles (update_outcome f : M unit).
Proof. by apply settles_writes. Qed.
Lemma settles_now : settles (now rt).
Proof. apply settles_next. Qed.
Lemma settles_put_recovery state : settles (put_recovery rt state).
Proof. unfold put_recovery. settle. Qed.
Lemma settles_upsert_binding b : settles (upsert_binding rt b).
Proof. unfold upsert_binding. settle. Qed.
Hint Resolve settles_update settles_now settles_put_recovery settles_upsert_binding : settle.

Lemma settles_download binding recovery client : settles (download rt binding recovery client).
Proof.
  unfold download. apply settles_bind; [settle|intros _]. apply settles_bind; [|settle].
  intros t s Hs. unfold download_snapshot.
  destruct (_ || _); [done|].
  destruct (fetch_pages_total (rt_rpc rt) (rt_stamp rt) (rt_client_did rt) client binding recovery
    FETCH_FUEL (rn_world s) None None (so_pages_fetched (rn_outcome s)))
    as [[[r pages] w] ->]; [done..|]. by destruct r as [[]|].
Qed.
Hint Resolve settles_download : settle.
Lemma settles_recover binding previous recovery reconcile generation :
  settles (recover_snapshot rt binding previous recovery reconcile generation).
Proof. unfold recover_snapshot. settle. Qed.
Lemma settles_persist owner previous code : settles (persist_recovery_failure rt owner previous code).
Proof. unfold persist_recovery_failure. settle. Qed.
Hint Resolve settles_recover settles_persist : settle.
Lemma settles_bootstrap binding generation : settles (bootstrap rt binding generation).
Proof. unfold bootstrap. settle. Qed.

Lemma settles_take_sections binding client page requested vars :
  settles (take_lane_sections rt binding client page requested vars).
Proof.
  unfold take_lane_sections. apply settles_bind; [settle|intros _].
  apply settles_bind; [|settle]. intros t s Hs.
  destruct (apply_lane_delta_sections _ _ _ _ _ _ _ _) as [r run] eqn:E.
  assert (PreOrder (λ s s' : LaneRun, (ru_readings s ≤ ru_readings s')%nat))
    by (split; [intros ?; lia|intros ???; lia]).
  apply (moves_sections _ _ _ _ (λ s s', (ru_readings s ≤ ru_readings s')%nat)) in E.
  - simpl in *. split; [done|lia].
  - intros ?? _ ->. lia.
  - intros. simpl. lia.
Qed.
Hint Resolve settles_bootstrap settles_take_sections : settle.
Lemma settles_apply_lanes binding client page requested vars :
  settles (apply_lanes rt binding client page requested vars).
Proof. unfold apply_lanes. settle. Qed.
Lemma settles_request_delta vars limit reason client :
  settles (request_delta rt vars limit reason client).
Proof. unfold request_delta, rpc. settle. Qed.
Lemma settles_recover_once binding generation recovery vars :
  settles (recover_once rt binding generation recovery vars).
Proof. unfold recover_once. settle. Qed.
Hint Resolve settles_apply_lanes settles_request_delta settles_recover_once : settle.
End run.
#[export] Hint Resolve settles_waiting settles_world settles_store settles_load_installation
  settles_desired settles_cleanup settles_require_negotiation settles_request_bootstrap
  settles_refresh settles_update settles_now settles_put_recovery settles_upsert_binding
  settles_download settles_recover settles_persist settles_bootstrap settles_take_sections
  settles_apply_lanes settles_request_delta settles_recover_once : settle.

(** The run under a deadline: from reading [T] on it is late, the server's
    transient failures have the fingerprints [K], and each batch may be tried
    often enough. *)
Section ending.
Context `{QueueCodec, JsonText, JsonNumber, WireCodec, AnpGroup}.
Context {World Message : Type} (rt : Runtime World Message) (K : list string) (T : nat).
Hypothesis fingerprints : ∀ w params e w', rt_rpc rt w "message.get_batch" params = (Err e, w') →
  is_transient_sync_io_error e = true → sync_failure_fingerprint "message.get_batch" e ∈ K.
Hypothesis enough_retries : (2 * length K < rt_hydration_fuel rt)%nat.
Hypothesis late : ∀ t, (T ≤ t)%nat → rt_late rt t = true.
Notation M := (FlowM (Run World Message)).
Notation since t := (λ s : Run World Message, (t ≤ rn_tick s)%nat).

(** [settles], with a property of what is returned. *)
Definition yields {A} (m : M A) (Q : A → Prop) : Prop :=
  ∀ t, triple (since t) m
    (λ r s, r ≠ OutOfFuel ∧ since t s ∧ match r with Returned a => Q a | _ => True end).

Lemma yields_settles {A} (m : M A) Q : yields m Q → settles m.
Proof using. intros Hm t. apply (triple_weaken _ _ _ _ _ (Hm t)); [done|]. by intros r s (? & ? & _). Qed.
Lemma yields_bind {A B} (m : M A) (f : A → M B) Q R :
  yields m R → (∀ a, R a → yields (f a) Q) → yields (m ≫= f) Q.
Proof using.
  intros Hm Hf t. apply (triple_bind _ _ _ (λ a s, R a ∧ since t s)).
  - apply (triple_weaken _ _ _ _ _ (Hm t)); [done|]. by intros [] s (? & ? & ?).
  - intros a s [Ha Hs]. by apply Hf.
Qed.
Lemma settles_yields {A} (m : M A) : settles m → yields m (λ _, True).
Proof using. intros Hm t. apply (triple_weaken _ _ _ _ _ (Hm t)); [done|]. by intros [] s [? ?]. Qed.
Lemma settles_yields_bind {A B} (m : M A) (f : A → M B) Q :
  settles m → (∀ a, yields (f a) Q) → yields (m ≫= f) Q.
Proof using. intros Hm Hf. by apply (yields_bind _ _ _ (λ _, True)); [apply settles_yields|]. Qed.
Lemma yields_ret {A} (a : A) (Q : A → Prop) : Q a → yields (mret a) Q.
Proof using. by intros Ha t s Hs. Qed.
Lemma yields_fails {A} e (Q : A → Prop) : yields (of_result (Err e)) Q.
Proof using. by intros t s Hs. Qed.

Lemma yields_hydrate ids failures :
  budget_wf failures → yields (hydrate rt ids failures) (λ r, budget_wf r.2).
Proof using fingerprints enough_retries.
  intros Hw. unfold hydrate. destruct ids as [|id ids]; [by apply yields_ret|].
  apply settles_yields_bind; [apply settles_await|intros _].
  apply (yields_bind _ _ _ (λ r, budget_wf r.2)).
  - intros t s Hs.
    destruct (hydrate_batches_total (rt_rpc rt) (rt_sleep rt) (rt_stamp rt) K fingerprints
      (rt_hydration_fuel rt) (rt_client_did rt) (hydration_event_id_batches (id :: ids))
      (rn_world s) failures (∅, 0) Hw) as (r & b & w & E & Hb).
    { pose proof (allowance_le K failures Hw). lia. }
    unfold hydrate_required_messages_with_budget. by rewrite E.
  - intros r Hr. apply settles_yields_bind; [apply settles_await|intros _].
    apply settles_yields_bind; [apply settles_of_result|intros h]. by apply yields_ret.
Qed.

Definition continues (c : Control) : Prop :=
  match c with Continue vars => budget_wf (lv_failures vars) | Stop => True end.

Lemma yields_apply_page binding client generation page vars :
  budget_wf (lv_failures vars) →
  yields (apply_page rt binding client generation page vars) continues.
Proof using fingerprints enough_retries.
  intros Hw. unfold apply_page.
  apply settles_yields_bind; [settle|intros _]. apply settles_yields_bind; [settle|intros _].
  apply settles_yields_bind; [apply settles_apply_lanes|]. intros [[[lanes blocked] attempted] more].
  apply settles_yields_bind; [settle|intros _].
  apply (yields_bind _ _ _ _ (yields_hydrate _ _ Hw)). intros h Hh.
  apply settles_yields_bind; [destruct (hydration_event_ids _); settle|intros _].
  apply settles_yields_bind; [settle|intros _].
  apply settles_yields_bind; [apply settles_next|intros bound_at].
  apply settles_yields_bind; [apply settles_next|intros received_at].
  apply settles_yields_bind; [apply settles_store|intros received].
  apply settles_yields_bind; [settle|intros _].
  apply settles_yields_bind; [apply settles_next|intros success_at].
  apply settles_yields_bind; [apply settles_next|intros l].
  assert (∀ f s, yields (_ ← update_outcome f; _ ← best_effort_cleanup rt s; mret Stop) continues)
    as Hstop.
  { intros f s. apply settles_yields_bind; [settle|intros _].
    apply settles_yields_bind; [apply settles_cleanup|intros _]. by apply yields_ret. }
  destruct (_ && (_ || _)); [apply Hstop|].
  destruct (_ && bool_decide _); [apply yields_fails|].
  destruct (_ && _); [apply Hstop|by apply yields_ret].
Qed.

Lemma settles_kept {A} (m : M A) t (φ : Prop) (Q : Flow A → Run World Message → Prop) :
  settles m → (∀ r s, match r with Returned _ => φ ∧ since t s | _ => r ≠ OutOfFuel end → Q r s) →
  triple (λ s, φ ∧ since t s) m Q.
Proof using.
  intros Hm HQ s [Hp Hs]. apply HQ. destruct (Hm t s Hs). by destruct (m s) as [[] s'].
Qed.

(** A request is made in time and takes time. *)
Lemma await_in_time t :
  triple (since t) (await rt)
    (λ r s, match r with Returned _ => (t < T)%nat ∧ since (S t) s | _ => r ≠ OutOfFuel end).
Proof using late.
  clear fingerprints enough_retries.
  intros s Hs. unfold await. simpl in Hs.
  destruct (rt_late rt (rn_tick s)) eqn:E; [done|]. simpl. split; [|lia].
  destruct (decide (T ≤ rn_tick s)%nat) as [Hl|Hl]; [|lia]. by rewrite late in E.
Qed.
Lemma request_in_time vars limit reason client t :
  triple (since t) (request_delta rt vars limit reason client)
    (λ r s, match r with Returned _ => (t < T)%nat ∧ since (S t) s | _ => r ≠ OutOfFuel end).
Proof using late.
  clear fingerprints enough_retries.
  unfold request_delta. eapply (triple_bind _ _ _ (λ _, since t)); [by intros s Hs|intros w].
  eapply (triple_bind _ _ _ (λ _, since t)); [by apply triple_of_result|intros params].
  eapply (triple_bind _ _ _ (λ _, since t)); [by intros s Hs|intros _].
  unfold rpc, world, waiting.
  apply (triple_bind _ _ _ (λ _ s, (t < T)%nat ∧ since (S t) s));
    [|intros raw; by apply triple_of_result].
  apply (triple_bind _ _ _ (λ _ s, (t < T)%nat ∧ since (S t) s)).
  { apply (triple_weaken _ _ _ _ _ (await_in_time t)); [done|]. by intros [] s ?. }
  intros _. apply settles_kept; [|by intros [] s].
  apply settles_bind; [apply settles_on_world|intros r]. settle.
Qed.

Lemma sync_loop_ends fuel binding limit reason client generation vars t :
  (T - t < fuel)%nat → budget_wf (lv_failures vars) →
  triple (since t) (sync_loop rt fuel binding limit reason client generation vars)
    (λ r s, r ≠ OutOfFuel ∧ since t s).
Proof using fingerprints enough_retries late.
  revert vars t. induction fuel as [|fuel IH]; intros vars t Hf Hw; simpl; [lia|].
  apply (triple_bind _ _ _ (λ c s, continues c ∧ (t < T)%nat ∧ since (S t) s)).
  - unfold sync_iteration.
    apply (triple_bind _ _ _ (λ _ s, (t < T)%nat ∧ since (S t) s)).
    { intros s Hs. pose proof (request_in_time vars limit reason client t s Hs) as Hr.
      pose proof (settles_request_delta rt vars limit reason client t s Hs) as [Hn Hs'].
      by destruct (request_delta _ _ _ _ _ s) as [[] s']. }
    intros response s [Ht Hs].
    assert (yields match response with
      | Delta page => apply_page rt binding client generation page vars
      | DeltaRecoveryRequired recovery =>
          vars ← recover_once rt binding generation recovery vars; mret (Continue vars)
      end continues) as Hy.
    { destruct response as [page|recovery]; [by apply yields_apply_page|].
      apply (yields_bind _ _ _ (λ vars', budget_wf (lv_failures vars'))).
      - unfold recover_once. apply settles_yields_bind; [settle|]. intros [state|e].
        { by apply yields_ret. }
        destruct (_ && _); (apply settles_yields_bind; [settle|intros _]);
          [by apply yields_ret|apply yields_fails].
      - intros vars' Hv. by apply yields_ret. }
    destruct (Hy (S t) s Hs) as (Hn & Hs' & Hq). simpl in Hs'.
    destruct (match response with _ => _ end s) as [[] s']; simpl in *; (split; [done|lia]) || done.
  - intros [vars'|] s (Hc & Ht & Hs); [|simpl; split; [done|lia]].
    destruct (IH vars' (S t)) with s as [Hn Hs']; [lia|done|done|].
    split; [done|]. simpl in *. lia.
Qed.

Lemma settles_sync_now_once fuel request generation :
  (T < fuel)%nat → settles (sync_now_once rt fuel request generation).
Proof using fingerprints enough_retries late.
  intros Hf. unfold sync_now_once.
  assert (∀ binding limit reason client vars, budget_wf (lv_failures vars) →
    settles (sync_loop rt fuel binding limit reason client generation vars)) as Hloop.
  { intros * Hw t. apply sync_loop_ends; [lia|done]. }
  pose proof budget_wf_empty. settle.
Qed.

Lemma settles_receive_run fuel request :
  (T < fuel)%nat → settles (receive_run rt fuel request).
Proof using fingerprints enough_retries late.
  intros Hf. pose proof (λ request generation, settles_sync_now_once fuel request generation Hf).
  assert (∀ generation, settles (run_body rt fuel request generation)) as Hbody.
  { intros generation. unfold run_body, refresh_session_and_lane_epoch, of_world. settle. }
  assert (∀ m : M (MessageSyncOutcome Message), settles m → settles (under_deadline m)) as Hd.
  { intros m Hm t s Hs. destruct (Hm t s Hs) as [Hn Hs']. unfold under_deadline.
    by destruct (m s) as [[] s']. }
  unfold receive_run, free_world, free_store, acquire_lock, now.
  assert (∀ owner, settles (λ s : Run World Message,
    let '(r, w) := rt_lock rt (rn_world s) owner in (Returned r, with_world w s))).
  { intros owner t s Hs. by destruct (rt_lock _ _ _). }
  settle.
Qed.
End ending.
