(* ===== verification/RunCursor.v ===== *)
(** * The cursor of a sync run

    What a run tells the server about its position is what its store holds: the
    steps that leave the owner's cursor alone ([still]), the three that set it
    (a page, a snapshot, a bootstrap), and the invariant of the requests sent. *)

From stdpp Require Import gmap.
From S2P Require Import Prelude RustStr ImError Effects Decimal Dto Store SyncStore Receipts Outbox Inbox InboxProps Lanes Wire Snapshot WireProps Recovery Failure Delta DeltaProps Legacy Baseline BaselineProps Run RunProps.
Local Open Scope Z_scope.

(** The owner's stored cursor: the owner it names, its epoch and position. *)
Definition cursor (owner : string) (db : SyncDb) : option (string * string * string) :=
  (λ st, (ms_owner st, ms_stream_epoch st, ms_scan_seq st)) <$> db_message_states (sd_db db) !! owner.

(** The cursor a [sync.delta] request carries. *)
Definition request_cursor (params : Value) : option Value :=
  body ← vget params "body"; vget body "cursor".

Lemma delta_params_cursor stamp did c limit reason lanes client params :
  build_delta_params_with_lanes stamp did c limit reason lanes client = Ok params →
  request_cursor params = Some (cursor_value c).
Proof.
  unfold build_delta_params_with_lanes. intros Hb. res_inv.
  match goal with H : (if _ then _ else _) = Ok ?x |- _ => rename x into fields; rename H into Hf end.
  assert (∃ rest, fields = [("cursor", cursor_value c)]%string ++ rest) as [rest ->].
  { destruct (bool_decide _); res_inv; [by eexists|]. by eexists. }
  done.
Qed.

Create HintDb quiet.

Section cursor.
Context `{QueueCodec, JsonText, JsonNumber, WireCodec, AnpGroup}.
Context {World Message : Type} (rt : Runtime World Message) (owner : string).
Notation M := (FlowM (Run World Message)).
Notation R := (Run World Message).

(** Neither the owner's cursor nor the requests change. *)
Definition still (s s' : R) : Prop :=
  cursor owner (rn_db s') = cursor owner (rn_db s) ∧ rn_sent s' = rn_sent s.
#[export] Instance still_preorder : PreOrder still.
Proof. unfold still. split; [done|]. intros ??? [-> ->] [-> ->]. done. Qed.

(** Other tasks do not move the owner's cursor while the run holds its lock. *)
Hypothesis env : ∀ t db, cursor owner (rt_env rt t db) = cursor owner db.

Definition quiet {A} (m : M A) : Prop := leads still m.

Lemma quiet_bind {A B} (m : M A) (f : A → M B) : quiet m → (∀ a, quiet (f a)) → quiet (m ≫= f).
Proof using. apply leads_bind, _. Qed.
Lemma quiet_next {A} (stream : nat → A) : quiet (next stream : M A).
Proof using. by intros s. Qed.
Lemma quiet_update f : quiet (update_outcome f : M unit).
Proof using. by intros s. Qed.
Lemma quiet_pause : quiet (pause rt).
Proof using env. intros s. split; [apply env|done]. Qed.
Lemma quiet_await : quiet (await rt).
Proof using env. intros s. unfold await. destruct (rt_late _ _); [done|]. apply quiet_pause. Qed.
Lemma quiet_on_world {A} (f : World → ImResult A * World) : quiet (on_world f : M _).
Proof using. intros s. unfold on_world. by destruct (f _). Qed.
Lemma quiet_on_store {A} (m : RunM SyncDb A) : moves same_states m → quiet (on_store m : M _).
Proof using.
  intros Hm s. unfold on_store. destruct (m (rn_db s)) as [r db] eqn:E. apply Hm in E.
  split; [|done]. simpl. unfold cursor. by rewrite E.
Qed.
Lemma quiet_waiting {A} (wait : M unit) (m : M (ImResult A)) : quiet wait → quiet m → quiet (waiting wait m).
Proof using.
  intros Hw Hm. apply quiet_bind; [done|intros _]. apply quiet_bind; [done|intros r].
  apply quiet_bind; [done|intros _]. by apply leads_of_result, _.
Qed.
Lemma quiet_world {A} (f : World → ImResult A * World) : quiet (world rt f).
Proof using env. apply quiet_waiting; [apply quiet_await|apply quiet_on_world]. Qed.
Lemma quiet_store {A} (m : RunM SyncDb A) : moves same_states m → quiet (store rt m).
Proof using env. intros Hm. apply quiet_waiting; [apply quiet_await|by apply quiet_on_store]. Qed.
Lemma quiet_ret {A} (a : A) : quiet (mret a : M A).
Proof using. by apply leads_ret, _. Qed.
Lemma quiet_of_result {A} (r : ImResult A) : quiet (of_result r : M A).
Proof using. by apply leads_of_result, _. Qed.
Lemma quiet_reads {A} (f : R → A) : quiet (reads f).
Proof using. by apply leads_reads, _. Qed.
Lemma quiet_attempt {A} (m : M A) : quiet m → quiet (attempt m).
Proof using. apply leads_attempt. Qed.

(** Transactions of the store that touch no cursor. *)
Lemma moves_gets_states {A} (f : SyncDb → A) : moves same_states (gets f).
Proof using. by intros db r db' [= _ <-]. Qed.
Lemma moves_read_states {A} (f : SyncDb → ImResult A) : moves same_states (λ db, (f db, db)).
Proof using. by intros db r db' [= _ <-]. Qed.
Lemma moves_tx_states {A} (f : Db → ImResult (A * Db)) :
  (∀ d a d', f d = Ok (a, d') → db_message_states d' = db_message_states d) →
  moves same_states (transaction (λ db, r ← f (sd_db db);
    Ok (r.1, with_lane_db (with_store r.2 (sd_lanes db)) db))).
Proof using.
  intros Hf. apply (moves_transaction same_states). intros db a db' ([a0 d] & Hd & [= _ <-])%bind_Ok.
  unfold same_states. simpl. by eapply Hf.
Qed.

Ltac quiet :=
  intros;
  lazymatch goal with
  | |- quiet (match ?x with _ => _ end) => destruct x; quiet
  | |- _ =>
      first [ solve [auto using quiet_ret, quiet_of_result, quiet_reads, quiet_next, quiet_update,
                       quiet_pause, quiet_await, quiet_on_world, quiet_world, quiet_store,
                       moves_gets_states, moves_read_states with quiet]
            | apply quiet_attempt; quiet | apply quiet_waiting; quiet | apply quiet_bind; quiet | fail ]
  end.

Lemma quiet_load_installation o : quiet (load_installation rt o).
Proof using env.
  unfold load_installation. apply quiet_bind; [quiet|intros t]. apply quiet_bind; [quiet|intros fresh].
  apply quiet_store, load_installation_states.
Qed.
Lemma quiet_desired o : quiet (desired_v1b_lanes rt o).
Proof using env. unfold desired_v1b_lanes. quiet. Qed.
Lemma quiet_put_recovery state : quiet (put_recovery rt state).
Proof using env.
  apply quiet_store, (moves_transaction same_states).
  intros db [] db' (d & Hd%upsert_recovery_frame & [= <-])%bind_Ok. unfold same_states. simpl.
  by rewrite Hd.
Qed.
Lemma quiet_cleanup state : quiet (best_effort_cleanup rt state).
Proof using env.
  unfold best_effort_cleanup, now. apply quiet_bind; [quiet|intros t].
  apply quiet_bind; [|quiet]. apply quiet_attempt, quiet_store, (moves_transaction same_states).
  intros db [] db' ([r d] & Hd%cleanup_frame & [= <-])%bind_Ok. done.
Qed.
Lemma quiet_upsert_binding b : quiet (upsert_binding rt b).
Proof using env.
  apply quiet_store, (moves_transaction same_states).
  intros db [] db' (d & Hd%upsert_binding_frame & [= <-])%bind_Ok. done.
Qed.
Hint Resolve quiet_load_installation quiet_desired quiet_put_recovery quiet_cleanup
  quiet_upsert_binding : quiet.
Lemma quiet_negotiation : quiet (require_explicit_sync_negotiation rt).
Proof using env. unfold require_explicit_sync_negotiation, rpc. quiet. Qed.
Lemma quiet_request_bootstrap client lanes : quiet (request_bootstrap rt client lanes).
Proof using env. unfold request_bootstrap, rpc. quiet. Qed.
Hint Resolve quiet_negotiation quiet_request_bootstrap : quiet.
Lemma quiet_refresh binding : quiet (refresh_lane_bootstrap rt binding).
Proof using env.
  assert (∀ o states generation client json, quiet (store rt (transaction (λ db,
    l ← reconcile_sync_lane_capability_v1a (sd_lanes db) o states generation client json;
    Ok ((), with_lane_db l db))))).
  { intros. apply quiet_store, (moves_transaction same_states).
    intros db [] db' (l & Hl%reconcile_frame & [= <-])%bind_Ok. unfold same_states, sd_db. simpl.
    by rewrite Hl. }
  unfold refresh_lane_bootstrap. quiet.
Qed.
Lemma quiet_persist o previous code : quiet (persist_recovery_failure rt o previous code).
Proof using env. unfold persist_recovery_failure, now. quiet. Qed.
Lemma quiet_download binding recovery client : quiet (download rt binding recovery client).
Proof using env.
  unfold download. apply quiet_bind; [quiet|intros _]. apply quiet_bind; [|quiet].
  intros s. by destruct (download_snapshot _ _ _ _ _ _ _ _) as [[[]]|].
Qed.
Lemma quiet_hydrate ids failures : quiet (hydrate rt ids failures).
Proof using env.
  unfold hydrate. destruct ids as [|id ids]; [quiet|]. apply quiet_bind; [quiet|intros _].
  apply quiet_bind; [|quiet]. intros s.
  by destruct (hydrate_required_messages_with_budget _ _ _ _ _ _ _ _) as [[[]]|].
Qed.
Hint Resolve quiet_refresh quiet_persist quiet_download quiet_hydrate : quiet.
Lemma quiet_sections binding client page requested vars :
  quiet (take_lane_sections rt binding client page requested vars).
Proof using env.
  unfold take_lane_sections. apply quiet_bind; [quiet|intros _]. apply quiet_bind; [|quiet].
  intros s. destruct (apply_lane_delta_sections _ _ _ _ _ _ _ _) as [r run] eqn:E.
  set (same := λ s s' : LaneRun,
    db_message_states (ld_db (ru_db s')) = db_message_states (ld_db (ru_db s))).
  assert (PreOrder same) by (unfold same; split; [done|intros ??? -> ->; done]).
  apply (moves_sections _ _ _ _ same) in E.
  - split; [|done]. unfold cursor, sd_db. simpl. unfold same in E. by rewrite E.
  - unfold same. by intros ?? ->.
  - unfold same. intros. simpl. by eapply handoff_frame.
Qed.
Hint Resolve quiet_sections : quiet.
Lemma quiet_lanes binding client page requested vars :
  quiet (apply_lanes rt binding client page requested vars).
Proof using env. unfold apply_lanes. quiet. Qed.
Hint Resolve quiet_lanes : quiet.

(** ** What is known between two steps *)

(** Every request sent carried the cursor stored when it was sent. *)
Definition sent_stored (s : R) : Prop :=
  ∀ params db, (params, db) ∈ rn_sent s →
  ∃ epoch seq, cursor owner db = Some (owner, epoch, seq) ∧
    request_cursor params = Some (cursor_value (mkCursor epoch seq)).
Definition known (s : R) : Prop :=
  sent_stored s ∧ ∀ c, cursor owner (rn_db s) = Some c → c.1.1 = owner.
(** The run's cursor is the stored one. *)
Definition at_state (st : MessageSyncState) (s : R) : Prop :=
  sent_stored s ∧ cursor owner (rn_db s) = Some (owner, ms_stream_epoch st, ms_scan_seq st).

Definition stable (P : R → Prop) : Prop := (∀ s s', P s → still s s' → P s') ∧ ∀ s, P s → known s.
Lemma known_stable : stable known.
Proof using. split; [|done]. intros s s' [Hs Hc] [Ec Es]. unfold known, sent_stored. by rewrite Ec, Es. Qed.
Lemma at_state_stable st : stable (at_state st).
Proof using.
  split.
  - intros s s' [Hs Hc] [Ec Es]. unfold at_state, sent_stored. by rewrite Ec, Es.
  - intros s [Hs Hc]. split; [done|]. rewrite Hc. by intros c [= <-].
Qed.

(** Ends of a step that may set the cursor: [Q] when it returns, [P] when it
    fails, [known] when it is cut short. *)
Definition ends {A} (P : R → Prop) (Q : A → R → Prop) : Flow A → R → Prop := λ r s,
  match r with Returned a => Q a s | Failed _ => P s | _ => known s end.

Lemma quiet_ends {A} P (m : M A) : stable P → quiet m → triple P m (ends P (λ _, P)).
Proof using.
  intros [HP HK] Hm. eapply triple_frame; [exact Hm|].
  intros [] s s' Hs Hr; simpl; [..|apply HK|apply HK]; by eapply HP.
Qed.
Lemma quiet_bind_ends {A B} P (m : M A) (f : A → M B) Q :
  stable P → quiet m → (∀ a, triple P (f a) (ends P Q)) → triple P (m ≫= f) (ends P Q).
Proof using.
  intros HP Hm Hf. apply (triple_bind _ _ _ (λ _, P)); [|done].
  eapply triple_weaken; [by apply quiet_ends|done|]. by intros [] s.
Qed.

(** Steps that moreover cannot fail. *)
Definition calm {A} (m : M A) : Prop := quiet m ∧ ∀ s e, (m s).1 ≠ Failed e.
Lemma calm_bind_ends {A B} P P' (m : M A) (f : A → M B) Q :
  stable P → calm m → (∀ a, triple P (f a) (ends P' Q)) → triple P (m ≫= f) (ends P' Q).
Proof using.
  intros [HP HK] [Hm Hn] Hf. apply (triple_bind _ _ _ (λ _, P)); [|done].
  intros s Hs. specialize (Hm s). specialize (Hn s).
  destruct (m s) as [[a|e| |] s']; simpl in *; [by eapply HP|by destruct (Hn e)| |];
    by eapply HK, HP.
Qed.
Lemma calm_await : calm (await rt).
Proof using env.
  split; [apply quiet_await|]. intros s e. unfold await. by destruct (rt_late _ _).
Qed.
Lemma calm_next {A} (stream : nat → A) : calm (next stream : M A).
Proof using. split; [quiet|done]. Qed.
Lemma calm_update f : calm (update_outcome f : M unit).
Proof using. split; [quiet|done]. Qed.
Lemma calm_cleanup state : calm (best_effort_cleanup rt state).
Proof using env.
  split; [quiet|]. intros s e. unfold best_effort_cleanup, now, next, mbind, flow_bind, attempt.
  by destruct (store rt _ _) as [[] s'].
Qed.

(** A step on the store that may set the cursor. *)
Lemma run_ends {A} P (m : RunM SyncDb A) (Q : A → R → Prop) :
  stable P → (∀ a, stable (Q a)) →
  (∀ s r db, P s → m (rn_db s) = (r, db) →
     match r with Ok a => Q a (with_db db s) | Err _ => P (with_db db s) end) →
  triple P (store rt m) (ends P Q).
Proof using env.
  intros HP HQ Hf. unfold store, waiting.
  apply quiet_bind_ends; [done|apply quiet_await|intros _].
  apply (triple_bind _ _ _ (λ r, match r with Ok a => Q a | Err _ => P end)).
  - intros s Hs. unfold on_store. destruct (m (rn_db s)) as [r db] eqn:E.
    apply Hf in E; [|done]. by destruct r.
  - intros [a|e]; (apply calm_bind_ends; [done|apply calm_await|intros _]);
      apply triple_of_result; try done; by intros ? ? ? [= <-].
Qed.
(** A transaction that sets the cursor when it commits. *)
Lemma store_ends {A} P (f : SyncDb → ImResult (A * SyncDb)) (Q : A → R → Prop) :
  stable P → (∀ a, stable (Q a)) →
  (∀ s a db, P s → f (rn_db s) = Ok (a, db) → Q a (with_db db s)) →
  triple P (store rt (transaction f)) (ends P Q).
Proof using env.
  intros HP HQ Hf. apply run_ends; [done|done|]. intros s r db Hs. unfold transaction.
  destruct (f (rn_db s)) as [[a db']|e] eqn:E; intros [= <- <-]; [by apply Hf|by destruct s].
Qed.

(** ** The steps that set the cursor *)

Lemma known_at_row s db row :
  known s → db_message_states (sd_db db) !! owner = Some row → ms_owner row = owner →
  at_state row (with_db db s).
Proof using.
  intros [Hs _] Hl Ho. split; [exact Hs|]. unfold cursor. simpl. by rewrite Hl, <-Ho at 1.
Qed.

Lemma recover_ends P binding previous recovery reconcile generation :
  stable P → ab_owner binding = owner →
  triple P (recover_snapshot rt binding previous recovery reconcile generation) (ends P at_state).
Proof using env.
  intros HP Ho. unfold recover_snapshot, now.
  apply quiet_bind_ends; [done|quiet|intros started].
  apply quiet_bind_ends; [done|quiet|intros _].
  destruct (_ || _); [by apply triple_of_result|].
  apply quiet_bind_ends; [done|quiet|intros client].
  apply quiet_bind_ends; [done|quiet|intros snapshot].
  apply quiet_bind_ends; [done|quiet|intros applying].
  apply quiet_bind_ends; [done|quiet|intros _].
  apply quiet_bind_ends; [done|quiet|intros _].
  apply quiet_bind_ends; [done|quiet|intros bound_at].
  apply quiet_bind_ends; [done|quiet|intros received_at].
  apply quiet_bind_ends; [done|quiet|intros committed_at].
  apply quiet_bind_ends; [done|quiet|intros random].
  set (checkpoint := snapshot_checkpoint _ _ _ _ _ _).
  apply (triple_bind _ _ _ (λ _, at_state (snapshot_state checkpoint committed_at))).
  - eapply triple_weaken;
      [apply (store_ends P _ (λ _, at_state (snapshot_state checkpoint committed_at)));
         [exact HP|intros _; apply at_state_stable|]|done|].
    + intros s a db Hs Hr%receive_snapshot_states. apply known_at_row; [by apply HP| |done].
      rewrite Hr, <-Ho. apply lookup_insert_eq.
    + by intros [] s.
  - intros received. set (st := snapshot_state _ _).
    apply calm_bind_ends; [apply at_state_stable|apply calm_update|intros _].
    apply calm_bind_ends; [apply at_state_stable|apply calm_next|intros success_at].
    apply calm_bind_ends; [apply at_state_stable|apply calm_next|intros updated_at].
    apply calm_bind_ends; [apply at_state_stable|apply calm_cleanup|intros _].
    by apply triple_ret.
Qed.

Lemma bootstrap_ends binding generation :
  ab_owner binding = owner →
  triple known (bootstrap rt binding generation) (ends known at_state).
Proof using env.
  intros Ho. pose proof known_stable as HK. unfold bootstrap, now.
  apply quiet_bind_ends; [done|quiet|intros _].
  apply quiet_bind_ends; [done|quiet|intros client].
  apply quiet_bind_ends; [done|quiet|intros requested].
  apply quiet_bind_ends; [done|quiet|intros [b|recovery lanes activated paging]].
  - destruct (bootstrap_mismatch _ _ _ _); [by apply triple_of_result|].
    apply quiet_bind_ends; [done|quiet|intros t].
    apply quiet_bind_ends; [done|quiet|intros received_at].
    apply quiet_bind_ends; [done|quiet|intros random].
    apply (triple_bind _ _ _ (λ r, at_state r.2)); [|intros r; by apply triple_ret].
    eapply triple_weaken; [apply (store_ends known _ (λ r, at_state r.2));
      [done|intros r; apply at_state_stable|]|done|by intros [] s].
    intros s [out st] db Hs Hr%receive_bootstrap_cursor. simpl in Hr. rewrite Ho in Hr.
    destruct Hr as [Hown Hl]. rewrite Hown in Hl. by apply known_at_row.
  - destruct (bootstrap_mismatch _ _ _ _); [by apply triple_of_result|].
    apply quiet_bind_ends; [done|quiet|intros t].
    apply quiet_bind_ends; [done|quiet|intros _]. by apply recover_ends.
Qed.

(** Where only the requests matter afterwards. *)
Lemma quiet_bind_known {A B} P (m : M A) (f : A → M B) Q :
  stable P → quiet m → (∀ a, triple P (f a) (ends known Q)) → triple P (m ≫= f) (ends known Q).
Proof using.
  intros HP Hm Hf. apply (triple_bind _ _ _ (λ _, P)); [|done].
  eapply triple_weaken; [by apply quiet_ends|done|]. intros [] s; simpl; try done. apply HP.
Qed.

Definition goes_on (c : Control) (s : R) : Prop :=
  match c with Continue vars => at_state (lv_state vars) s | Stop => known s end.

Lemma apply_page_ends binding client generation page vars :
  ab_owner binding = owner →
  triple (at_state (lv_state vars)) (apply_page rt binding client generation page vars)
    (ends known goes_on).
Proof using env.
  intros Ho. pose proof (at_state_stable (lv_state vars)) as HP. unfold apply_page, now.
  apply quiet_bind_known; [done|quiet|intros _].
  apply quiet_bind_known; [done|quiet|intros _].
  apply quiet_bind_known; [done|quiet|intros [[[lanes blocked] attempted] more]].
  apply quiet_bind_known; [done|quiet|intros _].
  apply quiet_bind_known; [done|quiet|intros hydrated].
  apply quiet_bind_known; [done|quiet|intros _].
  apply quiet_bind_known; [done|quiet|intros _].
  apply quiet_bind_known; [done|quiet|intros bound_at].
  apply quiet_bind_known; [done|quiet|intros received_at].
  set (next t := advanced_state (lv_state vars) page t).
  assert (∀ t t', at_state (next t) = at_state (next t')) as Ht by done.
  apply (triple_bind _ _ _ (λ _, at_state (next 0))).
  - eapply triple_weaken; [apply (store_ends (at_state (lv_state vars)) _ (λ _, at_state (next 0)));
      [done|intros _; apply at_state_stable|]|done|intros [] s; simpl; try done; apply HP].
    intros s out db [Hs Hc] ([o d] & Hr & [= <- <-])%bind_Ok.
    apply receive_ordinary_states in Hr as (cur & Hcur & He & Hr). simpl in Hcur, He, Hr.
    rewrite Ho in *. unfold cursor in Hc. rewrite Hcur in Hc. injection Hc as Hown _ _.
    destruct (Hr Hown) as (cur' & Hl & Hown' & He' & Hs').
    split; [done|]. unfold cursor, sd_db. simpl. rewrite Hl. simpl. congruence.
  - intros received. pose proof (at_state_stable (next 0)) as HN.
    apply quiet_bind_known; [done|quiet|intros _].
    apply quiet_bind_known; [done|quiet|intros success_at].
    apply quiet_bind_known; [done|quiet|intros late].
    assert (∀ f s, triple (at_state (next 0))
      (_ ← update_outcome f; _ ← best_effort_cleanup rt s; mret Stop) (ends known goes_on)) as Hstop.
    { intros f s. apply quiet_bind_known; [done|quiet|intros _].
      apply quiet_bind_known; [done|quiet|intros _]. apply triple_ret. apply HN. }
    destruct (_ && (_ || _)); [apply Hstop|].
    destruct (_ && bool_decide _); [apply triple_of_result; [done|]; intros; by apply HN|].
    destruct (_ && _); [apply Hstop|]. by apply triple_ret.
Qed.

Lemma request_ends vars limit reason client :
  triple (at_state (lv_state vars)) (request_delta rt vars limit reason client)
    (ends known (λ _, at_state (lv_state vars))).
Proof using env.
  pose proof (at_state_stable (lv_state vars)) as HP. unfold request_delta.
  apply quiet_bind_known; [done|quiet|intros w].
  set (c := mkCursor _ _).
  apply (triple_bind _ _ _ (λ params s, at_state (lv_state vars) s ∧
    request_cursor params = Some (cursor_value c))).
  { apply triple_of_result; [|intros; by apply HP].
    intros params s Hs Hb. split; [done|by eapply delta_params_cursor]. }
  intros params. apply (triple_bind _ _ _ (λ _, at_state (lv_state vars))).
  { intros s [[Hs Hc] Hp]. split; [|done]. simpl.
    intros params' db [Hin|[= -> ->]%list_elem_of_singleton]%elem_of_app; [by apply Hs|].
    by eexists _, _. }
  intros _. unfold rpc. apply quiet_bind_known; [done|quiet|intros raw].
  apply triple_of_result; [done|]. intros; by apply HP.
Qed.

Lemma recover_once_ends binding generation recovery vars :
  ab_owner binding = owner →
  triple (at_state (lv_state vars)) (recover_once rt binding generation recovery vars)
    (ends known (λ vars', at_state (lv_state vars'))).
Proof using env.
  intros Ho. pose proof (at_state_stable (lv_state vars)) as HP. unfold recover_once.
  apply (triple_bind _ _ _ (λ r, at_state match r with Ok st => st | Err _ => lv_state vars end)).
  { apply triple_attempt. eapply triple_weaken; [by apply recover_ends|done|]. by intros [] s. }
  intros [st|e]; [by apply triple_ret|].
  destruct (_ && _); (apply quiet_bind_known; [done|quiet|intros _]); [by apply triple_ret|].
  apply triple_of_result; [done|]. intros; by apply HP.
Qed.

Lemma sync_loop_known fuel binding limit reason client generation vars :
  ab_owner binding = owner →
  triple (at_state (lv_state vars)) (sync_loop rt fuel binding limit reason client generation vars)
    (λ _, known).
Proof using env.
  intros Ho. revert vars. induction fuel as [|fuel IH]; intros vars; simpl.
  { intros s Hs. by apply (at_state_stable (lv_state vars)). }
  apply (triple_bind _ _ _ goes_on).
  - eapply (triple_weaken _ _ _ (ends known goes_on)); [|done|by intros [] s].
    unfold sync_iteration. apply (triple_bind _ _ _ (λ _, at_state (lv_state vars))).
    { eapply triple_weaken; [apply request_ends|done|by intros [] s]. }
    intros [page|recovery]; [by apply apply_page_ends|].
    apply (triple_bind _ _ _ (λ vars', at_state (lv_state vars'))).
    { eapply triple_weaken; [by apply recover_once_ends|done|by intros [] s]. }
    intros vars'. by apply triple_ret.
  - intros [vars'|]; [apply IH|by apply triple_ret].
Qed.

(** ** The run *)

(** The client's session belongs to [owner]. *)
Hypothesis session : ∀ w b w', rt_active_binding rt w = (Ok b, w') → ab_owner b = owner.

Lemma binding_waits (wait : M unit) :
  quiet wait →
  triple known (waiting wait (on_world (rt_active_binding rt)))
    (ends known (λ b s, known s ∧ ab_owner b = owner)).
Proof using env session.
  intros Hw. pose proof known_stable as HK. unfold waiting.
  apply quiet_bind_known; [done|done|intros _].
  apply (triple_bind _ _ _ (λ r s, known s ∧
    match r with Ok b => ab_owner b = owner | Err _ => True end)).
  - intros s Hs. unfold on_world.
    destruct (rt_active_binding rt (rn_world s)) as [[b|e] w] eqn:E; simpl; [|done].
    split; [exact Hs|by eapply session].
  - intros r. set (φ := match r with Ok b => ab_owner b = owner | Err _ => True end).
    apply (triple_bind _ _ _ (λ _ s, known s ∧ φ)).
    + eapply triple_frame; [exact Hw|]. intros r' s s' [Hs Hp] Hst.
      assert (known s') as Hs' by (by eapply (proj1 HK)). by destruct r'.
    + intros _. apply triple_of_result; [|by intros e s []]. intros b s [Hs Hp] E.
      split; [done|]. unfold φ in Hp. by rewrite E in Hp.
Qed.

Lemma known_bind {A B} (m : M A) (f : A → M B) :
  triple known m (λ _, known) → (∀ a, triple known (f a) (λ _, known)) →
  triple known (m ≫= f) (λ _, known).
Proof using.
  intros Hm Hf. apply (triple_bind _ _ _ (λ _, known)); [|done].
  eapply triple_weaken; [exact Hm|done|by intros [] s].
Qed.
Lemma quiet_known {A} (m : M A) : quiet m → triple known m (λ _, known).
Proof using.
  intros Hm. eapply triple_weaken; [by apply quiet_ends, Hm; apply known_stable|done|by intros [] s].
Qed.

Lemma store_read_known :
  triple known (store rt (λ db, (load_message_sync_state (sd_db db) owner, db)))
    (ends known (λ access s, match access with
                             | Ready st => at_state st s | BootstrapRequired _ => known s end)).
Proof using env.
  apply run_ends; [apply known_stable|intros [st|]; [apply at_state_stable|apply known_stable]|].
  intros s access db Hs [= <- <-].
  destruct (load_message_sync_state _ _) as [[st|fence]|e] eqn:Hl; [|by destruct s..].
  apply load_message_sync_state_Ready in Hl as [Hl _].
  apply known_at_row; [done|done|].
  apply (proj2 Hs (ms_owner st, ms_stream_epoch st, ms_scan_seq st)). unfold cursor. by rewrite Hl.
Qed.

Lemma sync_now_once_known fuel request generation :
  triple known (sync_now_once rt fuel request generation) (λ _, known).
Proof using env session.
  unfold sync_now_once.
  apply known_bind; [apply quiet_known; quiet|intros _].
  apply known_bind; [apply quiet_known; quiet|intros limit].
  apply known_bind; [apply quiet_known; quiet|intros reason].
  apply (triple_bind _ _ _ (λ b s, known s ∧ ab_owner b = owner)).
  { eapply triple_weaken; [apply binding_waits, quiet_await|done|by intros [] s]. }
  intros binding. apply triple_pure. intros Ho. cbv zeta. rewrite Ho.
  apply known_bind; [apply quiet_known; quiet|intros _].
  apply (triple_bind _ _ _ (λ access s, match access with
    | Ready st => at_state st s | BootstrapRequired _ => known s end)).
  { eapply triple_weaken; [apply store_read_known|done|by intros [] s]. }
  intros access. apply (triple_bind _ _ _ at_state).
  { destruct access as [st|fence]; [by apply triple_ret|].
    eapply triple_weaken; [by apply bootstrap_ends|done|by intros [] s]. }
  intros state. pose proof (at_state_stable state) as HP.
  eapply (triple_weaken _ _ _ (ends known (λ _, known))); [|done|by intros [] s].
  apply quiet_bind_known; [done|quiet|intros desired].
  apply quiet_bind_known; [done|quiet|intros negotiate].
  apply quiet_bind_known; [done|quiet|intros _].
  apply quiet_bind_known; [done|quiet|intros lanes].
  apply quiet_bind_known; [done|quiet|intros client].
  apply (triple_bind _ _ _ (λ _, known)).
  { eapply triple_weaken; [by apply sync_loop_known|done|by intros [] s]. }
  intros _. apply quiet_bind_known; [apply known_stable|quiet|]. intros outcome. by apply triple_ret.
Qed.

Lemma run_body_known fuel request generation :
  triple known (run_body rt fuel request generation) (λ _, known).
Proof using env session.
  unfold run_body.
  apply known_bind.
  { apply triple_attempt. eapply triple_weaken; [apply sync_now_once_known|done|by intros [] s]. }
  intros [[outcome error]|e]; [by apply triple_ret|].
  destruct (is_device_epoch_rejection e); [|by apply triple_of_result].
  unfold refresh_session_and_lane_epoch, of_world.
  apply known_bind; [apply quiet_known; quiet|intros _].
  apply known_bind; [apply sync_now_once_known|]. intros [o [e'|]]; apply quiet_known; quiet.
Qed.

Lemma receive_run_known fuel request :
  triple known (receive_run rt fuel request) (λ _, known).
Proof using env session.
  unfold receive_run, free_world, free_store, acquire_lock, now.
  apply known_bind; [apply quiet_known; quiet|intros _].
  apply known_bind; [apply quiet_known; quiet|intros binding].
  apply known_bind.
  { apply quiet_known. apply quiet_bind; [quiet|intros _]. apply quiet_bind; [|quiet].
    intros s. by destruct (rt_lock _ _ _). }
  intros _. apply known_bind; [apply quiet_known; quiet|intros started].
  apply known_bind.
  { apply quiet_known, quiet_waiting; [quiet|].
    apply quiet_on_store, (moves_tx_states (λ d, begin_message_sync_run d _ _)).
    intros *. apply begin_run_frame. }
  intros run. apply known_bind.
  { intros s Hs. pose proof (run_body_known fuel request (rs_run_generation run) s Hs) as Hb.
    unfold under_deadline. by destruct (run_body _ _ _ _ s) as [[] s']. }
  intros final. apply known_bind; [apply quiet_known; quiet|intros finished_at].
  apply known_bind; [apply quiet_known; quiet|intros report].
  apply known_bind; [|intros finished; apply quiet_known; quiet].
  apply quiet_known, quiet_waiting; [quiet|].
  apply quiet_on_store, (moves_tx_states (λ d, finish_receive_run d _ _ _ _)).
  intros d a d' Hf. unfold finish_receive_run in Hf.
  apply bind_Ok in Hf as ([b d1] & Hf%finish_run_frame & Hr). cbn [fst snd] in Hr.
  destruct b; by injection Hr as _ <-.
Qed.
End cursor.
