(* ===== verification/WireClaims.v ===== *)
(** * The promises of the sync protocol

    What the rest of the client relies on: parsed pages are well-formed, a broken
    lane cannot spoil an ordinary page, hydration and recovery end and yield
    exactly what was asked for, an admitted page is accepted by the queue, and
    the run's lanes stay with their durable cursors. *)

From stdpp Require Import gmap.
From S2P Require Import Prelude RustStr ImError Effects Decimal Dto Store SyncStore Inbox InboxProps InboxClaims Lanes LaneProps LaneClaims Wire Snapshot WireProps Recovery RecoveryProps Failure Delta DeltaProps.
Local Open Scope Z_scope.

Section claims.
Context `{WireCodec}.

(** C37: What [parse_delta_response] returns is well-formed: canonical cursors and
    times, events with canonical identifiers and positive sequences, no event id
    or sequence twice, and every lane page with events of that lane's closed
    shapes and envelope profiles, strictly increasing and at most the page's next
    cursor. *)
Theorem delta_page_well_formed raw page :
  parse_delta_response raw = Ok (Delta page) → delta_page_wf page.
Proof.
  intros (m & -> & [[_ Hp]|[_ Hp]])%parse_delta_response_cases.
  - by eapply parse_delta_page_wf.
  - by apply parse_delta_recovery_kind in Hp.
Qed.

(** A lane cannot spoil the ordinary page. Two responses that differ only in
    their [lanes] value are both accepted or both rejected with the same error,
    and yield the same ordinary events, cursor, continuation flag, warnings and
    recovery. *)
Theorem lane_sections_isolated m m' :
  same_but_lanes m m' →
  match parse_delta_response (VObject m), parse_delta_response (VObject m') with
  | Ok r, Ok r' => ordinary_part r = ordinary_part r'
  | Err e, Err e' => e = e'
  | _, _ => False
  end.
Proof.
  intros Ha. unfold parse_delta_response. cbn [object as_object or_invalid mbind result_bind].
  cbv zeta. rewrite <-(Ha "mode"%string) by done.
  destruct (bool_decide _).
  - rewrite (parse_delta_recovery_agree m m' Ha). by destruct (parse_delta_recovery m').
  - destruct (bool_decide _); [by apply parse_delta_page_agree|done].
Qed.

(** Events survive re-encoding. An event the parser accepts, written with its
    serializer, is read back unchanged, both by the strict inline parser and by
    the decoder the receive queue uses on stored payloads. *)
Theorem event_reencodes v e :
  parse_event v = Ok e →
  parse_inline_event (event_to_value e) = Ok e ∧ sync_event_from_value (event_to_value e) = Some e.
Proof.
  intros (_ & _ & _ & Hw)%parse_event_Ok.
  split; [by apply event_roundtrip_inline|by apply event_roundtrip_value].
Qed.

(** A hydration batch answers the request exactly. Every requested event is
    either hydrated or reported unavailable, none twice and none that was not
    requested, both lists in request order, and no hydrated message carries an
    encryption discriminator. *)
Theorem hydration_batch_exact raw ids b :
  parse_message_batch raw ids = Ok b →
  ((hm_event_id <$> mb_items b) ++ mb_unavailable b ≡ₚ ids) ∧ NoDup ids ∧
  (1 ≤ length ids ≤ MESSAGE_GET_BATCH_MAX_EVENT_IDS)%nat ∧
  (hm_event_id <$> mb_items b) `sublist_of` ids ∧ mb_unavailable b `sublist_of` ids ∧
  Forall (λ x, plain_value (hm_message x)) (mb_items b).
Proof.
  intros [(? & ? & _)%validate_event_ids_Ok []]%parse_message_batch_Ok. done.
Qed.
End claims.

(** C36: A recovery download ends. Against every server, [recover_snapshot]'s page
    loop returns after at most 100 requests, and a package it accepts has at most
    10,000 items, unique event ids and sequences, and only events of this account
    and stream at or before the snapshot's cursor. *)
Theorem snapshot_download_ends `{WireCodec} {World : Type}
    (rpc : World → string → Value → ImResult Value * World) (stamp : World → Stamp)
    did client binding recovery w pages :
  ∃ r pages' w', download_snapshot rpc stamp did client binding recovery w pages
                   = Some (r, pages', w') ∧
    ∀ sv, r = Ok sv → ∃ manifest,
      snapshot_wf manifest (ab_account binding) (ab_device binding) sv ∧
      Z.of_nat (snapshot_size sv) ≤ SNAPSHOT_PACKAGE_MAX_ITEMS.
Proof.
  unfold download_snapshot. destruct (_ || _); [by eexists _, _, _|].
  destruct (fetch_pages_total rpc stamp did client binding recovery FETCH_FUEL w None None pages)
    as [[[r pages'] w'] E]; [done|done|done|]. rewrite E.
  destruct r as [[acc time]|e]; [|by eexists _, _, _].
  apply fetch_pages_complete in E as [Hw Hr]; [|done].
  eexists _, _, _. split; [done|]. intros sv Hf. apply finalize_Ok in Hf as [Hs Hsize].
  exists (ac_manifest acc). split; [done|]. rewrite Hsize, section_items_held.
  pose proof (aw_held _ Hw). pose proof (aw_received _ Hw).
  pose proof (mw_pages _ (aw_manifest _ Hw)).
  unfold SNAPSHOT_PACKAGE_MAX_ITEMS, SNAPSHOT_PACKAGE_MAX_PAGES, SNAPSHOT_PAGE_MAX_ITEMS in *. lia.
Qed.

(** Hydration gives up. Against a server whose transient failures have the
    fingerprints [K], hydration finishes with at most two retries per fingerprint
    (fuel [2 |K| + 1] per batch), and when it succeeds it holds exactly the
    messages asked for, all of them plain. *)
Theorem hydration_gives_up {World : Type}
    (rpc : World → string → Value → ImResult Value * World) (sleep : World → Z → World)
    (stamp : World → Stamp) K did ids w :
  (∀ w params e w', rpc w "message.get_batch"%string params = (Err e, w') →
     is_transient_sync_io_error e = true → sync_failure_fingerprint "message.get_batch" e ∈ K) →
  ∃ r budget w',
    hydrate_required_messages_with_budget rpc sleep stamp (S (2 * length K)) did ids ∅ w
      = Some (r, budget, w') ∧
    ∀ h n, r = Ok (h, n) → hydrated_exactly ids h.
Proof.
  intros HK.
  destruct (hydrate_batches_total rpc sleep stamp K HK (S (2 * length K)) did
    (hydration_event_id_batches ids) w ∅ (∅, 0)) as (r & b & w' & E & _).
  - apply budget_wf_empty.
  - pose proof (allowance_le K ∅ budget_wf_empty). lia.
  - exists r, b, w'. split; [exact E|]. intros h n ->. by eapply hydrate_Ok.
Qed.


(** C35: A lane page is taken as a prefix. Whatever the outcome, the store has
    received the first events of the page in order, each by one durable handoff;
    the run's own cursor of the lane moves only after all of them, to the page's
    next cursor, and if the run's lanes agreed with the stored cursors before,
    they still do after any successful application of a delta's lane sections. *)
Theorem lane_pages_refine_handoffs `{QueueCodec, JsonText, AnpGroup} clock binding client received_at :
  (∀ lane events next more s r s',
     apply_lane_page clock binding client received_at lane events next more s = (r, s') →
     ∃ epoch k,
       handed_all (ru_db s)
         ((λ e, lane_handoff_input_from_wire binding client epoch e (received_at lane)) <$> take k events)
         (ru_db s') ∧
       (ru_states s' = ru_states s ∨
        (length events ≤ k)%nat ∧
        ru_states s' = <[lane := mkLaneState (ab_owner binding) lane (cu_stream_epoch next)
                                   (cu_scan_seq next) (cu_scan_seq next)]> (ru_states s))) ∧
  (∀ sections invalid requested s r s',
     apply_lane_delta_sections clock binding client received_at sections invalid requested s = (r, s') →
     rtc lane_step (ru_db s) (ru_db s') ∧ ru_blocked s ⊆ ru_blocked s' ∧
     (r = Ok () → tracks binding s → tracks binding s')).
Proof.
  split.
  - intros lane events next more s r s'
      (epoch & k & Hh & _ & Hk & Hst & _)%apply_lane_page_spec.
    exists epoch, k. split; [done|]. destruct Hst as [?|Est]; [by left|].
    destruct (decide (k < length events)%nat) as [Hlt|Hge]; [left; by apply Hk|right]. split; [lia|done].
  - intros sections invalid requested s r s' Hr.
    destruct (apply_sections_moves clock binding client received_at _ _ _ _ _ _ Hr) as [? ?].
    split_and!; [done..|]. intros -> Ht. by eapply apply_sections_tracks.
Qed.

(** ** Failed runs *)

(** Codes that only the user or the operator can resolve. *)
Definition terminal_codes : list string :=
  ["sync.snapshot_item_too_large"; "sync.snapshot_required_state_too_large";
   "sync.client_upgrade_required"; "sync.invalid_request"; "sync.invalid_cursor";
   "1401"; "anp.device_not_eligible"; "anp.device_state_changed";
   "SYNC_ACCOUNT_BINDING_MISMATCH"; "sync.device_binding_mismatch";
   "SYNC_AUTH_GENERATION_MISMATCH"]%string.

(** The failures a retry cannot cure: lost authorization, a conflicting message
    identity, or a service verdict that asks for an action. *)
Inductive terminal_failure : ImError → Prop :=
| tf_conflict m : terminal_failure (MessageWireIdentityConflict m)
| tf_auth : terminal_failure AuthRequired
| tf_session : terminal_failure SessionExpired
| tf_permission : terminal_failure PermissionDenied
| tf_binding m : terminal_failure (IdentityBindingConflict m)
| tf_http status code text data :
    status ∈ [401; 403] → terminal_failure (Service (Some status) code text data)
| tf_action status code text data action :
    code ≠ Some "SYNC_RECOVERY_REQUIRED"%string → local_action data = Some action →
    action ∈ ["device_reprovision_required"; "server_repair_required"]%string →
    terminal_failure (Service status code text data)
| tf_code status code text data :
    code ∈ terminal_codes → terminal_failure (Service status (Some code) text data).

Lemma code_in_true code codes : code_in code codes = true ↔ ∃ c, code = Some c ∧ c ∈ codes.
Proof.
  destruct code as [c|]; simpl; [|naive_solver]. rewrite bool_decide_eq_true. naive_solver.
Qed.

Lemma code_in_app code l l' : code_in code (l ++ l') = code_in code l || code_in code l'.
Proof.
  apply eq_true_iff_eq. rewrite orb_true_iff, !code_in_true. setoid_rewrite elem_of_app. naive_solver.
Qed.

(** A service verdict that stops the retries. *)
Definition stops (status : MessageSyncStatus) : bool :=
  bool_decide (status = SyncBlocked) || bool_decide (status = AuthRevoked).

Lemma service_failure_stops status code data :
  stops (service_failure status code data).1 = true ↔
  (∃ s, status = Some s ∧ s ∈ [401; 403]) ∨
  (code ≠ Some "SYNC_RECOVERY_REQUIRED"%string ∧ ∃ action, local_action data = Some action ∧
     action ∈ ["device_reprovision_required"; "server_repair_required"]%string) ∨
  (∃ c, code = Some c ∧ c ∈ terminal_codes).
Proof.
  unfold service_failure.
  destruct (bool_decide (status = Some 401)) eqn:E1; bool_hyps; simpl.
  { split; [left; eexists; split; [done|set_solver]|done]. }
  destruct (bool_decide (status = Some 403)) eqn:E2; bool_hyps; simpl.
  { split; [left; eexists; split; [done|set_solver]|done]. }
  assert ((∃ s, status = Some s ∧ s ∈ [401; 403]) → False) as Hno by set_solver.
  destruct (bool_decide (code = _)) eqn:E3; bool_hyps; simpl.
  { subst code. split; [done|]. intros [?|[[? _]|(c & [= <-] & Hc)]]; [done..|].
    apply (bool_decide_eq_true_2 _) in Hc. by vm_compute in Hc. }
  destruct (bool_decide (local_action data = _)) eqn:E4; bool_hyps; simpl.
  { split; [|done]. right; left. split; [done|]. eexists. split; [done|set_solver]. }
  destruct (bool_decide (local_action data = Some "server_repair_required"%string)) eqn:E5;
    bool_hyps; simpl.
  { split; [|done]. right; left. split; [done|]. eexists. split; [done|set_solver]. }
  assert (∀ action, local_action data = Some action →
    action ∈ ["device_reprovision_required"; "server_repair_required"]%string → False)
    as Hna by set_solver.
  transitivity (∃ c, code = Some c ∧ c ∈ terminal_codes); [|naive_solver].
  rewrite <-code_in_true.
  replace (code_in code terminal_codes) with
    (code_in code (take 2 terminal_codes) || code_in code (take 3 (drop 2 terminal_codes))
     || code_in code (drop 5 terminal_codes)) by by rewrite <-!code_in_app.
  cbn [take drop terminal_codes]. by destruct (code_in _ _), (code_in _ _), (code_in _ _).
Qed.

Lemma error_retryable_stops {Message} error :
  error_retryable (Message := Message) (Err error) = false ↔ terminal_failure error.
Proof.
  unfold error_retryable, failure_outcome. rewrite negb_false_iff.
  destruct error; simpl; try (split; [done|by inversion 1]); try (split; [by constructor|done]).
  destruct (service_failure _ _ _) as [st c] eqn:E. simpl. fold (stops st).
  replace st with (service_failure status_code code data).1 by by rewrite E.
  rewrite service_failure_stops. split.
  - intros [(s & -> & ?)|[(? & a & ? & ?)|(x & -> & ?)]];
      [by apply tf_http|by eapply tf_action|by apply tf_code].
  - inversion 1; naive_solver.
Qed.

(** What a failed run leaves behind. If a newer run has started, the failure
    is replaced by the superseded error and nothing is stored. Otherwise the
    failure is returned and recorded under the run's generation: a failure a retry
    cannot cure clears the pending mark and plans no retry, every other failure
    keeps the sync pending with a retry one second later. *)
Theorem failed_run_retry {Message} db run error report now r db' :
  finish_receive_run (Message := Message) db run (Err error) report now = Ok (r, db') →
  (r = Err (sync_error "SYNC_RUN_SUPERSEDED" "a newer sync run superseded this result") ∧ db' = db ∧
     rs_run_generation <$> db_run_states db !! rs_owner run ≠ Some (rs_run_generation run)) ∨
  (r = Err error ∧ ∃ row, db_run_states db' !! rs_owner run = Some row ∧
     rs_run_generation row = rs_run_generation run ∧
     (terminal_failure error → rs_sync_pending row = false ∧ rs_next_retry_at row = None) ∧
     (¬ terminal_failure error →
        rs_sync_pending row = true ∧ rs_next_retry_at row = Some (i64_saturating_add now 1))).
Proof.
  unfold finish_receive_run. pose proof (error_retryable_stops (Message := Message) error) as Hterm.
  destruct (error_retryable (Err error));
    intros ([b db1] & [(-> & -> & Hn)|(-> & row & Hrow & Hg & ->)]%finish_run_inv & Hr)%bind_Ok;
    simpl in Hr; injection Hr as <- <-; (by left) || right;
    (split; [done|]; eexists; split; [by apply lookup_insert_eq|]; split; [done|]; simpl; naive_solver).
Qed.

(** ** Concrete responses *)

Definition ex_digest : string :=
  "0000000000000000000000000000000000000000000000000000000000000000".
Definition ex_wire : WireCodec := {|
  to_canonical _ := Some "x"%string;
  sha256_hex _ := ex_digest;
  time_rfc3339 _ := true;
  chrono_rfc3339 _ := Some 0;
  group_transport_profile := "transport-protected" |}.

Definition ex_event_value (id seq : string) : Value :=
  VObject [("event_id", VString id); ("stream_epoch", VString "3"); ("event_seq", VString seq);
           ("event_type", VString "message.created"); ("schema_version", VNumber (PosInt 1));
           ("ignore_safe", VBool false); ("account_id", VString "account-1");
           ("aggregate_kind", VString "thread"); ("aggregate_id", VString "t1");
           ("occurred_at", VString "2026-01-01T00:00:00Z"); ("payload", VObject [])]%string.
Definition ex_lane_section : Value :=
  VObject [("events", VArray [VObject [
              ("event_type", VString "p5.delivery.created"); ("delivery_id", VString "d4");
              ("seq", VString "4");
              ("envelope", VObject [
                 ("meta", VObject [("profile", VString "anp.direct.e2ee.v2");
                                   ("security_profile", VString "direct-e2ee")]);
                 ("body", VObject [])])]]);
           ("next_cursor", VObject [("stream_epoch", VString "7"); ("scan_seq", VString "4")]);
           ("has_more", VBool false)]%string.
Definition ex_delta (lanes : Value) : Obj :=
  [("mode", VString "delta"); ("server_time", VString "2026-01-01T00:00:00Z");
   ("events", VArray [ex_event_value "e10" "10"; ex_event_value "e11" "11"]);
   ("next_cursor", VObject [("stream_epoch", VString "3"); ("scan_seq", VString "11")]);
   ("has_more", VBool false); ("warnings", VArray [])]%string
  ++ [("lanes"%string, lanes)].

Lemma assoc_other {A} k k' (m : list (string * A)) v v' :
  k ≠ k' → assoc k (m ++ [(k', v)]) = assoc k (m ++ [(k', v')]).
Proof.
  intros Hk. induction m as [|[k1 v1] m IH]; simpl.
  - by rewrite bool_decide_eq_false_2.
  - by destruct (bool_decide _).
Qed.

Definition ex_response : Obj := ex_delta (VObject [("p5_device", ex_lane_section)])%string.
Definition ex_spoiled : Obj := ex_delta (VArray []).
Definition ex_page : SyncDeltaPageV2 :=
  match @parse_delta_response ex_wire (VObject ex_response) with
  | Ok (Delta page) => page
  | _ => mkDeltaPage "" [] (mkCursor "" "") false [] ∅ false
  end.

Lemma ex_page_ok : @parse_delta_response ex_wire (VObject ex_response) = Ok (Delta ex_page).
Proof. vm_compute. reflexivity. Qed.

Lemma delta_page_well_formed_witness :
  length (dp_events ex_page) = 2%nat ∧ is_Some (dp_lanes ex_page !! P5Device) ∧
  @delta_page_wf ex_wire ex_page.
Proof.
  split; [vm_compute; reflexivity|]. split; [vm_compute; eexists; reflexivity|].
  exact (@delta_page_well_formed ex_wire (VObject ex_response) ex_page ex_page_ok).
Defined.

Lemma lane_sections_isolated_witness :
  match @parse_delta_response ex_wire (VObject ex_response),
        @parse_delta_response ex_wire (VObject ex_spoiled) with
  | Ok r, Ok r' => ordinary_part r = ordinary_part r'
  | Err e, Err e' => e = e'
  | _, _ => False
  end.
Proof.
  apply (@lane_sections_isolated ex_wire ex_response ex_spoiled).
  intros k Hk. exact (assoc_other _ _ _ _ _ Hk).
Defined.

Definition ex_parsed : SyncEventV2 :=
  unwrap_or (parse_event (ex_event_value "e10" "10"))
    (mkSyncEvent "" "" "" "" 0 false "" None None None "" "" None None "" VNull None).

Lemma event_reencodes_witness :
  se_event_id ex_parsed = "e10"%string ∧
  parse_inline_event (event_to_value ex_parsed) = Ok ex_parsed ∧
  sync_event_from_value (event_to_value ex_parsed) = Some ex_parsed.
Proof.
  split; [vm_compute; reflexivity|].
  exact (event_reencodes (ex_event_value "e10" "10") ex_parsed eq_refl).
Defined.

Definition ex_message (text : string) : Value := VObject [("text", VString text)]%string.
Definition ex_batch_response (ids unavailable : list string) : Value :=
  VObject [("items", VArray ((λ id, VObject [("event_id", VString id); ("message", ex_message id)])
                               <$> ids));
           ("unavailable", VArray (VString <$> unavailable))]%string.

Lemma hydration_batch_exact_witness :
  ∃ b, parse_message_batch (ex_batch_response ["e10"; "e12"] ["e11"])%string
         ["e10"; "e11"; "e12"]%string = Ok b ∧
    (hm_event_id <$> mb_items b) ++ mb_unavailable b ≡ₚ ["e10"; "e11"; "e12"]%string.
Proof.
  eexists. split; [vm_compute; reflexivity|].
  refine (proj1 (hydration_batch_exact (ex_batch_response ["e10"; "e12"] ["e11"])%string
    ["e10"; "e11"; "e12"]%string _ _)). vm_compute. reflexivity.
Defined.

(** A server that is down twice and then answers; the state counts requests. *)
Definition ex_rpc (w : nat) (method : string) (params : Value) : ImResult Value * nat :=
  match w with
  | 0%nat | 1%nat => (Err (TransportUnavailable "offline"), S w)
  | _ => (Ok (ex_batch_response ["e10"; "e11"] [])%string, S w)
  end.
Definition ex_stamp (w : nat) : Stamp := mkStamp "op" "2026-01-01T00:00:00Z".

Definition ex_hydration :=
  hydrate_required_messages_with_budget ex_rpc (λ w _, w) ex_stamp 3 "did:a"
    ["e10"; "e11"]%string ∅ 0%nat.

Lemma hydration_gives_up_witness :
  match ex_hydration with Some (r, _, w) => is_ok r && (w =? 3)%nat | None => false end = true ∧
  ∃ r budget w', ex_hydration = Some (r, budget, w') ∧
    ∀ h n, r = Ok (h, n) → hydrated_exactly ["e10"; "e11"]%string h.
Proof.
  split; [vm_compute; reflexivity|].
  apply (hydration_gives_up ex_rpc (λ w _, w) ex_stamp ["message.get_batch:transport"%string]
           "did:a" ["e10"; "e11"]%string 0%nat).
  intros [|[|w]] params e w' [= <- <-] _; by left.
Defined.

(** The queue already holds another event under the identity of the page's first. *)
Definition ex_active : ActiveSyncAccountBinding :=
  mkActiveBinding "owner-1" "account-1" "did:a" "device-1" "1" "1".
Definition ex_hydrated : gmap string Value :=
  <["e10" := ex_message "e10"]> (<["e11" := ex_message "e11"]> ∅)%string.

Lemma ex_hydrated_exactly :
  hydrated_exactly (hydration_event_ids (dp_events ex_page)) ex_hydrated.
Proof.
  replace (hydration_event_ids (dp_events ex_page)) with ["e10"; "e11"]%string
    by (vm_compute; reflexivity).
  split.
  - intros id. unfold ex_hydrated. rewrite !lookup_insert_is_Some, lookup_empty, is_Some_alt. set_solver.
  - intros id v. unfold ex_hydrated. rewrite !lookup_insert_Some, lookup_empty.
    intros [[<- <-]|[_ [[<- <-]|[_ ?]]]]; [by vm_compute..|done].
Qed.


Definition ex_offline : ImError := TransportUnavailable "offline".
Definition ex_run_state : MessageSyncRunState := mkRunState "owner-1" true 1 None None 300.
Definition ex_failed_run : ImResult (MessageSyncOutcome unit) * Db :=
  unwrap_or (finish_receive_run (ex_run 1 ex_db) ex_run_state (Err ex_offline) "report" 400)
    (Err ex_offline, empty_db).

Lemma ex_failed_run_ok :
  finish_receive_run (ex_run 1 ex_db) ex_run_state (Err ex_offline) "report" 400
  = Ok (ex_failed_run.1, ex_failed_run.2).
Proof. vm_compute. reflexivity. Qed.

Lemma failed_run_retry_witness :
  ∃ row, db_run_states ex_failed_run.2 !! "owner-1"%string = Some row ∧
    rs_sync_pending row = true ∧ rs_next_retry_at row = Some 401.
Proof.
  destruct (failed_run_retry (ex_run 1 ex_db) ex_run_state ex_offline "report" 400
    ex_failed_run.1 ex_failed_run.2 ex_failed_run_ok) as [(He & _)|(_ & row & Hrow & _ & _ & Hp)].
  - vm_compute in He. discriminate He.
  - exists row. split; [exact Hrow|]. apply Hp. intros Ht. inversion Ht.
Defined.

(** ** The empty lane page *)

(** An empty page leaves the stored checkpoint of a lane where it was, while the
    run's own copy takes the scan position as checkpoint. *)
Definition ex_behind_db : LaneDb :=
  with_lanes {[("owner-1"%string, "p5_device"%string) := mkLaneRow "7" "9" "4"]} ex_lane_db.
Definition ex_group : AnpGroup := {|
  METHOD_GROUP_INCOMING_V2 := "group.incoming"; METHOD_GROUP_NOTICE_V2 := "group.e2ee.notice";
  parses_group_incoming _ := true; parses_group_notice _ := true |}.
Definition ex_lane_run : LaneRun :=
  mkLaneRun ex_behind_db 0 {[P5Device := mkLaneState "owner-1" P5Device "7" "9" "4"]}
    ∅ ∅ ∅ 0 0 [] false.

Theorem empty_page_checkpoint :
  let after := (@apply_lane_page ex_codec ex_group (λ _, 700) ex_active "inst-1"
                  (λ _, "2026-01-01T00:00:00Z"%string) P5Device [] (mkCursor "7" "9") false ex_lane_run).2 in
  ln_committed_seq <$> ru_states after !! P5Device = Some "9"%string ∧
  lw_committed_seq <$> ld_lanes (ru_db after) !! ("owner-1", "p5_device")%string = Some "4"%string.
Proof. vm_compute. by split. Qed.
