(* ===== verification/RunClaims.v ===== *)
(** * What a sync run promises

    The claims about [Run], [Baseline] and [Legacy], each with a concrete run. *)

From stdpp Require Import gmap.
From S2P Require Import Prelude RustStr ImError Effects Decimal Dto Store SyncStore Receipts Outbox Inbox InboxProps InboxClaims Lanes LaneProps LaneClaims Wire Snapshot WireProps Recovery RecoveryProps Failure Delta DeltaProps Legacy Baseline BaselineProps Run RunProps RunCursor WireClaims.
Local Open Scope Z_scope.

Section claims.
Context `{QueueCodec, JsonText, JsonNumber, WireCodec, AnpGroup}.


(** C4: A run asks from where its store is. Every [sync.delta] request of a run,
    after pages, recoveries, bootstraps and the retry of a rejected device epoch
    alike, carries the epoch and position stored for the owner at that moment: it
    never acknowledges an event whose page is not committed, and never goes back
    behind one that is. Assumed: the session is the owner's, and other tasks leave
    the owner's cursor alone while the run holds the receive lock. *)
Theorem run_requests_stored {World Message : Type} (rt : Runtime World Message) owner fuel request
    s params db :
  (∀ t db, cursor owner (rt_env rt t db) = cursor owner db) →
  (∀ w b w', rt_active_binding rt w = (Ok b, w') → ab_owner b = owner) →
  rn_sent s = [] → (∀ c, cursor owner (rn_db s) = Some c → c.1.1 = owner) →
  (params, db) ∈ rn_sent (receive_run rt fuel request s).2 →
  ∃ epoch seq, cursor owner db = Some (owner, epoch, seq) ∧
    request_cursor params = Some (cursor_value (mkCursor epoch seq)).
Proof.
  intros He Hs Hn Ho Hin.
  assert (known owner s) as Hk.
  { split; [|done]. intros p d. rewrite Hn. by intros ?%elem_of_nil. }
  by apply (receive_run_known rt owner He Hs fuel request s Hk) in Hin.
Qed.

(** C6: A received snapshot is durable. When [receive_snapshot] commits, the
    baseline marker and every event of the snapshot are in the queue, were removed
    to make room, or were processed before; nothing else left the queue but what
    is reported removed; the cursor is the snapshot's anchor, the recovery is
    completed at it, and the history scope is recorded, all in one transaction. *)
Theorem snapshot_receive_durable db checkpoint binding installation baseline events random now t
    out db' :
  queue_wf (sd_db db) →
  receive_snapshot db checkpoint binding installation baseline events random now t = Ok (out, db') →
  let owner := sa_owner checkpoint in
  let took := taken (sd_db db) (sd_db db') (rv_removed out) owner in
  took "baseline"%string (sa_stream_epoch checkpoint)
    (baseline_marker baseline (sa_snapshot_scan_seq checkpoint) random) ∧
  (∀ ev, ev ∈ events → took "ordinary"%string (sa_stream_epoch checkpoint) ev) ∧
  (∀ r, r ∈ db_inbox (sd_db db) → r ∈ db_inbox (sd_db db') ∨ removed_of r ∈ rv_removed out) ∧
  queue_wf (sd_db db') ∧
  db_message_states (sd_db db') !! owner = Some (snapshot_state checkpoint t) ∧
  (∃ rec, db_recovery (sd_db db') !! owner = Some rec ∧ rc_status rec = "completed"%string ∧
     rc_snapshot_scan_seq rec = Some (sa_snapshot_scan_seq checkpoint)) ∧
  sd_history db' !! owner = Some (sa_older_history_excluded checkpoint, t).
Proof.
  intros Hqw Hr. pose proof (receive_snapshot_states _ _ _ _ _ _ _ _ _ _ _ Hr) as Hst.
  apply receive_snapshot_inv in Hr as (Hv & Ho & d & Hi & Hc).
  pose proof (insert_baseline_frame _ _ _ _ _ _ _ _ _ _ _ Hi) as F.
  apply insert_baseline_spec in Hi as (_ & Hqw' & Hm & He & Hk); [|done].
  apply commit_snapshot_inv in Hc as (lanes & Hl%reconcile_snapshot_frame & ->).
  apply snapshot_recovery_applying in Hv as (rec & Hrec & Ha).
  rewrite Ho in Hm, He. unfold sd_db in *. simpl in *. rewrite Hl in *. simpl in *. split_and!.
  - exact Hm.
  - exact He.
  - exact Hk.
  - by destruct Hqw'; split.
  - by rewrite Hst, lookup_insert_eq.
  - rewrite F. simpl. rewrite lookup_alter_eq, Hrec. simpl. rewrite Ha. eauto.
  - apply lookup_insert_eq.
Qed.

(** A new bootstrap does not skip what was not received. When a device is
    reauthorized (same account, device, DID and identity, a newer device
    generation), the bootstrap commits the server's state but keeps the stored
    position of the same stream, and no lane cursor of the same epoch moves back. *)
Theorem bootstrap_keeps_position db input baseline generation random now out state db' stored previous :
  let owner := ib_owner (bi_binding input) in
  load_identity_account_binding (sd_db db) owner = Some stored →
  db_message_states (sd_db db) !! owner = Some previous →
  retains_position stored (bi_binding input) previous = Ok true →
  receive_bootstrap db input baseline generation random now = Ok ((out, state), db') →
  db_message_states (sd_db db') !! ms_owner (bi_state input) = Some state ∧
  (ms_stream_epoch previous = ms_stream_epoch (bi_state input) →
     ms_scan_seq state = ms_scan_seq previous) ∧
  ∀ received cur lane, load_lane_sync_states (sd_lanes db) owner = Ok received →
    cur ∈ received → lane ∈ bi_lane_states input →
    ln_lane lane = ln_lane cur → ln_stream_epoch lane = ln_stream_epoch cur →
    ∃ row, ld_lanes (sd_lanes db') !! (owner, lane_as_str (ln_lane cur)) = Some row ∧
      lw_stream_epoch row = ln_stream_epoch cur ∧ gen_le (ln_scan_seq cur) (lw_scan_seq row).
Proof.
  intros owner. subst owner. intros Hb Hp Hret Hr.
  pose proof (receive_bootstrap_cursor _ _ _ _ _ _ _ _ _ Hr) as [Eo Hst].
  apply receive_bootstrap_inv in Hr as (kept & lanes & d & Hk & -> & Ha & _ & ->).
  apply retain_kept with (stored := stored) (previous := previous) in Hk
    as (Hseq & received & Hrec & Hlanes & Ebind); [|done..].
  rewrite <-Eo. split_and!; [done|done|].
  intros received' cur lane Hrec' Hcur Hlane El Ee. rewrite Hrec in Hrec'. injection Hrec' as <-.
  destruct (retain_lanes_elem _ _ _ _ Hlanes Hlane) as (k & Hkin & Hret').
  destruct (retain_lane_spec _ _ _ _ _ _ Hrec Hcur El Ee Hret') as (El' & Ee' & Hle).
  apply apply_bootstrap_inv in Ha as (d0 & l & _ & Hl & ->). simpl.
  apply reconcile_lookup with (s := k) in Hl as [Hown Hlook]; [|done].
  exists (lane_row k). split_and!; [|done|done].
  unfold lane_key in Hlook. rewrite Hown, El', Ebind in Hlook. exact Hlook.
Qed.

(** No legacy blocker is lost. After the migration of a blocker, whatever its
    result, every legacy blocker is still stored, or it is the migrated one and the
    queue holds its event at its position with its content and group sequence; the
    owner's cursors and lane cursors do not move. *)
Theorem legacy_blocker_kept r now report db res db' :
  migrate_blocker r now report db = (res, db') →
  (∀ b, b ∈ ld_blockers (sd_lanes db) → b ∈ ld_blockers (sd_lanes db') ∨
     bl_owner b = bl_owner (lg_blocker r) ∧ bl_event_id b = bl_event_id (lg_blocker r) ∧
     queued_blocker (lg_blocker r) (db_inbox (sd_db db'))) ∧
  db_message_states (sd_db db') = db_message_states (sd_db db) ∧
  ld_lanes (sd_lanes db') = ld_lanes (sd_lanes db).
Proof.
  intros Hm%migrate_blocker_spec. split; [|by apply migration_frame in Hm].
  intros b Hb. destruct Hm as [|db' _ _ Hbl|db' _ _ Hbl Hq]; [by left|left; by rewrite Hbl|].
  destruct (decide (bl_owner b = bl_owner (lg_blocker r) ∧ bl_event_id b = bl_event_id (lg_blocker r)))
    as [[Ho He]|Hn]; [by right|left]. rewrite Hbl. apply elem_of_delete_where.
  split; [done|]. apply andb_false_iff. rewrite !bool_decide_eq_false.
  destruct (decide (bl_owner b = bl_owner (lg_blocker r))); naive_solver.
Qed.
End claims.

(** ** A concrete run

    The server answers the first request with a page of two messages and hydrates
    them; the state counts requests. *)

Definition ex_serve (w : nat) (method : string) (params : Value) : ImResult Value * nat :=
  (if bool_decide (method = "sync.delta"%string) then Ok (VObject ex_response)
   else if bool_decide (method = "message.get_batch"%string)
   then Ok (ex_batch_response ["e10"; "e11"] [])%string
   else Err ex_offline, S w).
Definition ex_number : JsonNumber := {| number_to_string _ := "0"%string |}.
Definition ex_runtime : Runtime nat unit :=
  mkRuntime ex_serve (λ w _, w) ex_stamp (λ w, (Ok (), w)) (λ w, (Ok (), w)) (λ w, (Ok (), w))
    (λ w, (Ok ex_active, w)) (λ w _, (Some (Ok ()), w)) (λ t, 500 + Z.of_nat t)
    (λ _, "2026-01-01T00:00:00Z"%string) (λ t, Z.of_nat t) (λ _, "fresh"%string)
    (λ t, (100 <=? t)%nat) (λ _ db, db) (λ _ _, "report"%string) "did:a" None "did:service" 3.
(** The P5 consumer is not ready, so that the negotiated P6 lane is the one asked for. *)
Definition ex_run_db : SyncDb :=
  mkSyncDb (put_transport "owner-1" P5Device (Some "lane_consumer_not_ready"%string) 400
              ex_negotiated_db) ∅ ∅.
Definition ex_request : MessageSyncRequest := {| reason := "session_start"; limit := None |}.
Definition ex_start : Run nat unit := mkRun 0%nat 0%nat ex_run_db empty_outcome [].
Local Notation ex_received :=
  (@receive_run ex_codec ex_json ex_number ex_wire ex_group nat unit ex_runtime 101 ex_request ex_start).

Lemma ex_received_ok :
  match ex_received with
  | (Returned o, s) => (so_events_applied o =? 2) && (length (rn_sent s) =? 1)%nat
  | _ => false
  end = true.
Proof. vm_compute. reflexivity. Qed.


Definition ex_sent : Value * SyncDb :=
  match rn_sent ex_received.2 with x :: _ => x | [] => (VNull, ex_run_db) end.
Lemma ex_sent_ok : rn_sent ex_received.2 = [ex_sent].
Proof. vm_compute. reflexivity. Qed.
Lemma ex_sent_in : (ex_sent.1, ex_sent.2) ∈ rn_sent ex_received.2.
Proof. rewrite <-(surjective_pairing ex_sent), ex_sent_ok. apply list_elem_of_singleton. reflexivity. Qed.

Lemma run_requests_stored_witness :
  ∃ epoch seq, cursor "owner-1" ex_sent.2 = Some ("owner-1"%string, epoch, seq) ∧
    request_cursor ex_sent.1 = Some (cursor_value (mkCursor epoch seq)).
Proof.
  apply (@run_requests_stored ex_codec ex_json ex_number ex_wire ex_group nat unit ex_runtime
           "owner-1" 101 ex_request ex_start ex_sent.1 ex_sent.2).
  - intros t db. reflexivity.
  - intros w b w' [= <- _]. reflexivity.
  - reflexivity.
  - intros c Hc. vm_compute in Hc. injection Hc as <-. reflexivity.
  - exact ex_sent_in.
Defined.

(** *** A snapshot *)

Definition ex_checkpoint : SnapshotApplyInput :=
  mkSnapshotInput "owner-1" None "did:a" "account-1" "device-1" "1" "3" "9" false "hash" "4" "20"
    "2026-01-01T00:00:00Z" "2025-12-01T00:00:00Z" true None.
Definition ex_recovery : RecoveryState :=
  mkRecovery "owner-1" "compact_recovery" "3" "9" (Some "hash"%string) (Some "20"%string) "applying"
    0 None 450 450.
Definition ex_applying_db : SyncDb :=
  with_lane_db (with_store (unwrap_or (upsert_recovery_state (sd_db ex_run_db) ex_recovery) empty_db)
                  (sd_lanes ex_run_db)) ex_run_db.
Definition ex_baseline : Baseline :=
  mkBaseline "2026-01-01T00:00:00Z" (Some "2025-12-01T00:00:00Z"%string) [] [] {["m1"%string]} ∅.
Definition ex_snapshot : ReceiveOutcome * SyncDb :=
  unwrap_or (@receive_snapshot ex_codec ex_json ex_applying_db ex_checkpoint ex_binding "inst-1"
    ex_baseline [ex_event "e15" "15" "s1"] 77 500 501) (mkReceiveOutcome 0 0 [], ex_run_db).
Lemma ex_snapshot_ok :
  @receive_snapshot ex_codec ex_json ex_applying_db ex_checkpoint ex_binding "inst-1"
    ex_baseline [ex_event "e15" "15" "s1"] 77 500 501 = Ok (ex_snapshot.1, ex_snapshot.2).
Proof. vm_compute. reflexivity. Qed.

Lemma ex_applying_wf : queue_wf (sd_db ex_applying_db).
Proof.
  split; [split|..]; try by apply NoDup_nil.
  - by intros r ?%elem_of_nil.
  - by vm_compute.
  - by vm_compute.
Qed.

Lemma snapshot_receive_durable_witness :
  (∃ r, r ∈ db_inbox (sd_db ex_snapshot.2) ∧ in_event_id r = "e15"%string) ∧
  db_message_states (sd_db ex_snapshot.2) !! "owner-1"%string = Some (snapshot_state ex_checkpoint 501).
Proof.
  destruct (@snapshot_receive_durable ex_codec ex_json ex_applying_db ex_checkpoint ex_binding
    "inst-1" ex_baseline [ex_event "e15" "15" "s1"] 77 500 501 ex_snapshot.1 ex_snapshot.2
    ex_applying_wf ex_snapshot_ok) as (_ & He & _ & _ & Hs & _).
  split; [|exact Hs].
  destruct (He (ex_event "e15" "15" "s1")) as [(r & Hr & Hk & _)|[(r & (Hr & _) & _)|(h & Hh & _)]].
  - by left.
  - exists r. split; [exact Hr|]. injection Hk as _ _ _ Hk. exact Hk.
  - exfalso. vm_compute in Hr. inversion Hr.
  - exfalso. vm_compute in Hh. discriminate Hh.
Defined.

(** *** A bootstrap of the next device generation *)

Definition ex_generation_2 : IdentityAccountBinding :=
  mkBinding "owner-1" "account-1" None "did:a" "device-1" "1" "2" 100 600.
Definition ex_tail : BootstrapApplyInput :=
  mkBootstrapInput ex_generation_2
    (mkMessageState "owner-1" "account-1" "device-1" "2" "3" "50" "tail_bootstrapped" None None None
       None 600) "inst-1" ex_caps_json 0 [ex_lane_cursor "2"].
Definition ex_running_db : SyncDb :=
  with_lane_db (with_store (unwrap_or (begin_message_sync_run (sd_db ex_run_db) "owner-1" 590)
    (ex_run_state, empty_db)).2 (sd_lanes ex_run_db)) ex_run_db.
Definition ex_bootstrapped : (ReceiveOutcome * MessageSyncState) * SyncDb :=
  unwrap_or (@receive_bootstrap ex_codec ex_json ex_running_db ex_tail ex_baseline 1 78 600)
    ((mkReceiveOutcome 0 0 [], ex_state "0"), ex_run_db).
Lemma ex_bootstrapped_ok :
  @receive_bootstrap ex_codec ex_json ex_running_db ex_tail ex_baseline 1 78 600
  = Ok ((ex_bootstrapped.1.1, ex_bootstrapped.1.2), ex_bootstrapped.2).
Proof. vm_compute. reflexivity. Qed.

Lemma bootstrap_keeps_position_witness :
  ms_scan_seq ex_bootstrapped.1.2 = "9"%string ∧
  ∃ row, ld_lanes (sd_lanes ex_bootstrapped.2) !! ("owner-1", "p6_group")%string = Some row ∧
    lw_stream_epoch row = "7"%string ∧ gen_le "3" (lw_scan_seq row).
Proof.
  destruct (@bootstrap_keeps_position ex_codec ex_json ex_running_db ex_tail ex_baseline 1 78 600
    ex_bootstrapped.1.1 ex_bootstrapped.1.2 ex_bootstrapped.2 ex_binding (ex_state "9"))
    as (_ & Hs & Hl).
  - vm_compute. reflexivity.
  - vm_compute. reflexivity.
  - vm_compute. reflexivity.
  - exact ex_bootstrapped_ok.
  - split; [apply Hs; reflexivity|].
    apply (Hl [ex_lane_cursor "3"] (ex_lane_cursor "3") (ex_lane_cursor "2")).
    + vm_compute. reflexivity.
    + by left.
    + by left.
    + reflexivity.
    + reflexivity.
Defined.

(** *** A legacy blocker *)

Definition ex_legacy_db : SyncDb := mkSyncDb ex_blocked_db ∅ ∅.
Definition ex_legacy_row : LegacyRow := mkLegacyRow ex_blocker ex_binding (Some "inst-1"%string).
Definition ex_migrated : ImResult LegacyP6InboxMigrationReport * SyncDb :=
  @migrate_blocker ex_codec ex_json ex_legacy_row 800 (mkReport 0 0 0) ex_legacy_db.

Lemma legacy_blocker_kept_witness :
  ld_blockers (sd_lanes ex_migrated.2) = [] ∧
  @queued_blocker ex_codec ex_json ex_blocker (db_inbox (sd_db ex_migrated.2)).
Proof.
  assert (ld_blockers (sd_lanes ex_migrated.2) = []) as Hn by (vm_compute; reflexivity).
  split; [exact Hn|].
  destruct (@legacy_blocker_kept ex_codec ex_json ex_legacy_row 800 (mkReport 0 0 0) ex_legacy_db
    ex_migrated.1 ex_migrated.2 (surjective_pairing ex_migrated)) as [Hk _].
  destruct (Hk ex_blocker) as [Hb|(_ & _ & Hq)].
  - apply (list_elem_of_lookup_2 _ 0). vm_compute. reflexivity.
  - rewrite Hn in Hb. inversion Hb.
  - exact Hq.
Defined.
