(* ===== verification/Dispatch.v ===== *)
(** * The processing dispatcher

    [message_runtime/sync_dispatcher.rs]: one dispatcher per database hands queued
    inputs to workers. [wake_client] registers a client and starts the loop when
    none runs; the loop scans the registered clients, starts at most eight jobs and
    ends when a scan finds nothing left and no client was woken meanwhile.

    The dispatcher is a step relation over its shared state, its loops and the
    database: wake-ups, scans, finished, panicked and aborted tasks come in any
    order. Workers of the maintenance kinds run code outside the model; only their
    slot is. *)

From stdpp Require Import gmap sorting.
From S2P Require Import Prelude RustStr ImError Effects Dto Store Inbox.
Local Open Scope Z_scope.

(** ** Shared state *)

(** A client: its owner and the device generation of its sync context, if it has
    one. *)
Record Client := mkClient {
  cl_owner : string;
  cl_device_auth_generation : option string }.

Record DispatchState := mkDispatch {
  ds_running : bool;
  ds_run_epoch : Z;
  ds_wake_generation : Z;
  ds_next_owner : Z;
  ds_clients : gmap string Client;
  ds_active_by_owner : gmap string Z }.

Definition dispatch_default : DispatchState := mkDispatch false 0 0 0 ∅ ∅.

(** [wrapping_add(1)] *)
Definition u64_wrapping_succ (n : Z) : Z := (n + 1) mod 2 ^ 64.

Definition active_for_owner (s : DispatchState) (owner : string) : Z :=
  default 0 (ds_active_by_owner s !! owner).

Definition with_active m (s : DispatchState) : DispatchState :=
  mkDispatch (ds_running s) (ds_run_epoch s) (ds_wake_generation s) (ds_next_owner s)
    (ds_clients s) m.

Definition input_finished (claim : option InputClaim) (s : DispatchState) : DispatchState :=
  match claim with
  | Some claim =>
      with_active (alter (λ n, Z.max 0 (n - 1)) (ic_owner claim) (ds_active_by_owner s)) s
  | None => s
  end.

Definition input_started (claim : InputClaim) (s : DispatchState) : DispatchState :=
  with_active (<[ic_owner claim := active_for_owner s (ic_owner claim) + 1]>
                 (ds_active_by_owner s)) s.

(** [(len, text)] is greater. *)
Definition generation_newer (current incoming : string) : bool :=
  (String.length incoming <? String.length current)%nat
  || ((String.length incoming =? String.length current)%nat && str_ltb incoming current).

Definition use_current (s : DispatchState) (client : Client) : bool :=
  match ds_clients s !! cl_owner client with
  | Some current =>
      match cl_device_auth_generation current, cl_device_auth_generation client with
      | Some current, Some incoming => generation_newer current incoming
      | _, _ => false
      end
  | None => false
  end.

(** The state after a wake-up, and the epoch of the loop to start. *)
Definition wake_client (s : DispatchState) (client : Client) : DispatchState * option Z :=
  let clients := if use_current s client then ds_clients s
                 else <[cl_owner client := client]> (ds_clients s) in
  let generation := u64_wrapping_succ (ds_wake_generation s) in
  if ds_running s then
    (mkDispatch true (ds_run_epoch s) generation (ds_next_owner s) clients
       (ds_active_by_owner s), None)
  else
    let epoch := u64_wrapping_succ (ds_run_epoch s) in
    (mkDispatch true epoch generation (ds_next_owner s) clients (ds_active_by_owner s),
     Some epoch).

(** [RunGuard::drop] *)
Definition drop_guard (epoch : Z) (s : DispatchState) : DispatchState :=
  if ds_run_epoch s =? epoch then
    mkDispatch false (ds_run_epoch s) (ds_wake_generation s) (ds_next_owner s) (ds_clients s) ∅
  else s.

(** The registry of dispatchers: dead ones are dropped, the live one of a database
    is shared. *)
Definition for_client {D : Type} (alive : D → bool) (fresh : D) (key : string)
    (registry : gmap string D) : D * gmap string D :=
  let registry := filter (λ kd : string * D, alive kd.2 = true) registry in
  match registry !! key with
  | Some dispatcher => (dispatcher, registry)
  | None => (fresh, <[key := fresh]> registry)
  end.

(** ** The loop *)

(** Where a loop is: spawned and not yet polled, at its top, in a scan with the
    clients it still has to visit, in its [select!], or returned with its guard not
    yet dropped. *)
Inductive Phase : Type :=
| Spawned
| Top
| Scan (scanned left : list Client) (retained : bool) (generation : Z)
| Waiting (clients : list Client)
| Finished.

(** The loop's own variables; [lp_jobs] are the running tasks with the token each
    returns, [lp_task_tokens] what the loop noted about them. *)
Record Loop := mkLoop {
  lp_epoch : Z;
  lp_phase : Phase;
  lp_jobs : gmap Z string;
  lp_task_tokens : gmap Z string;
  lp_active : gmap string InputClaim;
  lp_maintenance : gmap string string;
  lp_maintenance_due : bool }.

Definition loop_start (epoch : Z) : Loop := mkLoop epoch Spawned ∅ ∅ ∅ ∅ true.
Definition with_phase (p : Phase) (l : Loop) : Loop :=
  mkLoop (lp_epoch l) p (lp_jobs l) (lp_task_tokens l) (lp_active l) (lp_maintenance l)
    (lp_maintenance_due l).

Section dispatcher.
Context {Message : Type}.
Notation Update := (MessageProcessingUpdate Message).

Definition update_of (event_id : string) (status : MessageProcessingStatus) (code : option string)
    : Update :=
  {| up_event_id := event_id; up_status := status; up_changed_conversation_ids := [];
     up_committed_incoming_messages := []; up_error_code := code |}.

Definition removed_updates (removed : list RemovedInput) : list (string * Update) :=
  (λ input, (rm_owner input,
             update_of (rm_event_id input) Discarded (Some "sync.input_discarded"%string)))
  <$> removed.

(** [rotate_left] *)
Definition rotate_left {A} (n : nat) (l : list A) : list A := drop n l ++ take n l.

(** The clients in the order of their owners, rotated; a scan begins. *)
Definition begin_scan (s : DispatchState) (l : Loop) : DispatchState * Loop :=
  let clients := snd <$> merge_sort (λ a b, str_le a.1 b.1) (map_to_list (ds_clients s)) in
  if (length clients =? 0)%nat then
    (s, with_phase (Scan clients clients false (ds_wake_generation s)) l)
  else
    let clients' := rotate_left (Z.to_nat (ds_next_owner s mod Z.of_nat (length clients))) clients in
    (mkDispatch (ds_running s) (ds_run_epoch s) (ds_wake_generation s)
       (u64_wrapping_succ (ds_next_owner s)) (ds_clients s) (ds_active_by_owner s),
     with_phase (Scan clients' clients' false (ds_wake_generation s)) l).

(** What the surroundings of one client's scan decide: whether its database opens,
    what others do to it before each statement, which statements fail, the clock,
    which maintenance is
    pending (all false when that cannot be read), the stored binding of the active
    account, random tokens and task ids. *)
Record ScanInput := mkScanInput {
  sc_db_ok : bool;
  sc_env : nat → Db → Db;
  sc_fails : nat → bool;
  sc_clock : nat → Z;
  sc_pending : nat → bool;
  sc_binding : option IdentityAccountBinding;
  sc_lease : nat → string;
  sc_token : nat → string;
  sc_task : nat → Z }.

(** [db.run_local]: the [k]-th statement of the scan. *)
Definition statement {A} (input : ScanInput) (k : nat) (f : Db → Z → ImResult A) (db : Db)
    : ImResult A :=
  if sc_fails input k then Err (LocalStateUnavailable "run_local")
  else f (sc_env input k db) (sc_clock input k).

Definition maintenance_token (index : nat) (owner : string) : string :=
  "maintenance:" +:+ u64_to_string (Z.of_nat index) +:+ ":" +:+ owner.

(** One kind of maintenance: a free slot, a lease, a task. *)
Definition start_maintenance (input : ScanInput) (owner : string) (s : Loop * Db) (index : nat)
    : Loop * Db :=
  let '(l, db) := s in
  let token := maintenance_token index owner in
  if negb (sc_pending input index) || bool_decide (is_Some (lp_maintenance l !! token))
     || (MAX_ACTIVE_INPUTS <=? Z.of_nat (size (lp_jobs l))) then (l, db)
  else
    match statement input (2 + index) (λ db now, reserve_processing_slot db now (sc_lease input index))
            db with
    | Ok (Some lease, db') =>
        (mkLoop (lp_epoch l) (lp_phase l) (<[sc_task input index := token]> (lp_jobs l))
           (<[sc_task input index := token]> (lp_task_tokens l)) (lp_active l)
           (<[token := lease]> (lp_maintenance l)) (lp_maintenance_due l), db')
    | Ok (None, db') => (l, db')
    | Err _ => (l, sc_env input (2 + index)%nat db)
    end.

(** One claimed input: counted, noted and started. *)
Definition start_claim (s : DispatchState * Loop) (task_claim : Z * InputClaim)
    : DispatchState * Loop :=
  let '(st, l) := s in
  let '(task, claim) := task_claim in
  (input_started claim st,
   mkLoop (lp_epoch l) (lp_phase l) (<[task := ic_token claim]> (lp_jobs l))
     (<[task := ic_token claim]> (lp_task_tokens l)) (<[ic_token claim := claim]> (lp_active l))
     (lp_maintenance l) (lp_maintenance_due l)).

(** Claims are taken with the slots the running jobs leave. *)
Definition claim_slots (input : ScanInput) (l : Loop) (db : Db) : list InputClaim * Db :=
  if MAX_ACTIVE_INPUTS <=? Z.of_nat (size (lp_jobs l)) then ([], db)
  else
    match sc_binding input with
    | None => ([], db)
    | Some binding =>
        match statement input 6 (λ db now, claim_inputs db binding now
                (MAX_ACTIVE_INPUTS - Z.of_nat (size (lp_jobs l))) (sc_token input)) db with
        | Ok (claims, db') => (claims, db')
        | Err _ => ([], sc_env input 6%nat db)
        end
    end.

(** One client of a scan: the state, the loop, the database, whether work is left,
    and what is published. *)
Definition scan_client (input : ScanInput) (client : Client) (s : DispatchState) (l : Loop) (db : Db)
    : DispatchState * Loop * Db * bool * list (string * Update) :=
  if negb (sc_db_ok input) then (s, l, db, false, [])
  else
    let '(removed, db1) :=
      if bool_decide (lp_active l = ∅) then
        match statement input 0 (λ db now, purge_expired db now 256) db with
        | Ok r => r
        | Err _ => ([], sc_env input 0%nat db)
        end
      else ([], db) in
    let db2 := sc_env input 1%nat db1 in
    let summary := statement input 1 (λ db now, Ok (processing_summary db (cl_owner client) now)) db1 in
    let retained := match summary with Ok summary => 0 <? ps_pending summary | Err _ => false end
                    || existsb (sc_pending input) (seq 0 4) in
    let '(l1, db3) :=
      if lp_maintenance_due l
      then fold_left (start_maintenance input (cl_owner client)) (seq 0 4) (l, db2)
      else (l, db2) in
    let '(claims, db4) := claim_slots input l1 db3 in
    let '(s1, l2) := fold_left start_claim (imap (λ i c, (sc_task input (4 + i)%nat, c)) claims)
                       (s, l1) in
    (s1, l2, db4, retained, removed_updates removed).

(** The end of a scan: the loop stops when nothing is left and no client was woken
    since the scan began; otherwise it scans again or waits. *)
Definition end_scan (s : DispatchState) (l : Loop) (receivers : Z) (clients : list Client)
    (retained : bool) (generation : Z) : DispatchState * Loop :=
  let l := mkLoop (lp_epoch l) (lp_phase l) (lp_jobs l) (lp_task_tokens l) (lp_active l)
             (lp_maintenance l) false in
  if (size (lp_jobs l) =? 0)%nat && negb retained && (receivers =? 0) then
    if ds_wake_generation s =? generation then
      (mkDispatch false (ds_run_epoch s) (ds_wake_generation s) (ds_next_owner s) ∅
         (ds_active_by_owner s), with_phase Finished l)
    else (s, with_phase Top l)
  else (s, with_phase (Waiting clients) l).

(** A task that ended, with the token it returned, and one that panicked. *)
Definition task_finished (task : Z) (token : string) (s : DispatchState) (l : Loop)
    : DispatchState * Loop :=
  (input_finished (lp_active l !! token) s,
   mkLoop (lp_epoch l) Top (delete task (lp_jobs l))
     (filter (λ kv : Z * string, kv.2 ≠ token) (lp_task_tokens l))
     (delete token (lp_active l)) (delete token (lp_maintenance l)) (lp_maintenance_due l)).
Definition task_panicked (task : Z) (s : DispatchState) (l : Loop) : DispatchState * Loop :=
  let jobs := delete task (lp_jobs l) in
  match lp_task_tokens l !! task with
  | Some token =>
      (input_finished (lp_active l !! token) s,
       mkLoop (lp_epoch l) Top jobs (delete task (lp_task_tokens l)) (delete token (lp_active l))
         (delete token (lp_maintenance l)) (lp_maintenance_due l))
  | None =>
      (s, mkLoop (lp_epoch l) Top jobs (lp_task_tokens l) (lp_active l) (lp_maintenance l)
            (lp_maintenance_due l))
  end.

(** The maintenance tick renews what is running and purges; [db_ok] says whether
    the first client's database opens. *)
Definition tick (db_ok : bool) (env : nat → Db → Db) (clock : nat → Z) (clients : list Client)
    (l : Loop) (db : Db) : Loop * Db * list (string * Update) :=
  let l' := mkLoop (lp_epoch l) Top (lp_jobs l) (lp_task_tokens l) (lp_active l)
              (lp_maintenance l) true in
  if negb db_ok || (length clients =? 0)%nat then (l', db, [])
  else
    let db1 := renew_claims (env 0%nat db) (map_to_list (lp_active l)).*2 (clock 0%nat) in
    let db2 := renew_processing_slots db1 (map_to_list (lp_maintenance l)).*2 (clock 0%nat) in
    match purge_expired (env 1%nat db2) (clock 1%nat) 256 with
    | Ok (removed, db3) => (l', db3, removed_updates removed)
    | Err _ => (l', env 1%nat db2, [])
    end.

(** ** The system

    The shared state, the loops, the database, the updates published and the number
    of receivers. Three components are not in the program: [sy_wakes] counts the
    wake-ups, [sy_idle] holds the clients in which the current scan found nothing,
    unless a client was woken since, and [sy_lost] says that a loop was dropped
    before it was first polled. *)

Record Sys := mkSys {
  sy_state : DispatchState;
  sy_loops : list Loop;
  sy_db : Db;
  sy_published : list (string * Update);
  sy_receivers : Z;
  sy_wakes : Z;
  sy_idle : list Client;
  sy_lost : bool }.

Definition sys_start (db : Db) : Sys := mkSys dispatch_default [] db [] 0 0 [] false.

Definition wake (client : Client) (s : Sys) : Sys :=
  let '(st, start) := wake_client (sy_state s) client in
  mkSys st (sy_loops s ++ (loop_start <$> option_list start)) (sy_db s) (sy_published s)
    (sy_receivers s) (sy_wakes s + 1) [] (sy_lost s).

(** What is random is new: the tokens of claims (whose form is not that of a
    maintenance token) and the ids of tasks. *)
Definition is_maintenance (token : string) : bool := String.prefix "maintenance:" token.
Record scan_fresh (input : ScanInput) (l : Loop) : Prop := {
  sf_tokens : ∀ i j, sc_token input i = sc_token input j → i = j;
  sf_token_new : ∀ i, lp_active l !! sc_token input i = None;
  sf_token_form : ∀ i, is_maintenance (sc_token input i) = false;
  sf_tasks : ∀ i j, sc_task input i = sc_task input j → i = j;
  sf_task_new : ∀ i, lp_jobs l !! sc_task input i = None }.

Definition with_loops st loops (s : Sys) : Sys :=
  mkSys st loops (sy_db s) (sy_published s) (sy_receivers s) (sy_wakes s) (sy_idle s) (sy_lost s).
Definition after_scan st loops db published idle (s : Sys) : Sys :=
  mkSys st loops db (sy_published s ++ published) (sy_receivers s) (sy_wakes s)
    (idle ++ sy_idle s) (sy_lost s).

(** The loop of [run], one atomic part at a time. *)
Inductive loop_step (s : Sys) (pre post : list Loop) : Loop → Sys → Prop :=
| ls_poll l :
    lp_phase l = Spawned →
    loop_step s pre post l (with_loops (sy_state s) (pre ++ with_phase Top l :: post) s)
| ls_begin l st l' :
    lp_phase l = Top → begin_scan (sy_state s) l = (st, l') →
    loop_step s pre post l
      (mkSys st (pre ++ l' :: post) (sy_db s) (sy_published s) (sy_receivers s) (sy_wakes s) []
         (sy_lost s))
| ls_scan l input scanned client left retained generation st l' db found published :
    lp_phase l = Scan scanned (client :: left) retained generation → scan_fresh input l →
    scan_client input client (sy_state s) l (sy_db s) = (st, l', db, found, published) →
    loop_step s pre post l
      (after_scan st (pre ++ with_phase (Scan scanned left (retained || found) generation) l' :: post)
         db published (if found then [] else [client]) s)
| ls_end l scanned retained generation st l' :
    lp_phase l = Scan scanned [] retained generation →
    end_scan (sy_state s) l (sy_receivers s) scanned retained generation = (st, l') →
    loop_step s pre post l (with_loops st (pre ++ l' :: post) s)
| ls_notified l clients :
    lp_phase l = Waiting clients →
    loop_step s pre post l (with_loops (sy_state s) (pre ++ with_phase Top l :: post) s)
| ls_finished l clients task token st l' :
    lp_phase l = Waiting clients → lp_jobs l !! task = Some token →
    task_finished task token (sy_state s) l = (st, l') →
    loop_step s pre post l (with_loops st (pre ++ l' :: post) s)
| ls_panicked l clients task token st l' :
    lp_phase l = Waiting clients → lp_jobs l !! task = Some token →
    task_panicked task (sy_state s) l = (st, l') →
    loop_step s pre post l (with_loops st (pre ++ l' :: post) s)
| ls_tick l clients db_ok env clock l' db published :
    lp_phase l = Waiting clients →
    tick db_ok env clock clients l (sy_db s) = (l', db, published) →
    loop_step s pre post l (after_scan (sy_state s) (pre ++ l' :: post) db published [] s).

(** A loop that ends, or is aborted after its first poll, drops its guard; one that
    is dropped before it has none. Everyone else may change the database, publish
    and subscribe. *)
Inductive step (s : Sys) : Sys → Prop :=
| st_wake client : step s (wake client s)
| st_others db published receivers :
    step s (mkSys (sy_state s) (sy_loops s) db (sy_published s ++ published) receivers
              (sy_wakes s) (sy_idle s) (sy_lost s))
| st_loop pre l post s' :
    sy_loops s = pre ++ l :: post → loop_step s pre post l s' → step s s'
| st_drop pre l post :
    sy_loops s = pre ++ l :: post → lp_phase l ≠ Spawned →
    step s (with_loops (drop_guard (lp_epoch l) (sy_state s)) (pre ++ post) s)
| st_drop_unpolled pre l post :
    sy_loops s = pre ++ l :: post → lp_phase l = Spawned →
    step s (mkSys (sy_state s) (pre ++ post) (sy_db s) (sy_published s) (sy_receivers s)
              (sy_wakes s) (sy_idle s) true).

Definition reachable (s : Sys) : Prop := ∃ db, rtc step (sys_start db) s.
End dispatcher.
