(* ===== verification/DispatchProps.v ===== *)
(** * The dispatcher's invariant

    What holds of the dispatcher after any sequence of wake-ups, scans, finished,
    panicked and aborted tasks: one loop at most is running, it holds at most eight
    jobs, the counts by owner are those of the inputs being processed, and a scan
    that no wake-up interrupted covers the registered clients. *)

From stdpp Require Import gmap sorting.
From S2P Require Import Prelude RustStr ImError Effects Dto Store Inbox InboxProps Dispatch.
Local Open Scope Z_scope.

(** ** One loop *)

Definition live (l : Loop) : Prop := lp_phase l ≠ Finished.
#[export] Instance live_dec l : Decision (live l).
Proof. unfold live. destruct (lp_phase l); (by left) || (right; by intros []). Defined.

Definition in_hand (l : Loop) (owner : string) : Z :=
  Z.of_nat (size (filter (λ kv : string * InputClaim, ic_owner kv.2 = owner) (lp_active l)
                    : gmap string InputClaim)).

Lemma in_hand_pos l t c : lp_active l !! t = Some c → 1 ≤ in_hand l (ic_owner c).
Proof.
  intros Hc. unfold in_hand. set (m := filter _ _).
  enough (size m ≠ 0%nat) by lia. rewrite map_size_empty_iff. intros H.
  assert (m !! t = Some c) as Hf by by apply map_lookup_filter_Some.
  by rewrite H in Hf.
Qed.

Record loop_wf (l : Loop) : Prop := {
  lw_tasks : lp_task_tokens l = lp_jobs l;
  lw_inj : ∀ k k' t, lp_jobs l !! k = Some t → lp_jobs l !! k' = Some t → k = k';
  lw_jobs : ∀ t, (∃ k, lp_jobs l !! k = Some t) ↔
                 is_Some (lp_active l !! t) ∨ is_Some (lp_maintenance l !! t);
  lw_active : ∀ t c, lp_active l !! t = Some c → is_maintenance t = false ∧ ic_token c = t;
  lw_maintenance : ∀ t, is_Some (lp_maintenance l !! t) → is_maintenance t = true;
  lw_size : Z.of_nat (size (lp_jobs l)) ≤ MAX_ACTIVE_INPUTS;
  lw_idle : lp_phase l = Spawned ∨ lp_phase l = Finished → lp_jobs l = ∅ }.

Lemma loop_start_wf e : loop_wf (loop_start e).
Proof.
  split; simpl; try done.
  - intros t. setoid_rewrite lookup_empty. split; [by intros [k ?]|by intros [[]|[]]].
  - intros t [x Hx]. by rewrite lookup_empty in Hx.
Qed.

(** Everything but the phase. *)
Lemma with_phase_wf p l :
  loop_wf l → (p = Spawned ∨ p = Finished → lp_jobs l = ∅) → loop_wf (with_phase p l).
Proof. intros [] Hp. by split. Qed.

Lemma is_maintenance_token i o : is_maintenance (maintenance_token i o) = true.
Proof. unfold is_maintenance, maintenance_token. simpl. by destruct (_ +:+ _). Qed.

Lemma no_jobs_no_active l : loop_wf l → lp_jobs l = ∅ → lp_active l = ∅.
Proof.
  intros W Hj. apply map_empty. intros t. destruct (lp_active l !! t) as [c|] eqn:Et; [|done].
  destruct (proj2 (lw_jobs l W t)) as [k Hk]; [by left; exists c|]. by rewrite Hj in Hk.
Qed.

(** *** Starting a job *)

Definition add_job task token active maintenance (l : Loop) : Loop :=
  mkLoop (lp_epoch l) (lp_phase l) (<[task := token]> (lp_jobs l))
    (<[task := token]> (lp_task_tokens l)) active maintenance (lp_maintenance_due l).

Lemma not_in_jobs l t k :
  loop_wf l → lp_active l !! t = None → lp_maintenance l !! t = None → lp_jobs l !! k ≠ Some t.
Proof.
  intros W Ha Hm Hk. destruct (proj1 (lw_jobs l W t)) as [H|H]; [by exists k|..];
    rewrite ?Ha, ?Hm in H; by destruct H.
Qed.

Section add.
Context (l : Loop) (task : Z) (token : string).
Context (W : loop_wf l) (Hp : lp_phase l ≠ Spawned ∧ lp_phase l ≠ Finished).
Context (Htask : lp_jobs l !! task = None).
Context (Ha : lp_active l !! token = None) (Hm : lp_maintenance l !! token = None).
Context (Hs : Z.of_nat (size (lp_jobs l)) < MAX_ACTIVE_INPUTS).

Lemma add_job_jobs t :
  (∃ k, <[task := token]> (lp_jobs l) !! k = Some t) ↔ t = token ∨ ∃ k, lp_jobs l !! k = Some t.
Proof.
  split.
  - intros [k [[_ <-]|[_ Hk]]%lookup_insert_Some]; [by left|right; by exists k].
  - intros [->|[k Hk]]; [exists task; by rewrite lookup_insert_eq|].
    exists k. rewrite lookup_insert_ne; [done|]. intros <-. by rewrite Htask in Hk.
Qed.
Lemma add_job_inj k k' t :
  <[task := token]> (lp_jobs l) !! k = Some t → <[task := token]> (lp_jobs l) !! k' = Some t →
  k = k'.
Proof.
  pose proof (not_in_jobs l token) as Hn.
  intros [[<- <-]|[? H1]]%lookup_insert_Some [[<- E]|[? H2]]%lookup_insert_Some; try done.
  - by destruct (Hn k' W Ha Hm).
  - subst. by destruct (Hn k W Ha Hm).
  - by eapply (lw_inj l W).
Qed.
Lemma add_job_size : Z.of_nat (size (<[task := token]> (lp_jobs l))) ≤ MAX_ACTIVE_INPUTS.
Proof. rewrite map_size_insert_None by done. lia. Qed.

Lemma add_claim_wf c :
  is_maintenance token = false → ic_token c = token →
  loop_wf (add_job task token (<[token := c]> (lp_active l)) (lp_maintenance l) l).
Proof.
  intros Hf Hc. split; simpl.
  - by rewrite (lw_tasks l W).
  - apply add_job_inj.
  - intros t. rewrite add_job_jobs, (lw_jobs l W t), lookup_insert_is_Some.
    destruct (decide (token = t)); naive_solver.
  - intros t c' [[<- <-]|[_ H]]%lookup_insert_Some; [done|by eapply (lw_active l W)].
  - apply (lw_maintenance l W).
  - apply add_job_size.
  - destruct Hp. by intros [].
Qed.
Lemma add_maintenance_wf lease :
  is_maintenance token = true →
  loop_wf (add_job task token (lp_active l) (<[token := lease]> (lp_maintenance l)) l).
Proof.
  intros Hf. split; simpl.
  - by rewrite (lw_tasks l W).
  - apply add_job_inj.
  - intros t. rewrite add_job_jobs, (lw_jobs l W t), lookup_insert_is_Some.
    destruct (decide (token = t)); naive_solver.
  - apply (lw_active l W).
  - intros t [<-|[_ H]]%lookup_insert_is_Some; [done|by eapply (lw_maintenance l W)].
  - apply add_job_size.
  - destruct Hp. by intros [].
Qed.
End add.

Lemma add_claim_in_hand l task c owner :
  lp_active l !! ic_token c = None →
  in_hand (add_job task (ic_token c) (<[ic_token c := c]> (lp_active l)) (lp_maintenance l) l) owner
  = in_hand l owner + (if bool_decide (ic_owner c = owner) then 1 else 0).
Proof.
  intros Ha. unfold in_hand. simpl. case_bool_decide as E.
  - rewrite map_filter_insert_True by done. rewrite map_size_insert_None; [lia|].
    apply map_lookup_filter_None. by left.
  - rewrite map_filter_insert_False by done. rewrite delete_id by done. lia.
Qed.

(** *** Ending a job *)

Section remove.
Context (l : Loop) (task : Z) (token : string).
Context (W : loop_wf l) (Hk : lp_jobs l !! task = Some token).
Definition without_job : Loop :=
  mkLoop (lp_epoch l) Top (delete task (lp_jobs l)) (delete task (lp_jobs l))
    (delete token (lp_active l)) (delete token (lp_maintenance l)) (lp_maintenance_due l).

Lemma without_job_wf : loop_wf without_job.
Proof.
  split; simpl.
  - done.
  - intros k k' t [_ ?]%lookup_delete_Some [_ ?]%lookup_delete_Some. by eapply (lw_inj l W).
  - intros t. setoid_rewrite lookup_delete_is_Some. setoid_rewrite lookup_delete_Some.
    pose proof (lw_jobs l W t) as Hj. split.
    + intros (k & Hne & Hkt).
      assert (token ≠ t) by (intros <-; apply Hne; by eapply (lw_inj l W)).
      naive_solver.
    + intros Ht. assert (token ≠ t) as Hne by naive_solver.
      destruct (proj2 Hj) as [k Hkt]; [naive_solver|].
      exists k. split; [|done]. intros <-. congruence.
  - intros t c [_ ?]%lookup_delete_Some. by eapply (lw_active l W).
  - intros t [_ ?]%lookup_delete_is_Some. by eapply (lw_maintenance l W).
  - pose proof (lw_size l W). rewrite map_size_delete, Hk. lia.
  - by intros [].
Qed.

Lemma finished_tokens : filter (λ kv : Z * string, kv.2 ≠ token) (lp_task_tokens l)
                        = delete task (lp_jobs l).
Proof.
  rewrite (lw_tasks l W). apply map_eq. intros k. apply option_eq. intros t.
  rewrite map_lookup_filter_Some, lookup_delete_Some. simpl. split.
  - intros [Ht Hne]. split; [|done]. intros <-. congruence.
  - intros [Hne Ht]. split; [done|]. intros ->. apply Hne. by eapply (lw_inj l W).
Qed.

Lemma without_job_in_hand owner :
  in_hand without_job owner
  = in_hand l owner - match lp_active l !! token with
                      | Some c => if bool_decide (ic_owner c = owner) then 1 else 0
                      | None => 0
                      end.
Proof.
  unfold in_hand. simpl. rewrite map_filter_delete. destruct (lp_active l !! token) as [c|] eqn:E.
  - rewrite map_size_delete. case_bool_decide as Ho.
    + rewrite (proj2 (map_lookup_filter_Some _ _ _ c)) by done.
      subst owner. pose proof (in_hand_pos _ _ _ E) as Hpos. unfold in_hand in Hpos. lia.
    + rewrite (proj2 (map_lookup_filter_None _ _ _)); [simpl; lia|]. right.
      intros c' Hc'. simpl. congruence.
  - rewrite map_size_delete, (proj2 (map_lookup_filter_None _ _ _)) by by left. simpl. lia.
Qed.
End remove.

(** ** A scan *)

(** The parts of the shared state that only wake-ups and ends change. *)
Definition same_control (s s' : DispatchState) : Prop :=
  ds_running s' = ds_running s ∧ ds_run_epoch s' = ds_run_epoch s ∧
  ds_wake_generation s' = ds_wake_generation s ∧ ds_clients s' = ds_clients s.
Definition counted (s : DispatchState) (l : Loop) : Prop :=
  ∀ owner, active_for_owner s owner = in_hand l owner.

#[export] Instance same_control_preorder : PreOrder same_control.
Proof. split; [done|]. unfold same_control. intros a b c. naive_solver congruence. Qed.

Lemma input_started_counted s l task c :
  counted s l → lp_active l !! ic_token c = None →
  counted (input_started c s)
    (add_job task (ic_token c) (<[ic_token c := c]> (lp_active l)) (lp_maintenance l) l).
Proof.
  intros Hc Ha o. rewrite add_claim_in_hand, <-Hc by done.
  unfold active_for_owner, input_started, with_active. simpl. case_bool_decide as E.
  - subst. rewrite lookup_insert_eq. done.
  - rewrite lookup_insert_ne by done. lia.
Qed.

Lemma input_finished_counted s l task token :
  counted s l → counted (input_finished (lp_active l !! token) s) (without_job l task token).
Proof.
  intros Hc o. rewrite without_job_in_hand, <-Hc. specialize (Hc o).
  assert (0 ≤ active_for_owner s o) as H0 by (rewrite Hc; unfold in_hand; lia).
  destruct (lp_active l !! token) as [c|] eqn:E; simpl; [|lia].
  unfold active_for_owner, with_active in *. simpl. case_bool_decide as Eo.
  - subst o. pose proof (in_hand_pos _ _ _ E). rewrite lookup_alter_eq.
    destruct (ds_active_by_owner s !! ic_owner c) as [n|]; simpl in *; lia.
  - rewrite lookup_alter_ne by done. lia.
Qed.

(** The claims a scan takes: no more than asked for, with the tokens given. *)
Lemma claim_loop_claims b now l acc d claims d' :
  try_fold (claim_input b now) (acc, d) l = Ok (claims, d') →
  claims = acc ++ ((λ rt, claim_of b rt.1 rt.2) <$> l).
Proof.
  revert acc d. induction l as [|rt l IH]; intros acc d Hf; simpl in Hf.
  { injection Hf as <- <-. by rewrite app_nil_r. }
  apply bind_Ok in Hf as ([acc1 d1] & (-> & _)%claim_input_inv & ->%IH). by rewrite <-app_assoc.
Qed.
Lemma claim_inputs_tokens db b now limit tokens claims db' :
  0 ≤ limit → claim_inputs db b now limit tokens = Ok (claims, db') →
  Z.of_nat (length claims) ≤ limit ∧ ∀ i c, claims !! i = Some c → ic_token c = tokens i.
Proof.
  intros Hl Hc. unfold claim_inputs in Hc. destruct (_ || _) in Hc; [done|].
  apply bind_Ok in Hc as ([] & _ & Hc). cbv zeta in Hc.
  destruct (_ =? 0) in Hc; [by injection Hc as <- <-|].
  apply claim_loop_claims in Hc as ->. simpl. rewrite length_fmap, length_imap.
  set (rows := fair_inputs _ _ _ _).
  assert (Z.of_nat (length rows) ≤ limit) as Hr.
  { unfold rows, fair_inputs. rewrite order_limit_length; lia. }
  split; [done|]. clearbody rows. intros i c. rewrite list_lookup_fmap, list_lookup_imap.
  destruct (rows !! i); [|done]. by intros [= <-].
Qed.

(** What a scan keeps of the loop it starts jobs in. *)
Record scan_ok (s : DispatchState) (l : Loop) (s' : DispatchState) (l' : Loop) : Prop := {
  so_wf : loop_wf l';
  so_counted : counted s' l';
  so_control : same_control s s';
  so_epoch : lp_epoch l' = lp_epoch l;
  so_phase : lp_phase l' = lp_phase l }.

Definition scanning (l : Loop) : Prop := lp_phase l ≠ Spawned ∧ lp_phase l ≠ Finished.

Section scan.
Context (input : ScanInput) (client : Client).

Lemma maintenance_jobs_ok st l db idx l' db' :
  loop_wf l → counted st l → scanning l → NoDup idx →
  (∀ i j, sc_task input i = sc_task input j → i = j) →
  (∀ i, i ∈ idx → lp_jobs l !! sc_task input i = None) →
  fold_left (start_maintenance input (cl_owner client)) idx (l, db) = (l', db') →
  scan_ok st l st l' ∧ lp_active l' = lp_active l ∧
  (∀ k, lp_jobs l' !! k = lp_jobs l !! k ∨ ∃ i, i ∈ idx ∧ k = sc_task input i).
Proof.
  intros W C S Hnd Hinj. revert l db W C S. induction idx as [|i idx IH]; intros l db W C S Hnew Hf.
  { injection Hf as <- <-. split; [by split|]. split; [done|]. by left. }
  apply NoDup_cons in Hnd as [Hi Hnd]. simpl in Hf.
  set (r := if negb _ || _ || _ then _ else _) in Hf.
  assert (scan_ok st l st r.1 ∧ lp_active r.1 = lp_active l ∧
          ∀ k, lp_jobs r.1 !! k = lp_jobs l !! k ∨ k = sc_task input i) as ([W1 C1 S1 E1 P1] & A1 & J1).
  { unfold r. destruct (_ || _) eqn:Eg; [split_and!; [by split|done|by left]|].
    destruct (statement _ _ _ _) as [[[lease|] db1]|e]; simpl;
      [|split_and!; [by split|done|by left]..].
    bool_hyps. set (token := maintenance_token i (cl_owner client)) in *.
    split_and!; [split|done|].
    - apply (add_maintenance_wf l (sc_task input i) token).
      + done.
      + done.
      + apply Hnew. apply list_elem_of_here.
      + destruct (lp_active l !! token) as [c|] eqn:Ec; [|done].
        destruct (lw_active l W _ _ Ec) as [Hf' _].
        unfold token in Hf'. by rewrite is_maintenance_token in Hf'.
      + by apply eq_None_not_Some.
      + lia.
      + apply is_maintenance_token.
    - exact C.
    - done.
    - done.
    - done.
    - intros k. simpl. destruct (decide (k = sc_task input i)) as [->|]; [by right|].
      left. by rewrite lookup_insert_ne. }
  clearbody r. destruct r as [l1 db1]. simpl in *.
  apply IH in Hf as ([W2 C2 S2 E2 P2] & A2 & J2); try done.
  - split_and!; [split; congruence || done|congruence|].
    intros k. destruct (J2 k) as [->|(j & ? & ->)].
    + destruct (J1 k) as [->| ->]; [by left|]. right. exists i. split; [apply list_elem_of_here|done].
    + right. exists j. split; [by apply list_elem_of_further|done].
  - unfold scanning. by rewrite P1.
  - intros j Hj. destruct (J1 (sc_task input j)) as [->|E%Hinj]; [|by subst].
    apply Hnew. by apply list_elem_of_further.
Qed.

Lemma claims_started_ok (tcs : list (Z * InputClaim)) st l st' l' :
  loop_wf l → counted st l → scanning l → NoDup tcs.*1 → NoDup (ic_token <$> tcs.*2) →
  (∀ k, k ∈ tcs.*1 → lp_jobs l !! k = None) →
  (∀ c, c ∈ tcs.*2 → is_maintenance (ic_token c) = false ∧ lp_active l !! ic_token c = None) →
  Z.of_nat (size (lp_jobs l)) + Z.of_nat (length tcs) ≤ MAX_ACTIVE_INPUTS →
  fold_left start_claim tcs (st, l) = (st', l') → scan_ok st l st' l'.
Proof.
  revert st l. induction tcs as [|[k c] tcs IH]; intros st l W C S Hk Ht Hnew Hfresh Hsz Hf.
  { injection Hf as <- <-. by split. }
  simpl in *. apply NoDup_cons in Hk as [Hk1 Hk]. apply NoDup_cons in Ht as [Ht1 Ht].
  destruct (Hfresh c) as [Hform Ha]; [apply list_elem_of_here|].
  assert (lp_jobs l !! k = None) as Hkn by (apply Hnew, list_elem_of_here).
  pose proof (input_started_counted st l k c C Ha) as C1.
  assert (lp_maintenance l !! ic_token c = None) as Hm.
  { apply eq_None_not_Some. intros Hs%(lw_maintenance l W). congruence. }
  assert (loop_wf (add_job k (ic_token c) (<[ic_token c:=c]> (lp_active l)) (lp_maintenance l) l))
    as W1 by (apply add_claim_wf; done || lia).
  apply IH in Hf as [W2 C2 S2 E2 P2]; try done; simpl.
  - intros k' Hk'. rewrite lookup_insert_ne; [by apply Hnew, list_elem_of_further|].
    intros <-. done.
  - intros c' Hc'. destruct (Hfresh c') as [Hf' Ha']; [by apply list_elem_of_further|].
    split; [done|]. rewrite lookup_insert_ne; [done|]. intros E. apply Ht1. rewrite E.
    by apply list_elem_of_fmap_2.
  - rewrite map_size_insert_None by done. lia.
Qed.
Lemma claim_slots_ok l db claims db' :
  claim_slots input l db = (claims, db') → Z.of_nat (size (lp_jobs l)) ≤ MAX_ACTIVE_INPUTS →
  Z.of_nat (size (lp_jobs l)) + Z.of_nat (length claims) ≤ MAX_ACTIVE_INPUTS ∧
  ∀ i c, claims !! i = Some c → ic_token c = sc_token input i.
Proof.
  unfold claim_slots. intros Hc Hl. destruct (_ <=? _); [by injection Hc as <- <-; simpl; split; [lia|]|].
  destruct (sc_binding input) as [b|]; [|by injection Hc as <- <-; simpl; split; [lia|]].
  destruct (statement _ _ _ _) as [[cs d]|e] eqn:E;
    [|by injection Hc as <- <-; simpl; split; [lia|]].
  injection Hc as <- <-. unfold statement in E. destruct (sc_fails input 6); [done|]. apply claim_inputs_tokens in E as [E1 E2]; [|lia]. split; [lia|done].
Qed.

Lemma scan_client_ok {Message} st l db st' l' db' found (published : list (string * MessageProcessingUpdate Message)) :
  loop_wf l → counted st l → scanning l → scan_fresh input l →
  scan_client input client st l db = (st', l', db', found, published) → scan_ok st l st' l'.
Proof.
  intros W C S Fr Hc. unfold scan_client in Hc.
  destruct (negb _); [injection Hc as <- <- <- <- <-; by split|].
  destruct (if bool_decide _ then _ else _) as [removed db1].
  destruct (if lp_maintenance_due l then _ else _) as [l1 db3] eqn:Em.
  destruct (claim_slots input l1 db3) as [claims db4] eqn:Ec.
  destruct (fold_left start_claim _ _) as [s1 l2] eqn:Ef. injection Hc as <- <- _ _ _.
  assert (scan_ok st l st l1 ∧ lp_active l1 = lp_active l ∧
          ∀ i, lp_jobs l1 !! sc_task input (4 + i)%nat = None) as ([W1 C1 S1 E1 P1] & A1 & J1).
  { destruct (lp_maintenance_due l).
    - apply (maintenance_jobs_ok st) in Em as (Ho & Ha & Hj); try done.
      + split_and!; [done..|]. intros i. destruct (Hj (sc_task input (4 + i)%nat)) as [->|(j & Hj' & E)].
        * apply (sf_task_new _ _ Fr).
        * apply (sf_tasks _ _ Fr) in E. subst j. apply elem_of_seq in Hj'. lia.
      + apply NoDup_seq.
      + apply (sf_tasks _ _ Fr).
      + intros i _. apply (sf_task_new _ _ Fr).
    - injection Em as <- _. split_and!; [by split|done|]. intros i. apply (sf_task_new _ _ Fr). }
  apply claim_slots_ok in Ec as [Hsz Htk]; [|apply W1].
  set (tcs := imap _ claims) in Ef.
  assert (tcs.*2 = claims) as E2.
  { apply list_eq. intros i. unfold tcs. rewrite list_lookup_fmap, list_lookup_imap.
    by destruct (claims !! i). }
  apply claims_started_ok in Ef as [W2 C2 S2 E3 P2]; try done.
  - split; try done; congruence.
  - unfold scanning. by rewrite P1.
  - apply NoDup_alt. intros i j k. unfold tcs. rewrite !list_lookup_fmap, !list_lookup_imap.
    destruct (claims !! i), (claims !! j); try done. simpl. intros [= <-] [= E].
    apply (sf_tasks _ _ Fr) in E. lia.
  - rewrite E2. apply NoDup_alt. intros i j t. rewrite !list_lookup_fmap.
    destruct (claims !! i) as [ci|] eqn:Ei, (claims !! j) as [cj|] eqn:Ej; try done. simpl.
    intros [= <-] [= E]. rewrite (Htk _ _ Ei), (Htk _ _ Ej) in E. symmetry in E.
    by apply (sf_tokens _ _ Fr) in E.
  - intros k (i & Hi)%list_elem_of_lookup. unfold tcs in Hi.
    rewrite list_lookup_fmap, list_lookup_imap in Hi. destruct (claims !! i); [|done].
    simpl in Hi. injection Hi as <-. apply J1.
  - rewrite E2. intros c (i & Hi)%list_elem_of_lookup. rewrite (Htk _ _ Hi), A1.
    split; [apply (sf_token_form _ _ Fr)|apply (sf_token_new _ _ Fr)].
  - unfold tcs. rewrite length_imap. done.
Qed.
End scan.

Lemma elem_of_rotate_left {A} n (l : list A) x : x ∈ rotate_left n l ↔ x ∈ l.
Proof.
  unfold rotate_left. rewrite <-(take_drop n l) at 3. rewrite !elem_of_app. tauto.
Qed.

Lemma begin_scan_ok st l st' l' :
  begin_scan st l = (st', l') →
  same_control st st' ∧ ds_active_by_owner st' = ds_active_by_owner st ∧
  ∃ scanned, l' = with_phase (Scan scanned scanned false (ds_wake_generation st)) l ∧
    ∀ o c, ds_clients st !! o = Some c → c ∈ scanned.
Proof.
  unfold begin_scan. intros Hb. set (clients := snd <$> _) in Hb.
  assert (∀ o c, ds_clients st !! o = Some c → c ∈ clients) as Hall.
  { intros o c Hc%elem_of_map_to_list. unfold clients.
    apply (list_elem_of_fmap_2 snd _ (o, c)). by rewrite merge_sort_Permutation. }
  clearbody clients. destruct (_ =? 0)%nat; injection Hb as <- <-; split_and!; try done;
    eexists; (split; [done|]); [done|].
  intros o c Hc%Hall. by apply elem_of_rotate_left.
Qed.

(** ** The invariant *)

Section system.
Context {Message : Type}.
Notation Sys := (Sys (Message := Message)).
Implicit Types (s : Sys) (l : Loop) (pre post : list Loop).

Record scan_covers (s : Sys) (l : Loop) : Prop := {
  sv_generation : ∀ sc left rt g, lp_phase l = Scan sc left rt g → g ≤ ds_wake_generation (sy_state s);
  sv_clients : ∀ sc left rt g o c,
    lp_phase l = Scan sc left rt g → g = ds_wake_generation (sy_state s) →
    ds_clients (sy_state s) !! o = Some c → c ∈ sc;
  sv_visited : ∀ sc left rt g c,
    lp_phase l = Scan sc left rt g → g = ds_wake_generation (sy_state s) →
    c ∈ sc → c ∈ left ∨ c ∈ sy_idle s ∨ rt = true }.

Record sys_inv (s : Sys) : Prop := {
  si_generation : ds_wake_generation (sy_state s) = sy_wakes s;
  si_epoch : 0 ≤ ds_run_epoch (sy_state s) ≤ sy_wakes s;
  si_unique : NoDup (lp_epoch <$> sy_loops s);
  si_below : ∀ l, l ∈ sy_loops s → lp_epoch l ≤ ds_run_epoch (sy_state s);
  si_live : ∀ l, l ∈ sy_loops s → live l →
    lp_epoch l = ds_run_epoch (sy_state s) ∧ ds_running (sy_state s) = true;
  si_running : ds_running (sy_state s) = true →
    sy_lost s = true ∨ ∃ l, l ∈ sy_loops s ∧ live l;
  si_lost : sy_lost s = true → ds_running (sy_state s) = true ∧
    ∀ l, l ∈ sy_loops s → lp_epoch l < ds_run_epoch (sy_state s);
  si_wf : ∀ l, l ∈ sy_loops s → loop_wf l;
  si_counted : ∀ l, l ∈ sy_loops s → live l → counted (sy_state s) l;
  si_idle : (∀ l, l ∈ sy_loops s → ¬ live l) → ∀ o, active_for_owner (sy_state s) o = 0;
  si_scan : ∀ l, l ∈ sy_loops s → scan_covers s l }.

Lemma sys_start_inv db : sys_inv (sys_start db).
Proof. split; simpl; try done; first [by apply NoDup_nil_2|by intros ? ?%elem_of_nil]. Qed.

Lemma elem_of_middle pre l post x : x ∈ pre ++ l :: post ↔ x = l ∨ x ∈ pre ++ post.
Proof. rewrite !elem_of_app, elem_of_cons. tauto. Qed.

Lemma finished_covers s l : ¬ live l → scan_covers s l.
Proof.
  intros Hl. split; intros * Hp; exfalso; apply Hl; unfold live; by rewrite Hp.
Qed.

Lemma epochs_distinct pre l post x :
  NoDup (lp_epoch <$> pre ++ l :: post) → x ∈ pre ++ post → lp_epoch x ≠ lp_epoch l.
Proof.
  rewrite fmap_app, fmap_cons. rewrite <-Permutation_middle. intros [Hn _]%NoDup_cons Hx E.
  apply Hn. rewrite <-E, <-fmap_app. by apply list_elem_of_fmap_2.
Qed.

Lemma epochs_removed pre l post :
  NoDup (lp_epoch <$> pre ++ l :: post) → NoDup (lp_epoch <$> pre ++ post).
Proof. rewrite <-Permutation_middle. simpl. by intros [_ ?]%NoDup_cons. Qed.

Section one_loop.
Context (s : Sys) (pre post : list Loop) (l : Loop).
Context (I : sys_inv s) (E : sy_loops s = pre ++ l :: post).

Lemma here : l ∈ sy_loops s.
Proof. rewrite E, elem_of_middle. by left. Qed.
Lemma there x : x ∈ pre ++ post → x ∈ sy_loops s.
Proof. rewrite E, elem_of_middle. by right. Qed.

Lemma others_ended x : live l → x ∈ pre ++ post → ¬ live x.
Proof.
  intros Hl Hx Hlx. pose proof (si_unique s I) as Hu. rewrite E in Hu.
  apply (epochs_distinct _ _ _ _ Hu Hx).
  rewrite (proj1 (si_live s I x (there x Hx) Hlx)). symmetry. apply (si_live s I l here Hl).
Qed.

(** The running loop moves on. *)
Lemma update_loop (s' : Sys) l' :
  live l → sy_loops s' = pre ++ l' :: post → live l' → lp_epoch l' = lp_epoch l →
  loop_wf l' → counted (sy_state s') l' → same_control (sy_state s) (sy_state s') →
  sy_wakes s' = sy_wakes s → sy_lost s' = sy_lost s → scan_covers s' l' → sys_inv s'.
Proof.
  intros Hl E' Hl' Ee W C (Er & Ep & Eg & Ec) Ew Elo Sc.
  destruct (si_live s I l here Hl) as [Hep Hrun].
  assert (∀ x, x ∈ sy_loops s' → x = l' ∨ x ∈ pre ++ post) as Hin
    by (intros x; by rewrite E', elem_of_middle).
  split; rewrite ?Er, ?Ep, ?Eg, ?Ew, ?Elo.
  - apply I.
  - apply I.
  - pose proof (si_unique s I) as Hu. rewrite E in Hu. rewrite E'.
    rewrite fmap_app, fmap_cons in *. by rewrite Ee.
  - intros x [->|Hx]%Hin; [lia|]. by apply (si_below s I), there.
  - intros x [->|Hx]%Hin Hlx; [split; [congruence|done]|]. by destruct (others_ended x Hl Hx).
  - right. exists l'. split; [|done]. rewrite E', elem_of_middle. by left.
  - intros Hlost. destruct (si_lost s I Hlost) as [_ Hlt]. specialize (Hlt l here). lia.
  - intros x [->|Hx]%Hin; [done|]. by apply (si_wf s I), there.
  - intros x [->|Hx]%Hin Hlx; [done|]. by destruct (others_ended x Hl Hx).
  - intros Hno. destruct (Hno l'); [|done]. rewrite E', elem_of_middle. by left.
  - intros x [->|Hx]%Hin; [done|]. by apply finished_covers, (others_ended x Hl).
Qed.
End one_loop.

Lemma no_scan_covers s l : (∀ sc left rt g, lp_phase l ≠ Scan sc left rt g) → scan_covers s l.
Proof. intros Hn. split; intros *; intros E; by destruct (Hn _ _ _ _ E). Qed.

(** The end of a scan: the loop returns, with nothing in hand, or goes on. *)
Lemma end_scan_inv s pre post l sc rt g st l' :
  sys_inv s → sy_loops s = pre ++ l :: post → lp_phase l = Scan sc [] rt g →
  end_scan (sy_state s) l (sy_receivers s) sc rt g = (st, l') →
  sys_inv (with_loops st (pre ++ l' :: post) s).
Proof.
  intros I E Hp He. assert (live l) as Hl by (unfold live; by rewrite Hp).
  pose proof (si_wf s I l (here s pre post l E)) as W.
  pose proof (si_counted s I l (here s pre post l E) Hl) as C.
  unfold end_scan in He. set (l1 := mkLoop _ _ _ _ _ _ false) in He.
  assert (loop_wf l1) as W1 by (destruct W; by split).
  destruct (_ && _) eqn:Ej in He; [destruct (_ =? _) eqn:Eg in He|].
  2-3: injection He as <- <-;
    (eapply (update_loop s pre post l); [done..| | | | | |by apply no_scan_covers]);
    [by apply with_phase_wf; [|intros []]|exact C|done..].
  injection He as <- <-. rewrite !andb_true_iff in Ej. destruct Ej as [[Hj _] _]. simpl in Hj.
  apply Nat.eqb_eq, map_size_empty_iff in Hj.
  destruct (si_live s I l (here s pre post l E) Hl) as [Hep Hrun].
  assert (∀ x, x ∈ pre ++ with_phase Finished l1 :: post → ¬ live x) as Hno.
  { intros x [->|Hx]%elem_of_middle; [by intros []|]. by apply (others_ended s pre post l). }
  assert (∀ o, active_for_owner (sy_state s) o = 0) as H0.
  { intros o. rewrite (C o). unfold in_hand.
    rewrite (no_jobs_no_active l) by done. by rewrite map_filter_empty, map_size_empty. }
  split; simpl.
  - apply I.
  - apply I.
  - pose proof (si_unique s I) as Hu. rewrite E in Hu. by rewrite fmap_app, fmap_cons in *.
  - intros x [->|Hx]%elem_of_middle; [simpl; lia|]. by apply (si_below s I), (there s pre post l E).
  - intros x Hx Hlx. by destruct (Hno x Hx).
  - done.
  - intros Hlost. destruct (si_lost s I Hlost) as [_ Hlt].
    specialize (Hlt l (here s pre post l E)). lia.
  - intros x [->|Hx]%elem_of_middle; [|by apply (si_wf s I), (there s pre post l E)].
    apply with_phase_wf; [done|]. by intros _.
  - intros x Hx Hlx. by destruct (Hno x Hx).
  - intros _. exact H0.
  - intros x Hx. by apply finished_covers, Hno.
Qed.

Lemma loop_step_inv s pre post l s' :
  sys_inv s → sy_loops s = pre ++ l :: post → loop_step s pre post l s' → sys_inv s'.
Proof.
  intros I E Hs. pose proof (here s pre post l E) as Hin.
  pose proof (si_wf s I l Hin) as W. pose proof (si_counted s I l Hin) as C.
  destruct Hs as [l Hp|l st l' Hp Hb|l input sc c left rt g st l' db found pub Hp Fr Hc
    |l sc rt g st l' Hp He|l cs Hp|l cs task token st l' Hp Hk Hf|l cs task token st l' Hp Hk Hf
    |l cs ok env clock l' db pub Hp Ht].
  all: assert (live l) as Hl by (unfold live; by rewrite Hp); specialize (C Hl).
  - eapply (update_loop s pre post l); try done. by apply with_phase_wf; [|intros []].
  - apply begin_scan_ok in Hb as (Hsc & Ha & scanned & -> & Hall).
    eapply (update_loop s pre post l); try done; simpl.
    + by apply with_phase_wf; [|intros []].
    + intros o. unfold active_for_owner. simpl. rewrite Ha. apply (C o).
    + destruct Hsc as (_ & _ & Eg & Ec).
      split; simpl; intros *; intros [= <- <- <- <-]; rewrite ?Eg, ?Ec; [lia|eauto..].
  - apply scan_client_ok in Hc as [W2 C2 S2 E2 P2]; [|done..|split; by rewrite Hp|done].
    eapply (update_loop s pre post l); try done; simpl.
    + by apply with_phase_wf; [|intros []].
    + destruct S2 as (_ & _ & Eg & Ec). pose proof (si_scan s I l Hin) as [S1 S2 S3].
      split; simpl; intros *; intros [= <- <- <- <-]; rewrite ?Eg, ?Ec.
      * by eapply S1.
      * intros Hg. by eapply S2.
      * intros Hg Hsc. destruct (S3 _ _ _ _ _ Hp Hg Hsc) as [[->|?]%elem_of_cons|[?| ->]]; auto.
        -- destruct found; [right; right; apply orb_true_r|]. right; left. simpl.
           apply list_elem_of_here.
        -- right; left. apply elem_of_app. by right.
  - by eapply end_scan_inv.
  - eapply (update_loop s pre post l); try done. by apply with_phase_wf; [|intros []].
  - unfold task_finished in Hf. injection Hf as <- <-. rewrite (finished_tokens l task) by done.
    eapply (update_loop s pre post l); try done; simpl.
    + by apply without_job_wf.
    + by apply input_finished_counted.
    + by destruct (lp_active l !! token).
  - unfold task_panicked in Hf. rewrite (lw_tasks l W), Hk in Hf. injection Hf as <- <-.
    eapply (update_loop s pre post l); try done; simpl.
    + by apply without_job_wf.
    + by apply input_finished_counted.
    + by destruct (lp_active l !! token).
  - assert (l' = mkLoop (lp_epoch l) Top (lp_jobs l) (lp_task_tokens l) (lp_active l)
              (lp_maintenance l) true) as ->.
    { unfold tick in Ht. destruct (_ || _) in Ht; [congruence|].
      destruct (purge_expired _ _ _) as [[]|]; congruence. }
    eapply (update_loop s pre post l); try done; simpl.
    + destruct W. split; try done. by intros [].
Qed.

Lemma u64_succ n : 0 ≤ n → n + 1 < 2 ^ 64 → u64_wrapping_succ n = n + 1.
Proof. intros. unfold u64_wrapping_succ. apply Z.mod_small. lia. Qed.

Lemma wake_inv c s : sys_inv s → sy_wakes s + 1 < 2 ^ 64 → sys_inv (wake c s).
Proof.
  intros I Hw. pose proof (si_epoch s I) as He. pose proof (si_generation s I) as Hg.
  assert (∀ s' x, x ∈ sy_loops s → ds_wake_generation (sy_state s') = sy_wakes s + 1 →
                  scan_covers s' x) as Hcov.
  { intros s' x Hx Eg. pose proof (sv_generation s x (si_scan s I x Hx)) as Hle. rewrite Hg in Hle.
    split; rewrite Eg; intros * Hp; specialize (Hle _ _ _ _ Hp); intros; lia. }
  unfold wake, wake_client. destruct (ds_running (sy_state s)) eqn:Er.
  - rewrite u64_succ by lia. simpl. rewrite app_nil_r.
    split; simpl; try apply I; try lia.
    + intros l Hl Hlv. split; [by apply (si_live s I)|done].
    + intros _. by apply (si_running s I).
    + intros Hlost. split; [done|]. by apply (si_lost s I).
    + intros l Hl. apply Hcov; simpl; [done|lia].
  - rewrite !u64_succ by lia. simpl.
    assert (∀ x, x ∈ sy_loops s → ¬ live x) as Hno.
    { intros x Hx Hlx. destruct (si_live s I x Hx Hlx). congruence. }
    set (ep := ds_run_epoch (sy_state s) + 1).
    assert (∀ x, x ∈ sy_loops s ++ [loop_start ep] → x ∈ sy_loops s ∨ x = loop_start ep) as Hin
      by (intros x [?|?%list_elem_of_singleton]%elem_of_app; auto).
    assert (loop_start ep ∈ sy_loops s ++ [loop_start ep]) as Hnew
      by (apply elem_of_app; right; apply list_elem_of_here).
    split; simpl.
    + lia.
    + unfold ep. lia.
    + rewrite fmap_app. apply NoDup_app. split_and!; [apply I| |apply NoDup_singleton].
      intros x (l & -> & Hl)%list_elem_of_fmap. simpl. intros Hx%list_elem_of_singleton.
      pose proof (si_below s I l Hl). lia.
    + intros x [Hx| ->]%Hin; [|done]. pose proof (si_below s I x Hx). lia.
    + intros x [Hx| ->]%Hin Hlx; [by destruct (Hno x Hx)|done].
    + intros _. right. by exists (loop_start ep).
    + intros [Hl _]%(si_lost s I). congruence.
    + intros x [Hx| ->]%Hin; [by apply (si_wf s I)|apply loop_start_wf].
    + intros x [Hx| ->]%Hin Hlx; [by destruct (Hno x Hx)|]. intros o.
      unfold in_hand. simpl. rewrite map_filter_empty, map_size_empty.
      apply (si_idle s I Hno).
    + intros H. by destruct (H _ Hnew).
    + intros x [Hx| ->]%Hin; [apply Hcov; simpl; [done|lia]|by apply no_scan_covers].
Qed.

Lemma drop_inv s pre l post :
  sys_inv s → sy_loops s = pre ++ l :: post → lp_phase l ≠ Spawned →
  sys_inv (with_loops (drop_guard (lp_epoch l) (sy_state s)) (pre ++ post) s).
Proof.
  intros I E Hp. pose proof (there s pre post l E) as Hin. pose proof (here s pre post l E) as Hh.
  pose proof (si_unique s I) as Hu. rewrite E in Hu.
  pose proof (epochs_removed _ _ _ Hu) as Hu'. unfold drop_guard.
  destruct (ds_run_epoch (sy_state s) =? lp_epoch l) eqn:Ee.
  - apply Z.eqb_eq in Ee.
    assert (∀ x, x ∈ pre ++ post → ¬ live x) as Hno.
    { intros x Hx Hlx. apply (epochs_distinct _ _ _ x Hu Hx).
      by destruct (si_live s I x (Hin x Hx) Hlx) as [-> _]. }
    split; simpl; try apply I; try done.
    + intros x Hx. by apply (si_below s I), Hin.
    + intros x Hx Hlx. by destruct (Hno x Hx).
    + intros Hl. destruct (si_lost s I Hl) as [_ Hlt]. specialize (Hlt l Hh). lia.
    + intros x Hx. by apply (si_wf s I), Hin.
    + intros x Hx Hlx. by destruct (Hno x Hx).
    + intros x Hx. by apply finished_covers, Hno.
  - apply Z.eqb_neq in Ee.
    assert (¬ live l) as Hnl by (intros Hl; by destruct (si_live s I l Hh Hl)).
    split; simpl; try apply I; try done.
    + intros x Hx. by apply (si_below s I), Hin.
    + intros x Hx. by apply (si_live s I), Hin.
    + intros Hr. destruct (si_running s I Hr) as [?|(x & Hx & Hlx)]; [by left|right].
      exists x. split; [|done]. rewrite E in Hx. by apply elem_of_middle in Hx as [->|?].
    + intros Hl. destruct (si_lost s I Hl). split; [done|]. intros x Hx. auto.
    + intros x Hx. by apply (si_wf s I), Hin.
    + intros x Hx. by apply (si_counted s I), Hin.
    + intros Hno. apply (si_idle s I). intros x Hx. rewrite E in Hx.
      apply elem_of_middle in Hx as [->|?]; auto.
    + intros x Hx. destruct (si_scan s I x (Hin x Hx)). by split.
Qed.

Lemma drop_unpolled_inv s pre l post :
  sys_inv s → sy_loops s = pre ++ l :: post → lp_phase l = Spawned →
  sys_inv (mkSys (sy_state s) (pre ++ post) (sy_db s) (sy_published s) (sy_receivers s)
             (sy_wakes s) (sy_idle s) true).
Proof.
  intros I E Hp. pose proof (there s pre post l E) as Hin. pose proof (here s pre post l E) as Hh.
  assert (live l) as Hl by (unfold live; by rewrite Hp).
  pose proof (λ x, others_ended s pre post l I E x Hl) as Hno.
  destruct (si_live s I l Hh Hl) as [Hep Hr].
  pose proof (si_unique s I) as Hu. rewrite E in Hu.
  split; simpl; try apply I.
  - by eapply epochs_removed.
  - intros x Hx. by apply (si_below s I), Hin.
  - intros x Hx. by apply (si_live s I), Hin.
  - by left.
  - intros _. split; [done|]. intros x Hx. pose proof (si_below s I x (Hin x Hx)).
    pose proof (epochs_distinct _ _ _ _ Hu Hx). lia.
  - intros x Hx. by apply (si_wf s I), Hin.
  - intros x Hx Hlx. by destruct (Hno x Hx).
  - intros _ o. rewrite (si_counted s I l Hh Hl). unfold in_hand.
    assert (lp_active l = ∅) as ->; [|by rewrite map_filter_empty, map_size_empty].
    apply (no_jobs_no_active l); [by apply (si_wf s I)|].
    apply (lw_idle l (si_wf s I l Hh)). by left.
  - intros x Hx. by apply finished_covers, Hno.
Qed.

Lemma step_inv s s' : sys_inv s → sy_wakes s' < 2 ^ 64 → step s s' → sys_inv s'.
Proof.
  intros I Hw Hs. destruct Hs as [c|db pub rc|pre l post s' E Hl|pre l post E Hp|pre l post E Hp].
  - apply wake_inv; [done|]. unfold wake in Hw. by destruct (wake_client _ _).
  - destruct I. split; try done. intros l Hl. destruct (si_scan0 l Hl). by split.
  - by eapply loop_step_inv.
  - by apply drop_inv.
  - by eapply drop_unpolled_inv.
Qed.

Lemma step_wakes s s' : step s s' → sy_wakes s ≤ sy_wakes s'.
Proof.
  intros [c| | ? ? ? ? ? []| |]; simpl; try lia. unfold wake. destruct (wake_client _ _). simpl. lia.
Qed.

(** Fewer than 2^64 wake-ups. *)
Lemma sys_reachable_inv s : reachable s → sy_wakes s < 2 ^ 64 → sys_inv s.
Proof.
  intros [db Hr]. revert s Hr. apply (rtc_ind_r (λ s, sy_wakes s < 2 ^ 64 → sys_inv s)).
  - intros _. apply sys_start_inv.
  - intros s s' _ Hs IH Hw. apply (step_inv s); [|done..]. apply IH.
    pose proof (step_wakes _ _ Hs). lia.
Qed.

(** ** Registered clients *)

(** Clients are forgotten only when a loop returns from a scan that nothing woke,
    having found nothing. *)
Lemma loop_step_clients s pre post l s' :
  sys_inv s → sy_loops s = pre ++ l :: post → loop_step s pre post l s' →
  ds_clients (sy_state s') = ds_clients (sy_state s) ∨
  (∃ sc, lp_phase l = Scan sc [] false (ds_wake_generation (sy_state s))) ∧
  sy_receivers s = 0 ∧ ∀ x, x ∈ sy_loops s' → ¬ live x.
Proof.
  intros I E Hs. pose proof (here s pre post l E) as Hin.
  destruct Hs as [l Hp|l st l' Hp Hb|l input sc c left rt g st l' db found pub Hp Fr Hc
    |l sc rt g st l' Hp He|l cs Hp|l cs task token st l' Hp Hk Hf|l cs task token st l' Hp Hk Hf
    |l cs ok env clock l' db pub Hp Ht].
  all: assert (live l) as Hl by (unfold live; by rewrite Hp).
  - by left.
  - left. apply begin_scan_ok in Hb as ((_ & _ & _ & Hc) & _). done.
  - left. apply scan_client_ok in Hc as [_ _ (_ & _ & _ & Hcl) _ _]; [done|..|done].
    + by apply (si_wf s I).
    + by apply (si_counted s I).
    + split; by rewrite Hp.
  - unfold end_scan in He. destruct (_ && _) eqn:Ej in He; [|left; by injection He as <- <-].
    destruct (_ =? _) eqn:Eg in He; [|left; by injection He as <- <-]. right.
    rewrite !andb_true_iff, negb_true_iff, !Z.eqb_eq in Ej. destruct Ej as [[_ ->] Hr].
    apply Z.eqb_eq in Eg. injection He as <- <-. split_and!; [exists sc; by rewrite Eg|done|].
    intros x [->|Hx]%elem_of_middle; [by intros []|]. by apply (others_ended s pre post l).
  - by left.
  - left. unfold task_finished in Hf. injection Hf as <- <-. by destruct (lp_active l !! token).
  - left. unfold task_panicked in Hf. destruct (lp_task_tokens l !! task) as [t|];
      injection Hf as <- <-; [|done]. by destruct (lp_active l !! t).
  - by left.
Qed.

Lemma wake_registers c s :
  ∃ current, ds_clients (sy_state (wake c s)) !! cl_owner c = Some current ∧
    (current = c ∨ use_current (sy_state s) c = true).
Proof.
  assert (ds_clients (sy_state (wake c s)) = if use_current (sy_state s) c
          then ds_clients (sy_state s) else <[cl_owner c := c]> (ds_clients (sy_state s))) as ->.
  { unfold wake, wake_client. by destruct (ds_running _). }
  destruct (use_current (sy_state s) c) eqn:E.
  - unfold use_current in E. destruct (ds_clients (sy_state s) !! cl_owner c) as [c'|]; [|done].
    eauto.
  - exists c. rewrite lookup_insert_eq. auto.
Qed.
Lemma wake_keeps_clients c s o : is_Some (ds_clients (sy_state s) !! o) →
  is_Some (ds_clients (sy_state (wake c s)) !! o).
Proof.
  unfold wake, wake_client. destruct (ds_running _); simpl; destruct (use_current _ _); try done;
    intros Ho; apply lookup_insert_is_Some'; by right.
Qed.

Lemma step_removes s s' o c :
  sys_inv s → step s s' → ds_clients (sy_state s) !! o = Some c →
  ds_clients (sy_state s') !! o = None →
  c ∈ sy_idle s ∧ sy_receivers s = 0 ∧ ∀ x, x ∈ sy_loops s' → ¬ live x.
Proof.
  intros I Hs Ho Hn.
  destruct Hs as [c'|db pub rc|pre l post s' E Hl|pre l post E Hp|pre l post E Hp]; simpl in Hn.
  - destruct (wake_keeps_clients c' s o) as [? H]; [by eexists|congruence].
  - congruence.
  - destruct (loop_step_clients s pre post l s' I E Hl) as [Hc|((sc & Hp) & Hr & Hx)]; [congruence|].
    split_and!; [|done..]. pose proof (si_scan s I l (here s pre post l E)) as [_ Hcl Hv].
    destruct (Hv _ _ _ _ c Hp) as [[]%elem_of_nil|[?|?]]; [done|by eapply Hcl|done..].
  - unfold drop_guard in Hn. destruct (_ =? _); simpl in Hn; congruence.
  - congruence.
Qed.

Lemma step_lost s s' : step s s' → sy_lost s = true → sy_lost s' = true.
Proof.
  intros [c| | ? ? ? ? ? []| |] Hl; simpl; try done. unfold wake. by destruct (wake_client _ _).
Qed.
End system.

(** While its dispatcher lives, every client of a database gets the same one. *)
Lemma for_client_shared {D} (alive : D → bool) fresh fresh' key (registry : gmap string D) :
  alive (for_client alive fresh key registry).1 = true →
  for_client alive fresh' key (for_client alive fresh key registry).2
  = ((for_client alive fresh key registry).1,
     filter (λ kd : string * D, alive kd.2 = true) (for_client alive fresh key registry).2).
Proof.
  unfold for_client. intros Ha. destruct (filter _ registry !! key) as [d|] eqn:E; simpl in *.
  - by rewrite (proj2 (map_lookup_filter_Some _ _ _ d)).
  - rewrite (proj2 (map_lookup_filter_Some _ _ _ fresh)); [done|]. by rewrite lookup_insert_eq.
Qed.
