(* ===== verification/Worker.v ===== *)
(** * Workers

    [SyncDispatcher::run_claim] of [message_runtime/sync_dispatcher.rs], which runs
    the business processing of one claimed input under a time budget and settles
    the claim, with [failure_code] and [retry_at] of
    [message_runtime/sync_processing.rs]. The processing itself is what its future
    returns; what it and everyone else do to the database happens before each of
    the worker's own statements. *)

From S2P Require Import Prelude RustStr ImError Effects Dto Store Inbox InboxProps Dispatch.
Local Open Scope Z_scope.

(** ** Classifying a failure *)

Definition internal_codes : list string :=
  ["group.e2ee.epoch_conflict"; "group.e2ee.state_not_ready"; "group.e2ee.state_locked";
   "state_locked"; "state_write_failed"]%string.

Definition failure_code (error : ImError) : string :=
  match error with
  | Internal message =>
      default "sync.processing_blocked"%string
        (head (List.filter (λ code, contains message ("(" +:+ code +:+ ")")) internal_codes))
  | MessageWireIdentityConflict _ => "message_wire_identity_conflict"
  | Service _ (Some code) _ _ => code
  | TransportUnavailable _ => "sync.processing_transport_unavailable"
  | LocalStateUnavailable _ => "sync.processing_storage_unavailable"
  | PeerNotFound _ => "sync.peer_resolution_pending"
  | GroupNotFound _ => "sync.group_state_pending"
  | AuthRequired | SessionExpired => "sync.processing_auth_required"
  | UnsupportedCapability _ => "sync.processing_upgrade_required"
  | _ => "sync.processing_blocked"
  end.

Definition retryable_codes : list string :=
  ["sync.peer_resolution_pending"; "sync.group_sent_projection_pending"; "sync.baseline_pending";
   "sync.group_state_pending"; "group.e2ee.epoch_conflict"; "group.e2ee.state_not_ready";
   "group.e2ee.state_locked"; "state_locked"; "state_write_failed"; "p5.session_pending";
   "p5.session_revision_changed"; "anp.direct.e2ee.max_skip_exceeded";
   "sync.processing_timeout"]%string.

Definition retryable (error : ImError) : bool :=
  match error with
  | TransportUnavailable _ | LocalStateUnavailable _ | PeerNotFound _ | GroupNotFound _
  | AuthRequired | SessionExpired => true
  | _ => bool_decide (failure_code error ∈ retryable_codes)
  end.

(** [(1 << attempts.clamp(0, 6)).min(60)] *)
Definition backoff (attempts : Z) : Z := Z.min (Z.shiftl 1 (Z.max 0 (Z.min attempts 6))) 60.

Definition retry_at (now : Z) (error : ImError) (attempts : Z) : option Z :=
  if retryable error then Some (i64_saturating_add now (backoff attempts)) else None.

(** ** Running a claim *)

Section worker.
Context `{QueueCodec}.
Context {Message : Type}.
Notation Update := (MessageProcessingUpdate Message).

(** The surroundings of a worker: whether its database opens, what the processing
    and everyone else do to it before each statement, which statements fail, the
    clock, whether the budget ran out and what the processing returned. *)
Record WorkInput := mkWorkInput {
  wk_db_ok : bool;
  wk_env : nat → Db → Db;
  wk_fails : nat → option ImError;
  wk_clock : nat → Z;
  wk_timed_out : bool;
  wk_result : ImResult Update }.

Record WorkState := mkWorkState {
  ws_db : Db;
  ws_published : list (string * Update) }.

Context (input : WorkInput).

(** [db.run_local]: the [k]-th statement. *)
Definition run_local {A} (k : nat) (f : Db → ImResult (A * Db)) : FlowM WorkState A := λ s,
  let db := wk_env input k (ws_db s) in
  match wk_fails input k with
  | Some e => (Failed e, mkWorkState db (ws_published s))
  | None =>
      match f db with
      | Ok (a, db') => (Returned a, mkWorkState db' (ws_published s))
      | Err e => (Failed e, mkWorkState db (ws_published s))
      end
  end.

Definition publish (owner : string) (update : Update) : FlowM WorkState unit :=
  writes (λ s, mkWorkState (ws_db s) (ws_published s ++ [(owner, update)])).

Definition timeout_code : string := "sync.processing_timeout".

(** The budget ran out: the input is parked, the processing still awaited, and the
    parked input released. *)
Definition settle_timeout (claim : InputClaim) : FlowM WorkState (ImResult Update) :=
  parked ← attempt (run_local 0 (λ db, Ok (park_timeout db claim (wk_clock input 0))));
  if negb (unwrap_or parked false) then mret (wk_result input)
  else
    _ ← publish (ic_owner claim) (update_of (ic_event_id claim) Retrying (Some timeout_code));
    released ← attempt (run_local 1 (λ db, Ok (release_timeout db claim (wk_clock input 1 + 2))));
    mret (if unwrap_or released false
          then Err (sync_error timeout_code "business processing exceeded its time budget")
          else Err (sync_error "SYNC_INPUT_SUPERSEDED"
                      "timed-out input was discarded before its call ended")).

Definition release (claim : InputClaim) : FlowM WorkState unit :=
  _ ← attempt (run_local 4 (λ db, Ok ((), release_claim_lease db claim)));
  mret ().

(** The input is still queued, or was completed. *)
Definition retained_or_completed (claim : InputClaim) (db : Db) : ImResult (bool * Db) :=
  if exists_where (λ r, bool_decide (in_input_id r = ic_input_id claim)) (db_inbox db)
  then Ok (true, db)
  else completed ← claim_was_completed db claim; Ok (completed, db).

Definition run_claim (claim : InputClaim) : FlowM WorkState unit :=
  if negb (wk_db_ok input) then mret ()
  else
    result ← (if wk_timed_out input then settle_timeout claim else mret (wk_result input));
    match result with
    | Ok update =>
        _ ← publish (ic_owner claim) update;
        release claim
    | Err error =>
        let code := failure_code error in
        let retry_at := retry_at (wk_clock input 2) error (ic_attempt_count claim) in
        failed ← attempt (run_local 2 (λ db,
          db' ← fail_claim db claim code retry_at (wk_clock input 3); Ok ((), db')));
        let recorded := unwrap_or ((λ _, true) <$> failed) false in
        let discarded := negb recorded && negb (bool_decide (code = timeout_code)) in
        let report := update_of (ic_event_id claim)
          (if discarded then Discarded else if retry_at then Retrying else Blocked)
          (Some (if discarded then "sync.input_discarded"%string else code)) in
        if recorded then
          _ ← publish (ic_owner claim) report;
          release claim
        else
          kept ← attempt (run_local 3 (retained_or_completed claim));
          if unwrap_or kept true then release claim
          else
            _ ← publish (ic_owner claim) report;
            release claim
    end.
End worker.

(** ** What a worker does *)

(** Nobody else touches the database while the worker settles its claim. *)
Definition quiet {Message} (input : WorkInput (Message := Message)) : Prop :=
  (∀ k db, wk_env input k db = db) ∧ (∀ k, wk_fails input k = None).

(** Two updates of the same rows are one. *)
Section two_updates.
Context {A : Type} (p q : A → bool) (f g : A → A) (l : list A).
Context (Hp : ∀ x, p x = true → q (f x) = true) (Hq : ∀ x, q x = true → p x = true).

Lemma update_where_twice : update_where q g (update_where p f l) = update_where p (λ x, g (f x)) l.
Proof.
  unfold update_where. rewrite <-list_fmap_compose. apply list_fmap_ext. intros i x _. simpl.
  destruct (p x) eqn:E; [by rewrite Hp|]. destruct (q x) eqn:E'; [|done].
  apply Hq in E'. congruence.
Qed.
Lemma count_where_updated : count_where q (update_where p f l) = count_where p l.
Proof.
  unfold count_where, select_where, update_where. induction l as [|x l' IH]; [done|]. simpl.
  rewrite !filter_cons. destruct (p x) eqn:E; simpl.
  - rewrite decide_True by by apply Hp. simpl. f_equal. exact IH.
  - by rewrite decide_False by (intros E'%Hq; congruence).
Qed.
End two_updates.

(** A claim has one row at most. *)
Lemma claim_row_once t claim :
  inbox_wf t → exists_where (claim_row claim) t = true → count_where (claim_row claim) t = 1%nat.
Proof.
  intros Hwf (r & Hr & Hc)%exists_where_true. unfold count_where.
  assert (∀ x, x ∈ select_where (claim_row claim) t → x = r) as Hall.
  { intros x [Hx Hxt]%elem_of_select_where. unfold claim_row in *. bool_hyps.
    eapply (key_inj in_input_id); [apply Hwf|done|done|congruence]. }
  assert (NoDup (select_where (claim_row claim) t)) as Hnd.
  { apply NoDup_filter. eapply NoDup_fmap_1, (ix_ids t Hwf). }
  assert (r ∈ select_where (claim_row claim) t) as Hin by by apply elem_of_select_where.
  destruct (select_where (claim_row claim) t) as [|x [|y l]]; [by apply elem_of_nil in Hin|done|].
  apply NoDup_cons in Hnd as [Hn _]. destruct Hn. rewrite (Hall x), (Hall y).
  - apply list_elem_of_here.
  - apply list_elem_of_further, list_elem_of_here.
  - apply list_elem_of_here.
Qed.

(** The row of a settled input: released, with the error and the time of the next
    attempt. *)
Definition settled_row (claim : InputClaim) (code : string) (next : option Z) (r : InboxRow) : Prop :=
  in_input_id r = ic_input_id claim ∧ in_attempt_token r = None ∧ in_next_attempt_at r = next ∧
  in_error_code r = Some code.

(** The queue after a worker settled [claim]: the row is kept and settled, the
    others are as they were, the lease is gone. *)
Record claim_settled (db : Db) (claim : InputClaim) (code : string) (next : option Z) (db' : Db)
    : Prop := {
  cs_row : ∀ r, r ∈ db_inbox db' → in_input_id r = ic_input_id claim → settled_row claim code next r;
  cs_kept : ∀ r, r ∈ db_inbox db → ∃ r', r' ∈ db_inbox db' ∧ in_ident r' = in_ident r;
  cs_others : ∀ r, in_input_id r ≠ ic_input_id claim → r ∈ db_inbox db' ↔ r ∈ db_inbox db;
  cs_lease : db_leases db' = delete (ic_token claim) (db_leases db);
  cs_frame : db' = with_leases (db_leases db') (with_inbox (db_inbox db') db) }.

(** It is not claimed again before the time of its next attempt. *)
Lemma settled_not_due db' claim code next b t r :
  settled_row claim code next r → r ∈ due_inputs db' b t → ∃ at_, next = Some at_ ∧ at_ ≤ t.
Proof.
  intros (Hi & Ht & Hn & He) Hr. unfold due_inputs in Hr.
  apply list_elem_of_fmap in Hr as ([i r'] & -> & [Hd _]%list_elem_of_filter). simpl in *.
  unfold input_due in Hd. rewrite Ht, Hn in Hd. simpl in Hd.
  rewrite !andb_false_r, orb_false_r in Hd. destruct next as [z|]; bool_hyps; [|done].
  eauto.
Qed.

Lemma claim_settled_due db claim code next db' :
  claim_settled db claim code next db' →
  ∀ b t r, r ∈ due_inputs db' b t → in_input_id r = ic_input_id claim →
    ∃ at_, next = Some at_ ∧ at_ ≤ t.
Proof.
  intros Hs b t r Hd Hi. eapply settled_not_due; [|exact Hd].
  apply (cs_row _ _ _ _ _ Hs); [|done]. by apply due_inputs_elem in Hd as [? _].
Qed.

(** What was settled is not settled again. *)
Lemma settled_lost `{QueueCodec} db claim code next db' :
  claim_settled db claim code next (release_claim_lease db' claim) →
  exists_where (claim_row claim) (db_inbox db) = true →
  (∀ code' next' t, fail_claim db' claim code' next' t = superseded) ∧
  exists_where (λ r, bool_decide (in_input_id r = ic_input_id claim)) (db_inbox db') = true.
Proof.
  intros Hs (r & Hr & Hc)%exists_where_true. split.
  - edestruct lost_claim as (_ & Hf & _); [|exact Hf]. intros x Hx. apply not_true_iff_false. intros Hcx. unfold claim_row in Hcx.
    bool_hyps. destruct (cs_row _ _ _ _ _ Hs x) as (_ & Ht & _); [done..|]. congruence.
  - destruct (cs_kept _ _ _ _ _ Hs r Hr) as (r' & Hr' & (Ei & _)%in_ident_inv).
    apply exists_where_true. exists r'. split; [done|]. unfold claim_row in Hc. bool_hyps.
    apply bool_decide_eq_true. congruence.
Qed.

Lemma settle_update db claim code next p f :
  inbox_wf (db_inbox db) →
  (∀ r, r ∈ db_inbox db → in_input_id r = ic_input_id claim → p r = true) →
  (∀ r, p r = true → in_input_id r = ic_input_id claim) →
  (∀ r, in_ident (f r) = in_ident r) →
  (∀ r, p r = true → settled_row claim code next (f r)) →
  claim_settled db claim code next (release_claim_lease (update_inbox p f db) claim).
Proof.
  intros Hwf Hp Hid Hident Hf. split; simpl.
  - intros r' (r & Hr & ->)%elem_of_update_where. destruct (p r) eqn:E; [by intros _; apply Hf|].
    intros Hi. rewrite Hp in E; done.
  - intros r Hr. exists (if p r then f r else r). split; [apply elem_of_update_where; eauto|].
    by destruct (p r).
  - intros r' Hne. rewrite elem_of_update_where. split.
    + intros (r & Hr & ->). destruct (p r) eqn:E; [|done]. destruct Hne.
      by apply Hf.
    + intros Hr. exists r'. split; [done|]. destruct (p r') eqn:E; [|done]. by destruct Hne; apply Hid.
  - done.
  - by destruct db.
Qed.

Section runs.
Context `{QueueCodec}.
Context {Message : Type} (input : WorkInput (Message := Message)).
Implicit Types (s : WorkState (Message := Message)) (claim : InputClaim).

(** Every statement is followed by the next one, whatever it returns. *)
Lemma attempt_returns {A} k (f : Db → ImResult (A * Db)) s :
  ∃ r s', attempt (run_local input k f) s = (Returned r, s').
Proof.
  unfold attempt, run_local. destruct (wk_fails input k); [by eauto|].
  destruct (f _) as [[]|]; eauto.
Qed.
Lemma attempt_then {A B} k (f : Db → ImResult (A * Db)) (g : ImResult A → FlowM WorkState B)
    (Q : Flow B → WorkState → Prop) :
  (∀ r, triple (λ _, True) (g r) Q) → triple (λ _, True) (attempt (run_local input k f) ≫= g) Q.
Proof.
  intros Hg s _. destruct (attempt_returns k f s) as (r & s' & E). unfold mbind, flow_bind.
  rewrite E. by apply Hg.
Qed.

Definition let_go claim (r : Flow unit) s : Prop :=
  r = Returned () ∧ db_leases (ws_db s) !! ic_token claim = None.

Lemma release_lets_go claim :
  wk_fails input 4 = None → triple (λ _, True) (release input claim) (let_go claim).
Proof.
  intros Hf s _. unfold release, mbind, flow_bind, attempt, run_local. rewrite Hf. simpl.
  split; [done|]. simpl. apply lookup_delete_eq.
Qed.
Lemma publish_release_lets_go claim u :
  wk_fails input 4 = None →
  triple (λ _, True) (_ ← publish (ic_owner claim) u; release input claim) (let_go claim).
Proof. intros Hf s _. by apply release_lets_go. Qed.

Lemma settle_timeout_ends claim s :
  ∃ r s', settle_timeout input claim s = (Returned r, s').
Proof.
  unfold settle_timeout, mbind, flow_bind.
  destruct (attempt_returns 0 (λ db, Ok (park_timeout db claim (wk_clock input 0))) s) as (r & s1 & ->).
  destruct (negb _); [by eexists _, _|]. simpl.
  match goal with |- context [attempt (run_local input 1 ?f) ?s] =>
    destruct (attempt_returns 1 f s) as (r' & s2 & ->) end.
  by eexists _, _.
Qed.

(** *** Nobody else interferes *)

Section quiet.
Context (Q : quiet input).

Lemma attempt_quiet {A} k (f : Db → ImResult (A * Db)) s :
  attempt (run_local input k f) s =
  match f (ws_db s) with
  | Ok (a, db') => (Returned (Ok a), mkWorkState db' (ws_published s))
  | Err e => (Returned (Err e), s)
  end.
Proof.
  destruct Q as [Qe Qf]. unfold attempt, run_local. rewrite Qe, Qf.
  destruct (f _) as [[]|]; [done|by destruct s].
Qed.
Lemma release_quiet claim s :
  release input claim s
  = (Returned (), mkWorkState (release_claim_lease (ws_db s) claim) (ws_published s)).
Proof. unfold release, mbind, flow_bind. by rewrite attempt_quiet. Qed.

(** A timed-out input is parked and released at once. *)
Lemma settle_timeout_quiet claim db pub :
  count_where (claim_row claim) (db_inbox db) = 1%nat →
  settle_timeout input claim (mkWorkState db pub) =
  (Returned (Err (sync_error timeout_code "business processing exceeded its time budget")),
   mkWorkState
     (update_inbox (claim_row claim)
        (λ r, in_set r None (in_attempt_count r) None None (in_last_attempt_at r)
                (Some (wk_clock input 1 + 2)) (Some timeout_code)) db)
     (pub ++ [(ic_owner claim, update_of (ic_event_id claim) Retrying (Some timeout_code))])).
Proof.
  intros Hone. unfold settle_timeout, mbind, flow_bind. rewrite attempt_quiet by done.
  unfold park_timeout. rewrite bool_decide_eq_true_2 by done. simpl.
  rewrite attempt_quiet by done. unfold release_timeout, update_inbox. simpl.
  set (p := claim_row claim). set (f := λ r, in_set r _ _ _ _ _ _ _). set (q := λ r, _ && _).
  set (g := λ r, in_set r _ _ _ _ _ _ _).
  assert (∀ r, p r = true → q (f r) = true) as Hp.
  { intros r Hr.
    change (q (f r)) with (p r && bool_decide (Some timeout_code = Some "sync.processing_timeout"%string)).
    by rewrite Hr. }
  assert (∀ r, q r = true → p r = true) as Hq by (intros r; unfold q; by intros []%andb_true_iff).
  rewrite update_where_twice, count_where_updated by done. unfold p. by rewrite Hone.
Qed.
End quiet.

Lemma release_twice db claim :
  release_claim_lease (release_claim_lease db claim) claim = release_claim_lease db claim.
Proof.
  unfold release_claim_lease, release_processing_slot. simpl. by rewrite delete_delete_eq.
Qed.
End runs.

Lemma backoff_bounds n :
  1 ≤ backoff n ≤ 60 ∧ (6 ≤ n → backoff n = 60) ∧ ∀ n', n ≤ n' → backoff n ≤ backoff n'.
Proof.
  unfold backoff. rewrite !Z.shiftl_1_l.
  assert (1 ≤ 2 ^ Z.max 0 (Z.min n 6)) by (apply (Z.pow_le_mono_r 2 0); lia).
  split_and!; [lia|lia| |].
  - intros H6. by replace (Z.max 0 (Z.min n 6)) with 6 by lia.
  - intros n' Hle. rewrite Z.shiftl_1_l.
    pose proof (Z.pow_le_mono_r 2 (Z.max 0 (Z.min n 6)) (Z.max 0 (Z.min n' 6))). lia.
Qed.
