(* ===== verification/DispatchClaims.v ===== *)
(** * Claims about the dispatcher and its workers

    The dispatcher keeps one loop running and its counts exact, and a registered
    client leaves only after a scan found nothing for it; a worker settles its claim
    on every path. *)

From Stdlib Require Import Ascii.
From stdpp Require Import gmap sorting.
From S2P Require Import Prelude RustStr ImError Effects Dto Store SyncStore Inbox InboxProps InboxClaims Dispatch DispatchProps Worker.
Local Open Scope Z_scope.

(** ** The dispatcher *)

Section dispatcher.
Context {Message : Type}.
Implicit Types (s : Sys (Message := Message)).

(** At most one dispatcher loop is running, whatever the order of wake-ups, ends,
    aborts and late guards, and [running] says whether one is — unless a loop was
    dropped before its first poll. *)
Theorem dispatcher_single_loop s :
  reachable s → sy_wakes s < 2 ^ 64 →
  (∀ i j l l', sy_loops s !! i = Some l → sy_loops s !! j = Some l' → live l → live l' → i = j) ∧
  (ds_running (sy_state s) = true ↔ sy_lost s = true ∨ ∃ l, l ∈ sy_loops s ∧ live l).
Proof.
  intros Hr Hw. pose proof (sys_reachable_inv s Hr Hw) as I. split.
  - intros i j l l' Hi Hj Hl Hl'. eapply (NoDup_lookup (lp_epoch <$> sy_loops s)); [apply I|..];
      rewrite list_lookup_fmap, ?Hi, ?Hj; simpl; [done|].
    destruct (si_live s I l) as [-> _]; [by eapply list_elem_of_lookup_2|done|].
    by destruct (si_live s I l') as [-> _]; [eapply list_elem_of_lookup_2|..].
  - split; [apply I|]. intros [Hlost|(l & Hl & Hlv)]; [by apply (si_lost s I)|].
    by apply (si_live s I l).
Qed.

(** A loop never holds more than eight jobs, its jobs are exactly its claims and
    its maintenance, and [active_for_owner] is the number of the owner's inputs being
    processed: finished, panicked and aborted tasks included. *)
Theorem dispatcher_counts s l :
  reachable s → sy_wakes s < 2 ^ 64 → l ∈ sy_loops s →
  Z.of_nat (size (lp_jobs l)) ≤ MAX_ACTIVE_INPUTS ∧
  (∀ t, (∃ k, lp_jobs l !! k = Some t) ↔
        is_Some (lp_active l !! t) ∨ is_Some (lp_maintenance l !! t)) ∧
  (live l → ∀ owner, active_for_owner (sy_state s) owner = in_hand l owner) ∧
  ((∀ l', l' ∈ sy_loops s → ¬ live l') → ∀ owner, active_for_owner (sy_state s) owner = 0).
Proof.
  intros Hr Hw Hl. pose proof (sys_reachable_inv s Hr Hw) as I. pose proof (si_wf s I l Hl) as W.
  split_and!; [apply W|apply W| |apply I]. intros Hlv. by apply (si_counted s I).
Qed.


(** C9: When a spawned loop is dropped before it is first polled, its guard never
    existed, so the dispatcher stays marked as running and no later wake-up starts
    a loop. *)
Theorem dispatcher_unpolled_stall s s' :
  reachable s → sy_lost s = true → rtc step s s' → sy_wakes s' < 2 ^ 64 →
  ds_running (sy_state s') = true ∧ ∀ l, l ∈ sy_loops s' → ¬ live l.
Proof.
  intros [db Hr] Hlost Hrs Hw.
  assert (sy_lost s' = true) as Hlost'.
  { clear Hr Hw. induction Hrs as [|s1 s2 s3 H12 _ IH]; [done|]. by apply IH, (step_lost s1). }
  assert (sys_inv s') as I by (apply sys_reachable_inv; [exists db; by transitivity s|done]).
  destruct (si_lost s' I Hlost') as [Hrun Hlt]. split; [done|]. intros l Hl Hlv.
  specialize (Hlt l Hl). destruct (si_live s' I l Hl Hlv). lia.
Qed.
End dispatcher.

(** ** Workers *)

Section claims.
Context `{QueueCodec}.
Context {Message : Type}.
Implicit Types (input : WorkInput (Message := Message)) (claim : InputClaim).

(** A retry is scheduled between one second and one minute ahead, no earlier for a
    later attempt, and after exactly a minute from the sixth attempt on. *)
Theorem retry_at_bounds now error attempts t :
  is_i64 now → now + 60 ≤ i64_max → retry_at now error attempts = Some t →
  now + 1 ≤ t ≤ now + 60 ∧ (6 ≤ attempts → t = now + 60) ∧
  ∀ attempts', attempts ≤ attempts' →
    ∃ t', retry_at now error attempts' = Some t' ∧ t ≤ t'.
Proof.
  intros Hn Hm Hr. unfold retry_at in *. destruct (retryable error); [|done].
  pose proof (backoff_bounds attempts) as (Hb & Hb6 & Hmono).
  assert (∀ n, i64_saturating_add now (backoff n) = now + backoff n) as Hadd.
  { intros n. destruct (backoff_bounds n) as (? & _). unfold i64_saturating_add, clamp_i64.
    unfold is_i64 in *. lia. }
  rewrite Hadd in Hr. injection Hr as <-. split_and!; [lia|lia|intros H6; by rewrite Hb6|].
  intros n Hle. eexists. split; [done|]. rewrite Hadd. specialize (Hmono n Hle). lia.
Qed.

(** A worker always comes to its end and has then released the lease of its claim,
    whatever the processing returned, whether it timed out, whichever of its other
    statements failed and whatever others did to the database. *)
Theorem run_claim_releases input claim s :
  wk_db_ok input = true → wk_fails input 4 = None →
  (run_claim input claim s).1 = Returned () ∧
  db_leases (ws_db (run_claim input claim s).2) !! ic_token claim = None.
Proof.
  intros Hdb Hf. unfold run_claim. rewrite Hdb. simpl.
  match goal with |- context [(_ ≫= ?g) s] =>
    assert (∀ r, triple (λ _, True) (g r) (let_go claim)) as Hg end.
  { intros [u|e]; [by apply publish_release_lets_go|]. apply attempt_then. intros r.
    destruct (unwrap_or _ _); [by apply publish_release_lets_go|]. apply attempt_then.
    intros r'. destruct (unwrap_or _ _); [by apply release_lets_go|by apply publish_release_lets_go]. }
  assert (∃ r s', (if wk_timed_out input then settle_timeout input claim
                   else mret (wk_result input)) s = (Returned r, s')) as (r & s' & E).
  { destruct (wk_timed_out input); [apply settle_timeout_ends|by eexists _, _]. }
  cbv beta in Hg. set (g := λ r, match r with Ok _ => _ | Err _ => _ end) in *.
  unfold mbind, flow_bind. rewrite E. by apply Hg.
Qed.

(** A failed input is recorded with its failure code and its next attempt, its
    lease is released, other inputs are untouched, exactly one update reports it as
    retrying or blocked, and it is not claimed again before that time (a blocked one
    not at all). *)
Theorem run_claim_failure input claim db pub error :
  inbox_wf (db_inbox db) → quiet input → wk_db_ok input = true → wk_timed_out input = false →
  wk_result input = Err error → require_claim db claim (wk_clock input 3) = Ok () →
  let next := retry_at (wk_clock input 2) error (ic_attempt_count claim) in
  let s := (run_claim input claim (mkWorkState db pub)).2 in
  ws_published s = pub ++ [(ic_owner claim,
    update_of (ic_event_id claim) (if next then Retrying else Blocked) (Some (failure_code error)))] ∧
  claim_settled db claim (failure_code error) next (ws_db s) ∧
  ∀ b t r, r ∈ due_inputs (ws_db s) b t → in_input_id r = ic_input_id claim →
    ∃ at_, next = Some at_ ∧ at_ ≤ t.
Proof.
  intros Hwf Q Hdb Hto Hr Hreq next s.
  set (db' := release_claim_lease (update_inbox
      (λ r, bool_decide (in_input_id r = ic_input_id claim))
      (λ r, in_set r None (in_attempt_count r) None None (in_last_attempt_at r) next
              (Some (failure_code error))) db) claim).
  assert (claim_settled db claim (failure_code error) next db') as Hs.
  { apply settle_update; [done|..].
    - intros r _ E. by apply bool_decide_eq_true.
    - intros r E. by apply bool_decide_eq_true in E.
    - done.
    - intros r E. by apply bool_decide_eq_true in E. }
  assert (s = mkWorkState db' (pub ++ [(ic_owner claim, update_of (ic_event_id claim)
            (if next then Retrying else Blocked) (Some (failure_code error)))])) as ->.
  { unfold s, run_claim. rewrite Hdb, Hto, Hr. simpl. unfold mbind, flow_bind at 1. simpl.
    unfold flow_bind. rewrite attempt_quiet by done. unfold fail_claim. simpl.
    rewrite Hreq. simpl. rewrite release_quiet by done. simpl. by rewrite release_twice. }
  split_and!; [done|done|]. by eapply claim_settled_due.
Qed.

(** An input whose processing exceeded its budget is parked and released for a
    retry two seconds later, reported once as retrying; the late result of the
    processing is neither reported nor recorded. *)
Theorem run_claim_timeout input claim db pub :
  inbox_wf (db_inbox db) → quiet input → wk_db_ok input = true → wk_timed_out input = true →
  exists_where (claim_row claim) (db_inbox db) = true →
  let next := wk_clock input 1 + 2 in
  let s := (run_claim input claim (mkWorkState db pub)).2 in
  ws_published s = pub ++ [(ic_owner claim,
    update_of (ic_event_id claim) Retrying (Some timeout_code))] ∧
  claim_settled db claim timeout_code (Some next) (ws_db s) ∧
  ∀ b t r, r ∈ due_inputs (ws_db s) b t → in_input_id r = ic_input_id claim → next ≤ t.
Proof.
  intros Hwf Q Hdb Hto Hrow next s.
  pose proof (claim_row_once _ _ Hwf Hrow) as Hone.
  set (f := λ r, in_set r None (in_attempt_count r) None None (in_last_attempt_at r)
    (Some next) (Some timeout_code)).
  set (db2 := update_inbox (claim_row claim) f db).
  assert (claim_settled db claim timeout_code (Some next) (release_claim_lease db2 claim)) as Hs.
  { apply settle_update; [done|..].
    - intros r Hr Hi. apply exists_where_true in Hrow as (r' & Hr' & Hc).
      enough (r = r') as -> by done. unfold claim_row in Hc. bool_hyps.
      eapply (key_inj in_input_id); [apply Hwf|done|done|congruence].
    - intros r Hc. unfold claim_row in Hc. by bool_hyps.
    - done.
    - intros r Hc. unfold claim_row in Hc. by bool_hyps. }
  destruct (settled_lost _ _ _ _ _ Hs Hrow) as [Hf Hkept].
  assert (s = mkWorkState (release_claim_lease db2 claim) (pub ++ [(ic_owner claim,
            update_of (ic_event_id claim) Retrying (Some timeout_code))])) as ->.
  { unfold s, run_claim. rewrite Hdb, Hto. simpl. unfold mbind, flow_bind at 1.
    rewrite (settle_timeout_quiet input Q claim db pub) by done. fold next. fold f. fold db2.
    change (failure_code _) with timeout_code. unfold flow_bind.
    rewrite attempt_quiet by done. simpl. rewrite Hf. simpl. rewrite attempt_quiet by done. simpl.
    unfold retained_or_completed. rewrite Hkept. simpl. by rewrite release_quiet. }
  split_and!; [done|done|]. intros b t r Hd Hi.
  destruct (claim_settled_due _ _ _ _ _ Hs b t r Hd Hi) as (? & [= <-] & ?). done.
Qed.

(** A worker whose claim is no longer valid changes nothing but its own lease; it
    reports the input as discarded exactly when the input left the queue without
    having been completed. *)
Theorem run_claim_stale input claim db pub error :
  quiet input → wk_db_ok input = true → wk_timed_out input = false →
  wk_result input = Err error → failure_code error ≠ timeout_code →
  require_claim db claim (wk_clock input 3) ≠ Ok () →
  let kept := exists_where (λ r, bool_decide (in_input_id r = ic_input_id claim)) (db_inbox db) in
  let s := (run_claim input claim (mkWorkState db pub)).2 in
  ws_db s = release_claim_lease db claim ∧
  (kept = true ∨ claim_was_completed db claim = Ok true → ws_published s = pub) ∧
  (kept = false → claim_was_completed db claim = Ok false →
     ws_published s = pub ++ [(ic_owner claim,
       update_of (ic_event_id claim) Discarded (Some "sync.input_discarded"%string))]).
Proof.
  intros Q Hdb Hto Hr Hcode Hreq kept s.
  assert (s = let report := [(ic_owner claim,
       update_of (ic_event_id claim) Discarded (Some "sync.input_discarded"%string))] in
     mkWorkState (release_claim_lease db claim)
       (pub ++ if unwrap_or (fst <$> retained_or_completed claim db) true then [] else report)) as ->.
  { unfold s, run_claim. rewrite Hdb, Hto, Hr. simpl. unfold mbind, flow_bind at 1. simpl.
    unfold flow_bind. rewrite attempt_quiet by done. unfold fail_claim. simpl.
    destruct (require_claim_cases db claim (wk_clock input 3)) as [?| ->]; [done|]. simpl.
    rewrite attempt_quiet by done. rewrite (bool_decide_eq_false_2 _ Hcode). simpl.
    destruct (retained_or_completed claim db) as [[b d]|e] eqn:E; simpl.
    - assert (d = db) as ->.
      { unfold retained_or_completed in E. destruct (exists_where _ _); res_inv; done. }
      destruct b; rewrite release_quiet by done; simpl; [by rewrite app_nil_r|done].
    - rewrite release_quiet by done. simpl. by rewrite app_nil_r. }
  unfold retained_or_completed. fold kept. simpl. split; [done|]. split.
  - intros [-> | ->]; [|destruct kept]; simpl; by rewrite app_nil_r.
  - intros -> ->. done.
Qed.
End claims.

(** ** A concrete dispatch

    A client with two received inputs wakes the dispatcher; the scan hands both to
    workers. *)

Definition ex_client : Client := mkClient "owner-1" (Some "1"%string).
Fixpoint ex_token (i : nat) : string :=
  match i with O => "op-"%string | S i => String "x"%char (ex_token i) end.
Definition ex_scan (db_ok : bool) : ScanInput :=
  mkScanInput db_ok (λ _ db, db) (λ _, false) (λ _, 600) (λ _, false) (Some ex_binding) (λ _, "lease"%string)
    ex_token Z.of_nat.

Lemma ex_token_length i : String.length (ex_token i) = (3 + i)%nat.
Proof. induction i as [|i IH]; [done|]. simpl. rewrite IH. lia. Qed.
Lemma ex_scan_fresh ok l : lp_active l = ∅ → lp_jobs l = ∅ → scan_fresh (ex_scan ok) l.
Proof.
  intros Ha Hj. split; simpl.
  - intros i j E. pose proof (ex_token_length i). pose proof (ex_token_length j).
    rewrite E in *. lia.
  - intros i. by rewrite Ha.
  - by intros [|i].
  - intros i j. lia.
  - intros i. by rewrite Hj.
Qed.

Lemma eta5 {A B C D E} (r : A * B * C * D * E) :
  r = (r.1.1.1.1, r.1.1.1.2, r.1.1.2, r.1.2, r.2).
Proof. by destruct r as [[[[]]]]. Qed.

Notation ExSys := (Sys (Message := unit)).
Definition ex_woken : ExSys := wake ex_client (sys_start ex_receive.2).
Definition ex_polled : ExSys :=
  with_loops (sy_state ex_woken) [with_phase Top (loop_start 1)] ex_woken.
Definition ex_begun : ExSys :=
  let r := begin_scan (sy_state ex_polled) (with_phase Top (loop_start 1)) in
  mkSys r.1 [r.2] (sy_db ex_polled) (sy_published ex_polled) (sy_receivers ex_polled)
    (sy_wakes ex_polled) [] (sy_lost ex_polled).
Definition ex_begun_loop : Loop :=
  with_phase (Scan [ex_client] [ex_client] false 1) (loop_start 1).
Definition ex_scanned_with (ok : bool) : ExSys :=
  let r := scan_client (ex_scan ok) ex_client (sy_state ex_begun) ex_begun_loop (sy_db ex_begun) in
  after_scan r.1.1.1.1 [with_phase (Scan [ex_client] [] (false || r.1.2) 1) r.1.1.1.2] r.1.1.2 r.2
    (if r.1.2 then [] else [ex_client]) ex_begun.

Lemma ex_begun_reachable : reachable ex_begun.
Proof.
  exists ex_receive.2. apply (rtc_l _ _ ex_woken); [apply st_wake|].
  apply (rtc_l _ _ ex_polled).
  { apply (st_loop _ [] (loop_start 1) []); [vm_compute; reflexivity|]. by apply ls_poll. }
  apply rtc_once.
  apply (st_loop _ [] (with_phase Top (loop_start 1)) []); [vm_compute; reflexivity|].
  exact (ls_begin ex_polled [] [] (with_phase Top (loop_start 1)) _ _ eq_refl
           (surjective_pairing _)).
Qed.
Lemma ex_scanned_reachable ok : reachable (ex_scanned_with ok).
Proof.
  destruct ex_begun_reachable as [db Hr]. exists db. eapply rtc_r; [exact Hr|].
  apply (st_loop _ [] ex_begun_loop []); [vm_compute; reflexivity|].
  exact (ls_scan ex_begun [] [] ex_begun_loop (ex_scan ok) [ex_client] ex_client [] false 1
           _ _ _ _ _ eq_refl (ex_scan_fresh ok ex_begun_loop eq_refl eq_refl) (eta5 _)).
Qed.

Lemma dispatcher_single_loop_witness :
  ds_running (sy_state (ex_scanned_with true)) = true ∧
  ∃ l, l ∈ sy_loops (ex_scanned_with true) ∧ live l.
Proof.
  destruct (dispatcher_single_loop (ex_scanned_with true) (ex_scanned_reachable true)) as [_ Hr].
  - vm_compute. reflexivity.
  - assert (ds_running (sy_state (ex_scanned_with true)) = true) as Hrun by (vm_compute; reflexivity).
    split; [exact Hrun|]. destruct (proj1 Hr Hrun) as [Hl|Hl]; [|exact Hl].
    vm_compute in Hl. discriminate.
Defined.

Definition ex_working : Loop := default ex_begun_loop (head (sy_loops (ex_scanned_with true))).
Lemma dispatcher_counts_witness :
  active_for_owner (sy_state (ex_scanned_with true)) "owner-1" = 2 ∧ in_hand ex_working "owner-1" = 2.
Proof.
  destruct (dispatcher_counts (ex_scanned_with true) ex_working (ex_scanned_reachable true))
    as (_ & _ & Hc & _).
  - vm_compute. reflexivity.
  - apply (list_elem_of_lookup_2 _ 0). vm_compute. reflexivity.
  - split; [vm_compute; reflexivity|]. rewrite <-Hc; [vm_compute; reflexivity|].
    vm_compute. discriminate.
Defined.

(** A client whose database does not open is forgotten at the end of the scan. *)
Definition ex_scan_loop : Loop := with_phase (Scan [ex_client] [] false 1) (loop_start 1).
Definition ex_ended : ExSys :=
  let r := end_scan (sy_state (ex_scanned_with false)) ex_scan_loop 0 [ex_client] false 1 in
  with_loops r.1 [r.2] (ex_scanned_with false).
Lemma ex_ended_step : step (ex_scanned_with false) ex_ended.
Proof.
  apply (st_loop _ [] ex_scan_loop []); [vm_compute; reflexivity|].
  exact (ls_end (ex_scanned_with false) [] [] ex_scan_loop [ex_client] false 1 _ _ eq_refl
           (surjective_pairing _)).
Qed.

(** The loop is dropped before it is polled; the next wake-up starts none. *)
Definition ex_unpolled : ExSys :=
  mkSys (sy_state ex_woken) [] (sy_db ex_woken) (sy_published ex_woken) (sy_receivers ex_woken)
    (sy_wakes ex_woken) (sy_idle ex_woken) true.
Lemma ex_unpolled_reachable : reachable ex_unpolled.
Proof.
  exists ex_receive.2. apply (rtc_l _ _ ex_woken); [apply st_wake|]. apply rtc_once.
  by apply (st_drop_unpolled _ [] (loop_start 1) []); [vm_compute; reflexivity|].
Qed.
Lemma dispatcher_unpolled_stall_witness :
  ds_running (sy_state (wake ex_client ex_unpolled)) = true ∧
  ∀ l, l ∈ sy_loops (wake ex_client ex_unpolled) → ¬ live l.
Proof.
  apply (dispatcher_unpolled_stall ex_unpolled _ ex_unpolled_reachable); [reflexivity| |].
  - apply rtc_once, st_wake.
  - vm_compute. reflexivity.
Defined.

(** ** A concrete worker *)

Definition ex_work (timed_out : bool) (result : ImResult (MessageProcessingUpdate unit)) : WorkInput :=
  mkWorkInput true (λ _ db, db) (λ _, None) (λ _, 610) timed_out result.
Definition ex_failure : ImError := TransportUnavailable "connection reset".
Lemma ex_work_quiet t r : quiet (ex_work t r).
Proof. done. Qed.

Lemma retry_at_bounds_witness :
  retry_at 610 ex_failure 3 = Some 618 ∧ 610 + 1 ≤ 618 ≤ 610 + 60.
Proof.
  split; [reflexivity|].
  refine (proj1 (retry_at_bounds 610 ex_failure 3 618 _ _ _)); [|vm_compute; discriminate|reflexivity].
  split; vm_compute; discriminate.
Defined.

Lemma run_claim_releases_witness :
  is_Some (db_leases ex_claimed.2 !! ic_token ex_claim) ∧
  db_leases (ws_db (@run_claim ex_codec unit (ex_work true (Err AuthRequired)) ex_claim
                      (mkWorkState ex_claimed.2 [])).2) !! ic_token ex_claim = None.
Proof.
  split; [by vm_compute; eexists|].
  exact (proj2 (@run_claim_releases ex_codec unit (ex_work true (Err AuthRequired)) ex_claim
                  (mkWorkState ex_claimed.2 []) eq_refl eq_refl)).
Defined.

Lemma run_claim_failure_witness :
  claim_settled ex_claimed.2 ex_claim "sync.processing_transport_unavailable" (Some 612)
    (ws_db (@run_claim ex_codec unit (ex_work false (Err ex_failure)) ex_claim
              (mkWorkState ex_claimed.2 [])).2).
Proof.
  exact (proj1 (proj2 (@run_claim_failure ex_codec unit (ex_work false (Err ex_failure)) ex_claim
    ex_claimed.2 [] ex_failure (qw_inbox _ ex_claimed_wf) (ex_work_quiet _ _) eq_refl eq_refl
    eq_refl ltac:(vm_compute; reflexivity)))).
Defined.

Lemma run_claim_timeout_witness :
  claim_settled ex_claimed.2 ex_claim timeout_code (Some 612)
    (ws_db (@run_claim ex_codec unit (ex_work true (Err ex_failure)) ex_claim
              (mkWorkState ex_claimed.2 [])).2).
Proof.
  exact (proj1 (proj2 (@run_claim_timeout ex_codec unit (ex_work true (Err ex_failure)) ex_claim
    ex_claimed.2 [] (qw_inbox _ ex_claimed_wf) (ex_work_quiet _ _) eq_refl eq_refl
    ltac:(vm_compute; reflexivity)))).
Defined.

(** An input purged while it was being processed is reported as discarded; one that
    another worker took over is not. *)
Lemma run_claim_stale_witness :
  ws_published (@run_claim ex_codec unit (ex_work false (Err ex_failure)) ex_claim
                  (mkWorkState (with_inbox [] ex_claimed.2) [])).2
  = [(ic_owner ex_claim, update_of (ic_event_id ex_claim) Discarded (Some "sync.input_discarded"%string))] ∧
  ws_db (@run_claim ex_codec unit (ex_work false (Err ex_failure)) ex_old_claim
           (mkWorkState ex_claimed.2 [])).2
  = release_claim_lease ex_claimed.2 ex_old_claim.
Proof.
  split.
  - refine (proj2 (proj2 (@run_claim_stale ex_codec unit (ex_work false (Err ex_failure)) ex_claim
      (with_inbox [] ex_claimed.2) [] ex_failure (ex_work_quiet _ _) eq_refl eq_refl eq_refl _ _)) _ _);
      [discriminate|vm_compute; discriminate|vm_compute; reflexivity|vm_compute; reflexivity].
  - refine (proj1 (@run_claim_stale ex_codec unit (ex_work false (Err ex_failure)) ex_old_claim
      ex_claimed.2 [] ex_failure (ex_work_quiet _ _) eq_refl eq_refl eq_refl _ _));
      [discriminate|vm_compute; discriminate].
Defined.
