(* ===== verification/ReadState.v ===== *)
(** * Read state

    How far each conversation has been read: [local_state/read_state.rs], the
    watermark functions of [local_state/messages.rs], and of [local_state/sync_v2.rs]
    the bindings of remote threads, the remote read states and the queueing of a
    local mark. The reading client marks a thread up to a message or sequence; the
    mark is merged with the stored watermark and queued for the service; read states
    of other devices arrive with events and snapshots and are merged the same way.

    The conversations a direct peer may be filed under are looked up in the tables of
    peers and contacts, which are not modelled: these look-ups are the class
    [ThreadIndex]. The summaries derived from messages are left out. *)

From Stdlib Require Import Ascii.
From S2P Require Import Prelude RustStr ImError Decimal Store SyncStore Outbox.
Local Open Scope Z_scope.

(** ** Data *)

Record SyncThreadBinding := mkThreadBinding {
  tb_owner : string;
  tb_remote_thread_key : string;
  tb_thread_kind : string;
  tb_conversation_id : string;
  tb_updated_at : Z }.

Record ReadStateApplyV2 := mkReadApply {
  ra_remote_thread_key : string;
  ra_thread_kind : string;
  ra_watermark_seq : string;
  ra_watermark_message_id : option string;
  ra_state_version : string;
  ra_occurred_at : string }.
#[export] Instance read_apply_eq_dec : EqDecision ReadStateApplyV2.
Proof. solve_decision. Defined.

(** Rows of [conversation_aliases] and [message_identity_aliases]. *)
Record ConversationAlias := mkAlias {
  al_owner : string;
  al_kind : string;
  al_alias : string;
  al_canonical : string }.
Record MessageAlias := mkMessageAlias {
  ma_owner : string;
  ma_alias : string;
  ma_canonical : string }.

(** The sync database with the tables of read recovery. *)
Record ReadDb := mkReadDb {
  rd_db : Db;
  rd_thread_bindings : list SyncThreadBinding;
  rd_remote_states : list (string * ReadStateApplyV2);
  rd_aliases : list ConversationAlias;
  rd_message_aliases : list MessageAlias }.
Definition on_db (db : Db) (s : ReadDb) : ReadDb :=
  mkReadDb db (rd_thread_bindings s) (rd_remote_states s) (rd_aliases s) (rd_message_aliases s).
Definition with_thread_bindings t (s : ReadDb) : ReadDb :=
  mkReadDb (rd_db s) t (rd_remote_states s) (rd_aliases s) (rd_message_aliases s).
Definition with_remote_states t (s : ReadDb) : ReadDb :=
  mkReadDb (rd_db s) (rd_thread_bindings s) t (rd_aliases s) (rd_message_aliases s).

Inductive ThreadRef : Type :=
| Direct (peer : string)
| Group (group : string)
| Thread (thread : string).

(** [parse_non_empty] *)
Definition parse_non_empty (field input : string) : ImResult string :=
  let value := trim input in
  if is_empty value then Err (invalid_input (Some field) (field +:+ " must not be empty"))
  else Ok value.
Definition required (field value : string) : ImResult string := parse_non_empty field value.
Definition read_required (field value : string) : ImResult string :=
  let value := trim value in
  if is_empty value then Err (invalid_input (Some field) (field +:+ " is required"))
  else Ok value.

(** ** The stored watermark of a thread *)

Definition read_key (owner scope thread_id : string) (r : ThreadReadStateRecord) : bool :=
  bool_decide (tr_owner r = owner) && bool_decide (tr_scope r = scope)
  && bool_decide (tr_thread_id r = thread_id).

(** The row as it is bound to the statement. *)
Definition read_row (r : ThreadReadStateRecord) : ImResult ThreadReadStateRecord :=
  owner ← read_required "owner_identity_id" (tr_owner r);
  scope ← read_required "thread_scope" (tr_scope r);
  thread_id ← read_required "thread_id" (tr_thread_id r);
  updated_at ← read_required "updated_at" (tr_updated_at r);
  Ok (mkReadState owner (trim (tr_owner_did r)) scope thread_id (trim (tr_conversation_id r))
        (trimmed_nonempty (tr_watermark_message_id r)) (trimmed_nonempty (tr_watermark_seq r))
        (trimmed_nonempty (tr_watermark_at r)) (tr_pending_remote_ack r)
        (trimmed_nonempty (tr_remote_ack_at r)) (trimmed_nonempty (tr_remote_state_version r))
        updated_at).

(** [excluded] is at least as far as the stored row [cur]. *)
Definition read_newer (cur excluded : ThreadReadStateRecord) : bool :=
  match tr_watermark_seq cur, tr_watermark_seq excluded with
  | None, _ => true
  | Some _, None => false
  | Some c, Some e => sql_cast_integer c <=? sql_cast_integer e
  end.
Definition merged_seq (cur excluded : ThreadReadStateRecord) : option string :=
  match tr_watermark_seq cur, tr_watermark_seq excluded with
  | None, e => e
  | Some c, None => Some c
  | Some c, Some e => if sql_cast_integer c <? sql_cast_integer e then Some e else Some c
  end.
Definition merged_version (cur excluded : ThreadReadStateRecord) : option string :=
  match tr_remote_state_version cur, tr_remote_state_version excluded with
  | None, e => e
  | Some c, None => Some c
  | Some c, Some e =>
      if (String.length c <? String.length e)%nat
         || ((String.length e =? String.length c)%nat && str_leb c e)
      then Some e else Some c
  end.
Definition merge_read_state (cur excluded : ThreadReadStateRecord) : ThreadReadStateRecord :=
  let newer := read_newer cur excluded in
  mkReadState (tr_owner cur) (tr_owner_did excluded) (tr_scope cur) (tr_thread_id cur)
    (if is_empty (sql_trim (tr_conversation_id excluded)) then tr_conversation_id cur
     else tr_conversation_id excluded)
    (if newer then tr_watermark_message_id excluded else tr_watermark_message_id cur)
    (merged_seq cur excluded)
    (if newer then tr_watermark_at excluded else tr_watermark_at cur)
    (if newer then tr_pending_remote_ack excluded else tr_pending_remote_ack cur)
    (if newer then tr_remote_ack_at excluded else tr_remote_ack_at cur)
    (merged_version cur excluded)
    (if newer then tr_updated_at excluded else tr_updated_at cur).

(** [INSERT .. ON CONFLICT (key) DO UPDATE]. *)
Definition put_read_state (merge : ThreadReadStateRecord → ThreadReadStateRecord → ThreadReadStateRecord)
    (row : ThreadReadStateRecord) (s : ReadDb) : ReadDb :=
  let t := db_read_states (rd_db s) in
  let same := read_key (tr_owner row) (tr_scope row) (tr_thread_id row) in
  on_db (with_read_states
           (if exists_where same t then update_where same (λ cur, merge cur row) t else t ++ [row])
           (rd_db s)) s.

Definition upsert_thread_read_state (s : ReadDb) (record : ThreadReadStateRecord) : ImResult ReadDb :=
  row ← read_row record;
  Ok (put_read_state merge_read_state row s).
Definition replace_thread_read_state (s : ReadDb) (record : ThreadReadStateRecord) : ImResult ReadDb :=
  row ← read_row record;
  Ok (put_read_state (λ _ row, row) row s).
Definition get_thread_read_state (s : ReadDb) (owner scope thread_id : string)
    : ImResult (option ThreadReadStateRecord) :=
  owner ← read_required "owner_identity_id" owner;
  scope ← read_required "thread_scope" scope;
  thread_id ← read_required "thread_id" thread_id;
  Ok (head (select_where (read_key owner scope thread_id) (db_read_states (rd_db s)))).

(** ** Conversation ids *)

Definition strip_prefix (s p : string) : option string :=
  if starts_with s p then Some (String.substring (String.length p) (String.length s) s) else None.

Definition direct_conversation_id (peer : string) : string :=
  let peer := trim peer in if is_empty peer then "dm:unknown" else "dm:" +:+ peer.
Definition group_conversation_id (group : string) : string :=
  let group := trim group in if is_empty group then "group:unknown" else "group:" +:+ group.
Definition direct_conversation_id_for_peer_ref (peer : string) : string :=
  let peer := trim peer in
  direct_conversation_id (default peer (strip_prefix peer "dm:")).
Definition group_conversation_id_for_ref (group : string) : string :=
  let group := trim group in
  if starts_with group "group:" then group else group_conversation_id group.
Definition remote_group_key_from_local_thread_id (thread_id : string) : string :=
  default thread_id (strip_prefix thread_id "group:").

Definition strip_suffix (s p : string) : option string :=
  let n := (String.length s - String.length p)%nat in
  if (String.length p <=? String.length s)%nat
     && bool_decide (String.substring n (String.length p) s = p)
  then Some (String.substring 0 n s) else None.
Definition nonblank (o : option string) : option string :=
  o ≫= λ s, if is_empty (trim s) then None else Some s.

Definition direct_conversation_id_from_thread_alias (thread_id owner_did : string) : option string :=
  alias ← strip_prefix (trim thread_id) "dm:";
  let alias := trim alias in
  let owner_did := trim owner_did in
  Some (if is_empty alias then direct_conversation_id ""
        else if is_empty owner_did then direct_conversation_id alias
        else
          match nonblank (strip_prefix alias owner_did ≫= λ rest, strip_prefix rest ":") with
          | Some peer => direct_conversation_id peer
          | None =>
              match nonblank (strip_suffix alias owner_did ≫= λ rest, strip_suffix rest ":") with
              | Some peer => direct_conversation_id peer
              | None => direct_conversation_id alias
              end
          end).

(** [conversation_aliases::resolve] *)
Definition resolve_alias (s : ReadDb) (owner kind alias : string) : option string :=
  al_canonical <$> head (select_where
    (λ a, bool_decide (al_owner a = trim owner) && bool_decide (al_kind a = trim kind)
          && bool_decide (al_alias a = trim alias)) (rd_aliases s)).
Definition foreign_persona : string := "verified_foreign_persona".

Definition push_unique (l : list string) (x : string) : list string :=
  if negb (is_empty (trim x)) && negb (bool_decide (x ∈ l)) then l ++ [x] else l.

(** The look-ups in the tables of peers and contacts:
    [conversation_ids_for_direct_peer] and
    [legacy_direct_conversation_ids_for_peer_scope_thread]. *)
Class ThreadIndex := {
  direct_peer_ids : ReadDb → string → string → string → ImResult (list string);
  peer_scope_legacy_ids : ReadDb → string → string → string → ImResult (list string) }.

Section read_state.
Context `{ThreadIndex}.

Definition conversation_ids_for_thread_ref (s : ReadDb) (owner owner_did : string)
    (thread : ThreadRef) : ImResult (list string) :=
  match thread with
  | Direct peer =>
      let peer := trim peer in
      if is_empty peer then Ok []
      else ids ← direct_peer_ids s owner owner_did peer; Ok (fold_left push_unique ids [])
  | Group group =>
      let group := trim group in
      Ok (if is_empty group then [] else push_unique [] (group_conversation_id_for_ref group))
  | Thread thread =>
      let raw := trim (default thread (resolve_alias s owner foreign_persona thread)) in
      if is_empty raw then Ok []
      else
        peers ← (if starts_with raw "dm:peer-scope:" then peer_scope_legacy_ids s owner owner_did raw
                 else if starts_with raw "dm:"
                 then direct_peer_ids s owner owner_did (default raw (strip_prefix raw "dm:"))
                 else Ok []);
        Ok (fold_left push_unique
              (peers ++ option_list (direct_conversation_id_from_thread_alias raw owner_did)
               ++ (group_conversation_id_for_ref <$> option_list (strip_prefix raw "group:")))
              (push_unique [] raw))
  end.

Definition thread_read_state_key (thread : ThreadRef) : ImResult (string * string) :=
  match thread with
  | Direct peer =>
      peer ← required "thread.peer" peer;
      Ok ("direct", direct_conversation_id_for_peer_ref peer)
  | Group group =>
      group ← required "thread.group" group;
      Ok ("group", group_conversation_id_for_ref group)
  | Thread thread =>
      thread ← required "thread.thread_id" thread;
      Ok (if starts_with thread "group:" then ("group", group_conversation_id_for_ref thread)
          else if starts_with thread "dm:" then ("direct", thread)
          else ("thread", thread))
  end%string.

(** ** Watermarks *)

Definition normalize_read_watermark_seq (value : string) : ImResult string :=
  match normalize_decimal_seq value with
  | Ok seq => Ok seq
  | Err _ => Err (invalid_input (Some "read_watermark_seq"%string)
               ("read_watermark_seq must be a non-negative decimal string, got "
                +:+ debug_str value))
  end.
(** [str::parse::<i64>] of a normalized sequence. *)
Definition parse_read_watermark_seq (value : string) : ImResult Z :=
  normalized ← normalize_read_watermark_seq value;
  if decimal_value normalized <=? i64_max then Ok (decimal_value normalized)
  else Err (invalid_input (Some "read_watermark_seq"%string)
              "number too large to fit in target type").
Definition watermark_seq_gt (a b : option string) : bool :=
  match a, b with
  | Some a, Some b =>
      unwrap_or (parse_read_watermark_seq b) 0 <? unwrap_or (parse_read_watermark_seq a) 0
  | Some _, None => true
  | None, _ => false
  end.

Record EffectiveReadWatermark := mkWatermark {
  ew_message_id : option string;
  ew_seq : option string;
  ew_invalid_message_id : bool }.
Definition no_watermark : EffectiveReadWatermark := mkWatermark None None false.

Definition max_effective_read_watermark (a b : EffectiveReadWatermark) : EffectiveReadWatermark :=
  if watermark_seq_gt (ew_seq b) (ew_seq a) then b
  else if watermark_seq_gt (ew_seq a) (ew_seq b) then a
  else if ew_message_id b then b
  else a.

Definition i64_to_string (n : Z) : string :=
  if n <? 0 then "-" +:+ u64_to_string (- n) else u64_to_string n.
Definition conversation_of (m : MessageRow) : string :=
  if is_empty (mg_conversation_id m) then mg_thread_id m else mg_conversation_id m.
Definition message_in (owner : string) (conversation_ids : list string) (m : MessageRow) : bool :=
  bool_decide (mg_owner_identity_id m = owner)
  && bool_decide (mg_hydration_state m = "hydrated"%string)
  && bool_decide (conversation_of m ∈ conversation_ids).
Definition message_named (owner id : string) (m : MessageRow) : bool :=
  bool_decide (mg_owner_identity_id m = owner) && bool_decide (mg_msg_id m = id).
Definition seq_up_to (seq : string) (m : MessageRow) : bool :=
  match mg_server_seq m with Some n => n <=? sql_cast_integer seq | None => false end.

(** The message itself, or the one an alias of it stands for: the row of
    [resolve_message_identity_rows] for one id. *)
Definition resolve_message_identity (s : ReadDb) (owner id : string) : option string :=
  let messages := db_messages (rd_db s) in
  if exists_where (message_named owner id) messages then Some id
  else
    (λ alias, trim (ma_canonical alias))
    <$> head (select_where
                (λ a, bool_decide (ma_owner a = owner) && bool_decide (ma_alias a = id)
                      && exists_where (message_named owner (ma_canonical a)) messages
                      && negb (is_empty (trim (ma_canonical a)))) (rd_message_aliases s)).
Definition canonical_message_id_for_request (s : ReadDb) (owner requested_id : string) : string :=
  let id := trim requested_id in default id (resolve_message_identity s owner id).

Definition read_watermark_for_message_id (s : ReadDb) (owner : string)
    (conversation_ids : list string) (message_id : string)
    : ImResult (option EffectiveReadWatermark) :=
  message_id ← required "read_watermark_message_id" message_id;
  match conversation_ids with
  | [] => Ok None
  | _ =>
      let message_id := canonical_message_id_for_request s owner message_id in
      Ok ((λ m, mkWatermark (trimmed_nonempty (Some (mg_msg_id m)))
                  (i64_to_string <$> mg_server_seq m) false)
          <$> head (select_where
                      (λ m, message_named owner message_id m && message_in owner conversation_ids m)
                      (db_messages (rd_db s))))
  end.

(** [ORDER BY server_seq DESC, COALESCE(NULLIF(sent_at, ''), stored_at) DESC, msg_id DESC] *)
Definition sent_or_stored (m : MessageRow) : string :=
  if is_empty (mg_sent_at m) then mg_stored_at m else mg_sent_at m.
Definition latest_ge (m m' : MessageRow) : Prop :=
  default 0 (mg_server_seq m') < default 0 (mg_server_seq m) ∨
  (default 0 (mg_server_seq m') = default 0 (mg_server_seq m) ∧
   ((sent_or_stored m ≠ sent_or_stored m' ∧ str_le (sent_or_stored m') (sent_or_stored m)) ∨
    (sent_or_stored m = sent_or_stored m' ∧ str_le (mg_msg_id m') (mg_msg_id m)))).
#[export] Instance latest_ge_dec m m' : Decision (latest_ge m m').
Proof. unfold latest_ge. apply _. Defined.

Definition read_watermark_message_id_for_seq (s : ReadDb) (owner : string)
    (conversation_ids : list string) (seq : string) : ImResult (option string) :=
  seq ← normalize_read_watermark_seq seq;
  match conversation_ids with
  | [] => Ok None
  | _ =>
      Ok (head (order_limit latest_ge 1
                  (select_where (λ m, message_in owner conversation_ids m && seq_up_to seq m)
                     (db_messages (rd_db s)))) ≫= λ m, trimmed_nonempty (Some (mg_msg_id m)))
  end.

(** A mark that names a message stands where that message is; one whose message is
    not in the conversation is invalid. *)
Definition effective_read_watermark_for_thread (s : ReadDb) (owner : string)
    (conversation_ids : list string) (message_id seq : option string)
    : ImResult EffectiveReadWatermark :=
  seq ← match seq with
        | Some seq => seq ← normalize_read_watermark_seq seq; Ok (Some seq)
        | None => Ok None
        end;
  match conversation_ids, trimmed_nonempty message_id, seq with
  | [], _, _ => Ok no_watermark
  | _, Some message_id, _ =>
      found ← read_watermark_for_message_id s owner conversation_ids message_id;
      Ok (default (mkWatermark None None true) found)
  | _, None, Some seq =>
      message_id ← read_watermark_message_id_for_seq s owner conversation_ids seq;
      Ok (mkWatermark message_id (Some seq) false)
  | _, None, None => Ok no_watermark
  end.

(** ** Marking messages *)

(** [AUTHENTICATED_P5_READ_SQL] *)
Definition metadata_is_text (v : Value) (key : string) : bool :=
  match pointer v [key] with
  | Some (VString s) => negb (is_empty (sql_trim s))
  | _ => false
  end.
Definition authenticated_p5_read (m : MessageRow) : bool :=
  match mg_metadata m with
  | None => false
  | Some v =>
      match json_text (Some v) ["p5_cache_profile"%string] with
      | Some profile => bool_decide (sql_trim profile = "anp.direct.e2ee.v2"%string)
      | None => false
      end
      && forallb (metadata_is_text v)
           ["p5_cache_sender_did"; "p5_cache_sender_device_id"; "p5_cache_recipient_did";
            "p5_cache_recipient_device_id"; "p5_cache_binding_digest"; "raw_message_id"]%string
  end.

Definition set_read (m : MessageRow) : MessageRow :=
  mkMessageRow (mg_owner_identity_id m) (mg_msg_id m) (mg_conversation_id m) (mg_thread_id m)
    (mg_wire_thread_kind m) (mg_hydration_state m) (mg_owner_did m) (mg_sender_did m)
    (mg_group_did m) (mg_direction m) (mg_server_seq m) (mg_is_e2ee m) (mg_metadata m)
    (mg_sent_at m) (mg_stored_at m) 1 (mg_group_id m) (mg_content_type m) (mg_receiver_did m)
    (mg_wire_thread_ref m) (mg_wire_resolution_state m) (mg_content m) (mg_title m)
    (mg_sender_name m) (mg_mentions_current_user m) (mg_credential_name m).
Definition unread_incoming (m : MessageRow) : bool := (mg_direction m =? 0) && (mg_is_read m =? 0).
Definition mark_messages (p : MessageRow → bool) (s : ReadDb) : Z * ReadDb :=
  (Z.of_nat (count_where p (db_messages (rd_db s))),
   on_db (with_messages (update_where p set_read (db_messages (rd_db s))) (rd_db s)) s).

Definition mark_thread_messages_read_up_to_seq (s : ReadDb) (owner : string)
    (conversation_ids : list string) (seq : string) : ImResult (Z * ReadDb) :=
  seq ← normalize_read_watermark_seq seq;
  match conversation_ids with
  | [] => Ok (0, s)
  | _ => Ok (mark_messages (λ m, unread_incoming m && message_in owner conversation_ids m
                                 && negb (authenticated_p5_read m) && seq_up_to seq m) s)
  end.
Definition mark_thread_messages_read_up_to_message (s : ReadDb) (owner : string)
    (conversation_ids : list string) (message_id : string) : ImResult (Z * ReadDb) :=
  message_id ← required "read_watermark_message_id" message_id;
  match conversation_ids with
  | [] => Ok (0, s)
  | _ =>
      let message_id := canonical_message_id_for_request s owner message_id in
      match head (select_where
                    (λ m, message_named owner message_id m && message_in owner conversation_ids m
                          && bool_decide (is_Some (mg_server_seq m)))
                    (db_messages (rd_db s))) ≫= mg_server_seq with
      | Some seq => mark_thread_messages_read_up_to_seq s owner conversation_ids (i64_to_string seq)
      | None =>
          Ok (mark_messages (λ m, unread_incoming m && message_named owner message_id m
                                  && message_in owner conversation_ids m) s)
      end
  end.

(** ** Marking a thread *)

Record MarkThreadReadWatermarkInput := mkMarkInput {
  mi_thread : ThreadRef;
  mi_watermark_message_id : option string;
  mi_watermark_seq : option string;
  mi_watermark_at : option string;
  mi_pending_remote_ack : bool }.
Record MarkThreadReadWatermarkResult := mkMarkResult {
  mr_thread_scope : string;
  mr_thread_id : string;
  mr_conversation_id : string;
  mr_updated_count : Z;
  mr_previous_seq : option string;
  mr_watermark_seq : option string;
  mr_watermark_message_id : option string;
  mr_watermark_at : option string;
  mr_advanced : bool;
  mr_outbox_operation_id : option string;
  mr_remote_thread_key : option string;
  mr_remote_ack_applicable : bool }.

(** [now_text] is what [now_utc_like] returns. *)
Definition mark_thread_read_watermark_for_owner_identity (s : ReadDb) (owner owner_did : string)
    (input : MarkThreadReadWatermarkInput) (now_text : string)
    : ImResult (MarkThreadReadWatermarkResult * ReadDb) :=
  owner ← required "owner_identity_id" owner;
  let owner_did := trim owner_did in
  key ← thread_read_state_key (mi_thread input);
  let scope := key.1 in
  let thread_id := default key.2 (resolve_alias s owner foreign_persona key.2) in
  conversation_ids ← conversation_ids_for_thread_ref s owner owner_did (mi_thread input);
  let conversation_id := default ""%string (head conversation_ids) in
  current ← get_thread_read_state s owner scope thread_id;
  previous ← effective_read_watermark_for_thread s owner conversation_ids
    (current ≫= λ r, trimmed_nonempty (tr_watermark_message_id r))
    (current ≫= λ r, trimmed_nonempty (tr_watermark_seq r));
  requested ← effective_read_watermark_for_thread s owner conversation_ids
    (trimmed_nonempty (mi_watermark_message_id input))
    (trimmed_nonempty (mi_watermark_seq input));
  let effective := max_effective_read_watermark previous requested in
  let read_at := default now_text (trimmed_nonempty (mi_watermark_at input)) in
  marked ← match ew_seq effective, ew_message_id effective with
           | Some seq, _ => mark_thread_messages_read_up_to_seq s owner conversation_ids seq
           | None, Some id => mark_thread_messages_read_up_to_message s owner conversation_ids id
           | None, None => Ok (0, s)
           end;
  let record := mkReadState owner owner_did scope thread_id conversation_id
    (if ew_invalid_message_id requested then None else ew_message_id requested)
    (if ew_invalid_message_id requested then None else ew_seq requested)
    (Some read_at) (mi_pending_remote_ack input)
    (if mi_pending_remote_ack input then None else Some read_at)
    (current ≫= tr_remote_state_version) read_at in
  s' ← (if ew_invalid_message_id previous then replace_thread_read_state marked.2 record
        else upsert_thread_read_state marked.2 record);
  Ok (mkMarkResult scope thread_id conversation_id marked.1 (ew_seq previous) (ew_seq effective)
        (ew_message_id effective) (Some read_at)
        (watermark_seq_gt (ew_seq effective) (ew_seq previous)) None None true, s').
End read_state.
