(* ===== verification/ReadBind.v ===== *)
(** * Remote read states and the outbox

    The part of [local_state/sync_v2.rs] that ties local read states to the service:
    which conversation a remote thread key stands for, the read states received from
    other devices, and the queueing of local marks. *)

From Stdlib Require Import Ascii.
From S2P Require Import Prelude RustStr ImError Decimal Store SyncStore Outbox ReadState.
Local Open Scope Z_scope.

(** ** What the service is told *)

Definition read_target (owner kind conversation_id seq : string) (m : MessageRow) : bool :=
  bool_decide (mg_owner_identity_id m = owner)
  && bool_decide (conversation_of m = conversation_id)
  && bool_decide (mg_wire_thread_kind m = kind)
  && bool_decide (mg_hydration_state m = "hydrated"%string) && (mg_is_e2ee m =? 0)
  && seq_up_to seq m.
Definition server_seq_ge (m m' : MessageRow) : Prop :=
  default 0 (mg_server_seq m') ≤ default 0 (mg_server_seq m).
#[export] Instance server_seq_ge_dec m m' : Decision (server_seq_ge m m').
Proof. unfold server_seq_ge. apply _. Defined.

Definition server_seq_text (m : MessageRow) : string := i64_to_string (default 0 (mg_server_seq m)).

Definition ordinary_group_read_target (s : ReadDb) (owner conversation_id seq : string)
    : ImResult (option (string * option string)) :=
  _ ← validate_decimal "read_watermark_seq" seq;
  Ok ((λ m, (server_seq_text m, metadata_text m "raw_message_id"))
      <$> head (order_limit server_seq_ge 1
            (select_where
               (λ m, read_target owner "group" conversation_id seq m
                     && negb (bool_decide (metadata_text m "message_role"
                                           = Some "group_system_event"%string)))
               (db_messages (rd_db s))))).

(** The sequence, message and thread key of the latest plain message at or below the
    mark. *)
Definition ordinary_read_outbox_target (s : ReadDb) (owner thread_kind conversation_id seq : string)
    (message_id : option string)
    : ImResult (option (string * option string * option string)) :=
  if bool_decide (thread_kind = "group"%string) then
    target ← ordinary_group_read_target s owner conversation_id seq;
    Ok (match target with Some t => Some (t, None) | None => None end)
  else
    _ ← validate_decimal "read_watermark_seq" seq;
    Ok (Some (default (seq, message_id, None)
      ((λ m, (server_seq_text m, Some (mg_msg_id m), metadata_text m "remote_thread_key"))
       <$> head (order_limit server_seq_ge 1
             (select_where (read_target owner "direct" conversation_id seq)
                (db_messages (rd_db s))))))).

(** ** Tables *)

Definition same_remote (owner key : string) (r : string * ReadStateApplyV2) : bool :=
  bool_decide (r.1 = owner) && bool_decide (ra_remote_thread_key r.2 = key).
Definition load_remote_read_state (s : ReadDb) (owner key : string) : option ReadStateApplyV2 :=
  snd <$> head (select_where (same_remote owner key) (rd_remote_states s)).
Definition drop_remote_read_state (owner key : string) (s : ReadDb) : ReadDb :=
  with_remote_states (delete_where (same_remote owner key) (rd_remote_states s)) s.
Definition insert_remote_read_state (s : ReadDb) (owner : string) (state : ReadStateApplyV2)
    : ImResult ReadDb :=
  if negb (owner_bound (rd_db s) owner
           && bool_decide (ra_thread_kind state ∈ ["direct"; "group"]%string)) then constraint_failed
  else
    let same := same_remote owner (ra_remote_thread_key state) in
    Ok (with_remote_states
          (if exists_where same (rd_remote_states s)
           then update_where same (λ _, (owner, state)) (rd_remote_states s)
           else rd_remote_states s ++ [(owner, state)]) s).

Definition binding_by_key (owner key : string) (b : SyncThreadBinding) : bool :=
  bool_decide (tb_owner b = owner) && bool_decide (tb_remote_thread_key b = key).
Definition binding_by_conversation (owner conversation_id : string) (b : SyncThreadBinding) : bool :=
  bool_decide (tb_owner b = owner) && bool_decide (tb_conversation_id b = conversation_id).
Definition is_direct_or_group (kind : string) : bool :=
  bool_decide (kind ∈ ["direct"; "group"]%string).

Definition load_sync_thread_binding_for_conversation (s : ReadDb)
    (owner conversation_id thread_kind : string) : ImResult (option SyncThreadBinding) :=
  let conversation_id :=
    default conversation_id (resolve_alias s owner foreign_persona conversation_id) in
  _ ← validate_required "owner_identity_id" owner;
  _ ← validate_required "conversation_id" conversation_id;
  if negb (is_direct_or_group thread_kind) then
    Err (sync_error "SYNC_THREAD_KIND_INVALID" "thread_kind must be direct or group")
  else
    Ok (head (select_where
                (λ b, binding_by_conversation owner conversation_id b
                      && bool_decide (tb_thread_kind b = thread_kind))
                (rd_thread_bindings s))).

(** [acknowledge_read_outbox] and [upsert_read_outbox] on the whole database. *)
Definition acknowledge (s : ReadDb) (owner key conversation_id seq : string) (now : Z)
    : ImResult ReadDb :=
  db ← acknowledge_read_outbox (rd_db s) owner key (Some conversation_id) seq now;
  Ok (on_db db s).

Definition set_ack (pending : bool) (r : ThreadReadStateRecord) : ThreadReadStateRecord :=
  mkReadState (tr_owner r) (tr_owner_did r) (tr_scope r) (tr_thread_id r) (tr_conversation_id r)
    (tr_watermark_message_id r) (tr_watermark_seq r) (tr_watermark_at r) pending None
    (tr_remote_state_version r) (tr_updated_at r).
(** [UPDATE thread_read_state SET pending_remote_ack = ?, remote_ack_at = NULL] *)
Definition set_pending (owner conversation_id : string) (pending : bool) (s : ReadDb) : ReadDb :=
  on_db (with_read_states
           (update_where (λ r, bool_decide (tr_owner r = owner)
                               && bool_decide (tr_conversation_id r = conversation_id))
              (set_ack pending) (db_read_states (rd_db s))) (rd_db s)) s.

(** The surroundings of a statement: the clock, its text and fresh identifiers. *)
Record ReadInput := mkReadInput {
  ri_now : Z;
  ri_now_text : string;
  ri_mutation_id : string;
  ri_operation_id : string }.

Section read_bind.
Context `{ThreadIndex}.
Implicit Types (s : ReadDb).

(** ** Applying a remote read state *)

Definition read_conflict {A} (message : string) : ImResult A :=
  Err (sync_error "SYNC_READ_STATE_CONFLICT" message).
Definition binding_conflict {A} (message : string) : ImResult A :=
  Err (sync_error "SYNC_THREAD_BINDING_CONFLICT" message).

(** Whether the state is news for the thread: versions of a group thread only grow. *)
Definition remote_is_news (state : ReadStateApplyV2) (kind : string)
    (current : option ThreadReadStateRecord) : ImResult bool :=
  match (if bool_decide (kind = "direct"%string) then None
         else current ≫= tr_remote_state_version) with
  | None => Ok true
  | Some current_version =>
      order ← compare_decimal (ra_state_version state) current_version;
      match order with
      | Lt => Ok false
      | Eq =>
          order ← compare_decimal (ra_watermark_seq state)
            (default "0"%string (current ≫= tr_watermark_seq));
          match order with
          | Gt => read_conflict "equal remote read versions carry a higher conflicting watermark"
          | _ => Ok false
          end
      | Gt => Ok true
      end
  end.

Definition thread_of_binding (kind conversation_id : string) : ImResult ThreadRef :=
  if bool_decide (kind = "group"%string)
  then Group <$> parse_non_empty "group" conversation_id
  else Thread <$> parse_non_empty "thread_id" conversation_id.

Definition project_remote_read_state (input : ReadInput) s (owner owner_did : string)
    (state : ReadStateApplyV2) (kind conversation_id : string) : ImResult ReadDb :=
  if negb (bool_decide (kind = ra_thread_kind state)) then
    binding_conflict "read state thread kind conflicts with the local binding"
  else
    current ← get_thread_read_state s owner kind conversation_id;
    news ← remote_is_news state kind current;
    let key := ra_remote_thread_key state in
    let seq := ra_watermark_seq state in
    if negb news then Ok (drop_remote_read_state owner key s)
    else
      let local_seq := default "0"%string (current ≫= tr_watermark_seq) in
      order ← compare_decimal seq local_seq;
      if bool_decide (kind = "direct"%string) && bool_decide (order = Lt) then
        s1 ← acknowledge s owner key conversation_id seq (ri_now input);
        Ok (drop_remote_read_state owner key s1)
      else
        let pending := bool_decide (order = Lt) in
        thread ← thread_of_binding kind conversation_id;
        marked ← mark_thread_read_watermark_for_owner_identity s owner owner_did
          (mkMarkInput thread (ra_watermark_message_id state) (Some seq)
             (Some (ra_occurred_at state)) pending) (ri_now_text input);
        s2 ← replace_thread_read_state marked.2
          (mkReadState owner owner_did kind conversation_id conversation_id
             (match order with
              | Gt => ra_watermark_message_id state
              | _ => current ≫= tr_watermark_message_id
              end)
             (Some (match order with Gt => seq | _ => local_seq end))
             (Some (ra_occurred_at state)) pending
             (if pending then None else Some (ra_occurred_at state))
             (Some (ra_state_version state)) (ra_occurred_at state));
        s3 ← acknowledge s2 owner key conversation_id seq (ri_now input);
        Ok (drop_remote_read_state owner key s3).

(** The conversation the state is about; a group is bound to its own. *)
Definition remote_binding s (owner : string) (state : ReadStateApplyV2) : option (string * string) :=
  match head (select_where (binding_by_key owner (ra_remote_thread_key state))
                (rd_thread_bindings s)) with
  | Some b => Some (tb_thread_kind b, tb_conversation_id b)
  | None => if bool_decide (ra_thread_kind state = "group"%string)
            then Some ("group"%string, group_conversation_id (ra_remote_thread_key state))
            else None
  end.

Definition apply_remote_read_state (input : ReadInput) s (owner owner_did : string)
    (state : ReadStateApplyV2) : ImResult ReadDb :=
  _ ← validate_required "remote_thread_key" (ra_remote_thread_key state);
  _ ← validate_decimal "read_watermark_seq" (ra_watermark_seq state);
  _ ← validate_positive_decimal "state_version" (ra_state_version state);
  fresh ← match load_remote_read_state s owner (ra_remote_thread_key state) with
          | None => Ok true
          | Some current =>
              order ← compare_decimal (ra_state_version state) (ra_state_version current);
              match order with
              | Lt => Ok false
              | Eq => if bool_decide (current = state) then Ok false
                      else read_conflict "equal read state versions carry conflicting content"
              | Gt => Ok true
              end
          end;
  if negb fresh then Ok s
  else
    s1 ← insert_remote_read_state s owner state;
    match remote_binding s1 owner state with
    | None => Ok s1
    | Some (kind, conversation_id) =>
        project_remote_read_state input s1 owner owner_did state kind conversation_id
    end.

(** ** Binding a remote thread *)

Definition is_direct_binding_canonical_upgrade (current next : string * string) : bool :=
  bool_decide (current.1 = "direct"%string) && bool_decide (next.1 = "direct"%string)
  && starts_with current.2 "dm:did:" && starts_with next.2 "dm:peer-scope:v1:".

(** The statement that stores the binding, after its checks. *)
Definition store_binding s (b : SyncThreadBinding) : ImResult ReadDb :=
  let t := rd_thread_bindings s in
  let by_key := binding_by_key (tb_owner b) (tb_remote_thread_key b) in
  match head (select_where by_key t) with
  | Some current =>
      let cur := (tb_thread_kind current, tb_conversation_id current) in
      let next := (tb_thread_kind b, tb_conversation_id b) in
      if negb (bool_decide (cur = next)) && negb (is_direct_binding_canonical_upgrade cur next) then
        binding_conflict "remote thread key cannot be rebound to another canonical conversation"
      else if exists_where (λ x, binding_by_conversation (tb_owner b) (tb_conversation_id b) x
                                 && negb (by_key x)) t then constraint_failed
      else
        Ok (with_thread_bindings
              (update_where by_key
                 (λ x, mkThreadBinding (tb_owner x) (tb_remote_thread_key x) (tb_thread_kind x)
                         (tb_conversation_id b) (tb_updated_at b)) t) s)
  | None =>
      match head (select_where (binding_by_conversation (tb_owner b) (tb_conversation_id b)) t) with
      | Some previous =>
          if negb (bool_decide (tb_thread_kind previous = "direct"%string))
             || negb (bool_decide (tb_thread_kind b = "direct"%string)) then
            binding_conflict "canonical conversation cannot be rebound to another remote thread"
          else
            Ok (with_thread_bindings
                  (update_where
                     (λ x, binding_by_key (tb_owner b) (tb_remote_thread_key previous) x
                           && bool_decide (tb_conversation_id x = tb_conversation_id b)
                           && bool_decide (tb_thread_kind x = "direct"%string))
                     (λ x, mkThreadBinding (tb_owner x) (tb_remote_thread_key b) (tb_thread_kind x)
                             (tb_conversation_id x) (tb_updated_at b)) t) s)
      | None =>
          if negb (owner_bound (rd_db s) (tb_owner b)) then constraint_failed
          else Ok (with_thread_bindings (t ++ [b]) s)
      end
  end.

(** [ORDER BY updated_at DESC] *)
Definition read_updated_ge (r r' : ThreadReadStateRecord) : Prop :=
  str_le (tr_updated_at r') (tr_updated_at r).
#[export] Instance read_updated_ge_dec r r' : Decision (read_updated_ge r r').
Proof. unfold read_updated_ge. apply _. Defined.

(** A local mark that waited for the binding is queued now. *)
Definition queue_pending_mark (input : ReadInput) s (b : SyncThreadBinding) : ImResult ReadDb :=
  let owner := tb_owner b in
  match head (order_limit read_updated_ge 1
          (select_where
             (λ r, bool_decide (tr_owner r = owner)
                   && bool_decide (tr_conversation_id r = tb_conversation_id b)
                   && bool_decide (tr_scope r = tb_thread_kind b) && tr_pending_remote_ack r
                   && bool_decide (is_Some (tr_watermark_seq r))) (db_read_states (rd_db s)))) with
  | None => Ok s
  | Some r =>
      target ← ordinary_read_outbox_target s owner (tr_scope r) (tb_conversation_id b)
        (default ""%string (tr_watermark_seq r)) (tr_watermark_message_id r);
      match target with
      | Some (seq, message_id, key) =>
          queued ← upsert_read_outbox (rd_db s) owner (tr_scope r) (tr_thread_id r)
            (default (tb_remote_thread_key b) key) seq message_id (tr_watermark_at r)
            (ri_mutation_id input) (ri_operation_id input) (ri_now input);
          Ok (on_db queued.2 s)
      | None =>
          if bool_decide (tr_scope r = "group"%string)
          then Ok (set_pending owner (tb_conversation_id b) false s)
          else Ok s
      end
  end.

Definition upsert_sync_thread_binding (input : ReadInput) s (b : SyncThreadBinding)
    : ImResult ReadDb :=
  _ ← validate_required "owner_identity_id" (tb_owner b);
  _ ← validate_required "remote_thread_key" (tb_remote_thread_key b);
  _ ← validate_required "conversation_id" (tb_conversation_id b);
  if negb (is_direct_or_group (tb_thread_kind b)) then
    Err (sync_error "SYNC_INVALID_PAGE" "sync thread binding kind must be direct or group")
  else
    s1 ← store_binding s b;
    s2 ← match load_remote_read_state s1 (tb_owner b) (tb_remote_thread_key b) with
         | None => Ok s1
         | Some state =>
             match db_bindings (rd_db s1) !! tb_owner b with
             | None => Err (local_state_unavailable "Query returned no rows")
             | Some account =>
                 project_remote_read_state input s1 (tb_owner b) (ib_current_did account) state
                   (tb_thread_kind b) (tb_conversation_id b)
             end
         end;
    queue_pending_mark input s2 b.

(** ** A local mark *)

Definition thread_mutation (owner key conversation_id : string) (m : LocalMutationRecord) : bool :=
  bool_decide (lm_owner m = owner) && negb (lm_terminal m)
  && (bool_decide (lm_aggregate_id m = key)
      || json_eq (lm_payload_json m) ["thread_id"%string] conversation_id).

Definition binding_newest (b b' : SyncThreadBinding) : Prop :=
  tb_updated_at b' < tb_updated_at b ∨
  (tb_updated_at b' = tb_updated_at b ∧ str_le (tb_remote_thread_key b') (tb_remote_thread_key b)).
#[export] Instance binding_newest_dec b b' : Decision (binding_newest b b').
Proof. unfold binding_newest. apply _. Defined.

Definition remote_key_of s (owner : string) (result : MarkThreadReadWatermarkResult) : option string :=
  match head (order_limit binding_newest 1
          (select_where (binding_by_conversation owner (mr_conversation_id result))
             (rd_thread_bindings s))) with
  | Some b => Some (tb_remote_thread_key b)
  | None => if bool_decide (mr_thread_scope result = "group"%string)
            then Some (remote_group_key_from_local_thread_id (mr_thread_id result)) else None
  end.
Definition with_remote (key operation : option string) (applicable : bool)
    (r : MarkThreadReadWatermarkResult) : MarkThreadReadWatermarkResult :=
  mkMarkResult (mr_thread_scope r) (mr_thread_id r) (mr_conversation_id r) (mr_updated_count r)
    (mr_previous_seq r) (mr_watermark_seq r) (mr_watermark_message_id r) (mr_watermark_at r)
    (mr_advanced r) operation key applicable.

(** The mark waits for the service's acknowledgement. *)
Definition queue_mark (input : ReadInput) s (owner key seq : string)
    (result : MarkThreadReadWatermarkResult) : ImResult (MarkThreadReadWatermarkResult * ReadDb) :=
  target ← ordinary_read_outbox_target s owner (mr_thread_scope result) (mr_conversation_id result)
    seq (mr_watermark_message_id result);
  match target with
  | None =>
      if bool_decide (mr_thread_scope result = "group"%string)
      then Ok (with_remote (Some key) None false result,
               set_pending owner (mr_conversation_id result) false s)
      else outbox_corrupt "ordinary Direct read watermark has no remote target"
  | Some (remote_seq, message_id, target_key) =>
      let key := default key target_key in
      queued ← upsert_read_outbox (rd_db s) owner (mr_thread_scope result) (mr_thread_id result) key
        remote_seq message_id (mr_watermark_at result) (ri_mutation_id input)
        (ri_operation_id input) (ri_now input);
      Ok (with_remote (Some key) (Some queued.1) true result, on_db queued.2 s)
  end.

(** The service has acknowledged the mark. *)
Definition settle_mark (input : ReadInput) s (owner key seq : string)
    (result : MarkThreadReadWatermarkResult) : ImResult ReadDb :=
  s1 ← acknowledge s owner key (mr_conversation_id result) seq (ri_now input);
  Ok (if exists_where (thread_mutation owner key (mr_conversation_id result)) (db_outbox (rd_db s1))
      then set_pending owner (mr_conversation_id result) true s1 else s1).

Definition mark_thread_read_and_update_outbox (input : ReadInput) s (owner owner_did : string)
    (mark : MarkThreadReadWatermarkInput) : ImResult (MarkThreadReadWatermarkResult * ReadDb) :=
  marked ← mark_thread_read_watermark_for_owner_identity s owner owner_did mark (ri_now_text input);
  let '(result, s1) := marked in
  match mr_watermark_seq result with
  | None => Ok (result, s1)
  | Some seq =>
      let key := remote_key_of s1 owner result in
      let result := with_remote key None true result in
      match load_identity_account_binding (rd_db s1) owner, key with
      | Some _, Some key =>
          if mi_pending_remote_ack mark then queue_mark input s1 owner key seq result
          else
            s2 ← settle_mark input s1 owner key (default seq (mi_watermark_seq mark)) result;
            Ok (result, s2)
      | _, _ => Ok (result, s1)
      end
  end.
End read_bind.
