(* ===== verification/ReadProps.v ===== *)
(** * Properties of the read state *)

From Stdlib Require Import Ascii.
From S2P Require Import Prelude RustStr ImError Decimal Store SyncStore Outbox ReadState ReadBind.
Local Open Scope Z_scope.

(** ** Finding rows *)

Section heads.
Context {A : Type} (p q : A → bool) (f : A → A) (t : list A).

Lemma head_update_same :
  (∀ x, p x = true → p (f x) = true) →
  head (select_where p (update_where p f t)) = f <$> head (select_where p t).
Proof.
  intros Hf. unfold select_where, update_where. induction t as [|x l IH]; [done|].
  rewrite fmap_cons, !filter_cons. destruct (p x) eqn:E.
  - by rewrite !decide_True by auto.
  - rewrite decide_False by congruence. rewrite decide_False by congruence. done.
Qed.
Lemma head_update_other :
  (∀ x, q x = true → p x = false ∧ p (f x) = false) →
  head (select_where p (update_where q f t)) = head (select_where p t).
Proof.
  intros Hf. unfold select_where, update_where. induction t as [|x l IH]; [done|].
  rewrite fmap_cons, !filter_cons. destruct (q x) eqn:E.
  - destruct (Hf x E) as [-> ->]. done.
  - by case_decide.
Qed.
Lemma head_app_new x :
  head (select_where p (t ++ [x])) =
  match head (select_where p t) with Some y => Some y | None => if p x then Some x else None end.
Proof.
  unfold select_where. rewrite filter_app. destruct (filter _ t) as [|y l]; [|done]. simpl.
  rewrite filter_cons. destruct (p x); by case_decide.
Qed.
Lemma head_select_None : exists_where p t = false → head (select_where p t) = None.
Proof.
  intros Hn. destruct (head _) as [x|] eqn:E; [|done].
  apply head_Some_elem_of, elem_of_select_where in E as [Hx Hp].
  by rewrite (proj1 (exists_where_false _ _) Hn x Hx) in Hp.
Qed.
Lemma head_select_Some : exists_where p t = true → ∃ x, head (select_where p t) = Some x.
Proof.
  intros (x & Hx & Hp)%exists_where_true.
  assert (x ∈ select_where p t) as Hin by by apply elem_of_select_where.
  destruct (select_where p t) as [|y l]; [by apply elem_of_nil in Hin|]. by exists y.
Qed.
End heads.

(** ** The stored watermark *)

Definition find_read (s : ReadDb) (owner scope thread_id : string) : option ThreadReadStateRecord :=
  head (select_where (read_key owner scope thread_id) (db_read_states (rd_db s))).

(** How far a row stands, as SQL compares it. *)
Definition reach (r : option ThreadReadStateRecord) : option Z :=
  sql_cast_integer <$> (r ≫= tr_watermark_seq).
Definition reach_le (a b : option Z) : Prop :=
  match a with None => True | Some x => ∃ y, b = Some y ∧ x ≤ y end.
#[export] Instance reach_le_refl : Reflexive reach_le.
Proof. intros [x|]; [by exists x|done]. Qed.
#[export] Instance reach_le_trans : Transitive reach_le.
Proof.
  intros [x|] [y|] [z|]; simpl; try done; try naive_solver.
  intros (? & [= <-] & ?) (? & [= <-] & ?). exists z. split; [done|lia].
Qed.

Lemma read_key_true o sc t r :
  read_key o sc t r = true ↔ tr_owner r = o ∧ tr_scope r = sc ∧ tr_thread_id r = t.
Proof. unfold read_key. rewrite !andb_true_iff, !bool_decide_eq_true. tauto. Qed.
Lemma read_key_self r : read_key (tr_owner r) (tr_scope r) (tr_thread_id r) r = true.
Proof. by apply read_key_true. Qed.

Lemma put_read_same merge row s :
  (∀ cur, read_key (tr_owner row) (tr_scope row) (tr_thread_id row) cur = true →
          read_key (tr_owner row) (tr_scope row) (tr_thread_id row) (merge cur row) = true) →
  find_read (put_read_state merge row s) (tr_owner row) (tr_scope row) (tr_thread_id row)
  = Some match find_read s (tr_owner row) (tr_scope row) (tr_thread_id row) with
         | Some cur => merge cur row
         | None => row
         end.
Proof.
  intros Hm. unfold find_read, put_read_state. simpl. destruct (exists_where _ _) eqn:E.
  - rewrite head_update_same by done. destruct (head_select_Some _ _ E) as [x ->]. done.
  - rewrite head_app_new, (head_select_None _ _ E), read_key_self. done.
Qed.
Lemma put_read_other merge row s o sc t :
  (∀ cur, read_key (tr_owner row) (tr_scope row) (tr_thread_id row) cur = true →
          read_key (tr_owner row) (tr_scope row) (tr_thread_id row) (merge cur row) = true) →
  (o, sc, t) ≠ (tr_owner row, tr_scope row, tr_thread_id row) →
  find_read (put_read_state merge row s) o sc t = find_read s o sc t.
Proof.
  intros Hm Hne. unfold find_read, put_read_state. simpl.
  assert (∀ x, read_key (tr_owner row) (tr_scope row) (tr_thread_id row) x = true →
               read_key o sc t x = false) as Hx.
  { intros x Hx. apply not_true_iff_false. rewrite read_key_true in *.
    intros (? & ? & ?). destruct Hx as (? & ? & ?). apply Hne. congruence. }
  destruct (exists_where _ _).
  - apply head_update_other. auto.
  - rewrite head_app_new, (Hx row (read_key_self row)). by destruct (head _).
Qed.

Lemma merge_key cur row o sc t : read_key o sc t cur = true → read_key o sc t (merge_read_state cur row) = true.
Proof. done. Qed.

Lemma merge_reach cur row :
  reach_le (reach (Some cur)) (reach (Some (merge_read_state cur row))) ∧
  reach_le (reach (Some row)) (reach (Some (merge_read_state cur row))).
Proof.
  unfold reach, merge_read_state, merged_seq. simpl.
  destruct (tr_watermark_seq cur) as [c|], (tr_watermark_seq row) as [e|]; simpl; try done.
  - destruct (_ <? _) eqn:E; simpl; split; eexists; (split; [done|lia]).
  - split; [by eexists|done].
  - split; [done|by eexists].
Qed.

(** ** Marking messages *)

(** Only read flags were set. *)
Definition only_marks (s s' : ReadDb) : Prop :=
  ∃ p : MessageRow → bool,
    s' = on_db (with_messages (update_where p set_read (db_messages (rd_db s))) (rd_db s)) s.

Lemma only_marks_id s : only_marks s s.
Proof. exists (λ _, false). rewrite update_where_false. by destruct s as [[]]. Qed.
Lemma mark_messages_only p s : only_marks s (mark_messages p s).2.
Proof. by exists p. Qed.

Lemma only_marks_reads s s' o sc t : only_marks s s' → find_read s' o sc t = find_read s o sc t.
Proof. by intros [p ->]. Qed.

Lemma mark_up_to_seq_marks s o ids seq n s' :
  mark_thread_messages_read_up_to_seq s o ids seq = Ok (n, s') → only_marks s s'.
Proof.
  unfold mark_thread_messages_read_up_to_seq. intros Hm. apply bind_Ok in Hm as (q & _ & Hm).
  destruct ids; [injection Hm as _ <-; apply only_marks_id|].
  unfold mark_messages in Hm. injection Hm as _ <-. by eexists.
Qed.
Lemma mark_up_to_message_marks s o ids id n s' :
  mark_thread_messages_read_up_to_message s o ids id = Ok (n, s') → only_marks s s'.
Proof.
  unfold mark_thread_messages_read_up_to_message. intros Hm. apply bind_Ok in Hm as (q & _ & Hm).
  destruct ids; [injection Hm as _ <-; apply only_marks_id|].
  destruct (head _ ≫= _); [by eapply mark_up_to_seq_marks|].
  unfold mark_messages in Hm. injection Hm as _ <-. by eexists.
Qed.

(** The messages a mark at [seq] turns read. *)
Definition newly_read (owner : string) (ids : list string) (seq : string) (m : MessageRow) : bool :=
  unread_incoming m && message_in owner ids m && negb (authenticated_p5_read m) && seq_up_to seq m.
Lemma mark_up_to_seq_exact s o ids seq n s' :
  mark_thread_messages_read_up_to_seq s o ids seq = Ok (n, s') →
  ∃ q, normalize_read_watermark_seq seq = Ok q ∧
    n = Z.of_nat (count_where (newly_read o ids q) (db_messages (rd_db s))) ∧
    db_messages (rd_db s') = update_where (newly_read o ids q) set_read (db_messages (rd_db s)).
Proof.
  unfold mark_thread_messages_read_up_to_seq. intros Hm. apply bind_Ok in Hm as (q & Hq & Hm).
  exists q. split; [done|]. destruct ids; [|by injection Hm as <- <-]. injection Hm as <- <-.
  assert (∀ m, newly_read o [] q m = false) as Hf.
  { intros m. unfold newly_read, message_in. rewrite (bool_decide_eq_false_2 (_ ∈ [])) by apply not_elem_of_nil.
    by rewrite !andb_false_r. }
  split.
  - unfold count_where. enough (select_where (newly_read o [] q) (db_messages (rd_db s)) = []) as ->; [done|].
    apply elem_of_nil_inv. intros m [_ Hm]%elem_of_select_where. by rewrite Hf in Hm.
  - unfold update_where. induction (db_messages (rd_db s)) as [|m l IH]; [done|]. cbn.
    rewrite Hf. by rewrite <- IH.
Qed.

(** ** Marking a thread *)

Section marks.
Context `{ThreadIndex}.

(** A stored watermark whose message is absent from the conversation is not
    trusted. *)
Definition watermark_trusted (s : ReadDb) (owner : string) (ids : list string)
    (r : option ThreadReadStateRecord) : Prop :=
  ∀ id, (r ≫= λ r, trimmed_nonempty (tr_watermark_message_id r)) = Some id → ids ≠ [] →
    ∃ w, read_watermark_for_message_id s owner ids id = Ok (Some w).

Lemma trimmed_nonempty_idem o : trimmed_nonempty (trimmed_nonempty o) = trimmed_nonempty o.
Proof.
  unfold trimmed_nonempty. destruct o as [x|]; [|done]. simpl.
  destruct (is_empty (trim x)) eqn:E; [done|]. simpl. by rewrite trim_idem, E.
Qed.

Lemma trusted_valid s o ids r w :
  watermark_trusted s o ids r →
  effective_read_watermark_for_thread s o ids
    (r ≫= λ r, trimmed_nonempty (tr_watermark_message_id r))
    (r ≫= λ r, trimmed_nonempty (tr_watermark_seq r)) = Ok w →
  ew_invalid_message_id w = false.
Proof.
  intros Ht He. unfold effective_read_watermark_for_thread in He.
  apply bind_Ok in He as (q & _ & He). unfold watermark_trusted in Ht.
  destruct ids as [|i ids]; [by injection He as <-|].
  assert (∀ o, trimmed_nonempty (o ≫= λ r, trimmed_nonempty (tr_watermark_message_id r))
               = o ≫= λ r, trimmed_nonempty (tr_watermark_message_id r)) as Eid.
  { intros [x|]; simpl; [apply trimmed_nonempty_idem|done]. }
  rewrite Eid in He. destruct (r ≫= _) as [id|] in He, Ht; [|destruct q; res_inv; done].
  destruct (Ht id eq_refl) as [w' Hw]; [done|]. rewrite Hw in He. simpl in He. injection He as <-.
  unfold read_watermark_for_message_id in Hw. apply bind_Ok in Hw as (? & _ & Hw).
  injection Hw as Hw. destruct (head _); [|done]. by injection Hw as <-.
Qed.

Record mark_steps (s : ReadDb) (owner owner_did : string) (input : MarkThreadReadWatermarkInput)
    (ids : list string) (previous requested : EffectiveReadWatermark) (s1 : ReadDb)
    (row : ThreadReadStateRecord) (res : MarkThreadReadWatermarkResult) : Prop := {
  mk_ids : conversation_ids_for_thread_ref s (trim owner) (trim owner_did) (mi_thread input) = Ok ids;
  mk_previous : let cur := find_read s (trim owner) (mr_thread_scope res) (trim (mr_thread_id res)) in
    effective_read_watermark_for_thread s (trim owner) ids
      (cur ≫= λ r, trimmed_nonempty (tr_watermark_message_id r))
      (cur ≫= λ r, trimmed_nonempty (tr_watermark_seq r)) = Ok previous;
  mk_requested : effective_read_watermark_for_thread s (trim owner) ids
    (trimmed_nonempty (mi_watermark_message_id input)) (trimmed_nonempty (mi_watermark_seq input))
    = Ok requested;
  mk_marks : only_marks s s1;
  mk_key : (tr_owner row, tr_scope row, tr_thread_id row)
           = (trim owner, mr_thread_scope res, trim (mr_thread_id res));
  mk_seq : tr_watermark_seq row
           = trimmed_nonempty (if ew_invalid_message_id requested then None else ew_seq requested);
  mk_pending : tr_pending_remote_ack row = mi_pending_remote_ack input;
  mk_result : mr_watermark_seq res = ew_seq (max_effective_read_watermark previous requested);
  mk_messages : ∀ seq, mr_watermark_seq res = Some seq →
    ∃ q, normalize_read_watermark_seq seq = Ok q ∧
      mr_updated_count res
      = Z.of_nat (count_where (newly_read (trim owner) ids q) (db_messages (rd_db s))) ∧
      db_messages (rd_db s1)
      = update_where (newly_read (trim owner) ids q) set_read (db_messages (rd_db s)) }.

Lemma read_row_inv r row :
  read_row r = Ok row →
  tr_owner row = trim (tr_owner r) ∧ tr_scope row = trim (tr_scope r) ∧
  tr_thread_id row = trim (tr_thread_id r) ∧
  tr_watermark_seq row = trimmed_nonempty (tr_watermark_seq r) ∧
  tr_watermark_message_id row = trimmed_nonempty (tr_watermark_message_id r) ∧
  tr_pending_remote_ack row = tr_pending_remote_ack r ∧
  tr_remote_state_version row = trimmed_nonempty (tr_remote_state_version r).
Proof. unfold read_row, read_required. intros Hr. res_inv. done. Qed.

Lemma thread_key_scope thread key :
  thread_read_state_key thread = Ok key → trim key.1 = key.1.
Proof.
  destruct thread; simpl; intros Hk; apply bind_Ok in Hk as (x & _ & Hk); injection Hk as <-.
  - done.
  - done.
  - destruct (starts_with x "group:"); [done|]. by destruct (starts_with x "dm:").
Qed.

Lemma mark_inv s owner owner_did input now_text res s' :
  mark_thread_read_watermark_for_owner_identity s owner owner_did input now_text = Ok (res, s') →
  ∃ ids previous requested s1 row,
    mark_steps s owner owner_did input ids previous requested s1 row res ∧
    s' = put_read_state (if ew_invalid_message_id previous then λ _ row, row
                         else merge_read_state) row s1.
Proof.
  unfold mark_thread_read_watermark_for_owner_identity. intros Hm.
  apply bind_Ok in Hm as (o & Ho & Hm). unfold required, parse_non_empty in Ho.
  destruct (is_empty _) eqn:Eo in Ho; [done|]. injection Ho as <-.
  apply bind_Ok in Hm as (key & Hkey & Hm). apply bind_Ok in Hm as (ids & Hids & Hm).
  set (tid := default key.2 (resolve_alias s (trim owner) foreign_persona key.2)) in Hm.
  apply bind_Ok in Hm as (current & Hcur & Hm).
  apply bind_Ok in Hm as (previous & Hprev & Hm). apply bind_Ok in Hm as (requested & Hreq & Hm).
  apply bind_Ok in Hm as ([n s1] & Hmark & Hm). apply bind_Ok in Hm as (s2 & Hput & Hm).
  injection Hm as <- <-. cbn [fst snd] in Hput.
  assert (current = find_read s (trim owner) key.1 (trim tid)) as ->.
  { unfold get_thread_read_state, read_required in Hcur. res_inv.
    rewrite trim_idem, (thread_key_scope _ _ Hkey). done. }
  assert (only_marks s s1) as Hom.
  { destruct (ew_seq _); [by eapply mark_up_to_seq_marks|].
    destruct (ew_message_id _); [by eapply mark_up_to_message_marks|].
    injection Hmark as _ <-. apply only_marks_id. }
  set (record := mkReadState _ _ _ _ _ _ _ _ _ _ _ _) in Hput.
  assert (∃ row, read_row record = Ok row ∧
    s2 = put_read_state (if ew_invalid_message_id previous then λ _ row, row
                         else merge_read_state) row s1) as (row & Hrow & ->).
  { destruct (ew_invalid_message_id previous); apply bind_Ok in Hput as (row & Hrow & Hput);
      injection Hput as <-; by exists row. }
  apply read_row_inv in Hrow as (E1 & E2 & E3 & E4 & _ & E6 & _). simpl in *.
  rewrite trim_idem in E1. rewrite (thread_key_scope _ _ Hkey) in E2.
  eexists ids, previous, requested, s1, row. split; [|done].
  split; simpl; try done; [congruence|].
  intros seq Eseq. rewrite Eseq in Hmark. by apply mark_up_to_seq_exact in Hmark.
Qed.

(** ** Remote states *)

Definition read_value (s : ReadDb) (owner kind conversation_id : string) : Z :=
  decimal_value (default "0"%string
    (find_read s (trim owner) (trim kind) (trim conversation_id) ≫= tr_watermark_seq)).

Lemma get_read_inv s o k c r :
  get_thread_read_state s o k c = Ok r → r = find_read s (trim o) (trim k) (trim c).
Proof. unfold get_thread_read_state, read_required. intros Hg. by res_inv. Qed.

Lemma trimmed_canonical x : canonical x → trimmed_nonempty (Some x) = Some x.
Proof.
  intros Hx. unfold trimmed_nonempty. simpl. rewrite (canonical_trimmed x Hx).
  apply canonical_nonempty in Hx. unfold is_empty. destruct x; simpl in *; [lia|done].
Qed.

Lemma canonical_pos x : canonical x → x ≠ "0"%string → 0 < decimal_value x.
Proof.
  intros Hx Hz. pose proof (canonical_value_ge x Hx Hz). pose proof (canonical_nonempty x Hx).
  eapply Z.lt_le_trans; [|done]. apply Z.pow_pos_nonneg; lia.
Qed.

Lemma replace_read s r s' :
  replace_thread_read_state s r = Ok s' →
  ∃ row, read_row r = Ok row ∧
    s' = put_read_state (λ _ row, row) row s ∧
    find_read s' (trim (tr_owner r)) (trim (tr_scope r)) (trim (tr_thread_id r)) = Some row.
Proof.
  unfold replace_thread_read_state. intros Hr. apply bind_Ok in Hr as (row & Hrow & Hr).
  injection Hr as <-. exists row. split_and!; [done|done|].
  destruct (read_row_inv _ _ Hrow) as (<- & <- & <- & _).
  rewrite put_read_same by (intros; apply read_key_self). by destruct (find_read s _ _ _).
Qed.

Lemma find_read_db s s' o k c :
  db_read_states (rd_db s') = db_read_states (rd_db s) → find_read s' o k c = find_read s o k c.
Proof. unfold find_read. by intros ->. Qed.

Lemma acknowledge_reads s o key c seq now s' :
  outbox_wf (db_outbox (rd_db s)) →
  acknowledge s o key c seq now = Ok s' →
  s' = on_db (update_outbox (λ m, ack_candidate o key (Some c) m && at_or_below seq m)
                (commit now) (rd_db s)) s.
Proof.
  unfold acknowledge. intros Hwf Ha. apply bind_Ok in Ha as (db & Hdb & Ha). injection Ha as <-.
  by apply acknowledge_inv in Hdb as ->.
Qed.

Lemma remote_is_news_inv state kind cur b :
  remote_is_news state kind cur = Ok b →
  if b then kind = "direct"%string ∨
            ∀ v, cur ≫= tr_remote_state_version = Some v →
                 decimal_value v < decimal_value (ra_state_version state)
  else kind ≠ "direct"%string ∧ ∃ v, cur ≫= tr_remote_state_version = Some v ∧
    (decimal_value (ra_state_version state) < decimal_value v ∨
     decimal_value (ra_state_version state) = decimal_value v ∧
     decimal_value (ra_watermark_seq state)
     ≤ decimal_value (default "0"%string (cur ≫= tr_watermark_seq))).
Proof.
  unfold remote_is_news, read_conflict. intros Hn.
  case_bool_decide as Hd; [injection Hn as <-; by left|].
  destruct (cur ≫= tr_remote_state_version) as [v|] eqn:Ev; [|injection Hn as <-; by right].
  apply bind_Ok in Hn as (c & Hc & Hn). apply compare_decimal_Ok_inv in Hc as (_ & _ & ->).
  destruct (_ ?= _) eqn:Ec.
  - apply bind_Ok in Hn as (c & Hc & Hn). apply compare_decimal_Ok_inv in Hc as (_ & _ & ->).
    destruct (_ ?= decimal_value (default _ _)) eqn:Ew; [| |done]; injection Hn as <-;
      (split; [done|]); exists v; (split; [done|]); right; (split; [by apply Z.compare_eq_iff|]);
      [rewrite Z.compare_eq_iff in Ew; by rewrite <- Ew|rewrite Z.compare_lt_iff in Ew; by apply Z.lt_le_incl].
  - injection Hn as <-. split; [done|]. exists v. split; [done|]. left. by apply Z.compare_lt_iff.
  - injection Hn as <-. right. intros ? [= <-]. by apply Z.compare_gt_iff.
Qed.

Lemma mark_outbox s owner did input now_text res s' :
  mark_thread_read_watermark_for_owner_identity s owner did input now_text = Ok (res, s') →
  db_outbox (rd_db s') = db_outbox (rd_db s) ∧ rd_thread_bindings s' = rd_thread_bindings s ∧
  rd_remote_states s' = rd_remote_states s ∧ db_bindings (rd_db s') = db_bindings (rd_db s).
Proof.
  intros (ids & previous & req & s1 & row & M & ->)%mark_inv.
  by destruct (mk_marks _ _ _ _ _ _ _ _ _ _ M) as [p ->].
Qed.

Lemma drop_remote_gone o key s : load_remote_read_state (drop_remote_read_state o key s) o key = None.
Proof.
  unfold load_remote_read_state, drop_remote_read_state. simpl.
  rewrite head_select_None; [done|]. apply exists_where_false.
  intros x [_ Hx]%elem_of_delete_where. done.
Qed.

(** What a projected state leaves behind. *)
Record projected (now : Z) (s s' : ReadDb) (owner : string) (state : ReadStateApplyV2)
    (kind conv : string) : Prop := {
  pj_outbox : db_outbox (rd_db s')
    = update_where (λ m, ack_candidate owner (ra_remote_thread_key state) (Some conv) m
                         && at_or_below (ra_watermark_seq state) m)
        (commit now) (db_outbox (rd_db s));
  pj_value : read_value s' owner kind conv
    = Z.max (read_value s owner kind conv) (decimal_value (ra_watermark_seq state));
  pj_row : let ahead := decimal_value (ra_watermark_seq state) <? read_value s owner kind conv in
    let stored s := find_read s (trim owner) (trim kind) (trim conv) in
    if bool_decide (kind = "direct"%string) && ahead then stored s' = stored s
    else ∃ row, stored s' = Some row ∧ tr_pending_remote_ack row = ahead ∧
           tr_remote_state_version row = Some (ra_state_version state) }.

Lemma project_inv input s owner did state kind conv s' :
  outbox_wf (db_outbox (rd_db s)) → canonical (ra_state_version state) →
  project_remote_read_state input s owner did state kind conv = Ok s' →
  kind = ra_thread_kind state ∧
  load_remote_read_state s' owner (ra_remote_thread_key state) = None ∧
  ∃ news, remote_is_news state kind (find_read s (trim owner) (trim kind) (trim conv)) = Ok news ∧
    if news then projected (ri_now input) s s' owner state kind conv
    else s' = drop_remote_read_state owner (ra_remote_thread_key state) s.
Proof.
  intros Hwf Hver Hp. unfold project_remote_read_state, binding_conflict in Hp.
  case_bool_decide as Hk; [|done]. simpl in Hp.
  apply bind_Ok in Hp as (cur & Hcur & Hp). apply get_read_inv in Hcur as ->.
  apply bind_Ok in Hp as (news & Hnews & Hp). split; [done|].
  destruct news; simpl in Hp; [|injection Hp as <-; split; [apply drop_remote_gone|by exists false]].
  apply bind_Ok in Hp as (order & Ho & Hp). apply compare_decimal_Ok_inv in Ho as (Hs & Hl & Ho).
  assert ((if bool_decide (order = Lt) then true else false)
          = (decimal_value (ra_watermark_seq state) <? read_value s owner kind conv)) as Eahead.
  { rewrite Ho. unfold Z.ltb. fold (read_value s owner kind conv).
    by destruct (decimal_value (ra_watermark_seq state) ?= read_value s owner kind conv). }
  destruct (bool_decide (kind = "direct"%string) && bool_decide (order = Lt)) eqn:Ec.
  - apply bind_Ok in Hp as (s1 & Ha & Hp). injection Hp as <-. split; [apply drop_remote_gone|].
    exists true. split; [done|]. apply acknowledge_reads in Ha as ->; [|done].
    apply andb_true_iff in Ec as [Ed El]. rewrite El in Eahead. split; simpl; [done| |].
    + symmetry. apply Z.max_l, Z.lt_le_incl, Z.ltb_lt. done.
    + by rewrite <- Eahead, Ed.
  - apply bind_Ok in Hp as (th & _ & Hp). apply bind_Ok in Hp as ([res s1] & Hm & Hp).
    apply bind_Ok in Hp as (s2 & Hr & Hp). apply bind_Ok in Hp as (s3 & Ha & Hp). injection Hp as <-.
    split; [apply drop_remote_gone|]. exists true. split; [done|].
    apply mark_outbox in Hm as (Eo & _). apply replace_read in Hr as (row & Hrow & -> & Hf).
    apply acknowledge_reads in Ha as ->; [|simpl; by rewrite Eo]. simpl in Hf.
    apply read_row_inv in Hrow as (_ & _ & _ & Eseq & _ & Epend & Ever). cbn [tr_watermark_seq tr_pending_remote_ack tr_remote_state_version] in Eseq, Epend, Ever.
    match goal with |- projected _ _ ?x _ _ _ _ => set (s4 := x) end.
    assert (find_read s4 (trim owner) (trim kind) (trim conv) = Some row) as Hf4 by exact Hf.
    assert (decimal_value (default "0"%string (tr_watermark_seq row))
            = Z.max (read_value s owner kind conv) (decimal_value (ra_watermark_seq state))) as Ev.
    { rewrite Eseq. unfold read_value. symmetry in Ho. destruct order; rewrite trimmed_canonical by done; simpl.
      - apply Z.compare_eq in Ho. rewrite Ho. by rewrite Z.max_id.
      - rewrite Z.compare_lt_iff in Ho. rewrite Z.max_l by lia. done.
      - rewrite Z.compare_gt_iff in Ho. rewrite Z.max_r by lia. done. }
    assert (bool_decide (order = Lt)
            = (decimal_value (ra_watermark_seq state) <? read_value s owner kind conv)) as Eb.
    { rewrite <- Eahead. by destruct (bool_decide (order = Lt)). }
    split; cbn [db_outbox rd_db].
    + unfold s4. simpl. by rewrite Eo.
    + unfold read_value at 1. rewrite Hf4. exact Ev.
    + cbn zeta. rewrite <- Eb, Ec. exists row. split_and!; [done|exact Epend|].
      by rewrite Ever, trimmed_canonical.
Qed.

Lemma insert_remote_inv s owner state s' :
  insert_remote_read_state s owner state = Ok s' →
  rd_db s' = rd_db s ∧ rd_thread_bindings s' = rd_thread_bindings s ∧
  rd_aliases s' = rd_aliases s ∧ rd_message_aliases s' = rd_message_aliases s ∧
  load_remote_read_state s' owner (ra_remote_thread_key state) = Some state.
Proof.
  unfold insert_remote_read_state, constraint_failed. intros Hi. destruct (negb _); [done|].
  injection Hi as <-. split_and!; try done. unfold load_remote_read_state. simpl.
  assert (same_remote owner (ra_remote_thread_key state) (owner, state) = true) as Hs.
  { unfold same_remote. simpl. by rewrite !bool_decide_true. }
  destruct (exists_where _ _) eqn:E.
  - rewrite head_update_same by done. by destruct (head_select_Some _ _ E) as [x ->].
  - by rewrite head_app_new, (head_select_None _ _ E), Hs.
Qed.

(** The state is older than the one kept for the remote thread, or the same. *)
Definition not_newer (s : ReadDb) (owner : string) (state : ReadStateApplyV2) : bool :=
  match load_remote_read_state s owner (ra_remote_thread_key state) with
  | Some cur => decimal_value (ra_state_version state) <=? decimal_value (ra_state_version cur)
  | None => false
  end.

Lemma apply_inv input s owner did state s' :
  apply_remote_read_state input s owner did state = Ok s' →
  canonical (ra_state_version state) ∧ 0 < decimal_value (ra_state_version state) ∧
  if not_newer s owner state then s' = s
  else ∃ s1, insert_remote_read_state s owner state = Ok s1 ∧
    match remote_binding s owner state with
    | None => s' = s1
    | Some (kind, conv) => project_remote_read_state input s1 owner did state kind conv = Ok s'
    end.
Proof.
  unfold apply_remote_read_state, not_newer, read_conflict. intros Ha.
  apply bind_Ok in Ha as (? & _ & Ha). apply bind_Ok in Ha as (? & _ & Ha).
  apply bind_Ok in Ha as ([] & Hv & Ha). apply validate_positive_decimal_Ok in Hv as [Hv Hz].
  split; [done|]. split; [by apply canonical_pos|]. apply bind_Ok in Ha as (fresh & Hf & Ha).
  set (load := load_remote_read_state _ _ _) in *.
  assert (fresh = negb match load with Some cur => decimal_value (ra_state_version state)
            <=? decimal_value (ra_state_version cur) | None => false end) as ->.
  { destruct load as [cur|]; [|by injection Hf as <-]. apply bind_Ok in Hf as (c & Hc & Hf).
    apply compare_decimal_Ok_inv in Hc as (_ & _ & ->). unfold Z.leb.
    destruct (_ ?= _); [case_bool_decide; [|done]|..]; by injection Hf as <-. }
  destruct (match load with Some _ => _ | None => _ end); simpl in Ha; [by injection Ha as <-|].
  apply bind_Ok in Ha as (s1 & Hi & Ha). exists s1. split; [done|].
  apply insert_remote_inv in Hi as (_ & Eb & _).
  assert (remote_binding s1 owner state = remote_binding s owner state) as E.
  { unfold remote_binding. by rewrite Eb. }
  rewrite E in Ha. destruct (remote_binding s owner state) as [[]|]; [done|]. by injection Ha as <-.
Qed.
End marks.

(** ** Bindings of remote threads *)

Lemma nodup_rekey {A K} (g : A → K) (p : A → bool) (f : A → A) k0 k1 t :
  (∀ x, x ∈ t → p x = true → g x = k0) → (∀ x, x ∈ t → p x = true → g (f x) = k1) →
  (∀ x, x ∈ t → p x = false → g x ≠ k1) →
  NoDup (g <$> t) → NoDup (g <$> update_where p f t).
Proof.
  unfold update_where. induction t as [|x l IH]; intros Hp Hf Hn Hd; [done|].
  rewrite fmap_cons in Hd. apply NoDup_cons in Hd as [Hx Hd].
  assert (∀ y, y ∈ l → y ∈ x :: l) as Hl by (intros; by right).
  assert (x ∈ x :: l) as Hh by by left.
  cbn [fmap list_fmap]. apply NoDup_cons. split; [|apply IH; auto].
  intros (z & Ez & (y & -> & Hy)%list_elem_of_fmap)%list_elem_of_fmap. apply Hx.
  destruct (p x) eqn:Px, (p y) eqn:Py.
  - rewrite Hp, <- (Hp y) by auto. by apply list_elem_of_fmap_2.
  - rewrite Hf in Ez by auto. exfalso. apply (Hn y); auto.
  - rewrite (Hf y) in Ez by auto. exfalso. apply (Hn x); auto.
  - rewrite Ez. by apply list_elem_of_fmap_2.
Qed.
Lemma nodup_same {A K} (g : A → K) (p : A → bool) (f : A → A) t :
  (∀ x, p x = true → g (f x) = g x) → g <$> update_where p f t = g <$> t.
Proof.
  intros Hf. unfold update_where. rewrite <- list_fmap_compose. apply list_fmap_ext.
  intros i x _. simpl. destruct (p x) eqn:E; [by apply Hf|done].
Qed.

Definition tb_key (b : SyncThreadBinding) : string * string := (tb_owner b, tb_remote_thread_key b).
Definition tb_conv (b : SyncThreadBinding) : string * string := (tb_owner b, tb_conversation_id b).
Record bindings_wf (t : list SyncThreadBinding) : Prop := {
  bw_key : NoDup (tb_key <$> t);
  bw_conv : NoDup (tb_conv <$> t) }.

(** What may happen to a row: its time moves, the conversation of a direct thread is
    upgraded to its canonical name, or the remote key of a direct thread rotates. *)
Definition rebound (x y : SyncThreadBinding) : Prop :=
  tb_owner y = tb_owner x ∧ tb_thread_kind y = tb_thread_kind x ∧
  (tb_remote_thread_key y = tb_remote_thread_key x ∧ tb_conversation_id y = tb_conversation_id x ∨
   tb_remote_thread_key y = tb_remote_thread_key x ∧
     tb_thread_kind x = "direct"%string ∧ starts_with (tb_conversation_id x) "dm:did:" = true ∧
     starts_with (tb_conversation_id y) "dm:peer-scope:v1:" = true ∨
   tb_thread_kind x = "direct"%string ∧ tb_conversation_id y = tb_conversation_id x).

Lemma binding_by_key_true o k b : binding_by_key o k b = true ↔ tb_key b = (o, k).
Proof. unfold binding_by_key, tb_key. rewrite andb_true_iff, !bool_decide_eq_true. naive_solver. Qed.
Lemma binding_by_conversation_true o c b :
  binding_by_conversation o c b = true ↔ tb_conv b = (o, c).
Proof.
  unfold binding_by_conversation, tb_conv. rewrite andb_true_iff, !bool_decide_eq_true. naive_solver.
Qed.

Lemma update_rebound p f t :
  (∀ x, x ∈ t → p x = true → rebound x (f x)) → Forall2 rebound t (update_where p f t).
Proof.
  intros Hf. unfold update_where. induction t as [|x l IH]; constructor.
  - destruct (p x) eqn:E; [apply Hf; [by left|done]|]. unfold rebound. naive_solver.
  - apply IH. intros y Hy. apply Hf. by right.
Qed.

Lemma key_once t x y : bindings_wf t → x ∈ t → y ∈ t → tb_key x = tb_key y → x = y.
Proof. intros [Hk _]. by apply key_inj. Qed.

Section bindings.
Context (s s' : ReadDb) (b : SyncThreadBinding).
Context (Hwf : bindings_wf (rd_thread_bindings s)).
Local Abbreviation t := (rd_thread_bindings s).
Local Abbreviation by_key := (binding_by_key (tb_owner b) (tb_remote_thread_key b)).

(** The binding is in effect. *)
Definition bound_as (t : list SyncThreadBinding) : Prop :=
  ∃ x, x ∈ t ∧ tb_key x = tb_key b ∧ tb_conv x = tb_conv b ∧ tb_thread_kind x = tb_thread_kind b.
Definition binding_stored (t' : list SyncThreadBinding) : Prop :=
  bindings_wf t' ∧ bound_as t' ∧
  (Forall2 rebound t t' ∨
   t' = t ++ [b] ∧ ∀ x, x ∈ t → tb_key x ≠ tb_key b ∧ tb_conv x ≠ tb_conv b).

(** The key is known. *)
Lemma store_known current :
  current ∈ t → tb_key current = tb_key b →
  let cur := (tb_thread_kind current, tb_conversation_id current) in
  let next := (tb_thread_kind b, tb_conversation_id b) in
  cur = next ∨ is_direct_binding_canonical_upgrade cur next = true →
  exists_where (λ x, binding_by_conversation (tb_owner b) (tb_conversation_id b) x
                     && negb (by_key x)) t = false →
  binding_stored (update_where by_key
    (λ x, mkThreadBinding (tb_owner x) (tb_remote_thread_key x) (tb_thread_kind x)
            (tb_conversation_id b) (tb_updated_at b)) t).
Proof.
  intros Hc Ek cur next Hor Hex.
  assert (∀ x, x ∈ t → by_key x = true → x = current) as Hone.
  { intros x Hx Hk%binding_by_key_true. apply (key_once t); [done..|]. by rewrite Hk, Ek. }
  assert (tb_thread_kind current = tb_thread_kind b) as Ekind.
  { destruct Hor as [[=]|Hup]; [done|]. unfold is_direct_binding_canonical_upgrade in Hup. simpl in Hup.
    bool_hyps. congruence. }
  split_and!; [split|..].
  - rewrite nodup_same by done. apply Hwf.
  - eapply (nodup_rekey _ _ _ (tb_conv current) (tb_conv b)); [| | |apply Hwf].
    + intros x Hx Hk. by rewrite (Hone x Hx Hk).
    + intros x Hx [= -> _]%binding_by_key_true. done.
    + intros x Hx Hk Ev. apply (proj1 (exists_where_false _ _)) with x in Hex; [|done].
      rewrite Hk, andb_true_r in Hex. apply binding_by_conversation_true in Ev. congruence.
  - eexists. split; [apply elem_of_update_where; exists current; split; [done|]; reflexivity|].
    rewrite (proj2 (binding_by_key_true _ _ current)) by done. by injection Ek as -> ->.
  - left. apply update_rebound. intros x Hx Hk. rewrite (Hone x Hx Hk).
    split; [done|]. split; [done|]. simpl. destruct Hor as [[= _ E]|Hup]; [by left|].
    right. left. unfold is_direct_binding_canonical_upgrade in Hup. simpl in Hup. bool_hyps. done.
Qed.

(** The key is new, the conversation is bound under another one. *)
Lemma store_rekeyed previous :
  (∀ x, x ∈ t → tb_key x ≠ tb_key b) → previous ∈ t → tb_conv previous = tb_conv b →
  tb_thread_kind previous = "direct"%string → tb_thread_kind b = "direct"%string →
  binding_stored (update_where
    (λ x, binding_by_key (tb_owner b) (tb_remote_thread_key previous) x
          && bool_decide (tb_conversation_id x = tb_conversation_id b)
          && bool_decide (tb_thread_kind x = "direct"%string))
    (λ x, mkThreadBinding (tb_owner x) (tb_remote_thread_key b) (tb_thread_kind x)
            (tb_conversation_id x) (tb_updated_at b)) t).
Proof.
  intros Hnew Hp Ec Hk Hkb. set (p := λ x : SyncThreadBinding, _).
  assert (tb_owner previous = tb_owner b ∧ tb_conversation_id previous = tb_conversation_id b)
    as [Eo Ei] by by injection Ec.
  assert (∀ x, p x = true → tb_key x = (tb_owner b, tb_remote_thread_key previous) ∧
                tb_thread_kind x = "direct"%string) as Hpx.
  { unfold p. intros x Hx. bool_hyps. split; [by apply binding_by_key_true|done]. }
  assert (p previous = true) as Hpp.
  { unfold p. rewrite (proj2 (binding_by_key_true _ _ _)) by (unfold tb_key; congruence).
    by rewrite !bool_decide_true. }
  split_and!; [split|..].
  - eapply (nodup_rekey _ _ _ (tb_owner b, tb_remote_thread_key previous) (tb_key b));
      [..|apply Hwf]; [intros x _ Hx; apply (Hpx x Hx)| |intros x Hx _; by apply Hnew].
    intros x _ [[= Ex _] _]%Hpx. unfold tb_key. simpl. by rewrite Ex.
  - rewrite nodup_same by done. apply Hwf.
  - eexists. split; [apply elem_of_update_where; exists previous; split; [done|]; reflexivity|].
    rewrite Hpp. unfold tb_key, tb_conv. simpl. by rewrite Eo, Ei, Hk, Hkb.
  - left. apply update_rebound. intros x _ [_ Hd]%Hpx. unfold rebound. simpl. naive_solver.
Qed.

Lemma store_binding_inv :
  store_binding s b = Ok s' →
  binding_stored (rd_thread_bindings s') ∧ rd_db s' = rd_db s ∧
  rd_remote_states s' = rd_remote_states s.
Proof.
  unfold store_binding, binding_conflict, constraint_failed. intros Hst.
  destruct (head (select_where by_key t)) as [current|] eqn:Eh.
  - apply head_Some_elem_of, elem_of_select_where in Eh as [Hc Hk%binding_by_key_true].
    destruct (negb _ && _) eqn:Ec; [done|]. destruct (exists_where _ _) eqn:Ex; [done|].
    injection Hst as <-. split; [|done]. eapply store_known; [done|done| |done].
    apply andb_false_iff in Ec. rewrite !negb_false_iff, bool_decide_eq_true in Ec. done.
  - assert (∀ x, x ∈ t → tb_key x ≠ tb_key b) as Hnew.
    { intros x Hx Hk. destruct (head_select_Some by_key t) as [y Hy]; [|congruence].
      apply exists_where_true. exists x. split; [done|]. by apply binding_by_key_true. }
    destruct (head (select_where (binding_by_conversation _ _) t)) as [prev|] eqn:Ep.
    + apply head_Some_elem_of, elem_of_select_where in Ep as [Hp Hc%binding_by_conversation_true].
      destruct (negb _ || _) eqn:Ec; [done|]. injection Hst as <-. split; [|done].
      apply orb_false_iff in Ec. rewrite !negb_false_iff, !bool_decide_eq_true in Ec.
      by apply store_rekeyed; destruct Ec.
    + destruct (negb _); [done|]. injection Hst as <-. split; [|done].
      assert (∀ x, x ∈ t → tb_conv x ≠ tb_conv b) as Hconv.
      { intros x Hx Hk.
        destruct (head_select_Some (binding_by_conversation (tb_owner b) (tb_conversation_id b)) t)
          as [y Hy]; [|congruence].
        apply exists_where_true. exists x. split; [done|]. by apply binding_by_conversation_true. }
      split_and!; [split|..].
      * simpl. rewrite fmap_app. apply NoDup_app. split_and!; [apply Hwf| |apply NoDup_singleton].
        intros z (x & -> & Hx)%list_elem_of_fmap Hz%list_elem_of_singleton. by apply (Hnew x).
      * simpl. rewrite fmap_app. apply NoDup_app. split_and!; [apply Hwf| |apply NoDup_singleton].
        intros z (x & -> & Hx)%list_elem_of_fmap Hz%list_elem_of_singleton. by apply (Hconv x).
      * exists b. split; [|done]. apply elem_of_app. right. by apply list_elem_of_singleton.
      * right. auto.
Qed.
End bindings.

Section upsert.
Context `{ThreadIndex}.

Lemma project_bindings input s owner did state kind conv s' :
  project_remote_read_state input s owner did state kind conv = Ok s' →
  rd_thread_bindings s' = rd_thread_bindings s.
Proof.
  unfold project_remote_read_state, binding_conflict, acknowledge. intros Hp.
  destruct (negb _); [done|]. apply bind_Ok in Hp as (cur & _ & Hp).
  apply bind_Ok in Hp as (news & _ & Hp). destruct (negb news); [by injection Hp as <-|].
  apply bind_Ok in Hp as (order & _ & Hp). destruct (_ && _).
  - apply bind_Ok in Hp as (s1 & Ha & Hp). apply bind_Ok in Ha as (db & _ & Ha).
    injection Ha as <-. by injection Hp as <-.
  - apply bind_Ok in Hp as (th & _ & Hp). apply bind_Ok in Hp as ([res s1] & Hm & Hp).
    apply bind_Ok in Hp as (s2 & Hr & Hp). apply bind_Ok in Hp as (s3 & Ha & Hp).
    injection Hp as <-. apply bind_Ok in Ha as (db & _ & Ha). injection Ha as <-.
    apply mark_outbox in Hm as (_ & Eb & _). by apply replace_read in Hr as (row & _ & -> & _).
Qed.
Lemma queue_pending_bindings input s b s' :
  queue_pending_mark input s b = Ok s' → rd_thread_bindings s' = rd_thread_bindings s.
Proof.
  unfold queue_pending_mark. intros Hq. destruct (head _) as [r|]; [|by injection Hq as <-].
  apply bind_Ok in Hq as (target & _ & Hq). destruct target as [[[seq mid] key]|].
  - apply bind_Ok in Hq as (q & _ & Hq). by injection Hq as <-.
  - destruct (bool_decide _); by injection Hq as <-.
Qed.
Lemma upsert_binding_steps input s b s' :
  upsert_sync_thread_binding input s b = Ok s' →
  ∃ s1, store_binding s b = Ok s1 ∧ rd_thread_bindings s' = rd_thread_bindings s1.
Proof.
  unfold upsert_sync_thread_binding. intros Hu.
  apply bind_Ok in Hu as (? & _ & Hu). apply bind_Ok in Hu as (? & _ & Hu).
  apply bind_Ok in Hu as (? & _ & Hu). destruct (negb _); [done|].
  apply bind_Ok in Hu as (s1 & Hs & Hu). apply bind_Ok in Hu as (s2 & Hp & Hu).
  exists s1. split; [done|]. rewrite (queue_pending_bindings _ _ _ _ Hu).
  destruct (load_remote_read_state _ _ _); [|by injection Hp as <-].
  destruct (db_bindings _ !! _); [by eapply project_bindings|done].
Qed.
End upsert.

(** ** Queueing a mark *)

Lemma upsert_outbox_messages db o k t key seq mid at_time id op now r db' :
  upsert_read_outbox db o k t key seq mid at_time id op now = Ok (r, db') →
  db_messages db' = db_messages db.
Proof.
  unfold upsert_read_outbox, outbox_corrupt. intros Hu. apply bind_Ok in Hu as (? & _ & Hu).
  destruct (head _) as [cur|].
  - destruct (lm_payload_json cur); [|done]. apply bind_Ok in Hu as (c & _ & Hu).
    injection Hu as _ <-. by destruct c.
  - apply bind_Ok in Hu as (d & He & Hu). injection Hu as _ <-.
    unfold enqueue_local_mutation, constraint_failed in He.
    res_inv. repeat (case_match; try done). simplify_eq. done.
Qed.
Lemma target_messages s s' o k c seq mid :
  db_messages (rd_db s') = db_messages (rd_db s) →
  ordinary_read_outbox_target s' o k c seq mid = ordinary_read_outbox_target s o k c seq mid.
Proof. unfold ordinary_read_outbox_target, ordinary_group_read_target. by intros ->. Qed.

(** The queued mutation tells the service at least the target. *)
Definition queued_for (owner op : string) (res : MarkThreadReadWatermarkResult) (seq : string)
    (s : ReadDb) : Prop :=
  ∃ key target mid tkey m,
    mr_remote_thread_key res = Some key ∧ m ∈ db_outbox (rd_db s) ∧ untried owner key m = true ∧
    lm_operation_id m = op ∧
    ordinary_read_outbox_target s owner (mr_thread_scope res) (mr_conversation_id res) seq
      (mr_watermark_message_id res) = Ok (Some (target, mid, tkey)) ∧
    decimal_value target ≤ decimal_value (default "0"%string (lm_payload_json m ≫= payload_seq)).

Section queue.
Context `{ThreadIndex}.

Lemma mark_unqueued s owner did input now_text res s' :
  mark_thread_read_watermark_for_owner_identity s owner did input now_text = Ok (res, s') →
  mr_outbox_operation_id res = None.
Proof.
  unfold mark_thread_read_watermark_for_owner_identity. intros Hm.
  do 8 apply bind_Ok in Hm as (? & _ & Hm). by injection Hm as <- _.
Qed.

Lemma queue_mark_inv input s owner key seq res r s' :
  outbox_wf (db_outbox (rd_db s)) →
  (∀ key, (count_where (untried owner key) (db_outbox (rd_db s)) ≤ 1)%nat) →
  queue_mark input s owner key seq res = Ok (r, s') →
  match mr_outbox_operation_id r with
  | Some op => queued_for owner op r seq s'
  | None => mr_remote_ack_applicable r = false ∧ mr_thread_scope r = "group"%string ∧
      s' = set_pending owner (mr_conversation_id r) false s ∧
      ordinary_read_outbox_target s' owner (mr_thread_scope r) (mr_conversation_id r) seq
        (mr_watermark_message_id r) = Ok None
  end.
Proof.
  intros Hwf Hone Hq. unfold queue_mark, outbox_corrupt in Hq.
  apply bind_Ok in Hq as (target & Ht & Hq). destruct target as [[[tseq mid] tkey]|].
  - apply bind_Ok in Hq as ([op db] & Hu & Hq). injection Hq as <- <-. simpl.
    pose proof (upsert_outbox_messages _ _ _ _ _ _ _ _ _ _ _ _ _ Hu) as Em.
    apply upsert_read_outbox_coalesces in Hu as (_ & m & x & Hm & Hun & Hop & <- & Hle); [|done..].
    exists (default key tkey), tseq, mid, tkey, m. split_and!; try done. simpl.
    by rewrite (target_messages s).
  - case_bool_decide as Hg; [|done]. injection Hq as <- <-. simpl. split_and!; try done.
Qed.
End queue.
