(* ===== verification/ReadClaims.v ===== *)
(** * Claims about the read state

    A mark moves one watermark and only forward while the stored watermark can be
    checked, sets exactly the read flags it covers, and is queued for the service; a
    remote state is merged by taking the further of the two; remote threads keep their
    conversations. *)

From Stdlib Require Import Ascii.
From S2P Require Import Prelude RustStr ImError Decimal Store SyncStore Outbox ReadState ReadBind ReadProps.
Local Open Scope Z_scope.

Section claims.
Context `{ThreadIndex}.
Implicit Types (s : ReadDb).

(** C10: Marking a thread touches no other thread's watermark; where the stored
    watermark names no message absent from the conversation it never moves back and
    reaches the requested one; the messages turned read are exactly the unread
    incoming ones of the thread up to the resulting sequence, device-inbox messages
    excepted, and their number is the one returned. *)
Theorem mark_read_monotone s owner owner_did input now_text res s' ids requested :
  mark_thread_read_watermark_for_owner_identity s owner owner_did input now_text = Ok (res, s') →
  conversation_ids_for_thread_ref s (trim owner) (trim owner_did) (mi_thread input) = Ok ids →
  effective_read_watermark_for_thread s (trim owner) ids
    (trimmed_nonempty (mi_watermark_message_id input)) (trimmed_nonempty (mi_watermark_seq input))
    = Ok requested →
  let stored s := find_read s (trim owner) (mr_thread_scope res) (trim (mr_thread_id res)) in
  (∀ o sc t, (o, sc, t) ≠ (trim owner, mr_thread_scope res, trim (mr_thread_id res)) →
     find_read s' o sc t = find_read s o sc t) ∧
  (watermark_trusted s (trim owner) ids (stored s) →
     reach_le (reach (stored s)) (reach (stored s')) ∧
     (ew_invalid_message_id requested = false →
        reach_le (sql_cast_integer <$> trimmed_nonempty (ew_seq requested)) (reach (stored s')))) ∧
  (∀ seq, mr_watermark_seq res = Some seq → ∃ q, normalize_read_watermark_seq seq = Ok q ∧
     mr_updated_count res
     = Z.of_nat (count_where (newly_read (trim owner) ids q) (db_messages (rd_db s))) ∧
     db_messages (rd_db s')
     = update_where (newly_read (trim owner) ids q) set_read (db_messages (rd_db s))).
Proof.
  intros Hm Hids Hreq stored.
  destruct (mark_inv _ _ _ _ _ _ _ Hm) as (ids' & previous & req' & s1 & row & M & ->).
  pose proof (mk_ids _ _ _ _ _ _ _ _ _ _ M) as Hids'. rewrite Hids in Hids'. injection Hids' as <-.
  pose proof (mk_requested _ _ _ _ _ _ _ _ _ _ M) as Hreq'. rewrite Hreq in Hreq'. injection Hreq' as <-.
  destruct M as [_ Hprev _ Hom Hkey Hseq _ _ Hmsg]. simpl in Hprev. injection Hkey as E1 E2 E3.
  assert (∀ merge : ThreadReadStateRecord → ThreadReadStateRecord → ThreadReadStateRecord,
    merge = (if ew_invalid_message_id previous then λ _ row, row else merge_read_state) →
    ∀ cur, read_key (tr_owner row) (tr_scope row) (tr_thread_id row) cur = true →
    read_key (tr_owner row) (tr_scope row) (tr_thread_id row) (merge cur row) = true) as Hk.
  { intros ? -> cur Hc. destruct (ew_invalid_message_id previous); [apply read_key_self|done]. }
  split_and!.
  - intros o sc t Hne. rewrite put_read_other; [by apply only_marks_reads|by apply Hk|congruence].
  - intros Ht. pose proof (trusted_valid _ _ _ _ _ Ht Hprev) as Hv. rewrite Hv in *.
    assert (stored (put_read_state merge_read_state row s1)
            = Some match stored s with Some cur => merge_read_state cur row | None => row end) as ->.
    { unfold stored. rewrite <- E1, <- E2, <- E3, put_read_same by by apply Hk.
      by rewrite (only_marks_reads s s1). }
    assert (∀ x, reach_le (reach (Some row)) x → ew_invalid_message_id requested = false →
      reach_le (sql_cast_integer <$> trimmed_nonempty (ew_seq requested)) x) as Hr.
    { intros x Hx Hvr. rewrite Hvr in Hseq. unfold reach in Hx. simpl in Hx. by rewrite Hseq in Hx. }
    destruct (stored s) as [cur|]; (split; [|apply Hr]); try done; apply merge_reach.
  - done.
Qed.

(** A read state of another device is merged by taking the further watermark: a
    state no newer than the one kept is ignored; one whose conversation is not yet
    known is kept; otherwise it is projected and not kept, the thread then stands at
    the further of the two positions — unless its group version is older than the
    version already merged, which changes nothing — and a state with a new version
    commits exactly the queued marks at or below it and leaves a mark pending where the
    local position was ahead. *)
Theorem remote_read_merge input s owner did state s' :
  outbox_wf (db_outbox (rd_db s)) →
  apply_remote_read_state input s owner did state = Ok s' →
  let version := decimal_value (ra_state_version state) in
  let kept s := load_remote_read_state s owner (ra_remote_thread_key state) in
  if not_newer s owner state then s' = s
  else
    match remote_binding s owner state with
    | None => rd_db s' = rd_db s ∧ kept s' = Some state
    | Some (kind, conv) =>
        let stored := find_read s (trim owner) (trim kind) (trim conv) in
        let merged := if bool_decide (kind = "direct"%string) then 0
                      else decimal_value (default "0"%string (stored ≫= tr_remote_state_version)) in
        kind = ra_thread_kind state ∧ kept s' = None ∧
        (if version <? merged then rd_db s' = rd_db s
         else read_value s' owner kind conv
              = Z.max (read_value s owner kind conv) (decimal_value (ra_watermark_seq state))) ∧
        (merged < version → projected (ri_now input) s s' owner state kind conv)
    end.
Proof.
  intros Hwf Ha version kept. apply apply_inv in Ha as (Hc & Hpos & Ha).
  destruct (not_newer s owner state); [done|]. destruct Ha as (s1 & Hi & Ha).
  apply insert_remote_inv in Hi as (Edb & _ & _ & _ & Hkept).
  destruct (remote_binding s owner state) as [[kind conv]|]; [|by rewrite Ha].
  intros stored merged. apply project_inv in Ha as (Hk & Hgone & news & Hnews & Ha);
    [|by rewrite Edb|done].
  assert (∀ o k c, find_read s1 o k c = find_read s o k c) as Ef.
  { intros. unfold find_read. by rewrite Edb. }
  rewrite Ef in Hnews. fold stored in Hnews. apply remote_is_news_inv in Hnews.
  split; [done|]. split; [done|]. destruct news.
  - assert (merged < version) as Hlt.
    { unfold merged. case_bool_decide as Hd; [done|]. destruct Hnews as [?|Hn]; [done|].
      destruct (stored ≫= tr_remote_state_version); [by apply Hn|done]. }
    assert (projected (ri_now input) s s' owner state kind conv) as Hp.
    { destruct Ha as [E1 E2 E3]. unfold read_value in E2, E3. rewrite Ef, ?Edb in *. by split. }
    split; [|done]. rewrite (proj2 (Z.ltb_ge version merged)) by lia. apply Hp.
  - destruct Hnews as (Hd & v & Ev & Hor). unfold merged. rewrite bool_decide_false by done.
    rewrite Ev. simpl. rewrite Ha. unfold read_value. simpl. fold stored. rewrite Edb.
    destruct Hor as [Hlt|[Heq Hle]].
    + rewrite (proj2 (Z.ltb_lt version _)) by done. split; [done|]. unfold version. lia.
    + rewrite (proj2 (Z.ltb_ge version _)) by (unfold version; lia).
      split; [|unfold version; lia]. rewrite Z.max_l by done. unfold find_read. simpl. by rewrite Edb.
Qed.

(** A remote thread key stands for one conversation of the owner and a conversation
    has one key; recording a binding keeps that, puts the binding in effect, adds at
    most one row and otherwise only upgrades the conversation of a direct thread from
    its DID form to its canonical form or rotates the key of a direct thread. *)
Theorem thread_bindings_stable input s b s' :
  bindings_wf (rd_thread_bindings s) →
  upsert_sync_thread_binding input s b = Ok s' →
  bindings_wf (rd_thread_bindings s') ∧ bound_as b (rd_thread_bindings s') ∧
  (Forall2 rebound (rd_thread_bindings s) (rd_thread_bindings s') ∨
   rd_thread_bindings s' = rd_thread_bindings s ++ [b] ∧
   ∀ x, x ∈ rd_thread_bindings s → tb_key x ≠ tb_key b ∧ tb_conv x ≠ tb_conv b).
Proof.
  intros Hwf (s1 & Hs & ->)%upsert_binding_steps.
  by apply store_binding_inv in Hs as (Hb & _).
Qed.

(** A local mark that awaits the service is not lost: it leaves an unsent queued
    mark of the thread, under the returned operation id, that reaches at least the
    latest plain message at or below the watermark; only a group without such a message
    is settled at once, and only a thread with no watermark, no account or no remote
    key is left to a later binding. *)
Theorem local_mark_queued input s owner did mark res s' :
  outbox_wf (db_outbox (rd_db s)) →
  (∀ key, (count_where (untried owner key) (db_outbox (rd_db s)) ≤ 1)%nat) →
  mi_pending_remote_ack mark = true →
  mark_thread_read_and_update_outbox input s owner did mark = Ok (res, s') →
  match mr_outbox_operation_id res with
  | Some op => ∃ seq, mr_watermark_seq res = Some seq ∧ queued_for owner op res seq s'
  | None =>
      db_outbox (rd_db s') = db_outbox (rd_db s) ∧
      (mr_watermark_seq res = None ∨ load_identity_account_binding (rd_db s) owner = None ∨
       remote_key_of s' owner res = None ∨
       (mr_thread_scope res = "group"%string ∧ mr_remote_ack_applicable res = false ∧
        ∃ seq, mr_watermark_seq res = Some seq ∧
          ordinary_read_outbox_target s' owner "group" (mr_conversation_id res) seq
            (mr_watermark_message_id res) = Ok None))
  end.
Proof.
  intros Hwf Hone Hpend Hm. unfold mark_thread_read_and_update_outbox in Hm.
  apply bind_Ok in Hm as ([r s1] & Hmark & Hm).
  pose proof (mark_outbox _ _ _ _ _ _ _ Hmark) as (Eo & _ & _ & Eb).
  pose proof (mark_unqueued _ _ _ _ _ _ _ Hmark) as Eop. rewrite Hpend in Hm.
  destruct (mr_watermark_seq r) as [seq|] eqn:Eseq; [|injection Hm as <- <-; rewrite Eop; auto].
  destruct (load_identity_account_binding (rd_db s1) owner) as [account|] eqn:Ea.
  2: { injection Hm as <- <-. simpl. unfold load_identity_account_binding in *. rewrite <- Eb. auto. }
  destruct (remote_key_of s1 owner r) as [key|] eqn:Ek; [|injection Hm as <- <-; simpl; auto].
  assert (mr_watermark_seq res = Some seq) as Er.
  { unfold queue_mark in Hm. apply bind_Ok in Hm as ([[[]]|] & _ & Hm).
    - apply bind_Ok in Hm as (q & _ & Hm). by injection Hm as <- _.
    - case_bool_decide; [|done]. by injection Hm as <- _. }
  apply queue_mark_inv in Hm; [|by rewrite Eo..].
  destruct (mr_outbox_operation_id res); [eauto|]. destruct Hm as (Eapp & Eg & -> & Et).
  split; [done|]. right; right; right. rewrite Eg in Et. eauto.
Qed.
End claims.

(** ** Examples *)

#[local] Instance ex_index : ThreadIndex := {|
  direct_peer_ids _ _ _ peer := Ok [direct_conversation_id_for_peer_ref peer];
  peer_scope_legacy_ids _ _ _ _ := Ok [] |}.

Definition ex_message (id : string) (seq : Z) : MessageRow :=
  mkMessageRow "owner-1" id "group:g" "group:g" "group" "hydrated" "did:me" "did:peer" "g" 0
    (Some seq) 0 (Some (VObject [("raw_message_id", VString id)]))%string "t-1" "t-1" 0 "" "text/plain"
    "" "g" "resolved" "hello" "" "" 0 "".
Definition ex_read : ReadDb :=
  mkReadDb (with_messages [ex_message "m-3" 3; ex_message "m-4" 4] ex_db) [] [] [] [].
Definition ex_remote (seq version : string) (id : option string) : ReadStateApplyV2 :=
  mkReadApply "g" "group" seq id version "t-2".
Definition ex_input : ReadInput := mkReadInput 700 "t-3" "mutation-1" "operation-1".
Definition ex_mark (seq : option string) (pending : bool) : MarkThreadReadWatermarkInput :=
  mkMarkInput (Group "g") None seq None pending.

Definition ex_merged : ReadDb :=
  unwrap_or (apply_remote_read_state ex_input ex_read "owner-1" "did:me" (ex_remote "9" "5" None)) ex_read.
Lemma ex_merged_ok :
  apply_remote_read_state ex_input ex_read "owner-1" "did:me" (ex_remote "9" "5" None) = Ok ex_merged.
Proof. vm_compute. reflexivity. Qed.

(** The state a mark at sequence 3 leaves, from a state. *)
Definition ex_marked (s : ReadDb) : MarkThreadReadWatermarkResult * ReadDb :=
  unwrap_or (mark_thread_read_watermark_for_owner_identity s "owner-1" "did:me"
               (ex_mark (Some "3"%string) true) "t-3")
    (mkMarkResult "" "" "" 0 None None None None false None None true, s).

Definition ex_early : ReadDb :=
  unwrap_or (apply_remote_read_state ex_input ex_read "owner-1" "did:me"
               (ex_remote "9" "5" (Some "m-9"%string))) ex_read.


Lemma ex_marked_ok :
  mark_thread_read_watermark_for_owner_identity ex_merged "owner-1" "did:me"
    (ex_mark (Some "3"%string) true) "t-3" = Ok ((ex_marked ex_merged).1, (ex_marked ex_merged).2).
Proof. vm_compute. reflexivity. Qed.
Lemma ex_trusted :
  watermark_trusted ex_merged "owner-1" ["group:g"%string]
    (find_read ex_merged "owner-1" "group" "group:g").
Proof. intros id Hid. by vm_compute in Hid. Qed.

Lemma mark_read_monotone_witness :
  reach_le (Some 9) (reach (find_read (ex_marked ex_merged).2 "owner-1" "group" "group:g")).
Proof.
  refine (proj1 (proj1 (proj2 (mark_read_monotone ex_merged "owner-1" "did:me"
    (ex_mark (Some "3"%string) true) "t-3" (ex_marked ex_merged).1 (ex_marked ex_merged).2
    ["group:g"%string] (mkWatermark (Some "m-3"%string) (Some "3"%string) false) ex_marked_ok _ _))
    ex_trusted)); vm_compute; reflexivity.
Defined.

Lemma remote_read_merge_witness :
  read_value ex_merged "owner-1" "group" "group:g" = 9.
Proof.
  exact (proj1 (proj2 (proj2 (remote_read_merge ex_input ex_read "owner-1" "did:me"
    (ex_remote "9" "5" None) ex_merged empty_outbox_wf ex_merged_ok)))).
Defined.

Definition ex_binding_row (conv : string) : SyncThreadBinding :=
  mkThreadBinding "owner-1" "key-1" "direct" conv 600.
Definition ex_bound : ReadDb :=
  unwrap_or (upsert_sync_thread_binding ex_input ex_read (ex_binding_row "dm:did:peer")) ex_read.
Definition ex_rebound : ReadDb :=
  unwrap_or (upsert_sync_thread_binding ex_input ex_bound
               (ex_binding_row "dm:peer-scope:v1:peer")) ex_read.
Lemma ex_rebound_ok :
  upsert_sync_thread_binding ex_input ex_bound (ex_binding_row "dm:peer-scope:v1:peer")
  = Ok ex_rebound.
Proof. vm_compute. reflexivity. Qed.
Lemma ex_bound_wf : bindings_wf (rd_thread_bindings ex_bound).
Proof. split; apply NoDup_singleton. Qed.

Lemma thread_bindings_stable_witness :
  bindings_wf (rd_thread_bindings ex_rebound) ∧
  bound_as (ex_binding_row "dm:peer-scope:v1:peer") (rd_thread_bindings ex_rebound).
Proof.
  destruct (thread_bindings_stable ex_input ex_bound (ex_binding_row "dm:peer-scope:v1:peer")
    ex_rebound ex_bound_wf ex_rebound_ok) as (Hw & Hb & _).
  exact (conj Hw Hb).
Defined.

Definition ex_queued : MarkThreadReadWatermarkResult * ReadDb :=
  unwrap_or (mark_thread_read_and_update_outbox ex_input ex_read "owner-1" "did:me"
               (ex_mark (Some "4"%string) true)) (ex_marked ex_read).
Lemma ex_queued_ok :
  mark_thread_read_and_update_outbox ex_input ex_read "owner-1" "did:me"
    (ex_mark (Some "4"%string) true) = Ok (ex_queued.1, ex_queued.2).
Proof. vm_compute. reflexivity. Qed.

Lemma local_mark_queued_witness :
  ∃ seq, mr_watermark_seq ex_queued.1 = Some seq ∧
    queued_for "owner-1" "operation-1" ex_queued.1 seq ex_queued.2.
Proof.
  refine (local_mark_queued ex_input ex_read "owner-1" "did:me" (ex_mark (Some "4"%string) true)
    ex_queued.1 ex_queued.2 empty_outbox_wf _ eq_refl ex_queued_ok).
  intros key. apply Nat.le_0_l.
Defined.
