(* ===== verification/ReadWire.v ===== *)
(** * The wire form of a read mark

    [wire/read_state.rs]: the request [read_state.mark_read] and its response. The
    operation id and time stamped on a request are an argument, the RFC 3339 check is
    the one of [WireCodec]. *)

From Stdlib Require Import Ascii.
From S2P Require Import Prelude RustStr ImError Decimal Store SyncStore Outbox Lanes Wire ReadState.
Local Open Scope Z_scope.

Definition READ_STATE_PROFILE : string := "anp.read_state.local.v1".

Record MarkReadStateWireRequest := mkReadRequest {
  rq_thread : ThreadRef;
  rq_read_up_to_server_seq : option string;
  rq_read_up_to_message_id : option string;
  rq_client_observed_at : option string;
  rq_fallback_max_message_ids : option Z;
  rq_device_id : option string;
  rq_operation_id : option string;
  rq_remote_thread_key : option string }.

Record MarkReadStateWireResponse := mkReadResponse {
  rp_remote_acknowledged : bool;
  rp_partial : bool;
  rp_fallback_used : bool;
  rp_pending_remote_ack : bool;
  rp_read_watermark_server_seq : option string;
  rp_read_watermark_message_id : option string;
  rp_read_at : string;
  rp_warnings : list string }.

Definition read_required_string (field value : string) : ImResult string :=
  read_required field value.
Definition read_normalize_decimal_seq (value : string) : ImResult string :=
  match normalize_decimal_seq value with
  | Ok seq => Ok seq
  | Err _ => Err (invalid_input (Some "read_up_to_server_seq"%string)
               ("read_up_to_server_seq must be a non-negative decimal string, got "
                +:+ debug_str value))
  end.
Definition invalid_response {A} (detail : string) : ImResult A :=
  Err (Service None (Some "READ_STATE_INVALID_ACK"%string) detail None).
Definition or_response {A} (o : option A) (detail : string) : ImResult A :=
  match o with Some a => Ok a | None => invalid_response detail end.

(** [Option::map(f).transpose()] *)
Definition transpose {A B} (f : A → ImResult B) (o : option A) : ImResult (option B) :=
  match o with
  | None => Ok None
  | Some a => b ← f a; Ok (Some b)
  end.

(** ** Requests *)

Definition thread_to_wire (thread : ThreadRef) : ImResult Value :=
  match thread with
  | Direct peer =>
      peer ← read_required_string "thread.peer_did" peer;
      Ok (VObject [("kind", VString "direct"); ("peer_did", VString peer)])
  | Group group =>
      group ← read_required_string "thread.group_did" group;
      Ok (VObject [("kind", VString "group"); ("group_did", VString group)])
  | Thread _ =>
      Err (invalid_input (Some "thread"%string)
             "read_state.mark_read remote thread must resolve to direct or group")
  end%string.

Definition read_state_thread_to_wire (thread : ThreadRef) (remote_thread_key : option string)
    : ImResult Value :=
  match remote_thread_key with
  | Some key =>
      key ← read_required_string "thread.thread_key" key;
      Ok (VObject [("kind", VString match thread with Group _ => "group" | _ => "direct" end);
                   ("thread_key", VString key)])
  | None => thread_to_wire thread
  end%string.

(** [value[key] = ..] on an object. *)
Definition set_field (key : string) (v : Value) (object : Value) : Value :=
  match object with
  | VObject m =>
      VObject (if contains_key m key
               then (λ p, if bool_decide (p.1 = key) then (key, v) else p) <$> m
               else m ++ [(key, v)])
  | _ => object
  end.
Definition text_field (key : string) (o : option string) : Obj :=
  option_list ((λ s, (key, VString s)) <$> o).

Definition build_mark_read_state_rpc_params (stamp : Stamp) (identity_did : string)
    (request : MarkReadStateWireRequest) : ImResult Value :=
  user_did ← read_required_string "user_did" identity_did;
  let remote_thread_key := trimmed_nonempty (rq_remote_thread_key request) in
  thread ← read_state_thread_to_wire (rq_thread request) remote_thread_key;
  seq ← transpose read_normalize_decimal_seq (rq_read_up_to_server_seq request);
  message_id ← transpose (read_required_string "read_up_to_message_id")
    (rq_read_up_to_message_id request);
  match seq, message_id with
  | None, None =>
      Err (invalid_input (Some "watermark"%string)
             "read_up_to_server_seq or read_up_to_message_id is required")
  | _, _ =>
      let operation_id := trimmed_nonempty (rq_operation_id request) in
      let meta := local_meta stamp user_did READ_STATE_PROFILE in
      Ok (Wire.request
            match remote_thread_key, operation_id with
            | Some _, Some id => set_field "operation_id" (VString id) meta
            | _, _ => meta
            end
            ([("user_did", VString user_did); ("thread", thread)]%string
             ++ text_field "read_up_to_server_seq" seq
             ++ text_field "read_up_to_message_id" message_id
             ++ text_field "client_observed_at" (trimmed_nonempty (rq_client_observed_at request))
             ++ option_list ((λ limit, ("fallback_max_message_ids"%string,
                                VNumber (PosInt (Z.max 1 (Z.min limit 500)))))
                             <$> rq_fallback_max_message_ids request)
             ++ match remote_thread_key with
                | Some _ => []
                | None => text_field "device_id" (trimmed_nonempty (rq_device_id request))
                          ++ text_field "operation_id" operation_id
                end))
  end.

(** ** Responses *)

Definition response_required : list string :=
  ["user_did"; "thread"; "updated_count"; "remote_acknowledged"; "partial"; "fallback_used";
   "pending_remote_ack"; "advanced"; "read_at"; "warnings"]%string.
Definition response_allowed : list string :=
  ["user_did"; "thread"; "updated_count"; "remote_acknowledged"; "partial"; "fallback_used";
   "pending_remote_ack"; "read_watermark_server_seq"; "previous_read_watermark_server_seq";
   "read_watermark_message_id"; "advanced"; "read_at"; "unread_count"; "warnings"]%string.

Section response.
Context `{WireCodec}.

Definition response_boolean (m : Obj) (field : string) : ImResult bool :=
  or_response (assoc field m ≫= as_bool) (field +:+ " must be a boolean").
Definition response_decimal (m : Obj) (field : string) : ImResult (option string) :=
  match assoc field m with
  | None | Some VNull => Ok None
  | Some (VString value) => seq ← read_normalize_decimal_seq value; Ok (Some seq)
  | Some _ => invalid_response (field +:+ " must be null or a canonical decimal string")
  end.
Definition response_unread_count (m : Obj) : ImResult Z :=
  match assoc "unread_count" m with
  | None | Some VNull => Ok 0
  | Some value =>
      or_response (as_u64 value) "unread_count must be null or a non-negative integer"
  end.
Definition response_read_at (m : Obj) : ImResult string :=
  match assoc "read_at" m ≫= as_str with
  | Some text => if chrono_rfc3339 text then Ok text
                 else invalid_response "read_at must be an RFC3339 timestamp"
  | None => invalid_response "read_at must be an RFC3339 timestamp"
  end.
Definition response_message_id (m : Obj) : ImResult (option string) :=
  match assoc "read_watermark_message_id" m with
  | None | Some VNull => Ok None
  | Some (VString value) =>
      if negb (is_empty (trim value)) && bool_decide (trim value = value) then Ok (Some value)
      else invalid_response "read_watermark_message_id must be null or a canonical string"
  | Some _ => invalid_response "read_watermark_message_id must be null or a canonical string"
  end.

Definition parse_mark_read_state_response (raw : Value) (expected_user_did : string)
    (expected_thread : Value) : ImResult MarkReadStateWireResponse :=
  m ← or_response (as_object raw) "response must be an object";
  if existsb (λ field, negb (contains_key m field)) response_required
     || existsb (λ p : string * Value, negb (bool_decide (p.1 ∈ response_allowed))) m then
    invalid_response "response has missing required fields or unknown fields"
  else if negb (bool_decide (assoc "user_did" m ≫= as_str = Some expected_user_did)) then
    invalid_response "response user_did does not match the request"
  else if negb match assoc "thread" m with
               | Some thread => value_eqb thread expected_thread
               | None => false
               end then
    invalid_response "response thread does not match the request"
  else
    _ ← or_response (assoc "updated_count" m ≫= as_u64)
      "updated_count must be a non-negative integer";
    _ ← response_unread_count m;
    remote_acknowledged ← response_boolean m "remote_acknowledged";
    partial ← response_boolean m "partial";
    fallback_used ← response_boolean m "fallback_used";
    pending_remote_ack ← response_boolean m "pending_remote_ack";
    _ ← response_boolean m "advanced";
    seq ← response_decimal m "read_watermark_server_seq";
    _ ← response_decimal m "previous_read_watermark_server_seq";
    message_id ← response_message_id m;
    read_at ← response_read_at m;
    warnings ← or_response (assoc "warnings" m ≫= as_array) "warnings must be an array";
    warnings ← collect (λ value, or_response (as_str value)
                                   "warnings must contain only strings") warnings;
    Ok (mkReadResponse remote_acknowledged partial fallback_used pending_remote_ack seq message_id
          read_at warnings).
End response.
