(* ===== verification/ReadSync.v ===== *)
(** * Telling the service what was read

    The writeback of queued marks in [message_runtime/sync_v2.rs]:
    [process_read_outbox], [drain_read_outbox] and [send_claimed_read_mutation]. Each
    queued mark is claimed, sent, and settled: committed by the acknowledgement, put
    back with a time to retry, or failed for good.

    The transport, the refresh of the session and the clock are the surroundings; any
    statement on the database may fail there. *)

From Stdlib Require Import Ascii.
From S2P Require Import Prelude RustStr ImError Effects Decimal Store SyncStore Outbox Lanes Wire Recovery Failure ReadState ReadBind ReadWire.
Local Open Scope Z_scope.

Definition GROUP_SEQUENCE_ONLY_TARGET_NOT_FOUND_MAX_ATTEMPTS : Z := 3.

(** ** Classifying a failure *)

Definition read_mutation_thread_kind (record : LocalMutationRecord) : option string :=
  payload ← lm_payload_json record;
  kind ← vget payload "thread_kind" ≫= as_str;
  if is_direct_or_group kind then Some kind else None.

Definition is_read_target_not_found (record : LocalMutationRecord) (error : ImError) : bool :=
  bool_decide (error_code error = Some "anp.target_not_found"%string)
  && bool_decide (is_Some (read_mutation_thread_kind record)).

Definition is_sequence_only_group_read (record : LocalMutationRecord) : bool :=
  bool_decide (read_mutation_thread_kind record = Some "group"%string)
  && negb (bool_decide (is_Some
       (trimmed_nonempty (lm_payload_json record ≫= λ payload,
                            vget payload "read_watermark_message_id" ≫= as_str)))).

Definition sequence_only_group_read_retry_delay (attempt_count : Z) : Z :=
  if attempt_count <=? 1 then 5 else 30.

Definition canonical_read_remote_thread_key (thread_kind remote_thread_key : string) : string :=
  if bool_decide (thread_kind = "group"%string)
  then default remote_thread_key (strip_prefix remote_thread_key "group:")
  else remote_thread_key.

Definition incomplete_read_ack {A} (message : string) : ImResult A :=
  Err (sync_error "READ_STATE_INCOMPLETE_ACK" message).

(** What becomes of a mark that could not be sent. *)
Inductive ReadVerdict : Type :=
| GiveUp (code : string)
| RetryAt (code : string) (at_time : Z).

Definition read_verdict (record : LocalMutationRecord) (now : Z) (error : ImError) : ReadVerdict :=
  if bool_decide (error_code error = Some "SYNC_LOCAL_OUTBOX_CORRUPT"%string)
  then GiveUp "SYNC_LOCAL_OUTBOX_CORRUPT"
  else
    let target_not_found := is_read_target_not_found record error in
    let sequence_only := target_not_found && is_sequence_only_group_read record in
    if sequence_only
       && (GROUP_SEQUENCE_ONLY_TARGET_NOT_FOUND_MAX_ATTEMPTS <=? lm_attempt_count record)
    then GiveUp (default "READ_STATE_TARGET_NOT_FOUND"%string (error_code error))
    else
      let delay := if sequence_only then sequence_only_group_read_retry_delay (lm_attempt_count record)
                   else if target_not_found
                           && bool_decide (read_mutation_thread_kind record = Some "direct"%string)
                   then 300 else 5 in
      RetryAt (default "READ_STATE_RETRY"%string (error_code error))
        (if is_device_epoch_rejection error then now else i64_saturating_add now delay).

(** ** The message to send *)

Definition payload_field (payload : Value) (name : string) : ImResult string :=
  match vget payload name ≫= as_str with
  | Some value => if is_empty (trim value)
                  then outbox_corrupt ("read outbox payload is missing " +:+ name) else Ok value
  | None => outbox_corrupt ("read outbox payload is missing " +:+ name)
  end.

Record ReadSend := mkReadSend {
  sd_thread : ThreadRef;
  sd_expected_thread : Value;
  sd_requested_seq : string;
  sd_params : Value }.

Definition build_read_send (stamp : Stamp) (client_did : string) (binding : ActiveSyncAccountBinding)
    (record : LocalMutationRecord) : ImResult ReadSend :=
  payload ← match lm_payload_json record with
            | Some payload => Ok payload
            | None => outbox_corrupt "read outbox payload is invalid"
            end;
  thread_kind ← payload_field payload "thread_kind";
  thread_id ← payload_field payload "thread_id";
  remote_thread_key ← payload_field payload "remote_thread_key";
  let remote_thread_key := canonical_read_remote_thread_key thread_kind remote_thread_key in
  requested_seq ← payload_field payload "read_watermark_seq";
  _ ← validate_decimal "read_watermark_seq" requested_seq;
  thread ← (if is_direct_or_group thread_kind then thread_of_binding thread_kind thread_id
            else outbox_corrupt "read outbox thread_kind must be direct or group");
  expected_thread ← read_state_thread_to_wire thread (Some remote_thread_key);
  params ← build_mark_read_state_rpc_params stamp client_did
    (mkReadRequest thread (Some requested_seq)
       (vget payload "read_watermark_message_id" ≫= as_str)
       (vget payload "read_watermark_at" ≫= as_str) None (Some (ab_device binding))
       (Some (lm_operation_id record)) (Some remote_thread_key));
  Ok (mkReadSend thread expected_thread requested_seq params).

Section read_sync.
Context `{ThreadIndex, WireCodec}.
Context {World : Type}.

(** The answer to accept: final, and at least as far as what was sent. *)
Definition accept_ack (raw : Value) (current_did : string) (send : ReadSend)
    : ImResult (string * MarkReadStateWireResponse) :=
  response ← parse_mark_read_state_response raw current_did (sd_expected_thread send);
  match rp_read_watermark_server_seq response with
  | None => incomplete_read_ack "read ACK has no server watermark"
  | Some acknowledged_seq =>
      if negb (rp_remote_acknowledged response) || rp_pending_remote_ack response
         || rp_partial response then
        incomplete_read_ack "read ACK is not final or is below the sent watermark"
      else
        order ← compare_decimal acknowledged_seq (sd_requested_seq send);
        match order with
        | Lt => incomplete_read_ack "read ACK is not final or is below the sent watermark"
        | _ => Ok (acknowledged_seq, response)
        end
  end.

(** ** The surroundings *)

Record ReadRuntime := mkReadRuntime {
  rr_rpc : World → Value → ImResult Value * World;
  rr_stamp : World → Stamp;
  (** [refresh_session_and_lane_epoch] *)
  rr_refresh : World → ImResult unit * World;
  rr_active_binding : World → ImResult ActiveSyncAccountBinding * World;
  rr_input : nat → ReadInput;
  rr_fails : nat → option ImError;
  rr_client_did : string }.

(** [rx_sent] records the marks sent, [rx_acked] the ones the service accepted. *)
Record ReadRun := mkReadRun {
  rx_world : World;
  rx_tick : nat;
  rx_db : ReadDb;
  rx_sent : list LocalMutationRecord;
  rx_acked : list LocalMutationRecord }.
Context (rt : ReadRuntime).
Notation M := (RunM ReadRun).

Definition statement {A} (f : ReadInput → ReadDb → ImResult (A * ReadDb)) : M A := λ s,
  let k := rx_tick s in
  let after db := mkReadRun (rx_world s) (S k) db (rx_sent s) (rx_acked s) in
  match rr_fails rt k with
  | Some e => (Err e, after (rx_db s))
  | None =>
      match f (rr_input rt k) (rx_db s) with
      | Ok (a, db) => (Ok a, after db)
      | Err e => (Err e, after (rx_db s))
      end
  end.
Definition world {A} (f : World → ImResult A * World) : M A := λ s,
  let r := f (rx_world s) in
  (r.1, mkReadRun r.2 (rx_tick s) (rx_db s) (rx_sent s) (rx_acked s)).
Definition note_sent (record : LocalMutationRecord) : M unit :=
  modify (λ s, mkReadRun (rx_world s) (rx_tick s) (rx_db s) (rx_sent s ++ [record]) (rx_acked s)).
Definition note_acked (record : LocalMutationRecord) : M unit :=
  modify (λ s, mkReadRun (rx_world s) (rx_tick s) (rx_db s) (rx_sent s) (rx_acked s ++ [record])).
(** The result of a computation, its error included. *)
Definition outcome_of {A} (m : M A) : M (ImResult A) := λ s, let r := m s in (Ok r.1, r.2).

(** ** Sending *)

Definition send_claimed_read_mutation (binding : ActiveSyncAccountBinding)
    (record : LocalMutationRecord) : M unit :=
  stamp ← gets (λ s, rr_stamp rt (rx_world s));
  send ← lift (build_read_send stamp (rr_client_did rt) binding record);
  _ ← note_sent record;
  raw ← world (λ w, rr_rpc rt w (sd_params send));
  acked ← lift (accept_ack raw (ab_current_did binding) send);
  _ ← note_acked record;
  _ ← statement (λ input db,
        mark_thread_read_and_update_outbox input db (ab_owner binding) (ab_current_did binding)
          (mkMarkInput (sd_thread send) (rp_read_watermark_message_id acked.2) (Some acked.1)
             (Some (rp_read_at acked.2)) false));
  mret ().

Definition on_outbox {A} (f : Db → ImResult (A * Db)) (s : ReadDb) : ImResult (A * ReadDb) :=
  r ← f (rd_db s); Ok (r.1, on_db r.2 s).

Definition settle_read_failure (binding : ActiveSyncAccountBinding) (record : LocalMutationRecord)
    (now : Z) (error : ImError) : M unit :=
  match read_verdict record now error with
  | GiveUp code =>
      statement (λ _, on_outbox (λ db,
        db' ← permanently_fail_local_mutation db (ab_owner binding) (lm_mutation_id record) code now;
        Ok ((), db')))
  | RetryAt code retry_at =>
      statement (λ _, on_outbox (λ db,
        Ok ((), retry_local_mutation db (ab_owner binding) (lm_mutation_id record) code retry_at)))
  end.

(** The error that asks for a new session, if any. *)
Fixpoint drain_read_outbox (binding : ActiveSyncAccountBinding) (limit : nat)
    : M (option ImError) :=
  match limit with
  | O => mret None
  | S limit =>
      now ← gets (λ s, ri_now (rr_input rt (rx_tick s)));
      claimed ← statement (λ _, on_outbox (λ db, claim_next_read_mutation db (ab_owner binding) now));
      match claimed with
      | None => mret None
      | Some record =>
          sent ← outcome_of (send_claimed_read_mutation binding record);
          match sent with
          | Ok _ => drain_read_outbox binding limit
          | Err error =>
              _ ← settle_read_failure binding record now error;
              if is_device_epoch_rejection error then mret (Some error)
              else drain_read_outbox binding limit
          end
      end
  end.

Definition process_read_outbox (binding : ActiveSyncAccountBinding) (limit : nat) : M unit :=
  first ← drain_read_outbox binding limit;
  match first with
  | None => mret ()
  | Some error =>
      if negb (is_device_epoch_rejection error) then lift (Err error)
      else
        _ ← world (rr_refresh rt);
        binding ← world (rr_active_binding rt);
        second ← drain_read_outbox binding limit;
        match second with
        | None => mret ()
        | Some error => lift (Err error)
        end
  end.
End read_sync.
Arguments mkReadRuntime {_}.
Arguments mkReadRun {_}.
