(* ===== verification/ReadSyncProps.v ===== *)
(** * Properties of the writeback of read marks *)

From Stdlib Require Import Ascii.
From S2P Require Import Prelude RustStr ImError Effects Decimal Store SyncStore Outbox Lanes Wire Recovery Failure ReadState ReadBind ReadProps ReadWire ReadSync.
Local Open Scope Z_scope.

(** ** Mutations in flight *)

(** A mutation of the owner is in flight. *)
Definition aloft (owner : string) (db : Db) (id : string) : Prop :=
  ∃ m, m ∈ db_outbox db ∧ lm_of owner id m = true ∧ in_flight m.

Lemma lm_of_ident o id m m' : lm_ident m = lm_ident m' → lm_of o id m = lm_of o id m'.
Proof.
  intros E. destruct (lm_ident_keys _ _ E) as (K & _).
  apply eq_true_iff_eq. by rewrite !lm_of_true, K.
Qed.

Lemma update_aloft o db p f id :
  (∀ m, lm_ident (f m) = lm_ident m) →
  (∀ m, p m = true → in_flight (f m) → in_flight m) →
  aloft o (update_outbox p f db) id → aloft o db id.
Proof.
  intros Hid Hf (m' & (m & Hm & Im & ->)%(update_elem _ _ _ Hid) & Ho & Hfl).
  exists m. split; [done|]. rewrite <- (lm_of_ident _ _ _ _ Im). split; [done|].
  destruct (p m) eqn:E; [by apply Hf|done].
Qed.

Lemma claim_next_aloft db owner now c db' id :
  outbox_wf (db_outbox db) →
  claim_next_read_mutation db owner now = Ok (Some c, db') →
  aloft owner db' id → aloft owner db id ∨ id = lm_mutation_id c.
Proof.
  intros Hwf Hc (m' & Hm' & Ho & Hfl).
  apply claim_next_inv in Hc as (m & Hm & _ & _ & C); [|done].
  destruct (cl_origin _ _ _ _ _ C m' Hm') as (m0 & H0 & E & Hor).
  rewrite (lm_of_ident _ _ _ _ E) in Ho. destruct (Hor Hfl) as [?| ->]; [left; by exists m0|].
  right. apply lm_of_true in Ho. injection Ho as _ <-.
  by destruct (lm_ident_keys _ _ (cl_ident _ _ _ _ _ C)) as ([= _ ->] & _).
Qed.

Lemma lm_set_flight m st a r i e u :
  st ≠ "in_flight"%string → in_flight (lm_set m st a r i e u) → in_flight m.
Proof. unfold in_flight. simpl. done. Qed.

Lemma retry_aloft db owner id code at_time x :
  aloft owner (retry_local_mutation db owner id code at_time) x → aloft owner db x ∧ x ≠ id.
Proof.
  intros Ha. split.
  - eapply update_aloft; [..|exact Ha]; [done|]. intros m _. by apply lm_set_flight.
  - intros ->. destruct Ha as (m' & (m & Hm & ->)%elem_of_update_where & Ho & Hfl).
    destruct (lm_of owner id m && is_status "in_flight" m) eqn:E; [by unfold in_flight in Hfl|].
    rewrite Ho in E. simpl in E. apply is_status_true in Hfl. congruence.
Qed.
Lemma fail_aloft db owner id code at_time db' x :
  permanently_fail_local_mutation db owner id code at_time = Ok db' →
  aloft owner db' x → aloft owner db x ∧ x ≠ id.
Proof.
  intros Hf%permanently_fail_inv Ha. split.
  - destruct Ha as (m' & Hm' & Ho & Hfl). rewrite Hf in Hm'.
    apply elem_of_update_where in Hm' as (m & Hm & ->). exists m.
    destruct (_ && _) in Ho, Hfl; [by unfold in_flight in Hfl|done].
  - intros ->. destruct Ha as (m' & Hm' & Ho & Hfl). rewrite Hf in Hm'.
    apply elem_of_update_where in Hm' as (m & Hm & ->).
    destruct (lm_of owner id m && is_status "in_flight" m) eqn:E; [by unfold in_flight in Hfl|].
    rewrite Ho in E. simpl in E. apply is_status_true in Hfl. congruence.
Qed.

Lemma update_outbox_other p f db : db_read_states (update_outbox p f db) = db_read_states db.
Proof. done. Qed.

Section sync.
Context `{ThreadIndex, WireCodec}.
Context {World : Type} (rt : ReadRuntime (World := World)).
Implicit Types (s : ReadRun (World := World)) (db : ReadDb).

(** An acknowledged mark puts nothing in flight. *)
Lemma settle_outbox input db owner did mark res db' :
  mi_pending_remote_ack mark = false → outbox_wf (db_outbox (rd_db db)) →
  mark_thread_read_and_update_outbox input db owner did mark = Ok (res, db') →
  outbox_wf (db_outbox (rd_db db')) ∧
  ∀ id, aloft owner (rd_db db') id → aloft owner (rd_db db) id.
Proof.
  intros Hp Hwf Hm. unfold mark_thread_read_and_update_outbox in Hm. rewrite Hp in Hm.
  apply bind_Ok in Hm as ([r s1] & Hmark & Hm). apply mark_outbox in Hmark as (Eo & _).
  assert (outbox_wf (db_outbox (rd_db s1)) ∧
          ∀ id, aloft owner (rd_db s1) id → aloft owner (rd_db db) id) as Hs1.
  { unfold aloft. by rewrite Eo. }
  destruct (mr_watermark_seq r) as [seq|]; [|by injection Hm as _ <-].
  destruct (load_identity_account_binding _ _); [|by injection Hm as _ <-].
  destruct (remote_key_of s1 owner r) as [key|]; [|by injection Hm as _ <-].
  apply bind_Ok in Hm as (s2 & Hset & Hm). injection Hm as _ <-.
  unfold settle_mark in Hset. apply bind_Ok in Hset as (s3 & Ha & Hset).
  destruct Hs1 as [Hwf1 Hal].
  assert (outbox_wf (db_outbox (rd_db s3)) ∧
          ∀ id, aloft owner (rd_db s3) id → aloft owner (rd_db s1) id) as [Hwf3 Hal3].
  { pose proof Ha as Hu. unfold acknowledge in Ha. apply bind_Ok in Ha as (d & Hd & Ha).
    injection Ha as <-. split.
    - eapply (outbox_step_advances (ri_now input)); [done|]. by eapply ob_acknowledge.
    - apply acknowledge_inv in Hd as ->; [|done]. intros id. apply update_aloft; [done|].
      intros m _. by apply lm_set_flight. }
  injection Hset as <-. destruct (exists_where _ _); auto.
Qed.

(** ** One mark *)

Record sent_one (owner : string) (record : LocalMutationRecord) s (r : ImResult unit) s' : Prop := {
  so_wf : outbox_wf (db_outbox (rd_db (rx_db s')));
  so_aloft : ∀ id, aloft owner (rd_db (rx_db s')) id → aloft owner (rd_db (rx_db s)) id;
  so_sent : rx_sent s' = rx_sent s ∨ rx_sent s' = rx_sent s ++ [record];
  so_acked : rx_acked s' = rx_acked s ∨
             rx_acked s' = rx_acked s ++ [record] ∧ rx_sent s' = rx_sent s ++ [record];
  so_ok : ∀ u, r = Ok u → rx_acked s' = rx_acked s ++ [record] }.

Lemma send_inv binding record s r s' :
  outbox_wf (db_outbox (rd_db (rx_db s))) →
  send_claimed_read_mutation rt binding record s = (r, s') →
  sent_one (ab_owner binding) record s r s'.
Proof.
  intros Hwf Hs. unfold send_claimed_read_mutation in Hs. cbn in Hs.
  unfold mbind, run_bind, lift, gets, world, note_sent, note_acked, modify in Hs. cbn in Hs.
  destruct (build_read_send _ _ _ _) as [send|e]; [|injection Hs as <- <-; by split; auto].
  cbn in Hs. destruct (rr_rpc rt (rx_world s) (sd_params send)) as [[raw|e] w]; cbn in Hs;
    [|injection Hs as <- <-; by split; auto].
  destruct (accept_ack raw _ send) as [acked|e]; cbn in Hs; [|injection Hs as <- <-; by split; auto].
  unfold statement in Hs. cbn in Hs.
  destruct (rr_fails rt (rx_tick s)) as [e|]; [injection Hs as <- <-; by split; auto|].
  destruct (mark_thread_read_and_update_outbox _ _ _ _ _) as [[res db]|e] eqn:Em;
    [|injection Hs as <- <-; by split; auto].
  injection Hs as <- <-. apply settle_outbox in Em as [? ?]; [|done|done]. split; auto.
Qed.

(** A failed mark is settled: it is no longer in flight. *)
Lemma settle_failure_inv binding record now error s s' u :
  outbox_wf (db_outbox (rd_db (rx_db s))) →
  settle_read_failure rt binding record now error s = (Ok u, s') →
  outbox_wf (db_outbox (rd_db (rx_db s'))) ∧
  (∀ id, aloft (ab_owner binding) (rd_db (rx_db s')) id →
     aloft (ab_owner binding) (rd_db (rx_db s)) id ∧ id ≠ lm_mutation_id record) ∧
  rx_sent s' = rx_sent s ∧ rx_acked s' = rx_acked s.
Proof.
  intros Hwf Hs. unfold settle_read_failure, statement, on_outbox in Hs.
  destruct (read_verdict record now error) as [code|code at_time]; cbn in Hs;
    (destruct (rr_fails rt (rx_tick s)); [done|]).
  - destruct (permanently_fail_local_mutation _ _ _ _ _) as [db|] eqn:Ef; cbn in Hs; [|done].
    injection Hs as <- <-. split_and!; try done.
    + eapply (outbox_step_advances now); [done|]. by eapply ob_fail.
    + intros id. by eapply fail_aloft.
  - injection Hs as <- <-. split_and!; try done.
    + eapply (outbox_step_advances now); [done|]. apply ob_retry.
    + intros id. apply retry_aloft.
Qed.

(** ** The drain *)

(** Only marks the service has accepted are in flight. *)
Record drained (owner : string) s : Prop := {
  dr_wf : outbox_wf (db_outbox (rd_db (rx_db s)));
  dr_aloft : ∀ id, aloft owner (rd_db (rx_db s)) id → id ∈ lm_mutation_id <$> rx_acked s }.

(** The marks sent, and of those the ones accepted, grow by at most [n]. *)
Record sends (n : nat) s s' : Prop := {
  sn_sent : ∃ l, rx_sent s' = rx_sent s ++ l ∧ (length l ≤ n)%nat;
  sn_acked : rx_acked s ⊆ rx_acked s';
  sn_accepted : rx_acked s ⊆ rx_sent s → rx_acked s' ⊆ rx_sent s' }.
Lemma sends_refl n s s' :
  rx_sent s' = rx_sent s → rx_acked s' = rx_acked s → sends n s s'.
Proof.
  intros E E'. split; rewrite ?E, ?E'; [|done..]. exists []. rewrite app_nil_r. split; [done|].
  apply Nat.le_0_l.
Qed.
Lemma sends_trans n n' s s1 s' : sends n s s1 → sends n' s1 s' → sends (n + n') s s'.
Proof.
  intros [(l & E & Hl) A B] [(l' & E' & Hl') A' B']. split; [|by etrans|auto].
  exists (l ++ l'). rewrite E', E, app_assoc, length_app. split; [done|lia].
Qed.
Lemma sent_sends o record s r s' : sent_one o record s r s' → sends 1 s s'.
Proof.
  intros [_ _ Hs Ha _]. split.
  - destruct Hs as [->| ->]; [exists []|exists [record]]; rewrite ?app_nil_r; split; try done; simpl; lia.
  - destruct Ha as [->|[-> _]]; [done|]. set_solver.
  - intros Hsub. destruct Ha as [->|[-> ->]]; [destruct Hs as [->| ->]; set_solver|set_solver].
Qed.

Lemma drain_inv binding limit s r s' :
  drained (ab_owner binding) s →
  drain_read_outbox rt binding limit s = (r, s') →
  sends limit s s' ∧ ∀ o, r = Ok o → drained (ab_owner binding) s'.
Proof.
  revert s. induction limit as [|limit IH]; intros s I Hd; cbn in Hd.
  { injection Hd as <- <-. split; [by apply sends_refl|done]. }
  unfold mbind, run_bind, gets in Hd. cbn in Hd. set (now := ri_now _) in Hd.
  destruct (statement rt _ s) as [[claimed|e] s1] eqn:Ec.
  2: { injection Hd as <- <-. split; [|done]. unfold statement, on_outbox in Ec.
       repeat case_match; simplify_eq; by apply sends_refl. }
  unfold statement, on_outbox in Ec. destruct (rr_fails rt (rx_tick s)); [done|].
  destruct (claim_next_read_mutation _ _ now) as [[c d]|] eqn:Eq; cbn in Ec; [|done].
  injection Ec as <- <-. destruct c as [record|].
  2: { injection Hd as <- <-. apply claim_next_inv in Eq as [-> _]; [|apply I].
       split; [by apply sends_refl|]. intros _ _. by destruct I. }
  set (s1 := mkReadRun _ _ _ _ _) in Hd.
  assert (outbox_wf (db_outbox d)) as Hwf1.
  { pose proof Eq as Eq'. apply claim_next_inv in Eq as (m & _ & _ & _ & C); [|apply I]. apply C. }
  assert (∀ id, aloft (ab_owner binding) d id →
            id ∈ lm_mutation_id <$> rx_acked s ∨ id = lm_mutation_id record) as Hal1.
  { intros id Hid. apply (claim_next_aloft _ _ _ _ _ _ (dr_wf _ _ I) Eq) in Hid as [?| ->]; [|auto].
    left. by apply I. }
  unfold outcome_of in Hd. destruct (send_claimed_read_mutation rt binding record s1) as [sent s2] eqn:Es.
  cbn in Hd. apply send_inv in Es; [|done]. pose proof (sent_sends _ _ _ _ _ Es) as Hs2.
  assert (sends 1 s s2) as Hs by (destruct Hs2; by split).
  destruct sent as [u|error].
  - apply IH in Hd as [Hn Hok]; [split; [by eapply (sends_trans 1)|done]|]. split; [apply Es|].
    intros id Hid%(so_aloft _ _ _ _ _ Es)%Hal1. rewrite (so_ok _ _ _ _ _ Es u eq_refl). simpl.
    rewrite fmap_app. set_solver.
  - destruct (settle_read_failure rt binding record now error s2) as [[[]|e] s3] eqn:Ef; cbn in Hd.
    + apply settle_failure_inv in Ef as (Hwf3 & Hal3 & E3 & E3'); [|apply Es].
      assert (sends 1 s s3) as Hs3 by (destruct Hs; split; by rewrite ?E3, ?E3').
      assert (drained (ab_owner binding) s3) as I3.
      { split; [done|]. intros id [Hid Hne]%Hal3. rewrite E3'.
        apply (so_aloft _ _ _ _ _ Es), Hal1 in Hid as [Hid|?]; [|done].
        apply list_elem_of_fmap in Hid as (x & -> & Hx).
        apply list_elem_of_fmap_2, (sn_acked _ _ _ Hs), Hx. }
      destruct (is_device_epoch_rejection error).
      * injection Hd as <- <-. split; [|done]. apply (sends_trans 1 limit _ s3); [done|by apply sends_refl].
      * apply IH in Hd as [Hn Hok]; [|done]. split; [by eapply (sends_trans 1)|done].
    + injection Hd as <- <-. split; [|done]. apply (sends_trans 1 limit _ s2); [done|].
      unfold settle_read_failure, statement, on_outbox in Ef.
      repeat case_match; simplify_eq; by apply sends_refl.
Qed.
End sync.
