(* ===== verification/ReadSyncClaims.v ===== *)
(** * Claims about the writeback of read marks *)

From Stdlib Require Import Ascii.
From S2P Require Import Prelude RustStr ImError Effects Decimal Store SyncStore Outbox Lanes Wire Recovery Failure ReadState ReadBind ReadProps ReadWire ReadSync ReadSyncProps.
Local Open Scope Z_scope.

Section claims.
Context `{ThreadIndex, WireCodec}.
Context {World : Type} (rt : ReadRuntime (World := World)).
Implicit Types (s : ReadRun (World := World)).


(** A mark that could not be sent is settled exactly as its failure asks: given up
    when its payload is corrupt or, for a group mark without a message, when the service
    did not know the target at the third attempt; otherwise queued again, at once after
    a rejected device epoch and at most five minutes later otherwise. No other mark
    changes. *)
Theorem read_failure_settled binding record now error s s' u m :
  settle_read_failure rt binding record now error s = (Ok u, s') →
  m ∈ db_outbox (rd_db (rx_db s)) →
  lm_of (ab_owner binding) (lm_mutation_id record) m = true → in_flight m →
  0 ≤ now ≤ i64_max - 300 →
  (∃ m', m' ∈ db_outbox (rd_db (rx_db s')) ∧ lm_ident m' = lm_ident m ∧
     lm_attempt_count m' = lm_attempt_count m ∧ lm_payload_json m' = lm_payload_json m ∧
     if bool_decide (error_code error = Some "SYNC_LOCAL_OUTBOX_CORRUPT"%string)
        || (is_read_target_not_found record error && is_sequence_only_group_read record
            && (3 <=? lm_attempt_count record))
     then lm_status m' = "permanent_failure"%string
     else lm_status m' = "retryable"%string ∧
       ∃ t, lm_retry_at m' = Some t ∧
         if is_device_epoch_rejection error then t = now else now + 5 ≤ t ≤ now + 300) ∧
  (∀ x, lm_of (ab_owner binding) (lm_mutation_id record) x = false →
     x ∈ db_outbox (rd_db (rx_db s')) ↔ x ∈ db_outbox (rd_db (rx_db s))).
Proof.
  intros Hs Hm Hof Hfl Hnow. apply is_status_true in Hfl.
  set (hit := λ x, lm_of (ab_owner binding) (lm_mutation_id record) x && is_status "in_flight" x).
  assert (hit m = true) as Hhit by (unfold hit; by rewrite Hof, Hfl).
  assert (∃ f, (∀ x, lm_ident (f x) = lm_ident x) ∧
    db_outbox (rd_db (rx_db s')) = update_where hit f (db_outbox (rd_db (rx_db s))) ∧
    f m = match read_verdict record now error with
          | GiveUp code => lm_set m "permanent_failure" (lm_attempt_count m) None None (Some code) now
          | RetryAt code t => lm_set m "retryable" (lm_attempt_count m) (Some t) None (Some code) t
          end) as (f & Hid & Eo & Ef).
  { unfold settle_read_failure, statement, on_outbox in Hs.
    destruct (read_verdict record now error) as [code|code t]; cbn in Hs;
      (destruct (rr_fails rt (rx_tick s)); [done|]).
    - destruct (permanently_fail_local_mutation _ _ _ _ _) as [db|] eqn:Ep; cbn in Hs; [|done].
      injection Hs as <- <-. apply permanently_fail_inv in Ep. eexists. split; [|split; [exact Ep|done]]. done.
    - injection Hs as <- <-. eexists. split; [|split; [reflexivity|done]]. done. }
  rewrite Eo. split.
  - exists (f m). split; [apply elem_of_update_where; exists m; by rewrite Hhit|].
    split; [apply Hid|]. rewrite Ef. unfold read_verdict, GROUP_SEQUENCE_ONLY_TARGET_NOT_FOUND_MAX_ATTEMPTS.
    destruct (bool_decide _); simpl; [done|].
    destruct (is_read_target_not_found record error && is_sequence_only_group_read record) eqn:Es; simpl.
    + destruct (3 <=? lm_attempt_count record); simpl; [done|]. split_and!; try done.
      eexists. split; [done|]. destruct (is_device_epoch_rejection error); [done|].
      unfold sequence_only_group_read_retry_delay, i64_saturating_add, clamp_i64, i64_min, i64_max in *. destruct (_ <=? 1); lia.
    + split_and!; try done. eexists. split; [done|]. destruct (is_device_epoch_rejection error); [done|].
      unfold i64_saturating_add, clamp_i64, i64_min, i64_max in *. repeat case_match; lia.
  - intros x Hx. rewrite elem_of_update_where. split.
    + intros (y & Hy & ->). destruct (hit y) eqn:Ey; [|done]. exfalso.
      rewrite (lm_of_ident _ _ _ _ (Hid y)) in Hx. unfold hit in Ey. by rewrite Hx in Ey.
    + intros Hin. exists x. split; [done|]. unfold hit. by rewrite Hx.
Qed.

(** The acknowledgement of a mark commits the marks it covers, provided that the
    account is bound, the thread has a watermark and its conversation a remote key. *)
Theorem accepted_mark_committed input db owner did mark res db' seq key m :
  outbox_wf (db_outbox (rd_db db)) → mi_pending_remote_ack mark = false →
  mark_thread_read_and_update_outbox input db owner did mark = Ok (res, db') →
  is_Some (load_identity_account_binding (rd_db db) owner) →
  mr_watermark_seq res = Some seq → mr_remote_thread_key res = Some key →
  m ∈ db_outbox (rd_db db) →
  ack_candidate owner key (Some (mr_conversation_id res)) m = true →
  at_or_below (default seq (mi_watermark_seq mark)) m = true →
  commit (ri_now input) m ∈ db_outbox (rd_db db').
Proof.
  intros Hwf Hp Hm [account Hacc] Eseq Ekey Hin Hc Hb.
  unfold mark_thread_read_and_update_outbox in Hm. rewrite Hp in Hm.
  apply bind_Ok in Hm as ([r s1] & Hmark & Hm). apply mark_outbox in Hmark as (Eo & _ & _ & Eb).
  destruct (mr_watermark_seq r) as [q|] eqn:Eq; [|injection Hm as <- _; congruence].
  destruct (load_identity_account_binding (rd_db s1) owner) eqn:Ea;
    [|unfold load_identity_account_binding in *; rewrite Eb in Ea; congruence].
  destruct (remote_key_of s1 owner r) as [k|]; [|by injection Hm as <- _].
  apply bind_Ok in Hm as (s2 & Hset & Hm). injection Hm as <- <-. simpl in *.
  injection Ekey as ->. rewrite Eq in Eseq. injection Eseq as ->.
  unfold settle_mark in Hset. apply bind_Ok in Hset as (s3 & Ha & Hset).
  apply acknowledge_reads in Ha as ->; [|by rewrite Eo].
  assert (commit (ri_now input) m ∈ update_where
            (λ m, ack_candidate owner key (Some (mr_conversation_id r)) m
                  && at_or_below (default seq (mi_watermark_seq mark)) m)
            (commit (ri_now input)) (db_outbox (rd_db s1))) as Hgoal.
  { apply elem_of_update_where. exists m. rewrite Eo, Hc, Hb. done. }
  injection Hset as <-. by destruct (exists_where _ _).
Qed.
End claims.

(** ** Examples *)

Definition ex_codec : WireCodec := {|
  to_canonical _ := None; sha256_hex s := s; time_rfc3339 _ := true;
  chrono_rfc3339 _ := Some 0; group_transport_profile := "p6" |}.
Definition ex_thread_index : ThreadIndex := {|
  direct_peer_ids _ _ _ peer := Ok [direct_conversation_id_for_peer_ref peer];
  peer_scope_legacy_ids _ _ _ _ := Ok [] |}.
#[local] Existing Instance ex_codec.
#[local] Existing Instance ex_thread_index.

(** A service that accepts every mark, and one that knows no target. *)
Definition ex_answer (params : Value) : ImResult Value :=
  match vget params "body" ≫= (λ body, vget body "thread"),
        vget params "body" ≫= (λ body, vget body "read_up_to_server_seq") with
  | Some thread, Some seq =>
      Ok (VObject [("user_did", VString "did:a"); ("thread", thread);
                   ("updated_count", VNumber (PosInt 1)); ("remote_acknowledged", VBool true);
                   ("partial", VBool false); ("fallback_used", VBool false);
                   ("pending_remote_ack", VBool false); ("read_watermark_server_seq", seq);
                   ("advanced", VBool true); ("read_at", VString "t-5"); ("warnings", VArray [])])
  | _, _ => Err AuthRequired
  end%string.
Definition ex_refusal : ImError :=
  Service None (Some "anp.target_not_found"%string) "no target" None.
Definition ex_active : ActiveSyncAccountBinding :=
  mkActiveBinding "owner-1" "account-1" "did:a" "device-1" "1" "1".
Definition ex_surroundings (answer : Value → ImResult Value) : ReadRuntime (World := unit) :=
  mkReadRuntime (λ _ params, (answer params, ())) (λ _, mkStamp "1" "t-4") (λ _, (Ok (), ()))
    (λ _, (Ok ex_active, ())) (λ k, mkReadInput (700 + Z.of_nat k) "t-5" "m-late" "op-late")
    (λ _, None) "did:a".

(** A direct thread is marked, then its conversation gets its canonical name. *)
Definition ex_step {A} (d : ReadDb) (r : ImResult (A * ReadDb)) : ReadDb :=
  match r with Ok (_, db) => db | Err _ => d end.
Definition ex_bind (conv : string) (db : ReadDb) : ReadDb :=
  unwrap_or (upsert_sync_thread_binding (mkReadInput 600 "t-1" "m-0" "op-0") db
               (mkThreadBinding "owner-1" "key-1" "direct" conv 600)) db.
Definition ex_marks (conv seq id : string) (db : ReadDb) : ReadDb :=
  ex_step db (mark_thread_read_and_update_outbox
    (mkReadInput 650 "t-2" id ("op-" +:+ id)) db "owner-1" "did:a"
    (mkMarkInput (Thread conv) None (Some seq) None true)).
Definition ex_named : ReadDb :=
  ex_marks "dm:did:peer" "4" "m-1" (ex_bind "dm:did:peer" (mkReadDb ex_db [] [] [] [])).
Definition ex_upgraded : ReadDb := ex_bind "dm:peer-scope:v1:peer" ex_named.
Definition ex_run (db : ReadDb) : ReadRun (World := unit) := mkReadRun () 0 db [] [].
Definition ex_processed (answer : Value → ImResult Value) (db : ReadDb)
    : ImResult unit * ReadRun (World := unit) :=
  process_read_outbox (ex_surroundings answer) ex_active 4 (ex_run db).

Definition ex_in_flight (db : ReadDb) : list string :=
  lm_mutation_id <$> select_where (is_status "in_flight") (db_outbox (rd_db db)).

Definition ex_later : ReadDb :=
  ex_marks "dm:peer-scope:v1:peer" "9" "m-2" (rx_db (ex_processed ex_answer ex_upgraded).2).


Lemma ex_settled : ex_in_flight (rx_db (ex_processed ex_answer ex_named).2) = [].
Proof. vm_compute. reflexivity. Qed.

Definition ex_mutation : LocalMutationRecord :=
  default (mkMutation "" "" "" "" "" None "" 0 None None None 0 0) (head (db_outbox (rd_db ex_named))).
Lemma ex_named_outbox : db_outbox (rd_db ex_named) = [ex_mutation].
Proof. vm_compute. reflexivity. Qed.
Lemma ex_named_wf : outbox_wf (db_outbox (rd_db ex_named)).
Proof.
  rewrite ex_named_outbox. split; [apply NoDup_singleton..| |].
  - intros m ->%list_elem_of_singleton. vm_compute. repeat split; congruence.
  - intros m m' ->%list_elem_of_singleton ->%list_elem_of_singleton. done.
Qed.
Lemma ex_none_aloft id : ¬ aloft "owner-1" (rd_db ex_named) id.
Proof.
  intros (m & Hm & _ & Hf). rewrite ex_named_outbox in Hm.
  apply list_elem_of_singleton in Hm as ->. by vm_compute in Hf.
Qed.


(** The third attempt of a group mark without a message. *)
Definition ex_group_mark : LocalMutationRecord :=
  mkMutation "owner-1" "m-3" "op-3" "read_state_mark_read" "g"
    (Some (VObject [("thread_kind", VString "group"); ("thread_id", VString "group:g");
                    ("remote_thread_key", VString "g"); ("read_watermark_seq", VString "4")]))%string
    "in_flight" 3 None (Some 650) None 600 650.
Definition ex_group_run : ReadRun (World := unit) :=
  ex_run (mkReadDb (with_outbox [ex_group_mark] ex_db) [] [] [] []).
Definition ex_settle : ImResult unit * ReadRun (World := unit) :=
  settle_read_failure (ex_surroundings ex_answer) ex_active ex_group_mark 700 ex_refusal ex_group_run.
Lemma ex_settle_ok :
  settle_read_failure (ex_surroundings ex_answer) ex_active ex_group_mark 700 ex_refusal ex_group_run
  = (Ok (), ex_settle.2).
Proof. vm_compute. reflexivity. Qed.

Lemma read_failure_settled_witness :
  ∃ m', m' ∈ db_outbox (rd_db (rx_db ex_settle.2)) ∧
    lm_ident m' = lm_ident ex_group_mark ∧ lm_attempt_count m' = 3 ∧
    lm_payload_json m' = lm_payload_json ex_group_mark ∧
    lm_status m' = "permanent_failure"%string.
Proof.
  refine (proj1 (read_failure_settled (ex_surroundings ex_answer) ex_active ex_group_mark 700
    ex_refusal ex_group_run ex_settle.2 () ex_group_mark ex_settle_ok _ _ _ _)).
  - apply list_elem_of_singleton. reflexivity.
  - reflexivity.
  - reflexivity.
  - unfold i64_max. lia.
Defined.
