(* ===== verification/ReadIds.v ===== *)
(** * Marking messages by their ids

    The functions of [local_state/messages.rs] that turn message ids into what is to
    be marked: the classification into direct, group and local-only messages, the
    watermark of each conversation, the ids up to a watermark that the legacy protocol
    is told, and the marking of single messages. The conversation summaries derived
    from messages are left out, and so are the writes of a resolution that fails. *)

From Stdlib Require Import Ascii.
From S2P Require Import Prelude RustStr ImError Decimal Store SyncStore Outbox ReadState ReadBind.
Local Open Scope Z_scope.

(** ** Message metadata *)

(** [anp::direct_e2ee::DIRECT_E2EE_PROFILE_V2] *)
Class DirectProfile := { direct_e2ee_profile_v2 : string }.

(** [parse_metadata(..).get(key).and_then(Value::as_str)] *)
Definition metadata_str (metadata : option Value) (key : string) : option string :=
  metadata ≫= λ v, vget v key ≫= as_str.
Definition p5_cache_keys : list string :=
  ["p5_cache_sender_did"; "p5_cache_sender_device_id"; "p5_cache_recipient_did";
   "p5_cache_recipient_device_id"; "p5_cache_binding_digest"]%string.

Definition authenticated_p5_v2_raw_message_id `{DirectProfile} (metadata : option Value)
    : option string :=
  if bool_decide (trim <$> metadata_str metadata "p5_cache_profile" = Some direct_e2ee_profile_v2)
     && forallb (λ key, bool_decide (is_Some (trimmed_nonempty (metadata_str metadata key))))
          p5_cache_keys
  then trimmed_nonempty (metadata_str metadata "raw_message_id") else None.

(** ** Classification *)

Record MarkReadClassification := mkClassification {
  cf_direct_ids : list string;
  cf_remote_direct_ids : list string;
  cf_group_ids : list string;
  cf_local_only_ids : list string }.
Definition local_ids (c : MarkReadClassification) : list string :=
  cf_direct_ids c ++ cf_group_ids c ++ cf_local_only_ids c.

Definition is_group_message (m : MessageRow) : bool :=
  negb (is_empty (trim (mg_group_did m))) || negb (is_empty (trim (mg_group_id m))).
Definition is_local_mail_notification (m : MessageRow) : bool :=
  bool_decide (trim (mg_content_type m) = "mail.notification"%string)
  || bool_decide (trim <$> metadata_str (mg_metadata m) "source_kind" = Some "mail"%string).

(** The stored row of a requested id. *)
Definition identity_row (s : ReadDb) (owner requested : string) : option MessageRow :=
  resolve_message_identity s owner requested ≫= λ canonical,
  head (select_where (message_named owner canonical) (db_messages (rd_db s))).
Definition classification_row (s : ReadDb) (owner requested : string) : option MessageRow :=
  if is_empty requested then None else identity_row s owner requested.

Section mark_ids.
Context `{ThreadIndex, DirectProfile}.

Definition remote_mark_read_id (m : MessageRow) (requested : string) : string :=
  default requested (authenticated_p5_v2_raw_message_id (mg_metadata m)).

Definition classify_id (s : ReadDb) (owner : string) (c : MarkReadClassification) (id : string)
    : MarkReadClassification :=
  let requested := trim id in
  match classification_row s owner requested with
  | None => mkClassification (cf_direct_ids c ++ [id]) (cf_remote_direct_ids c ++ [id])
              (cf_group_ids c) (cf_local_only_ids c)
  | Some m =>
      if is_local_mail_notification m then
        mkClassification (cf_direct_ids c) (cf_remote_direct_ids c) (cf_group_ids c)
          (cf_local_only_ids c ++ [id])
      else if is_group_message m then
        mkClassification (cf_direct_ids c) (cf_remote_direct_ids c) (cf_group_ids c ++ [id])
          (cf_local_only_ids c)
      else
        mkClassification (cf_direct_ids c ++ [id])
          (cf_remote_direct_ids c ++ [remote_mark_read_id m requested]) (cf_group_ids c)
          (cf_local_only_ids c)
  end.
Definition nonblank_ids (ids : list string) : list string :=
  filter (λ id, is_empty id = false) (trim <$> ids).
Definition classify_mark_read_ids_for_owner_identity (s : ReadDb) (owner : string)
    (message_ids : list string) : ImResult MarkReadClassification :=
  let classified owner := fold_left (classify_id s owner) message_ids (mkClassification [] [] [] []) in
  match nonblank_ids message_ids with
  | [] => Ok (classified owner)
  | _ => owner ← required "owner_identity_id" owner; Ok (classified owner)
  end.

(** ** Marking single messages *)

Definition canonical_message_ids (s : ReadDb) (owner : string) (ids : list string) : list string :=
  fold_left push_unique (omap (resolve_message_identity s owner) ids) [].
Definition mark_messages_read_for_owner (s : ReadDb) (owner : string) (message_ids : list string)
    : ImResult (Z * ReadDb) :=
  match nonblank_ids message_ids with
  | [] => Ok (0, s)
  | ids =>
      owner ← required "owner_identity_id" owner;
      match canonical_message_ids s owner ids with
      | [] => Ok (0, s)
      | canonical =>
          Ok (mark_messages (λ m, bool_decide (mg_owner_identity_id m = owner)
                                  && bool_decide (mg_msg_id m ∈ canonical)) s)
      end
  end.

(** ** Ids up to a watermark *)

Record ThreadUnreadMessageIds := mkUnreadIds {
  ui_message_ids : list string;
  ui_truncated : bool }.
Definition no_ids : ThreadUnreadMessageIds := mkUnreadIds [] false.
Definition normalize_thread_mark_read_limit (limit : Z) : Z := Z.max 1 (Z.min limit 500).
Definition collect_message_ids_with_truncation (rows : list MessageRow) (limit : Z)
    : ThreadUnreadMessageIds :=
  let ids := fold_left push_unique ((λ m, trim (mg_msg_id m)) <$> rows) [] in
  let truncated := limit <? Z.of_nat (length ids) in
  mkUnreadIds (if truncated then take (Z.to_nat limit) ids else ids) truncated.

Definition incoming_in (owner : string) (conversation_ids : list string) (m : MessageRow) : bool :=
  (mg_direction m =? 0) && message_in owner conversation_ids m.
Definition list_incoming_message_ids_up_to_seq (s : ReadDb) (owner : string)
    (conversation_ids : list string) (seq : string) (limit : Z) : ImResult ThreadUnreadMessageIds :=
  seq ← normalize_read_watermark_seq seq;
  match conversation_ids with
  | [] => Ok no_ids
  | _ =>
      Ok (collect_message_ids_with_truncation
            (order_limit latest_ge (limit + 1)
               (select_where (λ m, incoming_in owner conversation_ids m && seq_up_to seq m
                                   && negb (is_empty (sql_trim (mg_msg_id m))))
                  (db_messages (rd_db s)))) limit)
  end.
Definition list_incoming_message_ids_up_to_message (s : ReadDb) (owner : string)
    (conversation_ids : list string) (message_id : string) (limit : Z)
    : ImResult ThreadUnreadMessageIds :=
  message_id ← required "read_watermark_message_id" message_id;
  match conversation_ids with
  | [] => Ok no_ids
  | _ =>
      let message_id := canonical_message_id_for_request s owner message_id in
      match head (select_where
                    (λ m, message_named owner message_id m && message_in owner conversation_ids m
                          && bool_decide (is_Some (mg_server_seq m)))
                    (db_messages (rd_db s))) ≫= mg_server_seq with
      | Some seq =>
          list_incoming_message_ids_up_to_seq s owner conversation_ids (i64_to_string seq) limit
      | None =>
          Ok (collect_message_ids_with_truncation
                (take (Z.to_nat (limit + 1))
                   (select_where (λ m, incoming_in owner conversation_ids m
                                       && message_named owner message_id m)
                      (db_messages (rd_db s)))) limit)
      end
  end.
Definition list_incoming_message_ids_up_to_watermark (s : ReadDb) (owner owner_did : string)
    (thread : ThreadRef) (message_id seq : option string) (limit : Z)
    : ImResult ThreadUnreadMessageIds :=
  owner ← required "owner_identity_id" owner;
  let limit := normalize_thread_mark_read_limit limit in
  conversation_ids ← conversation_ids_for_thread_ref s owner owner_did thread;
  match conversation_ids, trimmed_nonempty seq, trimmed_nonempty message_id with
  | [], _, _ => Ok no_ids
  | _, Some seq, _ => list_incoming_message_ids_up_to_seq s owner conversation_ids seq limit
  | _, None, Some id => list_incoming_message_ids_up_to_message s owner conversation_ids id limit
  | _, None, None => Ok no_ids
  end.

(** [SELECT MAX(server_seq)] *)
Definition max_seq (rows : list MessageRow) : option Z :=
  fold_left (λ acc m, match acc, mg_server_seq m with
                      | Some a, Some b => Some (Z.max a b)
                      | None, o => o
                      | a, None => a
                      end) rows None.
Definition max_server_seq_for_thread_ref (s : ReadDb) (owner owner_did : string)
    (thread : ThreadRef) : ImResult (option Z) :=
  owner ← required "owner_identity_id" owner;
  conversation_ids ← conversation_ids_for_thread_ref s owner owner_did thread;
  match conversation_ids with
  | [] => Ok None
  | _ => Ok (max_seq (select_where (message_in owner conversation_ids) (db_messages (rd_db s))))
  end.

(** ** The watermarks a set of ids stands for *)

Record V2MarkReadWatermark := mkPlan {
  pl_conversation_id : string;
  pl_message_id : string;
  pl_server_seq : string }.
Record V2MarkReadResolution := mkResolution {
  rv_watermarks : list V2MarkReadWatermark;
  rv_local_only_message_ids : list string }.

Definition recover_sync_thread_binding_from_message_metadata (input : ReadInput) (s : ReadDb)
    (owner conversation_id thread_kind : string) (metadata : option Value)
    : ImResult (option SyncThreadBinding * ReadDb) :=
  if (bool_decide (thread_kind = "direct"%string) && negb (starts_with conversation_id "dm:"))
     || (bool_decide (thread_kind = "group"%string) && negb (starts_with conversation_id "group:"))
  then Ok (None, s)
  else
    match trimmed_nonempty (metadata_str metadata "remote_thread_key") with
    | None => Ok (None, s)
    | Some key =>
        let binding := mkThreadBinding owner key thread_kind conversation_id (ri_now input) in
        s' ← upsert_sync_thread_binding input s binding;
        Ok (Some binding, s')
    end.

Definition message_not_found {A} (id : string) : ImResult A := Err (MessageNotFound id).
(** [COALESCE(NULLIF(TRIM(conversation_id), ''), TRIM(thread_id))] *)
Definition trimmed_conversation_of (m : MessageRow) : string :=
  if is_empty (sql_trim (mg_conversation_id m)) then sql_trim (mg_thread_id m)
  else sql_trim (mg_conversation_id m).

(** [str::parse::<i64>] of the digits a plan holds. *)
Definition parse_i64_digits (s : string) : option Z :=
  if negb (is_empty s) && all_digits s && (decimal_value s <=? i64_max)
  then Some (decimal_value s) else None.
(** The plan of a conversation keeps the furthest message. *)
Definition put_plan (plans : list V2MarkReadWatermark) (plan : V2MarkReadWatermark) (seq : Z)
    : list V2MarkReadWatermark :=
  let same p := bool_decide (pl_conversation_id p = pl_conversation_id plan) in
  match head (select_where same plans) with
  | Some current =>
      if match parse_i64_digits (pl_server_seq current) with Some n => seq <=? n | None => false end
      then plans
      else update_where same (λ _, plan) plans
  | None => plans ++ [plan]
  end.

Definition resolve_one (input : ReadInput) (owner : string)
    (acc : list V2MarkReadWatermark * list string * ReadDb) (requested : string)
    : ImResult (list V2MarkReadWatermark * list string * ReadDb) :=
  let '(plans, local_only, s) := acc in
  match identity_row s owner requested with
  | None => message_not_found requested
  | Some m =>
      if negb (mg_direction m =? 0) then
        Err (invalid_input (Some "message_ids.direction"%string)
          "Only received messages can be marked as read. Sent messages are already read locally.")
      else if negb (bool_decide (trim (mg_hydration_state m) = "hydrated"%string)) then
        message_not_found requested
      else if bool_decide (is_Some (authenticated_p5_v2_raw_message_id (mg_metadata m))) then
        Ok (plans, push_unique local_only (mg_msg_id m), s)
      else
        match mg_server_seq m with
        | Some seq =>
            if negb (0 <? seq) then
              Err (IdentityBindingConflict ("message " +:+ requested
                     +:+ " has no committed Sync V2 thread sequence"))
            else
              let conversation_id := trimmed_conversation_of m in
              let kind := if starts_with conversation_id "group:" then "group"%string
                          else "direct"%string in
              loaded ← load_sync_thread_binding_for_conversation s owner conversation_id kind;
              bound ← match loaded with
                      | Some b => Ok (Some b, s)
                      | None => recover_sync_thread_binding_from_message_metadata input s owner
                                  conversation_id kind (mg_metadata m)
                      end;
              if match bound.1 with
                 | Some b => negb (bool_decide (tb_conversation_id b = conversation_id))
                 | None => false
                 end then
                Err (IdentityBindingConflict ("message " +:+ requested
                       +:+ " Sync V2 thread binding changed concurrently"))
              else
                Ok (put_plan plans (mkPlan conversation_id (mg_msg_id m) (i64_to_string seq)) seq,
                    local_only, bound.2)
        | None => Err (IdentityBindingConflict ("message " +:+ requested
                         +:+ " has no committed Sync V2 thread sequence"))
        end
  end.

(** The order of a [BTreeMap] by conversation. *)
Definition plan_le (p q : V2MarkReadWatermark) : Prop :=
  str_le (pl_conversation_id p) (pl_conversation_id q).
#[export] Instance plan_le_dec p q : Decision (plan_le p q).
Proof. unfold plan_le. apply _. Defined.

Definition resolve_v2_mark_read_watermarks (input : ReadInput) (s : ReadDb) (owner : string)
    (message_ids : list string) : ImResult (V2MarkReadResolution * ReadDb) :=
  owner ← required "owner_identity_id" owner;
  r ← try_fold (resolve_one input owner) ([], [], s) (nonblank_ids message_ids);
  let '(plans, local_only, s') := r in
  Ok (mkResolution (merge_sort plan_le plans) local_only, s').
End mark_ids.
