(* ===== verification/ReadMark.v ===== *)
(** * Marking a thread read

    [MessageMarkReadRuntime::mark_thread_read_async] of [message_runtime/mark_read.rs]
    and [mark_message_ids_read_v2_async] of [messages/service.rs]: the mark is stored and queued, the queued mutation claimed,
    sent and settled; a service that does not know the method is told the message ids
    instead.

    The transport, the session, the resolution of a conversation for the service, the
    clocks and the texts of errors are the surroundings; statements on the database may
    fail. The projection events sent to observers are left out. Instants are integers. *)

From Stdlib Require Import Ascii.
From S2P Require Import Prelude RustStr ImError Effects Decimal Store SyncStore Outbox Lanes Wire Recovery Failure ReadState ReadBind ReadWire ReadSync ReadIds.
Local Open Scope Z_scope.

(** ** Data *)

Record ReadWatermark := mkReadWatermark {
  wm_last_read_message_id : option string;
  wm_last_read_thread_seq : option string;
  wm_read_at : option Z }.
Record MarkThreadReadRequest := mkThreadRequest {
  tq_thread : ThreadRef;
  tq_watermark : option ReadWatermark;
  tq_fallback_max_message_ids : option Z }.
Record MarkThreadReadInput := mkThreadInput {
  ti_request : MarkThreadReadRequest;
  ti_remote_thread : option ThreadRef }.
Record MarkThreadReadResult := mkThreadResult {
  tt_updated_count : Z;
  tt_remote_acknowledged : bool;
  tt_partial : bool;
  tt_fallback_used : bool;
  tt_pending_remote_ack : bool;
  tt_effective_watermark : option ReadWatermark;
  tt_legacy_message_ids : list string;
  tt_warnings : list string }.
Record MarkReadResult := mkReadResult {
  rr_updated_count : Z;
  rr_message_ids : list string;
  rr_warnings : list string }.
Record ClaimedReadSend := mkClaimedSend {
  cs_mutation_id : string;
  cs_operation_id : string;
  cs_thread : ThreadRef;
  cs_watermark : ReadWatermark;
  cs_remote_thread_key : string }.
Record LegacyThreadFallbackResult := mkFallback {
  lf_message_ids : list string;
  lf_remote_acknowledged : bool;
  lf_partial : bool;
  lf_warnings : list string;
  lf_raw : option Value }.

(** [u32::try_from(value.max(0)).unwrap_or(u32::MAX)] *)
Definition u32_count_i64 (value : Z) : Z :=
  let value := Z.max value 0 in if value <=? u32_max then value else u32_max.
Definition u32_of_i64 (value : Z) : Z :=
  if (0 <=? value) && (value <=? u32_max) then value else u32_max.
Definition u32_saturating_add (a b : Z) : Z := Z.min (a + b) u32_max.

Definition thread_mark_read_limit (max_message_ids : option Z) : Z :=
  Z.max 1 (Z.min (default 500 max_message_ids) 500).
Definition truncated_warnings (truncated : bool) : list string :=
  if truncated then ["Local unread ids were truncated by fallback_max_message_ids"%string] else [].
Definition warnings_from_raw (value : Value) : list string :=
  match vget value "warnings" ≫= as_array with
  | Some items => filter (λ s, is_empty (trim s) = false) (omap as_str items)
  | None => []
  end.

Definition is_read_state_unsupported_error (error : ImError) : bool :=
  match error with
  | UnsupportedCapability capability =>
      contains capability "read-state" || contains capability "read_state"
  | Service status_code code message _ =>
      let code := default ""%string code in
      let message := to_ascii_lowercase message in
      bool_decide (status_code = Some 404)
      || bool_decide (code ∈ ["-32601"; "4210"; "read_state.unsupported"]%string)
      || contains message "method not found" || contains message "read_state.unsupported"
  | _ => false
  end.

Definition read_ack_error {A} (code message : string) : ImResult A :=
  Err (Service None (Some code) message None).

(** ** Claimed mutations *)

Section claimed.
Context `{WireCodec}.

Definition claimed_field (payload : Value) (name : string) : ImResult string :=
  match vget payload name ≫= as_str with
  | Some value =>
      if negb (is_empty (trim value)) && bool_decide (trim value = value) then Ok value
      else read_ack_error "SYNC_LOCAL_OUTBOX_CORRUPT" ("read outbox payload is missing " +:+ name)
  | None => read_ack_error "SYNC_LOCAL_OUTBOX_CORRUPT" ("read outbox payload is missing " +:+ name)
  end.
Definition claimed_thread (payload : Value) : ImResult ThreadRef :=
  kind ← claimed_field payload "thread_kind";
  if is_direct_or_group kind then
    id ← claimed_field payload "thread_id";
    thread_of_binding kind id
  else read_ack_error "SYNC_LOCAL_OUTBOX_CORRUPT" "read outbox thread_kind must be direct or group".
Definition claimed_read_at (payload : Value) : ImResult (option Z) :=
  match vget payload "read_watermark_at" ≫= as_str with
  | None => Ok None
  | Some text =>
      match chrono_rfc3339 text with
      | Some t => Ok (Some t)
      | None => read_ack_error "SYNC_LOCAL_OUTBOX_CORRUPT" "read outbox read_at must be RFC3339"
      end
  end.
Definition claimed_read_send (record : LocalMutationRecord) : ImResult ClaimedReadSend :=
  payload ← match lm_payload_json record with
            | Some payload => Ok payload
            | None => read_ack_error "SYNC_LOCAL_OUTBOX_CORRUPT" "read outbox payload is invalid"
            end;
  thread ← claimed_thread payload;
  text ← claimed_field payload "read_watermark_seq";
  seq ← match normalize_decimal_seq text with
        | Ok seq => Ok seq
        | Err _ => read_ack_error "SYNC_LOCAL_OUTBOX_CORRUPT"
                     "read outbox watermark must be a canonical decimal"
        end;
  message_id ← transpose (parse_non_empty "message_id")
    (vget payload "read_watermark_message_id" ≫= as_str);
  read_at ← claimed_read_at payload;
  key ← claimed_field payload "remote_thread_key";
  Ok (mkClaimedSend (lm_mutation_id record) (lm_operation_id record) thread
        (mkReadWatermark message_id (Some seq) read_at) key).

Definition validate_final_read_response (client_did : string) (raw : Value) (thread : ThreadRef)
    (remote_thread_key : option string) (requested : ReadWatermark)
    : ImResult (string * MarkReadStateWireResponse) :=
  expected_thread ← read_state_thread_to_wire thread remote_thread_key;
  response ← parse_mark_read_state_response raw client_did expected_thread;
  match wm_last_read_thread_seq requested, rp_read_watermark_server_seq response with
  | None, _ => read_ack_error "READ_STATE_INVALID_ACK" "request has no watermark"
  | Some _, None => read_ack_error "READ_STATE_INCOMPLETE_ACK" "response has no watermark"
  | Some requested_seq, Some acknowledged_seq =>
      if negb (rp_remote_acknowledged response) || rp_pending_remote_ack response
         || rp_partial response then
        read_ack_error "READ_STATE_INCOMPLETE_ACK" "response is not a final ACK for the sent watermark"
      else
        order ← compare_decimal acknowledged_seq requested_seq;
        match order with
        | Lt => read_ack_error "READ_STATE_INCOMPLETE_ACK"
                  "response is not a final ACK for the sent watermark"
        | _ => Ok (acknowledged_seq, response)
        end
  end.
End claimed.

(** ** The runtime *)

Section runtime.
Context `{ThreadIndex, WireCodec, DirectProfile}.
Context {World : Type}.

Record MarkRuntime := mkMarkRuntime {
  mr_base : ReadRuntime (World := World);
  mr_rpc : World → string → Value → ImResult Value * World;
  mr_ensure_session : World → ImResult unit * World;
  (** [chrono::Utc::now], [DateTime::to_rfc3339], the text of an error *)
  mr_now : World → Z;
  mr_to_rfc3339 : Z → string;
  mr_display : ImError → string;
  mr_owner : string;
  mr_device : option string;
  (** [realtime_requires_sync_changed_v2] *)
  mr_requires_sync_v2 : ImResult bool;
  (** [resolve_service_conversation_thread_async(..).ok()] *)
  mr_remote_thread : World → string → option ThreadRef * World }.
Context (rt : MarkRuntime).
Notation M := (RunM (ReadRun (World := World))).
Notation client_did := (rr_client_did (mr_base rt)).
Notation owner := (mr_owner rt).

Definition on_database {A} (f : ReadInput → ReadDb → ImResult (A * ReadDb)) : M A :=
  statement (mr_base rt) f.
Definition query {A} (f : ReadDb → ImResult A) : M A :=
  on_database (λ _ db, a ← f db; Ok (a, db)).
Definition now_utc : M Z := gets (λ s, mr_now rt (rx_world s)).

Definition local_watermark_input (thread : ThreadRef) (watermark : option ReadWatermark)
    (pending : bool) : MarkThreadReadWatermarkInput :=
  mkMarkInput thread (watermark ≫= wm_last_read_message_id)
    (watermark ≫= wm_last_read_thread_seq)
    (mr_to_rfc3339 rt <$> (watermark ≫= wm_read_at)) pending.
Definition mark_thread_read_watermark_local (thread : ThreadRef) (watermark : option ReadWatermark)
    (pending : bool) : M MarkThreadReadWatermarkResult :=
  on_database (λ input db, mark_thread_read_and_update_outbox input db owner client_did
                 (local_watermark_input thread watermark pending)).

Definition normalize_requested_watermark (now : Z) (requested : option ReadWatermark)
    : ImResult (option ReadWatermark) :=
  match requested with
  | None => Ok None
  | Some w =>
      seq ← transpose normalize_read_watermark_seq (wm_last_read_thread_seq w);
      match seq, wm_last_read_message_id w with
      | None, None => Ok None
      | _, id => Ok (Some (mkReadWatermark id seq (Some (default now (wm_read_at w)))))
      end
  end.
Definition effective_watermark (thread : ThreadRef) (requested : option ReadWatermark)
    : M (option ReadWatermark) :=
  now ← now_utc;
  normalized ← lift (normalize_requested_watermark now requested);
  match normalized with
  | Some w => mret (Some w)
  | None =>
      seq ← query (λ db, max_server_seq_for_thread_ref db owner client_did thread);
      mret ((λ seq, mkReadWatermark None (Some (i64_to_string seq)) (Some now)) <$> seq)
  end.

(** ** Claiming, retrying, sending *)

Definition retry_read_send (claimed : option ClaimedReadSend) (code : string) : M unit :=
  match claimed with
  | None => mret ()
  | Some c =>
      on_database (λ input, on_outbox (λ db,
        Ok ((), retry_local_mutation db owner (cs_mutation_id c) code
                  (i64_saturating_add (ri_now input) 5))))
  end.
Definition claim_read_send (operation_id : option string) : M (option ClaimedReadSend) :=
  match operation_id with
  | None => mret None
  | Some operation_id =>
      record ← on_database (λ input, on_outbox (λ db,
        claim_read_mutation_by_operation_id db owner operation_id (ri_now input)));
      match record with
      | None => mret None
      | Some record =>
          match claimed_read_send record with
          | Ok claimed => mret (Some claimed)
          | Err error =>
              _ ← on_database (λ input, on_outbox (λ db,
                    Ok ((), retry_local_mutation db owner (lm_mutation_id record)
                              (default "SYNC_LOCAL_OUTBOX_CORRUPT"%string (error_code error))
                              (i64_saturating_add (ri_now input) 5))));
              lift (Err error)
          end
      end
  end.

Definition mark_read_state_remote (thread : ThreadRef) (watermark : option ReadWatermark)
    (fallback_max_message_ids : option Z) (operation_id remote_thread_key : option string)
    : M Value :=
  match watermark with
  | None => lift (Err (invalid_input (Some "watermark"%string) "read watermark is required"))
  | Some w =>
      _ ← world (mr_ensure_session rt);
      stamp ← gets (λ s, rr_stamp (mr_base rt) (rx_world s));
      params ← lift (build_mark_read_state_rpc_params stamp client_did
        (mkReadRequest thread (wm_last_read_thread_seq w) (wm_last_read_message_id w)
           (mr_to_rfc3339 rt <$> wm_read_at w) fallback_max_message_ids (mr_device rt)
           operation_id remote_thread_key));
      world (λ w, mr_rpc rt w "read_state.mark_read" params)
  end.

(** [build_mark_read_rpc_params] *)
Definition build_mark_read_rpc_params (stamp : Stamp) (message_ids : list string) : ImResult Value :=
  match message_ids with
  | [] => Err (invalid_input (Some "message_ids"%string)
                 "message not found: message_ids are required")
  | _ => Ok (request (local_meta stamp client_did "anp.inbox.local.v1")
               [("user_did", VString client_did);
                ("message_ids", VArray (VString <$> message_ids))]%string)
  end.
(** The response; its count is not used here. *)
Definition mark_direct_ids_remote (direct_ids : list string) : M Value :=
  _ ← world (mr_ensure_session rt);
  stamp ← gets (λ s, rr_stamp (mr_base rt) (rx_world s));
  params ← lift (build_mark_read_rpc_params stamp direct_ids);
  world (λ w, mr_rpc rt w "inbox.mark_read" params).

(** ** The legacy protocol *)

Definition legacy_read_state_fallback_allowed : bool :=
  match mr_requires_sync_v2 rt with Ok b => negb b | Err _ => false end.

Definition legacy_fallback_mark_thread_read (thread : ThreadRef) (watermark : option ReadWatermark)
    (fallback_max_message_ids : option Z) : M LegacyThreadFallbackResult :=
  lookup ← query (λ db, list_incoming_message_ids_up_to_watermark db owner client_did thread
                    (watermark ≫= wm_last_read_message_id) (watermark ≫= wm_last_read_thread_seq)
                    (thread_mark_read_limit fallback_max_message_ids));
  let warnings := truncated_warnings (ui_truncated lookup) in
  match ui_message_ids lookup with
  | [] => mret (mkFallback [] false (ui_truncated lookup) warnings None)
  | ids =>
      classification ← outcome_of
        (query (λ db, classify_mark_read_ids_for_owner_identity db owner ids));
      let remote_direct_ids :=
        match classification with Ok c => cf_remote_direct_ids c | Err _ => ids end in
      let has_group_or_local :=
        match classification with
        | Ok (mkClassification _ _ [] []) => false
        | Ok _ => true
        | Err _ => false
        end in
      remote ← match remote_direct_ids with
               | [] => mret (false, None, warnings)
               | _ =>
                   r ← outcome_of (mark_direct_ids_remote remote_direct_ids);
                   mret match r with
                        | Ok response => (true, Some response, warnings ++ warnings_from_raw response)
                        | Err error => (false, None, warnings
                            ++ ["Legacy remote mark-read failed: " +:+ mr_display rt error])
                        end
               end;
      let '(acknowledged, raw, warnings) := remote in
      message_ids ← lift (collect (parse_non_empty "message_id") ids);
      mret (mkFallback message_ids acknowledged
              (ui_truncated lookup || has_group_or_local || negb acknowledged) warnings raw)
  end.

(** ** Marking a thread *)

(** What the remote part of a mark leaves: acknowledged, fallback used, pending, the
    response, the ids of the legacy protocol, partial, warnings. *)
Record RemoteMark := mkRemoteMark {
  rk_acknowledged : bool;
  rk_fallback_used : bool;
  rk_pending : bool;
  rk_raw : option Value;
  rk_legacy_ids : list string;
  rk_partial : bool;
  rk_warnings : list string }.

(** The service answered. *)
Definition settle_response (thread : ThreadRef) (claimed : option ClaimedReadSend)
    (send_thread : ThreadRef) (send_watermark : option ReadWatermark)
    (remote_thread_key : option string) (response : Value) : M RemoteMark :=
  let failed code text :=
    _ ← retry_read_send claimed code;
    mret (mkRemoteMark false false true (Some response) [] true [text]) in
  match match send_watermark with
        | None => read_ack_error "READ_STATE_INVALID_ACK" "sent watermark is missing"
        | Some requested => validate_final_read_response client_did response send_thread
                              remote_thread_key requested
        end with
  | Err error =>
      failed (default "READ_STATE_INVALID_ACK"%string (error_code error))
        ("Invalid read-state ACK: " +:+ mr_display rt error)
  | Ok (acknowledged_seq, ack) =>
      message_id ← lift (transpose (parse_non_empty "message_id") (rp_read_watermark_message_id ack));
      let acknowledged := mkReadWatermark message_id (Some acknowledged_seq)
                            (chrono_rfc3339 (rp_read_at ack)) in
      stored ← outcome_of (mark_thread_read_watermark_local thread (Some acknowledged) false);
      match stored with
      | Ok _ => mret (mkRemoteMark true (rp_fallback_used ack) false (Some response) [] false
                        (rp_warnings ack))
      | Err error =>
          _ ← retry_read_send claimed "READ_STATE_LOCAL_ACK_FAILED";
          mret (mkRemoteMark false false true (Some response) [] true
                  (rp_warnings ack ++ ["Failed to commit read-state ACK: " +:+ mr_display rt error]))
      end
  end.

(** The service does not know the method. *)
Definition settle_unsupported (thread : ThreadRef) (claimed : option ClaimedReadSend)
    (send_watermark effective : option ReadWatermark) (fallback_max : option Z) (error : ImError)
    : M RemoteMark :=
  if negb legacy_read_state_fallback_allowed then
    _ ← retry_read_send claimed (default "READ_STATE_UNSUPPORTED"%string (error_code error));
    lift (Err error)
  else
    fallback ← outcome_of (legacy_fallback_mark_thread_read thread effective fallback_max);
    match fallback with
    | Err error =>
        _ ← retry_read_send claimed (default "READ_STATE_FALLBACK_RETRY"%string (error_code error));
        lift (Err error)
    | Ok f =>
        if lf_remote_acknowledged f then
              stored ← outcome_of (mark_thread_read_watermark_local thread send_watermark false);
          match stored with
          | Ok _ => mret (mkRemoteMark true true false (lf_raw f) (lf_message_ids f) (lf_partial f)
                            (lf_warnings f))
          | Err error =>
              _ ← retry_read_send claimed "READ_STATE_LOCAL_ACK_FAILED";
              mret (mkRemoteMark false true true (lf_raw f) (lf_message_ids f) true
                      (lf_warnings f ++ ["Failed to commit fallback ACK: " +:+ mr_display rt error]))
          end
        else
          _ ← retry_read_send claimed "READ_STATE_FALLBACK_PENDING";
          mret (mkRemoteMark false true true (lf_raw f) (lf_message_ids f) (lf_partial f)
                  (lf_warnings f))
    end.

(** The mark is sent and settled. *)
Definition send_mark (input : MarkThreadReadInput) (effective : option ReadWatermark)
    (local : MarkThreadReadWatermarkResult) (claimed : option ClaimedReadSend) : M RemoteMark :=
  let req := ti_request input in
  let thread := tq_thread req in
  let send_thread := match claimed with
                     | Some c => cs_thread c | None => default thread (ti_remote_thread input) end in
  let send_watermark := match claimed with
                        | Some c => Some (cs_watermark c) | None => effective end in
  let operation_id := match claimed with
                      | Some c => Some (cs_operation_id c) | None => mr_outbox_operation_id local end in
  let key := match claimed with
             | Some c => Some (cs_remote_thread_key c) | None => mr_remote_thread_key local end in
  sent ← outcome_of (mark_read_state_remote send_thread send_watermark
                       (tq_fallback_max_message_ids req) operation_id key);
  match sent with
  | Ok response => settle_response thread claimed send_thread send_watermark key response
  | Err error =>
      if is_read_state_unsupported_error error then
        settle_unsupported thread claimed send_watermark effective
          (tq_fallback_max_message_ids req) error
      else
        _ ← retry_read_send claimed (default "READ_STATE_RETRY"%string (error_code error));
        mret (mkRemoteMark false false true None [] true
                ["Remote read-state mark-read failed: " +:+ mr_display rt error])
  end.

Definition mark_thread_read (input : MarkThreadReadInput)
    : M (MarkThreadReadResult * option Value) :=
  let req := ti_request input in
  effective ← effective_watermark (tq_thread req) (tq_watermark req);
  local ← mark_thread_read_watermark_local (tq_thread req) effective true;
  let count := u32_count_i64 (mr_updated_count local) in
  if negb (mr_remote_ack_applicable local) then
    mret (mkThreadResult count false false false false effective [] [], None)
  else
    claimed ← claim_read_send (mr_outbox_operation_id local);
    if bool_decide (is_Some (mr_outbox_operation_id local)) && negb (bool_decide (is_Some claimed)) then
      mret (mkThreadResult count false true false true effective []
              ["Read watermark is queued behind an in-flight predecessor"%string], None)
    else
      remote ← send_mark input effective local claimed;
      mret (mkThreadResult count (rk_acknowledged remote) (rk_partial remote)
              (rk_fallback_used remote) (rk_pending remote) effective (rk_legacy_ids remote)
              (rk_warnings remote), rk_raw remote).

(** ** Marking messages by id *)

Definition mark_plan (acc : Z * list string) (plan : V2MarkReadWatermark) : M (Z * list string) :=
  conversation ← lift (parse_non_empty "conversation_id" (pl_conversation_id plan));
  remote_thread ← (λ s, let r := mr_remote_thread rt (rx_world s) conversation in
    (Ok r.1, mkReadRun r.2 (rx_tick s) (rx_db s) (rx_sent s) (rx_acked s)));
  thread ← lift (parse_non_empty "thread_id" conversation);
  message_id ← lift (parse_non_empty "message_id" (pl_message_id plan));
  now ← now_utc;
  result ← mark_thread_read (mkThreadInput
    (mkThreadRequest (Thread thread)
       (Some (mkReadWatermark (Some message_id) (Some (pl_server_seq plan)) (Some now))) None)
    remote_thread);
  mret (u32_saturating_add acc.1 (tt_updated_count result.1), acc.2 ++ tt_warnings result.1).
Fixpoint mark_plans (acc : Z * list string) (plans : list V2MarkReadWatermark)
    : M (Z * list string) :=
  match plans with
  | [] => mret acc
  | plan :: plans => acc ← mark_plan acc plan; mark_plans acc plans
  end.

Definition mark_message_ids_read_v2 (ids : list string) : M MarkReadResult :=
  match ids with
  | [] => lift (Err (MessageNotFound "message_ids"))
  | _ =>
      resolution ← on_database (λ input db, resolve_v2_mark_read_watermarks input db owner ids);
      local_updated ← match rv_local_only_message_ids resolution with
                      | [] => mret 0
                      | local => on_database (λ _ db, mark_messages_read_for_owner db owner local)
                      end;
      r ← mark_plans (u32_of_i64 local_updated, []) (rv_watermarks resolution);
      mret (mkReadResult r.1 ids r.2)
  end.
End runtime.
