(* ===== verification/ReadMarkProps.v ===== *)
(** * Properties of marking a thread read *)

From Stdlib Require Import Ascii.
From S2P Require Import Prelude RustStr ImError Effects Decimal Store SyncStore Outbox Lanes Wire Recovery Failure ReadState ReadBind ReadProps ReadWire ReadSync ReadSyncProps ReadIds ReadMark.
Local Open Scope Z_scope.

(** ** Mutations in flight *)

Lemma upsert_aloft db owner kind tid key seq mid at_time id op now r db' x :
  upsert_read_outbox db owner kind tid key seq mid at_time id op now = Ok (r, db') →
  aloft owner db' x → aloft owner db x.
Proof.
  unfold upsert_read_outbox, outbox_corrupt. intros Hu. apply bind_Ok in Hu as (? & _ & Hu).
  destruct (head _) as [cur|].
  - destruct (lm_payload_json cur); [|done]. apply bind_Ok in Hu as (c & _ & Hu).
    injection Hu as _ <-. destruct c; [done|done|]. by apply update_aloft.
  - apply bind_Ok in Hu as (d & He & Hu). injection Hu as _ <-.
    unfold enqueue_local_mutation, constraint_failed in He. res_inv. repeat (case_match; try done).
    simplify_eq. intros (m & Hm & Ho & Hf). apply elem_of_app in Hm as [Hm|Hm]; [by exists m|].
    apply list_elem_of_singleton in Hm as ->. done.
Qed.

Lemma claim_operation_aloft db owner op now c db' id :
  outbox_wf (db_outbox db) →
  claim_read_mutation_by_operation_id db owner op now = Ok (Some c, db') →
  outbox_wf (db_outbox db') ∧
  (aloft owner db' id → aloft owner db id ∨ id = lm_mutation_id c).
Proof.
  intros Hwf Hc. apply claim_by_operation_inv in Hc as (m & Hm & _ & _ & C); [|done].
  split; [apply C|]. intros (m' & Hm' & Ho & Hfl).
  destruct (cl_origin _ _ _ _ _ C m' Hm') as (m0 & H0 & E & Hor).
  rewrite (lm_of_ident _ _ _ _ E) in Ho. destruct (Hor Hfl) as [?| ->]; [left; by exists m0|].
  right. apply lm_of_true in Ho. injection Ho as _ <-.
  by destruct (lm_ident_keys _ _ (cl_ident _ _ _ _ _ C)) as ([= _ ->] & _).
Qed.

Section mark.
Context `{ThreadIndex, WireCodec, DirectProfile}.
Context {World : Type} (rt : MarkRuntime (World := World)).
Notation M := (RunM (ReadRun (World := World))).
Implicit Types (s : ReadRun (World := World)) (db : ReadDb).

(** A local mark puts nothing in flight. *)
Lemma mark_update_outbox input db owner did mark res db' :
  outbox_wf (db_outbox (rd_db db)) →
  mark_thread_read_and_update_outbox input db owner did mark = Ok (res, db') →
  outbox_wf (db_outbox (rd_db db')) ∧
  ∀ id, aloft owner (rd_db db') id → aloft owner (rd_db db) id.
Proof.
  intros Hwf Hm. destruct (mi_pending_remote_ack mark) eqn:Hp; [|by eapply settle_outbox].
  unfold mark_thread_read_and_update_outbox in Hm. rewrite Hp in Hm.
  apply bind_Ok in Hm as ([r s1] & Hmark & Hm). apply mark_outbox in Hmark as (Eo & _).
  assert (outbox_wf (db_outbox (rd_db s1)) ∧
          ∀ id, aloft owner (rd_db s1) id → aloft owner (rd_db db) id) as [Hwf1 Hal1].
  { unfold aloft. by rewrite Eo. }
  destruct (mr_watermark_seq r) as [seq|]; [|by injection Hm as _ <-].
  destruct (load_identity_account_binding _ _); [|by injection Hm as _ <-].
  destruct (remote_key_of s1 owner r) as [key|]; [|by injection Hm as _ <-].
  unfold queue_mark, outbox_corrupt in Hm. apply bind_Ok in Hm as (target & _ & Hm).
  destruct target as [[[q mid] tkey]|].
  - apply bind_Ok in Hm as ([op d] & Hu & Hm). injection Hm as _ <-. split.
    + by eapply upsert_read_outbox_advances.
    + intros id Hid. apply Hal1. by eapply upsert_aloft.
  - case_bool_decide; [|done]. by injection Hm as _ <-.
Qed.

(** ** Computations that put nothing in flight *)

Definition grounded (owner : string) s s' : Prop :=
  outbox_wf (db_outbox (rd_db (rx_db s))) →
  outbox_wf (db_outbox (rd_db (rx_db s'))) ∧
  ∀ id, aloft owner (rd_db (rx_db s')) id → aloft owner (rd_db (rx_db s)) id.
#[export] Instance grounded_refl owner : Reflexive (grounded owner).
Proof. by intros s. Qed.
#[export] Instance grounded_trans owner : Transitive (grounded owner).
Proof.
  intros s1 s2 s3 H12 H23 Hwf. destruct (H12 Hwf) as [Hwf2 Ha]. destruct (H23 Hwf2) as [Hwf3 Hb].
  split; [done|auto].
Qed.

Lemma grounded_lift owner {A} (r : ImResult A) : moves (grounded owner) (lift (S := ReadRun (World := World)) r).
Proof. by intros s r' s' [= <- <-]. Qed.
Lemma grounded_ret owner {A} (a : A) : moves (grounded owner) (mret (M := M) a).
Proof. by intros s r' s' [= <- <-]. Qed.
Lemma grounded_gets owner {A} (f : ReadRun → A) : moves (grounded owner) (gets f).
Proof. by intros s r' s' [= <- <-]. Qed.
Lemma grounded_world owner {A} (f : World → ImResult A * World) : moves (grounded owner) (world f).
Proof. by intros s r' s' [= <- <-]. Qed.
Lemma grounded_outcome owner {A} (m : M A) :
  moves (grounded owner) m → moves (grounded owner) (outcome_of m).
Proof. intros Hm s r s'. unfold outcome_of. intros [= <- <-]. eapply Hm. apply surjective_pairing. Qed.
Lemma grounded_statement owner (base : ReadRuntime (World := World)) {A}
    (f : ReadInput → ReadDb → ImResult (A * ReadDb)) :
  (∀ input db a db', outbox_wf (db_outbox (rd_db db)) → f input db = Ok (a, db') →
     outbox_wf (db_outbox (rd_db db')) ∧
     ∀ id, aloft owner (rd_db db') id → aloft owner (rd_db db) id) →
  moves (grounded owner) (statement base f).
Proof.
  intros Hf s r s' Hs Hwf. unfold statement in Hs. destruct (rr_fails base _); [by injection Hs as _ <-|].
  destruct (f _ _) as [[a db]|e] eqn:E; injection Hs as _ <-; [|done]. by eapply Hf.
Qed.
Lemma grounded_query owner {A} (f : ReadDb → ImResult A) : moves (grounded owner) (query rt f).
Proof.
  apply grounded_statement. intros input db a db' Hwf Hq. apply bind_Ok in Hq as (x & _ & Hq).
  by injection Hq as _ <-.
Qed.

Lemma grounded_bind owner {A B} (m : M A) (f : A → M B) :
  moves (grounded owner) m → (∀ a, moves (grounded owner) (f a)) → moves (grounded owner) (m ≫= f).
Proof. apply moves_bind, _. Qed.
Lemma grounded_local thread w pending :
  moves (grounded (mr_owner rt)) (mark_thread_read_watermark_local rt thread w pending).
Proof. apply grounded_statement. intros. by eapply mark_update_outbox. Qed.
Lemma grounded_retry claimed code : moves (grounded (mr_owner rt)) (retry_read_send rt claimed code).
Proof.
  destruct claimed as [c|]; [|apply grounded_ret]. apply grounded_statement.
  intros input db a db' Hwf Hf. injection Hf as <- <-. split.
  - eapply (outbox_step_advances (ri_now input)); [done|]. apply ob_retry.
  - intros id Hid. by apply retry_aloft in Hid as [? _].
Qed.
End mark.

#[export] Hint Resolve grounded_lift grounded_ret grounded_gets grounded_world grounded_outcome
  grounded_query grounded_local grounded_retry : grounded.
#[export] Hint Extern 1 (moves (grounded _) (_ ≫= _)) => apply grounded_bind : grounded.

Section settle.
Context `{ThreadIndex, WireCodec, DirectProfile}.
Context {World : Type} (rt : MarkRuntime (World := World)).
Notation M := (RunM (ReadRun (World := World))).
Implicit Types (s : ReadRun (World := World)).

Lemma grounded_remote thread w limit op key :
  moves (grounded (mr_owner rt)) (mark_read_state_remote rt thread w limit op key).
Proof.
  unfold mark_read_state_remote. destruct w; [|auto with grounded].
  repeat (apply grounded_bind; [auto with grounded|intros ?]). auto with grounded.
Qed.
Lemma grounded_effective thread w : moves (grounded (mr_owner rt)) (effective_watermark rt thread w).
Proof.
  unfold effective_watermark. do 2 (apply grounded_bind; [unfold now_utc; auto with grounded|intros ?]).
  destruct a0; [auto with grounded|]. apply grounded_bind; auto with grounded.
Qed.
Lemma grounded_direct_ids ids : moves (grounded (mr_owner rt)) (mark_direct_ids_remote rt ids).
Proof.
  unfold mark_direct_ids_remote. repeat (apply grounded_bind; [auto with grounded|intros ?]).
  auto with grounded.
Qed.
Lemma grounded_fallback thread w limit :
  moves (grounded (mr_owner rt)) (legacy_fallback_mark_thread_read rt thread w limit).
Proof.
  unfold legacy_fallback_mark_thread_read. apply grounded_bind; [auto with grounded|intros lookup].
  destruct (ui_message_ids lookup); [auto with grounded|].
  apply grounded_bind; [auto with grounded|intros cls].
  apply grounded_bind; [|intros [[? ?] ?]; apply grounded_bind; auto with grounded].
  case_match; [auto with grounded|].
  apply grounded_bind; [apply grounded_outcome, grounded_direct_ids|auto with grounded].
Qed.

(** The mutation is no longer in flight, nor is any other that was not before. *)
Definition lands (id : string) s s' : Prop :=
  outbox_wf (db_outbox (rd_db (rx_db s))) →
  outbox_wf (db_outbox (rd_db (rx_db s'))) ∧
  ∀ x, aloft (mr_owner rt) (rd_db (rx_db s')) x → aloft (mr_owner rt) (rd_db (rx_db s)) x ∧ x ≠ id.
Lemma grounded_lands id s s1 s' :
  grounded (mr_owner rt) s s1 → lands id s1 s' → lands id s s'.
Proof.
  intros Hg Hl Hwf. destruct (Hg Hwf) as [Hwf1 Ha]. destruct (Hl Hwf1) as [Hwf' Hb].
  split; [done|]. intros x Hx. destruct (Hb x Hx). auto.
Qed.
Lemma lands_grounded id s s1 s' :
  lands id s s1 → grounded (mr_owner rt) s1 s' → lands id s s'.
Proof.
  intros Hl Hg Hwf. destruct (Hl Hwf) as [Hwf1 Ha]. destruct (Hg Hwf1) as [Hwf' Hb].
  split; [done|]. intros x Hx. by apply Ha, Hb.
Qed.

Context (Hcalm : ∀ k, rr_fails (mr_base rt) k = None).

Lemma retry_lands c code s r s' :
  retry_read_send rt (Some c) code s = (r, s') → r = Ok () ∧ lands (cs_mutation_id c) s s'.
Proof.
  unfold retry_read_send, on_database, statement, on_outbox. rewrite Hcalm. cbn.
  intros [= <- <-]. split; [done|]. intros Hwf. split.
  - eapply (outbox_step_advances 0); [done|]. apply ob_retry.
  - intros x. apply retry_aloft.
Qed.

(** What an ending computation does to the claimed mutation: it was acknowledged, or
    it is no longer in flight. *)
Definition settled (claimed : option ClaimedReadSend) (m : M RemoteMark) : Prop :=
  ∀ s r s', m s = (r, s') →
    grounded (mr_owner rt) s s' ∧
    ((∃ k, r = Ok k ∧ rk_acknowledged k = true) ∨
     ∀ c, claimed = Some c → lands (cs_mutation_id c) s s').

Lemma settled_after claimed {A} (m : M A) (f : A → M RemoteMark) :
  moves (grounded (mr_owner rt)) m → (∀ s e s', m s ≠ (Err e, s')) →
  (∀ a, settled claimed (f a)) → settled claimed (m ≫= f).
Proof.
  intros Hm Hne Hf s r s' Hr. unfold mbind, run_bind in Hr.
  destruct (m s) as [[a|e] s1] eqn:E; [|by destruct (Hne s e s1)].
  apply Hf in Hr as [Hg Hor]. pose proof (Hm _ _ _ E) as Hg1. split; [by etrans|].
  destruct Hor as [?|Hl]; [by left|]. right. intros c Hc. eapply grounded_lands; [done|auto].
Qed.
Lemma outcome_total {A} (m : M A) s e s' : outcome_of m s ≠ (Err e, s').
Proof. done. Qed.
Lemma settled_retry claimed code (f : unit → M RemoteMark) :
  (∀ s r s', f () s = (r, s') → grounded (mr_owner rt) s s') →
  settled claimed (retry_read_send rt claimed code ≫= f).
Proof.
  intros Hf s r s' Hr. unfold mbind, run_bind in Hr.
  destruct (retry_read_send rt claimed code s) as [r1 s1] eqn:E.
  pose proof (grounded_retry rt claimed code _ _ _ E) as Hg.
  destruct claimed as [c|].
  - apply retry_lands in E as [-> Hl]. pose proof (Hf _ _ _ Hr) as Hg'.
    split; [by etrans|]. right. intros ? [= <-]. by eapply lands_grounded.
  - injection E as <- <-. split; [by eapply Hf|]. by right.
Qed.
Lemma settled_acked claimed k : rk_acknowledged k = true → settled claimed (mret k).
Proof. intros Hk s r s' [= <- <-]. split; [done|]. left. eauto. Qed.

Lemma response_id_canonical raw did thread response id :
  parse_mark_read_state_response raw did thread = Ok response →
  rp_read_watermark_message_id response = Some id →
  parse_non_empty "message_id" id = Ok id.
Proof.
  unfold parse_mark_read_state_response, invalid_response. intros Hp Hid.
  apply bind_Ok in Hp as (m & _ & Hp). repeat (case_match; try done).
  repeat (apply bind_Ok in Hp as (? & ? & Hp)).
  injection Hp as <-. simpl in Hid. subst.
  match goal with H : response_message_id _ = Ok _ |- _ => rename H into Hm end.
  unfold response_message_id, invalid_response in Hm. repeat (case_match; try done).
  injection Hm as <-. bool_hyps. unfold parse_non_empty.
  match goal with H : trim _ = _ |- _ => rewrite H in * end.
  by match goal with H : is_empty _ = false |- _ => rewrite H end.
Qed.
Lemma final_response_id did raw thread key w seq response :
  validate_final_read_response did raw thread key w = Ok (seq, response) →
  ∃ o, transpose (parse_non_empty "message_id") (rp_read_watermark_message_id response) = Ok o.
Proof.
  unfold validate_final_read_response, read_ack_error. intros Hv.
  apply bind_Ok in Hv as (et & _ & Hv). apply bind_Ok in Hv as (resp & Hp & Hv).
  assert (resp = response) as ->.
  { repeat (case_match; try done). apply bind_Ok in Hv as (o & _ & Hv).
    destruct o; [| |]; by injection Hv as _ <- || done. }
  destruct (rp_read_watermark_message_id response) as [id|] eqn:Eid; [|by eexists].
  simpl. rewrite (response_id_canonical _ _ _ _ _ Hp Eid). by eexists.
Qed.

Lemma settle_response_settled thread claimed st sw key response :
  settled claimed (settle_response rt thread claimed st sw key response).
Proof.
  unfold settle_response. destruct (match sw with None => _ | Some _ => _ end) as [[seq ack]|error] eqn:E.
  - destruct sw as [w|]; [|done]. destruct (final_response_id _ _ _ _ _ _ _ E) as [o ->].
    apply settled_after; [auto with grounded|done|]. intros id.
    apply settled_after; [auto with grounded|apply outcome_total|]. intros [x|error].
    + by apply settled_acked.
    + apply settled_retry. intros s r s'. apply grounded_ret.
  - apply settled_retry. intros s r s'. apply grounded_ret.
Qed.
Lemma settle_unsupported_settled thread claimed sw effective limit error :
  settled claimed (settle_unsupported rt thread claimed sw effective limit error).
Proof.
  unfold settle_unsupported. destruct (negb _).
  { apply settled_retry. intros s r s'. apply grounded_lift. }
  apply settled_after; [apply grounded_outcome, grounded_fallback|apply outcome_total|].
  intros [f|e]; [|apply settled_retry; intros s r s'; apply grounded_lift].
  destruct (lf_remote_acknowledged f); [|apply settled_retry; intros s r s'; apply grounded_ret].
  apply settled_after; [auto with grounded|apply outcome_total|]. intros [x|e].
  - by apply settled_acked.
  - apply settled_retry. intros s r s'. apply grounded_ret.
Qed.

Lemma send_mark_settled input effective local claimed :
  settled claimed (send_mark rt input effective local claimed).
Proof.
  unfold send_mark. cbn zeta.
  apply settled_after; [apply grounded_outcome, grounded_remote|apply outcome_total|].
  intros [response|error]; [apply settle_response_settled|].
  destruct (is_read_state_unsupported_error error); [apply settle_unsupported_settled|].
  apply settled_retry. intros s r s'. apply grounded_ret.
Qed.

(** A claim puts one mutation in flight, or, when its payload is unreadable, none. *)
Lemma claim_read_send_inv op s r s' :
  outbox_wf (db_outbox (rd_db (rx_db s))) →
  claim_read_send rt op s = (r, s') →
  outbox_wf (db_outbox (rd_db (rx_db s'))) ∧
  ∀ x, aloft (mr_owner rt) (rd_db (rx_db s')) x → aloft (mr_owner rt) (rd_db (rx_db s)) x ∨
    ∃ c, r = Ok (Some c) ∧ x = cs_mutation_id c.
Proof.
  intros Hwf Hc. unfold claim_read_send in Hc. destruct op as [op|]; [|injection Hc as <- <-; auto].
  unfold mbind, run_bind, on_database, statement, on_outbox in Hc. rewrite Hcalm in Hc. cbn in Hc.
  destruct (claim_read_mutation_by_operation_id _ _ _ _) as [[[record|] db]|e] eqn:E; cbn in Hc.
  - pose proof (λ x, claim_operation_aloft _ _ _ _ _ _ x Hwf E) as Ha.
    destruct (claimed_read_send record) as [c|error] eqn:Ec; cbn in Hc.
    + injection Hc as <- <-. split; [apply (Ha ""%string)|]. intros x Hx.
      destruct (proj2 (Ha x) Hx) as [?| ->]; [by left|]. right. exists c. split; [done|].
      unfold claimed_read_send, read_ack_error in Ec. repeat (apply bind_Ok in Ec as (? & _ & Ec)).
      by injection Ec as <-.
    + rewrite Hcalm in Hc. cbn in Hc. injection Hc as <- <-. split.
      * eapply (outbox_step_advances 0); [apply (Ha ""%string)|]. apply ob_retry.
      * intros x [Hx Hne]%retry_aloft. destruct (proj2 (Ha x) Hx) as [?| ->]; [by left|done].
  - apply claim_by_operation_inv in E; [|done]. injection Hc as <- <-. simpl in E. rewrite E. auto.
  - injection Hc as <- <-. auto.
Qed.

Lemma mark_thread_read_inv input s r s' :
  outbox_wf (db_outbox (rd_db (rx_db s))) →
  mark_thread_read rt input s = (r, s') →
  outbox_wf (db_outbox (rd_db (rx_db s'))) ∧
  ∀ x, aloft (mr_owner rt) (rd_db (rx_db s')) x → aloft (mr_owner rt) (rd_db (rx_db s)) x ∨
    ∃ res raw, r = Ok (res, raw) ∧ tt_remote_acknowledged res = true.
Proof.
  intros Hwf Hm. unfold mark_thread_read in Hm.
  apply run_bind_inv in Hm as (e1 & s1 & E1 & Hm).
  pose proof (grounded_effective _ _ _ _ _ E1 Hwf) as [Hwf1 Ha1].
  destruct e1 as [effective|e]; [|destruct Hm as [-> ->]; auto].
  apply run_bind_inv in Hm as (e2 & s2 & E2 & Hm).
  pose proof (grounded_local rt _ _ _ _ _ _ E2 Hwf1) as [Hwf2 Ha2].
  destruct e2 as [local|e]; [|destruct Hm as [-> ->]; auto].
  destruct (negb _); [injection Hm as <- <-; auto|].
  apply run_bind_inv in Hm as (e3 & s3 & E3 & Hm).
  apply claim_read_send_inv in E3 as [Hwf3 Ha3]; [|done].
  destruct e3 as [claimed|e].
  2: { destruct Hm as [-> ->]. split; [done|]. intros x Hx. left.
       destruct (Ha3 x Hx) as [?|(c & ? & _)]; [auto|done]. }
  assert (∀ x, aloft (mr_owner rt) (rd_db (rx_db s3)) x →
            aloft (mr_owner rt) (rd_db (rx_db s)) x ∨ cs_mutation_id <$> claimed = Some x) as Hc.
  { intros x Hx. destruct (Ha3 x Hx) as [?|(c & [= ->] & ->)]; auto. }
  destruct (bool_decide _ && _) eqn:Ew.
  { injection Hm as <- <-. split; [done|]. intros x Hx. left. destruct (Hc x Hx) as [?|Ex]; [done|].
    apply andb_true_iff in Ew as [_ Ew]. apply negb_true_iff, bool_decide_eq_false in Ew.
    destruct claimed; [by destruct Ew|done]. }
  apply run_bind_inv in Hm as (e4 & s4 & E4 & Hm). apply send_mark_settled in E4 as [Hg4 Hor].
  destruct (Hg4 Hwf3) as [Hwf4 Ha4].
  assert (s' = s4 ∧ ∀ k, e4 = Ok k → ∃ res raw, r = Ok (res, raw) ∧
            tt_remote_acknowledged res = rk_acknowledged k) as [-> Hres].
  { destruct e4 as [k|e]; [injection Hm as <- <-|destruct Hm as [-> ->]]; [|done].
    split; [done|]. intros ? [= <-]. by do 2 eexists. }
  split; [done|]. intros x Hx. destruct Hor as [(k & Ek & Hk)|Hl].
  - right. destruct (Hres k Ek) as (res & raw & -> & Er). do 2 eexists. split; [done|congruence].
  - left. destruct (Hc x) as [?|Ex]; [auto|done|]. destruct claimed as [c|]; [|done].
    injection Ex as <-. destruct (Hl c eq_refl Hwf3) as [_ Hno]. by destruct (Hno _ Hx).
Qed.
End settle.

(** ** The plan of a set of ids *)

Section plans.
Implicit Types (plans : list V2MarkReadWatermark).

(** One plan per conversation. *)
Definition plans_wf plans : Prop := NoDup (pl_conversation_id <$> plans).
(** Some plan of the conversation reaches [seq]. *)
Definition covers plans (conversation : string) (seq : Z) : Prop :=
  ∃ p, p ∈ plans ∧ pl_conversation_id p = conversation ∧ seq ≤ decimal_value (pl_server_seq p).

Lemma i64_text n : 0 < n → decimal_value (i64_to_string n) = n ∧ canonical (i64_to_string n).
Proof.
  intros Hn. unfold i64_to_string. rewrite (proj2 (Z.ltb_ge n 0)) by lia.
  destruct (u64_to_string_spec n) as (_ & Hv & _); [lia|]. split; [done|].
  apply u64_to_string_canonical. lia.
Qed.

Lemma put_plan_inv plans plan seq :
  plans_wf plans → 0 < seq → pl_server_seq plan = i64_to_string seq →
  (∀ p, p ∈ plans → canonical (pl_server_seq p) ∧ decimal_value (pl_server_seq p) ≤ i64_max) →
  seq ≤ i64_max →
  plans_wf (put_plan plans plan seq) ∧
  covers (put_plan plans plan seq) (pl_conversation_id plan) seq ∧
  (∀ c n, covers plans c n → covers (put_plan plans plan seq) c n) ∧
  ∀ p, p ∈ put_plan plans plan seq → p ∈ plans ∨ p = plan.
Proof.
  intros Hwf Hpos Eseq Hcan Hmax. unfold put_plan.
  set (same := λ p, bool_decide (pl_conversation_id p = pl_conversation_id plan)).
  destruct (i64_text seq Hpos) as [Hval _].
  destruct (head (select_where same plans)) as [cur|] eqn:E.
  - apply head_Some_elem_of, elem_of_select_where in E as [Hc Hs]. unfold same in Hs.
    apply bool_decide_eq_true in Hs. destruct (Hcan cur Hc) as [Hcc Hcm].
    assert (parse_i64_digits (pl_server_seq cur) = Some (decimal_value (pl_server_seq cur))) as ->.
    { unfold parse_i64_digits. destruct (canonical_digits _ Hcc) as [Hd _].
      rewrite (proj2 (all_digits_spec _) Hd), (proj2 (Z.leb_le _ _) Hcm).
      apply canonical_nonempty in Hcc. unfold is_empty. by destruct (pl_server_seq cur); simpl in *; [lia|]. }
    destruct (Z.leb_spec seq (decimal_value (pl_server_seq cur))) as [Hle|Hgt].
    + split_and!; [done|by exists cur|done|auto].
    + assert (∀ p, p ∈ plans → same p = true → p = cur) as Hone.
      { intros p Hp Hsp%bool_decide_eq_true. by apply (key_inj pl_conversation_id plans);
          [| | |congruence]. }
      split_and!.
      * unfold plans_wf. rewrite nodup_same; [done|]. intros p Hp%bool_decide_eq_true. done.
      * exists plan. split; [|split; [done|by rewrite Eseq, Hval]].
        apply elem_of_update_where. exists cur. split; [done|].
        unfold same. by rewrite bool_decide_true.
      * intros c n (p & Hp & Ec & Hn). destruct (same p) eqn:Esp.
        -- exists plan. split; [apply elem_of_update_where; exists p; by rewrite Esp|].
           rewrite (Hone p Hp Esp) in *. split; [congruence|]. rewrite Eseq, Hval. lia.
        -- exists p. split; [|done]. apply elem_of_update_where. exists p. by rewrite Esp.
      * intros p (x & Hx & ->)%elem_of_update_where. destruct (same x); auto.
  - split_and!.
    + unfold plans_wf. rewrite fmap_app. apply NoDup_app. split_and!; [done| |apply NoDup_singleton].
      intros c (p & -> & Hp)%list_elem_of_fmap Hz%list_elem_of_singleton.
      destruct (head_select_Some same plans) as [y Hy]; [|congruence].
      apply exists_where_true. exists p. split; [done|]. by apply bool_decide_eq_true.
    + exists plan. split; [apply elem_of_app; right; by apply list_elem_of_singleton|].
      split; [done|]. by rewrite Eseq, Hval.
    + intros c n (p & Hp & ?). exists p. split; [apply elem_of_app; by left|done].
    + intros p [?| ->%list_elem_of_singleton]%elem_of_app; auto.
Qed.
End plans.

(** ** Rows while ids are resolved *)

(** Messages differ in their read flags only, aliases not at all. *)
Definition same_rows (s s' : ReadDb) : Prop :=
  set_read <$> db_messages (rd_db s') = set_read <$> db_messages (rd_db s) ∧
  rd_message_aliases s' = rd_message_aliases s.
#[export] Instance same_rows_equiv : Equivalence same_rows.
Proof.
  split; [done|by intros s s' []|]. intros s1 s2 s3 [] []. split; congruence.
Qed.

Section rows.
Context `{ThreadIndex}.

Lemma update_set_read p t : set_read <$> update_where p set_read t = set_read <$> t.
Proof.
  unfold update_where. rewrite <- list_fmap_compose. apply list_fmap_ext. intros i m _. simpl.
  by destruct (p m).
Qed.
Lemma only_marks_rows s s' : only_marks s s' → same_rows s s'.
Proof. intros [p ->]. split; [|done]. apply update_set_read. Qed.

Lemma select_set_read (p : MessageRow → bool) t :
  (∀ m, p (set_read m) = p m) →
  set_read <$> select_where p t = select_where p (set_read <$> t).
Proof.
  unfold select_where. intros Hp. induction t as [|m t IH]; [done|].
  rewrite fmap_cons, !filter_cons, Hp. case_decide; [rewrite fmap_cons; f_equal|]; exact IH.
Qed.
Lemma exists_set_read (p : MessageRow → bool) t :
  (∀ m, p (set_read m) = p m) → exists_where p (set_read <$> t) = exists_where p t.
Proof.
  unfold exists_where. intros Hp. induction t as [|m t IH]; [done|].
  rewrite fmap_cons. simpl. by rewrite Hp, IH.
Qed.

Lemma exists_same_rows s s' (p : MessageRow → bool) :
  same_rows s s' → (∀ m, p (set_read m) = p m) →
  exists_where p (db_messages (rd_db s')) = exists_where p (db_messages (rd_db s)).
Proof.
  intros [E _] Hp. rewrite <- (exists_set_read p (db_messages (rd_db s'))) by done.
  by rewrite E, exists_set_read.
Qed.
#[export] Instance resolve_identity_proper :
  Proper (same_rows ==> (=) ==> (=) ==> (=)) resolve_message_identity.
Proof.
  intros s' s Hs o ? <- id ? <-. symmetry. unfold resolve_message_identity. cbn zeta.
  rewrite (exists_same_rows _ _ _ Hs) by done. destruct (exists_where _ _); [done|].
  assert (∀ a, exists_where (message_named o (ma_canonical a)) (db_messages (rd_db s))
               = exists_where (message_named o (ma_canonical a)) (db_messages (rd_db s'))) as Hx.
  { intros a. by apply exists_same_rows. }
  destruct Hs as [_ ->]. do 2 f_equal. unfold select_where. apply list_filter_iff.
  intros a. by rewrite Hx.
Qed.

(** The row of an id, but for its read flag. *)
Lemma identity_row_same s s' o id :
  same_rows s s' → set_read <$> identity_row s' o id = set_read <$> identity_row s o id.
Proof.
  intros Hs. unfold identity_row. rewrite Hs.
  destruct (resolve_message_identity s' o id) as [c|]; [|done]. cbn.
  assert (∀ t : list MessageRow, set_read <$> head t = head (set_read <$> t)) as Hh by by intros [].
  rewrite !Hh, !select_set_read by done. by destruct Hs as [-> _].
Qed.

Lemma acknowledge_rows s o key c seq now s' : acknowledge s o key c seq now = Ok s' → same_rows s s'.
Proof.
  unfold acknowledge, acknowledge_read_outbox. intros Ha. apply bind_Ok in Ha as (db & Hd & [= <-]).
  apply bind_Ok in Hd as (ids & _ & [= <-]). split; [|done]. cbn [rd_db on_db]. f_equal.
  generalize (rd_db s). induction ids as [|id ids IH]; intros d; [done|]. cbn. by rewrite IH.
Qed.
Lemma replace_rows s r s' : replace_thread_read_state s r = Ok s' → same_rows s s'.
Proof. intros (row & _ & -> & _)%replace_read. done. Qed.
Lemma mark_rows s owner did input now_text res s' :
  mark_thread_read_watermark_for_owner_identity s owner did input now_text = Ok (res, s') →
  same_rows s s'.
Proof.
  intros (ids & previous & req & s1 & row & M & ->)%mark_inv.
  apply (mk_marks _ _ _ _ _ _ _ _ _ _) in M. apply only_marks_rows in M. by etrans.
Qed.
Lemma project_rows input s owner did state kind conv s' :
  project_remote_read_state input s owner did state kind conv = Ok s' → same_rows s s'.
Proof.
  unfold project_remote_read_state, binding_conflict. intros Hp.
  destruct (negb _); [done|]. apply bind_Ok in Hp as (cur & _ & Hp).
  apply bind_Ok in Hp as (news & _ & Hp). destruct (negb news); [by injection Hp as <-|].
  apply bind_Ok in Hp as (order & _ & Hp). destruct (_ && _).
  - apply bind_Ok in Hp as (s1 & Ha%acknowledge_rows & Hp). injection Hp as <-. by etrans.
  - apply bind_Ok in Hp as (th & _ & Hp). apply bind_Ok in Hp as ([res s1] & Hm%mark_rows & Hp).
    apply bind_Ok in Hp as (s2 & Hr%replace_rows & Hp).
    apply bind_Ok in Hp as (s3 & Ha%acknowledge_rows & Hp). injection Hp as <-.
    trans s3; [|done]. trans s2; [|done]. by etrans.
Qed.
Lemma queue_pending_rows input s b s' : queue_pending_mark input s b = Ok s' → same_rows s s'.
Proof.
  unfold queue_pending_mark. intros Hq. destruct (head _) as [r|]; [|by injection Hq as <-].
  apply bind_Ok in Hq as (target & _ & Hq). destruct target as [[[seq mid] key]|].
  - apply bind_Ok in Hq as ([q db] & Hu%upsert_outbox_messages & Hq). injection Hq as <-.
    split; [|done]. simpl. by rewrite Hu.
  - destruct (bool_decide _); by injection Hq as <-.
Qed.
Lemma store_binding_rows s b s' : store_binding s b = Ok s' → same_rows s s'.
Proof.
  unfold store_binding, binding_conflict, constraint_failed. intros Hs.
  repeat (case_match; try done); by injection Hs as <-.
Qed.
Lemma upsert_binding_rows input s b s' :
  upsert_sync_thread_binding input s b = Ok s' → same_rows s s'.
Proof.
  unfold upsert_sync_thread_binding. intros Hu.
  do 3 (apply bind_Ok in Hu as (? & _ & Hu)). destruct (negb _); [done|].
  apply bind_Ok in Hu as (s1 & Hs%store_binding_rows & Hu).
  apply bind_Ok in Hu as (s2 & Hp & Hu%queue_pending_rows). trans s1; [done|]. trans s2; [|done].
  destruct (load_remote_read_state _ _ _); [|by injection Hp as <-].
  destruct (db_bindings _ !! _); [by eapply project_rows|done].
Qed.
End rows.

Section resolution.
Context `{ThreadIndex, DirectProfile}.
Implicit Types (s : ReadDb) (plans : list V2MarkReadWatermark).

Definition local_only (m : MessageRow) : Prop :=
  is_Some (authenticated_p5_v2_raw_message_id (mg_metadata m)).
(** The message an id stands for: received, with its content, and either local or at a
    position of its conversation. *)
Definition markable s owner id (m : MessageRow) : Prop :=
  identity_row s owner id = Some m ∧ mg_direction m = 0 ∧
  trim (mg_hydration_state m) = "hydrated"%string.
(** The message is not local and at [seq] of its conversation. *)
Definition positioned (m : MessageRow) (seq : Z) : Prop :=
  ¬ local_only m ∧ mg_server_seq m = Some seq ∧ 0 < seq.

Lemma elem_of_push_unique l x y :
  is_empty (trim y) = false → x ∈ push_unique l y ↔ x ∈ l ∨ x = y.
Proof.
  unfold push_unique. intros ->. cbn [negb andb]. case_bool_decide as Hy; cbn [negb].
  - split; [auto|]. by intros [?| ->].
  - by rewrite elem_of_app, list_elem_of_singleton.
Qed.
Lemma identity_row_named s owner id m :
  is_empty (trim id) = false → identity_row s owner id = Some m → is_empty (trim (mg_msg_id m)) = false.
Proof.
  unfold identity_row, resolve_message_identity. intros Hid Hm.
  destruct (exists_where _ _); cbn in Hm.
  - apply head_Some_elem_of, elem_of_select_where in Hm as [_ Hm]. unfold message_named in Hm.
    bool_hyps. congruence.
  - destruct (head (select_where _ (rd_message_aliases s))) as [a|] eqn:Ea; [|done]. cbn in Hm.
    apply head_Some_elem_of, elem_of_select_where in Ea as [_ Ea].
    apply head_Some_elem_of, elem_of_select_where in Hm as [_ Hm]. unfold message_named in Hm.
    bool_hyps. match goal with H : mg_msg_id m = _ |- _ => rewrite H end. by rewrite trim_idem.
Qed.

(** What the ids seen so far have led to. *)
Record resolved s owner (seen : list string) plans (local : list string) s' : Prop := {
  rs_rows : same_rows s s';
  rs_plans : plans_wf plans;
  rs_seen : ∀ id, id ∈ seen → ∃ m, markable s owner id m ∧
    ((local_only m ∧ mg_msg_id m ∈ local) ∨
     ∃ seq, positioned m seq ∧ covers plans (trimmed_conversation_of m) seq);
  rs_plan : ∀ p, p ∈ plans → ∃ id m seq, id ∈ seen ∧ markable s owner id m ∧ positioned m seq ∧
    p = mkPlan (trimmed_conversation_of m) (mg_msg_id m) (i64_to_string seq);
  rs_local : ∀ x, x ∈ local → ∃ id m, id ∈ seen ∧ markable s owner id m ∧ local_only m ∧
    mg_msg_id m = x }.

(** Positions are stored as 64-bit integers. *)
Definition seqs_i64 s : Prop :=
  ∀ m n, m ∈ db_messages (rd_db s) → mg_server_seq m = Some n → n ≤ i64_max.

Lemma identity_row_in s owner id m : identity_row s owner id = Some m → m ∈ db_messages (rd_db s).
Proof.
  unfold identity_row. destruct (resolve_message_identity s owner id); [|done]. cbn.
  by intros [Hm _]%head_Some_elem_of%elem_of_select_where.
Qed.

Lemma resolve_one_bound input s owner conv kind meta bound :
  match load_sync_thread_binding_for_conversation s owner conv kind with
  | Ok (Some b) => Ok (Some b, s)
  | Ok None => recover_sync_thread_binding_from_message_metadata input s owner conv kind meta
  | Err e => Err e
  end = Ok bound → same_rows s bound.2.
Proof.
  destruct (load_sync_thread_binding_for_conversation _ _ _ _) as [[b|]|]; [by intros [= <-]| |done].
  unfold recover_sync_thread_binding_from_message_metadata. intros Hr.
  destruct (_ || _); [by injection Hr as <-|].
  destruct (trimmed_nonempty _); [|by injection Hr as <-].
  apply bind_Ok in Hr as (s' & Hu%upsert_binding_rows & Hr). by injection Hr as <-.
Qed.

(** One id, in a state whose rows are those of [s]. *)
Lemma resolve_one_inv input s owner plans local cur id plans' local' s' :
  same_rows s cur →
  resolve_one input owner (plans, local, cur) id = Ok (plans', local', s') →
  same_rows s s' ∧ ∃ m, markable s owner id m ∧
    ((local_only m ∧ plans' = plans ∧ local' = push_unique local (mg_msg_id m)) ∨
     ∃ seq, positioned m seq ∧ local' = local ∧
       plans' = put_plan plans (mkPlan (trimmed_conversation_of m) (mg_msg_id m)
                                  (i64_to_string seq)) seq).
Proof.
  intros Hs Hr. unfold resolve_one, message_not_found in Hr.
  pose proof (identity_row_same s cur owner id Hs) as Hi.
  destruct (identity_row cur owner id) as [mc|]; [|done].
  destruct (identity_row s owner id) as [m|] eqn:Em; [|done]. apply (inj Some) in Hi.
  pose proof (f_equal mg_direction Hi) as Ed. pose proof (f_equal mg_hydration_state Hi) as Eh.
  pose proof (f_equal mg_metadata Hi) as Emeta. pose proof (f_equal mg_msg_id Hi) as Eid.
  pose proof (f_equal mg_server_seq Hi) as Eq.
  assert (trimmed_conversation_of mc = trimmed_conversation_of m) as Ec.
  { unfold trimmed_conversation_of. pose proof (f_equal mg_conversation_id Hi) as E1.
    pose proof (f_equal mg_thread_id Hi) as E2. cbn in E1, E2. by rewrite E1, E2. }
  cbn in Ed, Eh, Emeta, Eid, Eq. rewrite Ed, Eh, Emeta, Eid, Eq, Ec in Hr.
  destruct (Z.eqb_spec (mg_direction m) 0) as [Hd|]; [|done]. cbn [negb] in Hr.
  case_bool_decide as Hh; [|done]. cbn [negb] in Hr.
  destruct (bool_decide (is_Some _)) eqn:Ep.
  { apply bool_decide_eq_true in Ep. injection Hr as <- <- <-. split; [done|]. exists m.
    split; [done|]. by left. }
  apply bool_decide_eq_false in Ep. destruct (mg_server_seq m) as [seq|] eqn:Es; [|done].
  destruct (Z.ltb_spec 0 seq) as [Hpos|]; [|done]. cbn [negb] in Hr.
  apply bind_Ok in Hr as (loaded & Hl & Hr). apply bind_Ok in Hr as (bound & Hb & Hr).
  assert (same_rows cur bound.2) as Hrows.
  { eapply (resolve_one_bound input cur owner). rewrite Hl. exact Hb. }
  destruct (match bound.1 with Some _ => _ | None => _ end); [done|].
  injection Hr as <- <- <-. split; [by trans cur|]. exists m. split; [done|]. right.
  by exists seq.
Qed.

Lemma resolve_step_inv input s owner seen plans local cur id plans' local' s' :
  seqs_i64 s → is_empty (trim id) = false → resolved s owner seen plans local cur →
  resolve_one input owner (plans, local, cur) id = Ok (plans', local', s') →
  resolved s owner (seen ++ [id]) plans' local' s'.
Proof.
  intros Hmax Hne [Hrows Hwf Hseen Hplan Hlocal] Hr.
  apply (resolve_one_inv _ s) in Hr as (Hrows' & m & Hm & Hor); [|done].
  assert (id ∈ seen ++ [id]) as Hid by (apply elem_of_app; right; by apply list_elem_of_singleton).
  assert (∀ x, x ∈ seen → x ∈ seen ++ [id]) as Hsub by (intros; apply elem_of_app; by left).
  destruct Hor as [(Hlo & -> & ->)|(seq & Hp & -> & ->)].
  - assert (∀ x, x ∈ push_unique local (mg_msg_id m) ↔ x ∈ local ∨ x = mg_msg_id m) as Hpush.
    { intros x. apply elem_of_push_unique. by eapply identity_row_named, Hm. }
    split; [done|done| | |].
    + intros x [Hx| ->%list_elem_of_singleton]%elem_of_app.
      * destruct (Hseen x Hx) as (mx & Hmx & Hor). exists mx. split; [done|].
        destruct Hor as [[? ?]|?]; [left; split; [done|]|by right]. apply Hpush; by left.
      * exists m. split; [done|]. left. split; [done|]. apply Hpush; by right.
    + intros p Hpp. destruct (Hplan p Hpp) as (i & mi & q & Hi & ?). exists i, mi, q. auto.
    + intros x [Hx| ->]%Hpush; [|by exists id, m].
      destruct (Hlocal x Hx) as (i & mi & Hi & ?). exists i, mi. auto.
  - set (plan := mkPlan _ _ _). destruct Hp as (Hnl & Eseq & Hpos).
    destruct (put_plan_inv plans plan seq) as (Hwf' & Hcov & Hkeep & Hnew); try done.
    { intros p Hpp. destruct (Hplan p Hpp) as (i & mi & q & _ & (Hrow & _) & (_ & Eq & Hq) & ->). cbn [pl_server_seq].
      destruct (i64_text q Hq) as [-> ?]. split; [done|]. apply identity_row_in in Hrow. by eapply Hmax. }
    { eapply Hmax; [eapply identity_row_in, Hm|done]. }
    split; [done|done| | |].
    + intros x [Hx| ->%list_elem_of_singleton]%elem_of_app.
      * destruct (Hseen x Hx) as (mx & Hmx & Hor). exists mx. split; [done|].
        destruct Hor as [?|(q & ? & ?)]; [by left|right]. exists q. auto.
      * exists m. split; [done|]. right. by exists seq.
    + intros p [Hpp| ->]%Hnew; [|by exists id, m, seq].
      destruct (Hplan p Hpp) as (i & mi & q & Hi & ?). exists i, mi, q. auto.
    + intros x Hx. destruct (Hlocal x Hx) as (i & mi & Hi & ?). exists i, mi. auto.
Qed.

Lemma resolve_all_inv input s owner ids seen plans local cur plans' local' s' :
  seqs_i64 s → Forall (λ id, is_empty (trim id) = false) ids →
  resolved s owner seen plans local cur →
  try_fold (resolve_one input owner) (plans, local, cur) ids = Ok (plans', local', s') →
  resolved s owner (seen ++ ids) plans' local' s'.
Proof.
  intros Hmax Hne. revert seen plans local cur.
  induction Hne as [|id ids Hid Hne IH]; intros seen plans local cur Hr Hf.
  - injection Hf as <- <- <-. by rewrite app_nil_r.
  - cbn in Hf. apply bind_Ok in Hf as ([[p1 l1] s1] & H1 & Hf).
    replace (seen ++ id :: ids) with ((seen ++ [id]) ++ ids) by by rewrite <- app_assoc.
    eapply IH; [|exact Hf]. exact (resolve_step_inv _ _ _ _ _ _ _ _ _ _ _ Hmax Hid Hr H1).
Qed.
End resolution.
