(* ===== verification/ReadMarkClaims.v ===== *)
(** * Claims about marking a thread read *)

From Stdlib Require Import Ascii.
From S2P Require Import Prelude RustStr ImError Effects Decimal Store SyncStore Outbox Lanes Wire Recovery Failure ReadState ReadBind ReadProps ReadWire ReadSync ReadSyncProps ReadSyncClaims ReadIds ReadMark ReadMarkProps.
Local Open Scope Z_scope.

Section claims.
Context `{ThreadIndex, WireCodec, DirectProfile}.
Context {World : Type} (rt : MarkRuntime (World := World)).
Implicit Types (s : ReadRun (World := World)).

(** Marking a thread leaves no claimed mark behind: while statements on the database
    do not fail, whatever the service answers and on every early return, a mark that is
    still in flight afterwards was acknowledged by the service, and the result says so. *)
Theorem foreground_mark_settles input s r s' :
  (∀ k, rr_fails (mr_base rt) k = None) →
  outbox_wf (db_outbox (rd_db (rx_db s))) →
  (∀ id, ¬ aloft (mr_owner rt) (rd_db (rx_db s)) id) →
  mark_thread_read rt input s = (r, s') →
  outbox_wf (db_outbox (rd_db (rx_db s'))) ∧
  ∀ id, aloft (mr_owner rt) (rd_db (rx_db s')) id →
    ∃ res raw, r = Ok (res, raw) ∧ tt_remote_acknowledged res = true.
Proof.
  intros Hcalm Hwf Hno Hm. destruct (mark_thread_read_inv rt Hcalm _ _ _ _ Hwf Hm) as [Hwf' Ha].
  split; [done|]. intros id Hid. destruct (Ha id Hid) as [Hx|?]; [|done]. by destruct (Hno id).
Qed.

(** Resolving message ids succeeds only when every id names a received message with
    its content, directly or by an alias. Each is then either local, and its id is listed,
    or lies at or below the watermark of its conversation; there is one watermark per
    conversation, and it is the position of a requested message. *)
Theorem ids_resolved input (s : ReadDb) owner o ids res (s' : ReadDb) :
  seqs_i64 s → required "owner_identity_id" owner = Ok o →
  resolve_v2_mark_read_watermarks input s owner ids = Ok (res, s') →
  resolved s o (nonblank_ids ids) (rv_watermarks res) (rv_local_only_message_ids res) s'.
Proof.
  intros Hmax Ho Hr. unfold resolve_v2_mark_read_watermarks in Hr.
  apply bind_Ok in Hr as (o' & Ho' & Hr). rewrite Ho in Ho'. injection Ho' as <-.
  apply bind_Ok in Hr as ([[plans local] s1] & Hf & Hr).
  injection Hr as <- <-. apply (resolve_all_inv _ s o _ []) in Hf; [|done| |].
  2: { apply Forall_forall. intros id [Hid (x & -> & _)%list_elem_of_fmap]%list_elem_of_filter.
       by rewrite trim_idem. }
  2: { split; [done|apply NoDup_nil_2|..]; by intros ? ?%elem_of_nil. }
  assert (∀ p, p ∈ merge_sort plan_le plans ↔ p ∈ plans) as Hin.
  { intros p. by rewrite merge_sort_Permutation. }
  destruct Hf as [Hrows Hwf Hseen Hplan Hlocal]. split; cbn; [done| | | |done].
  - unfold plans_wf. by rewrite merge_sort_Permutation.
  - intros id Hid. destruct (Hseen id Hid) as (m & Hm & Hor). exists m. split; [done|].
    destruct Hor as [?|(seq & Hp & p & Hpp & ?)]; [by left|right]. exists seq. split; [done|].
    exists p. split; [by apply Hin|done].
  - intros p Hpp%Hin. auto.
Qed.

(** Every text of the metadata is without outer white space, for Rust and for SQL. *)
Definition clean (v : Value) : Prop :=
  ∀ key text, vget v key = Some (VString text) → trim text = text ∧ sql_trim text = text.

(** On metadata whose texts have no outer white space, the SQL predicate that keeps
    device-inbox messages out of thread marks holds exactly when the Rust function finds
    an authenticated raw message id. *)
Theorem p5_predicates_agree m v :
  direct_e2ee_profile_v2 = "anp.direct.e2ee.v2"%string →
  mg_metadata m = Some v → clean v →
  (∀ x, vget v "p5_cache_profile" = Some x → ∃ text, x = VString text) →
  authenticated_p5_read m
  = bool_decide (is_Some (authenticated_p5_v2_raw_message_id (mg_metadata m))).
Proof.
  intros Hprof Hmeta Hclean Htext. unfold authenticated_p5_read, authenticated_p5_v2_raw_message_id.
  rewrite Hmeta, Hprof.
  assert (∀ key, metadata_is_text v key
                 = bool_decide (is_Some (trimmed_nonempty (metadata_str (Some v) key)))) as Hkey.
  { intros key. unfold metadata_is_text, metadata_str, trimmed_nonempty. cbn [pointer].
    change (Some v ≫= λ v, vget v key ≫= as_str) with (vget v key ≫= as_str).
    destruct (vget v key) as [x|] eqn:Ex; simpl; [|done].
    destruct x as [| | |text| |]; simpl; try done.
    destruct (Hclean key text Ex) as [E1 E2]. rewrite E1, E2. by destruct (is_empty text). }
  assert (match json_text (Some v) ["p5_cache_profile"%string] with
          | Some profile => bool_decide (sql_trim profile = "anp.direct.e2ee.v2"%string)
          | None => false end
          = bool_decide (trim <$> metadata_str (Some v) "p5_cache_profile"
                         = Some "anp.direct.e2ee.v2"%string)) as ->.
  { unfold json_text, metadata_str. simpl. destruct (vget v "p5_cache_profile") as [x|] eqn:Ex; [|done].
    destruct (Htext x eq_refl) as [text ->]. destruct (Hclean _ text Ex) as [E1 E2]. simpl.
    rewrite E1, E2. apply bool_decide_ext. split; [by intros ->|by intros [= ->]]. }
  unfold p5_cache_keys. cbn [forallb]. rewrite !Hkey, !andb_true_r.
  destruct (bool_decide (_ <$> _ = _)); [|done]. cbn [andb].
  repeat match goal with |- context [bool_decide (is_Some (trimmed_nonempty (metadata_str _ ?k)))] =>
    destruct (bool_decide (is_Some (trimmed_nonempty (metadata_str (Some v) k)))) eqn:?; cbn [andb] end;
  rewrite ?andb_false_r; try done.
Qed.
End claims.

(** ** Examples *)

#[local] Existing Instance ex_codec.
#[local] Existing Instance ex_thread_index.
Definition ex_profile : DirectProfile := {| direct_e2ee_profile_v2 := "anp.direct.e2ee.v2" |}.
#[local] Existing Instance ex_profile.

Definition ex_mark_runtime (answer : Value → ImResult Value) : MarkRuntime (World := unit) :=
  mkMarkRuntime (ex_surroundings answer) (λ _ _ params, (answer params, ())) (λ _, (Ok (), ()))
    (λ _, 5) (λ _, "t-5"%string) (λ _, "failed"%string) "owner-1" (Some "device-1"%string)
    (Ok true) (λ _ _, (None, ())).
Definition ex_mark_input : MarkThreadReadInput :=
  mkThreadInput (mkThreadRequest (Thread "dm:did:peer")
    (Some (mkReadWatermark None (Some "7"%string) None)) None) None.
Definition ex_marked (answer : Value → ImResult Value)
    : ImResult (MarkThreadReadResult * option Value) * ReadRun (World := unit) :=
  mark_thread_read (ex_mark_runtime answer) ex_mark_input (ex_run ex_named).

(** A service that is down: the mark goes back to the queue. *)
Definition ex_down : Value → ImResult Value := λ _, Err AuthRequired.
Lemma ex_marked_runs :
  (∃ res raw, (ex_marked ex_answer).1 = Ok (res, raw) ∧ tt_remote_acknowledged res = true) ∧
  ex_in_flight (rx_db (ex_marked ex_answer).2) = [] ∧
  (∃ res, (ex_marked ex_down).1 = Ok (res, None) ∧ tt_pending_remote_ack res = true) ∧
  lm_status <$> db_outbox (rd_db (rx_db (ex_marked ex_down).2)) = ["retryable"%string].
Proof.
  split_and!; [|vm_compute; reflexivity| |vm_compute; reflexivity].
  - do 2 eexists. split; [vm_compute; reflexivity|reflexivity].
  - eexists. split; [vm_compute; reflexivity|reflexivity].
Qed.

Lemma foreground_mark_settles_witness :
  outbox_wf (db_outbox (rd_db (rx_db (ex_marked ex_down).2))).
Proof.
  exact (proj1 (foreground_mark_settles (ex_mark_runtime ex_down) ex_mark_input (ex_run ex_named)
    (ex_marked ex_down).1 (ex_marked ex_down).2 (λ _, eq_refl) ex_named_wf ex_none_aloft
    (surjective_pairing _))).
Defined.

(** Two messages of a conversation and one of the device inbox, asked for in this order. *)
Definition ex_message (id : string) (seq : Z) (metadata : option Value) : MessageRow :=
  mkMessageRow "owner-1" id "dm:did:peer" "dm:did:peer" "direct" "hydrated" "did:a" "did:peer" ""
    0 (Some seq) 0 metadata "t-1" "t-1" 0 "" "text/plain" "did:a" "did:peer" "resolved" "hello" "" "" 0 "".
Definition ex_p5 (raw : string) : Value :=
  VObject ((("p5_cache_profile"%string, VString "anp.direct.e2ee.v2")
            :: ((λ key, (key, VString "x")) <$> p5_cache_keys))
           ++ [("raw_message_id"%string, VString raw)]).
Definition ex_rows : ReadDb :=
  on_db (with_messages [ex_message "a" 3 None; ex_message "b" 8 None;
                        ex_message "c" 9 (Some (ex_p5 "raw"))] (rd_db ex_named)) ex_named.
Definition ex_resolution : V2MarkReadResolution * ReadDb :=
  unwrap_or (resolve_v2_mark_read_watermarks (mkReadInput 700 "t-5" "m-9" "op-9") ex_rows " owner-1 "
               ["b"; "a"; " c"; ""]%string) (mkResolution [] [], ex_rows).
Lemma ex_resolution_ok :
  resolve_v2_mark_read_watermarks (mkReadInput 700 "t-5" "m-9" "op-9") ex_rows " owner-1 "
    ["b"; "a"; " c"; ""]%string = Ok (ex_resolution.1, ex_resolution.2).
Proof. vm_compute. reflexivity. Qed.
Lemma ex_resolution_is :
  ex_resolution.1 = mkResolution [mkPlan "dm:did:peer" "b" "8"] ["c"%string].
Proof. vm_compute. reflexivity. Qed.
Lemma ex_seqs : seqs_i64 ex_rows.
Proof.
  intros m n Hm. cbn in Hm. rewrite !elem_of_cons, elem_of_nil in Hm.
  destruct Hm as [-> |[-> |[-> |[]]]]; intros [= <-]; unfold i64_max; lia.
Qed.
Lemma ids_resolved_witness :
  ∃ m, markable ex_rows "owner-1" "a" m ∧
    ((local_only m ∧ mg_msg_id m ∈ rv_local_only_message_ids ex_resolution.1) ∨
     ∃ seq, positioned m seq ∧
       covers (rv_watermarks ex_resolution.1) (trimmed_conversation_of m) seq).
Proof.
  refine (rs_seen _ _ _ _ _ _ (ids_resolved (mkReadInput 700 "t-5" "m-9" "op-9") ex_rows " owner-1 "
    "owner-1" ["b"; "a"; " c"; ""]%string ex_resolution.1 ex_resolution.2 ex_seqs eq_refl
    ex_resolution_ok) "a"%string _).
  change (nonblank_ids _) with (["b"; "a"; "c"]%string). set_solver.
Defined.

Lemma assoc_elem {A} k (l : list (string * A)) x : assoc k l = Some x → (k, x) ∈ l.
Proof.
  induction l as [|[k' y] l IH]; [done|]. cbn. case_bool_decide; [|by right; auto].
  intros [= ->]. subst. left.
Qed.
Lemma ex_p5_clean : clean (ex_p5 "raw").
Proof.
  intros key text Hk%assoc_elem. cbn in Hk. rewrite !elem_of_cons, elem_of_nil in Hk.
  decompose [or] Hk; simplify_eq; try done; split; vm_compute; reflexivity.
Qed.
Lemma p5_predicates_agree_witness :
  authenticated_p5_read (ex_message "c" 9 (Some (ex_p5 "raw")))
  = bool_decide (is_Some (authenticated_p5_v2_raw_message_id (Some (ex_p5 "raw")))).
Proof.
  refine (p5_predicates_agree (ex_message "c" 9 (Some (ex_p5 "raw"))) (ex_p5 "raw") eq_refl eq_refl
            ex_p5_clean _).
  intros x [= <-]. eexists. reflexivity.
Defined.

(** On other white space the two differ: SQL trims spaces only. *)
Lemma p5_predicates_differ :
  let m := ex_message "c" 9 (Some (ex_p5 (String "010" EmptyString))) in
  authenticated_p5_read m = true ∧ authenticated_p5_v2_raw_message_id (mg_metadata m) = None.
Proof. vm_compute. done. Qed.
