(* ===== verification/Persona.v ===== *)
(** * Peer personas

    [internal/canonical_identity.rs]: the immutable identity of a peer, derived from a
    verified handle; [Did::parse] and [Handle::parse] of [ids.rs]; the conversation id
    of a peer scope of [internal/local_state/owner_scope.rs]. The IDNA conversion and the
    digest are outside the sources. *)

From Stdlib Require Import Ascii.
From S2P Require Import Prelude RustStr ImError Wire ReadState.

(** ** Identifiers *)

Definition Did_parse (input : string) : ImResult string :=
  value ← parse_non_empty "did" input;
  if starts_with value "did:" then Ok value
  else Err (invalid_input (Some "did"%string) "DID must start with did:").

Definition Handle_parse (input default_domain : string) : ImResult string :=
  value ← parse_non_empty "handle" input;
  let normalized :=
    if contains_char value "@" || contains_char value "." || is_empty default_domain then value
    else value +:+ "." +:+ default_domain in
  Ok (to_ascii_lowercase (trim_start_matches normalized "@")).

(** [str::trim_end_matches] of one character. *)
Fixpoint drop_char (c : ascii) (l : list ascii) : list ascii :=
  match l with
  | a :: l' => if bool_decide (a = c) then drop_char c l' else l
  | [] => []
  end.
Definition trim_end_matches (s : string) (c : ascii) : string :=
  of_bytes (rev (drop_char c (rev (bytes s)))).

(** [str::split] and [str::split_once] at one character. *)
Fixpoint split_char (c : ascii) (l : list ascii) : list (list ascii) :=
  match l with
  | [] => [[]]
  | a :: l' =>
      match split_char c l' with
      | first :: rest => if bool_decide (a = c) then [] :: first :: rest else (a :: first) :: rest
      | [] => [[]]
      end
  end.
Definition split_once (s : string) (c : ascii) : option (string * string) :=
  match split_char c (bytes s) with
  | first :: _ :: _ =>
      Some (of_bytes first, of_bytes (drop (S (length first)) (bytes s)))
  | _ => None
  end.

(** ** Personas *)

(** [idna::domain_to_ascii_strict] *)
Class Idna := { domain_to_ascii_strict : string → option string }.

Record PeerPersona := mkPersona {
  ps_peer_persona_id : string;
  ps_authority_namespace : string;
  ps_authority_subject_id : string;
  ps_full_handle : string }.
#[export] Instance persona_eq_dec : EqDecision PeerPersona.
Proof. solve_decision. Defined.

Definition identity_unresolved {A} (detail : string) : ImResult A := Err (IdentityUnresolved detail).
Definition identity_conflict {A} (detail : string) : ImResult A :=
  Err (IdentityBindingConflict detail).

Section persona.
Context `{WireCodec, Idna}.

Definition normalize_authority_namespace (value : string) : ImResult string :=
  let trimmed := trim_end_matches (trim value) "." in
  if is_empty trimmed || contains trimmed "://" || contains_char trimmed "/"
     || contains_char trimmed "@" || contains_char trimmed ":" then
    identity_unresolved "authoritative Handle domain is missing or is not a bare host"
  else
    match domain_to_ascii_strict trimmed with
    | None => identity_unresolved "authoritative Handle domain is not a valid IDNA host"
    | Some a =>
        let normalized := to_ascii_lowercase a in
        if is_empty normalized
           || existsb (λ label, bool_decide (label = [])) (split_char "." (bytes normalized)) then
          identity_unresolved "authoritative Handle domain is empty after normalization"
        else Ok normalized
    end.

Definition normalize_full_handle (value : string) : ImResult string :=
  let value := trim_end_matches (trim_start_matches (trim value) "@") "." in
  if is_empty value || contains value "://" || contains_char value "/"
     || contains_char value "@" then
    identity_unresolved "verified full Handle is missing or malformed"
  else
    match domain_to_ascii_strict value with
    | None => identity_unresolved "verified full Handle is not valid IDNA"
    | Some a => Ok (to_ascii_lowercase a)
    end.

Definition validate_handle_authority (full_handle authority_namespace : string) : ImResult unit :=
  match split_once full_handle "." with
  | None => identity_unresolved "verified full Handle has no authority domain"
  | Some (subject, domain) =>
      if is_empty subject || negb (bool_decide (domain = authority_namespace)) then
        identity_conflict "verified Handle domain does not match its authority namespace"
      else Ok ()
  end.

Definition validate_available_status (status : option string) : ImResult unit :=
  let status := to_ascii_lowercase (trim (default ""%string status)) in
  if bool_decide (status ∈ ["active"; "bound"; "verified"]%string) then Ok ()
  else identity_unresolved "Handle authority did not return an available binding status".

Definition validate_authority_subject_id (value : string) : ImResult unit :=
  if starts_with (to_ascii_lowercase value) "did:" then
    identity_unresolved "Handle authority subject must not fall back to a credential DID"
  else Ok ().
Definition persona_required (field value : string) : ImResult string :=
  let value := trim value in
  if is_empty value then identity_unresolved (field +:+ " is required for a canonical Persona")
  else Ok value.

Definition newline : string := String "010" EmptyString.
Definition persona_id (namespace subject handle : string) : string :=
  "persona:v1:" +:+ sha256_hex ("peer-persona:v1" +:+ newline +:+ "authority:" +:+ namespace
    +:+ newline +:+ "subject:" +:+ subject +:+ newline +:+ "handle:" +:+ handle).

Definition from_verified_handle (authority_domain authority_subject_id full_handle : string)
    (status : option string) : ImResult PeerPersona :=
  namespace ← normalize_authority_namespace authority_domain;
  subject ← persona_required "authority_subject_id" authority_subject_id;
  _ ← validate_authority_subject_id subject;
  handle ← normalize_full_handle full_handle;
  _ ← validate_handle_authority handle namespace;
  _ ← validate_available_status status;
  Ok (mkPersona (persona_id namespace subject handle) namespace subject handle).

(** ** Peer scopes *)

Record DirectPeerScope := mkPeerScope { sc_user_id : string; sc_full_handle : string }.
Definition DirectPeerScope_new (user_id full_handle : string) : ImResult DirectPeerScope :=
  user_id ← parse_non_empty "peer_user_id" user_id;
  full_handle ← parse_non_empty "peer_full_handle" full_handle;
  Ok (mkPeerScope user_id (to_ascii_lowercase full_handle)).
Definition direct_conversation_id_for_peer_scope (scope : DirectPeerScope) : string :=
  "dm:peer-scope:v1:" +:+ sha256_hex ("user:" +:+ sc_user_id scope +:+ newline
    +:+ "handle:" +:+ sc_full_handle scope).
Definition persona_conversation_id (p : PeerPersona) : string :=
  direct_conversation_id_for_peer_scope
    (mkPeerScope (ps_authority_subject_id p) (ps_full_handle p)).
End persona.
