(* ===== verification/PersonaProps.v ===== *)
(** * A persona is stable

    The fields of a persona are normal forms: deriving the persona again from them gives
    the persona itself. *)

From Stdlib Require Import Ascii.
From S2P Require Import Prelude RustStr ImError Wire ReadState ReadProps Persona.
Local Open Scope Z_scope.

(** Letters, digits, hyphens and dots. *)
Definition host_char (a : ascii) : bool :=
  let b := byte_of a in
  ((48 <=? b) && (b <=? 57)) || ((65 <=? b) && (b <=? 90)) || ((97 <=? b) && (b <=? 122))
  || (b =? 45) || (b =? 46).

(** What is documented of the strict conversion: its results are host names in ASCII
    and are converted to themselves, up to case. *)
Class IdnaLaws `{Idna} := {
  idna_shape s a : domain_to_ascii_strict s = Some a → Forall (λ c, host_char c = true) (bytes a);
  idna_stable s a : domain_to_ascii_strict s = Some a →
    ∃ b, domain_to_ascii_strict (to_ascii_lowercase a) = Some b ∧
      to_ascii_lowercase b = to_ascii_lowercase a }.

Definition host (s : string) : Prop := Forall (λ c, host_char c = true) (bytes s).

Lemma byte_range a : 0 ≤ byte_of a < 256.
Proof. unfold byte_of. pose proof (N_ascii_bounded a). lia. Qed.
Lemma ascii_lower_byte a :
  byte_of (ascii_lower a)
  = if (65 <=? byte_of a) && (byte_of a <=? 90) then byte_of a + 32 else byte_of a.
Proof.
  unfold ascii_lower. destruct (_ && _) eqn:E; [|done]. unfold byte_of in *.
  apply andb_true_iff in E as [? ?]. rewrite N_ascii_embedding; lia.
Qed.
Lemma host_lower_char a : host_char a = true → host_char (ascii_lower a) = true.
Proof.
  unfold host_char. cbv zeta. rewrite ascii_lower_byte.
  destruct ((65 <=? byte_of a) && (byte_of a <=? 90)) eqn:E; lia.
Qed.
Lemma ascii_lower_idem a : ascii_lower (ascii_lower a) = ascii_lower a.
Proof.
  apply byte_of_inj. rewrite !ascii_lower_byte.
  destruct ((65 <=? byte_of a) && (byte_of a <=? 90)) eqn:E; [|by rewrite E].
  destruct ((65 <=? byte_of a + 32) && _) eqn:E'; lia.
Qed.
Lemma lower_idem s : to_ascii_lowercase (to_ascii_lowercase s) = to_ascii_lowercase s.
Proof.
  unfold to_ascii_lowercase. rewrite bytes_of_bytes. f_equal. rewrite <- list_fmap_compose.
  apply list_fmap_ext. intros. apply ascii_lower_idem.
Qed.
Lemma host_lower s : host s → host (to_ascii_lowercase s).
Proof.
  unfold host, to_ascii_lowercase. rewrite bytes_of_bytes. intros Hs. apply Forall_fmap.
  eapply Forall_impl; [done|]. intros a. apply host_lower_char.
Qed.

Lemma host_trim s : host s → trim s = s.
Proof.
  intros Hs. apply trimmed_solid. eapply Forall_impl; [done|]. intros a Ha. unfold solid, ascii7, ws1.
  unfold host_char in Ha. pose proof (byte_range a). split; [|lia]. lia.
Qed.
Lemma host_lacks s c : host s → host_char c = false → contains_char s c = false.
Proof.
  intros Hs Hc. unfold contains_char. apply not_true_iff_false. intros (a & Ha & Hd)%existsb_exists.
  apply bool_decide_eq_true in Hd as ->. apply list_elem_of_In in Ha.
  apply (proj1 (Forall_forall _ _) Hs) in Ha. congruence.
Qed.
Lemma contains_first s c p : contains s (String c p) = true → contains_char s c = true.
Proof.
  unfold contains_char, bytes. induction s as [|a s IH]; [done|].
  cbn -[String.prefix]. intros [Hp|Hc]%orb_true_iff.
  - cbn in Hp. destruct (ascii_dec c a) as [->|]; [|done]. by rewrite bool_decide_true.
  - rewrite IH by done. by rewrite orb_true_r.
Qed.
Lemma host_lacks_text s c p : host s → host_char c = false → contains s (String c p) = false.
Proof.
  intros Hs Hc. apply not_true_iff_false. intros Ht%contains_first. by rewrite host_lacks in Ht.
Qed.

(** ** Trimming one character *)

Lemma trim_end_id s c : (∀ l, bytes s ≠ l ++ [c]) → trim_end_matches s c = s.
Proof.
  intros Hs. unfold trim_end_matches.
  assert (drop_char c (rev (bytes s)) = rev (bytes s)) as ->.
  { destruct (rev (bytes s)) as [|a l] eqn:E; [done|]. cbn. rewrite bool_decide_false; [done|].
    intros ->. apply (Hs (rev l)). rewrite <- (rev_involutive (bytes s)), E. done. }
  by rewrite rev_involutive, of_bytes_bytes.
Qed.
Lemma trim_start_id s c : contains_char s c = false → trim_start_matches s c = s.
Proof.
  destruct s as [|a s]; [done|]. unfold contains_char. cbn. intros [Ha _]%orb_false_iff. by rewrite Ha.
Qed.

(** ** Labels *)

Lemma split_char_nonempty c l : split_char c l ≠ [].
Proof. destruct l as [|a l]; [done|]. cbn. destruct (split_char c l); [done|]. by destruct (bool_decide _). Qed.
Lemma split_char_last c l : ∃ first mid, split_char c (l ++ [c]) = first :: mid ++ [[]].
Proof.
  induction l as [|a l (first & mid & IH)]; [exists [], []; cbn; by rewrite bool_decide_true|].
  cbn. rewrite IH. destruct (bool_decide (a = c)); [by exists [], (first :: mid)|by exists (a :: first), mid].
Qed.
Lemma labels_end c s :
  existsb (λ label, bool_decide (label = [])) (split_char c (bytes s)) = false →
  ∀ l, bytes s ≠ l ++ [c].
Proof.
  intros Hs l El. rewrite El in Hs. destruct (split_char_last c l) as (first & mid & E).
  rewrite E in Hs. apply not_true_iff_false in Hs. apply Hs, existsb_exists. exists [].
  split; [|done]. right. apply in_or_app. right. by left.
Qed.

Lemma split_char_first c l first second rest :
  split_char c l = first :: second :: rest → l = first ++ c :: drop (S (length first)) l.
Proof.
  revert first. induction l as [|a l IH]; intros first; [done|]. cbn.
  destruct (split_char c l) as [|f r] eqn:E; [done|]. case_bool_decide as Ha.
  - intros [= <- <- <-]. subst. cbn. by rewrite drop_0.
  - intros [= <- Er]. subst r. cbn. f_equal. by apply IH.
Qed.
Lemma split_once_parts s c x d :
  split_once s c = Some (x, d) → bytes s = bytes x ++ c :: bytes d.
Proof.
  unfold split_once. destruct (split_char c (bytes s)) as [|first [|second rest]] eqn:E; try done.
  intros [= <- <-]. rewrite !bytes_of_bytes. by apply split_char_first in E.
Qed.

(** ** Personas *)

Section stable.
Context `{WireCodec, Idna, !IdnaLaws}.

Lemma namespace_stable d n : normalize_authority_namespace d = Ok n →
  normalize_authority_namespace n = Ok n ∧ (∀ l, bytes n ≠ l ++ ["."%char]) ∧ n ≠ ""%string ∧ host n.
Proof.
  unfold normalize_authority_namespace, identity_unresolved. cbv zeta. intros Hn.
  destruct (_ || _); [done|]. destruct (domain_to_ascii_strict _) as [a|] eqn:Ea; [|done].
  destruct (_ || _) eqn:Ee in Hn; [done|]. injection Hn as <-.
  pose proof (host_lower a (idna_shape _ _ Ea)) as Hh. apply orb_false_iff in Ee as [En El].
  pose proof (labels_end _ _ El) as Hend.
  destruct (idna_stable _ _ Ea) as (b & Eb & Elow).
  rewrite host_trim, trim_end_id by done.
  rewrite En, (host_lacks_text _ ":" "//"), !host_lacks by done. cbn [orb].
  rewrite Eb, Elow, En, El. split_and!; try done. unfold is_empty in En.
  by apply bool_decide_eq_false in En.
Qed.

Lemma handle_stable h0 h n :
  normalize_full_handle h0 = Ok h → validate_handle_authority h n = Ok () →
  (∀ l, bytes n ≠ l ++ ["."%char]) → n ≠ ""%string →
  normalize_full_handle h = Ok h ∧ host h ∧ h ≠ ""%string.
Proof.
  unfold normalize_full_handle, validate_handle_authority, identity_unresolved, identity_conflict.
  cbv zeta. intros Hn Hv Hend Hne. destruct (_ || _) in Hn; [done|].
  destruct (domain_to_ascii_strict _) as [a|] eqn:Ea; [|done]. injection Hn as <-.
  pose proof (host_lower a (idna_shape _ _ Ea)) as Hh. destruct (idna_stable _ _ Ea) as (b & Eb & Elow).
  destruct (split_once _ _) as [[x d]|] eqn:Es; [|done]. destruct (_ || _) eqn:Ed in Hv; [done|].
  apply orb_false_iff in Ed as [_ Ed]. apply negb_false_iff, bool_decide_eq_true in Ed as ->.
  apply split_once_parts in Es.
  assert (∀ l, bytes (to_ascii_lowercase a) ≠ l ++ ["."%char]) as Hlast.
  { intros l El. rewrite Es in El. destruct (bytes n) as [|y k _] eqn:En using rev_ind.
    - apply Hne. rewrite <- (of_bytes_bytes n), En. done.
    - rewrite app_comm_cons, app_assoc in El. apply app_inj_tail in El as [_ ->].
      by apply (Hend k). }
  assert (to_ascii_lowercase a ≠ ""%string) as Hn0.
  { intros E0. rewrite E0 in Es. by destruct (bytes x). }
  rewrite host_trim, trim_start_id, trim_end_id by (done || by apply host_lacks).
  unfold is_empty. rewrite bool_decide_false by done.
  rewrite (host_lacks_text _ ":" "//"), !host_lacks by done. cbn [orb]. by rewrite Eb, Elow.
Qed.

(** The fields of a persona lead back to it. *)
Lemma persona_stable d u h st p status :
  from_verified_handle d u h st = Ok p →
  validate_available_status status = Ok () →
  from_verified_handle (ps_authority_namespace p) (ps_authority_subject_id p) (ps_full_handle p) status
  = Ok p.
Proof.
  unfold from_verified_handle. intros Hp Hst.
  apply bind_Ok in Hp as (n & Hn & Hp). apply bind_Ok in Hp as (sub & Hs & Hp).
  apply bind_Ok in Hp as ([] & Hd & Hp). apply bind_Ok in Hp as (hh & Hh & Hp).
  apply bind_Ok in Hp as ([] & Ha & Hp). apply bind_Ok in Hp as ([] & _ & Hp). injection Hp as <-.
  cbn [ps_authority_namespace ps_authority_subject_id ps_full_handle].
  apply namespace_stable in Hn as (-> & Hend & Hne & _).
  destruct (handle_stable _ _ _ Hh Ha Hend Hne) as (-> & _).
  unfold persona_required, identity_unresolved in Hs |- *. cbv zeta in *.
  destruct (is_empty (trim u)) eqn:Eu; [done|]. injection Hs as <-.
  rewrite trim_idem, Eu. cbn. rewrite Hd. cbn. rewrite Ha. cbn. by rewrite Hst.
Qed.
End stable.

(** ** Ids are trimmed *)

Lemma starts_with_split s p : starts_with s p = true → ∃ r, s = p +:+ r.
Proof.
  unfold starts_with. revert s. induction p as [|a p IH]; intros s Hs; [by exists s|].
  destruct s as [|b s]; [done|]. cbn in Hs. destruct (ascii_dec a b) as [->|]; [|done].
  destruct (IH s Hs) as [r ->]. by exists r.
Qed.

Lemma lead_long w1 w2 w3 l k : (3 ≤ length l)%nat → lead w1 w2 w3 (l ++ k) = lead w1 w2 w3 l.
Proof. by destruct l as [|a [|b [|c l]]]; simpl; intros ?; [lia..|]. Qed.
Lemma bytes_app a b : bytes (a +:+ b) = bytes a ++ bytes b.
Proof.
  induction a as [|c a IH]; [done|].
  change (bytes (String c a +:+ b)) with (c :: bytes (a +:+ b)). by rewrite IH.
Qed.
Lemma trimmed_end x :
  trim x = x → lead ws1 (λ b a, ws2 a b) (λ c b a, ws3 a b c) (reverse (bytes x)) = false.
Proof.
  intros Hx. unfold trim in Hx. apply (f_equal bytes) in Hx. rewrite bytes_of_bytes in Hx.
  destruct (strip_spec ws1 ws2 ws3 (bytes x)) as [_ [p Hp]].
  destruct (strip_end_prefix (strip_start (bytes x))) as [k Hk]. rewrite Hx in Hk.
  unfold strip_start in Hk. rewrite Hk in Hp. apply (f_equal length) in Hp as Hlen.
  rewrite !length_app in Hlen. destruct p; [|cbn in Hlen; lia]. destruct k; [|cbn in Hlen; lia].
  rewrite app_nil_r in Hk. unfold strip_end, strip_start in Hx. rewrite Hk in Hx.
  apply (f_equal reverse) in Hx. rewrite reverse_involutive in Hx. rewrite <- Hx. apply strip_spec.
Qed.
Lemma trim_prefixed a p x :
  solid a → trim x = x → (3 ≤ String.length x)%nat →
  trim (String a p +:+ x) = String a p +:+ x.
Proof.
  intros Ha Hx Hlen. unfold trim.
  assert (strip_start (bytes (String a p +:+ x)) = bytes (String a p +:+ x)) as ->.
  { apply strip_id. by apply lead_solid. }
  unfold strip_end. rewrite bytes_app, reverse_app, strip_id.
  - by rewrite <- reverse_app, reverse_involutive, <- bytes_app, of_bytes_bytes.
  - rewrite lead_long; [by apply trimmed_end|]. by rewrite length_reverse, bytes_length.
Qed.

Lemma Did_parse_inv x y : Did_parse x = Ok y → y = trim x ∧ starts_with y "did:" = true.
Proof.
  unfold Did_parse, parse_non_empty. intros Hd. apply bind_Ok in Hd as (v & Hv & Hd).
  destruct (is_empty _) in Hv; [done|]. injection Hv as <-.
  destruct (starts_with _ _) eqn:E; [|done]. by injection Hd as <-.
Qed.

(** Digests are written in hexadecimal. *)
Class HexDigest `{WireCodec} := { sha256_host x : host (sha256_hex x) }.

Section ids.
Context `{WireCodec, !HexDigest, Idna}.

Lemma solid_host c : host_char c = true → solid c.
Proof.
  unfold host_char, solid, ascii7, ws1. cbv zeta. intros Hc. pose proof (byte_range c). split; lia.
Qed.
Lemma trim_digest p x : Forall solid (bytes p) → trim (p +:+ sha256_hex x) = p +:+ sha256_hex x.
Proof.
  intros Hp. apply trimmed_solid. rewrite bytes_app. apply Forall_app_2; [done|].
  eapply Forall_impl; [apply sha256_host|]. apply solid_host.
Qed.
Ltac solid_text := cbn; repeat constructor.
Lemma trim_persona_id n u h : trim (persona_id n u h) = persona_id n u h.
Proof. apply trim_digest. solid_text. Qed.
Lemma trim_conversation p : trim (persona_conversation_id p) = persona_conversation_id p.
Proof. apply trim_digest. solid_text. Qed.
Lemma conversation_nonempty p : is_empty (persona_conversation_id p) = false.
Proof. done. Qed.

Lemma persona_of_handle d u h st p : from_verified_handle d u h st = Ok p →
  ps_peer_persona_id p
  = persona_id (ps_authority_namespace p) (ps_authority_subject_id p) (ps_full_handle p).
Proof.
  unfold from_verified_handle. intros Hp. repeat (apply bind_Ok in Hp as (? & _ & Hp)).
  by injection Hp as <-.
Qed.
Lemma did_conversation did :
  Did_parse did = Ok did →
  direct_conversation_id did = "dm:" +:+ did ∧ trim ("dm:" +:+ did) = "dm:" +:+ did ∧
  starts_with ("dm:" +:+ did) "dm:did:" = true.
Proof.
  intros (Et & Hs)%Did_parse_inv. unfold direct_conversation_id. rewrite <- Et. cbv zeta.
  apply starts_with_split in Hs as [r ->]. split_and!; [done| |by destruct r].
  apply (trim_prefixed "d" "m:"); [done|done|]. simpl. lia.
Qed.
End ids.
