(* ===== verification/Peers.v ===== *)
(** * Peers: personas, identifiers, routes and conversations

    [peer_personas.rs], [peer_identifiers.rs], [direct_peer_routes.rs],
    [conversation_registry.rs], [conversation_aliases.rs], [peer_profiles.rs] and
    [did_transition_edges.rs] of [internal/local_state/]: the tables that say which
    persona a DID or a handle belongs to, and which conversation is the persona's.

    Foreign keys and unique indexes are conditions that fail a statement. Creation times
    are left out; the clock, as the text that is stored, is an argument. *)

From Stdlib Require Import Ascii.
From S2P Require Import Prelude RustStr ImError Decimal Store SyncStore Outbox Wire ReadState ReadBind Persona.
Local Open Scope Z_scope.

(** ** Tables *)

Record PeerPersonaRecord := mkPersonaRecord {
  pp_owner : string;
  pp_persona : PeerPersona;
  pp_binding_generation : option string;
  pp_subject_type : string;
  pp_source : string;
  pp_authority_revision : option string;
  pp_verified_at : string }.
Record PeerIdentifierRecord := mkIdentifier {
  pi_owner : string;
  pi_persona_id : string;
  pi_kind : string;
  pi_value : string;
  pi_is_current : bool;
  pi_binding_generation : option string;
  pi_source : string;
  pi_verified_at : string;
  pi_last_seen_at : string }.
Record DirectPeerRouteRecord := mkRoute {
  dr_owner : string;
  dr_conversation_id : string;
  dr_persona_id : option string;
  dr_authority_namespace : option string;
  dr_peer_user_id : string;
  dr_full_handle : string;
  dr_current_did : string;
  dr_updated_at : string }.
(** A row of [conversation_registry]. *)
Record RegistryRow := mkRegistry {
  rg_owner : string;
  rg_owner_did : string;
  rg_conversation_id : string;
  rg_thread_kind : string;
  rg_thread_id : string;
  rg_activity_at : string;
  rg_updated_at : string;
  rg_is_active : bool;
  rg_explicitly_opened : bool;
  rg_persona_id : option string;
  rg_group_did : option string;
  rg_lifecycle : string;
  rg_resolution : string;
  rg_merged_into : option string }.
Record ProfileRow := mkProfileRow {
  pf_owner : string;
  pf_persona_id : string;
  pf_display_name : option string;
  pf_full_handle : string;
  pf_avatar_uri : option string;
  pf_avatar_thumbnail_uri : option string;
  pf_avatar_thumbnail_source_uri : option string;
  pf_subject_type : option string;
  pf_profile_version : option string;
  pf_account_profile_version : option string;
  pf_updated_at : option string;
  pf_fetched_at : Z;
  pf_expires_at : Z }.
Inductive TransitionAssurance := Verified | RecoveryVerified | ProviderAsserted | Unverified.
Record VerifiedDidTransitionEdge := mkEdge {
  te_predecessor : string;
  te_successor : string;
  te_assurance : TransitionAssurance }.
(** The columns used here of [contacts], [group_members], [groups],
    [conversation_summaries] and [inbound_resolution_backlog] with its bindings. *)
Record ContactRow := mkContact {
  ct_owner : string;
  ct_did : string;
  ct_handle : option string;
  ct_persona_id : option string }.
Record MemberRow := mkMember {
  mb_owner : string;
  mb_group_id : string;
  mb_user_id : string;
  mb_persona_id : option string }.
Record GroupRow := mkGroup {
  gr_owner : string;
  gr_group_id : string;
  gr_group_did : string;
  gr_membership_status : string;
  gr_owner_did : string;
  gr_name : string;
  gr_group_mode : string;
  gr_slug : string;
  gr_description : string;
  gr_goal : string;
  gr_rules : string;
  gr_message_prompt : string;
  gr_doc_url : string;
  gr_group_owner_did : string;
  gr_group_owner_handle : string;
  gr_my_role : string;
  gr_join_enabled : option bool;
  gr_join_code : string;
  gr_join_code_expires_at : string;
  gr_member_count : option Z;
  gr_last_synced_seq : option Z;
  gr_last_read_seq : option Z;
  gr_last_message_at : string;
  gr_remote_created_at : string;
  gr_remote_updated_at : string;
  gr_stored_at : string;
  gr_metadata : option Value;
  gr_credential_name : string }.
Record SummaryRow := mkSummaryRow {
  su_owner : string;
  su_owner_did : string;
  su_conversation_id : string;
  su_thread_id : string;
  su_message_count : Z;
  su_unread_count : Z;
  su_unread_mention_count : Z;
  su_first_unread_mention : option string;
  su_last_message_id : option string;
  su_last_message_at : string;
  su_last_content : option string;
  su_last_content_type : option string;
  su_last_sender_did : option string;
  su_last_sender_name : option string;
  su_last_payload_json : option string;
  su_group_id : option string;
  su_group_did : option string;
  su_updated_at : string }.
(** A message on its way into the store. *)
Inductive MessageHydrationState := Hydrated | Discovered | LegacyProbe.
#[export] Instance hydration_eq_dec : EqDecision MessageHydrationState.
Proof. solve_decision. Defined.
Record MessageRecord := mkMessageRecord {
  rc_msg_id : string;
  rc_owner_identity_id : string;
  rc_owner_did : string;
  rc_conversation_id : string;
  rc_wire_thread_kind : string;
  rc_wire_thread_ref : string;
  rc_wire_resolution_state : string;
  rc_thread_id : string;
  rc_direction : Z;
  rc_sender_did : string;
  rc_receiver_did : string;
  rc_group_id : string;
  rc_group_did : string;
  rc_content_type : string;
  rc_content : string;
  rc_title : string;
  rc_server_seq : option Z;
  rc_hydration_state : MessageHydrationState;
  rc_sent_at : string;
  rc_stored_at : string;
  rc_is_e2ee : bool;
  rc_is_read : bool;
  rc_sender_name : string;
  rc_metadata : option Value;
  rc_mentions_current_user : bool;
  rc_credential_name : string }.
(** A message held back, with the thread binding stored for it. Its [message_record_json] is the
    record and whether the text has the field [hydration_state]. *)
Record BacklogRow := mkBacklog {
  bl_owner : string;
  bl_owner_did : string;
  bl_event_id : string;
  bl_event_seq : string;
  bl_event_type : string;
  bl_message_id : string;
  bl_peer_did : string;
  bl_record : MessageRecord;
  bl_explicit_hydration : bool;
  bl_resolution_state : string;
  bl_error_code : string;
  bl_error_detail : string;
  bl_attempt_count : Z;
  bl_first_seen_at : string;
  bl_last_attempt_at : string;
  bl_binding : option (string * string * Z) }.

Record PeerDb := mkPeerDb {
  px_read : ReadDb;
  px_personas : list PeerPersonaRecord;
  px_identifiers : list PeerIdentifierRecord;
  px_routes : list DirectPeerRouteRecord;
  px_registry : list RegistryRow;
  px_profiles : list ProfileRow;
  px_edges : list (string * VerifiedDidTransitionEdge);
  px_contacts : list ContactRow;
  px_members : list MemberRow;
  px_groups : list GroupRow;
  px_summaries : list SummaryRow;
  px_backlog : list BacklogRow;
  (** [identity_did_history]: owner and DID *)
  px_did_history : list (string * string) }.

Definition with_read t (s : PeerDb) : PeerDb :=
  mkPeerDb t (px_personas s) (px_identifiers s) (px_routes s) (px_registry s) (px_profiles s)
    (px_edges s) (px_contacts s) (px_members s) (px_groups s) (px_summaries s) (px_backlog s)
    (px_did_history s).
Definition with_personas t (s : PeerDb) : PeerDb :=
  mkPeerDb (px_read s) t (px_identifiers s) (px_routes s) (px_registry s) (px_profiles s)
    (px_edges s) (px_contacts s) (px_members s) (px_groups s) (px_summaries s) (px_backlog s)
    (px_did_history s).
Definition with_identifiers t (s : PeerDb) : PeerDb :=
  mkPeerDb (px_read s) (px_personas s) t (px_routes s) (px_registry s) (px_profiles s)
    (px_edges s) (px_contacts s) (px_members s) (px_groups s) (px_summaries s) (px_backlog s)
    (px_did_history s).
Definition with_routes t (s : PeerDb) : PeerDb :=
  mkPeerDb (px_read s) (px_personas s) (px_identifiers s) t (px_registry s) (px_profiles s)
    (px_edges s) (px_contacts s) (px_members s) (px_groups s) (px_summaries s) (px_backlog s)
    (px_did_history s).
Definition with_registry t (s : PeerDb) : PeerDb :=
  mkPeerDb (px_read s) (px_personas s) (px_identifiers s) (px_routes s) t (px_profiles s)
    (px_edges s) (px_contacts s) (px_members s) (px_groups s) (px_summaries s) (px_backlog s)
    (px_did_history s).
Definition with_profiles t (s : PeerDb) : PeerDb :=
  mkPeerDb (px_read s) (px_personas s) (px_identifiers s) (px_routes s) (px_registry s) t
    (px_edges s) (px_contacts s) (px_members s) (px_groups s) (px_summaries s) (px_backlog s)
    (px_did_history s).
Definition with_edges t (s : PeerDb) : PeerDb :=
  mkPeerDb (px_read s) (px_personas s) (px_identifiers s) (px_routes s) (px_registry s)
    (px_profiles s) t (px_contacts s) (px_members s) (px_groups s) (px_summaries s)
    (px_backlog s) (px_did_history s).
Definition with_contacts t (s : PeerDb) : PeerDb :=
  mkPeerDb (px_read s) (px_personas s) (px_identifiers s) (px_routes s) (px_registry s)
    (px_profiles s) (px_edges s) t (px_members s) (px_groups s) (px_summaries s)
    (px_backlog s) (px_did_history s).
Definition with_members t (s : PeerDb) : PeerDb :=
  mkPeerDb (px_read s) (px_personas s) (px_identifiers s) (px_routes s) (px_registry s)
    (px_profiles s) (px_edges s) (px_contacts s) t (px_groups s) (px_summaries s)
    (px_backlog s) (px_did_history s).
Definition with_groups t (s : PeerDb) : PeerDb :=
  mkPeerDb (px_read s) (px_personas s) (px_identifiers s) (px_routes s) (px_registry s)
    (px_profiles s) (px_edges s) (px_contacts s) (px_members s) t (px_summaries s)
    (px_backlog s) (px_did_history s).
Definition with_aliases t (s : PeerDb) : PeerDb :=
  let r := px_read s in
  with_read (mkReadDb (rd_db r) (rd_thread_bindings r) (rd_remote_states r) t
               (rd_message_aliases r)) s.

(** [for (field, value) in [..] { if value.trim().is_empty() { return Err(..) } }] *)
Fixpoint all_required (fields : list (string * string)) : ImResult unit :=
  match fields with
  | [] => Ok ()
  | (field, value) :: rest =>
      if is_empty (trim value)
      then Err (invalid_input (Some field) (field +:+ " is required"))
      else all_required rest
  end.
(** [COALESCE(a, b)] *)
Definition coalesce {A} (a b : option A) : option A := match a with Some x => Some x | None => b end.

(** ** Personas *)

Definition persona_row (owner id : string) (r : PeerPersonaRecord) : bool :=
  bool_decide (pp_owner r = owner) && bool_decide (ps_peer_persona_id (pp_persona r) = id).
Definition same_authority (p q : PeerPersona) : bool :=
  bool_decide (ps_authority_namespace p = ps_authority_namespace q)
  && bool_decide (ps_authority_subject_id p = ps_authority_subject_id q)
  && bool_decide (ps_full_handle p = ps_full_handle q).
Definition merge_persona (cur new : PeerPersonaRecord) : PeerPersonaRecord :=
  mkPersonaRecord (pp_owner cur) (pp_persona cur)
    (coalesce (pp_binding_generation new) (pp_binding_generation cur)) (pp_subject_type new)
    (pp_source new) (coalesce (pp_authority_revision new) (pp_authority_revision cur))
    (pp_verified_at new).
Definition upsert_persona (s : PeerDb) (r : PeerPersonaRecord) : ImResult PeerDb :=
  _ ← all_required [("owner_identity_id", pp_owner r);
                    ("peer_persona_id", ps_peer_persona_id (pp_persona r));
                    ("source", pp_source r); ("verified_at", pp_verified_at r)]%string;
  let owner := trim (pp_owner r) in
  let row := mkPersonaRecord owner (pp_persona r) (pp_binding_generation r)
               (trim (pp_subject_type r)) (trim (pp_source r)) (pp_authority_revision r)
               (trim (pp_verified_at r)) in
  let key := persona_row owner (ps_peer_persona_id (pp_persona r)) in
  let t := px_personas s in
  if exists_where key t then
    match head (select_where key t) with
    | Some cur =>
        if same_authority (pp_persona cur) (pp_persona row) then
          Ok (with_personas (update_where key (λ cur, merge_persona cur row) t) s)
        else identity_conflict "peer Persona immutable authority identity does not match stored state"
    | None => constraint_failed
    end
  else if exists_where (λ x, bool_decide (pp_owner x = owner)
                             && same_authority (pp_persona x) (pp_persona row)) t
  then constraint_failed
  else Ok (with_personas (t ++ [row]) s).

(** ** Identifiers *)

Definition identifier_row (owner kind value : string) (r : PeerIdentifierRecord) : bool :=
  bool_decide (pi_owner r = owner) && bool_decide (pi_kind r = kind)
  && bool_decide (pi_value r = value).
Definition of_persona (owner persona : string) (r : PeerIdentifierRecord) : bool :=
  bool_decide (pi_owner r = owner) && bool_decide (pi_persona_id r = persona).
Definition is_did (r : PeerIdentifierRecord) : bool := bool_decide (pi_kind r = "did"%string).

(** [UPDATE peer_identifiers] of an existing row. *)
Definition touch_identifier (now : string) (new cur : PeerIdentifierRecord) : PeerIdentifierRecord :=
  mkIdentifier (pi_owner cur) (pi_persona_id cur) (pi_kind cur) (pi_value cur) (pi_is_current new)
    (coalesce (pi_binding_generation new) (pi_binding_generation cur)) (trim (pi_source new))
    (trim (pi_verified_at new)) now.
Definition bind_identifier (now : string) (s : PeerDb) (r : PeerIdentifierRecord)
    : ImResult PeerDb :=
  _ ← all_required [("owner_identity_id", pi_owner r); ("peer_persona_id", pi_persona_id r);
                    ("identifier_kind", pi_kind r); ("identifier_value", pi_value r);
                    ("source", pi_source r); ("verified_at", pi_verified_at r)]%string;
  let owner := trim (pi_owner r) in
  let kind := trim (pi_kind r) in
  let value := trim (pi_value r) in
  let persona := trim (pi_persona_id r) in
  if negb (bool_decide (kind ∈ ["did"; "handle"]%string)) then
    Err (invalid_input (Some "identifier_kind"%string) "identifier_kind must be did or handle")
  else
    let key := identifier_row owner kind value in
    let t := px_identifiers s in
    t1 ← if exists_where key t then Ok t
         else if exists_where (persona_row owner persona) (px_personas s) then
           Ok (t ++ [mkIdentifier owner persona kind value (pi_is_current r)
                       (pi_binding_generation r) (trim (pi_source r)) (trim (pi_verified_at r)) now])
         else constraint_failed;
    match head (select_where key t1) with
    | Some cur =>
        if bool_decide (pi_persona_id cur = persona) then
          Ok (with_identifiers (update_where key (touch_identifier now r) t1) s)
        else identity_conflict (kind +:+ " identifier is already bound to another Persona")
    | None => identity_conflict (kind +:+ " identifier is already bound to another Persona")
    end.

(** [ORDER BY is_current DESC, last_seen_at DESC, identifier_value] *)
Definition identifier_le (a b : PeerIdentifierRecord) : Prop :=
  (pi_is_current a = true ∧ pi_is_current b = false) ∨
  (pi_is_current a = pi_is_current b ∧
   (str_cmp (pi_last_seen_at b) (pi_last_seen_at a) = Lt ∨
    (pi_last_seen_at a = pi_last_seen_at b ∧ str_le (pi_value a) (pi_value b)))).
#[export] Instance identifier_le_dec a b : Decision (identifier_le a b).
Proof. unfold identifier_le. apply _. Defined.
Definition dids_for_persona (s : PeerDb) (owner persona : string) : list string :=
  pi_value <$> merge_sort identifier_le
    (select_where (λ r, of_persona (trim owner) (trim persona) r && is_did r) (px_identifiers s)).

(** ** Aliases *)

Record ConversationAliasRecord := mkAliasRecord {
  ar_owner : string;
  ar_kind : string;
  ar_alias : string;
  ar_canonical : string;
  ar_source : string;
  ar_verified_at : string }.
Definition alias_row (owner kind alias : string) (a : ConversationAlias) : bool :=
  bool_decide (al_owner a = owner) && bool_decide (al_kind a = kind)
  && bool_decide (al_alias a = alias).
Definition registry_row (owner conversation_id : string) (r : RegistryRow) : bool :=
  bool_decide (rg_owner r = owner) && bool_decide (rg_conversation_id r = conversation_id).
Definition is_resolved (r : RegistryRow) : bool := bool_decide (rg_resolution r = "resolved"%string).
Definition is_merged (r : RegistryRow) : bool := bool_decide (rg_lifecycle r = "merged"%string).
Definition is_live (r : RegistryRow) : bool := bool_decide (rg_lifecycle r = "active"%string).

Definition validate_alias (r : ConversationAliasRecord) : ImResult unit :=
  _ ← all_required [("owner_identity_id", ar_owner r); ("alias_kind", ar_kind r);
                    ("alias_conversation_id", ar_alias r);
                    ("canonical_conversation_id", ar_canonical r); ("source", ar_source r);
                    ("verified_at", ar_verified_at r)]%string;
  if bool_decide (trim (ar_alias r) = trim (ar_canonical r)) then
    Err (invalid_input (Some "alias_conversation_id"%string)
           "alias must not equal its canonical target")
  else Ok ().
Definition insert_alias (s : PeerDb) (r : ConversationAliasRecord) : ImResult PeerDb :=
  _ ← validate_alias r;
  let owner := trim (ar_owner r) in
  let kind := trim (ar_kind r) in
  let alias := trim (ar_alias r) in
  let canonical := trim (ar_canonical r) in
  let t := rd_aliases (px_read s) in
  if exists_where (λ a, bool_decide (al_owner a = owner) && bool_decide (al_alias a = canonical)) t
  then identity_conflict "conversation alias target must be a canonical registry id, not another alias"
  else if negb (exists_where (λ x, registry_row owner canonical x && negb (is_merged x)
                                   && is_resolved x) (px_registry s))
  then identity_unresolved "conversation alias target must be a resolved canonical registry row"
  else
    let key := alias_row owner kind alias in
    match head (select_where key t) with
    | None => Ok (with_aliases (t ++ [mkAlias owner kind alias canonical]) s)
    | Some cur =>
        if bool_decide (al_canonical cur = canonical) then Ok s
        else Err (ConversationAliasConflict alias (al_canonical cur) canonical)
    end.

(** ** Routes *)

Section routes.
Context `{WireCodec, Idna}.

Definition route_row (owner conversation_id : string) (r : DirectPeerRouteRecord) : bool :=
  bool_decide (dr_owner r = owner) && bool_decide (dr_conversation_id r = conversation_id).

Definition DirectPeerRouteRecord_new (now owner conversation_id peer_user_id full_handle
    current_did : string) : ImResult DirectPeerRouteRecord :=
  owner ← required "owner_identity_id" owner;
  conversation_id ← required "conversation_id" conversation_id;
  scope ← DirectPeerScope_new peer_user_id full_handle;
  if negb (bool_decide (conversation_id = direct_conversation_id_for_peer_scope scope)) then
    Err (invalid_input (Some "conversation_id"%string)
           "conversation_id does not match the resolved Direct peer scope")
  else
    current_did ← required "current_did" current_did;
    _ ← Did_parse current_did;
    Ok (mkRoute owner conversation_id None None (sc_user_id scope) (sc_full_handle scope)
          current_did now).
Definition from_verified_persona (now owner : string) (persona : PeerPersona) (current_did : string)
    : ImResult DirectPeerRouteRecord :=
  current_did ← required "current_did" current_did;
  _ ← Did_parse current_did;
  owner ← required "owner_identity_id" owner;
  Ok (mkRoute owner (persona_conversation_id persona) (Some (ps_peer_persona_id persona))
        (Some (ps_authority_namespace persona)) (ps_authority_subject_id persona)
        (ps_full_handle persona) current_did now).

Definition validate_route (r : DirectPeerRouteRecord) : ImResult unit :=
  match dr_persona_id r, dr_authority_namespace r with
  | Some persona_id, Some namespace =>
      persona ← from_verified_handle namespace (dr_peer_user_id r) (dr_full_handle r)
                  (Some "active"%string);
      if negb (bool_decide (persona_id = ps_peer_persona_id persona))
         || negb (bool_decide (dr_conversation_id r = persona_conversation_id persona)) then
        identity_conflict "Direct route does not match its canonical Persona"
      else _ ← Did_parse (dr_current_did r); Ok ()
  | None, None =>
      v ← DirectPeerRouteRecord_new "" (dr_owner r) (dr_conversation_id r) (dr_peer_user_id r)
            (dr_full_handle r) (dr_current_did r);
      if bool_decide ((dr_owner v, dr_conversation_id v, dr_peer_user_id v, dr_full_handle v,
                       dr_current_did v)
                      = (dr_owner r, dr_conversation_id r, dr_peer_user_id r, dr_full_handle r,
                         dr_current_did r)) then Ok ()
      else Err (local_state_unavailable "Direct peer route normalization mismatch")
  | _, _ => identity_conflict "Direct route has a partial Persona binding"
  end.

Definition merge_route (cur new : DirectPeerRouteRecord) : DirectPeerRouteRecord :=
  mkRoute (dr_owner cur) (dr_conversation_id cur) (coalesce (dr_persona_id new) (dr_persona_id cur))
    (coalesce (dr_authority_namespace new) (dr_authority_namespace cur)) (dr_peer_user_id new)
    (dr_full_handle new) (dr_current_did new) (dr_updated_at new).
Definition upsert_route (s : PeerDb) (r : DirectPeerRouteRecord) : ImResult PeerDb :=
  _ ← validate_route r;
  let key := route_row (dr_owner r) (dr_conversation_id r) in
  let t := px_routes s in
  if exists_where (λ x, bool_decide (dr_owner x = dr_owner r) && negb (key x)
                        && bool_decide (dr_peer_user_id x = dr_peer_user_id r)
                        && bool_decide (dr_full_handle x = dr_full_handle r)) t
  then constraint_failed
  else Ok (with_routes (if exists_where key t then update_where key (λ cur, merge_route cur r) t
                        else t ++ [r]) s).
Definition get_route (s : PeerDb) (owner conversation_id : string)
    : ImResult (option DirectPeerRouteRecord) :=
  owner ← required "owner_identity_id" owner;
  conversation_id ← required "conversation_id" conversation_id;
  let conversation_id :=
    default conversation_id (resolve_alias (px_read s) owner foreign_persona conversation_id) in
  match head (select_where (route_row owner conversation_id) (px_routes s)) with
  | None => Ok None
  | Some r =>
      match validate_route r with
      | Ok _ => Ok (Some r)
      | Err _ => Err (local_state_unavailable "Direct peer route integrity check failed")
      end
  end.

(** [UPDATE direct_peer_routes SET current_did, updated_at] *)
Definition set_route_did (did now : string) (r : DirectPeerRouteRecord) : DirectPeerRouteRecord :=
  mkRoute (dr_owner r) (dr_conversation_id r) (dr_persona_id r) (dr_authority_namespace r)
    (dr_peer_user_id r) (dr_full_handle r) did now.
(** [UPDATE peer_identifiers SET is_current = 0] *)
Definition retire_identifier (now : option string) (r : PeerIdentifierRecord)
    : PeerIdentifierRecord :=
  mkIdentifier (pi_owner r) (pi_persona_id r) (pi_kind r) (pi_value r) false
    (pi_binding_generation r) (pi_source r) (pi_verified_at r) (default (pi_last_seen_at r) now).

(** The transaction of [compare_and_set_verified_transition], with the look-up before it. *)
Definition transition_route (now : string) (s : PeerDb)
    (owner conversation_id expected_did verified_did : string) : ImResult PeerDb :=
  found ← get_route s owner conversation_id;
  match found with
  | None => identity_conflict "verified DID transition has no existing Direct route"
  | Some route =>
      if negb (bool_decide (dr_current_did route = expected_did)) then
        identity_conflict "Direct route changed while DID transition was being verified"
      else
        match dr_persona_id route with
        | None => identity_conflict "verified DID transition route has no immutable Persona"
        | Some persona =>
            let old := λ i, of_persona owner persona i && is_did i
                            && bool_decide (pi_value i = expected_did) && pi_is_current i in
            if negb (count_where old (px_identifiers s) =? 1)%nat then
              identity_conflict "Direct route predecessor is not the current Persona DID"
            else
              let s1 := with_identifiers
                (update_where old (retire_identifier (Some now)) (px_identifiers s)) s in
              s2 ← bind_identifier now s1
                (mkIdentifier owner persona "did" verified_did true None "verified_did_transition"
                   now "");
              let moved := λ r, route_row owner conversation_id r
                                && bool_decide (dr_current_did r = expected_did)
                                && bool_decide (dr_persona_id r = Some persona) in
              if negb (count_where moved (px_routes s2) =? 1)%nat then
                identity_conflict "Direct route CAS lost a concurrent DID transition"
              else
                Ok (with_routes
                      (update_where moved (set_route_did verified_did now) (px_routes s2)) s2)
        end
  end.
Definition compare_and_set_verified_transition (now : string) (s : PeerDb)
    (owner conversation_id expected_did verified_did : string)
    : ImResult DirectPeerRouteRecord * PeerDb :=
  match transition_route now s owner conversation_id expected_did verified_did with
  | Err e => (Err e, s)
  | Ok s' =>
      (after ← get_route s' owner conversation_id;
       match after with
       | Some route => Ok route
       | None => identity_conflict "Direct route disappeared after DID transition CAS"
       end, s')
  end.
End routes.

(** ** The registry *)

Record ConversationRegistryRecord := mkRegistryRecord {
  cr_owner : string;
  cr_owner_did : string;
  cr_conversation_id : string;
  cr_thread_kind : string;
  cr_thread_id : string;
  cr_activity_at : string }.

Definition nonblank_column (o : option string) : bool :=
  negb (is_empty (sql_trim (default ""%string o))).
Definition canonical_identity_for_record (s : PeerDb) (r : ConversationRegistryRecord)
    : option string * option string * string :=
  if bool_decide (cr_thread_kind r = "group"%string) then
    (None, trimmed_nonempty (strip_prefix (cr_conversation_id r) "group:"), "resolved"%string)
  else if bool_decide (cr_thread_kind r = "direct"%string) then
    match head (select_where (λ x, route_row (cr_owner r) (cr_conversation_id r) x
                                   && nonblank_column (dr_persona_id x)) (px_routes s)) with
    | Some x => (dr_persona_id x, None, "resolved"%string)
    | None => (None, None, "legacy_unresolved"%string)
    end
  else (None, None, "legacy_unresolved"%string).

Definition merge_registry (cur new : RegistryRow) : RegistryRow :=
  mkRegistry (rg_owner cur) (rg_owner_did new) (rg_conversation_id cur) (rg_thread_kind new)
    (rg_thread_id new)
    (if bool_decide (str_cmp (rg_activity_at new) (rg_activity_at cur) = Gt)
     then rg_activity_at new else rg_activity_at cur)
    (rg_updated_at new) (negb (is_merged cur)) (rg_explicitly_opened cur)
    (coalesce (rg_persona_id new) (rg_persona_id cur))
    (coalesce (rg_group_did new) (rg_group_did cur))
    (if is_merged cur then "merged" else "active")
    (if bool_decide (rg_resolution cur = "blocked_conflict") then "blocked_conflict"
     else if is_merged cur then rg_resolution cur else rg_resolution new)
    (rg_merged_into cur).

(** The unique indexes of active resolved rows: one per persona, one per group. *)
Definition index_conflict (r x : RegistryRow) : bool :=
  is_live r && is_resolved r && is_live x && is_resolved x
  && bool_decide (rg_owner x = rg_owner r) && bool_decide (rg_thread_kind x = rg_thread_kind r)
  && ((bool_decide (rg_thread_kind r = "direct"%string)
       && bool_decide (is_Some (rg_persona_id r)) && bool_decide (rg_persona_id x = rg_persona_id r))
      || (bool_decide (rg_thread_kind r = "group"%string)
          && bool_decide (is_Some (rg_group_did r)) && bool_decide (rg_group_did x = rg_group_did r))).
(** The row of a key is replaced; the indexes are checked against the other rows. *)
Definition put_registry (s : PeerDb) (key : RegistryRow → bool) (row : RegistryRow)
    : ImResult PeerDb :=
  let t := px_registry s in
  if exists_where (λ x, negb (key x) && index_conflict row x) t then constraint_failed
  else Ok (with_registry (if exists_where key t then update_where key (λ _, row) t else t ++ [row]) s).

Definition ensure_conversation (s : PeerDb) (r : ConversationRegistryRecord) : ImResult PeerDb :=
  _ ← all_required [("owner_identity_id", cr_owner r); ("owner_did", cr_owner_did r);
                    ("conversation_id", cr_conversation_id r); ("thread_kind", cr_thread_kind r);
                    ("thread_id", cr_thread_id r); ("activity_at", cr_activity_at r)]%string;
  let '(persona, group_did, resolution) := canonical_identity_for_record s r in
  let new := mkRegistry (cr_owner r) (cr_owner_did r) (cr_conversation_id r) (cr_thread_kind r)
               (cr_thread_id r) (cr_activity_at r) (cr_activity_at r) true false persona group_did
               "active" resolution None in
  let key := registry_row (cr_owner r) (cr_conversation_id r) in
  put_registry s key
    match head (select_where key (px_registry s)) with
    | Some cur => merge_registry cur new
    | None => new
    end.

Definition require_active_resolved (s : PeerDb) (owner conversation_id : string) : ImResult unit :=
  match head (select_where (registry_row (trim owner) (trim conversation_id)) (px_registry s)) with
  | Some r =>
      if is_live r && is_resolved r then Ok ()
      else if bool_decide (rg_resolution r = "blocked_conflict"%string) then
        identity_conflict "conversation canonical identity is blocked by a binding conflict"
      else identity_unresolved "conversation is not an active resolved canonical conversation"
  | None => identity_unresolved "conversation is not an active resolved canonical conversation"
  end.

Definition active_member (g : GroupRow) : bool :=
  let status := sql_trim (gr_membership_status g) in
  negb (bool_decide ((if is_empty status then "active"%string else status)
                     ∈ ["left"; "removed"; "inactive"; "non_member"]%string)).
Definition set_opened (r : RegistryRow) : RegistryRow :=
  mkRegistry (rg_owner r) (rg_owner_did r) (rg_conversation_id r) (rg_thread_kind r)
    (rg_thread_id r) (rg_activity_at r) (rg_updated_at r) (rg_is_active r) true (rg_persona_id r)
    (rg_group_did r) (rg_lifecycle r) (rg_resolution r) (rg_merged_into r).

Section registry.
Context `{WireCodec, Idna}.

(** Kind and thread of a canonical conversation id. *)
Definition validated_thread (s : PeerDb) (owner conversation_id : string)
    : ImResult (string * string) :=
  match strip_prefix conversation_id "group:" with
  | Some group_ref =>
      let group_ref := trim group_ref in
      match Did_parse group_ref with
      | Err _ => Err (CanonicalGroupIdentityMissing group_ref)
      | Ok _ =>
          match head (select_where (λ g, bool_decide (gr_owner g = owner)
                                         && bool_decide (gr_group_did g = group_ref)
                                         && active_member g) (px_groups s)) with
          | Some g => Ok ("group", if is_empty (sql_trim (gr_group_id g))
                                   then sql_trim (gr_group_did g) else sql_trim (gr_group_id g))
          | None => Err (invalid_input (Some "conversation_id")
                           "group conversation requires an active local membership projection")
          end%string
      end
  | None =>
      if starts_with conversation_id "dm:peer-scope:v1:" then
        found ← get_route s owner conversation_id;
        match found with
        | None => Err (invalid_input (Some "conversation_id"%string)
                         "Direct conversation requires an owner-scoped canonical peer route")
        | Some route =>
            match trimmed_nonempty (dr_persona_id route) with
            | None => identity_unresolved
                        "Direct conversation route is not bound to a verified Persona"
            | Some _ => Ok ("direct"%string, dr_conversation_id route)
            end
        end
      else Err (invalid_input (Some "conversation_id"%string)
                  "conversation must use a canonical group: or dm:peer-scope:v1: id")
  end.
Definition ensure_validated (now : string) (s : PeerDb) (owner owner_did conversation_id : string)
    : ImResult PeerDb :=
  let conversation_id :=
    trim (default conversation_id (resolve_alias (px_read s) owner foreign_persona conversation_id)) in
  thread ← validated_thread s owner conversation_id;
  s1 ← ensure_conversation s
    (mkRegistryRecord owner owner_did conversation_id thread.1 thread.2 now);
  _ ← require_active_resolved s1 owner conversation_id;
  Ok (with_registry
        (update_where (registry_row owner conversation_id) set_opened (px_registry s1)) s1).
End registry.

Definition ensure_from_summary (s : PeerDb) (owner conversation_id : string) : ImResult PeerDb :=
  match head (select_where (λ x, bool_decide (su_owner x = owner)
                                 && bool_decide (su_conversation_id x = conversation_id))
                (px_summaries s)) with
  | None => Ok s
  | Some x =>
      let thread :=
        match strip_prefix conversation_id "group:" with
        | Some group_ref => ("group", group_ref)
        | None => if starts_with conversation_id "dm:peer-scope:v1:"
                  then ("direct", su_thread_id x) else ("thread", su_thread_id x)
        end%string in
      ensure_conversation s
        (mkRegistryRecord owner (su_owner_did x) conversation_id thread.1 thread.2
           (if is_empty (trim (su_last_message_at x)) then su_updated_at x
            else su_last_message_at x))
  end.

Definition archive (now : string) (r : RegistryRow) : RegistryRow :=
  mkRegistry (rg_owner r) (rg_owner_did r) (rg_conversation_id r) (rg_thread_kind r)
    (rg_thread_id r) (rg_activity_at r) now false (rg_explicitly_opened r) (rg_persona_id r)
    (rg_group_did r) "archived" (rg_resolution r) (rg_merged_into r).
Definition deactivate (now : string) (s : PeerDb) (owner conversation_id : string) : PeerDb :=
  with_registry (update_where (registry_row (trim owner) (trim conversation_id)) (archive now)
                   (px_registry s)) s.
Definition merge_into (now target : string) (r : RegistryRow) : RegistryRow :=
  mkRegistry (rg_owner r) (rg_owner_did r) (rg_conversation_id r) (rg_thread_kind r)
    (rg_thread_id r) (rg_activity_at r) now false (rg_explicitly_opened r) (rg_persona_id r)
    (rg_group_did r) "merged" "resolved" (Some target).
Definition mark_merged (now : string) (s : PeerDb) (owner conversation_id canonical : string)
    : ImResult PeerDb :=
  if exists_where (λ x, registry_row (trim owner) (trim canonical) x && is_live x && is_resolved x)
       (px_registry s) then
    Ok (with_registry (update_where (registry_row (trim owner) (trim conversation_id))
                         (merge_into now (trim canonical)) (px_registry s)) s)
  else identity_unresolved "canonical merge target is not an active resolved conversation".

(** [INSERT OR IGNORE INTO conversation_registry .. SELECT .. FROM conversation_summaries]:
    the number of rows inserted *)
Definition backfill_row (x : SummaryRow) : RegistryRow :=
  let group := starts_with (to_ascii_lowercase (su_conversation_id x)) "group:" in
  let at_time := if is_empty (su_last_message_at x) then su_updated_at x else su_last_message_at x in
  mkRegistry (su_owner x) (su_owner_did x) (su_conversation_id x)
    (if group then "group" else "thread") (su_thread_id x) at_time (su_updated_at x) true false None
    (if group then Some (String.substring 6 (String.length (su_conversation_id x) - 6)
                           (su_conversation_id x)) else None)
    "active" (if group then "resolved" else "legacy_unresolved") None.
Definition backfill_one (acc : Z * PeerDb) (x : SummaryRow) : Z * PeerDb :=
  let row := backfill_row x in
  let t := px_registry acc.2 in
  if exists_where (λ r, registry_row (su_owner x) (su_conversation_id x) r || index_conflict row r) t
  then acc else (acc.1 + 1, with_registry (t ++ [row]) acc.2).
Definition backfill_from_summaries (s : PeerDb) : Z * PeerDb :=
  fold_left backfill_one (px_summaries s) (0, s).

(** ** Transition edges *)

Definition edge_row (owner did : string) (e : string * VerifiedDidTransitionEdge) : bool :=
  bool_decide (e.1 = owner) && bool_decide (te_predecessor e.2 = did).
(** The stored text of an accepted assurance. *)
Definition strong_assurance (a : TransitionAssurance) : bool :=
  match a with Verified | RecoveryVerified => true | ProviderAsserted | Unverified => false end.
Definition edge_required (field value : string) : ImResult string :=
  let value := trim value in
  if is_empty value then Err (invalid_input (Some field) (field +:+ " is required")) else Ok value.
Definition canonical_did (field value : string) : ImResult string :=
  value ← edge_required field value;
  did ← Did_parse value;
  if bool_decide (did = value) then Ok value
  else Err (invalid_input (Some field) (field +:+ " must be canonical")).
Definition get_successor (s : PeerDb) (owner predecessor : string) : ImResult (option string) :=
  owner ← edge_required "owner_identity_id" owner;
  predecessor ← canonical_did "predecessor_did" predecessor;
  Ok ((λ e, te_successor e.2) <$> head (select_where (edge_row owner predecessor) (px_edges s))).

(** [COUNT(DISTINCT x)] *)
Definition count_distinct (l : list string) : nat := length (remove_dups l).
Definition check_read_projection_consistency (s : PeerDb) (owner predecessor successor : string)
    : ImResult unit :=
  let either x := bool_decide (x = predecessor) || bool_decide (x = successor) in
  if (1 <? count_distinct (pi_persona_id <$> select_where
        (λ i, bool_decide (pi_owner i = owner) && is_did i && either (pi_value i))
        (px_identifiers s)))%nat then
    identity_conflict "transition endpoints are bound to different immutable Personas"
  else if (1 <? count_distinct (dr_conversation_id <$> select_where
        (λ r, bool_decide (dr_owner r = owner) && either (dr_current_did r)) (px_routes s)))%nat then
    identity_conflict "transition endpoints are projected to different conversations"
  else if (count_where (λ h, bool_decide (h.1 = owner) && either h.2) (px_did_history s) =? 1)%nat then
    identity_conflict "partial local identity history cannot be extended by peer transition cache"
  else if (1 <? count_distinct (omap (λ b, (λ t, t.1.1) <$> bl_binding b) (select_where
        (λ b, bool_decide (bl_owner b = owner) && either (bl_peer_did b)
              && bool_decide (bl_resolution_state b = "pending"%string)
              && match bl_binding b with
                 | Some (_, kind, _) => bool_decide (kind = "direct"%string) | None => false end)
        (px_backlog s))))%nat then
    identity_conflict "transition endpoints have conflicting unresolved Direct bindings"
  else Ok ().
Definition compare_and_set_verified (s : PeerDb) (owner : string) (edge : VerifiedDidTransitionEdge)
    : ImResult PeerDb :=
  owner ← edge_required "owner_identity_id" owner;
  predecessor ← canonical_did "predecessor_did" (te_predecessor edge);
  successor ← canonical_did "successor_did" (te_successor edge);
  if bool_decide (predecessor = successor) then
    identity_conflict "DID transition edge cannot point to itself"
  else if negb (strong_assurance (te_assurance edge)) then
    identity_conflict "weak DID transition assurance cannot enter verified cache"
  else
    _ ← check_read_projection_consistency s owner predecessor successor;
    let t := px_edges s in
    let t1 := if exists_where (edge_row owner predecessor) t then t
              else t ++ [(owner, mkEdge predecessor successor (te_assurance edge))] in
    match head (select_where (edge_row owner predecessor) t1) with
    | None => Err (local_state_unavailable "Query returned no rows")
    | Some e =>
        if bool_decide (te_successor e.2 = successor) then Ok (with_edges t1 s)
        else identity_conflict "verified DID transition cache has a conflicting successor"
    end.

(** The cache in memory. *)
Notation VerifiedDidTransitionCache := (gmap string string).
Definition edge_le (a b : string * VerifiedDidTransitionEdge) : Prop :=
  str_le (te_predecessor a.2) (te_predecessor b.2).
#[export] Instance edge_le_dec a b : Decision (edge_le a b).
Proof. unfold edge_le. apply _. Defined.
Definition cache_row (m : VerifiedDidTransitionCache) (e : string * VerifiedDidTransitionEdge)
    : ImResult VerifiedDidTransitionCache :=
  match m !! te_predecessor e.2 with
  | Some _ => identity_conflict "DID transition cache contains duplicate predecessors"
  | None => Ok (<[te_predecessor e.2 := te_successor e.2]> m)
  end.
Definition cache_load (s : PeerDb) (owner : string) : ImResult VerifiedDidTransitionCache :=
  owner ← edge_required "owner_identity_id" owner;
  try_fold cache_row ∅
    (merge_sort edge_le (select_where (λ e, bool_decide (e.1 = owner)) (px_edges s))).
Definition cache_compare_and_set (m : VerifiedDidTransitionCache) (predecessor successor : string)
    : bool * VerifiedDidTransitionCache :=
  match m !! predecessor with
  | Some existing => (bool_decide (existing = successor), m)
  | None => (true, <[predecessor := successor]> m)
  end.

(** ** Resolving a peer *)

Record ResolvedPeerPersona := mkResolved {
  rs_peer_persona_id : string;
  rs_conversation_id : string }.

Section resolve.
Context `{WireCodec, Idna}.

(** The rows of [peer_identifiers JOIN peer_personas JOIN direct_peer_routes]. *)
Definition joined (s : PeerDb) (p : PeerIdentifierRecord → bool)
    : list (PeerPersona * DirectPeerRouteRecord) :=
  i ← select_where p (px_identifiers s);
  x ← select_where (persona_row (pi_owner i) (pi_persona_id i)) (px_personas s);
  r ← select_where (λ r, bool_decide (dr_owner r = pi_owner i)
                         && bool_decide (dr_persona_id r = Some (pi_persona_id i))) (px_routes s);
  [(pp_persona x, r)].

(** The persona of a row, derived again and compared with what is stored. *)
Definition checked_persona (row : PeerPersona * DirectPeerRouteRecord) : ImResult PeerPersona :=
  persona ← from_verified_handle (ps_authority_namespace row.1) (ps_authority_subject_id row.1)
              (ps_full_handle row.1) (Some "verified"%string);
  if negb (bool_decide (ps_peer_persona_id persona = ps_peer_persona_id row.1)) then
    identity_conflict "stored DID binding does not match its immutable Persona identity"
  else if negb (bool_decide (persona_conversation_id persona = dr_conversation_id row.2)) then
    identity_conflict "stored Direct route does not match its immutable Persona identity"
  else Ok persona.

Definition resolve_by_did (s : PeerDb) (owner did : string) : ImResult (option ResolvedPeerPersona) :=
  match joined s (identifier_row (trim owner) "did" (trim did)) with
  | [] => Ok None
  | row :: _ =>
      persona ← checked_persona row;
      Ok (Some (mkResolved (ps_peer_persona_id persona) (persona_conversation_id persona)))
  end.

Definition resolve_by_handle (s : PeerDb) (owner full_handle : string)
    : ImResult (option ResolvedPeerPersona) :=
  owner ← edge_required "owner_identity_id" owner;
  handle ← Handle_parse full_handle "";
  match filter (λ row, exists_where
                         (λ d, of_persona (dr_owner row.2) (ps_peer_persona_id row.1) d && is_did d
                               && bool_decide (pi_value d = dr_current_did row.2) && pi_is_current d)
                         (px_identifiers s) = true)
          (joined s (λ i, identifier_row owner "handle" handle i && pi_is_current i)) with
  | [] => Ok None
  | [row] =>
      persona ← from_verified_handle (ps_authority_namespace row.1) (ps_authority_subject_id row.1)
                  (ps_full_handle row.1) (Some "verified"%string);
      if negb (bool_decide (ps_full_handle persona = handle))
         || negb (bool_decide (ps_peer_persona_id persona = ps_peer_persona_id row.1)) then
        identity_conflict "stored Handle binding does not match its immutable Persona identity"
      else if negb (bool_decide (persona_conversation_id persona = dr_conversation_id row.2)) then
        identity_conflict "stored Direct route does not match its immutable Persona identity"
      else
        _ ← Did_parse (dr_current_did row.2);
        Ok (Some (mkResolved (ps_peer_persona_id persona) (persona_conversation_id persona)))
  | _ => identity_conflict "Handle is bound to multiple canonical Direct routes"
  end.

Definition unresolved_step (s : PeerDb) (owner : string) (acc : list string) (did : string)
    : ImResult (list string) :=
  did ← Did_parse (trim did);
  found ← resolve_by_did s owner did;
  Ok match found with None => acc ++ [did] | Some _ => acc end.
(** [Vec::sort] then [Vec::dedup] *)
Fixpoint dedup (l : list string) : list string :=
  match l with
  | a :: (b :: _) as l' => if bool_decide (a = b) then dedup l' else a :: dedup l'
  | l => l
  end.
Definition unresolved_dids (s : PeerDb) (owner : string) (dids : list string)
    : ImResult (list string) :=
  let owner := trim owner in
  if is_empty owner then
    Err (invalid_input (Some "owner_identity_id"%string) "owner identity id is required")
  else
    unresolved ← try_fold (unresolved_step s owner) [] dids;
    Ok (dedup (merge_sort str_le unresolved)).
End resolve.
