(* ===== verification/PeerProject.v ===== *)
(** * Projecting a verified handle

    [project_verified_handle_in_domain] of [internal/local_state/peer_personas.rs] with the
    repair of [foreign_persona_migration.rs], and the diagnostics of
    [canonical_invariants.rs]. The replay of held-back messages that ends the transaction is
    an argument ([Backlog]); the conversation summaries are left out. *)

From Stdlib Require Import Ascii.
From S2P Require Import Prelude RustStr ImError Decimal Store SyncStore Outbox Wire ReadState ReadBind Persona Peers.
Local Open Scope Z_scope.

(** ** Profiles *)

(** The fields used here of [identity::Profile]. *)
Record Profile := mkProfile {
  pr_display_name : option string;
  pr_avatar_uri : option string;
  pr_avatar_url : option string;
  pr_avatar_thumbnail_uri : option string;
  pr_avatar_uri_present : bool;
  pr_subject_type : option string;
  pr_updated_at : option string;
  pr_profile_version : option string;
  pr_version_id : option string;
  pr_ttl : option Z }.
Definition effective_avatar_uri (p : Profile) : option string :=
  coalesce (pr_avatar_uri p) (pr_avatar_url p).
Definition has_avatar_update (p : Profile) : bool :=
  pr_avatar_uri_present p || bool_decide (is_Some (effective_avatar_uri p)).

Definition older_profile_version (incoming previous : option string) : ImResult bool :=
  match incoming, previous with
  | Some incoming, Some previous =>
      order ← compare_decimal incoming previous;
      Ok (bool_decide (order = Lt))
  | _, _ => Ok false
  end.
Definition profile_row (owner persona : string) (r : ProfileRow) : bool :=
  bool_decide (pf_owner r = owner) && bool_decide (pf_persona_id r = persona).
Definition merge_profile (update_avatar : bool) (cur new : ProfileRow) : ProfileRow :=
  mkProfileRow (pf_owner cur) (pf_persona_id cur) (pf_display_name new) (pf_full_handle new)
    (if update_avatar then pf_avatar_uri new else pf_avatar_uri cur)
    (if update_avatar then pf_avatar_thumbnail_uri new else pf_avatar_thumbnail_uri cur)
    (if update_avatar then pf_avatar_uri new else pf_avatar_thumbnail_source_uri cur)
    (coalesce (pf_subject_type new) (pf_subject_type cur))
    (coalesce (pf_profile_version new) (pf_profile_version cur))
    (coalesce (pf_account_profile_version new) (pf_account_profile_version cur))
    (coalesce (pf_updated_at new) (pf_updated_at cur)) (pf_fetched_at new) (pf_expires_at new).
Definition upsert_from_verified_lookup (fetched_at : Z) (s : PeerDb)
    (owner persona full_handle : string) (profile : Profile) : ImResult PeerDb :=
  let key := profile_row (trim owner) (trim persona) in
  let t := px_profiles s in
  let previous := head (select_where key t) ≫= pf_account_profile_version in
  older ← older_profile_version (pr_profile_version profile) previous;
  if (older : bool) then Ok s
  else
    let update_avatar := has_avatar_update profile
      && (bool_decide (is_Some (pr_profile_version profile)) || bool_decide (previous = None)) in
    let avatar := effective_avatar_uri profile in
    let row := mkProfileRow (trim owner) (trim persona) (pr_display_name profile)
      (trim full_handle) avatar (pr_avatar_thumbnail_uri profile) avatar (pr_subject_type profile)
      (pr_version_id profile) (pr_profile_version profile) (pr_updated_at profile) fetched_at
      (fetched_at + Z.max 30 (Z.min (default 300 (pr_ttl profile)) 3600)) in
    if exists_where key t then
      Ok (with_profiles (update_where key (λ cur, merge_profile update_avatar cur row) t) s)
    else if exists_where (persona_row (trim owner) (trim persona)) (px_personas s) then
      Ok (with_profiles (t ++ [row]) s)
    else constraint_failed.

(** [true] when the DID is the current one of a known persona. *)
Definition refresh_existing_from_public_profile (fetched_at : Z) (s : PeerDb) (owner did : string)
    (profile : Profile) : ImResult (bool * PeerDb) :=
  match head (i ← select_where (λ i, identifier_row (trim owner) "did" did i && pi_is_current i)
                    (px_identifiers s);
              select_where (persona_row (pi_owner i) (pi_persona_id i)) (px_personas s)) with
  | None => Ok (false, s)
  | Some x =>
      s ← upsert_from_verified_lookup fetched_at s owner (ps_peer_persona_id (pp_persona x))
            (ps_full_handle (pp_persona x)) profile;
      Ok (true, s)
  end.

(** ** The generation of a binding *)

(** [ORDER BY last_seen_at DESC] *)
Definition seen_ge (a b : PeerIdentifierRecord) : Prop :=
  str_le (pi_last_seen_at b) (pi_last_seen_at a).
#[export] Instance seen_ge_dec a b : Decision (seen_ge a b).
Proof. unfold seen_ge. apply _. Defined.
Definition current_did_of (s : PeerDb) (owner persona : string) : option string :=
  pi_value <$> head (order_limit seen_ge 1
    (select_where (λ i, of_persona owner persona i && is_did i && pi_is_current i)
       (px_identifiers s))).
Definition stored_generation_of (s : PeerDb) (owner persona : string) : option string :=
  head (select_where (persona_row owner persona) (px_personas s)) ≫= pp_binding_generation.

Definition validate_projection_generation (s : PeerDb) (owner persona next_did : string)
    (next_generation : option string) : ImResult (option string) :=
  _ ← match next_generation with
      | Some g => validate_positive_decimal "binding_generation" g | None => Ok () end;
  let owner := trim owner in
  let persona := trim persona in
  let stored := stored_generation_of s owner persona in
  _ ← match stored with
      | Some g => match validate_positive_decimal "stored_binding_generation" g with
                  | Ok _ => Ok ()
                  | Err _ => Err (local_state_unavailable
                               "stored peer Persona has an invalid binding generation")
                  end
      | None => Ok ()
      end;
  let changed := match current_did_of s owner persona with
                 | Some current => negb (bool_decide (current = next_did)) | None => false end in
  _ ← match stored, next_generation with
      | Some stored, Some next =>
          order ← compare_decimal next stored;
          match order with
          | Lt => identity_conflict "Handle binding generation cannot move backwards"
          | Eq => if changed : bool then
                    identity_conflict "Handle DID cannot change at the same binding generation"
                  else Ok ()
          | Gt => Ok ()
          end
      | Some _, None =>
          if changed : bool then
            identity_conflict "Handle DID rotation requires a newer binding generation" else Ok ()
      | None, None =>
          if changed : bool then
            identity_conflict "Handle DID rotation requires a binding generation" else Ok ()
      | None, Some _ => Ok ()
      end;
  Ok (coalesce next_generation stored).

(** ** The lookup *)

Record HandleLookupResult := mkLookup {
  hl_handle : string;
  hl_did : string;
  hl_user_id : string;
  hl_domain : option string;
  hl_status : option string;
  hl_binding_generation : option string;
  hl_profile : option Profile }.

Section project.
Context `{WireCodec, Idna}.

Definition peer_persona (lookup : HandleLookupResult) : ImResult PeerPersona :=
  from_verified_handle (default ""%string (hl_domain lookup)) (hl_user_id lookup) (hl_handle lookup)
    (hl_status lookup).

(** ** The repair of a foreign persona *)

Record LegacyPersona := mkLegacy { lg_persona_id : string; lg_conversation_id : string }.

(** The chain of proven transitions from [current] to [target]; the visited set grows
    at each step and stops the walk at 65 DIDs. *)
Fixpoint continuity (fuel : nat) (s : PeerDb) (owner target current : string) (visited : list string)
    : ImResult unit :=
  if bool_decide (current = target) then Ok ()
  else if bool_decide (current ∈ visited) || (64 <? S (length visited))%nat then
    identity_conflict "foreign Handle cache continuity chain is cyclic or too long"
  else
    match fuel with
    | O => identity_conflict "foreign Handle cache continuity chain is cyclic or too long"
    | S fuel =>
        next ← get_successor s owner current;
        match next with
        | None => identity_conflict "foreign Handle cache has no proof-verified DID continuity"
        | Some next => continuity fuel s owner target next (current :: visited)
        end
    end.

Definition check_identifier (s : PeerDb) (owner target handle : string) (i : PeerIdentifierRecord)
    : ImResult unit :=
  let kind := pi_kind i in
  if negb (bool_decide (pi_source i = "handle_authority"%string)
           || (bool_decide (kind = "did"%string)
               && bool_decide (pi_source i = "verified_did_transition"%string)))
     || (bool_decide (kind = "handle"%string) && negb (bool_decide (pi_value i = handle))) then
    identity_conflict "foreign Handle cache contains an unrelated identifier"
  else if bool_decide (kind = "did"%string) then continuity 65 s owner target (pi_value i) []
  else if bool_decide (kind = "handle"%string) then Ok ()
  else identity_conflict "foreign Handle cache contains an unsupported identifier".

(** The former projection of the handle, when it is one the repair may replace. *)
Definition legacy_of (s : PeerDb) (owner : string) (lookup : HandleLookupResult) (next : PeerPersona)
    (old_id : string) : ImResult LegacyPersona :=
  match head (select_where (persona_row owner old_id) (px_personas s)) with
  | None => Err (local_state_unavailable "Query returned no rows")
  | Some old =>
      let p := pp_persona old in
      persona ← from_verified_handle (ps_authority_namespace p) (ps_authority_subject_id p)
                  (ps_full_handle p) (Some "active"%string);
      if negb (bool_decide (ps_peer_persona_id persona = old_id))
         || negb (bool_decide (ps_authority_namespace p = ps_authority_namespace next))
         || negb (bool_decide (ps_full_handle p = ps_full_handle next))
         || bool_decide (ps_authority_subject_id p = ps_full_handle next)
         || negb (bool_decide (pp_source old = "handle_authority"%string)) then
        identity_conflict "foreign Handle cache does not match the known Directory projection"
      else
        found ← resolve_by_handle s owner (ps_full_handle next);
        match found with
        | None => identity_conflict "foreign Handle cache has no unambiguous verified route"
        | Some resolved =>
            if negb (bool_decide (rs_peer_persona_id resolved = old_id))
               || negb (bool_decide (rs_conversation_id resolved = persona_conversation_id persona))
            then identity_conflict "foreign Handle cache has an inconsistent route"
            else if exists_where (persona_row owner (ps_peer_persona_id next)) (px_personas s) then
              identity_conflict
                "foreign Handle repair has an independently established target Persona"
            else
              _ ← validate_projection_generation s owner old_id (hl_did lookup)
                    (hl_binding_generation lookup);
              _ ← try_fold (λ _ i, check_identifier s owner (hl_did lookup) (ps_full_handle next) i)
                    () (select_where (of_persona owner old_id) (px_identifiers s));
              Ok (mkLegacy old_id (rs_conversation_id resolved))
        end
  end.
Definition prepare (s : PeerDb) (owner : string) (lookup : HandleLookupResult)
    (home_domain : option string) : ImResult (option LegacyPersona) :=
  next ← peer_persona lookup;
  match home_domain with
  | None => Ok None
  | Some home =>
      home ← normalize_authority_namespace home;
      if bool_decide (ps_authority_namespace next = home)
         || negb (bool_decide (ps_authority_subject_id next = ps_full_handle next)) then Ok None
      else
        match head (select_where (identifier_row owner "handle" (ps_full_handle next))
                      (px_identifiers s)) with
        | None => Ok None
        | Some i =>
            if bool_decide (pi_persona_id i = ps_peer_persona_id next) then Ok None
            else legacy ← legacy_of s owner lookup next (pi_persona_id i); Ok (Some legacy)
        end
  end.

(** ** The migration of a legacy persona *)

(** The clocks of a projection: seconds as text and as a number, and RFC 3339. *)
Record Clock := mkClock { ck_now : string; ck_seconds : Z; ck_now_utc : string }.

Definition rename_if (old new x : string) : string := if bool_decide (x = old) then new else x.
Definition rename_persona (owner old new row_owner : string) (x : option string) : option string :=
  if bool_decide (row_owner = owner) && bool_decide (x = Some old) then Some new else x.

Definition move_identifier (owner old new : string) (i : PeerIdentifierRecord)
    : PeerIdentifierRecord :=
  if of_persona owner old i then
    mkIdentifier (pi_owner i) new (pi_kind i) (pi_value i) (pi_is_current i)
      (pi_binding_generation i) (pi_source i) (pi_verified_at i) (pi_last_seen_at i)
  else i.
Definition move_profile (owner old new : string) (p : ProfileRow) : ProfileRow :=
  if profile_row owner old p then
    mkProfileRow (pf_owner p) new (pf_display_name p) (pf_full_handle p) (pf_avatar_uri p)
      (pf_avatar_thumbnail_uri p) (pf_avatar_thumbnail_source_uri p) (pf_subject_type p)
      (pf_profile_version p) (pf_account_profile_version p) (pf_updated_at p) (pf_fetched_at p)
      (pf_expires_at p)
  else p.
(** [UPDATE .. SET peer_persona_id] of the four tables. *)
Definition move_persona (s : PeerDb) (owner old new : string) : ImResult PeerDb :=
  if exists_where (profile_row owner old) (px_profiles s)
     && exists_where (profile_row owner new) (px_profiles s) then constraint_failed
  else
    let s1 := with_identifiers (move_identifier owner old new <$> px_identifiers s) s in
    let s2 := with_profiles (move_profile owner old new <$> px_profiles s1) s1 in
    let s3 := with_contacts ((λ c, mkContact (ct_owner c) (ct_did c) (ct_handle c)
                (rename_persona owner old new (ct_owner c) (ct_persona_id c))) <$> px_contacts s2) s2 in
    Ok (with_members ((λ m, mkMember (mb_owner m) (mb_group_id m) (mb_user_id m)
          (rename_persona owner old new (mb_owner m) (mb_persona_id m))) <$> px_members s3) s3).

Definition flatten_aliases (owner old new : string) (s : PeerDb) : PeerDb :=
  with_aliases ((λ a, if bool_decide (al_owner a = owner) && bool_decide (al_canonical a = old)
                      then mkAlias (al_owner a) (al_kind a) (al_alias a) new else a)
                <$> rd_aliases (px_read s)) s.

Definition move_message (owner old new : string) (m : MessageRow) : MessageRow :=
  if bool_decide (mg_owner_identity_id m = owner) then
    mkMessageRow (mg_owner_identity_id m) (mg_msg_id m) (rename_if old new (mg_conversation_id m))
      (rename_if old new (mg_thread_id m)) (mg_wire_thread_kind m) (mg_hydration_state m)
      (mg_owner_did m) (mg_sender_did m) (mg_group_did m) (mg_direction m) (mg_server_seq m)
      (mg_is_e2ee m) (mg_metadata m) (mg_sent_at m) (mg_stored_at m) (mg_is_read m) (mg_group_id m)
      (mg_content_type m) (mg_receiver_did m) (mg_wire_thread_ref m) (mg_wire_resolution_state m)
      (mg_content m) (mg_title m) (mg_sender_name m) (mg_mentions_current_user m)
      (mg_credential_name m)
  else m.
Definition move_read_state (owner old new : string) (r : ThreadReadStateRecord)
    : ThreadReadStateRecord :=
  if bool_decide (tr_owner r = owner) then
    mkReadState (tr_owner r) (tr_owner_did r) (tr_scope r) (rename_if old new (tr_thread_id r))
      (rename_if old new (tr_conversation_id r)) (tr_watermark_message_id r) (tr_watermark_seq r)
      (tr_watermark_at r) (tr_pending_remote_ack r) (tr_remote_ack_at r) (tr_remote_state_version r)
      (tr_updated_at r)
  else r.
Definition move_binding (owner old new : string) (b : SyncThreadBinding) : SyncThreadBinding :=
  if bool_decide (tb_owner b = owner) then
    mkThreadBinding (tb_owner b) (tb_remote_thread_key b) (tb_thread_kind b)
      (rename_if old new (tb_conversation_id b)) (tb_updated_at b)
  else b.
(** [UPDATE messages, thread_read_state, sync_thread_bindings]; a key that is already
    taken fails the statement. *)
Definition move_conversation (s : PeerDb) (owner old new : string) : ImResult PeerDb :=
  let r := px_read s in
  let bound c := exists_where (binding_by_conversation owner c) (rd_thread_bindings r) in
  let states := db_read_states (rd_db r) in
  if (bound old && bound new)
     || exists_where (λ x, bool_decide (tr_owner x = owner) && bool_decide (tr_thread_id x = old)
                           && exists_where (read_key owner (tr_scope x) new) states) states
  then constraint_failed
  else
    let db := with_read_states (move_read_state owner old new <$> states)
                (with_messages (move_message owner old new <$> db_messages (rd_db r)) (rd_db r)) in
    Ok (with_read (mkReadDb db (move_binding owner old new <$> rd_thread_bindings r)
                     (rd_remote_states r) (rd_aliases r) (rd_message_aliases r)) s).

Definition migrate (clock : Clock) (s : PeerDb) (owner owner_did : string)
    (lookup : HandleLookupResult) (old : LegacyPersona) (verified_at : string) : ImResult PeerDb :=
  persona ← peer_persona lookup;
  let next_id := persona_conversation_id persona in
  route ← from_verified_persona (ck_now clock) owner persona (hl_did lookup);
  s ← upsert_route s route;
  s ← ensure_conversation s (mkRegistryRecord owner owner_did next_id "direct" next_id verified_at);
  s ← move_persona s owner (lg_persona_id old) (ps_peer_persona_id persona);
  let s := flatten_aliases owner (lg_conversation_id old) next_id s in
  s ← insert_alias s (mkAliasRecord owner foreign_persona (lg_conversation_id old) next_id
                        "public_wns_directory_repair" verified_at);
  s ← move_conversation s owner (lg_conversation_id old) next_id;
  s ← mark_merged (ck_now_utc clock) s owner (lg_conversation_id old) next_id;
  Ok (with_routes (delete_where (route_row owner (lg_conversation_id old)) (px_routes s)) s).

(** ** The projection *)

(** [inbound_resolution_backlog::replay_for_persona] *)
Class Backlog := { replay_backlog : PeerDb → string → string → ImResult (Z * PeerDb) }.

Definition bind_verified (clock : Clock) (s : PeerDb) (owner persona kind value : string)
    (generation : option string) : ImResult PeerDb :=
  bind_identifier (ck_now clock) s
    (mkIdentifier owner persona kind value true generation "handle_authority" (ck_now clock) "").
(** Only the DID of the lookup stays current. *)
Definition retire_other_dids (owner persona did : string) (s : PeerDb) : PeerDb :=
  with_identifiers
    (update_where (λ i, of_persona owner persona i && is_did i && negb (bool_decide (pi_value i = did)))
       (retire_identifier None) (px_identifiers s)) s.

(** A contact of the persona: by one of its DIDs or by its handle. *)
Definition contact_of (s : PeerDb) (owner : string) (persona : PeerPersona) (c : ContactRow) : bool :=
  bool_decide (ct_owner c = owner)
  && (exists_where (λ i, of_persona owner (ps_peer_persona_id persona) i && is_did i
                         && bool_decide (pi_value i = ct_did c)) (px_identifiers s)
      || bool_decide (to_ascii_lowercase (sql_trim (default ""%string (ct_handle c)))
                      = ps_full_handle persona)).
Definition bind_contacts (s : PeerDb) (owner : string) (persona : PeerPersona) : ImResult PeerDb :=
  if exists_where (λ c, nonblank_column (ct_persona_id c)
                        && negb (bool_decide (ct_persona_id c = Some (ps_peer_persona_id persona)))
                        && contact_of s owner persona c) (px_contacts s) then
    identity_conflict "contact projection is already bound to another Persona"
  else
    Ok (with_contacts
          (update_where (contact_of s owner persona)
             (λ c, mkContact (ct_owner c) (ct_did c) (ct_handle c)
                     (Some (ps_peer_persona_id persona))) (px_contacts s)) s).

(** The handle, the DID, the profile and the contacts of the persona. *)
Definition bind_identity (clock : Clock) (s : PeerDb) (owner_identity_id : string)
    (lookup : HandleLookupResult) (persona : PeerPersona) (generation : option string)
    : ImResult PeerDb :=
  let id := ps_peer_persona_id persona in
  let owner := trim owner_identity_id in
  s ← bind_verified clock s owner id "handle" (ps_full_handle persona) generation;
  s ← bind_verified clock (retire_other_dids owner id (hl_did lookup) s) owner id "did"
        (hl_did lookup) generation;
  s ← match hl_profile lookup with
      | Some profile => upsert_from_verified_lookup (ck_seconds clock) s owner_identity_id id
                          (ps_full_handle persona) profile
      | None => Ok s
      end;
  bind_contacts s owner persona.
(** Its route, its conversation and the alias of its DID. *)
Definition bind_route (clock : Clock) (s : PeerDb) (owner_identity_id owner_did : string)
    (lookup : HandleLookupResult) (persona : PeerPersona) : ImResult (string * PeerDb) :=
  let owner := trim owner_identity_id in
  route ← from_verified_persona (ck_now clock) owner_identity_id persona (hl_did lookup);
  s ← upsert_route s route;
  s ← ensure_conversation s
        (mkRegistryRecord owner (trim owner_did) (dr_conversation_id route) "direct"
           (dr_conversation_id route) (ck_now clock));
  s ← insert_alias s (mkAliasRecord owner "verified_did" (direct_conversation_id (hl_did lookup))
                        (dr_conversation_id route) "handle_authority" (ck_now clock));
  Ok (dr_conversation_id route, s).

(** The transaction up to the replay: the conversation and the new state. *)
Definition project_identity (clock : Clock) (s : PeerDb) (owner_identity_id owner_did : string)
    (lookup : HandleLookupResult) (home_domain : option string) : ImResult (string * PeerDb) :=
  persona ← peer_persona lookup;
  let verified_at := ck_now clock in
  legacy ← prepare s owner_identity_id lookup home_domain;
  generation ← validate_projection_generation s owner_identity_id (ps_peer_persona_id persona)
                 (hl_did lookup) (hl_binding_generation lookup);
  s ← upsert_persona s (mkPersonaRecord (trim owner_identity_id) persona generation "human"
                          "handle_authority" None verified_at);
  s ← match legacy with
      | Some legacy => migrate clock s owner_identity_id owner_did lookup legacy verified_at
      | None => Ok s
      end;
  s ← bind_identity clock s owner_identity_id lookup persona generation;
  bind_route clock s owner_identity_id owner_did lookup persona.
Definition project_verified_handle_in_domain `{Backlog} (clock : Clock) (s : PeerDb)
    (owner_identity_id owner_did : string) (lookup : HandleLookupResult)
    (home_domain : option string) : ImResult (string * PeerDb) :=
  persona ← peer_persona lookup;
  projected ← project_identity clock s owner_identity_id owner_did lookup home_domain;
  replayed ← replay_backlog projected.2 owner_identity_id (ps_peer_persona_id persona);
  Ok (projected.1, replayed.2).
End project.
