(* ===== verification/Summaries.v ===== *)
(** * Conversation summaries

    [internal/local_state/conversation_summaries.rs]: the table of one row per conversation
    with its counts and its last message, kept by deltas when a message is written or marked
    read and rebuilt from the message table when a delta would not do; the recognition of
    control payloads of [internal/local_state/messages.rs], which do not count.

    The clock, as the text that is stored, is an argument. The iteration of a [BTreeMap] or a
    [BTreeSet] is in the order of its keys. *)

From Stdlib Require Import Ascii.
From S2P Require Import Prelude RustStr ImError Decimal Store SyncStore Outbox Wire Lanes ReadState ReadBind ReadIds Persona Peers.
Local Open Scope Z_scope.

(** ** Orders of keys *)

(** [Ord] of a tuple, an [Option] and a [bool]. *)
Definition then_cmp (c d : comparison) : comparison := match c with Eq => d | _ => c end.
Definition pair_cmp {A B} (f : A → A → comparison) (g : B → B → comparison) (x y : A * B)
    : comparison := then_cmp (f x.1 y.1) (g x.2 y.2).
Definition option_cmp {A} (f : A → A → comparison) (x y : option A) : comparison :=
  match x, y with
  | None, None => Eq
  | None, Some _ => Lt
  | Some _, None => Gt
  | Some x, Some y => f x y
  end.
Definition bool_cmp (x y : bool) : comparison :=
  match x, y with false, true => Lt | true, false => Gt | _, _ => Eq end.
Definition le_of {A} (f : A → A → comparison) (x y : A) : Prop := f x y ≠ Gt.
#[export] Instance le_of_dec {A} (f : A → A → comparison) x y : Decision (le_of f x y).
Proof. unfold le_of. apply _. Defined.

(** ** Rows *)

Record SummaryMessageRow := mkSummaryMessage {
  sm_msg_id : string;
  sm_owner_did : string;
  sm_direction : Z;
  sm_sender_did : string;
  sm_receiver_did : string;
  sm_group_id : string;
  sm_group_did : string;
  sm_content_type : string;
  sm_content : string;
  sm_is_read : bool;
  sm_sender_name : string;
  sm_mentions_current_user : bool;
  sm_sort_at : string;
  sm_server_seq : option Z;
  sm_is_e2ee : bool }.
Record SummaryMessageProjection := mkProjection {
  pj_owner : string;
  pj_conversation_id : string;
  pj_row : SummaryMessageRow }.
Record MarkReadSummaryRow := mkMarkRead {
  mr_owner : string;
  mr_conversation_id : string;
  mr_mentions_current_user : bool }.
Record SummaryStateRow := mkSummaryState {
  ss_message_count : Z;
  ss_unread_count : Z;
  ss_unread_mention_count : Z;
  ss_first_unread_mention : string;
  ss_last_message_id : string;
  ss_last_message_at : string;
  ss_last_server_seq : option Z;
  ss_last_is_e2ee : bool;
  ss_last_group_did : string }.

Definition summary_message_row (m : MessageRow) : SummaryMessageRow :=
  mkSummaryMessage (mg_msg_id m) (mg_owner_did m) (mg_direction m) (mg_sender_did m)
    (mg_receiver_did m) (mg_group_id m) (mg_group_did m) (mg_content_type m) (mg_content m)
    (negb (mg_is_read m =? 0)) (mg_sender_name m) (negb (mg_mentions_current_user m =? 0))
    (sent_or_stored m) (mg_server_seq m) (negb (mg_is_e2ee m =? 0)).

Definition nullable_text (value : string) : option string :=
  let value := trim value in if is_empty value then None else Some value.
Definition default_string (value fallback : string) : string :=
  let value := trim value in if is_empty value then fallback else value.

Definition messages_of (s : PeerDb) : list MessageRow := db_messages (rd_db (px_read s)).
Definition with_summaries t (s : PeerDb) : PeerDb :=
  mkPeerDb (px_read s) (px_personas s) (px_identifiers s) (px_routes s) (px_registry s)
    (px_profiles s) (px_edges s) (px_contacts s) (px_members s) (px_groups s) t (px_backlog s)
    (px_did_history s).

(** ** Control payloads *)

Section control.
Context `{JsonText}.

Definition schema_starts (value : Value) : bool :=
  match vget value "schema" ≫= as_str with
  | Some schema => starts_with (trim schema) "awiki."
  | None => false
  end.
Definition is_daemon_control_sender (sender_did : string) : bool :=
  contains (trim sender_did) ":agent:daemon:".
Definition is_daemon_control_payload_value (value : Value) : bool :=
  match as_object value with
  | None => false
  | Some object =>
      contains_key object "daemon" || contains_key object "runtimes"
      || contains_key object "command_id" || contains_key object "events"
      || match assoc "command" object ≫= as_str with
         | Some command => starts_with (trim command) "agent."
         | None => false
         end
  end.
Definition is_control_payload_for_projection (content_type content sender_did : string) : bool :=
  if negb (bool_decide (to_ascii_lowercase (trim content_type) = "application/json"%string))
  then false
  else
    let daemon_sender := is_daemon_control_sender sender_did in
    let content := trim content in
    if is_empty content then true
    else match from_str content with
         | None => false
         | Some value =>
             schema_starts value || (daemon_sender && is_daemon_control_payload_value value)
         end.

Definition is_control_payload (r : SummaryMessageRow) : bool :=
  is_control_payload_for_projection (sm_content_type r) (sm_content r) (sm_sender_did r).
Definition is_unread_incoming (r : SummaryMessageRow) : bool :=
  (sm_direction r =? 0) && negb (sm_is_read r) && negb (is_control_payload r).
Definition is_unread_mention (r : SummaryMessageRow) : bool :=
  is_unread_incoming r && sm_mentions_current_user r.
Definition is_self_direct (r : SummaryMessageRow) : bool :=
  let owner := trim (sm_owner_did r) in
  negb (is_empty owner) && is_empty (trim (sm_group_id r)) && is_empty (trim (sm_group_did r))
  && bool_decide (trim (sm_sender_did r) = owner) && bool_decide (trim (sm_receiver_did r) = owner).
Definition contributes_to_summary (r : SummaryMessageRow) : bool :=
  negb (is_self_direct r) && negb (is_control_payload r).
Definition unread_count_delta (r : SummaryMessageRow) : Z := if is_unread_incoming r then 1 else 0.
Definition unread_mention_count_delta (r : SummaryMessageRow) : Z :=
  if is_unread_mention r then 1 else 0.
Definition first_unread_mention_for_new_summary (r : SummaryMessageRow) : string :=
  if is_unread_mention r then sm_msg_id r else EmptyString.
End control.

(** ** Which message is the last *)

Section order.
Context `{WireCodec}.

Definition OrderKey : Type := option Z * bool * Z * string.
Definition order_key (timestamp : string) (encrypted : bool) (group : string)
    (sequence : option Z) (id : string) : OrderKey :=
  (chrono_rfc3339 timestamp, encrypted,
   if encrypted && is_empty group then 0 else default 0 sequence, id).
Definition key_cmp : OrderKey → OrderKey → comparison :=
  pair_cmp (pair_cmp (pair_cmp (option_cmp Z.compare) bool_cmp) Z.compare) str_cmp.
Definition key_of (r : SummaryMessageRow) : OrderKey :=
  order_key (sm_sort_at r) (sm_is_e2ee r) (sm_group_did r) (sm_server_seq r) (sm_msg_id r).
Definition message_is_later_than_summary (r : SummaryMessageRow) (x : SummaryStateRow) : bool :=
  bool_decide (key_cmp (key_of r)
    (order_key (ss_last_message_at x) (ss_last_is_e2ee x) (ss_last_group_did x)
       (ss_last_server_seq x) (ss_last_message_id x)) = Gt).
Definition message_is_later_than_message (r current : SummaryMessageRow) : bool :=
  bool_decide (key_cmp (key_of r) (key_of current) = Gt).
End order.

(** ** Rebuilding *)

(** [ORDER BY sort_at ASC, CASE WHEN server_seq IS NULL THEN 0 ELSE 1 END ASC,
    server_seq ASC, msg_id ASC] *)
Definition listed_cmp (a b : SummaryMessageRow) : comparison :=
  pair_cmp (pair_cmp str_cmp (option_cmp Z.compare)) str_cmp
    (sm_sort_at a, sm_server_seq a, sm_msg_id a) (sm_sort_at b, sm_server_seq b, sm_msg_id b).
Definition in_conversation (owner conversation_id : string) (m : MessageRow) : bool :=
  bool_decide (mg_owner_identity_id m = owner) && bool_decide (conversation_of m = conversation_id).
Definition conversation_rows (t : list MessageRow) (owner conversation_id : string)
    : list SummaryMessageRow :=
  merge_sort (le_of listed_cmp)
    (summary_message_row <$> select_where (in_conversation owner conversation_id) t).

(** The variables of the loop. *)
Record Tally := mkTally {
  ta_message_count : Z;
  ta_unread_count : Z;
  ta_unread_mention_count : Z;
  ta_first_unread_mention : string;
  ta_last : option SummaryMessageRow }.

Definition summary_row (owner conversation_id : string) : SummaryRow → bool :=
  λ x, bool_decide (su_owner x = owner) && bool_decide (su_conversation_id x = conversation_id).
Definition put_summary (x : SummaryRow) (t : list SummaryRow) : list SummaryRow :=
  let key := summary_row (su_owner x) (su_conversation_id x) in
  if exists_where key t then update_where key (λ _, x) t else t ++ [x].
Definition summary_from_last (now owner conversation_id : string)
    (message_count unread_count unread_mention_count : Z) (first_unread_mention : string)
    (last : SummaryMessageRow) : SummaryRow :=
  mkSummaryRow owner (default_string (sm_owner_did last) "") conversation_id conversation_id
    message_count unread_count unread_mention_count (nullable_text first_unread_mention)
    (Some (sm_msg_id last)) (sm_sort_at last) (nullable_text (sm_content last))
    (nullable_text (sm_content_type last)) (nullable_text (sm_sender_did last))
    (nullable_text (sm_sender_name last))
    (if bool_decide (trim (sm_content_type last) = "application/json"%string)
     then nullable_text (sm_content last) else None)
    (nullable_text (sm_group_id last)) (nullable_text (sm_group_did last)) now.
Definition upsert_summary_from_last (now : string) (s : PeerDb) (owner conversation_id : string)
    (message_count unread_count unread_mention_count : Z) (first_unread_mention : string)
    (last : SummaryMessageRow) : PeerDb :=
  with_summaries (put_summary (summary_from_last now owner conversation_id message_count
    unread_count unread_mention_count first_unread_mention last) (px_summaries s)) s.

Section rebuild.
Context `{WireCodec, JsonText}.

Definition tally_row (t : Tally) (r : SummaryMessageRow) : Tally :=
  if negb (contributes_to_summary r) then t
  else
    let unread := is_unread_incoming r in
    let mention := unread && sm_mentions_current_user r in
    mkTally (ta_message_count t + 1)
      (if unread then ta_unread_count t + 1 else ta_unread_count t)
      (if mention then ta_unread_mention_count t + 1 else ta_unread_mention_count t)
      (if mention && is_empty (ta_first_unread_mention t) then sm_msg_id r
       else ta_first_unread_mention t)
      (match ta_last t with
       | None => Some r
       | Some current => if message_is_later_than_message r current then Some r else ta_last t
       end).
Definition tally (rows : list SummaryMessageRow) : Tally :=
  fold_left tally_row rows (mkTally 0 0 0 "" None).

Definition rebuild_conversation (now : string) (s : PeerDb) (owner conversation_id : string)
    : ImResult (bool * PeerDb) :=
  owner ← read_required "owner_identity_id" owner;
  conversation_id ← read_required "conversation_id" conversation_id;
  let t := tally (conversation_rows (messages_of s) owner conversation_id) in
  (* the test on the count: there is a last row exactly when one counted *)
  match ta_last t with
  | None => Ok (false, with_summaries (delete_where (summary_row owner conversation_id)
                                         (px_summaries s)) s)
  | Some last =>
      Ok (true, upsert_summary_from_last now s owner conversation_id (ta_message_count t)
                  (ta_unread_count t) (ta_unread_mention_count t) (ta_first_unread_mention t) last)
  end.
Definition rebuild_single (now : string) (s : PeerDb) (owner conversation_id : string)
    : ImResult (Z * PeerDb) :=
  r ← rebuild_conversation now s owner conversation_id;
  if (r.1 : bool) then s ← ensure_from_summary r.2 owner conversation_id; Ok (1, s)
  else Ok (0, r.2).

Definition push_trimmed (values : list string) (value : string) : list string :=
  let value := trim value in
  if is_empty (trim value) || bool_decide (value ∈ values) then values else values ++ [value].
(** [SELECT DISTINCT .. ORDER BY ..] *)
Definition distinct_texts (l : list string) : list string := merge_sort str_le (remove_dups l).
Definition distinct_owner_identity_ids (t : list MessageRow) : list string :=
  fold_left push_trimmed
    (distinct_texts (select_where (λ o, negb (is_empty (sql_trim o))) (mg_owner_identity_id <$> t))) [].
Definition distinct_conversation_ids_for_owner (t : list MessageRow) (owner : string) : list string :=
  fold_left push_trimmed
    (distinct_texts (select_where (λ c, negb (is_empty (sql_trim c)))
       (conversation_of <$> select_where (λ m, bool_decide (mg_owner_identity_id m = owner)) t))) [].

Definition rebuild_step (now owner : string) (acc : Z * PeerDb) (conversation_id : string)
    : ImResult (Z * PeerDb) :=
  r ← rebuild_conversation now acc.2 owner conversation_id;
  Ok (if (r.1 : bool) then acc.1 + 1 else acc.1, r.2).
Definition rebuild_owner (now : string) (s : PeerDb) (owner : string) : ImResult (Z * PeerDb) :=
  owner ← read_required "owner_identity_id" owner;
  let s := with_summaries (delete_where (λ x, bool_decide (su_owner x = owner)) (px_summaries s)) s in
  try_fold (rebuild_step now owner) (0, s)
    (distinct_conversation_ids_for_owner (messages_of s) owner).
Definition rebuild_all (now : string) (s : PeerDb) : ImResult (Z * PeerDb) :=
  let s := with_summaries [] s in
  try_fold (λ acc owner, r ← rebuild_owner now acc.2 owner; Ok (acc.1 + r.1, r.2)) (0, s)
    (distinct_owner_identity_ids (messages_of s)).
Definition ensure_owner_backfilled (now : string) (s : PeerDb) (owner : string) : ImResult PeerDb :=
  owner ← read_required "owner_identity_id" owner;
  if (0 <? count_where (λ x, bool_decide (su_owner x = owner)) (px_summaries s))%nat then Ok s
  else if (0 <? count_where (λ m, bool_decide (mg_owner_identity_id m = owner)) (messages_of s))%nat
  then
    r ← rebuild_owner now s owner;
    Ok (backfill_from_summaries r.2).2
  else Ok s.

Definition touched_le : relation (string * string) := le_of (pair_cmp str_cmp str_cmp).
Definition touch_step (now : string) (acc : Z * PeerDb) (k : string * string)
    : ImResult (Z * PeerDb) :=
  if is_empty (trim k.1) || is_empty (trim k.2) then Ok acc
  else
    r ← rebuild_conversation now acc.2 k.1 k.2;
    if (r.1 : bool) then s ← ensure_from_summary r.2 k.1 k.2; Ok (acc.1 + 1, s)
    else Ok (acc.1, r.2).
Definition rebuild_touched (now : string) (s : PeerDb) (touched : gset (string * string))
    : ImResult (Z * PeerDb) :=
  try_fold (touch_step now) (0, s) (merge_sort touched_le (elements touched)).

(** ** Deltas *)

Definition message_projection_for_id (s : PeerDb) (owner msg_id : string)
    : ImResult (option SummaryMessageProjection) :=
  owner ← read_required "owner_identity_id" owner;
  msg_id ← read_required "msg_id" msg_id;
  Ok ((λ m, mkProjection (mg_owner_identity_id m) (conversation_of m) (summary_message_row m))
      <$> head (select_where (message_named owner msg_id) (messages_of s))).

Definition summary_state (s : PeerDb) (owner conversation_id : string) : option SummaryStateRow :=
  (λ x,
     let last := match su_last_message_id x with
                 | Some id => head (select_where (message_named (su_owner x) id) (messages_of s))
                 | None => None end in
     mkSummaryState (su_message_count x) (su_unread_count x) (su_unread_mention_count x)
       (default EmptyString (su_first_unread_mention x))
       (default EmptyString (su_last_message_id x)) (su_last_message_at x)
       (last ≫= mg_server_seq)
       (match last with Some m => negb (mg_is_e2ee m =? 0) | None => false end)
       (match last with Some m => mg_group_did m | None => EmptyString end))
  <$> head (select_where (summary_row owner conversation_id) (px_summaries s)).
Definition message_count_for_conversation (s : PeerDb) (owner conversation_id : string) : Z :=
  Z.of_nat (count_where (in_conversation owner conversation_id) (messages_of s)).

Definition add_counts (now : string) (message_delta unread_delta mention_delta : Z)
    (first_unread_mention : string) (x : SummaryRow) : SummaryRow :=
  mkSummaryRow (su_owner x) (su_owner_did x) (su_conversation_id x) (su_thread_id x)
    (Z.max 0 (su_message_count x + message_delta)) (Z.max 0 (su_unread_count x + unread_delta))
    (Z.max 0 (su_unread_mention_count x + mention_delta)) (nullable_text first_unread_mention)
    (su_last_message_id x) (su_last_message_at x) (su_last_content x) (su_last_content_type x)
    (su_last_sender_did x) (su_last_sender_name x) (su_last_payload_json x) (su_group_id x)
    (su_group_did x) now.
Definition update_summary_counts (now : string) (s : PeerDb) (owner conversation_id : string)
    (message_delta unread_delta mention_delta : Z) (first_unread_mention : string) : PeerDb :=
  with_summaries (update_where (summary_row owner conversation_id)
    (add_counts now message_delta unread_delta mention_delta first_unread_mention)
    (px_summaries s)) s.

Definition apply_insert_delta (now : string) (s : PeerDb) (x : SummaryStateRow)
    (next : SummaryMessageProjection) : ImResult (Z * PeerDb) :=
  let r := pj_row next in
  if is_self_direct r then rebuild_single now s (pj_owner next) (pj_conversation_id next)
  else
    let first := if is_empty (ss_first_unread_mention x) && is_unread_mention r
                 then sm_msg_id r else ss_first_unread_mention x in
    if message_is_later_than_summary r x then
      Ok (1, upsert_summary_from_last now s (pj_owner next) (pj_conversation_id next)
               (i64_saturating_add (ss_message_count x) 1)
               (i64_saturating_add (ss_unread_count x) (unread_count_delta r))
               (i64_saturating_add (ss_unread_mention_count x) (unread_mention_count_delta r))
               first r)
    else
      Ok (1, update_summary_counts now s (pj_owner next) (pj_conversation_id next) 1
               (unread_count_delta r) (unread_mention_count_delta r) first).
Definition apply_update_delta (now : string) (s : PeerDb) (x : SummaryStateRow)
    (previous next : SummaryMessageProjection) : ImResult (Z * PeerDb) :=
  let r := pj_row next in
  let unread := i64_saturating_sub (unread_count_delta r) (unread_count_delta (pj_row previous)) in
  let mention := i64_saturating_sub (unread_mention_count_delta r)
                   (unread_mention_count_delta (pj_row previous)) in
  if bool_decide (ss_last_message_id x = sm_msg_id (pj_row previous))
     || message_is_later_than_summary r x then
    rebuild_single now s (pj_owner next) (pj_conversation_id next)
  else
    Ok (1, update_summary_counts now s (pj_owner next) (pj_conversation_id next) 0 unread mention
             (ss_first_unread_mention x)).

Definition apply_message_delta_or_rebuild (now : string) (s : PeerDb)
    (previous : option SummaryMessageProjection) (next : SummaryMessageProjection)
    : ImResult (Z * PeerDb) :=
  let owner := pj_owner next in
  let conversation_id := pj_conversation_id next in
  let r := pj_row next in
  let single := rebuild_single now s owner conversation_id in
  let insert_or_update :=
    match summary_state s owner conversation_id, previous with
    | None, None =>
        if message_count_for_conversation s owner conversation_id =? 1 then
          Ok (1, upsert_summary_from_last now s owner conversation_id 1 (unread_count_delta r)
                   (unread_mention_count_delta r) (first_unread_mention_for_new_summary r) r)
        else single
    | None, Some _ => single
    | Some x, None =>
        if is_unread_mention r then single else apply_insert_delta now s x next
    | Some x, Some previous => apply_update_delta now s x previous next
    end in
  if negb (contributes_to_summary r)
     || match previous with Some p => negb (contributes_to_summary (pj_row p)) | None => false end
  then single
  else
    match previous with
    | Some p =>
        if negb (bool_decide (pj_owner p = owner))
           || negb (bool_decide (pj_conversation_id p = conversation_id)) then
          rebuild_touched now s {[ (pj_owner p, pj_conversation_id p); (owner, conversation_id) ]}
        else if is_unread_mention (pj_row p) || is_unread_mention r then single
        else insert_or_update
    | None => insert_or_update
    end.

(** ** Marking read *)

Definition mark_read_summary_rows_for_message_ids (s : PeerDb) (owner : string)
    (message_ids : list string) : ImResult (list MarkReadSummaryRow) :=
  owner ← read_required "owner_identity_id" owner;
  match message_ids with
  | [] => Ok []
  | _ =>
      Ok (select_where (λ r, negb (is_empty (trim (mr_owner r)))
                             && negb (is_empty (trim (mr_conversation_id r))))
            ((λ m, mkMarkRead (mg_owner_identity_id m) (conversation_of m)
                     (negb (mg_mentions_current_user m =? 0)))
             <$> select_where (λ m, bool_decide (mg_owner_identity_id m = owner)
                                    && unread_incoming m && bool_decide (mg_msg_id m ∈ message_ids))
                   (messages_of s)))
  end.

Definition count_mark (t : gmap (string * string) (Z * Z * bool)) (r : MarkReadSummaryRow)
    : gmap (string * string) (Z * Z * bool) :=
  let '(unread, mention, rebuild) := default (0, 0, false) (t !! (mr_owner r, mr_conversation_id r)) in
  <[(mr_owner r, mr_conversation_id r) :=
      if mr_mentions_current_user r then (unread + 1, mention + 1, true)
      else (unread + 1, mention, rebuild)]> t.
Definition mark_step (now : string) (acc : Z * gset (string * string) * PeerDb)
    (e : (string * string) * (Z * Z * bool)) : Z * gset (string * string) * PeerDb :=
  let '(changed, rebuild, s) := acc in
  let '(key, (unread, mention, needs_rebuild)) := e in
  if needs_rebuild then (changed, rebuild ∪ {[ key ]}, s)
  else match summary_state s key.1 key.2 with
       | Some x => (changed + 1, rebuild,
                    update_summary_counts now s key.1 key.2 0 (- unread) (- mention)
                      (ss_first_unread_mention x))
       | None => (changed, rebuild ∪ {[ key ]}, s)
       end.
Definition entry_le : relation ((string * string) * (Z * Z * bool)) :=
  λ a b, touched_le a.1 b.1.
#[export] Instance entry_le_dec a b : Decision (entry_le a b).
Proof. unfold entry_le, touched_le. apply _. Defined.
Definition apply_mark_read_delta_or_rebuild (now : string) (s : PeerDb)
    (rows : list MarkReadSummaryRow) : ImResult (Z * PeerDb) :=
  let by_conversation := fold_left count_mark rows ∅ in
  let '(changed, rebuild, s) :=
    fold_left (mark_step now) (merge_sort entry_le (map_to_list by_conversation)) (0, ∅, s) in
  r ← rebuild_touched now s rebuild;
  Ok (changed + r.1, r.2).

(** [mark_messages_read_for_owner] with the summaries it keeps. *)
Definition mark_messages_read_with_summaries (now : string) (s : PeerDb) (owner : string)
    (message_ids : list string) : ImResult (Z * PeerDb) :=
  match nonblank_ids message_ids with
  | [] => Ok (0, s)
  | ids =>
      owner ← required "owner_identity_id" owner;
      match canonical_message_ids (px_read s) owner ids with
      | [] => Ok (0, s)
      | canonical =>
          rows ← mark_read_summary_rows_for_message_ids s owner canonical;
          let marked := mark_messages (λ m, bool_decide (mg_owner_identity_id m = owner)
                                            && bool_decide (mg_msg_id m ∈ canonical)) (px_read s) in
          r ← apply_mark_read_delta_or_rebuild now (with_read marked.2 s) rows;
          Ok (marked.1, r.2)
      end
  end.

(** ** Control payloads stored before they were recognised *)

Definition unread_json (m : MessageRow) : bool :=
  unread_incoming m && bool_decide (mg_hydration_state m = "hydrated"%string)
  && bool_decide (to_ascii_lowercase (sql_trim (mg_content_type m)) = "application/json"%string).
Definition control_candidate (m : MessageRow) : bool :=
  unread_json m && negb (is_empty (trim (mg_owner_identity_id m)))
  && negb (is_empty (trim (mg_msg_id m))) && negb (is_empty (trim (conversation_of m)))
  && is_control_payload_for_projection (mg_content_type m) (mg_content m) (mg_sender_did m).
Definition repair_step (acc : Z * gset (string * string) * PeerDb) (c : MessageRow)
    : Z * gset (string * string) * PeerDb :=
  let '(updated, touched, s) := acc in
  let marked := mark_messages (λ m, message_named (mg_owner_identity_id c) (mg_msg_id c) m
                                    && (mg_is_read m =? 0)) (px_read s) in
  if 0 <? marked.1 then
    (updated + marked.1, touched ∪ {[ (mg_owner_identity_id c, conversation_of c) ]},
     with_read marked.2 s)
  else acc.
Definition repair_control_payload_read_projection (now : string) (s : PeerDb)
    : ImResult (Z * PeerDb) :=
  let '(updated, touched, s) :=
    fold_left repair_step (select_where control_candidate (messages_of s)) (0, ∅, s) in
  if bool_decide (touched = ∅) then Ok (updated, s)
  else r ← rebuild_touched now s touched; Ok (updated, r.2).
End rebuild.
