(* ===== verification/Mentions.v ===== *)
(** * Mentions

    [messages/mention.rs]: the payload of a message that mentions members of a group, read
    strictly from JSON. The texts of serde's errors are constant. *)

From S2P Require Import Prelude RustStr ImError Decimal Store SyncStore Outbox Wire.
Local Open Scope Z_scope.

Inductive MessageMentionSelector := SelectAll | SelectAgents | SelectHumans.
Inductive MessageMentionTarget :=
| Human (did : string) (display_name : option string)
| Agent (did : string) (display_name : option string)
| GroupSelector (selector : MessageMentionSelector).
Inductive MessageMentionRole := Addressee | Cc.
Record MessageMentionRange := mkRange {
  mn_start : Z;
  mn_end : Z }.
Record MessageMention := mkMention {
  mn_id : string;
  mn_range : MessageMentionRange;
  mn_target : MessageMentionTarget;
  mn_role : MessageMentionRole }.
Record MessageMentionPayload := mkMentionPayload {
  mp_text : string;
  mp_mentions : list MessageMention;
  mp_annotations : option Value }.

Definition invalid_mention_payload {A} (message : string) : ImResult A :=
  Err (invalid_input (Some "mentions"%string) message).
Definition FORBIDDEN_MENTION_FIELDS : list string :=
  ["sender"; "sender_did"; "from"; "actor_did"; "auth"; "origin_proof"; "proof"; "signature"].
Definition looks_like_did (value : string) : bool :=
  starts_with (trim value) "did:" && (4 <? String.length (trim value))%nat.

(** ** The shape *)

Definition validate_raw_mention (index : Z) (mention : Value) : ImResult unit :=
  let place := "mentions[" +:+ u64_to_string index +:+ "]" in
  match as_object mention with
  | None => Err (invalid_input (Some place) "mention must be a JSON object")
  | Some object =>
      match head (select_where (contains_key object) FORBIDDEN_MENTION_FIELDS) with
      | Some field => invalid_mention_payload ("mention must not contain forbidden field `" +:+ field +:+ "`")
      | None =>
          match assoc "target" object ≫= as_object with
          | None => Err (invalid_input (Some (place +:+ ".target")) "mention target must be an object")
          | Some target =>
              match assoc "kind" target ≫= as_str with
              | Some kind =>
                  if bool_decide (kind = "human"%string) || bool_decide (kind = "agent"%string) then
                    if contains_key target "selector" then
                      invalid_mention_payload "human/agent mention target must not contain selector"
                    else Ok ()
                  else if bool_decide (kind = "group_selector"%string) then
                    if contains_key target "did" then
                      invalid_mention_payload "group selector mention target must not contain did"
                    else Ok ()
                  else invalid_mention_payload "unsupported mention target kind"
              | None => invalid_mention_payload "mention target kind must be present"
              end
          end
      end
  end.
Definition validate_message_mention_payload_shape (value : Value) : ImResult unit :=
  match as_object value with
  | None => Err (invalid_input (Some "payload"%string) "ANP P9 mention payload must be a JSON object")
  | Some object =>
      match assoc "text" object, assoc "mentions" object with
      | Some (VString _), Some (VArray mentions) =>
          if match assoc "annotations" object with Some a => negb (is_object a) | None => false end then
            invalid_mention_payload "mention payload annotations must be an object"
          else
            try_each (λ p, validate_raw_mention (Z.of_nat p.1) p.2) (imap pair mentions)
      | Some (VString _), _ => invalid_mention_payload "mention payload mentions must be an array"
      | _, _ => invalid_mention_payload "mention payload text must be a string"
      end
  end.

(** ** Deserialization *)

(** A unit variant: its name, or an object of its name and null. *)
Definition variant_name (v : Value) : option string :=
  match v with
  | VString s => Some s
  | VObject [(s, VNull)] => Some s
  | _ => None
  end.
(** An [Option<String>] field *)
Definition optional_field (m : list (string * Value)) (k : string) : option (option string) :=
  match assoc k m with
  | None | Some VNull => Some None
  | Some (VString s) => Some (Some s)
  | Some _ => None
  end.
Definition range_of (start stop unit : Value) : option MessageMentionRange :=
  start ← as_u64 start;
  stop ← as_u64 stop;
  unit ← variant_name unit;
  if bool_decide (unit = "unicode_code_point"%string) then Some (mkRange start stop) else None.
(** serde takes a struct from an object or from the array of its fields. *)
Definition parse_range (v : Value) : option MessageMentionRange :=
  match v with
  | VObject m =>
      start ← assoc "start" m; stop ← assoc "end" m; unit ← assoc "unit" m; range_of start stop unit
  | VArray [start; stop; unit] => range_of start stop unit
  | _ => None
  end.
Definition parse_selector (v : Value) : option MessageMentionSelector :=
  name ← variant_name v;
  if bool_decide (name = "all"%string) then Some SelectAll
  else if bool_decide (name = "agents"%string) then Some SelectAgents
  else if bool_decide (name = "humans"%string) then Some SelectHumans
  else None.
Definition parse_target (v : Value) : option MessageMentionTarget :=
  m ← as_object v;
  kind ← assoc "kind" m ≫= as_str;
  if bool_decide (kind = "group_selector"%string) then
    selector ← assoc "selector" m ≫= parse_selector; Some (GroupSelector selector)
  else
    did ← assoc "did" m ≫= as_str;
    name ← optional_field m "display_name";
    if bool_decide (kind = "human"%string) then Some (Human did name)
    else if bool_decide (kind = "agent"%string) then Some (Agent did name)
    else None.
Definition parse_role (o : option Value) : option MessageMentionRole :=
  match o with
  | None => Some Addressee
  | Some v =>
      name ← variant_name v;
      if bool_decide (name = "addressee"%string) then Some Addressee
      else if bool_decide (name = "cc"%string) then Some Cc else None
  end.
Definition parse_mention (v : Value) : option MessageMention :=
  m ← as_object v;
  id ← assoc "id" m ≫= as_str;
  range ← assoc "range" m ≫= parse_range;
  target ← assoc "target" m ≫= parse_target;
  role ← parse_role (assoc "mention_role" m);
  Some (mkMention id range target role).
Definition parse_payload (v : Value) : option MessageMentionPayload :=
  m ← as_object v;
  text ← assoc "text" m ≫= as_str;
  mentions ← assoc "mentions" m ≫= as_array;
  mentions ← mapM parse_mention mentions;
  Some (mkMentionPayload text mentions (assoc "annotations" m)).

(** ** Validation *)

Definition validate_mention (text_code_points : Z) (m : MessageMention) : ImResult unit :=
  if is_empty (trim (mn_id m)) then invalid_mention_payload "mention id must not be empty"
  else if mn_end (mn_range m) <=? mn_start (mn_range m) then
    invalid_mention_payload "mention range start must be less than end"
  else if text_code_points <? mn_end (mn_range m) then
    invalid_mention_payload "mention range end exceeds text length"
  else match mn_target m with
       | Human did _ | Agent did _ =>
           if looks_like_did did then Ok ()
           else invalid_mention_payload "human/agent mention target did must be a DID"
       | GroupSelector _ => Ok ()
       end.
Definition validate_step (text_code_points : Z) (ids : list string) (m : MessageMention)
    : ImResult (list string) :=
  _ ← validate_mention text_code_points m;
  if bool_decide (mn_id m ∈ ids) then invalid_mention_payload ("duplicate mention id: " +:+ mn_id m)
  else Ok (mn_id m :: ids).
Definition validate_payload (p : MessageMentionPayload) : ImResult unit :=
  if is_empty (mp_text p) then invalid_mention_payload "text must not be empty"
  else match mp_mentions p with
       | [] => invalid_mention_payload "mentions must not be empty"
       | mentions =>
           _ ← try_fold (validate_step (Z.of_nat (chars_count (mp_text p)))) [] mentions; Ok ()
       end.
Definition parse_message_mention_payload (value : Value) : ImResult MessageMentionPayload :=
  _ ← validate_message_mention_payload_shape value;
  payload ← ok_or (parse_payload value)
    (invalid_input (Some "payload"%string) "invalid ANP P9 mention payload");
  _ ← validate_payload payload;
  Ok payload.

(** ** Serialization *)

Definition range_value (r : MessageMentionRange) : Value :=
  VObject [("start", VNumber (PosInt (mn_start r))); ("end", VNumber (PosInt (mn_end r)));
           ("unit", VString "unicode_code_point")]%string.
Definition named_value (kind did : string) (name : option string) : Value :=
  VObject ([("kind", VString kind); ("did", VString did)]%string
           ++ match name with Some n => [("display_name"%string, VString n)] | None => [] end).
Definition target_value (t : MessageMentionTarget) : Value :=
  match t with
  | Human did name => named_value "human" did name
  | Agent did name => named_value "agent" did name
  | GroupSelector s =>
      VObject [("kind", VString "group_selector");
               ("selector", VString (match s with SelectAll => "all" | SelectAgents => "agents"
                                     | SelectHumans => "humans" end))]%string
  end.
Definition mention_value (m : MessageMention) : Value :=
  VObject [("id", VString (mn_id m)); ("range", range_value (mn_range m));
           ("target", target_value (mn_target m));
           ("mention_role", VString (match mn_role m with Addressee => "addressee" | Cc => "cc" end))]%string.
Definition to_value (p : MessageMentionPayload) : ImResult Value :=
  _ ← validate_payload p;
  Ok (VObject ([("text", VString (mp_text p)); ("mentions", VArray (mention_value <$> mp_mentions p))]%string
               ++ match mp_annotations p with Some a => [("annotations"%string, a)] | None => [] end)).

Lemma mention_shape i m : validate_raw_mention i (mention_value m) = Ok ().
Proof. by destruct m as [id rg [did [n|]|did [n|]|[]] role]. Qed.
Lemma mention_parses m : parse_mention (mention_value m) = Some m.
Proof. by destruct m as [id [a b] [did [n|]|did [n|]|[]] []]. Qed.
Lemma mentions_parse l : mapM parse_mention (mention_value <$> l) = Some l.
Proof.
  induction l as [|m l IH]; [done|]. rewrite fmap_cons. cbn [mapM]. rewrite mention_parses.
  cbn [mbind option_bind]. by rewrite IH.
Qed.
Lemma mentions_shape l : try_each (λ p : nat * Value, validate_raw_mention (Z.of_nat p.1) p.2)
                           (imap pair (mention_value <$> l)) = Ok ().
Proof.
  apply try_each_Ok, Forall_forall. intros x Hx. apply list_elem_of_lookup in Hx as [j Hj].
  rewrite list_lookup_imap, list_lookup_fmap in Hj. destruct (l !! j) as [m|]; [|done].
  injection Hj as <-. apply mention_shape.
Qed.

Lemma payload_fields m p :
  validate_payload p = Ok () → assoc "text" m = Some (VString (mp_text p)) →
  assoc "mentions" m = Some (VArray (mention_value <$> mp_mentions p)) →
  assoc "annotations" m = mp_annotations p → (∀ a, mp_annotations p = Some a → is_object a = true) →
  parse_message_mention_payload (VObject m) = Ok p.
Proof.
  intros Hv Et Em Ea Ha. unfold parse_message_mention_payload, validate_message_mention_payload_shape.
  cbn [as_object]. rewrite Et, Em, Ea.
  assert (match mp_annotations p with Some a => negb (is_object a) | None => false end = false) as ->.
  { destruct (mp_annotations p) as [a|]; [by rewrite (Ha a eq_refl)|done]. }
  rewrite mentions_shape. cbn [mbind result_bind]. unfold parse_payload. cbn [as_object mbind option_bind].
  rewrite Et, Em, Ea. cbn [mbind option_bind as_str as_array]. rewrite mentions_parse. cbn [mbind option_bind].
  destruct p as [text ms ann]. cbn [mp_text mp_mentions mp_annotations ok_or mbind result_bind].
  by rewrite Hv.
Qed.

(** What a parsed payload guarantees. *)
Lemma parsed_mentions value p :
  parse_message_mention_payload value = Ok p →
  mp_text p ≠ EmptyString ∧ mp_mentions p ≠ [] ∧ NoDup (mn_id <$> mp_mentions p) ∧
  ∀ m, m ∈ mp_mentions p →
    mn_start (mn_range m) < mn_end (mn_range m) ≤ Z.of_nat (chars_count (mp_text p)).
Proof.
  unfold parse_message_mention_payload. intros ([] & _ & Hp)%bind_Ok.
  apply bind_Ok in Hp as (q & _ & Hp). apply bind_Ok in Hp as ([] & Hv & [= ->]).
  unfold validate_payload in Hv. destruct (is_empty (mp_text p)) eqn:Et; [done|].
  apply bool_decide_eq_false in Et. split; [done|].
  assert (∃ ids, try_fold (validate_step (Z.of_nat (chars_count (mp_text p)))) [] (mp_mentions p) = Ok ids
                 ∧ mp_mentions p ≠ []) as (ids & Hf & Hne).
  { destruct (mp_mentions p) as [|m l]; [done|]. apply bind_Ok in Hv as (ids & Hv & _). by exists ids. }
  split; [done|]. clear Hv Hne.
  assert (∀ l (acc ids : list string),
    try_fold (validate_step (Z.of_nat (chars_count (mp_text p)))) acc l = Ok ids →
    (NoDup acc → NoDup ((mn_id <$> l) ++ acc)) ∧
    ∀ m, m ∈ l → mn_start (mn_range m) < mn_end (mn_range m) ≤ Z.of_nat (chars_count (mp_text p))) as Hgen.
  { clear. intros l. induction l as [|m l IH]; intros acc ids Hf.
    { split; [done|]. intros m Hm. by apply not_elem_of_nil in Hm. }
    cbn [try_fold] in Hf. apply bind_Ok in Hf as (acc1 & Hs & Hf). unfold validate_step in Hs.
    apply bind_Ok in Hs as ([] & Hm & Hs). case_bool_decide as Hin; [done|]. injection Hs as <-.
    destruct (IH _ _ Hf) as [Hn Hb]. split.
    - intros Hacc. rewrite fmap_cons. cbn [app].
      rewrite (Permutation_middle (mn_id <$> l) acc (mn_id m)). apply Hn. by apply NoDup_cons.
    - intros y [->|Hy]%elem_of_cons; [|by apply Hb]. unfold validate_mention in Hm.
      destruct (is_empty _); [done|]. destruct (_ <=? _) eqn:E1 in Hm; [done|].
      destruct (_ <? _) eqn:E2 in Hm; [done|]. lia. }
  destruct (Hgen _ _ _ Hf) as [Hn Hb]. split; [|done].
  specialize (Hn (NoDup_nil_2 )). by rewrite app_nil_r in Hn.
Qed.

Lemma parsed_valid v p :
  parse_message_mention_payload v = Ok p →
  validate_payload p = Ok () ∧ ∀ a, mp_annotations p = Some a → is_object a = true.
Proof.
  unfold parse_message_mention_payload. intros ([] & Hs & Hp)%bind_Ok.
  apply bind_Ok in Hp as (q & Hq & Hp). apply bind_Ok in Hp as ([] & Hv & [= ->]). split; [done|].
  intros a Ha. destruct v as [| | | | |m]; try done.
  unfold validate_message_mention_payload_shape in Hs. cbn [as_object] in Hs.
  assert (assoc "annotations" m = Some a) as E.
  { unfold parse_payload in Hq. cbn [as_object mbind option_bind] in Hq.
    destruct (assoc "text" m ≫= as_str); [|done]. cbn [mbind option_bind] in Hq.
    destruct (assoc "mentions" m ≫= as_array); [|done]. cbn [mbind option_bind] in Hq.
    destruct (mapM parse_mention _); [|done]. injection Hq as <-. done. }
  rewrite E in Hs. destruct (is_object a); [done|].
  destruct (assoc "text" m) as [[]|]; try done. by destruct (assoc "mentions" m) as [[]|].
Qed.


Definition ex_payload : MessageMentionPayload :=
  mkMentionPayload "hi @all" [mkMention "m1" (mkRange 3 7) (GroupSelector SelectAll) Addressee] None.
