(* ===== verification/Messages.v ===== *)
(** * Storing a message

    [upsert_message_record] of [internal/local_state/messages.rs] with
    [messages/direct_confirmation.rs]: the identity a message has on the wire, its merge with
    the stored row, the folding of the copies of a group message into its canonical id and of
    legacy direct conversations into the one of the peer's persona, and the summaries.

    A metadata text is the JSON value it holds, absent when it is empty. A nullable text
    column holds the empty text for NULL. The clock is an argument. *)

From Stdlib Require Import Ascii.
From S2P Require Import Prelude RustStr ImError Decimal Store SyncStore Outbox Wire Lanes ReadState ReadBind ReadIds ReadWire Persona Peers Summaries Mentions.
Local Open Scope Z_scope.

(** ** Records *)

Definition hydration_text (h : MessageHydrationState) : string :=
  match h with
  | Hydrated => "hydrated"
  | Discovered => "discovered"
  | LegacyProbe => "legacy_probe"
  end.
Definition hydration_of (value : string) : MessageHydrationState :=
  let value := trim value in
  if bool_decide (value = "hydrated"%string) then Hydrated
  else if bool_decide (value = "discovered"%string) then Discovered
  else if bool_decide (value = "legacy_probe"%string) then LegacyProbe
  else Discovered.

Record WireThreadIdentity := mkWireIdentity {
  wi_kind : string;
  wi_reference : string;
  wi_resolution_state : string }.

(** The tables with the temporary memo of merged legacy conversations. *)
Record MessageDb := mkMessageDb {
  ms_peers : PeerDb;
  ms_memo : list (string * string);
  ms_memo_ids : list (string * string * string) }.
Definition on_peers (s : PeerDb) (d : MessageDb) : MessageDb :=
  mkMessageDb s (ms_memo d) (ms_memo_ids d).
Definition stored_messages (d : MessageDb) : list MessageRow := messages_of (ms_peers d).
Definition on_messages (t : list MessageRow) (s : PeerDb) : PeerDb :=
  with_read (on_db (with_messages t (rd_db (px_read s))) (px_read s)) s.

Definition non_empty (value : string) : option string := nullable_text value.
Definition record_is_group (r : MessageRecord) : bool :=
  negb (is_empty (trim (rc_group_id r))) || negb (is_empty (trim (rc_group_did r))).
(** [parse_metadata] *)
Definition parse_metadata (v : option Value) : list (string * Value) :=
  default [] (v ≫= as_object).
Definition metadata_text (v : option Value) (key : string) : option string :=
  assoc key (parse_metadata v) ≫= as_str.

(** ** The identity on the wire *)

Definition validated_wire_identity (kind reference resolution_state : string)
    : ImResult WireThreadIdentity :=
  let kind := to_ascii_lowercase (trim kind) in
  if negb (bool_decide (kind ∈ ["direct"; "group"; "thread"; "mail"]%string)) then
    Err (invalid_input (Some "wire_thread_kind"%string)
           "wire thread kind must be direct, group, thread, or mail")
  else
    let reference := trim reference in
    if is_empty reference then
      Err (invalid_input (Some "wire_thread_ref"%string) "wire thread reference must not be empty")
    else
      let state := trim resolution_state in
      if bool_decide (state = EmptyString) || bool_decide (state = "resolved"%string) then
        Ok (mkWireIdentity kind reference "resolved")
      else if bool_decide (state = "legacy_unresolved"%string) then
        Ok (mkWireIdentity kind reference "legacy_unresolved")
      else Err (invalid_input (Some "wire_identity_resolution_state"%string)
                  "wire identity resolution state must be resolved or legacy_unresolved").

Definition wire_identity_for_record (r : MessageRecord) : ImResult WireThreadIdentity :=
  let kind := trim (rc_wire_thread_kind r) in
  let reference := trim (rc_wire_thread_ref r) in
  if negb (eqb (is_empty kind) (is_empty reference)) then
    Err (invalid_input (Some "wire_thread_ref"%string)
           "wire thread kind and reference must be provided together")
  else if negb (is_empty kind) then
    validated_wire_identity kind reference (rc_wire_resolution_state r)
  else
    match coalesce (non_empty (rc_group_did r)) (non_empty (rc_group_id r)) with
    | Some group => validated_wire_identity "group" group "resolved"
    | None =>
        let owner_did := trim (rc_owner_did r) in
        match head (select_where (λ did, starts_with did "did:" && negb (bool_decide (did = owner_did)))
                      [trim (rc_sender_did r); trim (rc_receiver_did r)]) with
        | Some direct => validated_wire_identity "direct" direct "resolved"
        | None =>
            let thread := trim (rc_thread_id r) in
            if is_empty thread then Ok (mkWireIdentity "" "" "legacy_unresolved")
            else match strip_prefix thread "group:", strip_prefix thread "mail:",
                       strip_prefix thread "dm:" with
                 | Some group, _, _ => validated_wire_identity "group" group "legacy_unresolved"
                 | None, Some mail, _ => validated_wire_identity "mail" mail "resolved"
                 | None, None, Some direct =>
                     validated_wire_identity "direct" direct
                       (if starts_with direct "peer-scope:" then "legacy_unresolved" else "resolved")
                 | None, None, None => validated_wire_identity "thread" thread "resolved"
                 end
        end
    end.

(** ** Confirming the target of a sent message *)

Definition value_text (v : Value) (key : string) : option string := vget v key ≫= as_str.
Definition is_one_of (o : option string) (l : list string) : bool :=
  match o with Some s => bool_decide (s ∈ l) | None => false end.
Definition delivered (v : Value) : bool := is_one_of (value_text v "delivery_state") ["accepted"; "sent"]%string.
Definition targets (v : Value) (did : string) : bool :=
  bool_decide (value_text v "resolved_target_did" = Some did)
  && bool_decide (value_text v "peer_current_did" = Some did).

(** The row a confirmation may change; a comparison with NULL does not hold. *)
Definition provisional_row (owner message_id conversation : string) (r : MessageRecord) (m : MessageRow)
    : bool :=
  message_named owner message_id m && bool_decide (mg_owner_did m = rc_owner_did r)
  && bool_decide (mg_conversation_id m = conversation) && (mg_direction m =? 1)
  && bool_decide (mg_sender_did m = rc_owner_did r)
  && bool_decide (mg_wire_thread_kind m = "direct"%string)
  && bool_decide (mg_wire_resolution_state m = "resolved"%string)
  && negb (is_empty (mg_receiver_did m)) && bool_decide (mg_wire_thread_ref m = mg_receiver_did m)
  && negb (bool_decide (mg_receiver_did m = rc_receiver_did r))
  && bool_decide (mg_server_seq m = None) && (mg_is_e2ee m =? 0)
  && bool_decide (mg_hydration_state m = "hydrated"%string)
  && is_empty (mg_group_id m) && is_empty (mg_group_did m)
  && bool_decide (mg_content_type m = rc_content_type r) && bool_decide (mg_content m = rc_content r).
Definition verified_source (i : PeerIdentifierRecord) : bool :=
  bool_decide (pi_source i ∈ ["handle_authority"; "verified_did_transition"]%string).
Definition same_persona (s : PeerDb) (owner conversation old_target new_target : string) (legacy : bool)
    : bool :=
  exists_where (λ r,
    route_row owner conversation r &&
    match dr_persona_id r with
    | None => false
    | Some persona =>
        exists_where (λ c, registry_row owner conversation c
                           && bool_decide (rg_persona_id c = Some persona)
                           && bool_decide (rg_thread_kind c = "direct"%string)
                           && is_resolved c && is_live c) (px_registry s)
        && exists_where (λ i, of_persona owner persona i && is_did i && bool_decide (pi_value i = old_target)
                              && negb (pi_is_current i) && verified_source i) (px_identifiers s)
        && exists_where (λ i, of_persona owner persona i && is_did i && bool_decide (pi_value i = new_target)
                              && verified_source i
                              && (legacy || (bool_decide (dr_current_did r = new_target) && pi_is_current i)))
             (px_identifiers s)
    end) (px_routes s).

Definition positive_seq (o : option Z) : bool := match o with Some n => 0 <? n | None => false end.
(** What the metadata before and after must say. *)
Definition operation_matches (message_id : string) (r : MessageRecord) (previous next : Value) : bool :=
  let operation := value_text previous "operation_id" in
  let wire_operation := value_text next "operation_id" in
  let matches_wire_operation :=
    positive_seq (rc_server_seq r) && bool_decide (wire_operation = Some message_id)
    && match value_text previous "wire_created_at" with
       | Some at_time => negb (is_empty (trim at_time)) | None => false end in
  match operation with
  | None => false
  | Some text => negb (is_empty (trim text))
                 && (bool_decide (operation = wire_operation) || matches_wire_operation)
  end.
Definition legacy_confirmation (r : MessageRecord) (previous : Value) : bool :=
  positive_seq (rc_server_seq r) && delivered previous && targets previous (rc_receiver_did r).
Definition fresh_confirmation (r : MessageRecord) (previous next : Value) : bool :=
  (is_one_of (value_text previous "delivery_state") ["pending"; "stored_locally"]%string
   && (positive_seq (rc_server_seq r)
       || (bool_decide (rc_server_seq r = None) && delivered next && targets next (rc_receiver_did r))))
  || (bool_decide (value_text previous "delivery_state" = Some "failed"%string)
      && positive_seq (rc_server_seq r)).
Definition can_confirm_target (s : PeerDb) (owner message_id conversation : string) (r : MessageRecord)
    (wire : WireThreadIdentity) : bool :=
  if negb (bool_decide (wi_kind wire = "direct"%string))
     || negb (bool_decide (wi_resolution_state wire = "resolved"%string))
     || negb (rc_direction r =? 1) || rc_is_e2ee r
     || negb (bool_decide (rc_hydration_state r = Hydrated))
     || negb (bool_decide (rc_sender_did r = rc_owner_did r))
     || negb (bool_decide (rc_receiver_did r = wi_reference wire))
     || negb (is_empty (rc_group_id r)) || negb (is_empty (rc_group_did r)) then false
  else
    match head (select_where (provisional_row owner message_id conversation r) (messages_of s)) with
    | None => false
    | Some m =>
        match mg_metadata m, rc_metadata r with
        | Some previous, Some next =>
            operation_matches message_id r previous next
            && (legacy_confirmation r previous || fresh_confirmation r previous next)
            && same_persona s owner conversation (mg_receiver_did m) (rc_receiver_did r)
                 (legacy_confirmation r previous)
        | _, _ => false
        end
    end.

Definition texts_conflict (p : string * string) : bool :=
  negb (is_empty (trim p.1)) && negb (is_empty (trim p.2)) && negb (bool_decide (trim p.1 = trim p.2)).
Definition seq_conflict (a b : option Z) : bool :=
  match a, b with Some x, Some y => negb (x =? y) | _, _ => false end.
Definition assert_existing_wire_identity_compatible (s : PeerDb) (owner message_id : string)
    (r : MessageRecord) (wire : WireThreadIdentity) (conversation_id : string) : ImResult bool :=
  match head (select_where (message_named owner message_id) (messages_of s)) with
  | None => Ok false
  | Some m =>
      let text_conflict := existsb texts_conflict
        [(mg_wire_thread_kind m, wi_kind wire); (mg_wire_thread_ref m, wi_reference wire);
         (mg_sender_did m, rc_sender_did r); (mg_receiver_did m, rc_receiver_did r);
         (mg_group_id m, rc_group_id r); (mg_group_did m, rc_group_did r)] in
      let sequence_conflict := seq_conflict (mg_server_seq m) (rc_server_seq r) in
      if text_conflict || sequence_conflict then
        if negb sequence_conflict && can_confirm_target s owner message_id conversation_id r wire
        then Ok true
        else Err (MessageWireIdentityConflict message_id)
      else Ok false
  end.

(** ** Conversations and canonical ids *)

Definition mail_conversation_id (source : string) : string :=
  let source := trim source in if is_empty source then "mail:unknown" else "mail:" +:+ source.
Definition is_mail_record (r : MessageRecord) : bool :=
  bool_decide (trim (rc_content_type r) = "mail.notification"%string)
  || bool_decide (trim <$> metadata_text (rc_metadata r) "source_kind" = Some "mail"%string).
Definition stable_conversation_id (r : MessageRecord) : string :=
  match non_empty (rc_conversation_id r) with
  | Some id => id
  | None =>
      match coalesce (non_empty (rc_group_id r)) (non_empty (rc_group_did r)) with
      | Some group => group_conversation_id group
      | None =>
          if is_mail_record r then
            match nonblank (strip_prefix (trim (rc_thread_id r)) "mail:") with
            | Some source => mail_conversation_id source
            | None => mail_conversation_id "inbox"
            end
          else
            let owner_did := trim (rc_owner_did r) in
            let peer := if negb (bool_decide (trim (rc_sender_did r) = owner_did))
                        then trim (rc_sender_did r) else trim (rc_receiver_did r) in
            if negb (is_empty peer) then direct_conversation_id peer
            else match direct_conversation_id_from_thread_alias (rc_thread_id r) (rc_owner_did r) with
                 | Some id => id
                 | None => default_string (rc_thread_id r) ""
                 end
      end
  end.

Definition normalize_group_ref (value : string) : option string :=
  let value := trim value in
  if is_empty value then None
  else let value := trim (default value (strip_prefix value "group:")) in
       if is_empty value then None else Some value.
Definition canonical_group_ref (r : MessageRecord) (conversation_id : string) : option string :=
  match coalesce (normalize_group_ref (rc_group_did r)) (normalize_group_ref (rc_group_id r)) with
  | Some group => Some group
  | None =>
      if starts_with (trim conversation_id) "group:" then normalize_group_ref conversation_id
      else if starts_with (trim (rc_thread_id r)) "group:" then normalize_group_ref (rc_thread_id r)
      else None
  end.
Definition canonical_group_message_id (r : MessageRecord) (conversation_id : string) : option string :=
  match rc_server_seq r with
  | None => None
  | Some seq =>
      if seq <? 0 then None
      else (λ group, group +:+ ":" +:+ i64_to_string seq) <$> canonical_group_ref r conversation_id
  end.

Definition group_message_aliases (r : MessageRecord) (canonical_id : string) : list string :=
  let named := omap (λ key, trimmed_nonempty (metadata_text (rc_metadata r) key))
                 ["raw_message_id"; "client_message_id"; "operation_id"]%string in
  filter (λ alias, alias ≠ canonical_id) (fold_left push_unique (trim (rc_msg_id r) :: named) []).
Definition merged_group_message_aliases (r : MessageRecord) (duplicates : list MessageRecord)
    (canonical_id : string) : list string :=
  filter (λ alias, trim alias ≠ canonical_id)
    (fold_left push_unique (d ← duplicates; group_message_aliases d canonical_id)
       (group_message_aliases r canonical_id)).
Definition put_message_alias (owner canonical : string) (t : list MessageAlias) (alias : string)
    : list MessageAlias :=
  let alias := trim alias in
  if is_empty alias || bool_decide (alias = canonical) then t
  else
    let key a := bool_decide (ma_owner a = owner) && bool_decide (ma_alias a = alias) in
    if exists_where key t then update_where key (λ _, mkMessageAlias owner alias canonical) t
    else t ++ [mkMessageAlias owner alias canonical].
Definition on_message_aliases (t : list MessageAlias) (s : PeerDb) : PeerDb :=
  with_read (mkReadDb (rd_db (px_read s)) (rd_thread_bindings (px_read s)) (rd_remote_states (px_read s))
               (rd_aliases (px_read s)) t) s.
Definition upsert_message_identity_aliases (s : PeerDb) (owner canonical : string) (aliases : list string)
    : ImResult PeerDb :=
  owner ← required "owner_identity_id" owner;
  canonical ← required "canonical_msg_id" canonical;
  Ok (on_message_aliases
        (fold_left (put_message_alias owner canonical) aliases (rd_message_aliases (px_read s))) s).

(** ** The copies of a group message *)

(** [message_record_from_row] of a query without the columns of the wire identity. *)
Definition message_record_from_row (m : MessageRow) : MessageRecord :=
  mkMessageRecord (mg_msg_id m) (mg_owner_identity_id m) (mg_owner_did m) (mg_conversation_id m) "" "" ""
    (mg_thread_id m) (mg_direction m) (mg_sender_did m) (mg_receiver_did m) (mg_group_id m)
    (mg_group_did m) (mg_content_type m) (mg_content m) (mg_title m) (mg_server_seq m)
    (hydration_of (mg_hydration_state m)) (mg_sent_at m) (mg_stored_at m) (negb (mg_is_e2ee m =? 0))
    (negb (mg_is_read m =? 0)) (mg_sender_name m) (mg_metadata m)
    (negb (mg_mentions_current_user m =? 0)) (mg_credential_name m).
Definition group_row_in (conversation_id : string) (m : MessageRow) : bool :=
  bool_decide (conversation_of m = conversation_id)
  && (negb (is_empty (sql_trim (mg_group_id m))) || negb (is_empty (sql_trim (mg_group_did m)))
      || starts_with (to_ascii_lowercase (conversation_of m)) "group:").
Definition duplicate_row (owner conversation_id canonical : string) (server_seq : option Z)
    (aliases : list string) (m : MessageRow) : bool :=
  bool_decide (mg_owner_identity_id m = owner) && negb (bool_decide (mg_msg_id m = canonical))
  && group_row_in conversation_id m
  && ((bool_decide (is_Some server_seq) && bool_decide (mg_server_seq m = server_seq))
      || bool_decide (mg_msg_id m ∈ aliases)).
Definition id_le (a b : MessageRow) : Prop := str_le (mg_msg_id a) (mg_msg_id b).
#[export] Instance id_le_dec a b : Decision (id_le a b).
Proof. unfold id_le. apply _. Defined.
Definition existing_group_duplicate_rows (s : PeerDb) (owner conversation_id canonical : string)
    (server_seq : option Z) (aliases : list string) : list MessageRecord :=
  message_record_from_row <$> merge_sort id_le
    (select_where (duplicate_row owner conversation_id canonical server_seq aliases) (messages_of s)).
Definition remove_one (owner canonical : string) (t : list MessageRow) (d : MessageRecord)
    : list MessageRow :=
  let id := trim (rc_msg_id d) in
  if is_empty id || bool_decide (id = canonical) then t else delete_where (message_named owner id) t.
Definition remove_group_duplicate_rows (s : PeerDb) (owner canonical : string)
    (duplicates : list MessageRecord) : PeerDb :=
  on_messages (fold_left (remove_one owner canonical) duplicates (messages_of s)) s.

Definition merged_group_projection_value (incoming : string) (duplicates : list MessageRecord)
    (get : MessageRecord → string) : string :=
  default EmptyString (coalesce (non_empty incoming) (head (omap (λ d, non_empty (get d)) duplicates))).
Definition object_insert (m : list (string * Value)) (e : string * Value) : list (string * Value) :=
  if contains_key m e.1 then (λ p, if bool_decide (p.1 = e.1) then e else p) <$> m else m ++ [e].
Definition merged_group_metadata (incoming : option Value) (duplicates : list MessageRecord)
    : option Value :=
  let entries := o ← omap (λ v, v ≫= as_object) ((rc_metadata <$> duplicates) ++ [incoming]); o in
  match fold_left object_insert entries [] with
  | [] => coalesce incoming (head (omap rc_metadata duplicates))
  | merged => Some (VObject merged)
  end.

(** ** Mentions *)

Definition attachment_manifest_content_type : string := "application/anp-attachment-manifest+json".
Definition is_group_projection (thread_id group_id group_did : string) : bool :=
  negb (is_empty (trim group_id)) || negb (is_empty (trim group_did))
  || starts_with (trim thread_id) "group:".
Definition mentions_owner (owner_did : string) (m : MessageMention) : bool :=
  match mn_target m with
  | Human did _ => bool_decide (trim did = owner_did)
  | GroupSelector SelectAll | GroupSelector SelectHumans => true
  | GroupSelector SelectAgents | Agent _ _ => false
  end.
Definition mentions_current_user_for_projection `{JsonText} (owner_did : string) (direction : Z)
    (thread_id group_id group_did content_type content : string) : bool :=
  if negb (direction =? 0) || negb (is_group_projection thread_id group_id group_did) then false
  else
    let content_type := trim content_type in
    if negb (bool_decide (content_type = "application/json"%string))
       && negb (bool_decide (content_type = attachment_manifest_content_type)) then false
    else
      let owner_did := trim owner_did in
      if is_empty owner_did then false
      else match from_str content with
           | None => false
           | Some value =>
               match parse_message_mention_payload value with
               | Err _ => false
               | Ok payload => existsb (mentions_owner owner_did) (mp_mentions payload)
               end
           end.

(** ** Legacy direct conversations *)

Definition LEGACY_DIRECT_DID : string := "legacy_direct_did".
Definition cached_peer_scope_conversation_id_for_legacy_direct (d : MessageDb)
    (owner conversation_id : string) : option string :=
  let resolve kind := resolve_alias (px_read (ms_peers d)) owner kind conversation_id in
  match resolve foreign_persona with
  | Some canonical => Some canonical
  | None =>
      if negb (starts_with (trim conversation_id) "dm:did:wba:") then None
      else match resolve LEGACY_DIRECT_DID, resolve "verified_did"%string with
           | Some canonical, _ => Some canonical
           | None, Some canonical => Some canonical
           | None, None =>
               (λ e, e.1.2) <$> head (select_where
                  (λ e, bool_decide (e.1.1 = owner) && bool_decide (e.2 = conversation_id)) (ms_memo_ids d))
           end
  end.

Definition verified_legacy_direct_conversation_ids (s : PeerDb) (owner persona canonical : string)
    : list string :=
  fold_left push_unique
    (select_where (λ id, negb (bool_decide (id = canonical))
                         && (exists_where (registry_row owner id) (px_registry s)
                             || exists_where (in_conversation owner id) (messages_of s)))
       (direct_conversation_id <$> dids_for_persona s owner persona)) [].
Definition add_memo_id (owner canonical : string) (t : list (string * string * string)) (legacy : string)
    : list (string * string * string) :=
  if bool_decide ((owner, canonical, legacy) ∈ t) then t else t ++ [(owner, canonical, legacy)].
Definition mark_legacy_direct_merge_memo (d : MessageDb) (owner canonical : string)
    (legacy_ids : list string) : MessageDb :=
  mkMessageDb (ms_peers d)
    (if bool_decide ((owner, canonical) ∈ ms_memo d) then ms_memo d else ms_memo d ++ [(owner, canonical)])
    (fold_left (add_memo_id owner canonical) legacy_ids (ms_memo_ids d)).
(** [UPDATE messages SET conversation_id] of a legacy direct conversation *)
Definition refile (canonical : string) (m : MessageRow) : MessageRow :=
  mkMessageRow (mg_owner_identity_id m) (mg_msg_id m) canonical (mg_thread_id m)
    (mg_wire_thread_kind m) (mg_hydration_state m) (mg_owner_did m) (mg_sender_did m)
    (mg_group_did m) (mg_direction m) (mg_server_seq m) (mg_is_e2ee m) (mg_metadata m)
    (mg_sent_at m) (mg_stored_at m) (mg_is_read m) (mg_group_id m) (mg_content_type m)
    (mg_receiver_did m) (mg_wire_thread_ref m) (mg_wire_resolution_state m) (mg_content m)
    (mg_title m) (mg_sender_name m) (mg_mentions_current_user m) (mg_credential_name m).
Definition legacy_message (owner : string) (legacy_ids : list string) (m : MessageRow) : bool :=
  bool_decide (mg_owner_identity_id m = owner) && is_empty (sql_trim (mg_group_id m))
  && is_empty (sql_trim (mg_group_did m)) && bool_decide (conversation_of m ∈ legacy_ids).

Section store.
Context `{WireCodec, JsonText, Idna}.

Definition merge_legacy_direct_did_conversation (now : string) (d : MessageDb)
    (owner conversation_id : string) (r : MessageRecord) : ImResult (list string * MessageDb) :=
  owner ← required "owner_identity_id" owner;
  conversation_id ← required "conversation_id" conversation_id;
  if negb (starts_with conversation_id "dm:peer-scope:") || record_is_group r then Ok ([], d)
  else if bool_decide ((owner, conversation_id) ∈ ms_memo d) then Ok ([], d)
  else
    route ← get_route (ms_peers d) owner conversation_id;
    match route ≫= λ route, trimmed_nonempty (dr_persona_id route) with
    | None => Ok ([], d)
    | Some persona =>
        s ← ensure_conversation (ms_peers d)
              (mkRegistryRecord owner (trim (rc_owner_did r)) conversation_id "direct" conversation_id
                 (default_string (rc_stored_at r) now));
        match verified_legacy_direct_conversation_ids s owner persona conversation_id with
        | [] => Ok ([], mark_legacy_direct_merge_memo (on_peers s d) owner conversation_id [])
        | legacy_ids =>
            s ← try_fold (λ s legacy_id, insert_alias s
                   (mkAliasRecord owner LEGACY_DIRECT_DID legacy_id conversation_id
                      "verified_peer_persona" now)) s legacy_ids;
            let s := on_messages (update_where (legacy_message owner legacy_ids)
                                    (refile conversation_id) (messages_of s)) s in
            let d := mark_legacy_direct_merge_memo (on_peers s d) owner conversation_id legacy_ids in
            s ← try_fold (λ s legacy_id, mark_merged now s owner legacy_id conversation_id)
                  (ms_peers d) legacy_ids;
            Ok (legacy_ids, on_peers s d)
        end
    end.

(** ** The stored row *)

Definition bool_Z (b : bool) : Z := if b then 1 else 0.
Definition is_hydrated (m : MessageRow) : bool := bool_decide (mg_hydration_state m = "hydrated"%string).
Definition first_text (a b : string) : string := if is_empty a then b else a.
Definition json_state (v : option Value) (key : string) (states : list string) : bool :=
  is_one_of (v ≫= λ v, value_text v key) states.

(** The column [metadata]; operation ids are texts. *)
Definition merged_metadata (cur new : MessageRow) : option Value :=
  let sent m := bool_decide (mg_wire_thread_kind m = "direct"%string) && (mg_is_e2ee m =? 0)
                && (mg_direction m =? 1) in
  let wire_created_at := metadata_str (mg_metadata cur) "wire_created_at" in
  if sent cur && json_state (mg_metadata cur) "delivery_state" ["accepted"; "sent"]%string
     && json_state (mg_metadata new) "delivery_state" ["stored_locally"; "pending"; "failed"]%string
  then mg_metadata cur
  else if is_hydrated cur && negb (is_hydrated new) then coalesce (mg_metadata cur) (mg_metadata new)
  else if sent cur && sent new
          && match wire_created_at with Some t => negb (is_empty t) | None => false end then
    let base := default (VObject []) (mg_metadata new) in
    let operation := coalesce
      (metadata_str (mg_metadata cur) "operation_id" ≫= λ s, if is_empty s then None else Some (VString s))
      (vget base "operation_id") in
    Some (set_field "operation_id" (default VNull operation)
            (set_field "wire_created_at" (default VNull (VString <$> wire_created_at)) base))
  else if is_empty (mg_content new) && (mg_is_e2ee cur =? 1)
          && json_state (mg_metadata cur) "decryption_state" ["decrypted"]%string
          && json_state (mg_metadata new) "decryption_state" ["failed"]%string then mg_metadata cur
  else mg_metadata new.

(** [ON CONFLICT(owner_identity_id, msg_id) DO UPDATE SET] *)
Definition merge_row (confirm : bool) (new cur : MessageRow) : MessageRow :=
  let kept := is_hydrated cur && negb (is_hydrated new) in
  let keep {A} (a b : A) := if kept then a else b in
  mkMessageRow (mg_owner_identity_id cur) (mg_msg_id cur)
    (keep (mg_conversation_id cur) (mg_conversation_id new))
    (mg_thread_id cur)
    (if is_empty (sql_trim (mg_wire_thread_kind cur)) then mg_wire_thread_kind new
     else mg_wire_thread_kind cur)
    (if is_hydrated cur || is_hydrated new then "hydrated"
     else if bool_decide (mg_hydration_state cur = "discovered"%string)
             || bool_decide (mg_hydration_state new = "discovered"%string) then "discovered"
     else "legacy_probe")
    (mg_owner_did new)
    (first_text (mg_sender_did cur) (mg_sender_did new))
    (first_text (mg_group_did cur) (mg_group_did new))
    (if kept && negb (mg_direction cur =? -1) then mg_direction cur else mg_direction new)
    (coalesce (mg_server_seq cur) (mg_server_seq new))
    (bool_Z ((mg_is_e2ee new =? 1) || (mg_is_e2ee cur =? 1)))
    (merged_metadata cur new)
    (keep (first_text (mg_sent_at cur) (mg_sent_at new)) (mg_sent_at new))
    (keep (mg_stored_at cur) (mg_stored_at new))
    (keep (mg_is_read cur) (bool_Z ((mg_is_read new =? 1) || (mg_is_read cur =? 1))))
    (first_text (mg_group_id cur) (mg_group_id new))
    (keep (mg_content_type cur)
       (if is_empty (mg_content new) then mg_content_type cur else mg_content_type new))
    (if confirm then mg_receiver_did new else first_text (mg_receiver_did cur) (mg_receiver_did new))
    (if confirm then mg_wire_thread_ref new
     else if is_empty (sql_trim (mg_wire_thread_ref cur)) then mg_wire_thread_ref new
     else mg_wire_thread_ref cur)
    (if bool_decide (mg_wire_resolution_state cur = "resolved"%string) then "resolved"
     else mg_wire_resolution_state new)
    (keep (mg_content cur) (first_text (mg_content new) (mg_content cur)))
    (keep (mg_title cur) (first_text (mg_title new) (mg_title cur)))
    (keep (first_text (mg_sender_name cur) (mg_sender_name new)) (mg_sender_name new))
    (keep (mg_mentions_current_user cur)
       (if is_empty (mg_content new) then mg_mentions_current_user cur else mg_mentions_current_user new))
    (keep (first_text (mg_credential_name cur) (mg_credential_name new)) (mg_credential_name new)).
Definition put_row (confirm : bool) (new : MessageRow) (t : list MessageRow) : list MessageRow :=
  let key := message_named (mg_owner_identity_id new) (mg_msg_id new) in
  if exists_where key t then update_where key (merge_row confirm new) t else t ++ [new].

(** A valid Notify intent projected before is kept. *)
Definition NOTIFY_LEVEL_ATTRIBUTE : string := "notify_level".
Definition keep_notify_level (s : PeerDb) (owner msg_id : string) (r : MessageRecord)
    (content_type : string) (metadata : option Value) : option Value :=
  match is_empty (rc_group_did r) && negb (rc_is_e2ee r) && bool_decide (content_type = "text/plain"%string),
        metadata with
  | true, Some (VObject attrs) =>
      if contains_key attrs NOTIFY_LEVEL_ATTRIBUTE then metadata
      else
        let previous := head (select_where
          (λ m, message_named owner msg_id m && bool_decide (mg_wire_thread_kind m = "direct"%string)
                && (mg_is_e2ee m =? 0) && bool_decide (mg_content_type m = "text/plain"%string))
          (messages_of s)) in
        match (previous ≫= mg_metadata) ≫= (λ v, vget v NOTIFY_LEVEL_ATTRIBUTE) with
        | Some level =>
            if is_one_of (as_str level) ["normal"; "urgent"; "invalid"]%string
            then Some (VObject (object_insert attrs (NOTIFY_LEVEL_ATTRIBUTE, level)))
            else metadata
        | None => metadata
        end
  | _, _ => metadata
  end.

Definition merged_hydration (r : MessageRecord) (duplicates : list MessageRecord)
    : MessageHydrationState :=
  let some h := existsb (λ d, bool_decide (rc_hydration_state d = h)) (r :: duplicates) in
  if some Hydrated then Hydrated else if some Discovered then Discovered else LegacyProbe.
(** The row of the [INSERT]. *)
Definition incoming_row (now : string) (s : PeerDb) (owner owner_did conversation_id msg_id : string)
    (wire : WireThreadIdentity) (duplicates : list MessageRecord) (r : MessageRecord) : MessageRow :=
  let merged get := merged_group_projection_value (get r) duplicates get in
  let content := merged rc_content in
  let content_type := default_string (merged rc_content_type) "text/plain" in
  let hydration := merged_hydration r duplicates in
  let is_control_payload := bool_decide (hydration = Hydrated)
    && is_control_payload_for_projection content_type content (rc_sender_did r) in
  mkMessageRow owner msg_id conversation_id conversation_id (wi_kind wire) (hydration_text hydration)
    owner_did (trim (rc_sender_did r)) (trim (rc_group_did r)) (rc_direction r) (rc_server_seq r)
    (bool_Z (rc_is_e2ee r || existsb rc_is_e2ee duplicates))
    (keep_notify_level s owner msg_id r content_type (merged_group_metadata (rc_metadata r) duplicates))
    (merged rc_sent_at) (default_string (merged rc_stored_at) now)
    (bool_Z (rc_is_read r || is_control_payload)) (trim (rc_group_id r)) content_type
    (trim (rc_receiver_did r)) (wi_reference wire) (wi_resolution_state wire) content (merged rc_title)
    (merged rc_sender_name)
    (bool_Z (mentions_current_user_for_projection owner_did (rc_direction r) (rc_thread_id r)
               (rc_group_id r) (rc_group_did r) content_type content
             || existsb rc_mentions_current_user duplicates))
    (trim (rc_credential_name r)).

(** [inherit_committed_read_watermark] *)
Definition inherits (states : list ThreadReadStateRecord) (owner msg_id : string) (m : MessageRow) : bool :=
  message_named owner msg_id m && unread_incoming m && is_hydrated m
  && bool_decide (mg_wire_resolution_state m = "resolved"%string)
  && negb (authenticated_p5_read m)
  && match mg_server_seq m with
     | None => false
     | Some seq =>
         (0 <? seq)
         && exists_where (λ t, bool_decide (tr_owner t = mg_owner_identity_id m)
                               && bool_decide (tr_scope t = mg_wire_thread_kind m)
                               && bool_decide (tr_thread_id t = mg_conversation_id m)
                               && match tr_watermark_seq t with
                                  | Some w => seq <=? sql_cast_integer w | None => false end) states
     end.
Definition inherit_committed_read_watermark (s : PeerDb) (owner msg_id : string) : PeerDb :=
  on_messages (update_where (inherits (db_read_states (rd_db (px_read s))) owner msg_id) set_read
                 (messages_of s)) s.

(** ** The whole upsert *)

(** The row an upsert is about, and what it writes to it. *)
Record UpsertTarget := mkTarget {
  tg_owner : string;
  tg_owner_did : string;
  tg_conversation_id : string;
  tg_msg_id : string;
  tg_canonical : bool;
  tg_wire : WireThreadIdentity }.
Record UpsertPlan := mkPlanned {
  up_owner : string;
  up_conversation_id : string;
  up_msg_id : string;
  up_canonical : bool;
  up_confirm : bool;
  up_duplicates : list MessageRecord;
  up_row : MessageRow }.
Definition upsert_target (d : MessageDb) (r : MessageRecord) : ImResult UpsertTarget :=
  input_msg_id ← required "msg_id" (rc_msg_id r);
  owner ← required "owner_identity_id" (rc_owner_identity_id r);
  owner_did ← required "owner_did" (rc_owner_did r);
  stable ← required "conversation_id" (stable_conversation_id r);
  let conversation_id :=
    if record_is_group r then stable
    else default stable (cached_peer_scope_conversation_id_for_legacy_direct d owner stable) in
  let canonical := canonical_group_message_id r conversation_id in
  wire ← wire_identity_for_record r;
  Ok (mkTarget owner owner_did conversation_id (default input_msg_id canonical)
        (bool_decide (is_Some canonical)) wire).
Definition plan_upsert (now : string) (d : MessageDb) (r : MessageRecord) : ImResult UpsertPlan :=
  let s := ms_peers d in
  g ← upsert_target d r;
  confirm ← assert_existing_wire_identity_compatible s (tg_owner g) (tg_msg_id g) r (tg_wire g)
              (tg_conversation_id g);
  let duplicates := existing_group_duplicate_rows s (tg_owner g) (tg_conversation_id g) (tg_msg_id g)
                      (rc_server_seq r) (group_message_aliases r (tg_msg_id g)) in
  Ok (mkPlanned (tg_owner g) (tg_conversation_id g) (tg_msg_id g) (tg_canonical g) confirm duplicates
        (incoming_row now s (tg_owner g) (tg_owner_did g) (tg_conversation_id g) (tg_msg_id g) (tg_wire g)
           duplicates r)).

Definition upsert_message_record (now : string) (d : MessageDb) (r : MessageRecord)
    : ImResult (gset (string * string) * MessageDb) :=
  plan ← plan_upsert now d r;
  let owner := up_owner plan in
  let msg_id := up_msg_id plan in
  let duplicates := up_duplicates plan in
  previous ← message_projection_for_id (ms_peers d) owner msg_id;
  let touched : gset (string * string) :=
    list_to_set (((λ p, (owner, pj_conversation_id p)) <$> option_list previous)
                 ++ ((λ d, (rc_owner_identity_id d, stable_conversation_id d)) <$> duplicates)) in
  let s := remove_group_duplicate_rows (ms_peers d) owner msg_id duplicates in
  let s := on_messages (put_row (up_confirm plan) (up_row plan) (messages_of s)) s in
  s ← upsert_message_identity_aliases s owner msg_id
        (if up_canonical plan then merged_group_message_aliases r duplicates msg_id else []);
  merged ← merge_legacy_direct_did_conversation now (on_peers s d) owner (up_conversation_id plan) r;
  let '(legacy_ids, d) := (merged : list string * MessageDb) in
  let touched := touched ∪ list_to_set (pair owner <$> legacy_ids) in
  let s := inherit_committed_read_watermark (ms_peers d) owner msg_id in
  next ← message_projection_for_id s owner msg_id;
  let touched := touched ∪ list_to_set ((λ p, (owner, pj_conversation_id p)) <$> option_list next) in
  summarized ←
    match legacy_ids, duplicates, next with
    | [], [], Some next => apply_message_delta_or_rebuild now s previous next
    | _, _, _ => rebuild_touched now s touched
    end;
  let committed := match next with
                   | Some p => pj_conversation_id p | None => up_conversation_id plan end in
  s ← ensure_from_summary (summarized : Z * PeerDb).2 owner committed;
  Ok (touched ∪ {[ (owner, committed) ]}, on_peers s d).

(** A failed upsert is rolled back to its savepoint. *)
Definition upsert_message (now : string) (d : MessageDb) (r : MessageRecord)
    : result ImError unit * MessageDb :=
  match upsert_message_record now d r with
  | Ok done => (Ok (), done.2)
  | Err e => (Err e, d)
  end.
End store.
