(* ===== verification/SummaryOrder.v ===== *)
(** * Orders of summary rows

    A comparison is a total order when it decides equality, is antisymmetric and transitive;
    tuples, options and booleans inherit it. Rows with distinct ids are then in one order
    only, so that what a rebuild computes depends on the rows and not on how they are stored. *)

From S2P Require Import Prelude RustStr ImError Decimal Store SyncStore Outbox Wire Lanes ReadState ReadBind ReadIds Persona Peers Summaries.
Local Open Scope Z_scope.

(** ** Total comparisons *)

Class TotalCmp {A} (f : A → A → comparison) : Prop := {
  cmp_eq : ∀ x y, f x y = Eq ↔ x = y;
  cmp_antisym : ∀ x y, f x y = CompOpp (f y x);
  cmp_lt_trans : ∀ x y z, f x y = Lt → f y z = Lt → f x z = Lt }.

#[export] Instance z_total : TotalCmp Z.compare.
Proof.
  split; [apply Z.compare_eq_iff| |]; intros.
  - by rewrite Z.compare_antisym.
  - rewrite Z.compare_lt_iff in *. lia.
Qed.
#[export] Instance bool_total : TotalCmp bool_cmp.
Proof. split; [intros [] []; naive_solver|by intros [] []|by intros [] [] []]. Qed.
#[export] Instance str_total : TotalCmp str_cmp.
Proof.
  split; [apply str_cmp_eq|apply str_cmp_antisym|].
  intros x y z Hxy Hyz. assert (str_le x z) as Hxz.
  { trans y; unfold str_le; [by rewrite Hxy|by rewrite Hyz]. }
  destruct (str_cmp x z) eqn:E; [|done|done]. apply str_cmp_eq in E as ->.
  rewrite str_cmp_antisym, Hxy in Hyz. done.
Qed.
#[export] Instance option_total {A} (f : A → A → comparison) `{!TotalCmp f} : TotalCmp (option_cmp f).
Proof.
  split.
  - intros [x|] [y|]; cbn; try done. rewrite cmp_eq. naive_solver.
  - intros [x|] [y|]; cbn; try done. apply cmp_antisym.
  - intros [x|] [y|] [z|]; cbn; try done. apply cmp_lt_trans.
Qed.
#[export] Instance pair_total {A B} (f : A → A → comparison) (g : B → B → comparison)
  `{!TotalCmp f, !TotalCmp g} : TotalCmp (pair_cmp f g).
Proof.
  unfold pair_cmp, then_cmp. split.
  - intros [x1 x2] [y1 y2]; cbn. pose proof (cmp_eq (f:=f) x1 y1). pose proof (cmp_eq (f:=g) x2 y2).
    destruct (f x1 y1); naive_solver.
  - intros [x1 x2] [y1 y2]; cbn. rewrite (cmp_antisym (f:=f) x1 y1), (cmp_antisym (f:=g) x2 y2).
    by destruct (f y1 x1).
  - intros [x1 x2] [y1 y2] [z1 z2]; cbn. intros Hxy Hyz.
    destruct (f x1 y1) eqn:E1; [apply cmp_eq in E1 as ->| |done];
      destruct (f y1 z1) eqn:E2; try done.
    + by apply (cmp_lt_trans _ y2).
    + apply cmp_eq in E2 as ->. by rewrite E1.
    + by rewrite (cmp_lt_trans _ _ _ E1 E2).
Qed.

Section total.
Context {A : Type} (f : A → A → comparison) `{!TotalCmp f}.

Lemma cmp_refl x : f x x = Eq.
Proof. by apply cmp_eq. Qed.
Lemma cmp_gt_lt x y : f x y = Gt ↔ f y x = Lt.
Proof. rewrite (cmp_antisym (f:=f) x y). by destruct (f y x). Qed.
#[export] Instance le_of_trans : Transitive (le_of f).
Proof.
  intros x y z. unfold le_of. destruct (f x y) eqn:E1, (f y z) eqn:E2; try done; intros _ _.
  - apply cmp_eq in E1 as ->. by rewrite E2.
  - apply cmp_eq in E1 as ->. by rewrite E2.
  - apply cmp_eq in E2 as ->. by rewrite E1.
  - by rewrite (cmp_lt_trans _ _ _ E1 E2).
Qed.
#[export] Instance le_of_total : Total (le_of f).
Proof. intros x y. unfold le_of. rewrite (cmp_antisym (f:=f) y x). destruct (f x y); cbn; auto. Qed.
#[export] Instance le_of_antisymm : AntiSymm (=) (le_of f).
Proof.
  intros x y. unfold le_of. rewrite (cmp_antisym (f:=f) y x). destruct (f x y) eqn:E; cbn; try done.
  intros _ _. by apply cmp_eq.
Qed.
End total.

(** ** Sorted rows *)

Definition listed_key (r : SummaryMessageRow) : string * option Z * string :=
  (sm_sort_at r, sm_server_seq r, sm_msg_id r).
#[export] Instance listed_trans : Transitive (le_of listed_cmp).
Proof.
  intros x y z. exact (le_of_trans (pair_cmp (pair_cmp str_cmp (option_cmp Z.compare)) str_cmp)
                         (listed_key x) (listed_key y) (listed_key z)).
Qed.
#[export] Instance listed_total : Total (le_of listed_cmp).
Proof.
  intros x y. exact (le_of_total (pair_cmp (pair_cmp str_cmp (option_cmp Z.compare)) str_cmp)
                       (listed_key x) (listed_key y)).
Qed.
Lemma listed_same_id x y : le_of listed_cmp x y → le_of listed_cmp y x → sm_msg_id x = sm_msg_id y.
Proof.
  intros Hxy Hyx.
  pose proof (le_of_antisymm (pair_cmp (pair_cmp str_cmp (option_cmp Z.compare)) str_cmp)
                (listed_key x) (listed_key y) Hxy Hyx) as E.
  by apply (f_equal snd) in E.
Qed.

Lemma sorted_select {A} (R : relation A) (p : A → bool) l :
  StronglySorted R l → StronglySorted R (select_where p l).
Proof.
  induction 1 as [|x l _ IH Hall]; [constructor|]. unfold select_where in *. rewrite filter_cons.
  case_decide; [|done]. constructor; [done|]. rewrite Forall_forall in Hall |- *.
  intros y Hy. apply list_elem_of_filter in Hy as [_ Hy]. by apply Hall.
Qed.
Lemma select_perm {A} (p : A → bool) (l l' : list A) :
  l ≡ₚ l' → select_where p l ≡ₚ select_where p l'.
Proof. unfold select_where. by intros ->. Qed.

#[export] Instance select_proper {A} (p : A → bool) :
  Proper (Permutation ==> Permutation) (select_where p).
Proof. intros l l'. apply select_perm. Qed.

(** Sorted rows with distinct ids that are the same up to order are the same. *)
Lemma sorted_rows_unique (l l' : list SummaryMessageRow) (q : SummaryMessageRow → bool) :
  NoDup (sm_msg_id <$> select_where q l) → select_where q l ≡ₚ select_where q l' →
  select_where q (merge_sort (le_of listed_cmp) l) = select_where q (merge_sort (le_of listed_cmp) l').
Proof.
  intros Hnd Hp.
  assert (∀ k, select_where q (merge_sort (le_of listed_cmp) k) ≡ₚ select_where q k) as Hs.
  { intros k. apply select_perm, merge_sort_Permutation. }
  apply (StronglySorted_unique_strong (le_of listed_cmp)).
  - intros x y Hx Hy Hxy Hyx. rewrite Hs in Hx, Hy. rewrite <- Hp in Hy.
    apply (key_inj sm_msg_id _ x y Hnd Hx Hy). by apply listed_same_id.
  - apply sorted_select, StronglySorted_merge_sort; apply _.
  - apply sorted_select, StronglySorted_merge_sort; apply _.
  - by rewrite !Hs.
Qed.
