(* ===== verification/PeerCheck.v ===== *)
(** * The invariants of canonical conversations

    [internal/local_state/canonical_invariants.rs]: the queries that count violations, and
    [canon], the same conditions as one proposition, with those the code relies on besides:
    keys are unique, identifiers belong to stored personas, and a route leads to the one
    current DID of its persona. *)

From Stdlib Require Import Ascii.
From S2P Require Import Prelude RustStr ImError Decimal Store SyncStore Outbox Wire ReadState ReadBind ReadProps Persona Peers PeerProject.
Local Open Scope Z_scope.

Record CanonicalInvariantViolation := mkViolation {
  cv_table : string;
  cv_invariant : string;
  cv_row_count : Z }.

(** [LEFT JOIN] *)
Definition left_join {A B} (p : A → B → bool) (a : list A) (b : list B) : list (A * option B) :=
  a ≫= λ x, match select_where (p x) b with [] => [(x, None)] | l => (λ y, (x, Some y)) <$> l end.
Definition count_join {A B} (p : A → B → bool) (q : A * option B → bool) (a : list A) (b : list B)
    : Z := Z.of_nat (count_where q (left_join p a b)).
(** [SELECT COUNT] of the groups of [GROUP BY key HAVING COUNT(..) > 1] *)
Definition count_repeated {A} (key : A → option string) (t : list A) : Z :=
  Z.of_nat (count_where (λ k, (1 <? count_where (λ r, bool_decide (key r = k)) t)%nat)
              (remove_dups (key <$> t))).
Definition blank_column (o : option string) : bool := negb (nonblank_column o).

Definition unmatched {A B} (x : A * option B) : bool :=
  match x.2 with None => true | Some _ => false end.

Section check.
Context `{WireCodec, Idna}.
Variables (s : PeerDb) (owner : string).

Definition owned_registry : list RegistryRow :=
  select_where (λ r, bool_decide (rg_owner r = owner)) (px_registry s).
Definition live_rows (kind : string) : list RegistryRow :=
  select_where (λ r, bool_decide (rg_thread_kind r = kind) && is_live r && is_resolved r)
    owned_registry.
Definition owned_aliases : list ConversationAlias :=
  select_where (λ a, bool_decide (al_owner a = owner)) (rd_aliases (px_read s)).
Definition owned_routes : list DirectPeerRouteRecord :=
  select_where (λ r, bool_decide (dr_owner r = owner)) (px_routes s).
Definition persona_of_route (r : DirectPeerRouteRecord) (x : PeerPersonaRecord) : bool :=
  bool_decide (pp_owner x = dr_owner r)
  && bool_decide (dr_persona_id r = Some (ps_peer_persona_id (pp_persona x))).
Definition registry_of_route (r : DirectPeerRouteRecord) (x : RegistryRow) : bool :=
  registry_row (dr_owner r) (dr_conversation_id r) x && bool_decide (rg_persona_id x = dr_persona_id r)
  && bool_decide (is_Some (dr_persona_id r)) && bool_decide (rg_thread_kind x = "direct"%string)
  && is_live x && is_resolved x.
(** The persona of a route leads back to the route. *)
Definition factory_match (r : DirectPeerRouteRecord) (x : PeerPersonaRecord) : bool :=
  match from_verified_handle (ps_authority_namespace (pp_persona x))
          (ps_authority_subject_id (pp_persona x)) (ps_full_handle (pp_persona x))
          (Some "verified"%string) with
  | Ok p => bool_decide (dr_persona_id r = Some (ps_peer_persona_id p))
            && bool_decide (persona_conversation_id p = dr_conversation_id r)
  | Err _ => false
  end.
Definition route_factory_mismatch_count : Z :=
  Z.of_nat (length (r ← owned_routes;
                    x ← select_where (persona_of_route r) (px_personas s);
                    if factory_match r x then [] else [(r, x)])).

Definition checks : list (string * string * Z) := [
  ("conversation_registry", "one_active_direct_per_persona",
   count_repeated rg_persona_id (live_rows "direct"));
  ("conversation_registry", "one_active_group_per_canonical_did",
   count_repeated rg_group_did (live_rows "group"));
  ("conversation_registry", "resolved_direct_requires_persona",
   Z.of_nat (count_where (λ r, blank_column (rg_persona_id r)) (live_rows "direct")));
  ("conversation_registry", "resolved_group_requires_canonical_did",
   Z.of_nat (count_where (λ r, blank_column (rg_group_did r)) (live_rows "group")));
  ("conversation_registry", "merged_row_requires_target",
   Z.of_nat (count_where (λ r, is_merged r && blank_column (rg_merged_into r)) owned_registry));
  ("conversation_registry", "merged_target_must_exist",
   count_join (λ r x, bool_decide (rg_owner x = rg_owner r)
                      && bool_decide (rg_merged_into r = Some (rg_conversation_id x)))
     unmatched (select_where (λ r, is_merged r && nonblank_column (rg_merged_into r)) owned_registry)
     (px_registry s));
  ("conversation_aliases", "alias_target_must_be_resolved_canonical",
   count_join (λ a x, registry_row (al_owner a) (al_canonical a) x)
     (λ j, match j.2 with None => true | Some x => is_merged x || negb (is_resolved x) end)
     owned_aliases (px_registry s));
  ("conversation_aliases", "alias_target_must_not_be_alias",
   Z.of_nat (length (a ← owned_aliases;
                     select_where (λ b, bool_decide (al_owner b = al_owner a)
                                        && bool_decide (al_alias b = al_canonical a))
                       (rd_aliases (px_read s)))));
  ("direct_peer_routes", "route_persona_must_exist",
   count_join persona_of_route unmatched
     (select_where (λ r, bool_decide (is_Some (dr_persona_id r))) owned_routes) (px_personas s));
  ("direct_peer_routes", "route_registry_must_match_persona",
   count_join registry_of_route unmatched
     (select_where (λ r, bool_decide (is_Some (dr_persona_id r))) owned_routes) (px_registry s));
  ("peer_profiles", "profile_persona_must_exist",
   count_join (λ p x, persona_row (pf_owner p) (pf_persona_id p) x) unmatched
     (select_where (λ p, bool_decide (pf_owner p = owner)) (px_profiles s)) (px_personas s));
  ("messages", "message_canonical_registry_must_exist",
   count_join (λ m x, registry_row (mg_owner_identity_id m) (mg_conversation_id m) x) unmatched
     (select_where (λ m, bool_decide (mg_owner_identity_id m = owner)
                         && negb (is_empty (sql_trim (mg_conversation_id m))))
        (db_messages (rd_db (px_read s)))) (px_registry s));
  ("direct_peer_routes", "route_must_match_persona_factory", route_factory_mismatch_count)]%string.
End check.

Definition check `{WireCodec, Idna} (s : PeerDb) (owner : string)
    : ImResult (list CanonicalInvariantViolation) :=
  let owner := trim owner in
  if is_empty owner then
    Err (invalid_input (Some "owner_identity_id"%string) "owner_identity_id is required")
  else
    Ok ((λ c, mkViolation c.1.1 c.1.2 c.2) <$> filter (λ c, 0 < c.2) (checks s owner)).

(** ** The invariant *)

Section canon.
Context `{WireCodec, Idna}.

Definition live (kind : string) (r : RegistryRow) : Prop :=
  rg_thread_kind r = kind ∧ rg_lifecycle r = "active"%string ∧ rg_resolution r = "resolved"%string.
Definition canonical_row (r : RegistryRow) : Prop :=
  rg_lifecycle r ≠ "merged"%string ∧ rg_resolution r = "resolved"%string.
Definition column (o : option string) (x : string) : Prop :=
  o = Some x ∧ is_empty (sql_trim x) = false.
Definition registry_key (r : RegistryRow) : string * string := (rg_owner r, rg_conversation_id r).
Definition route_key (r : DirectPeerRouteRecord) : string * string := (dr_owner r, dr_conversation_id r).
Definition persona_key (r : PeerPersonaRecord) : string * string :=
  (pp_owner r, ps_peer_persona_id (pp_persona r)).
Definition identifier_key (r : PeerIdentifierRecord) : string * string * string :=
  (pi_owner r, pi_kind r, pi_value r).
Definition alias_key (a : ConversationAlias) : string * string * string :=
  (al_owner a, al_kind a, al_alias a).
Definition has_persona (s : PeerDb) (o id : string) : Prop :=
  ∃ x, x ∈ px_personas s ∧ persona_key x = (o, id).
Definition registered (s : PeerDb) (o c : string) : Prop :=
  ∃ x, x ∈ px_registry s ∧ registry_key x = (o, c).

(** The current DID of a persona is the one its route leads to, and no other. *)
Definition current_ok (s : PeerDb) (o id did : string) : Prop :=
  (∃ i, i ∈ px_identifiers s ∧ of_persona o id i = true ∧ is_did i = true ∧
     pi_value i = did ∧ pi_is_current i = true) ∧
  ∀ i, i ∈ px_identifiers s → of_persona o id i = true → is_did i = true →
    pi_is_current i = true → pi_value i = did.

Definition keys_wf (s : PeerDb) : Prop :=
  NoDup (persona_key <$> px_personas s) ∧ NoDup (identifier_key <$> px_identifiers s) ∧
  NoDup (route_key <$> px_routes s) ∧ NoDup (registry_key <$> px_registry s) ∧
  NoDup (alias_key <$> rd_aliases (px_read s)).

(** The registry. *)
Record registry_wf (s : PeerDb) (o : string) : Prop := {
  rw_direct : ∀ r x p, r ∈ px_registry s → x ∈ px_registry s → rg_owner r = o → rg_owner x = o →
    live "direct" r → live "direct" x → rg_persona_id r = Some p → rg_persona_id x = Some p → r = x;
  rw_group : ∀ r x g, r ∈ px_registry s → x ∈ px_registry s → rg_owner r = o → rg_owner x = o →
    live "group" r → live "group" x → rg_group_did r = Some g → rg_group_did x = Some g → r = x;
  rw_direct_persona : ∀ r, r ∈ px_registry s → rg_owner r = o → live "direct" r →
    ∃ p, column (rg_persona_id r) p;
  rw_group_did : ∀ r, r ∈ px_registry s → rg_owner r = o → live "group" r →
    ∃ g, column (rg_group_did r) g;
  rw_merged : ∀ r, r ∈ px_registry s → rg_owner r = o → rg_lifecycle r = "merged"%string →
    ∃ t, column (rg_merged_into r) t ∧ registered s o t;
  rw_named : ∀ r, r ∈ px_registry s → rg_owner r = o → canonical_row r →
    starts_with (rg_conversation_id r) "dm:did:" = false }.

(** Aliases, routes, profiles, identifiers and messages. *)
Record links_wf (ex : string → Prop) (s : PeerDb) (o : string) : Prop := {
  lw_alias : ∀ a, a ∈ rd_aliases (px_read s) → al_owner a = o →
    ∃ r, r ∈ px_registry s ∧ registry_key r = (o, al_canonical a) ∧ canonical_row r;
  lw_flat : ∀ a b, a ∈ rd_aliases (px_read s) → b ∈ rd_aliases (px_read s) →
    al_owner a = o → al_owner b = o → al_alias b ≠ al_canonical a;
  lw_persona : ∀ r p, r ∈ px_routes s → dr_owner r = o → dr_persona_id r = Some p → has_persona s o p;
  lw_registry : ∀ r p, r ∈ px_routes s → dr_owner r = o → dr_persona_id r = Some p →
    ∃ x, x ∈ px_registry s ∧ registry_key x = (o, dr_conversation_id r) ∧ live "direct" x ∧
      rg_persona_id x = Some p;
  lw_factory : ∀ r x, r ∈ px_routes s → dr_owner r = o → x ∈ px_personas s →
    persona_of_route r x = true → factory_match r x = true;
  lw_profile : ∀ p, p ∈ px_profiles s → pf_owner p = o → has_persona s o (pf_persona_id p);
  lw_identifier : ∀ i, i ∈ px_identifiers s → pi_owner i = o → has_persona s o (pi_persona_id i);
  lw_message : ∀ m, m ∈ db_messages (rd_db (px_read s)) → mg_owner_identity_id m = o →
    is_empty (sql_trim (mg_conversation_id m)) = false → registered s o (mg_conversation_id m);
  lw_current : ∀ r p, r ∈ px_routes s → dr_owner r = o → dr_persona_id r = Some p → ¬ ex p →
    current_ok s o p (dr_current_did r) }.

(** The canonical state of an owner, but for the current DIDs of the personas in [ex]. *)
Record canon (ex : string → Prop) (s : PeerDb) (o : string) : Prop := {
  cn_keys : keys_wf s;
  cn_registry : registry_wf s o;
  cn_links : links_wf ex s o }.
Definition canonical (s : PeerDb) (o : string) : Prop := canon (λ _, False) s o.
End canon.
