(* ===== verification/PeerProps.v ===== *)
(** * Properties of the peer tables *)

From Stdlib Require Import Ascii.
From S2P Require Import Prelude RustStr ImError Decimal Store SyncStore Outbox Wire ReadState ReadBind ReadProps Persona PersonaProps Peers PeerProject PeerCheck.
Local Open Scope Z_scope.

(** ** The diagnostics find nothing in a canonical state *)

Section joins.
Context {A B : Type}.
Implicit Types (p : A → B → bool) (a : list A) (b : list B).

Lemma elem_of_left_join p a b x oy :
  (x, oy) ∈ left_join p a b →
  x ∈ a ∧ match oy with Some y => y ∈ b ∧ p x y = true | None => ∀ y, y ∈ b → p x y = false end.
Proof.
  unfold left_join. intros (z & Hj & Hz)%list_elem_of_bind.
  destruct (select_where (p z) b) as [|y l] eqn:E.
  - apply list_elem_of_singleton in Hj as [= -> ->]. split; [done|]. intros y Hy.
    apply not_true_iff_false. intros Hp.
    assert (y ∈ select_where (p z) b) as Hin by by apply elem_of_select_where. rewrite E in Hin.
    by apply elem_of_nil in Hin.
  - apply list_elem_of_fmap in Hj as (w & [= -> ->] & Hw). split; [done|].
    apply elem_of_select_where. by rewrite E.
Qed.
Lemma count_join_zero p q a b :
  (∀ x y, x ∈ a → y ∈ b → p x y = true → q (x, Some y) = false) →
  (∀ x, x ∈ a → (∃ y, y ∈ b ∧ p x y = true) ∨ q (x, None) = false) →
  count_join p q a b = 0.
Proof.
  intros Hy Hn. unfold count_join. rewrite count_where_none; [done|].
  intros [x [y|]] [Hx Hj]%elem_of_left_join.
  - destruct Hj. by apply Hy.
  - destruct (Hn x Hx) as [(y & Hyb & Hp)|?]; [|done]. by rewrite (Hj y Hyb) in Hp.
Qed.
End joins.

Lemma count_once {A} (p : A → bool) (t : list A) :
  NoDup t → (∀ x y, x ∈ t → y ∈ t → p x = true → p y = true → x = y) → (count_where p t ≤ 1)%nat.
Proof.
  intros Hnd Hone. unfold count_where.
  assert (NoDup (select_where p t)) as Hs by by apply NoDup_filter.
  destruct (select_where p t) as [|x [|y l]] eqn:E; simpl; [lia..|].
  assert (x ∈ select_where p t ∧ y ∈ select_where p t) as [Hx Hy] by (rewrite E; set_solver).
  apply elem_of_select_where in Hx as [? ?], Hy as [? ?].
  apply NoDup_cons in Hs as [Hn _]. destruct Hn. rewrite (Hone x y) by done. left.
Qed.
Lemma count_repeated_zero {A} (key : A → option string) (t : list A) :
  NoDup t → (∀ x y, x ∈ t → y ∈ t → key x = key y → x = y) → count_repeated key t = 0.
Proof.
  intros Hnd Hone. unfold count_repeated. rewrite count_where_none; [done|]. intros k _.
  apply Nat.ltb_ge. apply count_once; [done|]. intros x y Hx Hy Ex%bool_decide_eq_true Ey%bool_decide_eq_true.
  apply Hone; [done..|congruence].
Qed.

Section check.
Context `{WireCodec, Idna}.
Variables (s : PeerDb) (o : string).
Hypothesis (Hcan : canonical s o).

Lemma nodup_of_keys {A K} (f : A → K) (l : list A) : NoDup (f <$> l) → NoDup l.
Proof. apply NoDup_fmap_1. Qed.
Lemma live_rows_spec kind r :
  r ∈ live_rows s o kind ↔ r ∈ px_registry s ∧ rg_owner r = o ∧ live kind r.
Proof.
  unfold live_rows, owned_registry, live, is_live, is_resolved.
  rewrite !elem_of_select_where, !andb_true_iff, !bool_decide_eq_true. tauto.
Qed.
Lemma column_blank c x : column c x → blank_column c = false.
Proof. intros [-> Hx]. unfold blank_column, nonblank_column. simpl. by rewrite Hx. Qed.
Lemma live_nodup kind : NoDup (live_rows s o kind).
Proof.
  destruct Hcan as [(_ & _ & _ & Hk & _) _ _]. apply NoDup_filter, NoDup_filter.
  by apply nodup_of_keys in Hk.
Qed.

Lemma registry_row_true a c r : registry_row a c r = true ↔ registry_key r = (a, c).
Proof. unfold registry_row, registry_key. rewrite andb_true_iff, !bool_decide_eq_true. naive_solver. Qed.
Lemma persona_row_true a c r : persona_row a c r = true ↔ persona_key r = (a, c).
Proof. unfold persona_row, persona_key. rewrite andb_true_iff, !bool_decide_eq_true. naive_solver. Qed.

Lemma registry_checks_pass : Forall (λ c, c.2 = 0) (take 6 (checks s o)).
Proof.
  destruct Hcan as [Hkeys Hreg Hl]. unfold checks. cbn [take].
  repeat apply Forall_cons_2; try apply Forall_nil_2; cbn [snd].
  - apply count_repeated_zero; [apply live_nodup|].
    intros x y (Hx & Ox & Lx)%live_rows_spec (Hy & Oy & Ly)%live_rows_spec E.
    destruct (rw_direct_persona s o Hreg x Hx Ox Lx) as (p & Ep & _).
    apply (rw_direct s o Hreg x y p); congruence.
  - apply count_repeated_zero; [apply live_nodup|].
    intros x y (Hx & Ox & Lx)%live_rows_spec (Hy & Oy & Ly)%live_rows_spec E.
    destruct (rw_group_did s o Hreg x Hx Ox Lx) as (p & Ep & _).
    apply (rw_group s o Hreg x y p); congruence.
  - rewrite count_where_none; [done|]. intros x (Hx & Ox & Lx)%live_rows_spec.
    destruct (rw_direct_persona s o Hreg x Hx Ox Lx) as (p & Hp). by apply column_blank in Hp.
  - rewrite count_where_none; [done|]. intros x (Hx & Ox & Lx)%live_rows_spec.
    destruct (rw_group_did s o Hreg x Hx Ox Lx) as (p & Hp). by apply column_blank in Hp.
  - rewrite count_where_none; [done|]. intros x [Hx Ox]%elem_of_select_where. bool_hyps.
    destruct (is_merged x) eqn:Em; [|done]. unfold is_merged in Em. bool_hyps.
    destruct (rw_merged s o Hreg x Hx Ox Em) as (t & Ht & _). by apply column_blank in Ht.
  - apply count_join_zero; [done|]. intros x [[Hx Ox]%elem_of_select_where Em]%elem_of_select_where.
    left. unfold is_merged in Em. bool_hyps.
    destruct (rw_merged s o Hreg x Hx Ox) as (t & [Et _] & y & Hy & [= Oy Ey]); [done|].
    exists y. split; [done|]. by rewrite !bool_decide_true by congruence.
Qed.
Lemma link_checks_pass : Forall (λ c, c.2 = 0) (drop 6 (checks s o)).
Proof.
  destruct Hcan as [(_ & _ & _ & Hk & _) Hreg Hl]. unfold checks. cbn [drop].
  repeat apply Forall_cons_2; try apply Forall_nil_2; cbn [snd].
  - assert (∀ a, a ∈ owned_aliases s o → ∃ r, r ∈ px_registry s ∧
              registry_key r = (al_owner a, al_canonical a) ∧ canonical_row r) as Ha.
    { intros a [Ha Oa]%elem_of_select_where. bool_hyps. subst. by apply (lw_alias _ s _ Hl). }
    apply count_join_zero; cbn [snd].
    + intros a x (r & Hr & Kr & Cr)%Ha Hx Kx%registry_row_true.
      rewrite (key_inj registry_key _ x r Hk) by congruence. unfold is_merged, is_resolved.
      destruct Cr as [Hm ->]. by rewrite bool_decide_false, bool_decide_true.
    + intros a (r & Hr & Kr & Cr)%Ha. left. exists r. split; [done|]. by apply registry_row_true.
  - match goal with |- Z.of_nat (length ?l) = 0 => destruct l as [|b l'] eqn:E; [done|] end.
    assert (b ∈ (a ← owned_aliases s o; select_where (λ b, bool_decide (al_owner b = al_owner a)
        && bool_decide (al_alias b = al_canonical a)) (rd_aliases (px_read s)))) as Hb by (rewrite E; left).
    apply list_elem_of_bind in Hb as (a & [Hb Eb]%elem_of_select_where & [Ha Oa]%elem_of_select_where).
    bool_hyps. exfalso. eapply (lw_flat _ s o Hl a b); congruence.
  - apply count_join_zero; [done|]. intros r [[Hr Or]%elem_of_select_where [p Hp]%bool_decide_eq_true]%elem_of_select_where.
    bool_hyps. left. destruct (lw_persona _ s o Hl r p Hr Or Hp) as (x & Hx & [= Ox Ex]). exists x.
    split; [done|]. unfold persona_of_route. by rewrite !bool_decide_true by congruence.
  - apply count_join_zero; [done|]. intros r [[Hr Or]%elem_of_select_where [p Hp]%bool_decide_eq_true]%elem_of_select_where.
    bool_hyps. left. destruct (lw_registry _ s o Hl r p Hr Or Hp) as (x & Hx & Kx & (L1 & L2 & L3) & Ep).
    exists x. split; [done|]. unfold registry_of_route, is_live, is_resolved.
    rewrite (proj2 (registry_row_true _ _ _)) by congruence.
    rewrite !bool_decide_true; [done|congruence..| |congruence]. by rewrite Hp.
  - apply count_join_zero; [done|]. intros p [Hp Op]%elem_of_select_where. bool_hyps. left.
    destruct (lw_profile _ s o Hl p Hp Op) as (x & Hx & Kx). exists x. split; [done|].
    apply persona_row_true. congruence.
  - apply count_join_zero; [done|]. intros m [Hm Om]%elem_of_select_where. bool_hyps. left.
    destruct (lw_message _ s o Hl m) as (x & Hx & Kx); [done..|]. exists x. split; [done|].
    apply registry_row_true. congruence.
  - unfold route_factory_mismatch_count.
    match goal with |- Z.of_nat (length ?l) = 0 => destruct l as [|b l'] eqn:E; [done|] end.
    match type of E with ?l = _ => assert (b ∈ l) as Hb by (rewrite E; left) end.
    apply list_elem_of_bind in Hb as (r & Hb & [Hr Or]%elem_of_select_where).
    apply list_elem_of_bind in Hb as (x & Hb & [Hx Px]%elem_of_select_where). bool_hyps.
    rewrite (lw_factory _ s o Hl r x) in Hb by done. by apply elem_of_nil in Hb.
Qed.

Lemma canonical_check : trim o = o → is_empty o = false → check s o = Ok [].
Proof.
  intros Ht He. unfold check. rewrite Ht, He. f_equal.
  assert (filter (λ c : string * string * Z, 0 < c.2) (checks s o) = []) as ->; [|done].
  assert (Forall (λ c : string * string * Z, c.2 = 0) (checks s o)) as Hall.
  { rewrite <- (take_drop 6 (checks s o)). apply Forall_app_2; [apply registry_checks_pass|apply link_checks_pass]. }
  induction Hall as [|c l Hc _ IH]; [done|]. rewrite filter_cons_False by lia. done.
Qed.
End check.

(** ** Changing one table *)

Section tables.
Context `{WireCodec, Idna}.
Implicit Types (s : PeerDb) (o : string) (ex : string → Prop).

Lemma canon_weaken ex ex' s o : (∀ p, ex p → ex' p) → canon ex s o → canon ex' s o.
Proof.
  intros Hex [Hk Hr [? ? ? ? ? ? ? ? Hc]]. split; [done..|]. split; try done.
  intros r p Hr1 Hr2 Hr3 Hn. apply (Hc r p); auto.
Qed.

(** Rows that are the same but for their bookkeeping. *)
Definition same_persona (x y : PeerPersonaRecord) : Prop :=
  pp_owner x = pp_owner y ∧ pp_persona x = pp_persona y.

Lemma canon_personas ex s o t :
  canon ex s o → NoDup (persona_key <$> t) →
  (∀ x, x ∈ px_personas s → ∃ y, y ∈ t ∧ same_persona y x) →
  (∀ y, y ∈ t → (∃ x, x ∈ px_personas s ∧ same_persona y x) ∨
     ∀ x, x ∈ px_personas s → persona_key x ≠ persona_key y) →
  canon ex (with_personas t s) o.
Proof.
  intros [(Kp & Kr) Hr [Ha Hf Hp Hg Hfac Hpf Hi Hm Hc]] Hnd Hold Hnew.
  assert (∀ a c, has_persona s a c → has_persona (with_personas t s) a c) as Hhas.
  { intros a c (x & Hx & Kx). destruct (Hold x Hx) as (y & Hy & [E1 E2]). exists y. split; [done|].
    rewrite <- Kx. unfold persona_key. congruence. }
  split; [split; done|destruct Hr; by split|]. split; try done.
  - intros r p ? ? ?. by eapply Hhas, Hp.
  - intros r y Hrr Or Hy Hry. destruct (Hnew y Hy) as [(x & Hx & E1 & E2)|Hno].
    + assert (factory_match r x = true) as Hx'.
      { apply Hfac; [done..|]. revert Hry. unfold persona_of_route. by rewrite E1, E2. }
      revert Hx'. unfold factory_match. by rewrite E2.
    + exfalso. unfold persona_of_route in Hry. bool_hyps.
      destruct (Hp r (ps_peer_persona_id (pp_persona y))) as (x & Hx & Kx); [done..|].
      apply (Hno x Hx). rewrite Kx. unfold persona_key. congruence.
  - intros p Hp1 Hp2. apply Hhas, Hpf; done.
  - intros i ? ?. by eapply Hhas, Hi.
Qed.

Lemma canon_identifiers ex s o t :
  canon ex s o → NoDup (identifier_key <$> t) →
  (∀ i, i ∈ t → pi_owner i = o → has_persona s o (pi_persona_id i)) →
  (∀ p i, ¬ ex p → of_persona o p i = true → i ∈ t ↔ i ∈ px_identifiers s) →
  canon ex (with_identifiers t s) o.
Proof.
  intros [(Kp & _ & Kr) Hr [Ha Hf Hp Hg Hfac Hpf Hi Hm Hc]] Hnd Hown Hsame.
  split; [split; done|destruct Hr; by split|]. split; try done.
  intros r p Hr1 Hr2 Hr3 Hex. destruct (Hc r p Hr1 Hr2 Hr3 Hex) as [(i & Hin & Hof & Hrest) Hall]. split.
  - exists i. split; [by apply (Hsame p)|done].
  - intros j Hj Hofj. apply Hall; [by apply (Hsame p)|done].
Qed.

Lemma canon_profiles ex s o t :
  canon ex s o → (∀ p, p ∈ t → pf_owner p = o → has_persona s o (pf_persona_id p)) →
  canon ex (with_profiles t s) o.
Proof. intros [Hk [] []] Hp. split; [done|by split|by split]. Qed.
Lemma canon_contacts ex s o t : canon ex s o → canon ex (with_contacts t s) o.
Proof. intros [Hk [] []]. split; [done|by split|by split]. Qed.
Lemma canon_members ex s o t : canon ex s o → canon ex (with_members t s) o.
Proof. intros [Hk [] []]. split; [done|by split|by split]. Qed.

(** Only read states, bindings and the conversations of messages change. *)
Lemma canon_read ex s o r :
  canon ex s o → rd_aliases r = rd_aliases (px_read s) →
  (∀ m, m ∈ db_messages (rd_db r) → mg_owner_identity_id m = o →
     is_empty (sql_trim (mg_conversation_id m)) = false → registered s o (mg_conversation_id m)) →
  canon ex (with_read r s) o.
Proof.
  intros [Hk [] []] Ea Hm. split; [|by split|split; cbn; rewrite ?Ea; done].
  destruct Hk as (?&?&?&?&?). split_and!; cbn; rewrite ?Ea; done.
Qed.

Lemma canon_aliases ex s o t :
  canon ex s o → NoDup (alias_key <$> t) →
  (∀ a, a ∈ t → al_owner a = o → ∃ r, r ∈ px_registry s ∧ registry_key r = (o, al_canonical a) ∧
     canonical_row r) →
  (∀ a b, a ∈ t → b ∈ t → al_owner a = o → al_owner b = o → al_alias b ≠ al_canonical a) →
  canon ex (with_aliases t s) o.
Proof.
  intros [(Kp & Ki & Kr & Kg & _) [] []] Hnd Ht Hf. split; [by split_and!|by split|by split].
Qed.
End tables.

(** ** Personas and identifiers *)

Section identity.
Context `{WireCodec, Idna}.
Implicit Types (s : PeerDb) (o : string) (ex : string → Prop).

Lemma upsert_persona_inv ex s o r s' :
  canon ex s o → upsert_persona s r = Ok s' →
  canon ex s' o ∧ (∃ t, s' = with_personas t s) ∧
  ∃ y, y ∈ px_personas s' ∧ pp_owner y = trim (pp_owner r) ∧
    ps_peer_persona_id (pp_persona y) = ps_peer_persona_id (pp_persona r) ∧
    same_authority (pp_persona y) (pp_persona r) = true.
Proof.
  intros Hc Hu. unfold upsert_persona, identity_conflict, constraint_failed in Hu. cbv zeta in Hu.
  apply bind_Ok in Hu as (_ & _ & Hu). set (key := persona_row _ _) in *.
  pose proof (cn_keys _ _ _ Hc) as (Kp & _). destruct (exists_where key _) eqn:Ex.
  - apply exists_where_true in Ex as (x & Hx & Kx).
    destruct (head (select_where key _)) as [cur|] eqn:Eh; [|done].
    apply head_Some_elem_of, elem_of_select_where in Eh as [Hcur Kcur].
    destruct (same_authority _ _) eqn:Ea; [|done]. injection Hu as <-. split_and!; [|by eexists|].
    + apply canon_personas; [done| | |].
      * rewrite map_update_where; [done|]. by intros.
      * intros y Hy. exists (if key y then merge_persona y
          (mkPersonaRecord (trim (pp_owner r)) (pp_persona r) (pp_binding_generation r)
             (trim (pp_subject_type r)) (trim (pp_source r)) (pp_authority_revision r)
             (trim (pp_verified_at r))) else y).
        split; [apply elem_of_update_where; by exists y|]. by destruct (key y).
      * intros y (x0 & Hx0 & ->)%elem_of_update_where. left. exists x0. split; [done|].
        by destruct (key x0).
    + eexists. split; [apply elem_of_update_where; exists cur; rewrite Kcur; done|].
      apply persona_row_true in Kcur as [= Ko Ki]. done.
  - destruct (exists_where _ _) eqn:Ey in Hu; [done|]. injection Hu as <-. split_and!; [|by eexists|].
    + assert (∀ x, x ∈ px_personas s → persona_key x ≠ (trim (pp_owner r), ps_peer_persona_id (pp_persona r))) as Hne.
      { intros x Hx Kx. apply (proj1 (exists_where_false _ _) Ex) in Hx.
        apply persona_row_true in Kx. fold key in Kx. congruence. }
      apply canon_personas; [done| | |].
      * rewrite fmap_app. apply NoDup_app. split_and!; [done| |apply NoDup_singleton].
        intros k (x & -> & Hx)%list_elem_of_fmap Hk%list_elem_of_singleton. by apply (Hne x).
      * intros x Hx. exists x. split; [apply elem_of_app; by left|done].
      * intros y [Hy| ->%list_elem_of_singleton]%elem_of_app; [left; by exists y|]. right. exact Hne.
    + eexists. split; [apply elem_of_app; right; by apply list_elem_of_singleton|]. split_and!; try done.
      unfold same_authority. by rewrite !bool_decide_true.
Qed.

(** What a binding leaves behind. *)
Record bound (t t' : list PeerIdentifierRecord) (o p kind value : string) (current : bool) : Prop := {
  bd_nodup : NoDup (identifier_key <$> t) → NoDup (identifier_key <$> t');
  bd_row : ∃ i, i ∈ t' ∧ identifier_key i = (o, kind, value);
  bd_mine i : i ∈ t' → identifier_key i = (o, kind, value) →
    pi_persona_id i = p ∧ pi_is_current i = current;
  bd_old i : NoDup (identifier_key <$> t) → i ∈ t → identifier_key i = (o, kind, value) →
    pi_persona_id i = p;
  bd_other i : identifier_key i ≠ (o, kind, value) → i ∈ t' ↔ i ∈ t }.

Lemma identifier_row_true a k v i : identifier_row a k v i = true ↔ identifier_key i = (a, k, v).
Proof.
  unfold identifier_row, identifier_key. rewrite !andb_true_iff, !bool_decide_eq_true. naive_solver.
Qed.

Lemma bind_inv now s r s' :
  bind_identifier now s r = Ok s' →
  NoDup (identifier_key <$> px_identifiers s) →
  ∃ t, s' = with_identifiers t s ∧
    bound (px_identifiers s) t (trim (pi_owner r)) (trim (pi_persona_id r)) (trim (pi_kind r))
      (trim (pi_value r)) (pi_is_current r) ∧
    ((∃ i, i ∈ px_identifiers s ∧
        identifier_key i = (trim (pi_owner r), trim (pi_kind r), trim (pi_value r))) ∨
     has_persona s (trim (pi_owner r)) (trim (pi_persona_id r))).
Proof.
  unfold bind_identifier, identity_conflict, constraint_failed. cbv zeta. intros Hb Hnd.
  apply bind_Ok in Hb as (_ & _ & Hb). destruct (negb _); [done|].
  apply bind_Ok in Hb as (t1 & Ht1 & Hb). set (key := identifier_row _ _ _) in *.
  set (k := (trim (pi_owner r), trim (pi_kind r), trim (pi_value r))).
  assert (∀ i, key i = true ↔ identifier_key i = k) as Hkey by (intros; apply identifier_row_true).
  assert (NoDup (identifier_key <$> t1) ∧ (∃ i, i ∈ t1 ∧ identifier_key i = k) ∧
    (∀ i, identifier_key i ≠ k → i ∈ t1 ↔ i ∈ px_identifiers s) ∧
    (∀ i, i ∈ px_identifiers s → i ∈ t1) ∧
    ((∃ i, i ∈ px_identifiers s ∧ identifier_key i = k) ∨
     has_persona s (trim (pi_owner r)) (trim (pi_persona_id r)))) as (Hnd1 & Hrow & Hother & Hsub & Hor).
  { destruct (exists_where key _) eqn:Ex.
    - injection Ht1 as <-. apply exists_where_true in Ex as (i & Hi & Ki%Hkey). split_and!; eauto.
    - destruct (exists_where _ _) eqn:Ep in Ht1; [|done]. injection Ht1 as <-.
      apply exists_where_true in Ep as (x & Hx & Kx%persona_row_true). split_and!.
      + rewrite fmap_app. apply NoDup_app. split_and!; [done| |apply NoDup_singleton].
        intros z (i & -> & Hi)%list_elem_of_fmap Hz%list_elem_of_singleton.
        apply (proj1 (exists_where_false _ _) Ex) in Hi. by rewrite (proj2 (Hkey i) Hz) in Hi.
      + eexists. split; [apply elem_of_app; right; by apply list_elem_of_singleton|done].
      + intros i Hi. rewrite elem_of_app, list_elem_of_singleton. split; [|auto]. by intros [?| ->].
      + intros i Hi. apply elem_of_app. by left.
      + right. by exists x. }
  destruct (head (select_where key t1)) as [cur|] eqn:Eh; [|done].
  apply head_Some_elem_of, elem_of_select_where in Eh as [Hcur Kcur%Hkey].
  case_bool_decide as Ep; [|done]. injection Hb as <-.
  assert (∀ i, i ∈ t1 → identifier_key i = k → pi_persona_id i = trim (pi_persona_id r)) as Hmine.
  { intros i Hi Ki. rewrite <- Ep. f_equal. by apply (key_inj identifier_key t1); [| | |congruence]. }
  eexists. split; [done|]. split; [|done]. split.
  - intros _. rewrite map_update_where; [done|]. by intros.
  - destruct Hrow as (i & Hi & Ki). eexists. split; [apply elem_of_update_where; exists i; split; [done|]|].
    { reflexivity. } { destruct (key i); exact Ki. }
  - intros i (j & Hj & ->)%elem_of_update_where. destruct (key j) eqn:Ej.
    + intros _. apply Hkey in Ej. split; [by apply (Hmine j)|done].
    + intros Kj. apply Hkey in Kj. congruence.
  - intros i _ Hi Ki. apply Hmine; [by apply Hsub|done].
  - intros i Ki. rewrite <- Hother by done. rewrite elem_of_update_where. split.
    + intros (j & Hj & ->). destruct (key j) eqn:Ej; [|done]. apply Hkey in Ej. by destruct Ki.
    + intros Hi. exists i. split; [done|]. destruct (key i) eqn:Ei; [|done]. by apply Hkey in Ei.
Qed.
End identity.

Section binding.
Context `{WireCodec, Idna}.
Implicit Types (s : PeerDb) (o : string) (ex : string → Prop).

Lemma of_persona_true a p i : of_persona a p i = true ↔ pi_owner i = a ∧ pi_persona_id i = p.
Proof. unfold of_persona. by rewrite andb_true_iff, !bool_decide_eq_true. Qed.

Lemma bind_canon ex now s r s' o :
  canon ex s o → bind_identifier now s r = Ok s' → trim (pi_owner r) = o →
  ex (trim (pi_persona_id r)) →
  canon ex s' o ∧ ∃ t, s' = with_identifiers t s ∧
    bound (px_identifiers s) t o (trim (pi_persona_id r)) (trim (pi_kind r)) (trim (pi_value r))
      (pi_is_current r).
Proof.
  intros Hc Hb Ho Hex. pose proof (cn_keys _ _ _ Hc) as (_ & Ki & _).
  apply bind_inv in Hb as (t & -> & Hbd & Hor); [|done]. rewrite Ho in *.
  split; [|by exists t]. apply canon_identifiers; [done|by apply (bd_nodup _ _ _ _ _ _ _ Hbd)| |].
  - intros i Hi Oi. destruct (decide (identifier_key i = (o, trim (pi_kind r), trim (pi_value r)))) as [Ek|Hk].
    + destruct (bd_mine _ _ _ _ _ _ _ Hbd i Hi Ek) as [-> _].
      destruct Hor as [(j & Hj & Kj)|?]; [|done].
      rewrite <- (bd_old _ _ _ _ _ _ _ Hbd j Ki Hj Kj).
      apply (lw_identifier _ _ _ (cn_links _ _ _ Hc) j Hj). by injection Kj.
    + apply (bd_other _ _ _ _ _ _ _ Hbd i Hk) in Hi. by apply (lw_identifier _ _ _ (cn_links _ _ _ Hc)).
  - intros p i Hp [Oi Pi]%of_persona_true.
    destruct (decide (identifier_key i = (o, trim (pi_kind r), trim (pi_value r)))) as [Ek|Hk].
    + split; intros Hi; exfalso; apply Hp; rewrite <- Pi.
      * by destruct (bd_mine _ _ _ _ _ _ _ Hbd i Hi Ek) as [-> _].
      * by rewrite (bd_old _ _ _ _ _ _ _ Hbd i Ki Hi Ek).
    + apply (bd_other _ _ _ _ _ _ _ Hbd i Hk).
Qed.

Lemma update_identifiers_canon ex s o p (q : PeerIdentifierRecord → bool) f :
  canon ex s o → ex p → (∀ i, q i = true → of_persona o p i = true) →
  (∀ i, identifier_key (f i) = identifier_key i ∧ pi_persona_id (f i) = pi_persona_id i) →
  canon ex (with_identifiers (update_where q f (px_identifiers s)) s) o.
Proof.
  intros Hc Hex Hq Hf. pose proof (cn_keys _ _ _ Hc) as (_ & Ki & _).
  apply canon_identifiers; [done| | |].
  - rewrite map_update_where; [done|]. intros i. destruct (Hf i). done.
  - intros i (j & Hj & ->)%elem_of_update_where Oi.
    assert (pi_owner j = o) as Oj.
    { destruct (q j); [|done]. destruct (Hf j) as [E _]. unfold identifier_key in E. congruence. }
    pose proof (lw_identifier _ _ _ (cn_links _ _ _ Hc) j Hj Oj) as Hh.
    destruct (q j); [|done]. by destruct (Hf j) as [_ ->].
  - intros p' i Hp Hof. assert (∀ j, q j = true → pi_persona_id j ≠ p') as Hne.
    { intros j [_ <-]%Hq%of_persona_true E. apply Hp. by rewrite <- E. }
    apply of_persona_true in Hof as [_ Hof]. rewrite elem_of_update_where. split.
    + intros (j & Hj & ->). destruct (q j) eqn:Ej; [|done]. destruct (Hf j) as [_ E].
      exfalso. apply (Hne j Ej). congruence.
    + intros Hi. exists i. split; [done|]. destruct (q i) eqn:Ei; [|done]. by destruct (Hne i Ei).
Qed.
Lemma retire_canon ex s o p did : canon ex s o → ex p → canon ex (retire_other_dids o p did s) o.
Proof.
  intros Hc Hex. apply (update_identifiers_canon _ _ _ p); [done..| |done].
  intros i Hi. by bool_hyps.
Qed.
End binding.

(** ** A route and its conversation *)

Lemma drop_spaces_end l a : a ≠ " "%char → drop_spaces (l ++ [a]) ≠ [].
Proof.
  intros Ha. induction l as [|b l IH]; cbn; [by destruct (ascii_dec a " ")|].
  by destruct (ascii_dec b " ").
Qed.
Lemma sql_trim_head a s : a ≠ " "%char → is_empty (sql_trim (String a s)) = false.
Proof.
  intros Ha. unfold is_empty, sql_trim. apply bool_decide_eq_false. intros E.
  apply (f_equal bytes) in E. rewrite bytes_of_bytes in E.
  assert (drop_spaces (bytes (String a s)) = a :: bytes s) as Ed.
  { cbn. by destruct (ascii_dec a " "). }
  rewrite Ed, reverse_cons in E. cbn in E. apply (f_equal length) in E. rewrite length_reverse in E.
  destruct (drop_spaces (reverse (bytes s) ++ [a])) eqn:Ex; [|done]. by apply drop_spaces_end in Ex.
Qed.

(** A table in which the row of one key is [x]. *)
Definition placed {A K} (key : A → K) (x : A) (t t' : list A) : Prop :=
  ∀ y, y ∈ t' ↔ (y ∈ t ∧ key y ≠ key x) ∨ y = x.
Lemma placed_put {A K} `{EqDecision K} (key : A → K) (p : A → bool) f x t :
  (∀ y, p y = true ↔ key y = key x) → (∀ y, p y = true → f y = x) →
  NoDup (key <$> t) →
  let t' := if exists_where p t then update_where p f t else t ++ [x] in
  NoDup (key <$> t') ∧ placed key x t t'.
Proof.
  intros Hp Hf Hnd. cbv zeta. destruct (exists_where p t) eqn:Ex.
  - split.
    + rewrite map_update_where; [done|]. intros y _ Py. rewrite (Hf y Py). symmetry. by apply Hp.
    + intros y. rewrite elem_of_update_where. split.
      * intros (z & Hz & ->). destruct (p z) eqn:Ez; [right; auto|left]. split; [done|].
        intros Ek%Hp. congruence.
      * intros [[Hy Hne]| ->].
        -- exists y. split; [done|]. destruct (p y) eqn:Ey; [|done]. by apply Hp in Ey.
        -- apply exists_where_true in Ex as (z & Hz & Pz). exists z. rewrite Pz.
           split; [done|]. symmetry. auto.
  - assert (∀ y, y ∈ t → key y ≠ key x) as Hne.
    { intros y Hy E%Hp. apply (proj1 (exists_where_false _ _) Ex) in Hy. congruence. }
    split.
    + rewrite fmap_app. apply NoDup_app. split_and!; [done| |apply NoDup_singleton].
      intros k (y & -> & Hy)%list_elem_of_fmap Hk%list_elem_of_singleton. by apply (Hne y).
    + intros y. rewrite elem_of_app, list_elem_of_singleton. naive_solver.
Qed.

Section routes.
Context `{WireCodec, Idna}.
Implicit Types (s : PeerDb) (o : string) (ex : string → Prop).

Lemma route_row_true a c r : route_row a c r = true ↔ route_key r = (a, c).
Proof. unfold route_row, route_key. rewrite andb_true_iff, !bool_decide_eq_true. naive_solver. Qed.

Lemma upsert_route_inv s r s' p n :
  upsert_route s r = Ok s' → dr_persona_id r = Some p → dr_authority_namespace r = Some n →
  NoDup (route_key <$> px_routes s) →
  ∃ t, s' = with_routes t s ∧ NoDup (route_key <$> t) ∧ placed route_key r (px_routes s) t.
Proof.
  unfold upsert_route, constraint_failed. cbv zeta. intros Hu Ep En Hnd.
  apply bind_Ok in Hu as (_ & _ & Hu). destruct (exists_where _ _) in Hu; [done|]. injection Hu as <-.
  eexists. split; [done|]. apply placed_put; [intros y; by rewrite route_row_true| |done].
  intros y [= Ko Kc]%route_row_true. unfold merge_route. rewrite Ep, En. cbn.
  destruct r; cbn in *; congruence.
Qed.

(** The row a conversation gets. *)
Definition ensured s (r : ConversationRegistryRecord) : RegistryRow :=
  let '(persona, group_did, resolution) := canonical_identity_for_record s r in
  let new := mkRegistry (cr_owner r) (cr_owner_did r) (cr_conversation_id r) (cr_thread_kind r)
               (cr_thread_id r) (cr_activity_at r) (cr_activity_at r) true false persona group_did
               "active" resolution None in
  match head (select_where (registry_row (cr_owner r) (cr_conversation_id r)) (px_registry s)) with
  | Some cur => merge_registry cur new
  | None => new
  end.
Lemma ensure_inv s r s' :
  ensure_conversation s r = Ok s' → NoDup (registry_key <$> px_registry s) →
  ∃ t, s' = with_registry t s ∧ NoDup (registry_key <$> t) ∧
    registry_key (ensured s r) = (cr_owner r, cr_conversation_id r) ∧
    placed registry_key (ensured s r) (px_registry s) t ∧
    ∀ x, x ∈ px_registry s → registry_key x ≠ (cr_owner r, cr_conversation_id r) →
      index_conflict (ensured s r) x = false.
Proof.
  unfold ensure_conversation, put_registry, constraint_failed. cbv zeta. intros He Hnd.
  apply bind_Ok in He as (_ & _ & He).
  assert (registry_key (ensured s r) = (cr_owner r, cr_conversation_id r)) as Hkey.
  { unfold ensured. destruct (canonical_identity_for_record s r) as [[a b] c].
    destruct (head _) as [cur|] eqn:Eh; [|done].
    apply head_Some_elem_of, elem_of_select_where in Eh as [_ Hk%registry_row_true]. exact Hk. }
  unfold ensured in *. destruct (canonical_identity_for_record s r) as [[a b] c].
  set (row := match head _ with Some _ => _ | None => _ end) in *.
  destruct (exists_where _ _) eqn:Ec in He; [done|]. injection He as <-.
  eexists. split; [done|]. rewrite Hkey.
  destruct (placed_put registry_key (registry_row (cr_owner r) (cr_conversation_id r)) (λ _, row) row
              (px_registry s)) as [Hn Hp]; [|done|done|].
  { intros y. by rewrite registry_row_true, Hkey. }
  split_and!; [done|done|exact Hp|]. intros x Hx Hne.
  apply (proj1 (exists_where_false _ _) Ec) in Hx. destruct (registry_row _ _ x) eqn:Ex; [|done].
  by apply registry_row_true in Ex.
Qed.
End routes.

(** ** A persona's route and conversation *)

Section place.
Context `{WireCodec, Idna}.
Variables (ex : string → Prop) (s : PeerDb) (o : string).
Variables (p : PeerPersona) (route : DirectPeerRouteRecord) (record : ConversationRegistryRecord).
Variables (s1 s2 : PeerDb).
Notation conv := (persona_conversation_id p).
Notation id := (ps_peer_persona_id p).

Hypothesis (Hcan : canon ex s o) (Hex : ex id).
(** The persona is stored and stable. *)
Hypothesis (Hstored : ∃ y, y ∈ px_personas s ∧ pp_owner y = o ∧ pp_persona y = p).
Hypothesis (Hstable : from_verified_handle (ps_authority_namespace p) (ps_authority_subject_id p)
                        (ps_full_handle p) (Some "verified"%string) = Ok p).
Hypothesis (Hid : is_empty (sql_trim id) = false).
(** The route and the conversation are those of the persona. *)
Hypothesis (Hroute : dr_owner route = o ∧ dr_conversation_id route = conv ∧
                     dr_persona_id route = Some id ∧ is_Some (dr_authority_namespace route)).
Hypothesis (Hrecord : cr_owner record = o ∧ cr_conversation_id record = conv ∧
                      cr_thread_kind record = "direct"%string).
Hypothesis (Hput : upsert_route s route = Ok s1) (Hensure : ensure_conversation s1 record = Ok s2).
(** The conversation turned out to be canonical. *)
Hypothesis (Hok : ∃ r, r ∈ px_registry s2 ∧ registry_key r = (o, conv) ∧ canonical_row r).

Lemma conv_named : starts_with conv "dm:did:" = false.
Proof. unfold persona_conversation_id, direct_conversation_id_for_peer_scope. done. Qed.

Lemma route_table : NoDup (route_key <$> px_routes s1) ∧ placed route_key route (px_routes s) (px_routes s1) ∧
  s1 = with_routes (px_routes s1) s.
Proof.
  pose proof Hroute as (_ & _ & Ep & [n En]). pose proof (cn_keys _ _ _ Hcan) as (_ & _ & Kr & _).
  destruct (upsert_route_inv _ _ _ _ _ Hput Ep En Kr) as (t & -> & ? & ?). by split_and!.
Qed.

Notation row := (ensured s1 record).
Lemma registry_table : NoDup (registry_key <$> px_registry s2) ∧ registry_key row = (o, conv) ∧
  placed registry_key row (px_registry s) (px_registry s2) ∧
  (∀ x, x ∈ px_registry s → registry_key x ≠ (o, conv) → index_conflict row x = false) ∧
  s2 = with_registry (px_registry s2) s1.
Proof.
  pose proof Hrecord as (Eo & Ec & _). destruct route_table as (_ & _ & Es1).
  assert (px_registry s1 = px_registry s) as Er by by rewrite Es1.
  pose proof (cn_keys _ _ _ Hcan) as (_ & _ & _ & Kg & _). rewrite <- Er in Kg.
  destruct (ensure_inv _ _ _ Hensure Kg) as (t & Es2 & ? & ? & ? & ?). rewrite Er, Eo, Ec in *.
  by rewrite Es2; split_and!.
Qed.

Lemma row_live : live "direct" row ∧ rg_persona_id row = Some id.
Proof.
  destruct registry_table as (Hnd & Krow & Hpl & _ & _). pose proof Hok as (r & Hr & Kr & Cm & Cr).
  assert (r = row) as ->.
  { apply (key_inj registry_key (px_registry s2)); [done..| |congruence]. apply Hpl. by right. }
  revert Cm Cr. unfold ensured. destruct route_table as (Hnr & Hplr & _).
  pose proof Hroute as (Ro & Rc & Rp & _). pose proof Hrecord as (Eo & Ec & Ek).
  assert (canonical_identity_for_record s1 record = (Some id, None, "resolved"%string)) as ->.
  { unfold canonical_identity_for_record. rewrite Eo, Ec, Ek. cbn [bool_decide]. rewrite bool_decide_false by done.
    rewrite bool_decide_true by done.
    destruct (head_select (λ x, route_row o conv x && nonblank_column (dr_persona_id x)) (px_routes s1)
                (λ x, x = route) route) as (x & -> & ->).
    - apply Hplr. by right.
    - rewrite (proj2 (route_row_true _ _ _)) by (unfold route_key; congruence).
      rewrite Rp. unfold nonblank_column. simpl. by rewrite Hid.
    - intros x Hx Kx. bool_hyps. apply (key_inj route_key (px_routes s1)); [done..|apply Hplr; by right|].
      match goal with H : route_row _ _ x = true |- _ => apply route_row_true in H; rewrite H end.
      unfold route_key. congruence.
    - by rewrite Rp. }
  rewrite Ek. unfold live, merge_registry. destruct (head _) as [cur|];
    cbn [rg_thread_kind rg_lifecycle rg_resolution rg_persona_id coalesce].
  - destruct (is_merged cur); [done|]. intros _ Cr. split; [|done]. split_and!; [done..|].
    case_bool_decide; done.
  - intros _ _. done.
Qed.

Lemma registered_kept c : registered s o c → registered s2 o c.
Proof.
  destruct registry_table as (_ & Krow & Hpl & _ & _). intros (x & Hx & Kx).
  destruct (decide (registry_key x = (o, conv))) as [E|Hne].
  - exists row. split; [apply Hpl; by right|congruence].
  - exists x. split; [apply Hpl; left; split; [done|congruence]|done].
Qed.

Lemma place_registry : registry_wf s2 o.
Proof.
  destruct (cn_registry _ _ _ Hcan) as [Rd Rg Rp Rgd Rm Rn].
  destruct registry_table as (Hnd & Krow & Hpl & Hic & _).
  destruct row_live as [(Lk & Ll & Lr) Lp].
  assert (∀ x q, x ∈ px_registry s → registry_key x ≠ registry_key row → rg_owner x = o →
            live "direct" x → rg_persona_id x = Some q → q ≠ id) as Hclash.
  { intros x q Hx Hne Ox (Xk & Xl & Xr) Xp ->. rewrite Krow in Hne. specialize (Hic x Hx Hne).
    unfold index_conflict, is_live, is_resolved in Hic. injection Krow as Orow _.
    rewrite Lk, Ll, Lr, Xk, Xl, Xr, Xp, Lp, Ox, Orow in Hic. by rewrite !bool_decide_true in Hic by done. }
  split.
  - intros r x q [[Hr Nr]| ->]%Hpl [[Hx Nx]| ->]%Hpl Or Ox Lvr Lvx Pr Px; [by eapply Rd| | |done].
    + exfalso. eapply (Hclash r); try done. congruence.
    + exfalso. eapply (Hclash x); try done. congruence.
  - intros r x g [[Hr Nr]| ->]%Hpl [[Hx Nx]| ->]%Hpl Or Ox Lvr Lvx Pr Px; [by eapply Rg| | |done];
      exfalso; [destruct Lvx|destruct Lvr]; congruence.
  - intros r [[Hr _]| ->]%Hpl Or Lr'; [by apply Rp|]. exists id. by split.
  - intros r [[Hr _]| ->]%Hpl Or Lr'; [by apply Rgd|]. destruct Lr'. congruence.
  - intros r [[Hr _]| ->]%Hpl Or Lr'; [|congruence].
    destruct (Rm r Hr Or Lr') as (t & Ht & Hreg). exists t. split; [done|]. by apply registered_kept.
  - intros r [[Hr _]| ->]%Hpl Or Cr; [by apply Rn|]. injection Krow as _ ->. apply conv_named.
Qed.

Lemma place_canon : canon ex s2 o.
Proof.
  pose proof Hcan as [(Kp & Ki & _ & _ & Ka) Hreg [La Lf Lp Lg Lfac Lpf Li Lm Lc]].
  destruct route_table as (Hnr & Hplr & Es1). destruct registry_table as (Hnd & Krow & Hpl & Hic & Es2).
  destruct row_live as [Lv Lvp]. pose proof Hroute as (Ro & Rc & Rp & _).
  assert (px_personas s2 = px_personas s ∧ px_identifiers s2 = px_identifiers s ∧
          px_profiles s2 = px_profiles s ∧ px_read s2 = px_read s ∧ px_routes s2 = px_routes s1)
    as (Ep & Ei & Epf & Er & Ert) by (rewrite Es2; cbn; rewrite Es1; done).
  assert (∀ a c, has_persona s2 a c ↔ has_persona s a c) as Hhas by (unfold has_persona; by rewrite Ep).
  pose proof Hstored as (y & Hy & Oy & Py).
  assert (has_persona s o id) as Hhid by (exists y; split; [done|unfold persona_key; congruence]).
  split; [|apply place_registry|].
  { unfold keys_wf. rewrite Ep, Ei, Er, Ert. by split_and!. }
  assert (∀ r q, r ∈ px_routes s2 → dr_owner r = o → dr_persona_id r = Some q →
            (r = route ∧ q = id) ∨ (r ∈ px_routes s ∧ dr_conversation_id r ≠ conv)) as Hcase.
  { intros r q Hr Or Hq. rewrite Ert in Hr. apply Hplr in Hr as [[Hr Hne]| ->].
    - right. split; [done|]. intros E. apply Hne. unfold route_key. congruence.
    - left. split; [done|congruence]. }
  split.
  - rewrite Er. intros a Ha Oa. destruct (La a Ha Oa) as (r & Hr & Kr & Cr).
    destruct (decide (registry_key r = (o, conv))) as [E|Hne].
    + exists row. split_and!; [apply Hpl; by right|congruence|]. destruct Lv as (_ & E1 & E2). unfold canonical_row. by rewrite E1, E2.
    + exists r. split_and!; [apply Hpl; left; split; [done|congruence]|done..].
  - rewrite Er. done.
  - intros r q Hr Or Hq. apply Hhas. destruct (Hcase r q Hr Or Hq) as [[_ ->]|[? _]]; [done|by eapply Lp].
  - intros r q Hr Or Hq. destruct (Hcase r q Hr Or Hq) as [[-> ->]|[Hr' Hne]].
    + exists row. rewrite Rc. split_and!; [apply Hpl; by right|done..].
    + destruct (Lg r q Hr' Or Hq) as (x & Hx & Kx & ?). exists x.
      split; [|done]. apply Hpl. left. split; [done|]. rewrite Kx, Krow. congruence.
  - rewrite Ep. intros r x Hr Or Hx Hrx. unfold persona_of_route in Hrx. bool_hyps.
    destruct (Hcase r _ Hr Or ltac:(eassumption)) as [[-> Eq]|[Hr' Hne]].
    + assert (x = y) as ->. { apply (key_inj persona_key (px_personas s)); [done..|]. unfold persona_key. congruence. }
      unfold factory_match. rewrite Py, Hstable, Rp, Rc. by rewrite !bool_decide_true.
    + apply Lfac; [done..|]. unfold persona_of_route. by rewrite !bool_decide_true.
  - rewrite Epf. intros q Hq Oq. apply Hhas. auto.
  - rewrite Ei. intros i Hi Oi. apply Hhas. auto.
  - rewrite Er. intros m Hm Om Hne. apply registered_kept. auto.
  - intros r q Hr Or Hq Hnex. destruct (Hcase r q Hr Or Hq) as [[_ ->]|[Hr' _]]; [done|].
    unfold current_ok. rewrite Ei. by apply (Lc r q).
Qed.
End place.
