(* ===== verification/SummaryProps.v ===== *)
(** * What a rebuild computes

    The counts of a rebuild are numbers of rows, its first mention the first of the sorted
    rows that is one, and its last message the greatest by the order of messages: lemmas on
    [tally], then on the row a rebuild writes and on the rebuild of the whole table. *)

From Stdlib Require Import Ascii.
From S2P Require Import Prelude RustStr ImError Decimal Store SyncStore Outbox Wire Lanes ReadState ReadBind ReadIds ReadProps Persona Peers PeerProps Summaries SummaryOrder.
Local Open Scope Z_scope.

Lemma select_cons {A} (p : A → bool) x l :
  select_where p (x :: l) = if p x then x :: select_where p l else select_where p l.
Proof. unfold select_where. rewrite filter_cons. by destruct (p x). Qed.
Lemma select_app {A} (p : A → bool) l l' :
  select_where p (l ++ l') = select_where p l ++ select_where p l'.
Proof. unfold select_where. by rewrite filter_app. Qed.
Lemma count_cons {A} (p : A → bool) x l :
  Z.of_nat (count_where p (x :: l)) = (if p x then 1 else 0) + Z.of_nat (count_where p l).
Proof. unfold count_where. rewrite select_cons. destruct (p x); cbn [length]; lia. Qed.
Lemma count_perm {A} (p : A → bool) l l' : l ≡ₚ l' → count_where p l = count_where p l'.
Proof. intros Hp. unfold count_where. by apply Permutation_length, select_perm. Qed.
Lemma select_select {A} (p q : A → bool) l :
  select_where p (select_where q l) = select_where (λ x, q x && p x) l.
Proof.
  induction l as [|x l IH]; [done|]. rewrite !select_cons. destruct (q x); cbn [andb]; [|done].
  rewrite select_cons. by destruct (p x); rewrite IH.
Qed.

Section tally.
Context `{WireCodec, JsonText}.
Implicit Types (l : list SummaryMessageRow) (r x y : SummaryMessageRow) (t : Tally).

Definition counted_unread r : bool := contributes_to_summary r && is_unread_incoming r.
Definition counted_mention r : bool := contributes_to_summary r && is_unread_mention r.
Definition later (current : option SummaryMessageRow) r : option SummaryMessageRow :=
  match current with
  | None => Some r
  | Some c => if message_is_later_than_message r c then Some r else current
  end.

Lemma tally_counts l t :
  let t' := fold_left tally_row l t in
  ta_message_count t' = ta_message_count t + Z.of_nat (count_where contributes_to_summary l) ∧
  ta_unread_count t' = ta_unread_count t + Z.of_nat (count_where counted_unread l) ∧
  ta_unread_mention_count t'
  = ta_unread_mention_count t + Z.of_nat (count_where counted_mention l) ∧
  ta_last t' = fold_left later (select_where contributes_to_summary l) (ta_last t).
Proof.
  cbv zeta. revert t. induction l as [|r l IH]; intros t; [cbn; split_and!; try done; lia|].
  cbn [fold_left]. destruct (IH (tally_row t r)) as (-> & -> & -> & ->).
  rewrite !count_cons, select_cons. unfold tally_row, counted_unread, counted_mention, is_unread_mention.
  destruct (contributes_to_summary r); cbn [negb andb]; [|split_and!; lia || done].
  cbn [ta_message_count ta_unread_count ta_unread_mention_count ta_last fold_left later].
  destruct (is_unread_incoming r), (sm_mentions_current_user r); cbn [andb];
    split_and!; lia || by destruct (ta_last t).
Qed.

Definition named (l : list SummaryMessageRow) : Prop := ∀ r, r ∈ l → sm_msg_id r ≠ EmptyString.
Lemma tally_first l t :
  named l →
  ta_first_unread_mention (fold_left tally_row l t)
  = if is_empty (ta_first_unread_mention t)
    then default (ta_first_unread_mention t) (sm_msg_id <$> head (select_where counted_mention l))
    else ta_first_unread_mention t.
Proof.
  revert t. induction l as [|r l IH]; intros t Hn; [cbn; by destruct (is_empty _)|].
  assert (named l) as Hn' by (intros y Hy; apply Hn; by right).
  assert (is_empty (sm_msg_id r) = false) as Hr.
  { pose proof (Hn r (list_elem_of_here r l)) as Hne. by destruct (sm_msg_id r). }
  cbn [fold_left]. rewrite (IH _ Hn'), select_cons.
  unfold tally_row, counted_mention, is_unread_mention.
  destruct (contributes_to_summary r); cbn [negb andb]; [|done].
  cbn [ta_first_unread_mention].
  destruct (is_unread_incoming r && sm_mentions_current_user r); cbn [andb]; [|done].
  destruct (is_empty (ta_first_unread_mention t)) eqn:E; [|by rewrite E]. by rewrite Hr.
Qed.

(** ** The last message *)

Definition is_last l x : Prop := x ∈ l ∧ ∀ y, y ∈ l → key_cmp (key_of y) (key_of x) ≠ Gt.

#[export] Instance key_total : TotalCmp key_cmp.
Proof. unfold key_cmp. apply _. Qed.
Lemma key_same_id x y : key_of x = key_of y → sm_msg_id x = sm_msg_id y.
Proof. intros E. by apply (f_equal snd) in E. Qed.

Lemma is_last_later l b c :
  is_last l c → is_last (b :: l) (if message_is_later_than_message b c then b else c).
Proof.
  intros [Hc Hmax]. unfold message_is_later_than_message. case_bool_decide as Hb.
  - split; [by left|]. intros y [->|Hy]%elem_of_cons; [by rewrite cmp_refl by apply _|].
    apply (cmp_gt_lt key_cmp) in Hb. intros Hgt%(cmp_gt_lt key_cmp).
    pose proof (cmp_lt_trans _ _ _ Hb Hgt) as Hlt. apply (cmp_gt_lt key_cmp) in Hlt.
    by apply (Hmax y).
  - split; [by right|]. intros y [->|Hy]%elem_of_cons; [done|by apply Hmax].
Qed.
Lemma fold_later l c : ∃ x, fold_left later l (Some c) = Some x ∧ is_last (c :: l) x.
Proof.
  revert c. induction l as [|r l IH]; intros c.
  - exists c. split; [done|]. split; [by left|]. intros y ->%list_elem_of_singleton.
    by rewrite cmp_refl by apply _.
  - cbn [fold_left later].
    assert (is_last [c] c) as H1.
    { split; [by left|]. intros y ->%list_elem_of_singleton. by rewrite cmp_refl by apply _. }
    pose proof (is_last_later [c] r c H1) as [_ Hm].
    destruct (message_is_later_than_message r c).
    + destruct (IH r) as (x & -> & Hx & Hmax). exists x. split; [done|]. split; [by right|].
      intros y [->|Hy]%elem_of_cons; [|by apply Hmax].
      apply (le_of_trans key_cmp _ (key_of r)); [apply Hm; by right; left|apply Hmax; by left].
    + destruct (IH c) as (x & -> & Hx & Hmax). exists x. split; [done|]. split.
      * apply elem_of_cons in Hx as [->|Hx]; [by left|by right; right].
      * intros y [->|[->|Hy]%elem_of_cons]%elem_of_cons; [apply Hmax; by left| |apply Hmax; by right].
        apply (le_of_trans key_cmp _ (key_of c)); [apply Hm; by left|apply Hmax; by left].
Qed.

Lemma is_last_unique l x y : NoDup (sm_msg_id <$> l) → is_last l x → is_last l y → x = y.
Proof.
  intros Hnd [Hx Mx] [Hy My]. apply (key_inj sm_msg_id l x y Hnd Hx Hy), key_same_id.
  apply (le_of_antisymm key_cmp); [by apply My|by apply Mx].
Qed.
Lemma is_last_perm l l' x : l ≡ₚ l' → is_last l x → is_last l' x.
Proof.
  intros Hp [Hx Hmax]. split; [by rewrite <- Hp|]. intros y Hy. apply Hmax. by rewrite Hp.
Qed.
Lemma is_last_swap l a b c :
  is_last (a :: l) c → c ≠ a → message_is_later_than_message b c = false → is_last (b :: l) c.
Proof.
  intros [Hc Hmax] Hne Hb%bool_decide_eq_false. apply elem_of_cons in Hc as [|Hc]; [done|].
  split; [by right|]. intros y [->|Hy]%elem_of_cons; [done|]. apply Hmax. by right.
Qed.

Lemma tally_last l :
  match ta_last (tally l) with
  | None => select_where contributes_to_summary l = []
  | Some x => is_last (select_where contributes_to_summary l) x
  end.
Proof.
  unfold tally. destruct (tally_counts l (mkTally 0 0 0 "" None)) as (_ & _ & _ & ->).
  cbn [ta_last]. destruct (select_where _ l) as [|c k]; [done|]. cbn [fold_left later].
  by destruct (fold_later k c) as (x & -> & Hx).
Qed.
Lemma tally_last_is l x :
  NoDup (sm_msg_id <$> select_where contributes_to_summary l) →
  is_last (select_where contributes_to_summary l) x → ta_last (tally l) = Some x.
Proof.
  intros Hnd Hx. pose proof (tally_last l) as Hl. destruct (ta_last (tally l)) as [y|].
  - f_equal. by apply (is_last_unique _ _ _ Hnd).
  - rewrite Hl in Hx. destruct Hx as [Hx _]. by apply not_elem_of_nil in Hx.
Qed.

(** A rebuild looks at the rows that count, in their order. *)
Lemma tally_ext l l' :
  named l → named l' →
  select_where contributes_to_summary l = select_where contributes_to_summary l' → tally l = tally l'.
Proof.
  intros Hn Hn' E. unfold tally.
  pose proof (tally_counts l (mkTally 0 0 0 "" None)) as (C1 & C2 & C3 & C4).
  pose proof (tally_counts l' (mkTally 0 0 0 "" None)) as (D1 & D2 & D3 & D4).
  pose proof (tally_first l (mkTally 0 0 0 "" None) Hn) as C5.
  pose proof (tally_first l' (mkTally 0 0 0 "" None) Hn') as D5.
  assert (∀ q, select_where (λ r, contributes_to_summary r && q r) l
               = select_where (λ r, contributes_to_summary r && q r) l') as Hq.
  { intros q. by rewrite <- !select_select, E. }
  assert (∀ q, count_where (λ r, contributes_to_summary r && q r) l
               = count_where (λ r, contributes_to_summary r && q r) l') as Hc.
  { intros q. unfold count_where. by rewrite Hq. }
  unfold counted_mention in *. rewrite Hq in C5. unfold counted_unread in *. rewrite Hc in C2, C3.
  unfold count_where in C1, D1. rewrite E in C1, C4.
  destruct (fold_left tally_row l _), (fold_left tally_row l' _). cbn in *. congruence.
Qed.
End tally.

(** ** Tidy texts *)

Definition tidy_text (x : string) : Prop := trim x = x ∧ x ≠ EmptyString.
Lemma trim_space s : trim (String " "%char s) ≠ String " "%char s.
Proof.
  intros E. apply (f_equal bytes) in E. unfold trim in E. rewrite bytes_of_bytes in E.
  destruct (strip_end_prefix (strip_start (bytes (String " "%char s)))) as [k Hk].
  destruct (strip_spec ws1 ws2 ws3 (bytes s)) as [_ [p Hp]].
  assert (strip_start (bytes (String " "%char s)) = strip_start (bytes s)) as Es by done.
  rewrite E, Es in Hk. unfold strip_start in Hk. rewrite Hk in Hp.
  apply (f_equal length) in Hp. rewrite !length_app in Hp. unfold bytes in Hp. cbn in Hp. lia.
Qed.
Lemma tidy_sql x : tidy_text x → is_empty (sql_trim x) = false.
Proof.
  intros [Ht Hne]. destruct x as [|a x]; [done|]. apply sql_trim_head. intros ->.
  by apply trim_space in Ht.
Qed.
Lemma tidy_required f x : tidy_text x → read_required f x = Ok x.
Proof.
  intros [Ht Hne]. unfold read_required. rewrite Ht. unfold is_empty. by rewrite bool_decide_eq_false_2.
Qed.
Lemma tidy_not_empty x : tidy_text x → is_empty (trim x) = false.
Proof. intros [-> Hne]. unfold is_empty. by apply bool_decide_eq_false_2. Qed.
Lemma nullable_again x : nullable_text (default EmptyString (nullable_text x)) = nullable_text x.
Proof.
  unfold nullable_text. destruct (is_empty (trim x)) eqn:E; [done|]. cbn [default from_option id].
  by rewrite trim_idem, E.
Qed.

(** ** The summary of a conversation *)

Definition summary_at (s : PeerDb) (o c : string) : option SummaryRow :=
  head (select_where (summary_row o c) (px_summaries s)).
(** A summary without the time it was written. *)
Definition core (x : SummaryRow) : SummaryRow :=
  mkSummaryRow (su_owner x) (su_owner_did x) (su_conversation_id x) (su_thread_id x)
    (su_message_count x) (su_unread_count x) (su_unread_mention_count x)
    (su_first_unread_mention x) (su_last_message_id x) (su_last_message_at x) (su_last_content x)
    (su_last_content_type x) (su_last_sender_did x) (su_last_sender_name x)
    (su_last_payload_json x) (su_group_id x) (su_group_did x) "".

Lemma summary_row_true o c x :
  summary_row o c x = true ↔ su_owner x = o ∧ su_conversation_id x = c.
Proof. unfold summary_row. by rewrite andb_true_iff, !bool_decide_eq_true. Qed.
Lemma summary_row_other o c o' c' x :
  (o', c') ≠ (o, c) → summary_row o c x = true → summary_row o' c' x = false.
Proof.
  intros Hne [<- <-]%summary_row_true. apply not_true_iff_false. rewrite summary_row_true. naive_solver.
Qed.

Lemma head_select_updated {A} (p : A → bool) (f : A → A) t :
  (∀ x, p x = true → p (f x) = true) →
  head (select_where p (update_where p f t)) = f <$> head (select_where p t).
Proof.
  intros Hf. induction t as [|x t IH]; [done|]. change (update_where p f (x :: t)) with ((if p x then f x else x) :: update_where p f t).
  rewrite !select_cons. destruct (p x) eqn:E; [by rewrite (Hf x E)|]. by rewrite E.
Qed.
Lemma select_update_other {A} (p q : A → bool) (f : A → A) t :
  (∀ x, p x = true → q x = false ∧ q (f x) = false) →
  select_where q (update_where p f t) = select_where q t.
Proof.
  intros Hf. induction t as [|x t IH]; [done|]. change (update_where p f (x :: t)) with ((if p x then f x else x) :: update_where p f t).
  rewrite !select_cons. destruct (p x) eqn:E; [|by rewrite IH]. destruct (Hf x E) as [-> ->]. done.
Qed.
Lemma select_delete_other {A} (p q : A → bool) t :
  (∀ x, p x = true → q x = false) → select_where q (delete_where p t) = select_where q t.
Proof.
  intros Hf. induction t as [|x t IH]; [done|]. unfold delete_where in *. rewrite filter_cons, select_cons.
  case_decide as E; [by rewrite select_cons, IH|]. apply not_false_iff_true in E.
  by rewrite (Hf x E).
Qed.
Lemma select_delete_same {A} (p : A → bool) t : select_where p (delete_where p t) = [].
Proof.
  induction t as [|x t IH]; [done|]. unfold delete_where in *. rewrite filter_cons.
  case_decide as E; [|done]. by rewrite select_cons, E.
Qed.

Lemma put_summary_at x t :
  head (select_where (summary_row (su_owner x) (su_conversation_id x)) (put_summary x t)) = Some x.
Proof.
  assert (summary_row (su_owner x) (su_conversation_id x) x = true) as Hx by by apply summary_row_true.
  unfold put_summary. destruct (exists_where _ t) eqn:E.
  - rewrite head_select_updated by done.
    destruct (head_select_Some _ _ E) as [y ->]. done.
  - rewrite select_app, select_cons, Hx.
    assert (select_where (summary_row (su_owner x) (su_conversation_id x)) t = []) as ->; [|done].
    apply head_select_None in E. by destruct (select_where _ t).
Qed.
Lemma put_summary_other x t o c :
  (o, c) ≠ (su_owner x, su_conversation_id x) →
  select_where (summary_row o c) (put_summary x t) = select_where (summary_row o c) t.
Proof.
  intros Hne. assert (summary_row o c x = false) as Hx.
  { apply (summary_row_other (su_owner x) (su_conversation_id x)); [done|by apply summary_row_true]. }
  unfold put_summary. destruct (exists_where _ t).
  - apply select_update_other. intros y Hy. split; [|done].
    by apply (summary_row_other (su_owner x) (su_conversation_id x)).
  - by rewrite select_app, select_cons, Hx, app_nil_r.
Qed.

Section writes.
Context `{WireCodec, JsonText}.
Implicit Types (s : PeerDb) (o c : string).

(** The summary a rebuild gives a conversation, if any. *)
Definition expected (t : list MessageRow) o c : option SummaryRow :=
  let y := tally (conversation_rows t o c) in
  summary_from_last "" o c (ta_message_count y) (ta_unread_count y) (ta_unread_mention_count y)
    (ta_first_unread_mention y) <$> ta_last y.
(** Every conversation has the summary a rebuild gives it. *)
Definition exact s : Prop := ∀ o c, core <$> summary_at s o c = expected (messages_of s) o c.
(** The summaries of [ks] are rebuilt, the others and the messages are as before. *)
Definition wrote (ks : list (string * string)) s s' : Prop :=
  px_read s' = px_read s ∧
  ∀ o c, core <$> summary_at s' o c
         = if bool_decide ((o, c) ∈ ks) then expected (messages_of s) o c else core <$> summary_at s o c.

Lemma wrote_messages ks s s' : wrote ks s s' → messages_of s' = messages_of s.
Proof. unfold messages_of. by intros [-> _]. Qed.
Lemma wrote_nil s : wrote [] s s.
Proof. split; [done|]. intros. by rewrite bool_decide_eq_false_2 by apply not_elem_of_nil. Qed.
Lemma wrote_app ks ks' s s1 s2 : wrote ks s s1 → wrote ks' s1 s2 → wrote (ks ++ ks') s s2.
Proof.
  intros H1 H2. pose proof (wrote_messages _ _ _ H1) as Em. destruct H1 as [R1 W1], H2 as [R2 W2].
  split; [congruence|]. intros o c. rewrite W2, Em, W1.
  destruct (decide ((o, c) ∈ ks')); [rewrite !bool_decide_eq_true_2; set_solver|].
  rewrite (bool_decide_eq_false_2 ((o, c) ∈ ks')) by done.
  destruct (decide ((o, c) ∈ ks)); [rewrite !bool_decide_eq_true_2; set_solver|].
  rewrite !bool_decide_eq_false_2; set_solver.
Qed.
Lemma wrote_registry ks s s1 t : wrote ks s s1 → wrote ks s (with_registry t s1).
Proof. done. Qed.

Lemma rebuild_wrote now s o c :
  tidy_text o → tidy_text c →
  ∃ b s', rebuild_conversation now s o c = Ok (b, s') ∧ wrote [(o, c)] s s' ∧
          b = bool_decide (is_Some (expected (messages_of s) o c)).
Proof.
  intros Ho Hc. unfold rebuild_conversation. rewrite (tidy_required _ _ Ho). cbn [mbind result_bind].
  rewrite (tidy_required _ _ Hc). cbn [mbind result_bind].
  destruct (ta_last (tally (conversation_rows (messages_of s) o c))) as [last|] eqn:E.
  - eexists true, _. split; [done|]. split.
    + split; [done|]. intros o' c'. destruct (decide ((o', c') = (o, c))) as [[= -> ->]|Hne].
      * rewrite bool_decide_eq_true_2 by set_solver. unfold expected, summary_at. cbv zeta. rewrite E.
        cbn [px_summaries upsert_summary_from_last with_summaries].
        by rewrite (put_summary_at (summary_from_last now o c _ _ _ _ last)).
      * rewrite bool_decide_eq_false_2 by set_solver. unfold summary_at.
        cbn [px_summaries upsert_summary_from_last with_summaries]. by rewrite put_summary_other.
    + unfold expected. cbv zeta. rewrite E. by rewrite bool_decide_eq_true_2.
  - eexists false, _. split; [done|]. split.
    + split; [done|]. intros o' c'. destruct (decide ((o', c') = (o, c))) as [[= -> ->]|Hne].
      * rewrite bool_decide_eq_true_2 by set_solver. unfold expected, summary_at. cbv zeta. rewrite E.
        cbn [px_summaries with_summaries]. by rewrite select_delete_same.
      * rewrite bool_decide_eq_false_2 by set_solver. unfold summary_at. cbn [px_summaries with_summaries].
        rewrite select_delete_other; [done|]. intros x. by apply summary_row_other.
    + unfold expected. cbv zeta. rewrite E. by rewrite bool_decide_eq_false_2.
Qed.

(** The registry has refused the conversation of a rebuilt summary. *)
Definition refused s (e : ImError) : Prop :=
  ∃ s2 o c, px_read s2 = px_read s ∧ ensure_from_summary s2 o c = Err e.
Lemma ensure_summary_registry s o c s' :
  ensure_from_summary s o c = Ok s' → ∃ t, s' = with_registry t s.
Proof.
  unfold ensure_from_summary. destruct (head _) as [x|].
  - cbv zeta. unfold ensure_conversation, put_registry. intros (_ & _ & He)%bind_Ok.
    destruct (canonical_identity_for_record _ _) as [[a b] d].
    destruct (exists_where _ _) in He; [done|]. injection He as <-. by eexists.
  - intros [= <-]. exists (px_registry s). by destruct s.
Qed.

Lemma single_wrote now s o c :
  tidy_text o → tidy_text c →
  match rebuild_single now s o c with
  | Ok r => wrote [(o, c)] s r.2
  | Err e => refused s e
  end.
Proof.
  intros Ho Hc. destruct (rebuild_wrote now s o c Ho Hc) as (b & s1 & E & Hw & _).
  unfold rebuild_single. rewrite E. cbn [mbind result_bind fst snd]. destruct b; [|exact Hw].
  destruct (ensure_from_summary s1 o c) as [s2|e] eqn:E2; cbn [mbind result_bind].
  - destruct (ensure_summary_registry _ _ _ _ E2) as [t ->]. exact (wrote_registry _ _ _ t Hw).
  - exists s1, o, c. split; [apply Hw|done].
Qed.

Definition tidy_key (k : string * string) : Prop := tidy_text k.1 ∧ tidy_text k.2.
Lemma touch_wrote now acc k :
  tidy_key k →
  match touch_step now acc k with
  | Ok r => wrote [k] acc.2 r.2
  | Err e => refused acc.2 e
  end.
Proof.
  intros [Ho Hc]. unfold touch_step.
  rewrite (tidy_not_empty _ Ho), (tidy_not_empty _ Hc). cbn [orb].
  destruct (rebuild_wrote now acc.2 k.1 k.2 Ho Hc) as (b & s1 & E & Hw & _). rewrite E.
  rewrite <- (surjective_pairing k) in Hw. cbn [mbind result_bind fst snd]. destruct b; [|exact Hw].
  destruct (ensure_from_summary s1 k.1 k.2) as [s2|e] eqn:E2; cbn [mbind result_bind].
  - destruct (ensure_summary_registry _ _ _ _ E2) as [t ->]. exact (wrote_registry _ _ _ t Hw).
  - exists s1, k.1, k.2. split; [apply Hw|done].
Qed.
Lemma touched_fold now ks acc :
  (∀ k, k ∈ ks → tidy_key k) →
  match try_fold (touch_step now) acc ks with
  | Ok r => wrote ks acc.2 r.2
  | Err e => refused acc.2 e
  end.
Proof.
  revert acc. induction ks as [|k ks IH]; intros acc Hk; [apply wrote_nil|]. cbn [try_fold].
  pose proof (touch_wrote now acc k (Hk k (list_elem_of_here k ks))) as H1.
  destruct (touch_step now acc k) as [acc1|e]; cbn [mbind result_bind]; [|done].
  pose proof (IH acc1 (λ k' Hk', Hk k' (list_elem_of_further k' k ks Hk'))) as H2.
  destruct (try_fold _ acc1 ks) as [r|e].
  - exact (wrote_app [k] ks _ _ _ H1 H2).
  - destruct H2 as (s2 & o & c & Hr & He). exists s2, o, c. split; [|done].
    rewrite Hr. apply H1.
Qed.
Lemma touched_wrote (now : string) s (ks : gset (string * string)) :
  (∀ k, k ∈ ks → tidy_key k) →
  match rebuild_touched now s ks with
  | Ok r => px_read r.2 = px_read s ∧
            ∀ o c, core <$> summary_at r.2 o c
                   = if bool_decide ((o, c) ∈ ks) then expected (messages_of s) o c
                     else core <$> summary_at s o c
  | Err e => refused s e
  end.
Proof.
  intros Hk. unfold rebuild_touched.
  assert (∀ k, k ∈ merge_sort touched_le (elements ks) ↔ k ∈ ks) as Hm.
  { intros k. by rewrite merge_sort_Permutation, elem_of_elements. }
  pose proof (touched_fold now (merge_sort touched_le (elements ks)) (0, s)) as Hf.
  destruct (try_fold _ _ _) as [r|e].
  - destruct Hf as [Hr Hw]; [intros k Hin%Hm; by apply Hk|]. split; [done|]. intros o c.
    rewrite Hw. by rewrite (bool_decide_ext _ _ (Hm (o, c))).
  - apply Hf. intros k Hin%Hm. by apply Hk.
Qed.
End writes.
