(* ===== verification/SummaryRebuild.v ===== *)
(** * Rebuilding every summary

    [rebuild_all] succeeds on tidy messages and gives every conversation the summary of its
    rows: it is the reference the deltas are compared with. *)

From S2P Require Import Prelude RustStr ImError Decimal Store SyncStore Outbox Wire Lanes ReadState ReadBind ReadIds ReadProps Persona Peers PeerProps Summaries SummaryOrder SummaryProps.
Local Open Scope Z_scope.

Definition tidy_row (m : MessageRow) : Prop :=
  tidy_text (mg_owner_identity_id m) ∧ tidy_text (conversation_of m) ∧ tidy_text (mg_msg_id m).
(** The owners, the conversations and the ids of the messages are trimmed texts. *)
Definition tidy (t : list MessageRow) : Prop := ∀ m, m ∈ t → tidy_row m.

Lemma in_conversation_true o c m :
  in_conversation o c m = true ↔ mg_owner_identity_id m = o ∧ conversation_of m = c.
Proof. unfold in_conversation. by rewrite andb_true_iff, !bool_decide_eq_true. Qed.

(** ** The distinct texts of a column *)

Lemma push_trimmed_in l acc x :
  (∀ y, y ∈ l → tidy_text y) → x ∈ fold_left push_trimmed l acc ↔ x ∈ acc ∨ x ∈ l.
Proof.
  revert acc. induction l as [|y l IH]; intros acc Hl; [set_solver|]. cbn [fold_left].
  rewrite IH by (intros z Hz; apply Hl; by right). unfold push_trimmed. cbv zeta.
  destruct (Hl y (list_elem_of_here y l)) as [Ht Hne]. rewrite !Ht.
  assert (is_empty y = false) as -> by (unfold is_empty; by apply bool_decide_eq_false_2).
  cbn [orb]. case_bool_decide; set_solver.
Qed.
Lemma distinct_in (l : list string) x :
  (∀ y, y ∈ l → tidy_text y) →
  x ∈ fold_left push_trimmed (distinct_texts (select_where (λ y, negb (is_empty (sql_trim y))) l)) []
  ↔ x ∈ l.
Proof.
  intros Hl.
  assert (∀ z, z ∈ distinct_texts (select_where (λ y, negb (is_empty (sql_trim y))) l) ↔ z ∈ l) as Hd.
  { intros z. unfold distinct_texts. rewrite merge_sort_Permutation, elem_of_remove_dups,
      elem_of_select_where. split; [by intros []|]. intros Hz. split; [done|].
    by rewrite (tidy_sql _ (Hl z Hz)). }
  rewrite push_trimmed_in by (intros y Hy%Hd; by apply Hl). rewrite Hd. set_solver.
Qed.

Section rebuild_all.
Context `{WireCodec, JsonText}.
Implicit Types (s : PeerDb) (o c : string).

Lemma expected_none (t : list MessageRow) o c :
  (∀ m, m ∈ t → in_conversation o c m = false) → expected t o c = None.
Proof.
  intros Hn. unfold expected, conversation_rows.
  assert (select_where (in_conversation o c) t = []) as ->; [|done].
  destruct (select_where _ t) as [|m l] eqn:E; [done|].
  assert (m ∈ select_where (in_conversation o c) t) as Hm by (rewrite E; by left).
  apply elem_of_select_where in Hm as [Hm Hc]. rewrite Hn in Hc; done.
Qed.

Lemma owner_in t o : tidy t → o ∈ distinct_owner_identity_ids t ↔ ∃ m, m ∈ t ∧ mg_owner_identity_id m = o.
Proof.
  intros Ht. unfold distinct_owner_identity_ids. rewrite distinct_in.
  - rewrite list_elem_of_fmap. naive_solver.
  - intros y (m & -> & Hm)%list_elem_of_fmap. by apply Ht.
Qed.
Lemma conversation_in t o c :
  tidy t → c ∈ distinct_conversation_ids_for_owner t o ↔ ∃ m, m ∈ t ∧ in_conversation o c m = true.
Proof.
  intros Ht. unfold distinct_conversation_ids_for_owner. rewrite distinct_in.
  - rewrite list_elem_of_fmap. setoid_rewrite elem_of_select_where.
    setoid_rewrite bool_decide_eq_true. setoid_rewrite in_conversation_true. naive_solver.
  - intros y (m & -> & [Hm _]%elem_of_select_where)%list_elem_of_fmap. by apply Ht.
Qed.

Lemma rebuild_steps now o cs acc :
  tidy_text o → (∀ c, c ∈ cs → tidy_text c) →
  ∃ r, try_fold (rebuild_step now o) acc cs = Ok r ∧ wrote (pair o <$> cs) acc.2 r.2.
Proof.
  intros Ho. revert acc. induction cs as [|c cs IH]; intros acc Hc.
  { exists acc. split; [done|]. apply wrote_nil. }
  destruct (rebuild_wrote now acc.2 o c Ho (Hc c (list_elem_of_here c cs))) as (b & s1 & E & Hw & _).
  assert (rebuild_step now o acc c = Ok (if b then acc.1 + 1 else acc.1, s1)) as Es
    by (unfold rebuild_step; by rewrite E).
  cbn [try_fold]. rewrite Es. cbn [mbind result_bind].
  destruct (IH (if b then acc.1 + 1 else acc.1, s1)) as (r & -> & Hr).
  { intros c' Hc'. apply Hc. by right. }
  exists r. split; [done|]. exact (wrote_app [(o, c)] _ _ _ _ Hw Hr).
Qed.

(** Rebuilding an owner gives its conversations the summaries of their rows. *)
Lemma rebuild_owner_exact now s o :
  tidy (messages_of s) → tidy_text o →
  ∃ r, rebuild_owner now s o = Ok r ∧ px_read r.2 = px_read s ∧
    ∀ o' c, core <$> summary_at r.2 o' c
            = if bool_decide (o' = o) then expected (messages_of s) o c else core <$> summary_at s o' c.
Proof.
  intros Ht Ho. unfold rebuild_owner. rewrite (tidy_required _ _ Ho). cbn [mbind result_bind]. cbv zeta.
  set (s1 := with_summaries _ s).
  destruct (rebuild_steps now o (distinct_conversation_ids_for_owner (messages_of s1) o) (0, s1))
    as (r & -> & Hr & Hw); [done| |].
  { intros c (m & Hm & [_ <-]%in_conversation_true)%conversation_in; [by apply (Ht m)|exact Ht]. }
  exists r. split; [done|]. split; [exact Hr|]. intros o' c. rewrite Hw. cbn [snd].
  case_bool_decide as Ek; [|case_bool_decide as Eo].
  - apply list_elem_of_fmap in Ek as (c' & [= -> ->] & _). by rewrite bool_decide_eq_true_2.
  - subst o'. assert (core <$> summary_at s1 o c = None) as ->.
    { unfold summary_at, s1. cbn [px_summaries with_summaries].
      destruct (head _) as [x|] eqn:E; [|done].
      apply head_Some_elem_of, elem_of_select_where in E as [Hx [Ex _]%summary_row_true].
      apply elem_of_delete_where in Hx as [_ Hx]. by apply bool_decide_eq_false in Hx. }
    symmetry. apply expected_none. intros m Hm. apply not_true_iff_false. intros Hc. apply Ek.
    apply list_elem_of_fmap. exists c. split; [done|]. apply conversation_in; [exact Ht|]. by exists m.
  - f_equal. unfold summary_at, s1. cbn [px_summaries with_summaries].
    rewrite select_delete_other; [done|]. intros x Hx%bool_decide_eq_true.
    apply not_true_iff_false. intros [Hy _]%summary_row_true. congruence.
Qed.

Lemma rebuild_owners now os acc t :
  tidy t → messages_of acc.2 = t → (∀ o, o ∈ os → tidy_text o) →
  ∃ r, try_fold (λ acc o, r ← rebuild_owner now acc.2 o; Ok (acc.1 + r.1, r.2)) acc os = Ok r ∧
    px_read r.2 = px_read acc.2 ∧
    ∀ o c, core <$> summary_at r.2 o c
           = if bool_decide (o ∈ os) then expected t o c else core <$> summary_at acc.2 o c.
Proof.
  intros Ht. revert acc. induction os as [|o os IH]; intros acc Em Ho.
  { exists acc. split_and!; [done..|]. intros. by rewrite bool_decide_eq_false_2 by apply not_elem_of_nil. }
  destruct (rebuild_owner_exact now acc.2 o) as (r1 & E & Hr1 & Hx); [by rewrite Em|apply Ho; by left|].
  cbn [try_fold]. rewrite E. cbn [mbind result_bind].
  assert (messages_of r1.2 = t) as Em1 by (unfold messages_of; by rewrite Hr1).
  destruct (IH (acc.1 + r1.1, r1.2) Em1) as (r & -> & Hr & Hy).
  { intros o' Ho'. apply Ho. by right. }
  cbn [snd] in *. exists r. split_and!; [done|by rewrite Hr|]. intros o' c. rewrite Hy, Hx, Em.
  destruct (decide (o' ∈ os)); [rewrite !bool_decide_eq_true_2; set_solver|].
  rewrite (bool_decide_eq_false_2 (o' ∈ os)) by done.
  destruct (decide (o' = o)) as [->|]; [rewrite !bool_decide_eq_true_2; set_solver|].
  rewrite !bool_decide_eq_false_2; set_solver.
Qed.

Lemma rebuild_all_exact now s :
  tidy (messages_of s) →
  ∃ n s', rebuild_all now s = Ok (n, s') ∧ messages_of s' = messages_of s ∧ exact s'.
Proof.
  intros Ht. unfold rebuild_all. cbv zeta.
  destruct (rebuild_owners now (distinct_owner_identity_ids (messages_of (with_summaries [] s)))
              (0, with_summaries [] s) (messages_of s)) as (r & -> & Hr & Hx); [done|done| |].
  { intros o (m & Hm & <-)%owner_in; [|exact Ht]. by apply (Ht m). }
  exists r.1, r.2. assert (messages_of r.2 = messages_of s) as Em by (unfold messages_of; by rewrite Hr).
  split_and!; [by destruct r|done|]. intros o c. rewrite Hx, Em. case_bool_decide as Eo; [done|].
  symmetry. apply expected_none. intros m Hm. apply not_true_iff_false.
  intros [Hc _]%in_conversation_true. apply Eo, owner_in; [exact Ht|]. by exists m.
Qed.

(** ** Summaries up to the time they were written *)

Definition same_summaries s s' : Prop := ∀ o c, core <$> summary_at s o c = core <$> summary_at s' o c.
#[export] Instance same_summaries_equiv : Equivalence same_summaries.
Proof.
  split; [done|intros s s' E o c; by rewrite E|intros s s' s2 E E' o c; by rewrite E, E'].
Qed.
(** The summaries are what a rebuild from the messages gives. *)
Definition up_to_date (now : string) s : Prop :=
  ∃ n s', rebuild_all now s = Ok (n, s') ∧ same_summaries s s'.

Lemma up_to_date_exact now s : tidy (messages_of s) → up_to_date now s ↔ exact s.
Proof.
  intros Ht. destruct (rebuild_all_exact now s Ht) as (n & s' & E & Em & Hx). split.
  - intros (n1 & s1 & E1 & Hs) o c. rewrite E in E1. injection E1 as <- <-.
    rewrite (Hs o c), Hx. by rewrite Em.
  - intros Hs. exists n, s'. split; [done|]. intros o c. by rewrite Hs, Hx, Em.
Qed.
End rebuild_all.
