(* ===== verification/SummaryDelta.v ===== *)
(** * Summaries kept by deltas

    What a written message changes in the tally of its conversation, the summary the delta
    writes for it, and the comparison of both with a rebuild. *)

From S2P Require Import Prelude RustStr ImError Decimal Store SyncStore Outbox Wire Lanes ReadState ReadBind ReadIds ReadProps Persona Peers PeerProps Summaries SummaryOrder SummaryProps SummaryRebuild.
Local Open Scope Z_scope.

Definition message_key (m : MessageRow) : string * string := (mg_owner_identity_id m, mg_msg_id m).
Lemma message_named_key o i m : message_named o i m = true ↔ message_key m = (o, i).
Proof.
  unfold message_named, message_key. rewrite andb_true_iff, !bool_decide_eq_true. naive_solver.
Qed.
(** The rows of a conversation before they are sorted. *)
Definition rows_of (t : list MessageRow) (o c : string) : list SummaryMessageRow :=
  summary_message_row <$> select_where (in_conversation o c) t.
Lemma rows_of_app t t' o c : rows_of (t ++ t') o c = rows_of t o c ++ rows_of t' o c.
Proof. unfold rows_of. by rewrite select_app, fmap_app. Qed.
Lemma rows_of_one m o c :
  rows_of [m] o c = if in_conversation o c m then [summary_message_row m] else [].
Proof. unfold rows_of. rewrite select_cons. by destruct (in_conversation o c m). Qed.
Lemma conversation_rows_perm t o c : conversation_rows t o c ≡ₚ rows_of t o c.
Proof. apply merge_sort_Permutation. Qed.

Lemma rows_of_in t o c r :
  r ∈ rows_of t o c ↔ ∃ m, m ∈ t ∧ in_conversation o c m = true ∧ r = summary_message_row m.
Proof.
  unfold rows_of. rewrite list_elem_of_fmap. setoid_rewrite elem_of_select_where. naive_solver.
Qed.
Lemma rows_of_named t o c : tidy t → named (rows_of t o c).
Proof. intros Ht r (m & Hm & _ & ->)%rows_of_in. by destruct (Ht m Hm) as (_ & _ & _ & Hne). Qed.
Lemma rows_of_nodup t o c : NoDup (message_key <$> t) → NoDup (sm_msg_id <$> rows_of t o c).
Proof.
  intros Hnd. apply (NoDup_fmap_1 (pair o)).
  assert (pair o <$> (sm_msg_id <$> rows_of t o c)
          = message_key <$> select_where (in_conversation o c) t) as ->.
  { unfold rows_of. rewrite <- !list_fmap_compose. apply list_fmap_ext.
    intros i m Hm%list_elem_of_lookup_2. apply elem_of_select_where in Hm as [_ [E _]%in_conversation_true].
    unfold message_key. cbn. by rewrite E. }
  apply (sublist_NoDup _ (message_key <$> t)); [done|]. apply fmap_sublist. unfold select_where.
  apply sublist_filter.
Qed.

(** The count over [x :: l] in a hypothesis, the rows being a permutation of it. *)
Ltac split_count Hp C := rewrite (count_perm _ _ _ Hp), count_cons in C.

Section delta.
Context `{WireCodec, JsonText}.
Implicit Types (s : PeerDb) (o c : string) (l : list SummaryMessageRow) (a b r : SummaryMessageRow).

(** ** The tally of sorted rows *)

Definition tally_of l : Tally := tally (merge_sort (le_of listed_cmp) l).
Lemma expected_of t o c :
  expected t o c
  = let y := tally_of (rows_of t o c) in
    summary_from_last "" o c (ta_message_count y) (ta_unread_count y) (ta_unread_mention_count y)
      (ta_first_unread_mention y) <$> ta_last y.
Proof. done. Qed.

Lemma named_sorted l : named l → named (merge_sort (le_of listed_cmp) l).
Proof. intros Hn r Hr. apply Hn. by rewrite <- (merge_sort_Permutation (le_of listed_cmp) l). Qed.
Lemma nodup_select (q : SummaryMessageRow → bool) l :
  NoDup (sm_msg_id <$> l) → NoDup (sm_msg_id <$> select_where q l).
Proof.
  intros Hnd. apply (sublist_NoDup _ (sm_msg_id <$> l)); [done|]. apply fmap_sublist.
  unfold select_where. apply sublist_filter.
Qed.

Lemma tally_of_counts l :
  ta_message_count (tally_of l) = Z.of_nat (count_where contributes_to_summary l) ∧
  ta_unread_count (tally_of l) = Z.of_nat (count_where counted_unread l) ∧
  ta_unread_mention_count (tally_of l) = Z.of_nat (count_where counted_mention l).
Proof.
  unfold tally_of, tally.
  destruct (tally_counts (merge_sort (le_of listed_cmp) l) (mkTally 0 0 0 "" None)) as (-> & -> & -> & _).
  cbn [ta_message_count ta_unread_count ta_unread_mention_count].
  by rewrite !(count_perm _ _ _ (merge_sort_Permutation (le_of listed_cmp) l)).
Qed.
Lemma tally_of_first l :
  named l →
  ta_first_unread_mention (tally_of l)
  = default EmptyString (sm_msg_id <$> head (select_where counted_mention
                                               (merge_sort (le_of listed_cmp) l))).
Proof. intros Hn. unfold tally_of, tally. rewrite (tally_first _ _ (named_sorted l Hn)). done. Qed.
Lemma tally_of_last l :
  match ta_last (tally_of l) with
  | None => select_where contributes_to_summary l = []
  | Some x => is_last (select_where contributes_to_summary l) x
  end.
Proof.
  pose proof (tally_last (merge_sort (le_of listed_cmp) l)) as Hl. fold (tally_of l) in Hl.
  pose proof (select_perm contributes_to_summary _ _ (merge_sort_Permutation (le_of listed_cmp) l)) as Hp.
  destruct (ta_last (tally_of l)) as [x|].
  - by apply (is_last_perm _ _ _ Hp).
  - rewrite Hl in Hp. by apply Permutation_nil_l in Hp.
Qed.
Lemma tally_of_last_is l x :
  NoDup (sm_msg_id <$> l) → is_last (select_where contributes_to_summary l) x →
  ta_last (tally_of l) = Some x.
Proof.
  intros Hnd Hx.
  pose proof (select_perm contributes_to_summary _ _ (merge_sort_Permutation (le_of listed_cmp) l)) as Hp.
  apply tally_last_is; [|by apply (is_last_perm _ _ _ (symmetry Hp))].
  rewrite Hp. by apply nodup_select.
Qed.

(** Rows that do not count make no difference. *)
Lemma tally_of_same l l' :
  named l → named l' → NoDup (sm_msg_id <$> l) →
  select_where contributes_to_summary l ≡ₚ select_where contributes_to_summary l' →
  tally_of l = tally_of l'.
Proof.
  intros Hn Hn' Hnd Hp. unfold tally_of. apply tally_ext; [by apply named_sorted..|].
  apply sorted_rows_unique; [by apply nodup_select|done].
Qed.

(** ** One more row, or one row for another *)

Lemma first_same l l' :
  named l → named l' → NoDup (sm_msg_id <$> l) →
  select_where counted_mention l ≡ₚ select_where counted_mention l' →
  ta_first_unread_mention (tally_of l) = ta_first_unread_mention (tally_of l').
Proof.
  intros Hn Hn' Hnd Hp. rewrite !tally_of_first by done.
  by rewrite (sorted_rows_unique l l') by (try apply nodup_select; done).
Qed.
Lemma unread_delta_counted r :
  contributes_to_summary r = true → (if counted_unread r then 1 else 0) = unread_count_delta r.
Proof. unfold counted_unread, unread_count_delta. by intros ->. Qed.

Lemma tally_insert l l' b :
  named l' → NoDup (sm_msg_id <$> l') → l' ≡ₚ b :: l →
  contributes_to_summary b = true → is_unread_mention b = false →
  tally_of l'
  = mkTally (ta_message_count (tally_of l) + 1) (ta_unread_count (tally_of l) + unread_count_delta b)
      (ta_unread_mention_count (tally_of l)) (ta_first_unread_mention (tally_of l))
      (later (ta_last (tally_of l)) b).
Proof.
  intros Hn' Hnd' Hp Hb Hm.
  assert (counted_mention b = false) as Hcm by (unfold counted_mention; by rewrite Hb, Hm).
  assert (named l) as Hn by (intros r Hr; apply Hn'; rewrite Hp; by right).
  assert (NoDup (sm_msg_id <$> b :: l)) as Hnd by (by rewrite <- Hp).
  destruct (tally_of_counts l') as (C1 & C2 & C3), (tally_of_counts l) as (D1 & D2 & D3).
  split_count Hp C1. split_count Hp C2. split_count Hp C3.
  rewrite Hb in C1. rewrite (unread_delta_counted b Hb) in C2. rewrite Hcm in C3.
  assert (ta_first_unread_mention (tally_of l') = ta_first_unread_mention (tally_of l)) as C4.
  { apply first_same; [done..|]. rewrite (select_perm counted_mention _ _ Hp), select_cons. by rewrite Hcm. }
  assert (ta_last (tally_of l') = later (ta_last (tally_of l)) b) as C5.
  { pose proof (tally_of_last l) as Hl. unfold later.
    pose proof (select_perm contributes_to_summary _ _ Hp) as Hs. rewrite select_cons, Hb in Hs.
    destruct (ta_last (tally_of l)) as [x|].
    - transitivity (Some (if message_is_later_than_message b x then b else x));
        [|by destruct (message_is_later_than_message b x)].
      apply (tally_of_last_is l' _ Hnd'), (is_last_perm _ _ _ (symmetry Hs)).
      by apply is_last_later.
    - apply (tally_of_last_is l' _ Hnd'), (is_last_perm _ _ _ (symmetry Hs)). rewrite Hl.
      split; [by left|]. intros y ->%list_elem_of_singleton. by rewrite cmp_refl by apply _. }
  destruct (tally_of l'); cbn in *. f_equal; [lia..|done|done].
Qed.

Lemma tally_update l l' k a b x :
  named l → named l' → NoDup (sm_msg_id <$> l) → NoDup (sm_msg_id <$> l') →
  l ≡ₚ a :: k → l' ≡ₚ b :: k → contributes_to_summary a = true → contributes_to_summary b = true →
  is_unread_mention a = false → is_unread_mention b = false →
  ta_last (tally_of l) = Some x → x ≠ a → message_is_later_than_message b x = false →
  tally_of l'
  = mkTally (ta_message_count (tally_of l))
      (ta_unread_count (tally_of l) + (unread_count_delta b - unread_count_delta a))
      (ta_unread_mention_count (tally_of l)) (ta_first_unread_mention (tally_of l)) (Some x).
Proof.
  intros Hn Hn' Hnd Hnd' Hp Hp' Ha Hb Ma Mb Ex Hne Hlate.
  assert (counted_mention a = false) as Hca by (unfold counted_mention; by rewrite Ha, Ma).
  assert (counted_mention b = false) as Hcb by (unfold counted_mention; by rewrite Hb, Mb).
  destruct (tally_of_counts l') as (C1 & C2 & C3), (tally_of_counts l) as (D1 & D2 & D3).
  split_count Hp' C1. split_count Hp' C2. split_count Hp' C3.
  split_count Hp D1. split_count Hp D2. split_count Hp D3.
  rewrite Hb in C1. rewrite (unread_delta_counted b Hb) in C2. rewrite Hcb in C3.
  rewrite Ha in D1. rewrite (unread_delta_counted a Ha) in D2. rewrite Hca in D3.
  assert (ta_first_unread_mention (tally_of l') = ta_first_unread_mention (tally_of l)) as C4.
  { apply first_same; [done..|].
    by rewrite (select_perm counted_mention _ _ Hp), (select_perm counted_mention _ _ Hp'), !select_cons,
      Hca, Hcb. }
  assert (ta_last (tally_of l') = Some x) as C5.
  { pose proof (tally_of_last l) as Hl. rewrite Ex in Hl.
    pose proof (select_perm contributes_to_summary _ _ Hp) as Hs. rewrite select_cons, Ha in Hs.
    pose proof (select_perm contributes_to_summary _ _ Hp') as Hs'. rewrite select_cons, Hb in Hs'.
    apply (tally_of_last_is l' _ Hnd'), (is_last_perm _ _ _ (symmetry Hs')).
    apply (is_last_swap _ a); [by apply (is_last_perm _ _ _ Hs)|done|done]. }
  destruct (tally_of l'); cbn in *. f_equal; [lia..|done|done].
Qed.
End delta.

(** ** One written message *)

Definition named_as (m : MessageRow) : MessageRow → bool :=
  message_named (mg_owner_identity_id m) (mg_msg_id m).
Definition put_message (m : MessageRow) (t : list MessageRow) : list MessageRow :=
  if exists_where (named_as m) t then update_where (named_as m) (λ _, m) t else t ++ [m].
Definition one (p : option MessageRow) : list MessageRow := match p with Some p => [p] | None => [] end.
Definition projection_of (m : MessageRow) : SummaryMessageProjection :=
  mkProjection (mg_owner_identity_id m) (conversation_of m) (summary_message_row m).

Lemma put_message_split m t :
  NoDup (message_key <$> t) →
  ∃ l1 l2, t = l1 ++ one (head (select_where (named_as m) t)) ++ l2 ∧ put_message m t = l1 ++ m :: l2.
Proof.
  intros Hnd. unfold put_message. destruct (exists_where (named_as m) t) eqn:E.
  - apply exists_where_true in E as (p & Hp & Np). apply list_elem_of_split in Hp as (l1 & l2 & ->).
    assert (∀ y, y ∈ l1 ++ l2 → named_as m y = false) as Hno.
    { intros y Hy. apply not_true_iff_false. intros Ny. unfold named_as in *.
      apply message_named_key in Ny, Np. rewrite fmap_app, fmap_cons in Hnd.
      rewrite <- Permutation_middle in Hnd. apply NoDup_cons in Hnd as [Hnot _]. apply Hnot.
      rewrite Np, <- Ny, <- fmap_app. by apply list_elem_of_fmap_2. }
    assert (∀ k, (∀ y, y ∈ k → named_as m y = false) →
                 select_where (named_as m) k = [] ∧ update_where (named_as m) (λ _, m) k = k) as Hk.
    { intros k Hk. split; [|by apply update_where_none].
      induction k as [|y k IH]; [done|]. rewrite select_cons, (Hk y) by by left. apply IH.
      intros z Hz. apply Hk. by right. }
    destruct (Hk l1) as [S1 U1]; [set_solver|]. destruct (Hk l2) as [S2 U2]; [set_solver|].
    exists l1, l2. rewrite select_app, select_cons, Np, S1, S2. split; [done|].
    unfold update_where in *. rewrite fmap_app, fmap_cons, U1, U2, Np. done.
  - exists t, []. rewrite (head_select_None _ _ E). split; [by rewrite !app_nil_r|done].
Qed.

Lemma add_counts_core now md ud nd f x o c n u k g last :
  core x = summary_from_last "" o c n u k g last →
  core (add_counts now md ud nd f x)
  = summary_from_last "" o c (Z.max 0 (n + md)) (Z.max 0 (u + ud)) (Z.max 0 (k + nd)) f last.
Proof. destruct x. unfold core, add_counts, summary_from_last. cbn. intros [= -> -> -> -> -> -> -> -> -> -> -> -> -> -> -> -> ->]. done. Qed.

Lemma first_again o c n u k g last :
  summary_from_last "" o c n u k (default EmptyString (nullable_text g)) last
  = summary_from_last "" o c n u k g last.
Proof. unfold summary_from_last. by rewrite nullable_again. Qed.

Section written.
Context `{WireCodec, JsonText}.
Variables (s s1 : PeerDb) (m : MessageRow).
Notation o := (mg_owner_identity_id m).
Notation c := (conversation_of m).
Notation b := (summary_message_row m).
Notation P := (head (select_where (named_as m) (messages_of s))).
Hypothesis (Hexact : exact s).
Hypothesis (Htidy : tidy (messages_of s)).
Hypothesis (Hm : tidy_row m).
Hypothesis (Hnd : NoDup (message_key <$> messages_of s)).
Hypothesis (Hput : messages_of s1 = put_message m (messages_of s)).
Hypothesis (Hsum : px_summaries s1 = px_summaries s).
Hypothesis (Hlen : Z.of_nat (length (messages_of s1)) ≤ i64_max).

Lemma prev_key p : P = Some p → p ∈ messages_of s ∧ message_key p = message_key m.
Proof.
  intros [Hp Hn]%head_Some_elem_of%elem_of_select_where. by apply message_named_key in Hn.
Qed.
Lemma written_split : ∃ l1 l2, messages_of s = l1 ++ one P ++ l2 ∧ messages_of s1 = l1 ++ m :: l2.
Proof. rewrite Hput. by apply put_message_split. Qed.
Lemma written_tidy : tidy (messages_of s1).
Proof using Htidy Hm Hnd Hput.
  clear Hexact Hlen Hsum.
  destruct written_split as (l1 & l2 & E & E'). intros y Hy. rewrite E' in Hy.
  apply elem_of_app in Hy as [Hy|[->|Hy]%elem_of_cons]; [|done|]; apply Htidy; rewrite E; set_solver.
Qed.
Lemma written_nodup : NoDup (message_key <$> messages_of s1).
Proof.
  rewrite Hput. unfold put_message. destruct (exists_where (named_as m) (messages_of s)) eqn:E.
  - rewrite map_update_where; [done|]. intros y _ Hy. by apply message_named_key in Hy.
  - rewrite fmap_app. apply NoDup_app. split_and!; [done| |apply NoDup_singleton].
    intros k (y & -> & Hy)%list_elem_of_fmap Hk%list_elem_of_singleton.
    pose proof (proj1 (exists_where_false _ _) E y Hy) as Hn. apply not_true_iff_false in Hn.
    by apply Hn, message_named_key.
Qed.

(** The rows of a conversation before and after, around those that stay. *)
Lemma written_rows o' c' : ∃ k,
  rows_of (messages_of s) o' c' ≡ₚ rows_of (one P) o' c' ++ k ∧
  rows_of (messages_of s1) o' c' ≡ₚ rows_of [m] o' c' ++ k ∧
  (∀ r, r ∈ k → ∃ y, y ∈ messages_of s1 ∧ in_conversation o' c' y = true ∧ r = summary_message_row y).
Proof using Hnd Hput.
  clear Hexact Hlen Hsum Htidy Hm.
  destruct written_split as (l1 & l2 & E & E'). exists (rows_of l1 o' c' ++ rows_of l2 o' c').
  split_and!.
  - rewrite E at 1. rewrite !rows_of_app. apply Permutation_app_swap_app.
  - rewrite E'. change (m :: l2) with ([m] ++ l2). rewrite !rows_of_app. apply Permutation_app_swap_app.
  - intros r Hr. rewrite <- rows_of_app in Hr. apply rows_of_in in Hr as (y & Hy & Hc & ->).
    exists y. split_and!; [|done|done]. rewrite E'. set_solver.
Qed.

Lemma other_expected o' c' :
  (o', c') ≠ (o, c) →
  (∀ p, P = Some p → in_conversation o' c' p = true →
        contributes_to_summary (summary_message_row p) = false) →
  expected (messages_of s1) o' c' = expected (messages_of s) o' c'.
Proof.
  intros Hne Hp. rewrite !expected_of. destruct (written_rows o' c') as (k & E & E' & _).
  rewrite rows_of_one in E'. destruct (in_conversation o' c' m) eqn:Em.
  { apply in_conversation_true in Em as [<- <-]. done. }
  assert (tally_of (rows_of (messages_of s1) o' c') = tally_of (rows_of (messages_of s) o' c')) as ->;
    [|done].
  apply tally_of_same; [apply rows_of_named, written_tidy|by apply rows_of_named|
    apply rows_of_nodup, written_nodup|].
  rewrite E, E'. cbn [app]. destruct P as [p|]; [|done]. cbn [one]. rewrite rows_of_one.
  destruct (in_conversation o' c' p) eqn:Ep; [|done]. cbn [app]. by rewrite select_cons, (Hp p eq_refl Ep).
Qed.

(** The message did not leave a conversation it counts in. *)
Definition stays : Prop :=
  ∀ p, P = Some p → contributes_to_summary (summary_message_row p) = true → conversation_of p = c.
Lemma one_exact s' :
  stays → px_read s' = px_read s1 → core <$> summary_at s' o c = expected (messages_of s1) o c →
  (∀ o' c', (o', c') ≠ (o, c) → core <$> summary_at s' o' c' = core <$> summary_at s1 o' c') → exact s'.
Proof.
  intros Hs Hr Hc Ho o' c'. assert (messages_of s' = messages_of s1) as ->.
  { unfold messages_of. by rewrite Hr. }
  destruct (decide ((o', c') = (o, c))) as [[= -> ->]|Hne]; [done|].
  rewrite Ho by done. unfold summary_at. rewrite Hsum. fold (summary_at s o' c').
  rewrite Hexact. symmetry. apply other_expected; [done|].
  intros p Ep [Eo Ec]%in_conversation_true. apply not_true_iff_false. intros Hx. apply Hne.
  rewrite <- (Hs p Ep Hx), <- Eo, <- Ec. apply prev_key in Ep as [_ [= -> _]]. done.
Qed.
Lemma single_exact now :
  stays →
  match rebuild_single now s1 o c with
  | Ok r => px_read r.2 = px_read s1 ∧ exact r.2
  | Err e => refused s1 e
  end.
Proof.
  intros Hs. destruct Hm as (Ho & Hc & _). pose proof (single_wrote now s1 o c Ho Hc) as Hw.
  destruct (rebuild_single now s1 o c) as [r|e]; [|done]. destruct Hw as [Hr Hw]. split; [done|].
  apply one_exact; [done|done| |]; intros.
  - rewrite Hw. by rewrite bool_decide_eq_true_2 by set_solver.
  - rewrite Hw. by rewrite bool_decide_eq_false_2 by set_solver.
Qed.

(** ** The stored summary of the conversation *)

Notation T := (tally_of (rows_of (messages_of s) o c)).
Lemma stored_summary x :
  summary_at s1 o c = Some x →
  ∃ last, ta_last T = Some last ∧
    core x = summary_from_last "" o c (ta_message_count T) (ta_unread_count T)
               (ta_unread_mention_count T) (ta_first_unread_mention T) last.
Proof.
  unfold summary_at. rewrite Hsum. fold (summary_at s o c). intros Ex.
  pose proof (Hexact o c) as He. rewrite Ex, expected_of in He. cbv zeta in He.
  destruct (ta_last T) as [last|]; [|done]. exists last. split; [done|]. by apply (inj Some).
Qed.
Lemma stored_state x last :
  summary_at s1 o c = Some x →
  core x = summary_from_last "" o c (ta_message_count T) (ta_unread_count T)
             (ta_unread_mention_count T) (ta_first_unread_mention T) last →
  ∃ st, summary_state s1 o c = Some st ∧
    ss_message_count st = ta_message_count T ∧ ss_unread_count st = ta_unread_count T ∧
    ss_unread_mention_count st = ta_unread_mention_count T ∧
    ss_first_unread_mention st = default EmptyString (nullable_text (ta_first_unread_mention T)) ∧
    ss_last_message_id st = sm_msg_id last ∧
    ((∃ y, y ∈ messages_of s1 ∧ mg_owner_identity_id y = o ∧ last = summary_message_row y) →
     ∀ r, message_is_later_than_summary r st = message_is_later_than_message r last).
Proof.
  intros Ex Hx. unfold summary_state. unfold summary_at in Ex. rewrite Ex. cbn [fmap option_fmap option_map].
  eexists. split; [reflexivity|]. destruct x. unfold core, summary_from_last in Hx. cbn in Hx.
  injection Hx as -> -> -> -> -> -> -> -> -> -> -> -> -> -> -> -> ->. cbn.
  split_and!; [done..|]. intros (y & Hy & Eo & ->) r.
  assert (head (select_where (message_named o (sm_msg_id (summary_message_row y))) (messages_of s1))
          = Some y) as ->.
  { assert (message_named o (mg_msg_id y) y = true) as Ny.
    { apply message_named_key. unfold message_key. by rewrite Eo. }
    destruct (head_select (message_named o (mg_msg_id y)) (messages_of s1) (λ z, z = y) y)
      as (z & Ez & ->); [done|done| |exact Ez].
    intros z Hz Nz. apply (key_inj message_key (messages_of s1)); [apply written_nodup|done..|].
    apply message_named_key in Nz, Ny. congruence. }
  done.
Qed.

(** ** The summary a delta writes *)

Lemma upsert_exact now n u k f last :
  stays → expected (messages_of s1) o c = Some (summary_from_last "" o c n u k f last) →
  exact (upsert_summary_from_last now s1 o c n u k f last).
Proof.
  intros Hs He. apply one_exact; [done|done| |].
  - rewrite He. unfold summary_at. cbn [px_summaries upsert_summary_from_last with_summaries].
    by rewrite (put_summary_at (summary_from_last now o c n u k f last)).
  - intros o' c' Hne. unfold summary_at. cbn [px_summaries upsert_summary_from_last with_summaries].
    by rewrite put_summary_other.
Qed.
Lemma counts_exact now md ud nd f x n u k g last :
  stays → summary_at s1 o c = Some x → core x = summary_from_last "" o c n u k g last →
  expected (messages_of s1) o c
  = Some (summary_from_last "" o c (Z.max 0 (n + md)) (Z.max 0 (u + ud)) (Z.max 0 (k + nd)) f last) →
  exact (update_summary_counts now s1 o c md ud nd f).
Proof.
  intros Hs Ex Hx He. apply one_exact; [done|done| |].
  - rewrite He. unfold summary_at in *. cbn [px_summaries update_summary_counts with_summaries].
    rewrite head_select_updated; [|intros y; by rewrite !summary_row_true]. rewrite Ex.
    cbn [fmap option_fmap option_map]. by rewrite (add_counts_core _ _ _ _ _ _ _ _ _ _ _ _ _ Hx).
  - intros o' c' Hne. unfold summary_at. cbn [px_summaries update_summary_counts with_summaries].
    rewrite select_update_other; [done|]. intros y Hy. split; [by apply (summary_row_other o c)|].
    apply (summary_row_other o c); [done|]. by rewrite summary_row_true in *.
Qed.

Lemma tally_bounds l :
  (length l ≤ length (messages_of s1))%nat →
  0 ≤ ta_message_count (tally_of l) ≤ i64_max ∧ 0 ≤ ta_unread_count (tally_of l) ≤ i64_max ∧
  0 ≤ ta_unread_mention_count (tally_of l) ≤ i64_max.
Proof.
  intros Hl. destruct (tally_of_counts l) as (-> & -> & ->).
  assert (∀ q, Z.of_nat (count_where q l) ≤ i64_max) as Hq; [|split_and!; lia || apply Hq].
  intros q. assert (count_where q l ≤ length l)%nat; [|lia].
  unfold count_where, select_where. apply length_filter.
Qed.
Lemma rows_bound : (length (rows_of (messages_of s1) o c) ≤ length (messages_of s1))%nat.
Proof. unfold rows_of. rewrite length_fmap. unfold select_where. apply length_filter. Qed.

Lemma insert_rows : P = None → rows_of (messages_of s1) o c ≡ₚ b :: rows_of (messages_of s) o c.
Proof.
  intros HP. destruct (written_rows o c) as (k & E & E' & _). rewrite HP in E.
  rewrite E, E', rows_of_one. by rewrite (proj2 (in_conversation_true o c m)).
Qed.
Lemma insert_stays : P = None → stays.
Proof. intros HP p. by rewrite HP. Qed.

Lemma insert_exact now x last st :
  P = None → contributes_to_summary b = true → is_unread_mention b = false →
  summary_at s1 o c = Some x → ta_last T = Some last →
  core x = summary_from_last "" o c (ta_message_count T) (ta_unread_count T)
             (ta_unread_mention_count T) (ta_first_unread_mention T) last →
  summary_state s1 o c = Some st →
  match apply_insert_delta now s1 st (projection_of m) with
  | Ok r => px_read r.2 = px_read s1 ∧ exact r.2
  | Err e => refused s1 e
  end.
Proof.
  intros HP Hb Hmen Ex El Hx Est. pose proof (insert_stays HP) as Hs.
  pose proof (insert_rows HP) as Hrows.
  destruct (stored_state x last Ex Hx) as (st' & Est' & E1 & E2 & E3 & E4 & E5 & Hlate).
  assert (st' = st) as -> by congruence.
  assert (∀ r, message_is_later_than_summary r st = message_is_later_than_message r last) as Hl.
  { apply Hlate. pose proof (tally_of_last (rows_of (messages_of s) o c)) as Hlast. rewrite El in Hlast.
    destruct Hlast as [Hin _]. apply elem_of_select_where in Hin as [Hin _].
    assert (last ∈ rows_of (messages_of s1) o c) as Hin' by (rewrite Hrows; by right).
    apply rows_of_in in Hin' as (y & Hy & [Hy1 _]%in_conversation_true & ->). by exists y. }
  pose proof (tally_insert _ _ b (rows_of_named _ o c written_tidy) (rows_of_nodup _ o c written_nodup)
                Hrows Hb Hmen) as Ht. rewrite El in Ht.
  destruct (tally_bounds _ rows_bound) as (B1 & B2 & B3). rewrite Ht in B1, B2, B3. cbn in B1, B2, B3.
  destruct (tally_bounds (rows_of (messages_of s) o c)) as (D1 & D2 & D3).
  { pose proof rows_bound as Hrb. rewrite Hrows in Hrb. cbn [length] in Hrb. lia. }
  assert (is_self_direct b = false) as Hsd.
  { unfold contributes_to_summary in Hb. by destruct (is_self_direct b). }
  assert (0 ≤ unread_count_delta b ≤ 1) as Hd by (unfold unread_count_delta; destruct (is_unread_incoming b); lia).
  unfold apply_insert_delta. cbn [projection_of pj_row pj_owner pj_conversation_id]. cbv zeta.
  unfold unread_mention_count_delta. rewrite Hsd, Hmen, andb_false_r, Hl, E1, E2, E3, E4.
  unfold i64_saturating_add. rewrite !clamp_i64_id by (unfold is_i64, i64_min in *; lia).
  unfold later in Ht. destruct (message_is_later_than_message b last) eqn:Eb; (split; [done|]).
  - apply upsert_exact; [done|]. rewrite expected_of. cbv zeta. rewrite Ht. cbn.
    rewrite first_again. do 2 f_equal. lia.
  - apply (counts_exact _ _ _ _ _ x _ _ _ _ _ Hs Ex Hx). rewrite expected_of. cbv zeta. rewrite Ht. cbn.
    rewrite first_again. f_equal. f_equal; lia.
Qed.

Lemma first_exact now :
  P = None → contributes_to_summary b = true → message_count_for_conversation s1 o c = 1 →
  exact (upsert_summary_from_last now s1 o c 1 (unread_count_delta b) (unread_mention_count_delta b)
           (first_unread_mention_for_new_summary b) b).
Proof.
  intros HP Hb Hn. apply upsert_exact; [by apply insert_stays|].
  pose proof (insert_rows HP) as Hrows.
  assert (rows_of (messages_of s1) o c = [b]) as Er.
  { assert (length (rows_of (messages_of s1) o c) = 1%nat) as Hl.
    { unfold message_count_for_conversation, count_where in Hn. unfold rows_of. rewrite length_fmap. lia. }
    rewrite Hrows in Hl. cbn [length] in Hl. destruct (rows_of (messages_of s) o c); [|cbn in Hl; lia].
    by apply Permutation_singleton_r in Hrows. }
  rewrite expected_of, Er. cbv zeta.
  assert (tally_of [b] = tally_row (mkTally 0 0 0 "" None) b) as -> by done.
  unfold tally_row, unread_count_delta, unread_mention_count_delta, first_unread_mention_for_new_summary,
    is_unread_mention.
  rewrite Hb. cbn [negb]. by destruct (is_unread_incoming b), (sm_mentions_current_user b).
Qed.

Lemma update_exact now p x last st :
  P = Some p → conversation_of p = c →
  contributes_to_summary (summary_message_row p) = true → contributes_to_summary b = true →
  is_unread_mention (summary_message_row p) = false → is_unread_mention b = false →
  summary_at s1 o c = Some x → ta_last T = Some last →
  core x = summary_from_last "" o c (ta_message_count T) (ta_unread_count T)
             (ta_unread_mention_count T) (ta_first_unread_mention T) last →
  summary_state s1 o c = Some st →
  match apply_update_delta now s1 st (projection_of p) (projection_of m) with
  | Ok r => px_read r.2 = px_read s1 ∧ exact r.2
  | Err e => refused s1 e
  end.
Proof.
  intros HP Hc Ha Hb Ma Mb Ex El Hx Est.
  assert (stays) as Hs by (intros p' Ep' _; congruence).
  destruct (stored_state x last Ex Hx) as (st' & Est' & _ & _ & _ & E4 & E5 & Hlate).
  assert (st' = st) as -> by congruence.
  unfold apply_update_delta. cbn [projection_of pj_row pj_owner pj_conversation_id]. cbv zeta.
  destruct (bool_decide _ || _) eqn:Egate; [by apply single_exact|].
  apply orb_false_iff in Egate as [Eid%bool_decide_eq_false Elate]. rewrite E5 in Eid.
  destruct (written_rows o c) as (k & Er & Er' & Hk). rewrite HP in Er. cbn [one] in Er.
  assert (in_conversation o c p = true) as Hpc.
  { apply in_conversation_true. split; [|done]. by apply prev_key in HP as [_ [= -> _]]. }
  rewrite rows_of_one, Hpc in Er. cbn [app] in Er.
  rewrite rows_of_one, (proj2 (in_conversation_true o c m)) in Er' by done. cbn [app] in Er'.
  pose proof (tally_of_last (rows_of (messages_of s) o c)) as Hlast. rewrite El in Hlast.
  destruct Hlast as [Hin _]. apply elem_of_select_where in Hin as [Hin _].
  assert (last ≠ summary_message_row p) as Hne by congruence.
  rewrite Er in Hin. apply elem_of_cons in Hin as [|Hin]; [done|].
  rewrite Hlate in Elate; [|destruct (Hk last Hin) as (y & Hy & [Hy1 _]%in_conversation_true & Ey); by exists y].
  pose proof (tally_update _ _ k _ b last (rows_of_named _ o c Htidy) (rows_of_named _ o c written_tidy)
                (rows_of_nodup _ o c Hnd) (rows_of_nodup _ o c written_nodup) Er Er' Ha Hb Ma Mb El Hne Elate) as Ht.
  destruct (tally_bounds _ rows_bound) as (B1 & B2 & B3). rewrite Ht in B1, B2, B3. cbn in B1, B2, B3.
  assert (∀ r, 0 ≤ unread_count_delta r ≤ 1) as Hd.
  { intros r. unfold unread_count_delta. destruct (is_unread_incoming r); lia. }
  pose proof (Hd b). pose proof (Hd (summary_message_row p)).
  unfold unread_mention_count_delta. rewrite Ma, Mb, E4. unfold i64_saturating_sub.
  rewrite !clamp_i64_id by (unfold is_i64, i64_min, i64_max; lia).
  split; [done|]. apply (counts_exact _ _ _ _ _ x _ _ _ _ _ Hs Ex Hx).
  rewrite expected_of. cbv zeta. rewrite Ht. cbn. rewrite first_again. f_equal. f_equal; lia.
Qed.

(** ** The delta is a rebuild *)

(** A message that counts does not become one that does not while it changes conversation. *)
Definition leaves_counted : Prop :=
  ∀ p, P = Some p → contributes_to_summary (summary_message_row p) = true →
       contributes_to_summary b = true ∨ conversation_of p = c.

Lemma moved_exact now p :
  P = Some p → conversation_of p ≠ c →
  match rebuild_touched now s1 {[ (o, conversation_of p); (o, c) ]} with
  | Ok r => px_read r.2 = px_read s1 ∧ exact r.2
  | Err e => refused s1 e
  end.
Proof.
  intros HP Hne. destruct (prev_key p HP) as [Hp [= Eo _]].
  destruct Hm as (Ho & Hc & _). destruct (Htidy p Hp) as (_ & Hcp & _).
  pose proof (touched_wrote now s1 {[ (o, conversation_of p); (o, c) ]}) as Hw.
  destruct (rebuild_touched now s1 _) as [r|e].
  - destruct Hw as [Hr Hw]; [intros k [->%elem_of_singleton| ->%elem_of_singleton]%elem_of_union; by split|].
    split; [done|]. intros o' c'. rewrite Hw. unfold messages_of. rewrite Hr. fold (messages_of s1).
    case_bool_decide as Ek; [done|]. unfold summary_at. rewrite Hsum. fold (summary_at s o' c').
    rewrite Hexact. symmetry. apply other_expected; [set_solver|].
    intros p' Ep' [<- <-]%in_conversation_true. exfalso. apply Ek.
    assert (p' = p) as -> by congruence. rewrite Eo. set_solver.
  - apply Hw. intros k [->%elem_of_singleton| ->%elem_of_singleton]%elem_of_union; by split.
Qed.

Lemma delta_exact now :
  leaves_counted →
  match apply_message_delta_or_rebuild now s1 (projection_of <$> P) (projection_of m) with
  | Ok r => px_read r.2 = px_read s1 ∧ exact r.2
  | Err e => refused s1 e
  end.
Proof.
  intros Hleave. unfold apply_message_delta_or_rebuild.
  cbn [projection_of pj_row pj_owner pj_conversation_id]. cbv zeta.
  destruct (contributes_to_summary b) eqn:Hb; cbn [negb orb].
  2: { apply single_exact. intros p Ep Hp. by destruct (Hleave p Ep Hp) as [|]; [congruence|]. }
  destruct P as [p|] eqn:HP; cbn [fmap option_fmap option_map].
  - cbn [projection_of pj_row pj_owner pj_conversation_id].
    destruct (prev_key p HP) as [_ [= Eo _]]. rewrite Eo, (bool_decide_eq_true_2 (o = o)) by done.
    destruct (contributes_to_summary (summary_message_row p)) eqn:Ha; cbn [negb orb].
    2: { apply single_exact. intros p' Ep' Hp'. congruence. }
    case_bool_decide as Ec; cbn [negb].
    2: { exact (moved_exact now p HP Ec). }
    assert (stays) as Hs by (intros p' Ep' _; congruence).
    destruct (is_unread_mention (summary_message_row p) || is_unread_mention b) eqn:Em;
      [by apply single_exact|]. apply orb_false_iff in Em as [Ma Mb].
    destruct (summary_state s1 o c) as [st|] eqn:Est; [|by apply single_exact].
    destruct (summary_at s1 o c) as [x|] eqn:Ex;
      [|unfold summary_state in Est; unfold summary_at in Ex; by rewrite Ex in Est].
    destruct (stored_summary x Ex) as (last & El & Hx).
    by apply (update_exact now p x last st).
  - destruct (summary_state s1 o c) as [st|] eqn:Est.
    + destruct (is_unread_mention b) eqn:Mb; [by apply single_exact, insert_stays|].
      destruct (summary_at s1 o c) as [x|] eqn:Ex;
        [|unfold summary_state in Est; unfold summary_at in Ex; by rewrite Ex in Est].
      destruct (stored_summary x Ex) as (last & El & Hx).
      by apply (insert_exact now x last st).
    + destruct (message_count_for_conversation s1 o c =? 1) eqn:En; [|by apply single_exact, insert_stays].
      split; [done|]. apply first_exact; [done|done|by apply Z.eqb_eq].
Qed.
End written.
