(* ===== verification/SummaryMark.v ===== *)
(** * Marking read and the summaries

    What marking messages read changes in the tallies of their conversations, and the delta
    that is applied for it. *)

From S2P Require Import Prelude RustStr ImError Decimal Store SyncStore Outbox Wire Lanes ReadState ReadBind ReadIds ReadProps Persona Peers PeerProps Summaries SummaryOrder SummaryProps SummaryRebuild SummaryDelta.
Local Open Scope Z_scope.

Lemma select_fmap {A B} (f : A → B) (q : B → bool) (l : list A) :
  select_where q (f <$> l) = f <$> select_where (λ x, q (f x)) l.
Proof.
  induction l as [|x l IH]; [done|]. rewrite fmap_cons, !select_cons, IH. by destruct (q (f x)).
Qed.
Lemma count_fmap {A B} (f : A → B) (q : B → bool) (l : list A) :
  count_where q (f <$> l) = count_where (λ x, q (f x)) l.
Proof. unfold count_where. by rewrite select_fmap, length_fmap. Qed.
Lemma select_ext {A} (p q : A → bool) (l : list A) :
  (∀ x, x ∈ l → p x = q x) → select_where p l = select_where q l.
Proof.
  induction l as [|x l IH]; intros Hpq; [done|]. rewrite !select_cons, (Hpq x) by by left.
  rewrite IH; [done|]. intros y Hy. apply Hpq. by right.
Qed.
Lemma select_false {A} (l : list A) : select_where (λ _, false) l = [].
Proof. induction l as [|x l IH]; [done|]. by rewrite select_cons. Qed.
Lemma select_true {A} (p : A → bool) (l : list A) : (∀ x, x ∈ l → p x = true) → select_where p l = l.
Proof.
  induction l as [|x l IH]; intros Hp; [done|]. rewrite select_cons, (Hp x) by by left. f_equal.
  apply IH. intros y Hy. apply Hp. by right.
Qed.
Lemma count_ext {A} (p q : A → bool) (l : list A) :
  (∀ x, x ∈ l → p x = q x) → count_where p l = count_where q l.
Proof. intros Hpq. unfold count_where. by rewrite (select_ext p q l Hpq). Qed.
(** What is counted by [p] is counted by [p] and [q] or by [p] and not [q]. *)
Lemma count_split {A} (p q : A → bool) (l : list A) :
  count_where p l = (count_where (λ x, p x && q x) l + count_where (λ x, p x && negb (q x)) l)%nat.
Proof.
  induction l as [|x l IH]; [done|]. unfold count_where in *. rewrite !select_cons.
  destruct (p x), (q x); cbn [andb negb length]; lia.
Qed.

Section mark.
Context `{WireCodec, JsonText}.
Variables (owner : string) (ids : list string).

Definition marks (m : MessageRow) : bool :=
  bool_decide (mg_owner_identity_id m = owner) && bool_decide (mg_msg_id m ∈ ids).
Definition mark_row (r : SummaryMessageRow) : SummaryMessageRow :=
  mkSummaryMessage (sm_msg_id r) (sm_owner_did r) (sm_direction r) (sm_sender_did r)
    (sm_receiver_did r) (sm_group_id r) (sm_group_did r) (sm_content_type r) (sm_content r)
    (sm_is_read r || bool_decide (sm_msg_id r ∈ ids)) (sm_sender_name r)
    (sm_mentions_current_user r) (sm_sort_at r) (sm_server_seq r) (sm_is_e2ee r).
(** An incoming row that is not read, and is being marked. *)
Definition newly_marked (r : SummaryMessageRow) : bool :=
  (sm_direction r =? 0) && negb (sm_is_read r) && bool_decide (sm_msg_id r ∈ ids).

Lemma mark_row_unread r :
  is_unread_incoming (mark_row r) = is_unread_incoming r && negb (bool_decide (sm_msg_id r ∈ ids)).
Proof.
  unfold is_unread_incoming, is_control_payload. cbn.
  destruct (sm_direction r =? 0), (sm_is_read r), (bool_decide (sm_msg_id r ∈ ids)); cbn;
    by rewrite ?andb_true_r, ?andb_false_r.
Qed.
Lemma mark_row_contributes r : contributes_to_summary (mark_row r) = contributes_to_summary r.
Proof. done. Qed.

Lemma rows_marked t c :
  rows_of (update_where marks set_read t) owner c = mark_row <$> rows_of t owner c.
Proof.
  unfold rows_of. induction t as [|m t IH]; [done|].
  change (update_where marks set_read (m :: t))
    with ((if marks m then set_read m else m) :: update_where marks set_read t).
  rewrite !select_cons.
  assert (in_conversation owner c (if marks m then set_read m else m) = in_conversation owner c m) as ->
    by by destruct (marks m).
  destruct (in_conversation owner c m) eqn:Ec; [|done]. rewrite !fmap_cons, IH. f_equal.
  apply in_conversation_true in Ec as [Eo _]. unfold marks. rewrite bool_decide_eq_true_2 by done.
  cbn [andb]. unfold mark_row. case_bool_decide as E; cbn.
  - rewrite bool_decide_eq_true_2 by done. by rewrite orb_true_r.
  - rewrite bool_decide_eq_false_2 by done. by rewrite orb_false_r.
Qed.
Lemma rows_unmarked t o c :
  o ≠ owner → rows_of (update_where marks set_read t) o c = rows_of t o c.
Proof.
  intros Hne. unfold rows_of. f_equal. apply select_update_other. intros m Hm.
  assert (in_conversation o c m = false) as Hc; [|split; exact Hc].
  apply not_true_iff_false. intros [Eo _]%in_conversation_true. unfold marks in Hm. bool_hyps. congruence.
Qed.

Lemma sorted_marked (l : list SummaryMessageRow) :
  NoDup (sm_msg_id <$> l) →
  merge_sort (le_of listed_cmp) (mark_row <$> l) = mark_row <$> merge_sort (le_of listed_cmp) l.
Proof.
  intros Hnd. apply (StronglySorted_unique_strong (le_of listed_cmp)).
  - intros x y Hx Hy Hxy Hyx. rewrite (merge_sort_Permutation (le_of listed_cmp)) in Hx.
    rewrite (merge_sort_Permutation (le_of listed_cmp) l) in Hy.
    apply (key_inj sm_msg_id (mark_row <$> l)); [|done|done|by apply listed_same_id].
    by rewrite <- list_fmap_compose.
  - apply StronglySorted_merge_sort; apply _.
  - assert (StronglySorted (le_of listed_cmp) (merge_sort (le_of listed_cmp) l)) as Hs
      by (apply StronglySorted_merge_sort; apply _).
    induction Hs as [|x k _ IH Hall]; [constructor|]. rewrite fmap_cons. constructor; [done|].
    rewrite Forall_fmap. exact Hall.
  - by rewrite !merge_sort_Permutation.
Qed.

Definition marked_count (l : list SummaryMessageRow) : Z := Z.of_nat (count_where newly_marked l).

(** Marking rows of which none that is new mentions the owner only takes from the count of the
    unread. *)
Lemma tally_marked (l : list SummaryMessageRow) :
  named l → NoDup (sm_msg_id <$> l) →
  (∀ r, r ∈ l → newly_marked r = true → contributes_to_summary r = true) →
  (∀ r, r ∈ l → newly_marked r = true → sm_mentions_current_user r = false) →
  tally_of (mark_row <$> l)
  = mkTally (ta_message_count (tally_of l)) (ta_unread_count (tally_of l) - marked_count l)
      (ta_unread_mention_count (tally_of l)) (ta_first_unread_mention (tally_of l))
      (mark_row <$> ta_last (tally_of l)).
Proof.
  intros Hn Hnd Hc Hm.
  assert (named (mark_row <$> l)) as Hn'.
  { intros r (r' & -> & Hr)%list_elem_of_fmap. exact (Hn _ Hr). }
  assert (∀ r, r ∈ l → counted_mention (mark_row r) = counted_mention r) as Hcm.
  { intros r Hr. unfold counted_mention, is_unread_mention. rewrite mark_row_contributes, mark_row_unread.
    pose proof (Hm r Hr) as Hx. unfold newly_marked, is_unread_incoming in *. cbn [mark_row sm_mentions_current_user].
    destruct (bool_decide (sm_msg_id r ∈ ids)); [|by rewrite andb_true_r].
    destruct (sm_direction r =? 0), (sm_is_read r), (sm_mentions_current_user r); cbn in *;
      rewrite ?andb_false_r; try done. by specialize (Hx eq_refl). }
  destruct (tally_of_counts (mark_row <$> l)) as (C1 & C2 & C3), (tally_of_counts l) as (D1 & D2 & D3).
  rewrite count_fmap in C1, C2, C3. rewrite (count_ext _ _ _ Hcm) in C3.
  rewrite (count_ext _ contributes_to_summary) in C1 by done.
  assert (Z.of_nat (count_where counted_unread l)
          = marked_count l + Z.of_nat (count_where (λ r, counted_unread (mark_row r)) l)) as E2.
  { rewrite (count_split counted_unread (λ r, bool_decide (sm_msg_id r ∈ ids))), Nat2Z.inj_add. f_equal.
    - unfold marked_count. f_equal. apply count_ext. intros r Hr. specialize (Hc r Hr).
      unfold counted_unread, is_unread_incoming, newly_marked in *.
      destruct (contributes_to_summary r) eqn:Eb; cbn [andb].
      + unfold contributes_to_summary in Eb. apply andb_true_iff in Eb as [_ ->]. by rewrite andb_true_r.
      + symmetry. apply not_true_iff_false. intros Hx. by specialize (Hc Hx).
    - f_equal. apply count_ext. intros r _. unfold counted_unread. rewrite mark_row_contributes, mark_row_unread.
      by rewrite andb_assoc. }
  assert (ta_first_unread_mention (tally_of (mark_row <$> l)) = ta_first_unread_mention (tally_of l)) as C4.
  { rewrite !tally_of_first by done. rewrite (sorted_marked l Hnd), select_fmap.
    rewrite (select_ext (λ r, counted_mention (mark_row r)) counted_mention).
    - by destruct (select_where counted_mention _).
    - intros r Hr. apply Hcm. by rewrite <- (merge_sort_Permutation (le_of listed_cmp) l). }
  assert (ta_last (tally_of (mark_row <$> l)) = mark_row <$> ta_last (tally_of l)) as C5.
  { pose proof (tally_of_last l) as Hl. destruct (ta_last (tally_of l)) as [x|].
    - apply tally_of_last_is; [by rewrite <- list_fmap_compose|]. rewrite select_fmap.
      destruct Hl as [Hx Hmax]. split; [by apply list_elem_of_fmap_2|].
      intros y (y' & -> & Hy)%list_elem_of_fmap. exact (Hmax y' Hy).
    - pose proof (tally_of_last (mark_row <$> l)) as Hl'. rewrite select_fmap in Hl'.
      replace (select_where (λ x, contributes_to_summary (mark_row x)) l) with
        (select_where contributes_to_summary l) in Hl' by done. rewrite Hl in Hl'.
      destruct (ta_last (tally_of (mark_row <$> l))) as [x|]; [|done].
      destruct Hl' as [Hx _]. by apply not_elem_of_nil in Hx. }
  destruct (tally_of (mark_row <$> l)) as [n1 n2 n3 n4 n5]. cbn [ta_message_count ta_unread_count ta_unread_mention_count
    ta_first_unread_mention ta_last] in *. f_equal; [lia..|done|done].
Qed.
End mark.

(** ** Counting the marked rows of each conversation *)

Definition mark_key (r : MarkReadSummaryRow) : string * string := (mr_owner r, mr_conversation_id r).
Definition has_key (k : string * string) (r : MarkReadSummaryRow) : bool := bool_decide (mark_key r = k).
Definition mentioning (k : string * string) (r : MarkReadSummaryRow) : bool :=
  has_key k r && mr_mentions_current_user r.
Notation entry t k := (default (0, 0, false) (t !! k)).
Lemma count_mark_entry t r k :
  entry (count_mark t r) k
  = (((entry t k).1.1 + (if has_key k r then 1 else 0),
      (entry t k).1.2 + (if mentioning k r then 1 else 0)), (entry t k).2 || mentioning k r).
Proof.
  unfold count_mark, mentioning, has_key. fold (mark_key r).
  destruct (entry t (mark_key r)) as [[u j] f] eqn:Et. case_bool_decide as Ek; cbn [andb].
  - subst k. rewrite lookup_insert_eq, Et. cbn [default from_option id fst snd].
    destruct (mr_mentions_current_user r); cbn; [by rewrite orb_true_r|].
    by rewrite orb_false_r, Z.add_0_r.
  - rewrite lookup_insert_ne by done. rewrite !Z.add_0_r, orb_false_r.
    by destruct (entry t k) as [[]].
Qed.
Lemma count_marks_entry rows t k :
  entry (fold_left count_mark rows t) k
  = (((entry t k).1.1 + Z.of_nat (count_where (has_key k) rows),
      (entry t k).1.2 + Z.of_nat (count_where (mentioning k) rows)),
     (entry t k).2 || (0 <? Z.of_nat (count_where (mentioning k) rows))).
Proof.
  revert t. induction rows as [|r rows IH]; intros t.
  { cbn. rewrite !Z.add_0_r, orb_false_r. by destruct (entry t k) as [[]]. }
  cbn [fold_left]. rewrite IH, count_mark_entry. cbn [fst snd]. rewrite !count_cons.
  f_equal; [f_equal; lia|]. rewrite <- orb_assoc. f_equal.
  destruct (mentioning k r); cbn [orb]; [symmetry; apply Z.ltb_lt; lia|done].
Qed.
Lemma count_marks_some rows t k :
  is_Some (fold_left count_mark rows t !! k) ↔ is_Some (t !! k) ∨ ∃ r, r ∈ rows ∧ mark_key r = k.
Proof.
  revert t. induction rows as [|r rows IH]; intros t; [set_solver|]. cbn [fold_left]. rewrite IH.
  unfold count_mark. fold (mark_key r). destruct (entry t (mark_key r)) as [[u j] f].
  setoid_rewrite elem_of_cons. destruct (decide (mark_key r = k)) as [<-|Hne].
  - rewrite lookup_insert_eq. naive_solver.
  - rewrite lookup_insert_ne by done. naive_solver.
Qed.

Section steps.
Context `{WireCodec, JsonText}.

Lemma update_counts_at now s (k k' : string * string) md ud nd f :
  summary_at (update_summary_counts now s k.1 k.2 md ud nd f) k'.1 k'.2
  = if bool_decide (k' = k) then add_counts now md ud nd f <$> summary_at s k.1 k.2
    else summary_at s k'.1 k'.2.
Proof.
  unfold summary_at. cbn [px_summaries update_summary_counts with_summaries]. case_bool_decide as E.
  - subst k'. rewrite head_select_updated; [done|]. intros y. by rewrite !summary_row_true.
  - rewrite select_update_other; [done|]. intros y Hy.
    assert ((k'.1, k'.2) ≠ (k.1, k.2)) as Hne by (destruct k, k'; cbn; congruence).
    split; apply (summary_row_other k.1 k.2); [done|done|done|]. by rewrite summary_row_true in *.
Qed.
Lemma summary_state_first s o c :
  ss_first_unread_mention <$> summary_state s o c
  = (λ x, default EmptyString (su_first_unread_mention x)) <$> summary_at s o c.
Proof. unfold summary_state, summary_at. by destruct (head _). Qed.

Definition lowered now (u j : Z) (x : SummaryRow) : SummaryRow :=
  add_counts now 0 (- u) (- j) (default EmptyString (su_first_unread_mention x)) x.
(** A conversation with a marked mention, or without a summary, is to be rebuilt; the counts
    of another are lowered. *)
Lemma mark_steps now l acc :
  NoDup l.*1 →
  let acc' := fold_left (mark_step now) l acc in
  px_read acc'.2 = px_read acc.2 ∧
  (∀ k, k ∉ l.*1 → summary_at acc'.2 k.1 k.2 = summary_at acc.2 k.1 k.2 ∧ (k ∈ acc'.1.2 ↔ k ∈ acc.1.2)) ∧
  (∀ k u j f, (k, (u, j, f)) ∈ l →
     match f, summary_at acc.2 k.1 k.2 with
     | false, Some x => summary_at acc'.2 k.1 k.2 = Some (lowered now u j x) ∧ (k ∈ acc'.1.2 ↔ k ∈ acc.1.2)
     | _, _ => k ∈ acc'.1.2
     end).
Proof.
  cbv zeta. revert acc. induction l as [|[k0 [[u0 j0] f0]] l IH]; intros [[ch rb] s] Hnd.
  { split_and!; [done|done|]. intros k u j f Hk. by apply not_elem_of_nil in Hk. }
  rewrite fmap_cons in Hnd. apply NoDup_cons in Hnd as [Hnot Hnd]. cbn [fst] in Hnot.
  cbn [fold_left]. destruct (IH (mark_step now (ch, rb, s) (k0, (u0, j0, f0))) Hnd) as (Hr & Ho & Hk).
  set (acc1 := mark_step now (ch, rb, s) (k0, (u0, j0, f0))) in *.
  assert (px_read acc1.2 = px_read s ∧
    (∀ k, k ≠ k0 → summary_at acc1.2 k.1 k.2 = summary_at s k.1 k.2 ∧ (k ∈ acc1.1.2 ↔ k ∈ rb)) ∧
    match f0, summary_at s k0.1 k0.2 with
    | false, Some x => summary_at acc1.2 k0.1 k0.2 = Some (lowered now u0 j0 x) ∧ (k0 ∈ acc1.1.2 ↔ k0 ∈ rb)
    | _, _ => k0 ∈ acc1.1.2
    end) as (Hr1 & Ho1 & Hk1).
  { subst acc1. cbn [mark_step]. destruct f0; [cbn; split_and!; [done|set_solver|set_solver]|].
    pose proof (summary_state_first s k0.1 k0.2) as Hf.
    destruct (summary_state s k0.1 k0.2) as [st|], (summary_at s k0.1 k0.2) as [x|] eqn:Ex; try done.
    - cbn in Hf. injection Hf as ->. cbn [snd fst]. split; [done|]. split.
      + intros k Hne. rewrite update_counts_at, bool_decide_eq_false_2 by done. done.
      + rewrite update_counts_at, bool_decide_eq_true_2, Ex by done. done.
    - cbn. split_and!; [done|set_solver|set_solver]. }
  clearbody acc1. cbn [fst snd]. split_and!.
  - by rewrite Hr, Hr1.
  - intros k Hnk. rewrite fmap_cons in Hnk. apply not_elem_of_cons in Hnk as [Hne Hnk]. cbn [fst] in Hne.
    destruct (Ho k Hnk) as [-> ->]. by apply Ho1.
  - intros k u j f [[= -> -> -> ->]|Hin]%elem_of_cons.
    + destruct (Ho k0 Hnot) as [E1 E2]. destruct f0; [by apply E2|].
      destruct (summary_at s k0.1 k0.2); [|by apply E2]. rewrite E1, E2. done.
    + assert (k ≠ k0) as Hne.
      { intros ->. apply Hnot, list_elem_of_fmap. by exists (k0, (u, j, f)). }
      destruct (Ho1 k Hne) as [E1 E2]. pose proof (Hk k u j f Hin) as Hx. rewrite E1 in Hx.
      destruct f; [done|]. destruct (summary_at s k.1 k.2); [|done]. by rewrite E2 in Hx.
Qed.
End steps.

(** ** The marked table *)

Section marked.
Context `{WireCodec, JsonText}.
Variables (s s1 : PeerDb) (o : string) (ids : list string) (rows : list MarkReadSummaryRow).
Notation t := (messages_of s).
Hypothesis (Hexact : exact s).
Hypothesis (Htidy : tidy t).
Hypothesis (Hnd : NoDup (message_key <$> t)).
Hypothesis (Ho : tidy_text o).
Hypothesis (Hrows : mark_read_summary_rows_for_message_ids s o ids = Ok rows).
Hypothesis (Hmsg : messages_of s1 = update_where (marks o ids) set_read t).
Hypothesis (Hsum : px_summaries s1 = px_summaries s).
Hypothesis (Hcount : ∀ m, m ∈ t → marks o ids m = true → unread_incoming m = true →
                     contributes_to_summary (summary_message_row m) = true).

Definition marks_unread (m : MessageRow) : bool :=
  bool_decide (mg_owner_identity_id m = o) && unread_incoming m && bool_decide (mg_msg_id m ∈ ids).
Lemma rows_are :
  rows = (λ m, mkMarkRead (mg_owner_identity_id m) (conversation_of m)
                 (negb (mg_mentions_current_user m =? 0))) <$> select_where marks_unread t.
Proof using Htidy Ho Hrows.
  clear Hexact Hnd Hmsg Hsum Hcount.
  revert Hrows. unfold mark_read_summary_rows_for_message_ids. rewrite (tidy_required _ _ Ho).
  cbn [mbind result_bind]. destruct ids as [|i0 tl] eqn:Ei.
  - intros [= <-]. rewrite (select_ext _ (λ _, false)); [|intros m _; unfold marks_unread; rewrite Ei;
      by rewrite (bool_decide_eq_false_2 _ (not_elem_of_nil _)), andb_false_r].
    by rewrite select_false.
  - intros [= <-]. rewrite <- Ei. fold marks_unread. apply select_true. intros r (m & -> & [Hm _]%elem_of_select_where)%list_elem_of_fmap.
    destruct (Htidy m Hm) as (H1 & H2 & _). cbn [mr_owner mr_conversation_id]. by rewrite (tidy_not_empty _ H1), (tidy_not_empty _ H2).
Qed.
Lemma rows_key r : r ∈ rows → mr_owner r = o ∧ tidy_key (mark_key r).
Proof.
  rewrite rows_are. intros (m & -> & [Hm Hu]%elem_of_select_where)%list_elem_of_fmap.
  destruct (Htidy m Hm) as (H1 & H2 & _). unfold marks_unread in Hu. bool_hyps. by split.
Qed.
Lemma count_rows c q q' :
  (∀ m, in_conversation o c m = true → q' (summary_message_row m) = q (negb (mg_mentions_current_user m =? 0))) →
  count_where (λ r, has_key (o, c) r && q (mr_mentions_current_user r)) rows
  = count_where (λ r, newly_marked ids r && q' r) (rows_of t o c).
Proof.
  intros Hq. rewrite rows_are, count_fmap. unfold rows_of. rewrite count_fmap.
  unfold count_where. rewrite !select_select. f_equal. apply select_ext. intros m _.
  unfold marks_unread, newly_marked, has_key, unread_incoming, mark_key. cbn.
  destruct (in_conversation o c m) eqn:Ec.
  - rewrite (Hq m Ec). apply in_conversation_true in Ec as [-> ->].
    rewrite !(bool_decide_eq_true_2 (_ = _)) by done. cbn.
    by destruct (mg_is_read m =? 0).
  - cbn. rewrite (bool_decide_eq_false_2 (_ = (o, c))); [by rewrite andb_false_r|].
    intros [= <- <-]. rewrite (proj2 (in_conversation_true _ _ m)) in Ec; done.
Qed.
Lemma count_key c : count_where (has_key (o, c)) rows = count_where (newly_marked ids) (rows_of t o c).
Proof.
  pose proof (count_rows c (λ _, true) (λ _, true) (λ _ _, eq_refl)) as E.
  rewrite (count_ext _ (has_key (o, c))) in E by (intros; by rewrite andb_true_r).
  by rewrite E, (count_ext _ (newly_marked ids)) by (intros; by rewrite andb_true_r).
Qed.
Lemma count_mention c :
  count_where (mentioning (o, c)) rows
  = count_where (λ r, newly_marked ids r && sm_mentions_current_user r) (rows_of t o c).
Proof. exact (count_rows c (λ b, b) sm_mentions_current_user (λ _ _, eq_refl)). Qed.

Lemma newly_contributes c r :
  r ∈ rows_of t o c → newly_marked ids r = true → contributes_to_summary r = true.
Proof.
  intros (m & Hm & [Eo _]%in_conversation_true & ->)%rows_of_in Hn.
  unfold newly_marked in Hn. cbn in Hn. rewrite negb_involutive in Hn.
  apply andb_true_iff in Hn as [Hu Hi]. apply Hcount; [done| |done].
  unfold marks. rewrite Hi, bool_decide_eq_true_2 by done. done.
Qed.
(** Without a marked mention, a rebuild would only find the unread fewer. *)
Lemma expected_marked c :
  count_where (mentioning (o, c)) rows = 0%nat →
  let T := tally_of (rows_of t o c) in
  expected (messages_of s1) o c
  = summary_from_last "" o c (ta_message_count T)
      (ta_unread_count T - Z.of_nat (count_where (has_key (o, c)) rows)) (ta_unread_mention_count T)
      (ta_first_unread_mention T) <$> ta_last T.
Proof.
  intros Hj. cbv zeta. rewrite expected_of, Hmsg, rows_marked, tally_marked.
  - cbn [ta_message_count ta_unread_count ta_unread_mention_count ta_first_unread_mention ta_last].
    cbv zeta. unfold marked_count. rewrite count_key.
    by destruct (ta_last (tally_of (rows_of t o c))).
  - by apply rows_of_named.
  - by apply rows_of_nodup.
  - apply newly_contributes.
  - intros r Hr Hn. rewrite count_mention in Hj. apply not_true_iff_false. intros Hm.
    assert (r ∈ select_where (λ r, newly_marked ids r && sm_mentions_current_user r) (rows_of t o c)) as Hin.
    { apply elem_of_select_where. by rewrite Hn, Hm. }
    unfold count_where in Hj. apply nil_length_inv in Hj. rewrite Hj in Hin. by apply not_elem_of_nil in Hin.
Qed.
Lemma expected_elsewhere o' c : o' ≠ o → expected (messages_of s1) o' c = expected t o' c.
Proof. intros Hne. by rewrite !expected_of, Hmsg, rows_unmarked. Qed.
Lemma unread_covers c :
  Z.of_nat (count_where (has_key (o, c)) rows) ≤ ta_unread_count (tally_of (rows_of t o c)).
Proof.
  rewrite count_key. destruct (tally_of_counts (rows_of t o c)) as (_ & -> & _). apply inj_le.
  rewrite (count_split counted_unread (newly_marked ids)).
  assert (count_where (newly_marked ids) (rows_of t o c)
          = count_where (λ r, counted_unread r && newly_marked ids r) (rows_of t o c)) as ->; [|lia].
  apply count_ext. intros r Hr. destruct (newly_marked ids r) eqn:En; [|by rewrite andb_false_r].
  pose proof (newly_contributes c r Hr En) as Hc. unfold counted_unread, is_unread_incoming. rewrite Hc.
  unfold contributes_to_summary in Hc. apply andb_true_iff in Hc as [_ ->].
  unfold newly_marked in En. apply andb_true_iff in En as [-> _]. done.
Qed.

Lemma marked_exact now :
  match apply_mark_read_delta_or_rebuild now s1 rows with
  | Ok r => px_read r.2 = px_read s1 ∧ exact r.2
  | Err e => refused s1 e
  end.
Proof.
  unfold apply_mark_read_delta_or_rebuild. cbv zeta. set (M := fold_left count_mark rows ∅).
  set (l := merge_sort entry_le (map_to_list M)).
  assert (∀ k v, (k, v) ∈ l ↔ M !! k = Some v) as Hl.
  { intros k v. unfold l. by rewrite merge_sort_Permutation, elem_of_map_to_list. }
  assert (NoDup l.*1) as Hndl.
  { unfold l. rewrite (merge_sort_Permutation entry_le (map_to_list M)). apply NoDup_fst_map_to_list. }
  assert (∀ k, is_Some (M !! k) → k.1 = o ∧ tidy_key k) as Hkey.
  { intros k [Hk|(r & Hr & <-)]%count_marks_some; [by rewrite lookup_empty in Hk; destruct Hk|].
    by apply rows_key. }
  destruct (mark_steps now l (0, ∅, s1) Hndl) as (Hr & Hout & Hin). cbv zeta in Hout, Hin.
  destruct (fold_left (mark_step now) l (0, ∅, s1)) as [[ch rb] s2]. cbn [fst snd] in Hr, Hout, Hin.
  assert (∀ k, k ∉ l.*1 ↔ M !! k = None) as Hnot.
  { intros k. rewrite eq_None_not_Some. apply not_iff_compat. rewrite list_elem_of_fmap. split.
    - intros ([k' v] & -> & Hv%Hl). by exists v.
    - intros [v Hv%Hl]. by exists (k, v). }
  assert (∀ k, k ∈ rb → tidy_key k) as Hrb.
  { intros k Hk. apply Hkey. destruct (M !! k) eqn:Em; [done|]. apply Hnot, Hout in Em as [_ E].
    set_solver. }
  pose proof (touched_wrote now s2 rb Hrb) as Hw.
  destruct (rebuild_touched now s2 rb) as [r|e]; cbn [mbind result_bind snd].
  2: { destruct Hw as (s3 & o' & c' & E3 & Ee). exists s3, o', c'. split; [by rewrite E3|done]. }
  destruct Hw as [Hr2 Hw]. split; [by rewrite Hr2|]. intros o' c'.
  assert (messages_of r.2 = messages_of s1 ∧ messages_of s2 = messages_of s1) as [-> Em2]
    by (unfold messages_of; by rewrite Hr2, Hr).
  rewrite Hw, Em2. case_bool_decide as Erb; [done|].
  assert (core <$> summary_at s1 o' c' = expected t o' c') as Hold
    by (unfold summary_at; rewrite Hsum; apply Hexact).
  pose proof (count_marks_entry rows ∅ (o', c')) as He. fold M in He. rewrite lookup_empty in He.
  cbn [default from_option id fst snd orb] in He. rewrite !Z.add_0_l in He.
  destruct (M !! (o', c')) as [[[u j] f]|] eqn:Em.
  - destruct (Hkey (o', c') (mk_is_Some _ _ Em)) as [[= ->] _]. cbn [default from_option id] in He.
    injection He as -> -> ->. pose proof (Hin (o, c') _ _ _ (proj2 (Hl _ _) Em)) as Hx. cbn [fst snd] in Hx.
    destruct (0 <? _) eqn:Ej in Hx; [done|]. apply Z.ltb_ge in Ej.
    destruct (summary_at s1 o c') as [x|] eqn:Ex; [|done]. destruct Hx as [-> _].
    rewrite expected_marked by lia. rewrite expected_of in Hold. cbv zeta in *.
    destruct (ta_last (tally_of (rows_of t o c'))) as [last|]; [|done].
    apply (inj Some) in Hold. cbn [fmap option_fmap option_map]. f_equal. unfold lowered.
    rewrite (add_counts_core _ _ _ _ _ _ _ _ _ _ _ _ _ Hold).
    pose proof (unread_covers c') as Hu.
    destruct (tally_of_counts (rows_of t o c')) as (C1 & C2 & C3).
    assert (su_first_unread_mention x = nullable_text (ta_first_unread_mention (tally_of (rows_of t o c')))) as ->
      by (apply (f_equal su_first_unread_mention) in Hold; exact Hold).
    rewrite first_again. f_equal; lia.
  - cbn [default from_option id] in He. injection He as E1 E2 _.
    destruct (Hout (o', c') (proj2 (Hnot _) Em)) as [Hs _]. cbn [fst snd] in Hs. rewrite Hs, Hold.
    destruct (decide (o' = o)) as [->|Hne]; [|by rewrite expected_elsewhere].
    rewrite expected_marked, expected_of by lia. cbv zeta. by rewrite <- E1, Z.sub_0_r.
Qed.
End marked.
