(* ===== verification/PeerProjectProps.v ===== *)
(** * A projection keeps the canonical state *)

From Stdlib Require Import Ascii.
From S2P Require Import Prelude RustStr ImError Decimal Store SyncStore Outbox Wire ReadState ReadBind ReadProps Persona PersonaProps Peers PeerProject PeerCheck PeerProps.
Local Open Scope Z_scope.

Section steps.
Context `{WireCodec, Idna}.
Implicit Types (s : PeerDb) (o : string) (ex : string → Prop).

Lemma alias_row_true a k v x : alias_row a k v x = true ↔ alias_key x = (a, k, v).
Proof. unfold alias_row, alias_key. rewrite !andb_true_iff, !bool_decide_eq_true. naive_solver. Qed.

(** An inserted alias, or one that was there already. *)
Lemma insert_alias_inv s r s' :
  insert_alias s r = Ok s' →
  trim (ar_alias r) ≠ trim (ar_canonical r) ∧
  (∀ a, a ∈ rd_aliases (px_read s) → al_owner a = trim (ar_owner r) →
     al_alias a ≠ trim (ar_canonical r)) ∧
  (∃ x, x ∈ px_registry s ∧ registry_key x = (trim (ar_owner r), trim (ar_canonical r)) ∧
     canonical_row x) ∧
  ∃ t, s' = with_aliases t s ∧
    (t = rd_aliases (px_read s) ∨
     t = rd_aliases (px_read s) ++ [mkAlias (trim (ar_owner r)) (trim (ar_kind r)) (trim (ar_alias r))
                                      (trim (ar_canonical r))] ∧
     ∀ a, a ∈ rd_aliases (px_read s) →
       alias_key a ≠ (trim (ar_owner r), trim (ar_kind r), trim (ar_alias r))).
Proof.
  unfold insert_alias, validate_alias, identity_conflict, identity_unresolved. cbv zeta. intros Hi.
  apply bind_Ok in Hi as (u & Hv & Hi). apply bind_Ok in Hv as (v & _ & Hv).
  case_bool_decide as Hne; [done|]. clear Hv.
  destruct (exists_where _ (rd_aliases _)) eqn:Ea; [done|].
  destruct (exists_where _ (px_registry s)) eqn:Er; [|done]. cbn [negb] in Hi.
  split; [done|]. split.
  { intros a Ha Oa E. apply (proj1 (exists_where_false _ _) Ea) in Ha. by rewrite !bool_decide_true in Ha. }
  split.
  { apply exists_where_true in Er as (x & Hx & Px). unfold is_merged, is_resolved in Px. bool_hyps.
    exists x. split_and!; [done|by apply registry_row_true|by split]. }
  destruct (head _) as [cur|] eqn:Eh.
  - case_bool_decide; [|done]. injection Hi as <-. exists (rd_aliases (px_read s)).
    split; [|by left]. by destruct s as [[]].
  - injection Hi as <-. eexists. split; [done|]. right. split; [done|]. intros a Ha Ka.
    apply alias_row_true in Ka.
    destruct (head_select_Some (alias_row (trim (ar_owner r)) (trim (ar_kind r)) (trim (ar_alias r)))
                (rd_aliases (px_read s))) as [y Hy]; [|congruence].
    apply exists_where_true. by exists a.
Qed.
Lemma insert_alias_resolves s r s' :
  insert_alias s r = Ok s' →
  resolve_alias (px_read s') (ar_owner r) (ar_kind r) (ar_alias r) = Some (trim (ar_canonical r)).
Proof.
  unfold insert_alias, identity_conflict, identity_unresolved. cbv zeta. intros Hi.
  apply bind_Ok in Hi as (_ & _ & Hi). destruct (exists_where _ (rd_aliases _)); [done|].
  destruct (negb _); [done|]. unfold resolve_alias.
  change (λ a, _ && _) with (alias_row (trim (ar_owner r)) (trim (ar_kind r)) (trim (ar_alias r))) in Hi |- *.
  destruct (head (select_where (alias_row _ _ _) _)) as [cur|] eqn:Eh.
  - case_bool_decide as Ec; [|done]. injection Hi as <-. rewrite Eh. cbn. by rewrite Ec.
  - injection Hi as <-. cbn. unfold select_where in *. rewrite filter_app.
    destruct (filter _ (rd_aliases _)); [|done]. cbn [app]. rewrite filter_cons_True; [done|].
    by apply alias_row_true.
Qed.
Lemma insert_alias_canon ex s r s' o :
  canon ex s o → insert_alias s r = Ok s' → trim (ar_owner r) = o →
  (∀ a, a ∈ rd_aliases (px_read s) → al_owner a = o → al_canonical a ≠ trim (ar_alias r)) →
  canon ex s' o.
Proof.
  intros Hc Hi Ho Hfree. apply insert_alias_inv in Hi as (Hne & Hna & Hreg & t & -> & Hor).
  rewrite Ho in *. destruct Hor as [->|[-> Hk]].
  { destruct Hc as [? [] []]. split; [done|by split|by split]. }
  destruct Hc as [Hkeys Hr Hl]. pose proof Hkeys as (_ & _ & _ & _ & Ka).
  apply canon_aliases; [by split| | |].
  - rewrite fmap_app. apply NoDup_app. split_and!; [done| |apply NoDup_singleton].
    intros k (a & -> & Ha)%list_elem_of_fmap Hka%list_elem_of_singleton. by apply (Hk a).
  - intros a [Ha| ->%list_elem_of_singleton]%elem_of_app Oa; [by apply (lw_alias _ _ _ Hl)|done].
  - intros a b [Ha| ->%list_elem_of_singleton]%elem_of_app [Hb| ->%list_elem_of_singleton]%elem_of_app Oa Ob;
      cbn; [by apply (lw_flat _ _ _ Hl)| | |done].
    + intros E. by apply (Hfree a Ha Oa).
    + by apply Hna.
Qed.

Lemma profile_canon ex at_time s o p h profile s' :
  canon ex s o → upsert_from_verified_lookup at_time s o p h profile = Ok s' →
  trim o = o → has_persona s o (trim p) →
  canon ex s' o ∧ ∃ t, s' = with_profiles t s.
Proof.
  unfold upsert_from_verified_lookup, constraint_failed. cbv zeta. intros Hc Hu Ho Hh.
  apply bind_Ok in Hu as (older & _ & Hu). destruct older.
  { injection Hu as <-. split; [done|]. exists (px_profiles s). by destruct s. }
  destruct (exists_where _ _) in Hu.
  - injection Hu as <-. split; [|by eexists]. apply canon_profiles; [done|].
    intros q (x & Hx & ->)%elem_of_update_where Oq. destruct (profile_row _ _ x) eqn:Ex.
    + cbn in *. by apply (lw_profile _ _ _ (cn_links _ _ _ Hc)).
    + by apply (lw_profile _ _ _ (cn_links _ _ _ Hc)).
  - destruct (exists_where _ _) in Hu; [|done]. injection Hu as <-. split; [|by eexists].
    apply canon_profiles; [done|]. intros q [Hq| ->%list_elem_of_singleton]%elem_of_app Oq.
    + by apply (lw_profile _ _ _ (cn_links _ _ _ Hc)).
    + done.
Qed.
Lemma contacts_canon ex s o p s' :
  canon ex s o → bind_contacts s o p = Ok s' → canon ex s' o ∧ ∃ t, s' = with_contacts t s.
Proof.
  unfold bind_contacts, identity_conflict. intros Hc Hb. destruct (exists_where _ _); [done|].
  injection Hb as <-. split; [by apply canon_contacts|by eexists].
Qed.

(** After the DID is bound it is the only current one. *)
Lemma bound_current s t o p did :
  bound (px_identifiers (retire_other_dids o p did s)) t o p "did" did true →
  current_ok (with_identifiers t (retire_other_dids o p did s)) o p did.
Proof.
  intros Hb. split; cbn [px_identifiers with_identifiers].
  - destruct (bd_row _ _ _ _ _ _ _ Hb) as (i & Hi & Ki).
    destruct (bd_mine _ _ _ _ _ _ _ Hb i Hi Ki) as [Ep Ec]. injection Ki as Eo Ek Ev.
    exists i. unfold is_did. rewrite Ek. split_and!; try done. by apply of_persona_true.
  - intros i Hi Hof Hd Hcur.
    destruct (decide (identifier_key i = (o, "did"%string, did))) as [Ki|Hne]; [by injection Ki|].
    apply (bd_other _ _ _ _ _ _ _ Hb i Hne) in Hi. cbn in Hi.
    apply elem_of_update_where in Hi as (j & Hj & ->).
    destruct (of_persona o p j && is_did j && negb (bool_decide (pi_value j = did))) eqn:Ej.
    + done.
    + rewrite Hof, Hd in Ej. cbn in Ej. by bool_hyps.
Qed.
End steps.

(** ** The identifiers, the route and the conversation of a persona *)

Section bind.
Context `{WireCodec, Idna, !HexDigest, !IdnaLaws}.
Implicit Types (s : PeerDb) (o : string).

(** The persona, its handle, its DID and its route are stored. *)
Record peer_stored s o (p : PeerPersona) (did : string) : Prop := {
  st_persona : ∃ y, y ∈ px_personas s ∧ pp_owner y = o ∧ pp_persona y = p;
  st_handle : ∃ i, i ∈ px_identifiers s ∧ identifier_key i = (o, "handle"%string, ps_full_handle p) ∧
    pi_persona_id i = ps_peer_persona_id p ∧ pi_is_current i = true;
  st_did : ∃ i, i ∈ px_identifiers s ∧ identifier_key i = (o, "did"%string, did) ∧
    pi_persona_id i = ps_peer_persona_id p ∧ pi_is_current i = true;
  st_current : current_ok s o (ps_peer_persona_id p) did;
  st_route : ∃ r, r ∈ px_routes s ∧ route_key r = (o, persona_conversation_id p) ∧
    dr_persona_id r = Some (ps_peer_persona_id p) ∧ dr_current_did r = did }.

(** A persona as it is derived from a lookup. *)
Definition derived (p : PeerPersona) : Prop := ∃ d u h st, from_verified_handle d u h st = Ok p.

Lemma derived_stable p : derived p →
  from_verified_handle (ps_authority_namespace p) (ps_authority_subject_id p) (ps_full_handle p)
    (Some "verified"%string) = Ok p.
Proof. intros (d & u & h & st & Hp). by eapply persona_stable. Qed.
Lemma derived_id p : derived p →
  trim (ps_peer_persona_id p) = ps_peer_persona_id p ∧
  is_empty (sql_trim (ps_peer_persona_id p)) = false.
Proof.
  intros (d & u & h & st & Hp). rewrite (persona_of_handle _ _ _ _ _ Hp). split.
  - apply trim_persona_id.
  - by apply (sql_trim_head "p").
Qed.
Lemma derived_handle p : derived p → trim (ps_full_handle p) = ps_full_handle p.
Proof.
  intros (d & u & h & st & Hp). unfold from_verified_handle in Hp.
  apply bind_Ok in Hp as (n & Hn & Hp). apply bind_Ok in Hp as (sub & _ & Hp).
  apply bind_Ok in Hp as ([] & _ & Hp). apply bind_Ok in Hp as (hh & Hh & Hp).
  apply bind_Ok in Hp as ([] & Ha & Hp). apply bind_Ok in Hp as ([] & _ & Hp). injection Hp as <-.
  apply namespace_stable in Hn as (_ & Hend & Hne & _).
  destruct (handle_stable _ _ _ Hh Ha Hend Hne) as (_ & Hhost & _). by apply host_trim.
Qed.

Lemma from_persona_inv now o p did r :
  from_verified_persona now o p did = Ok r → trim o = o → Did_parse did = Ok did →
  r = mkRoute o (persona_conversation_id p) (Some (ps_peer_persona_id p))
        (Some (ps_authority_namespace p)) (ps_authority_subject_id p) (ps_full_handle p) did now.
Proof.
  unfold from_verified_persona, required, parse_non_empty. intros Hr Ho Hd.
  apply bind_Ok in Hr as (d & Hd1 & Hr). apply bind_Ok in Hr as (? & _ & Hr).
  apply bind_Ok in Hr as (o' & Ho' & Hr). apply Did_parse_inv in Hd as [Ed _].
  destruct (is_empty _) in Hd1; [done|]. destruct (is_empty _) in Ho'; [done|].
  simplify_eq. by rewrite Ho, <- Ed.
Qed.

(** What is stored of a peer once its handle and DID are bound. *)
Lemma bind_verified_inv clock s o p kind value generation s' :
  canon (λ q, q = p) s o → bind_verified clock s o p kind value generation = Ok s' →
  trim o = o → trim p = p → trim kind = kind → trim value = value →
  canon (λ q, q = p) s' o ∧ ∃ t, s' = with_identifiers t s ∧
    bound (px_identifiers s) t o p kind value true.
Proof.
  intros Hc Hb Ho Hp Hk Hv. unfold bind_verified in Hb.
  apply (bind_canon (λ q, q = p) _ s _ s' o Hc) in Hb; cbn [pi_owner pi_persona_id pi_kind pi_value pi_is_current] in *;
    [by rewrite Hp, Hk, Hv in Hb|done..].
Qed.
Lemma both_bound s t t' o p handle did :
  bound (px_identifiers s) t o p "handle" handle true →
  bound (px_identifiers (retire_other_dids o p did (with_identifiers t s))) t' o p "did" did true →
  (∃ i, i ∈ t' ∧ identifier_key i = (o, "handle"%string, handle) ∧ pi_persona_id i = p ∧
     pi_is_current i = true) ∧
  ∃ i, i ∈ t' ∧ identifier_key i = (o, "did"%string, did) ∧ pi_persona_id i = p ∧
    pi_is_current i = true.
Proof.
  intros Hh Hd. split.
  - destruct (bd_row _ _ _ _ _ _ _ Hh) as (i & Hi & Ki).
    destruct (bd_mine _ _ _ _ _ _ _ Hh i Hi Ki) as [Ep Ec]. exists i. split; [|done].
    apply (bd_other _ _ _ _ _ _ _ Hd); [congruence|]. cbn. apply elem_of_update_where. exists i.
    split; [done|]. unfold is_did. injection Ki as _ -> _. by rewrite andb_false_r.
  - destruct (bd_row _ _ _ _ _ _ _ Hd) as (i & Hi & Ki).
    destruct (bd_mine _ _ _ _ _ _ _ Hd i Hi Ki) as [Ep Ec]. by exists i.
Qed.

(** The route of a persona is the only one with its id. *)
Lemma route_of_persona ex s o p r :
  canon ex s o → derived p → (∃ y, y ∈ px_personas s ∧ pp_owner y = o ∧ pp_persona y = p) →
  r ∈ px_routes s → dr_owner r = o → dr_persona_id r = Some (ps_peer_persona_id p) →
  dr_conversation_id r = persona_conversation_id p.
Proof.
  intros Hc Hp (y & Hy & Oy & Py) Hr Or Hq.
  assert (factory_match r y = true) as Hf.
  { apply (lw_factory _ _ _ (cn_links _ _ _ Hc)); try done. unfold persona_of_route.
    rewrite Py, Hq, Oy, Or. by rewrite !bool_decide_true. }
  unfold factory_match in Hf. rewrite Py, (derived_stable p Hp) in Hf. by bool_hyps.
Qed.
Lemma canonical_at ex s o p r :
  canon ex s o → (∀ q, ex q → q = ps_peer_persona_id p) → derived p →
  (∃ y, y ∈ px_personas s ∧ pp_owner y = o ∧ pp_persona y = p) →
  r ∈ px_routes s → route_key r = (o, persona_conversation_id p) →
  current_ok s o (ps_peer_persona_id p) (dr_current_did r) → canonical s o.
Proof.
  intros Hc Hex Hp Hst Hr Kr Hcur. pose proof (λ x Hx, route_of_persona _ _ _ _ x Hc Hp Hst Hx) as Hone.
  destruct Hc as [Hk Hreg [? ? ? ? ? ? ? ? Lc]]. split; [done..|]. split; try done.
  intros x q Hx Ox Hq _. destruct (decide (q = ps_peer_persona_id p)) as [->|Hne].
  - assert (x = r) as ->; [|done]. destruct Hk as (_ & _ & Kn & _).
    apply (key_inj route_key (px_routes s)); [done..|]. rewrite Kr. unfold route_key.
    by rewrite Ox, (Hone x Hx Ox Hq).
  - apply (Lc x q); auto.
Qed.

(** The identifiers, profile and contacts of the persona. *)
Lemma bind_identity_inv clock s o lookup p generation s' :
  canon (λ q, q = ps_peer_persona_id p) s o → derived p → trim o = o →
  Did_parse (hl_did lookup) = Ok (hl_did lookup) → has_persona s o (ps_peer_persona_id p) →
  bind_identity clock s o lookup p generation = Ok s' →
  let id := ps_peer_persona_id p in
  canon (λ q, q = id) s' o ∧ current_ok s' o id (hl_did lookup) ∧
  (∃ i, i ∈ px_identifiers s' ∧ identifier_key i = (o, "handle"%string, ps_full_handle p) ∧
     pi_persona_id i = id ∧ pi_is_current i = true) ∧
  (∃ i, i ∈ px_identifiers s' ∧ identifier_key i = (o, "did"%string, hl_did lookup) ∧
     pi_persona_id i = id ∧ pi_is_current i = true) ∧
  (∃ ti tp tc, s' = with_contacts tc (with_profiles tp (with_identifiers ti s))) ∧
  ∀ i, i ∈ px_identifiers s' → pi_persona_id i = id ∨
    ∃ j, j ∈ px_identifiers s ∧ pi_owner j = pi_owner i ∧ pi_persona_id j = pi_persona_id i.
Proof.
  intros Hc Hp Ho Hdid Hh Hb. unfold bind_identity in Hb. rewrite Ho in Hb. cbv zeta.
  destruct (derived_id p Hp) as [Tid _]. destruct (Did_parse_inv _ _ Hdid) as [Tdid _].
  set (id := ps_peer_persona_id p) in *. set (did := hl_did lookup) in *.
  apply bind_Ok in Hb as (sa & Ha & Hb).
  apply bind_verified_inv in Ha as (Ca & ta & -> & Ba); [|done..|by apply derived_handle].
  apply bind_Ok in Hb as (sb & Hb' & Hb). apply (retire_canon _ _ _ id did) in Ca; [|done].
  apply bind_verified_inv in Hb' as (Cb & tb & -> & Bb); [|done..].
  destruct (both_bound _ _ _ _ _ _ _ Ba Bb) as [Ih Id]. pose proof (bound_current _ _ _ _ _ Bb) as Cur.
  set (sb := with_identifiers tb _) in *. apply bind_Ok in Hb as (sc & Hprof & Hcon).
  assert (canon (λ q, q = id) sc o ∧ ∃ t, sc = with_profiles t sb) as [Cc [tc ->]].
  { destruct (hl_profile lookup); [|injection Hprof as <-; split; [done|by exists (px_profiles sb)]].
    eapply profile_canon; [done|exact Hprof|done|]. by rewrite Tid. }
  apply (contacts_canon _ _ _ _ _ Cc) in Hcon as [Cd [td ->]].
  split_and!; [done..|by exists tb, tc, td|]. cbn. intros i Hi.
  destruct (decide (identifier_key i = (o, "did"%string, did))) as [Ki|Ki].
  { left. by destruct (bd_mine _ _ _ _ _ _ _ Bb i Hi Ki). }
  apply (bd_other _ _ _ _ _ _ _ Bb i Ki) in Hi. cbn in Hi. apply elem_of_update_where in Hi as (j & Hj & ->).
  destruct (decide (identifier_key j = (o, "handle"%string, ps_full_handle p))) as [Kj|Kj].
  { left. destruct (bd_mine _ _ _ _ _ _ _ Ba j Hj Kj). by destruct (_ && _). }
  right. exists j. split; [by apply (bd_other _ _ _ _ _ _ _ Ba j Kj)|]. by destruct (_ && _).
Qed.

(** The route, the conversation and the alias of the DID. *)
Lemma bind_route_inv clock s o owner_did lookup p conv s' :
  canon (λ q, q = ps_peer_persona_id p) s o → derived p → trim o = o →
  Did_parse (hl_did lookup) = Ok (hl_did lookup) →
  (∃ y, y ∈ px_personas s ∧ pp_owner y = o ∧ pp_persona y = p) →
  current_ok s o (ps_peer_persona_id p) (hl_did lookup) →
  bind_route clock s o owner_did lookup p = Ok (conv, s') →
  conv = persona_conversation_id p ∧ canonical s' o ∧
  ∃ route tr tg ta, s' = with_aliases ta (with_registry tg (with_routes tr s)) ∧
    (ta = rd_aliases (px_read s) ∨
     ta = rd_aliases (px_read s) ++ [mkAlias o "verified_did" (direct_conversation_id (hl_did lookup)) conv]) ∧
    (∀ x, x ∈ tg → registry_key x = (o, conv) ∨ x ∈ px_registry s) ∧
    placed route_key route (px_routes s) tr ∧ route_key route = (o, conv) ∧
    dr_persona_id route = Some (ps_peer_persona_id p) ∧ dr_current_did route = hl_did lookup.
Proof.
  intros Hc Hp Ho Hdid Hst Cur Hb. unfold bind_route in Hb. rewrite Ho in Hb.
  destruct (did_conversation _ Hdid) as (Edm & Tdm & Sdm). destruct (derived_id p Hp) as [_ Nid].
  set (id := ps_peer_persona_id p) in *. apply bind_Ok in Hb as (route & Hroute & Hb).
  apply from_persona_inv in Hroute as Er; [|done..].
  apply bind_Ok in Hb as (se & He & Hb). apply bind_Ok in Hb as (sf & Hf & Hb).
  apply bind_Ok in Hb as (sg & Hg & Hb). injection Hb as <- <-.
  assert (dr_conversation_id route = persona_conversation_id p) as Ec by by rewrite Er.
  rewrite Ec in *. split; [done|]. pose proof Hg as (_ & _ & Hok & tg & Eg & Htg)%insert_alias_inv.
  cbn [ar_owner ar_kind ar_alias ar_canonical] in Hok, Htg.
  rewrite Ho, trim_conversation in Hok, Htg. rewrite Edm, Tdm in Htg.
  assert (dr_owner route = o ∧ dr_conversation_id route = persona_conversation_id p ∧
          dr_persona_id route = Some id ∧ is_Some (dr_authority_namespace route)) as Hroute'
    by (rewrite Er; by split_and!).
  set (record := mkRegistryRecord o _ _ _ _ _) in Hf.
  assert (cr_owner record = o ∧ cr_conversation_id record = persona_conversation_id p ∧
          cr_thread_kind record = "direct"%string) as Hrec by done.
  pose proof (place_canon (λ q, q = id) s o p route record se sf Hc eq_refl Hst (derived_stable p Hp) Nid
    Hroute' Hrec He Hf Hok) as Cf.
  destruct (route_table _ s o p route record se sf Hc Hroute' He Hf) as (_ & Pr & Ese).
  destruct (registry_table _ s o p route record se sf Hc Hroute' Hrec He Hf) as (_ & Krow & Pg & _ & Esf).
  apply (insert_alias_canon _ _ _ _ o Cf) in Hg as Cg; cbn [ar_owner ar_alias] in *; [|done|].
  2:{ intros a Ha Oa E. destruct (lw_alias _ _ _ (cn_links _ _ _ Cf) a Ha Oa) as (r & Hr & [= Or Cr'] & Cr).
      apply (rw_named _ _ (cn_registry _ _ _ Cf)) in Cr; [|done..]. rewrite Cr', E, Edm, Tdm, Sdm in Cr. done. }
  assert (px_read sf = px_read s) as Erd by by rewrite Esf, Ese. rewrite Erd in Htg.
  assert (route_key route = (o, persona_conversation_id p)) as Kroute by by rewrite Er.
  assert (dr_current_did route = hl_did lookup) as Edid by by rewrite Er.
  rewrite Esf, Ese in Eg. split.
  - apply (canonical_at (λ q, q = id) sg o p route); [done..| | | |]; rewrite ?Edid, ?Eg; try done. apply Pr. by right.
  - exists route, (px_routes se), (px_registry sf), tg. rewrite Edm. split_and!; try done.
    + destruct Htg as [?|[-> _]]; [by left|by right].
    + intros x [[? _]| ->]%Pg; [by right|by left].
    + by destruct Hroute' as (_ & _ & ? & _).
Qed.

Lemma bind_stored s o p did s' ta tg tr route :
  s' = with_aliases ta (with_registry tg (with_routes tr s)) →
  placed route_key route (px_routes s) tr → route_key route = (o, persona_conversation_id p) →
  dr_persona_id route = Some (ps_peer_persona_id p) → dr_current_did route = did →
  (∃ y, y ∈ px_personas s ∧ pp_owner y = o ∧ pp_persona y = p) →
  current_ok s o (ps_peer_persona_id p) did →
  (∃ i, i ∈ px_identifiers s ∧ identifier_key i = (o, "handle"%string, ps_full_handle p) ∧
     pi_persona_id i = ps_peer_persona_id p ∧ pi_is_current i = true) →
  (∃ i, i ∈ px_identifiers s ∧ identifier_key i = (o, "did"%string, did) ∧
     pi_persona_id i = ps_peer_persona_id p ∧ pi_is_current i = true) →
  peer_stored s' o p did.
Proof. intros -> Pr Kr Er Ed Hst Hcur Hh Hd. split; try done. exists route. split; [apply Pr; by right|done]. Qed.
End bind.
