(* ===== verification/PeerMigrate.v ===== *)
(** * The repair of a foreign persona keeps the canonical state *)

From Stdlib Require Import Ascii.
From S2P Require Import Prelude RustStr ImError Decimal Store SyncStore Outbox Wire ReadState ReadBind ReadProps Persona PersonaProps Peers PeerProject PeerCheck PeerProps PeerProjectProps.
Local Open Scope Z_scope.

Section moves.
Context `{WireCodec, Idna}.
Implicit Types (s : PeerDb) (o : string) (ex : string → Prop).

Lemma move_identifier_key o old new i : identifier_key (move_identifier o old new i) = identifier_key i.
Proof. unfold move_identifier. by destruct (of_persona _ _ _). Qed.

Lemma move_persona_canon ex s o old new s' :
  canon ex s o → ex old → ex new → has_persona s o new → move_persona s o old new = Ok s' →
  canon ex s' o ∧ ∃ ti tp tc tm, s' = with_members tm (with_contacts tc (with_profiles tp (with_identifiers ti s))).
Proof.
  unfold move_persona, constraint_failed. intros Hc Ho Hn Hh Hm. destruct (_ && _); [done|].
  injection Hm as <-. split; [|by do 4 eexists]. pose proof (cn_keys _ _ _ Hc) as (_ & Ki & _).
  pose proof (lw_identifier _ _ _ (cn_links _ _ _ Hc)) as Hi.
  pose proof (lw_profile _ _ _ (cn_links _ _ _ Hc)) as Hp.
  apply canon_members, canon_contacts, canon_profiles; [apply canon_identifiers; [done| | |]|].
  - rewrite <- list_fmap_compose, (list_fmap_ext _ identifier_key); [done|]. intros ? i _. apply move_identifier_key.
  - intros i (j & -> & Hj)%list_elem_of_fmap. unfold move_identifier. destruct (of_persona o old j); [done|auto].
  - intros p i Hp' Hof. rewrite list_elem_of_fmap. unfold move_identifier.
    apply of_persona_true in Hof as [Oi Pi]. split.
    + intros (j & Ej & Hj). destruct (of_persona o old j) eqn:Eo; [|congruence]. subst i. cbn in Pi.
      by subst new.
    + intros Hj. exists i. destruct (of_persona o old i) eqn:Eo; [|done].
      apply of_persona_true in Eo as [_ Eo]. exfalso. apply Hp'. by rewrite <- Pi, Eo.
  - intros p (q & -> & Hq)%list_elem_of_fmap. unfold move_profile. destruct (profile_row o old q); [done|apply Hp, Hq].
Qed.

Lemma flatten_canon ex s o old new :
  canon ex s o → (∃ r, r ∈ px_registry s ∧ registry_key r = (o, new) ∧ canonical_row r) →
  (∀ a, a ∈ rd_aliases (px_read (flatten_aliases o old new s)) → al_owner a = o → al_alias a ≠ new) →
  canon ex (flatten_aliases o old new s) o.
Proof.
  intros Hc Hnew Hna. unfold flatten_aliases in *. cbn in Hna. set (f := λ a : ConversationAlias, _) in *.
  pose proof (cn_keys _ _ _ Hc) as (_ & _ & _ & _ & Ka). pose proof (cn_links _ _ _ Hc) as Hl.
  assert (∀ a, alias_key (f a) = alias_key a) as Hk by (intros a; unfold f; by destruct (_ && _)).
  assert (∀ a, al_owner a = o → al_canonical (f a) = new ∨ al_canonical (f a) = al_canonical a) as Hcan.
  { intros a Oa. unfold f. destruct (_ && _); auto. }
  apply canon_aliases; [done| | |].
  - rewrite <- list_fmap_compose, (list_fmap_ext _ alias_key); [done|]. intros ? a _. apply Hk.
  - intros b (a & -> & Ha)%list_elem_of_fmap Oa. pose proof (Hk a) as [= Eo _ _]. rewrite Eo in Oa.
    destruct (Hcan a Oa) as [-> | ->]; [done|]. by apply (lw_alias _ _ _ Hl).
  - intros x y Hx Hy Ox Oy. apply list_elem_of_fmap in Hx as (a & -> & Ha).
    pose proof (Hk a) as [= Eo _ _]. rewrite Eo in Ox. destruct (Hcan a Ox) as [-> | ->]; [by apply Hna|].
    apply list_elem_of_fmap in Hy as (b & -> & Hb). pose proof (Hk b) as [= Eob _ Ealias].
    rewrite Ealias. apply (lw_flat _ _ _ Hl); [done..|congruence].
Qed.
Lemma flatten_free o old new s a :
  old ≠ new → a ∈ rd_aliases (px_read (flatten_aliases o old new s)) → al_owner a = o → al_canonical a ≠ old.
Proof.
  intros Hne. unfold flatten_aliases. cbn. intros (b & -> & Hb)%list_elem_of_fmap.
  destruct (_ && _) eqn:E; cbn; [done|]. intros Ob Cb. by rewrite !bool_decide_true in E.
Qed.

Lemma move_conversation_canon ex s o old new s' :
  canon ex s o → registered s o new → move_conversation s o old new = Ok s' →
  canon ex s' o ∧ ∃ r, s' = with_read r s ∧ rd_aliases r = rd_aliases (px_read s).
Proof.
  unfold move_conversation, constraint_failed. cbv zeta. intros Hc Hn Hm. destruct (_ || _) in Hm; [done|].
  injection Hm as <-. split; [|by eexists]. apply canon_read; [done..|]. cbn [rd_db].
  intros m (x & -> & Hx)%list_elem_of_fmap. unfold move_message, rename_if.
  pose proof (lw_message _ _ _ (cn_links _ _ _ Hc) x Hx) as Hreg.
  destruct (bool_decide (mg_owner_identity_id x = o)); [|done]. cbn [mg_owner_identity_id mg_conversation_id].
  by destruct (bool_decide _).
Qed.

(** A conversation is merged into another and its route is deleted. *)
Lemma mark_merged_inv now s o c target s' :
  mark_merged now s o c target = Ok s' → trim o = o → trim c = c → trim target = target →
  s' = with_registry (update_where (registry_row o c) (merge_into now target) (px_registry s)) s ∧
  registered s o target.
Proof.
  unfold mark_merged, identity_unresolved. intros Hm Ho Hc Ht. rewrite Ho, Hc, Ht in Hm.
  destruct (exists_where _ _) eqn:E; [|done]. injection Hm as <-. split; [done|].
  apply exists_where_true in E as (x & Hx & Kx). bool_hyps. exists x. split; [done|]. by apply registry_row_true.
Qed.

Section away.
Variables (now : string) (s : PeerDb) (o c target : string).
Notation merged := (update_where (registry_row o c) (merge_into now target) (px_registry s)).
Definition away : PeerDb :=
  with_routes (delete_where (route_row o c) (px_routes s)) (with_registry merged s).

Lemma merged_row r : r ∈ merged →
  (r ∈ px_registry s ∧ registry_key r ≠ (o, c)) ∨
  (∃ x, x ∈ px_registry s ∧ registry_key r = registry_key x ∧ registry_key x = (o, c) ∧
     rg_lifecycle r = "merged"%string ∧ rg_merged_into r = Some target).
Proof.
  intros (x & Hx & ->)%elem_of_update_where. destruct (registry_row o c x) eqn:E.
  - right. exists x. split_and!; try done. by apply registry_row_true.
  - left. split; [done|]. intros K%registry_row_true. congruence.
Qed.
Lemma merged_other r : r ∈ px_registry s → registry_key r ≠ (o, c) → r ∈ merged.
Proof.
  intros Hr Hne. apply elem_of_update_where. exists r. split; [done|].
  destruct (registry_row o c r) eqn:E; [|done]. by apply registry_row_true in E.
Qed.
Lemma merged_registered a d : registered s a d → registered away a d.
Proof.
  intros (x & Hx & Kx). eexists. split; [apply elem_of_update_where; by exists x|].
  destruct (registry_row o c x); [exact Kx|done].
Qed.

Lemma away_canon ex :
  canon ex s o → registered s o target → is_empty (sql_trim target) = false →
  (∀ a, a ∈ rd_aliases (px_read s) → al_owner a = o → al_canonical a ≠ c) → canon ex away o.
Proof.
  intros [(Kp & Ki & Kr & Kg & Ka) [Rd Rg Rp Rgd Rm Rn] [La Lf Lp Lg Lfac Lpf Li Lm Lc]] Ht Hne Hfree.
  assert (∀ r, r ∈ px_routes away → r ∈ px_routes s ∧ route_key r ≠ (o, c)) as Hroutes.
  { intros r Hr. cbn in Hr. apply elem_of_delete_where in Hr as [Hr E]. split; [done|].
    intros K%route_row_true. congruence. }
  assert (∀ kind r, r ∈ merged → live kind r → r ∈ px_registry s) as Hlive.
  { intros kind r [[? _]|(x & _ & _ & _ & E & _)]%merged_row (_ & L & _); [done|congruence]. }
  split.
  - split_and!; try done.
    + cbn. eapply sublist_NoDup; [exact Kr|]. apply fmap_sublist, sublist_delete_where.
    + cbn. rewrite map_update_where; [done|]. by intros.
  - split.
    + intros r x p Hr Hx Or Ox Lr Lx. eapply Rd; eauto.
    + intros r x p Hr Hx Or Ox Lr Lx. eapply Rg; eauto.
    + intros r Hr Or Lr. eapply Rp; eauto.
    + intros r Hr Or Lr. eapply Rgd; eauto.
    + intros r [[Hr _]|(x & Hx & Kx & Kc & _ & Em)]%merged_row Or Lr.
      * destruct (Rm r Hr Or Lr) as (t & ? & ?). exists t. split; [done|]. by apply merged_registered.
      * exists target. split; [by split|]. by apply merged_registered.
    + intros r [[Hr _]|(x & Hx & _ & _ & Em & _)]%merged_row Or [Lm' Lr]; [by apply Rn|done].
  - split; try done.
    + intros a Ha Oa. destruct (La a Ha Oa) as (r & Hr & Kk & Cr). exists r. split; [|done].
      apply merged_other; [done|]. rewrite Kk. intros [= E]. by apply (Hfree a).
    + intros r p [Hr _]%Hroutes. by apply Lp.
    + intros r p [Hr Hk]%Hroutes Or Hp. destruct (Lg r p Hr Or Hp) as (x & Hx & Kx & ?). exists x.
      split; [|done]. apply merged_other; [done|]. rewrite Kx. intros [= E]. apply Hk. unfold route_key. congruence.
    + intros r x [Hr _]%Hroutes. by apply Lfac.
    + intros m Hm Om Hm'. apply merged_registered. by apply Lm.
    + intros r p [Hr _]%Hroutes. by apply (Lc r p).
Qed.
End away.
End moves.

(** ** The whole repair *)

Section migrate.
Context `{WireCodec, Idna, !HexDigest, !IdnaLaws}.
Implicit Types (s : PeerDb) (o : string).

Lemma persona_status d u h st st' p p' :
  from_verified_handle d u h st = Ok p → from_verified_handle d u h st' = Ok p' → p = p'.
Proof.
  unfold from_verified_handle. intros Hp Hp'.
  repeat match goal with
         | H : mbind _ _ = Ok _ |- _ => apply bind_Ok in H as (? & ? & H)
         end. congruence.
Qed.

(** A persona of which the row [y] is stored has one conversation. *)
Definition legacy_row s o (old : LegacyPersona) : Prop :=
  ∃ y p, y ∈ px_personas s ∧ persona_key y = (o, lg_persona_id old) ∧
    from_verified_handle (ps_authority_namespace (pp_persona y)) (ps_authority_subject_id (pp_persona y))
      (ps_full_handle (pp_persona y)) (Some "active"%string) = Ok p ∧
    lg_conversation_id old = persona_conversation_id p.
Lemma legacy_route ex s o old r :
  canon ex s o → legacy_row s o old → r ∈ px_routes s → dr_owner r = o →
  dr_persona_id r = Some (lg_persona_id old) → dr_conversation_id r = lg_conversation_id old.
Proof.
  intros Hc (y & p & Hy & Ky & Hp & ->) Hr Or Hq. injection Ky as Oy Py.
  assert (factory_match r y = true) as Hf.
  { apply (lw_factory _ _ _ (cn_links _ _ _ Hc)); try done. unfold persona_of_route.
    by rewrite Py, Hq, Oy, Or, !bool_decide_true. }
  unfold factory_match in Hf. destruct (from_verified_handle _ _ _ (Some "verified"%string)) as [p'|] eqn:E; [|done].
  rewrite (persona_status _ _ _ _ _ _ _ Hp E). by bool_hyps.
Qed.

Lemma prepare_inv s o lookup home old p :
  prepare s o lookup home = Ok (Some old) → peer_persona lookup = Ok p →
  legacy_row s o old ∧ ¬ has_persona s o (ps_peer_persona_id p).
Proof.
  unfold prepare, legacy_of, identity_conflict. intros Hp Hn.
  apply bind_Ok in Hp as (p' & Hp' & Hp). rewrite Hn in Hp'. injection Hp' as <-.
  destruct home as [home|]; [|done]. apply bind_Ok in Hp as (h & _ & Hp). destruct (_ || _) in Hp; [done|].
  destruct (head (select_where (identifier_row _ _ _) _)) as [i|]; [|done].
  destruct (bool_decide (pi_persona_id i = _)); [done|]. apply bind_Ok in Hp as (lg & Hl & Hp).
  injection Hp as ->. destruct (head _) as [y|] eqn:Ey in Hl; [|done].
  apply head_Some_elem_of, elem_of_select_where in Ey as [Hy Ky%persona_row_true].
  apply bind_Ok in Hl as (po & Hpo & Hl). destruct (_ || _) in Hl; [done|].
  apply bind_Ok in Hl as ([r|] & _ & Hl); [|done].
  destruct (negb (bool_decide (rs_peer_persona_id r = _)) || _) eqn:Er; [done|].
  apply orb_false_iff in Er as [_ Er%negb_false_iff%bool_decide_eq_true].
  destruct (exists_where _ (px_personas s)) eqn:Ex; [done|].
  apply bind_Ok in Hl as (g & _ & Hl). apply bind_Ok in Hl as (u & _ & Hl). injection Hl as <-. split.
  - by exists y, po.
  - intros (x & Hx & Kx%persona_row_true). apply (proj1 (exists_where_false _ _) Ex) in Hx. congruence.
Qed.

(** The conversations of the two personas, once the new one is in place. *)
Definition repair (clock : Clock) s o (old : LegacyPersona) (id conv at_time : string) : ImResult PeerDb :=
  s ← move_persona s o (lg_persona_id old) id;
  s ← insert_alias (flatten_aliases o (lg_conversation_id old) conv s)
        (mkAliasRecord o foreign_persona (lg_conversation_id old) conv "public_wns_directory_repair" at_time);
  s ← move_conversation s o (lg_conversation_id old) conv;
  s ← mark_merged (ck_now_utc clock) s o (lg_conversation_id old) conv;
  Ok (with_routes (delete_where (route_row o (lg_conversation_id old)) (px_routes s)) s).

Lemma repair_registry clock s o old id conv at_time s' :
  repair clock s o old id conv at_time = Ok s' → trim o = o → trim conv = conv →
  ∃ r, r ∈ px_registry s ∧ registry_key r = (o, conv) ∧ canonical_row r.
Proof.
  unfold repair, move_persona, constraint_failed. intros Hr Ho Ht.
  apply bind_Ok in Hr as (s1 & H1' & Hr). destruct (_ && _) in H1'; [done|]. injection H1' as <-.
  apply bind_Ok in Hr as (s2 & Hi & _).
  apply insert_alias_inv in Hi as (_ & _ & Hreg & _). cbn [ar_owner ar_canonical] in Hreg.
  by rewrite Ho, Ht in Hreg.
Qed.

Lemma repair_canon clock s o old p at_time s' :
  canon (λ q, q = ps_peer_persona_id p) s o → legacy_row s o old → trim o = o →
  has_persona s o (ps_peer_persona_id p) →
  repair clock s o old (ps_peer_persona_id p) (persona_conversation_id p) at_time = Ok s' →
  canon (λ q, q = ps_peer_persona_id p) s' o ∧ px_personas s' = px_personas s.
Proof.
  intros Hc Hl Ho Hh Hr. set (id := ps_peer_persona_id p) in *. set (conv := persona_conversation_id p) in *.
  destruct (repair_registry _ _ _ _ _ _ _ _ Hr Ho (trim_conversation p)) as (r & Hrg & Kr & Cr).
  assert (trim conv = conv) as Tc by apply trim_conversation.
  assert (trim (lg_conversation_id old) = lg_conversation_id old) as Tl.
  { destruct Hl as (y & po & _ & _ & _ & ->). apply trim_conversation. }
  set (ex := λ q, q = id ∨ q = lg_persona_id old).
  assert (canon ex s o) as Hx by (eapply canon_weaken; [|exact Hc]; by left).
  unfold repair in Hr. apply bind_Ok in Hr as (s1 & E1 & Hr).
  apply (move_persona_canon ex _ _ _ _ _ Hx) in E1 as (C1 & ti & tp & tc & tm & ->); [|by right|by left|done].
  set (s1 := with_members _ _) in *. apply bind_Ok in Hr as (s2 & E2 & Hr).
  pose proof E2 as (Hne & Hna & _ & ta & Es2 & Hta)%insert_alias_inv.
  cbn [ar_owner ar_kind ar_canonical ar_alias] in *. rewrite Ho, Tl, Tc in *.
  assert (canon ex s2 o) as C2.
  { eapply (insert_alias_canon ex _ _ _ o); [|exact E2|done|].
    - apply flatten_canon; [done| |by apply Hna]. by exists r.
    - cbn [ar_alias]. rewrite Tl. intros a Ha Oa. by apply (flatten_free o _ conv s1). }
  apply bind_Ok in Hr as (s3 & E3 & Hr).
  assert (registered s2 o conv) as Hreg2 by (rewrite Es2; by exists r).
  assert (∀ a, a ∈ rd_aliases (px_read s2) → al_owner a = o → al_canonical a ≠ lg_conversation_id old) as Hfree.
  { intros a Ha Oa. rewrite Es2 in Ha. cbn in Ha.
    destruct Hta as [-> |[-> _]]; [by apply (flatten_free o _ conv s1)|].
    apply elem_of_app in Ha as [Ha| ->%list_elem_of_singleton]; [by apply (flatten_free o _ conv s1)|].
    cbn. congruence. }
  apply (move_conversation_canon ex _ _ _ _ _ C2 Hreg2) in E3 as (C3 & r3 & Es3 & Ea3).
  apply bind_Ok in Hr as (s4 & E4 & Hr). injection Hr as <-.
  apply mark_merged_inv in E4 as [Es4 Hreg3]; [|done..].
  assert (canon ex (away (ck_now_utc clock) s3 o (lg_conversation_id old) conv) o) as C4.
  { apply away_canon; [done..|by apply (sql_trim_head "d")|]. rewrite Es3. cbn. rewrite Ea3. exact Hfree. }
  assert (px_personas s3 = px_personas s) as Ep by by rewrite Es3, Es2.
  rewrite Es4. cbn [px_routes with_registry]. fold (away (ck_now_utc clock) s3 o (lg_conversation_id old) conv).
  split; [|exact Ep]. pose proof C4 as [K4 R4 [? ? ? ? ? ? ? ? L4]]. split; [done..|]. split; try done.
  intros x q Hxr Ox Hq Hnq. apply (L4 x q); [done..|]. intros [?| ->]; [done|].
  assert (legacy_row (away (ck_now_utc clock) s3 o (lg_conversation_id old) conv) o old) as Hl'.
  { destruct Hl as (y & po & Hy & ?). exists y, po. split; [|done]. cbn. by rewrite Ep. }
  pose proof (legacy_route ex _ _ _ _ C4 Hl' Hxr Ox Hq) as Hcv.
  cbn in Hxr. apply elem_of_delete_where in Hxr as [_ Hd].
  assert (route_row o (lg_conversation_id old) x = true); [|congruence].
  apply route_row_true. unfold route_key. congruence.
Qed.

(** Nothing of the legacy persona is left but a merged conversation and an alias. *)
Record repaired s o (old : LegacyPersona) (conv : string) : Prop := {
  rp_alias : resolve_alias (px_read s) o foreign_persona (lg_conversation_id old) = Some conv;
  rp_message : ∀ m, m ∈ db_messages (rd_db (px_read s)) → mg_owner_identity_id m = o →
    mg_conversation_id m ≠ lg_conversation_id old ∧ mg_thread_id m ≠ lg_conversation_id old;
  rp_route : ∀ r, r ∈ px_routes s → route_key r ≠ (o, lg_conversation_id old);
  rp_identifier : ∀ i, i ∈ px_identifiers s → pi_owner i = o → pi_persona_id i ≠ lg_persona_id old;
  rp_row : ∀ r, r ∈ px_registry s → registry_key r = (o, lg_conversation_id old) →
    rg_lifecycle r = "merged"%string ∧ rg_merged_into r = Some conv }.

Lemma repair_repaired clock s o old id conv at_time s' :
  repair clock s o old id conv at_time = Ok s' → trim o = o → trim conv = conv →
  trim (lg_conversation_id old) = lg_conversation_id old → lg_persona_id old ≠ id →
  lg_conversation_id old ≠ conv ∧ repaired s' o old conv.
Proof.
  unfold repair. intros Hr Ho Tc Tl Hid. apply bind_Ok in Hr as (s1 & E1 & Hr).
  unfold move_persona, constraint_failed in E1. destruct (_ && _) in E1; [done|]. injection E1 as <-.
  set (s1 := with_members _ _) in *. apply bind_Ok in Hr as (s2 & E2 & Hr).
  pose proof (insert_alias_resolves _ _ _ E2) as Ha. apply insert_alias_inv in E2 as (Hne & _ & _ & ta & Es2 & _).
  cbn [ar_owner ar_kind ar_alias ar_canonical] in *. rewrite Tl, Tc in *. split; [done|].
  apply bind_Ok in Hr as (s3 & E3 & Hr).
  unfold move_conversation, constraint_failed in E3. cbv zeta in E3. destruct (_ || _) in E3; [done|].
  injection E3 as <-. set (s3 := with_read _ _) in *. apply bind_Ok in Hr as (s4 & E4 & Hr).
  injection Hr as <-. apply mark_merged_inv in E4 as [Es4 _]; [|done..].
  assert (px_identifiers s4 = move_identifier o (lg_persona_id old) id <$> px_identifiers s) as Ei.
  { rewrite Es4. unfold s3. cbn. by rewrite Es2. }
  split.
  - rewrite Es4. exact Ha.
  - rewrite Es4. cbn. intros m (x & -> & _)%list_elem_of_fmap. unfold move_message, rename_if.
    destruct (bool_decide (mg_owner_identity_id x = o)) eqn:E; cbn; [|by apply bool_decide_eq_false in E].
    intros _. clear E. by split; case_bool_decide.
  - cbn. intros r [_ Hr]%elem_of_delete_where Kr%route_row_true. congruence.
  - cbn. rewrite Ei. intros i (j & -> & _)%list_elem_of_fmap. unfold move_identifier.
    destruct (of_persona o (lg_persona_id old) j) eqn:E; cbn; [done|]. intros Oj Pj.
    assert (of_persona o (lg_persona_id old) j = true) by by apply of_persona_true. congruence.
  - cbn [px_registry with_routes]. rewrite Es4. cbn [px_registry with_registry].
    intros r [[_ Hk]|(x & _ & _ & _ & ? & ?)]%merged_row Kr; done.
Qed.

Lemma migrate_canon clock s o owner_did lookup old p at_time s' :
  canon (λ q, q = ps_peer_persona_id p) s o → legacy_row s o old → trim o = o →
  derived p → peer_persona lookup = Ok p → Did_parse (hl_did lookup) = Ok (hl_did lookup) →
  (∃ y, y ∈ px_personas s ∧ pp_owner y = o ∧ pp_persona y = p) →
  migrate clock s o owner_did lookup old at_time = Ok s' →
  canon (λ q, q = ps_peer_persona_id p) s' o ∧ px_personas s' = px_personas s ∧
  (lg_persona_id old ≠ ps_peer_persona_id p →
   lg_conversation_id old ≠ persona_conversation_id p ∧ repaired s' o old (persona_conversation_id p)).
Proof.
  intros Hc Hl Ho Hp Hpp Hdid Hst Hm. unfold migrate in Hm.
  apply bind_Ok in Hm as (p' & Hp' & Hm). rewrite Hpp in Hp'. injection Hp' as <-. cbv zeta in Hm.
  apply bind_Ok in Hm as (route & Hroute & Hm). apply from_persona_inv in Hroute as Er; [|done..].
  apply bind_Ok in Hm as (s1 & H1' & Hm). apply bind_Ok in Hm as (s2 & H2' & Hm).
  fold (repair clock s2 o old (ps_peer_persona_id p) (persona_conversation_id p) at_time) in Hm.
  assert (dr_owner route = o ∧ dr_conversation_id route = persona_conversation_id p ∧
          dr_persona_id route = Some (ps_peer_persona_id p) ∧ is_Some (dr_authority_namespace route)) as Hroute'
    by (rewrite Er; by split_and!).
  set (record := mkRegistryRecord _ _ _ _ _ _) in H2'.
  assert (cr_owner record = o ∧ cr_conversation_id record = persona_conversation_id p ∧
          cr_thread_kind record = "direct"%string) as Hrec by done.
  pose proof (repair_registry _ _ _ _ _ _ _ _ Hm Ho (trim_conversation p)) as Hok.
  pose proof (place_canon (λ q, q = ps_peer_persona_id p) s o p route record s1 s2 Hc eq_refl Hst
    (derived_stable p Hp) (proj2 (derived_id p Hp)) Hroute' Hrec H1' H2' Hok) as C2.
  destruct (route_table _ s o p route record s1 s2 Hc Hroute' H1' H2') as (_ & _ & Es1).
  destruct (registry_table _ s o p route record s1 s2 Hc Hroute' Hrec H1' H2') as (_ & _ & _ & _ & Es2).
  assert (px_personas s2 = px_personas s) as Ep by by rewrite Es2, Es1.
  assert (trim (lg_conversation_id old) = lg_conversation_id old) as Tl.
  { destruct Hl as (? & po & _ & _ & _ & ->). apply trim_conversation. }
  pose proof (λ Hn, repair_repaired _ _ _ _ _ _ _ _ Hm Ho (trim_conversation p) Tl Hn) as Hrep.
  eapply repair_canon in Hm as [C3 Ep3]; [split_and!; [exact C3|congruence|exact Hrep]|done| |done|].
  - destruct Hl as (y & po & Hy & ?). exists y, po. by rewrite Ep.
  - destruct Hst as (y & Hy & Oy & Py). exists y. rewrite Ep. split; [done|]. unfold persona_key. congruence.
Qed.

(** ** The projection *)

Lemma peer_derived lookup p : peer_persona lookup = Ok p → derived p.
Proof. intros Hp. by do 4 eexists. Qed.
Lemma same_persona_eq p q :
  ps_peer_persona_id p = ps_peer_persona_id q → same_authority p q = true → p = q.
Proof. unfold same_authority. intros. bool_hyps. destruct p, q; cbn in *; congruence. Qed.

Lemma upsert_persona_keeps s r s' x :
  upsert_persona s r = Ok s' → x ∈ px_personas s → ∃ y, y ∈ px_personas s' ∧ same_persona y x.
Proof.
  unfold upsert_persona, identity_conflict, constraint_failed. cbv zeta. intros Hu Hx.
  apply bind_Ok in Hu as (_ & _ & Hu). set (key := persona_row _ _) in *. destruct (exists_where key _).
  - destruct (head _); [|done]. destruct (same_authority _ _); [|done]. injection Hu as <-. eexists.
    split; [apply elem_of_update_where; by exists x|]. by destruct (key x).
  - destruct (exists_where _ _); [done|]. injection Hu as <-. exists x.
    split; [apply elem_of_app; by left|done].
Qed.

Lemma head_select_app {A} (q : A → bool) t l x :
  head (select_where q t) = Some x → head (select_where q (t ++ l)) = Some x.
Proof. unfold select_where. rewrite filter_app. by destruct (filter _ t). Qed.

(** The rest of the projection leaves the repair as it is. *)
Lemma repaired_kept s s3 s' o old p did conv ti tp tc ta tg tr route :
  repaired s o old conv → s3 = with_contacts tc (with_profiles tp (with_identifiers ti s)) →
  s' = with_aliases ta (with_registry tg (with_routes tr s3)) → lg_conversation_id old ≠ conv →
  lg_persona_id old ≠ p →
  (ta = rd_aliases (px_read s3) ∨ ta = rd_aliases (px_read s3) ++ [mkAlias o "verified_did" did conv]) →
  (∀ x, x ∈ tg → registry_key x = (o, conv) ∨ x ∈ px_registry s3) →
  placed route_key route (px_routes s3) tr → route_key route = (o, conv) →
  (∀ i, i ∈ ti → pi_persona_id i = p ∨
     ∃ j, j ∈ px_identifiers s ∧ pi_owner j = pi_owner i ∧ pi_persona_id j = pi_persona_id i) →
  repaired s' o old conv.
Proof.
  intros [Ra Rm Rr Ri Rw] -> -> Hne Hid Hta Htg Pr Kr Hti. split.
  - destruct Hta as [-> | ->]; [exact Ra|]. unfold resolve_alias in Ra |- *. cbn [px_read rd_aliases with_aliases with_read].
    apply fmap_Some in Ra as (a & Ha & ->). by rewrite (head_select_app _ _ _ _ Ha).
  - exact Rm.
  - cbn. intros r [[Hr _]| ->]%Pr; [by apply Rr|]. rewrite Kr. congruence.
  - cbn. intros i Hi Oi. destruct (Hti i Hi) as [-> |(j & Hj & Oj & <-)]; [done|]. apply Ri; congruence.
  - cbn. intros x Hx Kx. destruct (Htg x Hx) as [E|Hx']; [congruence|by apply Rw].
Qed.

(** What a projection leaves behind. *)
Lemma projection_inv clock s o owner_did lookup home p conv s' :
  canonical s o → trim o = o → peer_persona lookup = Ok p →
  Did_parse (hl_did lookup) = Ok (hl_did lookup) →
  project_identity clock s o owner_did lookup home = Ok (conv, s') →
  conv = persona_conversation_id p ∧ canonical s' o ∧ peer_stored s' o p (hl_did lookup) ∧
  (∃ s1 g, validate_projection_generation s o (ps_peer_persona_id p) (hl_did lookup)
             (hl_binding_generation lookup) = Ok g ∧
     upsert_persona s (mkPersonaRecord (trim o) p g "human" "handle_authority" None (ck_now clock)) = Ok s1 ∧
     px_personas s' = px_personas s1) ∧
  ∀ old, prepare s o lookup home = Ok (Some old) → lg_conversation_id old ≠ conv ∧ repaired s' o old conv.
Proof.
  intros Hc Ho Hp Hdid Hj. unfold project_identity in Hj. apply bind_Ok in Hj as (p' & Hp' & Hj).
  rewrite Hp in Hp'. injection Hp' as <-. cbv zeta in Hj. apply bind_Ok in Hj as (legacy & Hleg & Hj).
  apply bind_Ok in Hj as (g & Hg & Hj). apply bind_Ok in Hj as (s1 & Hu & Hj).
  pose proof (peer_derived _ _ Hp) as Hd. set (id := ps_peer_persona_id p).
  assert (canon (λ q, q = id) s o) as Hx by (eapply canon_weaken; [|exact Hc]; done).
  pose proof (λ x, upsert_persona_keeps _ _ _ x Hu) as Hkeep.
  pose proof (upsert_persona_inv _ _ _ _ _ Hx Hu) as (C1 & _ & y & Hy & Oy & Iy & Ay).
  cbn [pp_owner pp_persona] in *. rewrite Ho, Ho in Oy. apply same_persona_eq in Ay; [|done].
  assert (∃ y, y ∈ px_personas s1 ∧ pp_owner y = o ∧ pp_persona y = p) as Hst by by exists y.
  apply bind_Ok in Hj as (s2 & Hmig & Hj).
  assert (canon (λ q, q = id) s2 o ∧ px_personas s2 = px_personas s1 ∧
    ∀ old, legacy = Some old → lg_persona_id old ≠ id ∧ lg_conversation_id old ≠ persona_conversation_id p ∧
      repaired s2 o old (persona_conversation_id p)) as (C2 & Ep2 & Hrep).
  { destruct legacy as [old|]; [|by injection Hmig as <-].
    destruct (prepare_inv _ _ _ _ _ _ Hleg Hp) as [(x & po & Hin & [= Ox Px] & Hpo & Ec) Hno].
    destruct (Hkeep x Hin) as (z & Hz & Oz & Pz).
    assert (lg_persona_id old ≠ id) as Hne.
    { intros E. apply Hno. exists x. split; [done|]. unfold persona_key. by rewrite Ox, Px, E. }
    assert (legacy_row s1 o old) as Hl1.
    { exists z, po. unfold persona_key. rewrite Oz, Pz, Ox, Px. by split_and!. }
    destruct (migrate_canon _ _ _ _ _ _ _ _ _ C1 Hl1 Ho Hd Hp Hdid Hst Hmig) as (? & ? & Hrep).
    split_and!; [done..|]. intros old' [= <-]. split; [done|by apply Hrep]. }
  rewrite <- Ep2 in Hst. apply bind_Ok in Hj as (s3 & Hi & Hr).
  apply bind_identity_inv in Hi as (C3 & Cur & Ih & Id & (ti & tp & tc & Es3) & Hids); [|done..|].
  2:{ destruct Hst as (w & Hw & Ow & Pw). exists w. split; [done|]. unfold persona_key. congruence. }
  assert (∃ y, y ∈ px_personas s3 ∧ pp_owner y = o ∧ pp_persona y = p) as Hst3 by by rewrite Es3.
  eapply bind_route_inv in Hr as (-> & C4 & route & tr & tg & ta & Es' & Hta & Htg & Pr & Kr & Rp & Rd); [|done..].
  split_and!; [done..| | |].
  - by eapply bind_stored.
  - exists s1, g. split_and!; [done..|]. rewrite Es'. cbn. by rewrite Es3.
  - intros old Hold. rewrite Hleg in Hold. injection Hold as Hold. destruct (Hrep old Hold) as (Hid & Hne & Hq).
    split; [done|]. rewrite Es3 in Hids. cbn [px_identifiers with_contacts with_profiles with_identifiers] in Hids.
    exact (repaired_kept _ _ _ _ _ _ _ _ _ _ _ _ _ _ _ Hq Es3 Es' Hne Hid Hta Htg Pr Kr Hids).
Qed.
End migrate.
