(* ===== verification/PeerRoute.v ===== *)
(** * Verified DID transitions of a route *)

From Stdlib Require Import Ascii.
From S2P Require Import Prelude RustStr ImError Decimal Store SyncStore Outbox Wire ReadState ReadBind ReadProps Persona PersonaProps Peers PeerProject PeerCheck PeerProps PeerProjectProps PeerMigrate.
Local Open Scope Z_scope.

Section transition.
Context `{WireCodec, Idna, !HexDigest}.
Implicit Types (s : PeerDb) (o : string).

(** A persona has at most one route. *)
Lemma one_route ex s o r x p :
  canon ex s o → r ∈ px_routes s → x ∈ px_routes s → dr_owner r = o → dr_owner x = o →
  dr_persona_id r = Some p → dr_persona_id x = Some p → r = x.
Proof.
  intros Hc Hr Hx Or Ox Pr Px. destruct (lw_persona _ _ _ (cn_links _ _ _ Hc) r p Hr Or Pr) as (y & Hy & [= Oy Iy]).
  assert (∀ z, z ∈ px_routes s → dr_owner z = o → dr_persona_id z = Some p → factory_match z y = true) as Hf.
  { intros z Hz Oz Pz. apply (lw_factory _ _ _ (cn_links _ _ _ Hc)); try done. unfold persona_of_route.
    by rewrite Pz, Oy, Iy, Oz, !bool_decide_true. }
  pose proof (Hf r Hr Or Pr) as Fr. pose proof (Hf x Hx Ox Px) as Fx. unfold factory_match in Fr, Fx.
  destruct (from_verified_handle _ _ _ _) as [q|]; [|done]. bool_hyps.
  destruct (cn_keys _ _ _ Hc) as (_ & _ & Kr & _). apply (key_inj route_key (px_routes s)); [done..|].
  unfold route_key. congruence.
Qed.

Lemma get_route_inv s o c r :
  get_route s o c = Ok (Some r) → trim o = o → trim c = c →
  r ∈ px_routes s ∧
  route_key r = (o, default c (resolve_alias (px_read s) o foreign_persona c)) ∧ validate_route r = Ok ().
Proof.
  unfold get_route, required, parse_non_empty. intros Hg Ho Hc. apply bind_Ok in Hg as (o' & E1 & Hg).
  apply bind_Ok in Hg as (c' & E2 & Hg). destruct (is_empty _) in E1; [done|]. destruct (is_empty _) in E2; [done|].
  injection E1 as <-. injection E2 as <-. rewrite Ho, Hc in Hg. cbv zeta in Hg.
  destruct (head _) as [x|] eqn:Eh in Hg; [|done]. destruct (validate_route x) as [[]|] eqn:Ev; [|done].
  injection Hg as <-. apply head_Some_elem_of, elem_of_select_where in Eh as [Hx Kx%route_row_true]. done.
Qed.
Lemma route_persona_trim r p : validate_route r = Ok () → dr_persona_id r = Some p → trim p = p.
Proof.
  unfold validate_route, identity_conflict. intros Hv Hp. rewrite Hp in Hv.
  destruct (dr_authority_namespace r) as [n|]; [|done]. apply bind_Ok in Hv as (q & Hq & Hv).
  destruct (_ || _) eqn:E in Hv; [done|]. apply orb_false_iff in E as [E _].
  apply negb_false_iff, bool_decide_eq_true in E. rewrite E, (persona_of_handle _ _ _ _ _ Hq). apply trim_persona_id.
Qed.

(** The rows a transition touches. *)
Definition predecessor (o p did : string) (i : PeerIdentifierRecord) : bool :=
  of_persona o p i && is_did i && bool_decide (pi_value i = did) && pi_is_current i.
Definition moving (o c did p : string) (r : DirectPeerRouteRecord) : bool :=
  route_row o c r && bool_decide (dr_current_did r = did) && bool_decide (dr_persona_id r = Some p).

Lemma transition_inv now s o c expected verified s' :
  transition_route now s o c expected verified = Ok s' → trim o = o → trim c = c →
  ∃ r p s2, r ∈ px_routes s ∧
    route_key r = (o, default c (resolve_alias (px_read s) o foreign_persona c)) ∧
    dr_current_did r = expected ∧ dr_persona_id r = Some p ∧ trim p = p ∧
    bind_identifier now
      (with_identifiers (update_where (predecessor o p expected) (retire_identifier (Some now))
                           (px_identifiers s)) s)
      (mkIdentifier o p "did" verified true None "verified_did_transition" now "") = Ok s2 ∧
    count_where (moving o c expected p) (px_routes s2) = 1%nat ∧
    s' = with_routes (update_where (moving o c expected p) (set_route_did verified now) (px_routes s2)) s2.
Proof.
  unfold transition_route, identity_conflict. intros Ht Ho Hc. apply bind_Ok in Ht as ([r|] & Hg & Ht); [|done].
  apply get_route_inv in Hg as (Hr & Kr & Hv); [|done..].
  destruct (negb (bool_decide (dr_current_did r = expected))) eqn:Ed; [done|].
  apply negb_false_iff, bool_decide_eq_true in Ed. destruct (dr_persona_id r) as [p|] eqn:Ep; [|done].
  cbv zeta in Ht. fold (predecessor o p expected) in Ht. destruct (negb _) in Ht; [done|].
  apply bind_Ok in Ht as (s2 & Hb & Ht). fold (moving o c expected p) in Ht.
  destruct (negb (count_where (moving _ _ _ _) _ =? 1)%nat) eqn:Em; [done|].
  apply negb_false_iff, Nat.eqb_eq in Em. injection Ht as <-. exists r, p, s2. split_and!; try done.
  by eapply route_persona_trim.
Qed.

Lemma count_one {A} (q : A → bool) (t : list A) : count_where q t = 1%nat → ∃ x, x ∈ t ∧ q x = true.
Proof.
  unfold count_where. destruct (select_where q t) as [|x [|]] eqn:E; [done| |done]. intros _. exists x.
  apply elem_of_select_where. rewrite E. by left.
Qed.

Lemma moved_canon now s o c did p verified :
  canon (λ q, q = p) s o →
  canon (λ q, q = p) (with_routes (update_where (moving o c did p) (set_route_did verified now) (px_routes s)) s) o.
Proof.
  intros [(Kp & Ki & Kr & Kg & Ka) [] [La Lf Lp Lg Lfac Lpf Li Lm Lc]].
  assert (∀ r, r ∈ update_where (moving o c did p) (set_route_did verified now) (px_routes s) →
    ∃ x, x ∈ px_routes s ∧ dr_owner r = dr_owner x ∧ dr_conversation_id r = dr_conversation_id x ∧
      dr_persona_id r = dr_persona_id x ∧ (r = x ∨ dr_persona_id x = Some p)) as Hr.
  { intros r (x & Hx & ->)%elem_of_update_where. exists x. destruct (moving o c did p x) eqn:E; [|auto 10].
    unfold moving in E. bool_hyps. auto 10. }
  split; [|by split|split; try done].
  - split_and!; try done. cbn. rewrite map_update_where; [done|]. by intros.
  - intros r q (x & Hx & Eo & _ & Ep & _)%Hr Or Pr. apply (Lp x q); congruence.
  - intros r q (x & Hx & Eo & Ec & Ep & _)%Hr Or Pr. rewrite Ec. apply (Lg x q); first [done|congruence].
  - intros r y (x & Hx & Eo & Ec & Ep & _)%Hr Or Hy. unfold persona_of_route, factory_match in *.
    rewrite Eo, Ep, Ec. apply (Lfac x y); first [done|congruence].
  - intros r q (x & Hx & Eo & _ & Ep & [-> |E])%Hr Or Pr Hq; [by apply (Lc x q)|]. destruct Hq. congruence.
Qed.

Lemma successor_current now s t o p expected verified :
  current_ok s o p expected →
  bound (update_where (predecessor o p expected) (retire_identifier (Some now)) (px_identifiers s)) t o p
    "did" verified true →
  current_ok (with_identifiers t s) o p verified.
Proof.
  intros [_ Hall] Hb. split.
  - destruct (bd_row _ _ _ _ _ _ _ Hb) as (i & Hi & Ki).
    destruct (bd_mine _ _ _ _ _ _ _ Hb i Hi Ki) as [Ep Ec]. injection Ki as Eo Ek Ev.
    exists i. unfold is_did. rewrite Ek. split_and!; try done. by apply of_persona_true.
  - intros i Hi Hof Hd Hcur.
    destruct (decide (identifier_key i = (o, "did"%string, verified))) as [Ki|Hne]; [by injection Ki|].
    apply (bd_other _ _ _ _ _ _ _ Hb i Hne), elem_of_update_where in Hi as (j & Hj & ->).
    destruct (predecessor o p expected j) eqn:Ej; [done|].
    exfalso. unfold predecessor in Ej. rewrite Hof, Hd, Hcur, (Hall j Hj Hof Hd Hcur), bool_decide_true in Ej; done.
Qed.

Lemma transition_canon now s o c expected verified s' :
  canonical s o → transition_route now s o c expected verified = Ok s' →
  trim o = o → trim c = c → trim verified = verified →
  default c (resolve_alias (px_read s) o foreign_persona c) = c ∧ canonical s' o ∧
  ∃ r p, r ∈ px_routes s' ∧ route_key r = (o, c) ∧ dr_persona_id r = Some p ∧
    dr_current_did r = verified ∧ current_ok s' o p verified.
Proof.
  intros Hc Ht Ho Tc Tv.
  apply transition_inv in Ht as (r & p & s2 & Hr & Kr & Ed & Ep & Tp & Hb & Hm & Es'); [|done..].
  set (s1 := with_identifiers _ s) in Hb.
  assert (canon (λ q, q = p) s1 o) as C1.
  { apply (update_identifiers_canon _ _ _ p); [by eapply canon_weaken; [|exact Hc]|done| |done].
    intros i Hi. unfold predecessor in Hi. by bool_hyps. }
  apply (bind_canon _ _ _ _ _ o C1) in Hb as (C2 & t & Es2 & Bd); cbn [pi_owner pi_persona_id pi_kind pi_value
    pi_is_current] in *; [|by rewrite ?Tp..]. rewrite Tp, Tv in Bd. injection Kr as Or Cr.
  pose proof (lw_current _ _ _ (cn_links _ _ _ Hc) r p Hr Or Ep ltac:(by intros [])) as Hcur. rewrite Ed in Hcur.
  pose proof (successor_current _ _ _ _ _ _ _ Hcur Bd) as Hnew.
  assert (px_routes s2 = px_routes s) as Ert by by rewrite Es2.
  rewrite Ert in *. destruct (count_one _ _ Hm) as (x & Hx & Mx). unfold moving in Mx. bool_hyps.
  match goal with H : route_row _ _ x = true |- _ => apply route_row_true in H as [= Ox Cx] end.
  assert (x = r) as -> by by eapply (one_route _ s o x r p Hc).
  assert (moving o c expected p r = true) as Mr.
  { unfold moving. rewrite (proj2 (route_row_true _ _ _)), !bool_decide_true; try done. unfold route_key. congruence. }
  pose proof (moved_canon now s2 o c expected p verified C2) as C3. rewrite Ert, <- Es' in C3.
  assert (current_ok s' o p verified) as Hn' by (rewrite Es'; rewrite Es2; exact Hnew).
  assert (set_route_did verified now r ∈ px_routes s') as Hin.
  { rewrite Es'. apply elem_of_update_where. exists r. by rewrite Mr. }
  split; [congruence|]. split.
  - pose proof (λ z Hz, one_route _ s' o z (set_route_did verified now r) p C3 Hz Hin) as Hone.
    destruct C3 as [K3 R3 [? ? ? ? ? ? ? ? L3]]. split; [done..|]. split; try done.
    intros z q Hz Oz Pz _. destruct (decide (q = p)) as [-> |Hq]; [|by apply (L3 z q)].
    by rewrite (Hone z Hz).
  - exists (set_route_did verified now r), p. split_and!; try done. unfold route_key. cbn. congruence.
Qed.
End transition.
