(* ===== verification/PeerResolve.v ===== *)
(** * What is projected resolves *)

From Stdlib Require Import Ascii.
From S2P Require Import Prelude RustStr ImError Decimal Store SyncStore Outbox Wire ReadState ReadBind ReadProps Persona PersonaProps Peers PeerProject PeerCheck PeerProps PeerProjectProps PeerMigrate PeerRoute.
Local Open Scope Z_scope.

Lemma select_one {A} (q : A → bool) (t : list A) x :
  NoDup t → x ∈ t → q x = true → (∀ y, y ∈ t → q y = true → y = x) → select_where q t = [x].
Proof.
  intros Hnd Hx Hq Hone. assert (NoDup (select_where q t)) as Hs by by apply NoDup_filter.
  assert (∀ y, y ∈ select_where q t ↔ y = x) as He.
  { intros y. rewrite elem_of_select_where. split; [intros []; auto|by intros ->]. }
  destruct (select_where q t) as [|a l].
  - exfalso. by apply (not_elem_of_nil x), He.
  - assert (a = x) as -> by (apply He; by left). f_equal. destruct l as [|b l]; [done|].
    apply NoDup_cons in Hs as [Hn _]. destruct Hn. assert (b = x) as -> by (apply He; right; by left). left.
Qed.
Lemma select_key {A K} `{EqDecision K} (key : A → K) (q : A → bool) (t : list A) x :
  NoDup (key <$> t) → x ∈ t → q x = true → (∀ y, y ∈ t → q y = true → key y = key x) → select_where q t = [x].
Proof.
  intros Hnd Hx Hq Hone. apply select_one; [by apply NoDup_fmap_1 in Hnd|done..|].
  intros y Hy Qy. apply (key_inj key t); auto.
Qed.

Lemma handle_parses `{WireCodec, Idna, !HexDigest, !IdnaLaws} p :
  derived p → Handle_parse (ps_full_handle p) "" = Ok (ps_full_handle p).
Proof.
  intros (d & u & h & st & Hp). unfold from_verified_handle in Hp.
  apply bind_Ok in Hp as (n & Hn & Hp). apply bind_Ok in Hp as (sub & _ & Hp).
  apply bind_Ok in Hp as ([] & _ & Hp). apply bind_Ok in Hp as (hh & Hh & Hp).
  apply bind_Ok in Hp as ([] & Ha & Hp). apply bind_Ok in Hp as ([] & _ & Hp). injection Hp as <-.
  apply namespace_stable in Hn as (_ & Hend & Hne & _). cbn [ps_full_handle].
  destruct (handle_stable _ _ _ Hh Ha Hend Hne) as (_ & Hhost & Hnil).
  assert (to_ascii_lowercase hh = hh) as Elow.
  { unfold normalize_full_handle, identity_unresolved in Hh. cbv zeta in Hh. destruct (_ || _) in Hh; [done|].
    destruct (domain_to_ascii_strict _); [|done]. injection Hh as <-. apply lower_idem. }
  assert (is_empty hh = false) as Ene by by apply bool_decide_eq_false.
  unfold Handle_parse, parse_non_empty. cbv zeta. rewrite (host_trim hh Hhost), Ene.
  cbn [mbind result_bind]. rewrite !orb_true_r, trim_start_id by by apply host_lacks. by rewrite Elow.
Qed.

Section resolve.
Context `{WireCodec, Idna, !HexDigest, !IdnaLaws}.
Variables (s : PeerDb) (o : string) (p : PeerPersona) (did : string).
Hypothesis (Hcan : canonical s o) (Hst : peer_stored s o p did) (Hp : derived p).
Notation id := (ps_peer_persona_id p).

Lemma joined_one q i :
  i ∈ px_identifiers s → q i = true → (∀ j, j ∈ px_identifiers s → q j = true → identifier_key j = identifier_key i) →
  pi_owner i = o → pi_persona_id i = id →
  ∃ r, joined s q = [(p, r)] ∧ r ∈ px_routes s ∧ route_key r = (o, persona_conversation_id p) ∧
    dr_current_did r = did.
Proof.
  intros Hi Hq Hone Oi Pi. pose proof (cn_keys _ _ _ Hcan) as (Kp & Ki & Kr & _).
  destruct (st_persona _ _ _ _ Hst) as (y & Hy & Oy & Py).
  destruct (st_route _ _ _ _ Hst) as (r & Hr & Kroute & Pr & Dr). exists r. split; [|done].
  unfold joined. rewrite (select_key identifier_key q _ i) by done. cbn.
  assert (select_where (persona_row (pi_owner i) (pi_persona_id i)) (px_personas s) = [y]) as ->.
  { apply (select_key persona_key); [done..| |].
    - apply persona_row_true. unfold persona_key. congruence.
    - intros z _ ->%persona_row_true. unfold persona_key. congruence. }
  cbn. rewrite (select_one _ _ r); [by rewrite <- Py|by apply NoDup_fmap_1 in Kr|done| |].
  - injection Kroute as Or _. rewrite Or, Pr, Oi, Pi, !bool_decide_true; done.
  - intros z Hz Qz. bool_hyps. injection Kroute as Or _.
    apply (one_route _ s o z r id Hcan); congruence.
Qed.

Lemma resolve_did : trim o = o → trim did = did →
  resolve_by_did s o did = Ok (Some (mkResolved id (persona_conversation_id p))).
Proof.
  intros Ho Td. unfold resolve_by_did. rewrite Ho, Td. destruct (st_did _ _ _ _ Hst) as (i & Hi & Ki & Pi & _).
  destruct (joined_one (identifier_row o "did" did) i) as (r & -> & _ & [= _ Cr] & _); [done..| | |by injection Ki|done|].
  - by apply identifier_row_true.
  - intros j _ ->%identifier_row_true. done.
  - unfold checked_persona. cbn [fst snd]. rewrite (derived_stable p Hp). cbn. by rewrite Cr, !bool_decide_true.
Qed.

Lemma resolve_handle : trim o = o → is_empty o = false → Did_parse did = Ok did →
  resolve_by_handle s o (ps_full_handle p) = Ok (Some (mkResolved id (persona_conversation_id p))).
Proof.
  intros Ho Hne Hdid. pose proof (handle_parses p Hp) as Hh. unfold resolve_by_handle, edge_required. cbv zeta. rewrite Ho, Hne, Hh. cbn [mbind result_bind].
  destruct (st_handle _ _ _ _ Hst) as (i & Hi & Ki & Pi & Ci).
  set (q := λ i, identifier_row o "handle" (ps_full_handle p) i && pi_is_current i).
  destruct (joined_one q i) as (r & Ej & Hr & [= Or Cr] & Dr); [done..| | |by injection Ki|done|].
  - unfold q. rewrite (proj2 (identifier_row_true _ _ _ _) Ki), Ci. done.
  - intros j _ Qj. unfold q in Qj. bool_hyps. rewrite Ki. by apply identifier_row_true.
  - change (Ok ?x ≫= ?f) with (f x). cbv beta. fold q. rewrite Ej.
    rewrite filter_cons_True, filter_nil; cbn [fst snd].
    + rewrite (derived_stable p Hp). cbn. rewrite Cr, Dr, !bool_decide_true by done. cbn. by rewrite Hdid.
    + apply exists_where_true. destruct (st_did _ _ _ _ Hst) as (d & Hd & [= Od Kd Vd] & Pd & Cd). exists d.
      split; [done|]. unfold is_did. rewrite Kd, Vd, Dr, Cd, !bool_decide_true; try done.
      rewrite (proj2 (of_persona_true _ _ _)); [done|]. split; congruence.
Qed.
End resolve.
