(* ===== verification/SummaryClaims.v ===== *)
(** * The claims about conversation summaries

    The deltas that keep the summaries agree with a rebuild from the messages, when a message
    is written and when messages are marked read, outside two cases in which they do not. *)

From S2P Require Import Prelude RustStr ImError Decimal Store SyncStore Outbox Wire Lanes ReadState ReadBind ReadIds ReadProps Persona Peers PeerProps Summaries SummaryOrder SummaryProps SummaryRebuild SummaryDelta SummaryMark PeerProjectProps PeerMigrate PeerRoute PeerResolve.
Local Open Scope Z_scope.

(** The messages have trimmed owners, conversations and ids, and one row for an id. *)
Definition well_kept (s : PeerDb) : Prop :=
  tidy (messages_of s) ∧ NoDup (message_key <$> messages_of s).

Lemma set_read_tidy (q : MessageRow → bool) t : tidy t → tidy (update_where q set_read t).
Proof.
  intros Ht m (y & Hy & ->)%elem_of_update_where. specialize (Ht y Hy). by destruct (q y).
Qed.
Lemma projection_head `{WireCodec, JsonText} s m r :
  tidy_row m →
  message_projection_for_id s (mg_owner_identity_id m) (mg_msg_id m) = Ok r →
  r = projection_of <$> head (select_where (named_as m) (messages_of s)).
Proof.
  intros (Ho & _ & Hi). unfold message_projection_for_id.
  rewrite (tidy_required _ _ Ho). cbn [mbind result_bind]. rewrite (tidy_required _ _ Hi).
  cbn [mbind result_bind]. by intros [= <-].
Qed.
Lemma written_head `{WireCodec, JsonText} s s1 m :
  NoDup (message_key <$> messages_of s) → messages_of s1 = put_message m (messages_of s) →
  head (select_where (named_as m) (messages_of s1)) = Some m.
Proof.
  intros Hnd Hput. pose proof (written_nodup s s1 m Hnd Hput) as Hnd1.
  destruct (written_split s s1 m Hnd Hput) as (l1 & l2 & _ & E).
  assert (named_as m m = true) as Nm by by apply message_named_key.
  destruct (head_select (named_as m) (messages_of s1) (λ z, z = m) m) as (z & Ez & ->); [|done| |done].
  - rewrite E. set_solver.
  - intros z Hz Nz. apply (key_inj message_key (messages_of s1)); [done|done|rewrite E; set_solver|].
    by apply message_named_key in Nz.
Qed.

Lemma required_tidy f x : tidy_text x → required f x = Ok x.
Proof.
  intros [Ht Hne]. unfold required, parse_non_empty. rewrite Ht. unfold is_empty.
  by rewrite bool_decide_eq_false_2.
Qed.
Lemma nonblank_one i : tidy_text i → nonblank_ids [i] = [i].
Proof.
  intros [Ht Hne]. unfold nonblank_ids. cbn [fmap list_fmap]. rewrite Ht, filter_cons_True; [done|].
  by apply bool_decide_eq_false_2.
Qed.
Lemma canonical_one r o i :
  tidy_text i → (∃ m, m ∈ db_messages (rd_db r) ∧ message_key m = (o, i)) →
  canonical_message_ids r o [i] = [i].
Proof.
  intros [Ht Hne] (m & Hm & Hk). unfold canonical_message_ids, resolve_message_identity. cbn [omap list_omap].
  rewrite (proj2 (exists_where_true _ _)); [|exists m; split; [done|by apply message_named_key]].
  cbn [fold_left]. unfold push_unique. rewrite Ht. unfold is_empty.
  by rewrite (bool_decide_eq_false_2 (i = _)), bool_decide_eq_false_2 by (done || apply not_elem_of_nil).
Qed.

Lemma marks_one o i m : marks o [i] m = true ↔ message_key m = (o, i).
Proof.
  unfold marks, message_key. rewrite andb_true_iff, !bool_decide_eq_true, list_elem_of_singleton. naive_solver.
Qed.

Section claims.
Context `{WireCodec, JsonText}.

Lemma one_marked now s o c x :
  summary_at s o c = Some x →
  apply_mark_read_delta_or_rebuild now s [mkMarkRead o c false]
  = Ok (1, update_summary_counts now s o c 0 (- 1) 0 (default EmptyString (su_first_unread_mention x))).
Proof.
  intros Hx. unfold apply_mark_read_delta_or_rebuild. cbn [fold_left]. unfold count_mark.
  cbn [mr_owner mr_conversation_id mr_mentions_current_user].
  rewrite lookup_empty. cbn [default from_option id]. rewrite insert_empty, map_to_list_singleton.
  change (merge_sort entry_le [((o, c), (0 + 1, 0, false))]) with [((o, c), (0 + 1, 0, false))].
  cbn [fold_left mark_step fst snd]. pose proof (summary_state_first s o c) as Hf. rewrite Hx in Hf.
  destruct (summary_state s o c) as [st|]; [|done]. cbn in Hf. injection Hf as ->.
  unfold rebuild_touched. by rewrite elements_empty.
Qed.

(** C17: When the summaries are those a rebuild from the messages gives and one message is
    written, new or in place of its old row, applying the delta of its projections before and
    after gives again the summaries of a rebuild, in every conversation, whether counts are
    added, the last message is replaced or a conversation is rebuilt; it fails only where the
    registry refuses a rebuilt conversation. The one case excepted is a message that counts
    and becomes, in another conversation, one that does not. *)
Theorem delta_matches_rebuild (now before after : string) s s1 m previous next :
  well_kept s → tidy_row m → up_to_date before s →
  messages_of s1 = put_message m (messages_of s) → px_summaries s1 = px_summaries s →
  Z.of_nat (length (messages_of s1)) ≤ i64_max →
  message_projection_for_id s (mg_owner_identity_id m) (mg_msg_id m) = Ok previous →
  message_projection_for_id s1 (mg_owner_identity_id m) (mg_msg_id m) = Ok (Some next) →
  (∀ p, previous = Some p → contributes_to_summary (pj_row p) = true →
        contributes_to_summary (pj_row next) = true ∨ pj_conversation_id p = pj_conversation_id next) →
  match apply_message_delta_or_rebuild now s1 previous next with
  | Ok r => px_read r.2 = px_read s1 ∧ up_to_date after r.2
  | Err e => refused s1 e
  end.
Proof.
  intros [Ht Hnd] Hm Hu Hput Hsum Hlen Hprev Hnext Hleave.
  apply projection_head in Hprev as ->; [|done]. apply projection_head in Hnext; [|done].
  rewrite (written_head s s1 m Hnd Hput) in Hnext. apply (inj Some) in Hnext as ->.
  apply up_to_date_exact in Hu; [|done].
  pose proof (delta_exact s s1 m Hu Ht Hm Hnd Hput Hsum Hlen now) as Hd.
  destruct (apply_message_delta_or_rebuild _ _ _ _) as [r|e].
  - destruct Hd as [Hr Hx].
    { intros p Hp Hc. apply (Hleave (projection_of p)); [by rewrite Hp|done]. }
    split; [done|]. apply up_to_date_exact; [|done]. unfold messages_of. rewrite Hr.
    exact (written_tidy s s1 m Ht Hm Hnd Hput).
  - apply Hd. intros p Hp Hc. apply (Hleave (projection_of p)); [by rewrite Hp|done].
Qed.

(** C18: Marking messages read lowers the unread counts, or rebuilds where a mention is
    marked, so that the summaries are again those of a rebuild, provided that every unread
    incoming message among the marked ones counts in its conversation. *)
Theorem mark_read_matches_rebuild (now before after : string) s owner message_ids :
  well_kept s → tidy_text owner → up_to_date before s →
  (∀ m, m ∈ messages_of s → mg_owner_identity_id m = owner →
        mg_msg_id m ∈ canonical_message_ids (px_read s) owner (nonblank_ids message_ids) →
        unread_incoming m = true → contributes_to_summary (summary_message_row m) = true) →
  match mark_messages_read_with_summaries now s owner message_ids with
  | Ok r => up_to_date after r.2 ∧
            messages_of r.2
            = update_where (marks owner (canonical_message_ids (px_read s) owner (nonblank_ids message_ids)))
                set_read (messages_of s)
  | Err e => ∃ s1, refused s1 e
  end.
Proof.
  intros [Ht Hnd] Ho Hu Hcount. pose proof Hu as Hx. apply up_to_date_exact in Hx; [|done].
  assert (∀ k : list string, k = [] → update_where (marks owner k) set_read (messages_of s) = messages_of s)
    as Hnone.
  { intros k ->. apply update_where_none. intros m _. unfold marks.
    by rewrite (bool_decide_eq_false_2 _ (not_elem_of_nil _)), andb_false_r. }
  unfold mark_messages_read_with_summaries.
  destruct (nonblank_ids message_ids) as [|i0 ids] eqn:Ei.
  { split; [by apply up_to_date_exact|]. by rewrite Hnone. }
  rewrite (required_tidy _ _ Ho). cbn [mbind result_bind]. rewrite <- Ei in *. set (canonical := canonical_message_ids _ _ _) in *.
  destruct canonical as [|k0 ks] eqn:Ek.
  { split; [by apply up_to_date_exact|]. by rewrite Hnone. }
  rewrite <- Ek in *. clearbody canonical. clear Ek k0 ks.
  destruct (mark_read_summary_rows_for_message_ids s owner canonical) as [rows|e] eqn:Er.
  2: { exfalso. revert Er. unfold mark_read_summary_rows_for_message_ids. rewrite (tidy_required _ _ Ho).
       cbn [mbind result_bind]. by destruct canonical. }
  cbn [mbind result_bind]. fold (marks owner canonical). set (s1 := with_read _ s).
  assert (messages_of s1 = update_where (marks owner canonical) set_read (messages_of s)) as Em by done.
  pose proof (marked_exact s s1 owner canonical rows Hx Ht Hnd Ho Er Em eq_refl) as Hmk.
  assert (∀ m, m ∈ messages_of s → marks owner canonical m = true → unread_incoming m = true →
               contributes_to_summary (summary_message_row m) = true) as Hc.
  { intros m Hm Hk Hun. unfold marks in Hk. bool_hyps. by apply Hcount. }
  specialize (Hmk Hc now). destruct (apply_mark_read_delta_or_rebuild now s1 rows) as [r|e];
    cbn [mbind result_bind]; [|by exists s1]. cbn [snd]. destruct Hmk as [Hr Hex].
  assert (messages_of r.2 = messages_of s1) as E2 by (unfold messages_of; by rewrite Hr).
  split; [|by rewrite E2, Em]. apply up_to_date_exact; [|done]. rewrite E2, Em. by apply set_read_tidy.
Qed.

(** The messages of a conversation that count in its summary. *)
Definition counting s o c : list MessageRow :=
  select_where (λ m, in_conversation o c m && contributes_to_summary (summary_message_row m)) (messages_of s).

Lemma count_counting s o c (q : SummaryMessageRow → bool) :
  count_where (λ r, contributes_to_summary r && q r) (rows_of (messages_of s) o c)
  = count_where (λ m, q (summary_message_row m)) (counting s o c).
Proof.
  unfold rows_of. rewrite count_fmap. unfold count_where, counting. rewrite !select_select.
  f_equal. apply select_ext. intros m _. by rewrite andb_assoc.
Qed.
Lemma select_counting s o c :
  select_where contributes_to_summary (rows_of (messages_of s) o c)
  = summary_message_row <$> counting s o c.
Proof. unfold rows_of, counting. by rewrite select_fmap, select_select. Qed.

(** A rebuild succeeds and gives a conversation a summary exactly when one of its messages
    counts: with the number of those messages, the number of the unread incoming ones and of
    those that mention the owner, and with a last message that counts and that no counting
    message of the conversation is later than. *)
Theorem rebuilt_summary (now : string) s :
  tidy (messages_of s) →
  ∃ n s', rebuild_all now s = Ok (n, s') ∧ messages_of s' = messages_of s ∧
    ∀ o c, match summary_at s' o c with
           | None => counting s o c = []
           | Some x =>
               su_message_count x = Z.of_nat (length (counting s o c)) ∧
               su_unread_count x
               = Z.of_nat (count_where (λ m, is_unread_incoming (summary_message_row m)) (counting s o c)) ∧
               su_unread_mention_count x
               = Z.of_nat (count_where (λ m, is_unread_mention (summary_message_row m)) (counting s o c)) ∧
               ∃ last, last ∈ counting s o c ∧ su_last_message_id x = Some (mg_msg_id last) ∧
                 ∀ m, m ∈ counting s o c →
                   message_is_later_than_message (summary_message_row m) (summary_message_row last) = false
           end.
Proof.
  intros Ht. destruct (rebuild_all_exact now s Ht) as (n & s' & E & Em & Hx).
  exists n, s'. split_and!; [done..|]. intros o c. specialize (Hx o c). rewrite Em, expected_of in Hx.
  cbv zeta in Hx.
  destruct (tally_of_counts (rows_of (messages_of s) o c)) as (C1 & C2 & C3).
  unfold counted_unread, counted_mention in C2, C3. rewrite count_counting in C2, C3.
  unfold count_where in C1. rewrite select_counting, length_fmap in C1.
  pose proof (tally_of_last (rows_of (messages_of s) o c)) as Hl. rewrite select_counting in Hl.
  destruct (ta_last (tally_of (rows_of (messages_of s) o c))) as [last|].
  - destruct (summary_at s' o c) as [x|]; [|done]. apply (inj Some) in Hx.
    split_and!.
    + rewrite <- C1. exact (f_equal su_message_count Hx).
    + rewrite <- C2. exact (f_equal su_unread_count Hx).
    + rewrite <- C3. exact (f_equal su_unread_mention_count Hx).
    + destruct Hl as [(m & -> & Hm)%list_elem_of_fmap Hmax]. exists m. split_and!; [done| |].
      * exact (f_equal su_last_message_id Hx).
      * intros y Hy. apply bool_decide_eq_false, Hmax. by apply list_elem_of_fmap_2.
  - destruct (summary_at s' o c); [done|]. by apply fmap_nil_inv in Hl.
Qed.

(** When a message that counts is rewritten as one that does not count, in another
    conversation, only the new conversation is rebuilt: the summary of the one it left keeps
    counting it. *)
Theorem left_conversation_stale (now before : string) s s1 m previous next r :
  well_kept s → tidy_row m → up_to_date before s →
  messages_of s1 = put_message m (messages_of s) → px_summaries s1 = px_summaries s →
  message_projection_for_id s (mg_owner_identity_id m) (mg_msg_id m) = Ok (Some previous) →
  message_projection_for_id s1 (mg_owner_identity_id m) (mg_msg_id m) = Ok (Some next) →
  contributes_to_summary (pj_row previous) = true → contributes_to_summary (pj_row next) = false →
  pj_conversation_id previous ≠ pj_conversation_id next →
  apply_message_delta_or_rebuild now s1 (Some previous) next = Ok r →
  ∃ x, summary_at r.2 (pj_owner previous) (pj_conversation_id previous) = Some x ∧
    su_message_count x
    = Z.of_nat (length (counting r.2 (pj_owner previous) (pj_conversation_id previous))) + 1.
Proof.
  intros [Ht Hnd] Hm Hu Hput Hsum Hprev Hnext Ha Hb Hne Hr.
  apply projection_head in Hprev; [|done]. apply projection_head in Hnext; [|done].
  rewrite (written_head s s1 m Hnd Hput) in Hnext. apply (inj Some) in Hnext as ->.
  symmetry in Hprev. apply fmap_Some in Hprev as (p & Hp & ->).
  apply up_to_date_exact in Hu; [|done]. destruct (prev_key s m p Hp) as [Hin [= Eo _]].
  cbn [projection_of pj_row pj_owner pj_conversation_id] in *.
  unfold apply_message_delta_or_rebuild in Hr. cbn [projection_of pj_row pj_owner pj_conversation_id] in Hr.
  rewrite Hb in Hr. cbn [negb orb] in Hr. destruct Hm as (Ho & Hc & Hi).
  pose proof (single_wrote now s1 _ _ Ho Hc) as Hw. rewrite Hr in Hw. destruct Hw as [Hpx Hw].
  specialize (Hw (mg_owner_identity_id p) (conversation_of p)).
  rewrite bool_decide_eq_false_2 in Hw by (rewrite list_elem_of_singleton; congruence).
  assert (core <$> summary_at s1 (mg_owner_identity_id p) (conversation_of p)
          = expected (messages_of s) (mg_owner_identity_id p) (conversation_of p)) as He
    by (unfold summary_at; rewrite Hsum; apply Hu).
  rewrite He, expected_of in Hw. cbv zeta in Hw.
  destruct (written_rows s s1 m Hnd Hput (mg_owner_identity_id p) (conversation_of p)) as (k & E & E' & _).
  rewrite Hp in E. cbn [one] in E. rewrite rows_of_one, (proj2 (in_conversation_true _ _ p)) in E by done.
  rewrite rows_of_one in E'. destruct (in_conversation _ _ m) eqn:Em in E'.
  { apply in_conversation_true in Em as [_ Em]. congruence. }
  cbn [app] in E, E'.
  assert (messages_of r.2 = messages_of s1) as Emsg by (unfold messages_of; by rewrite Hpx).
  destruct (tally_of_counts (rows_of (messages_of s) (mg_owner_identity_id p) (conversation_of p)))
    as (C1 & _ & _). split_count E C1. rewrite Ha in C1.
  assert (length (counting r.2 (mg_owner_identity_id p) (conversation_of p))
          = count_where contributes_to_summary k) as Hlen.
  { rewrite <- (length_fmap summary_message_row), <- select_counting, Emsg. unfold count_where.
    by rewrite E'. }
  pose proof (tally_of_last (rows_of (messages_of s) (mg_owner_identity_id p) (conversation_of p))) as Hl.
  destruct (ta_last _) as [last|].
  - destruct (summary_at r.2 _ _) as [x|]; [|done]. apply (inj Some) in Hw. exists x. split; [done|].
    rewrite Hlen. apply (f_equal su_message_count) in Hw. cbn in Hw. rewrite Hw, C1. lia.
  - pose proof (select_perm contributes_to_summary _ _ E) as Hs. rewrite Hl, select_cons, Ha in Hs.
    by apply Permutation_nil_l in Hs.
Qed.

(** Marking an unread incoming message that does not count in its conversation (a JSON
    payload without content, or one the owner sent to itself) still takes one from the unread
    count of the conversation, although as many counting messages as before are unread. *)
Theorem uncounted_marked (now before : string) s m x :
  well_kept s → up_to_date before s → m ∈ messages_of s → unread_incoming m = true →
  contributes_to_summary (summary_message_row m) = false → mg_mentions_current_user m = 0 →
  let o := mg_owner_identity_id m in
  let c := conversation_of m in
  summary_at s o c = Some x →
  ∃ s' y, mark_messages_read_with_summaries now s o [mg_msg_id m] = Ok (1, s') ∧
    summary_at s' o c = Some y ∧ su_unread_count y = Z.max 0 (su_unread_count x - 1) ∧
    Z.of_nat (count_where (λ n, is_unread_incoming (summary_message_row n)) (counting s' o c))
    = su_unread_count x.
Proof.
  intros [Ht Hnd] Hu Hm Hun Hb Hmen o c Hx. apply up_to_date_exact in Hu; [|done].
  destruct (Ht m Hm) as (Ho & Hc & Hi). fold o in Ho. fold c in Hc.
  assert (select_where (marks_unread o [mg_msg_id m]) (messages_of s) = [m]) as Hsel.
  { apply (select_key message_key); [done|done| |].
    - unfold marks_unread. rewrite Hun, (bool_decide_eq_true_2 (_ = o)) by done.
      by rewrite bool_decide_eq_true_2 by by apply list_elem_of_singleton.
    - intros z _ Hz. unfold marks_unread in Hz. apply andb_true_iff in Hz as [Hz Hid%bool_decide_eq_true].
      apply andb_true_iff in Hz as [Hzo%bool_decide_eq_true _]. apply list_elem_of_singleton in Hid.
      unfold message_key. by rewrite Hid, Hzo. }
  unfold mark_messages_read_with_summaries.
  rewrite (nonblank_one _ Hi), (required_tidy _ _ Ho). cbn [mbind result_bind].
  rewrite (canonical_one (px_read s) o (mg_msg_id m)); [|done|by exists m].
  destruct (mark_read_summary_rows_for_message_ids s o [mg_msg_id m]) as [rows|e] eqn:Er.
  2: { exfalso. revert Er. unfold mark_read_summary_rows_for_message_ids. by rewrite (tidy_required _ _ Ho). }
  pose proof (rows_are s o [mg_msg_id m] rows Ht Ho Er) as Hrows. rewrite Hsel in Hrows.
  cbn [mbind result_bind]. fold (marks o [mg_msg_id m]). set (s1 := with_read _ s).
  assert (summary_at s1 o c = Some x) as Hx1 by exact Hx.
  assert (rows = [mkMarkRead o c false]) as -> by (rewrite Hrows; cbn; by rewrite Hmen).
  rewrite (one_marked now s1 o c x Hx1). cbn [mbind result_bind snd].
  assert ((mark_messages (marks o [mg_msg_id m]) (px_read s)).1 = 1) as ->.
  { unfold mark_messages. cbn [fst]. unfold count_where. rewrite (select_key message_key _ _ m); [done|done|done| |].
    - by apply marks_one.
    - intros z _ Hz. by apply marks_one in Hz. }
  eexists _, _. split; [done|]. split.
  { pose proof (update_counts_at now s1 (o, c) (o, c) 0 (- 1) 0 (default EmptyString (su_first_unread_mention x)))
      as E. rewrite bool_decide_eq_true_2 in E by done. cbn [fst snd] in E. rewrite E, Hx1. done. }
  split; [done|].
  change (counting (update_summary_counts now s1 o c 0 (- 1) 0 _) o c) with (counting s1 o c).
  rewrite <- count_counting. fold counted_unread.
  assert (messages_of s1 = update_where (marks o [mg_msg_id m]) set_read (messages_of s)) as -> by done.
  rewrite rows_marked, count_fmap.
  rewrite (count_ext _ counted_unread).
  - specialize (Hu o c). rewrite Hx, expected_of in Hu. cbv zeta in Hu.
    destruct (tally_of_counts (rows_of (messages_of s) o c)) as (_ & C2 & _).
    destruct (ta_last _); [|done]. apply (inj Some), (f_equal su_unread_count) in Hu. cbn in Hu. congruence.
  - intros r (n & Hn & [En _]%in_conversation_true & ->)%rows_of_in. unfold counted_unread.
    rewrite mark_row_contributes, mark_row_unread. case_bool_decide as Ei; [|by rewrite andb_true_r].
    apply list_elem_of_singleton in Ei. cbn in Ei.
    assert (n = m) as ->; [|by rewrite Hb]. apply (key_inj message_key (messages_of s)); [done..|].
    unfold message_key. by rewrite En, Ei.
Qed.
End claims.

(** ** Concrete values *)

#[local] Instance tidy_row_dec m : Decision (tidy_row m).
Proof. unfold tidy_row, tidy_text. apply _. Defined.
Lemma tidy_check t : bool_decide (Forall tidy_row t) = true → tidy t.
Proof. intros Ht%bool_decide_eq_true m Hm. by apply (proj1 (Forall_forall _ _) Ht). Qed.
Lemma rebuilt_up_to_date `{WireCodec, JsonText} now after s n s' :
  tidy (messages_of s) → rebuild_all now s = Ok (n, s') → up_to_date after s'.
Proof.
  intros Ht E. destruct (rebuild_all_exact now s Ht) as (n1 & s1 & E1 & Em & Hx).
  rewrite E in E1. injection E1 as <- <-. apply up_to_date_exact; [by rewrite Em|done].
Qed.

(** Times are ordered by the length of their text; no content is JSON. *)
Definition ex_codec : WireCodec := {|
  to_canonical _ := None; sha256_hex s := s; time_rfc3339 _ := true;
  chrono_rfc3339 s := Some (Z.of_nat (String.length s)); group_transport_profile := "p6" |}.
Definition ex_json : JsonText := {| from_str _ := None |}.
#[local] Existing Instance ex_codec.
#[local] Existing Instance ex_json.

Definition ex_row (id conversation content_type content sent_at : string) (is_read : Z) : MessageRow :=
  mkMessageRow "owner" id conversation "thread" "direct" "hydrated" "did:me" "did:peer" "" 0 None 0 None
    sent_at "0" is_read "" content_type "did:me" "" "resolved" content "" "Peer" 0 "".
Definition ex_rows : list MessageRow :=
  [ex_row "m1" "dm" "text/plain" "hello" "1" 0; ex_row "m2" "dm" "text/plain" "again" "11" 0;
   ex_row "m3" "dm" "application/json" "" "111" 0].
Definition put_rows (t : list MessageRow) (s : PeerDb) : PeerDb :=
  with_read (on_db (with_messages t (rd_db (px_read s))) (px_read s)) s.
Definition ex_base : PeerDb :=
  put_rows ex_rows (mkPeerDb (mkReadDb empty_db [] [] [] []) [] [] [] [] [] [] [] [] [] [] [] []).
Definition ex_db : PeerDb := (unwrap_or (rebuild_all "now" ex_base) (0, ex_base)).2.

Lemma ex_tidy : tidy ex_rows.
Proof. apply tidy_check. by vm_compute. Qed.
Lemma ex_rebuilt : rebuild_all "now" ex_base = Ok (1, ex_db).
Proof. by vm_compute. Qed.
Lemma ex_messages : messages_of ex_db = ex_rows.
Proof. by vm_compute. Qed.
Lemma ex_well_kept : well_kept ex_db.
Proof.
  unfold well_kept. rewrite ex_messages. split; [exact ex_tidy|].
  apply (bool_decide_unpack _). by vm_compute.
Qed.
Lemma ex_up_to_date : up_to_date "later" ex_db.
Proof. exact (rebuilt_up_to_date "now" "later" ex_base 1 ex_db ex_tidy ex_rebuilt). Qed.

(** The second message, read and with other words. *)
Definition ex_new : MessageRow := ex_row "m2" "dm" "text/plain" "again and again" "11" 1.
Definition ex_written : PeerDb := put_rows (put_message ex_new (messages_of ex_db)) ex_db.
Definition ex_previous : SummaryMessageProjection := projection_of (ex_row "m2" "dm" "text/plain" "again" "11" 0).
Definition ex_next : SummaryMessageProjection := projection_of ex_new.
Lemma ex_projections :
  message_projection_for_id ex_db "owner" "m2" = Ok (Some ex_previous) ∧
  message_projection_for_id ex_written "owner" "m2" = Ok (Some ex_next) ∧
  contributes_to_summary (pj_row ex_next) = true.
Proof. by vm_compute. Qed.
Lemma delta_matches_rebuild_witness :
  match apply_message_delta_or_rebuild "now" ex_written (Some ex_previous) ex_next with
  | Ok r => px_read r.2 = px_read ex_written ∧ up_to_date "after" r.2
  | Err e => refused ex_written e
  end.
Proof.
  destruct ex_projections as (Hp & Hn & Hc).
  apply (delta_matches_rebuild "now" "later" "after" ex_db ex_written ex_new (Some ex_previous) ex_next).
  - exact ex_well_kept.
  - apply (bool_decide_unpack _). by vm_compute.
  - exact ex_up_to_date.
  - reflexivity.
  - reflexivity.
  - by vm_compute.
  - exact Hp.
  - exact Hn.
  - intros p _ _. left. exact Hc.
Defined.
Lemma mark_read_matches_rebuild_witness :
  match mark_messages_read_with_summaries "now" ex_db "owner" ["m1"%string] with
  | Ok r => up_to_date "after" r.2 ∧
            messages_of r.2
            = update_where (marks "owner" (canonical_message_ids (px_read ex_db) "owner"
                                             (nonblank_ids ["m1"%string]))) set_read (messages_of ex_db)
  | Err e => ∃ s1, refused s1 e
  end.
Proof.
  apply (mark_read_matches_rebuild "now" "later" "after" ex_db "owner" ["m1"%string]).
  - exact ex_well_kept.
  - apply (bool_decide_unpack _). by vm_compute.
  - exact ex_up_to_date.
  - rewrite ex_messages. intros m Hm _ Hid _. revert Hid.
    assert (canonical_message_ids (px_read ex_db) "owner" (nonblank_ids ["m1"%string]) = ["m1"%string]) as ->
      by by vm_compute.
    intros Hid%list_elem_of_singleton.
    repeat (apply elem_of_cons in Hm as [->|Hm]; [first [by vm_compute|done]|]). by apply not_elem_of_nil in Hm.
Defined.
Lemma rebuilt_summary_witness :
  ∃ n s', rebuild_all "now" ex_base = Ok (n, s') ∧ messages_of s' = messages_of ex_base.
Proof.
  destruct (rebuilt_summary "now" ex_base ex_tidy) as (n & s' & E & Em & _). by exists n, s'.
Defined.

(** The second message becomes one without content, in another conversation. *)
Definition ex_gone : MessageRow := ex_row "m2" "other" "application/json" "" "11" 0.
Definition ex_moved : PeerDb := put_rows (put_message ex_gone (messages_of ex_db)) ex_db.
Definition ex_after : PeerDb :=
  (unwrap_or (apply_message_delta_or_rebuild "now" ex_moved (Some ex_previous) (projection_of ex_gone))
     (0, ex_moved)).2.
Lemma ex_moved_ok :
  apply_message_delta_or_rebuild "now" ex_moved (Some ex_previous) (projection_of ex_gone) = Ok (0, ex_after).
Proof. by vm_compute. Qed.
Lemma ex_moved_projection :
  message_projection_for_id ex_moved "owner" "m2" = Ok (Some (projection_of ex_gone)).
Proof. by vm_compute. Qed.
Lemma left_conversation_stale_witness :
  ∃ x, summary_at ex_after "owner" "dm" = Some x ∧
    su_message_count x = Z.of_nat (length (counting ex_after "owner" "dm")) + 1.
Proof.
  apply (left_conversation_stale "now" "later" ex_db ex_moved ex_gone ex_previous (projection_of ex_gone)
           (0, ex_after)).
  - exact ex_well_kept.
  - apply (bool_decide_unpack _). by vm_compute.
  - exact ex_up_to_date.
  - reflexivity.
  - reflexivity.
  - exact (proj1 ex_projections).
  - exact ex_moved_projection.
  - by vm_compute.
  - by vm_compute.
  - done.
  - exact ex_moved_ok.
Defined.

Definition ex_pending : MessageRow := ex_row "m3" "dm" "application/json" "" "111" 0.
Definition ex_summary : SummaryRow :=
  mkSummaryRow "owner" "did:me" "dm" "dm" 2 2 0 None (Some "m2"%string) "11" (Some "again"%string)
    (Some "text/plain"%string) (Some "did:peer"%string) (Some "Peer"%string) None None None "now".
Lemma ex_summary_ok : summary_at ex_db "owner" "dm" = Some ex_summary.
Proof. by vm_compute. Qed.
Lemma uncounted_marked_witness :
  ∃ s' y, mark_messages_read_with_summaries "now" ex_db "owner" ["m3"%string] = Ok (1, s') ∧
    summary_at s' "owner" "dm" = Some y ∧ su_unread_count y = Z.max 0 (su_unread_count ex_summary - 1) ∧
    Z.of_nat (count_where (λ n, is_unread_incoming (summary_message_row n)) (counting s' "owner" "dm"))
    = su_unread_count ex_summary.
Proof.
  apply (uncounted_marked "now" "later" ex_db ex_pending ex_summary ex_well_kept ex_up_to_date).
  - rewrite ex_messages. right. right. left.
  - reflexivity.
  - by vm_compute.
  - reflexivity.
  - exact ex_summary_ok.
Defined.
