(* ===== verification/MessageProps.v ===== *)
(** * The steps of an upsert

    What each step of [upsert_message_record] leaves as it is, and the message table at the
    end of it. *)

From S2P Require Import Prelude RustStr ImError Decimal Store SyncStore Outbox Wire Lanes ReadState ReadBind ReadIds ReadProps ReadWire Persona PersonaProps Peers PeerProps Summaries SummaryOrder SummaryProps SummaryRebuild SummaryDelta SummaryMark Mentions Messages.
Local Open Scope Z_scope.

(** The messages, their aliases, the read states, the summaries and the messages held back are
    as before. *)
Definition same_tables (s s' : PeerDb) : Prop :=
  messages_of s' = messages_of s ∧ px_summaries s' = px_summaries s ∧
  rd_message_aliases (px_read s') = rd_message_aliases (px_read s) ∧
  db_read_states (rd_db (px_read s')) = db_read_states (rd_db (px_read s)) ∧ px_backlog s' = px_backlog s.
#[export] Instance same_tables_refl : Reflexive same_tables.
Proof. done. Qed.
#[export] Instance same_tables_trans : Transitive same_tables.
Proof. intros s1 s2 s3 (A & B & C & D & E) (A' & B' & C' & D' & E'). unfold same_tables. split_and!; congruence. Qed.

Lemma ensure_same s r s' : ensure_conversation s r = Ok s' → same_tables s s'.
Proof.
  unfold ensure_conversation, put_registry. intros (_ & _ & He)%bind_Ok.
  destruct (canonical_identity_for_record _ _) as [[a b] c].
  destruct (exists_where _ _) in He; [done|]. by injection He as <-.
Qed.
Lemma insert_alias_same s r s' : insert_alias s r = Ok s' → same_tables s s'.
Proof.
  unfold insert_alias. intros (_ & _ & He)%bind_Ok. cbv zeta in He.
  destruct (exists_where _ _) in He; [done|]. destruct (negb _) in He; [done|].
  destruct (head _) as [cur|]; [|by injection He as <-].
  case_bool_decide; [|done]. by injection He as <-.
Qed.
Lemma mark_merged_same now s o c k s' : mark_merged now s o c k = Ok s' → same_tables s s'.
Proof. unfold mark_merged. destruct (exists_where _ _); [|done]. by intros [= <-]. Qed.
Lemma ensure_summary_same s o c s' : ensure_from_summary s o c = Ok s' → same_tables s s'.
Proof. intros He. by destruct (ensure_summary_registry s o c s' He) as [t ->]. Qed.
Lemma try_fold_same {A} (f : PeerDb → A → ImResult PeerDb) l s s' :
  (∀ s a s', f s a = Ok s' → same_tables s s') → try_fold f s l = Ok s' → same_tables s s'.
Proof.
  intros Hf. revert s. induction l as [|a l IH]; intros s He; [by injection He as <-|].
  cbn [try_fold] in He. apply bind_Ok in He as (s1 & H1 & He). etrans; [by eapply Hf|by apply IH].
Qed.

Lemma trim_dm x : trim x = x → trim ("dm:" +:+ x) = "dm:" +:+ x.
Proof.
  intros Hx. unfold trim.
  assert (strip_start (bytes ("dm:" +:+ x)) = bytes ("dm:" +:+ x)) as ->.
  { apply strip_id. by apply lead_solid. }
  unfold strip_end. rewrite strip_id; [by rewrite reverse_involutive, of_bytes_bytes|].
  pose proof (trimmed_end x Hx) as He. rewrite bytes_app, reverse_app.
  destruct (reverse (bytes x)) as [|a [|b [|c l]]]; [done|..|done]; cbn in He |- *.
  - rewrite orb_false_r in He. by rewrite He.
  - apply orb_false_iff in He as [-> He]. rewrite orb_false_r in He. by rewrite He.
Qed.
Lemma direct_conversation_tidy did : tidy_text (direct_conversation_id did).
Proof.
  unfold direct_conversation_id. cbv zeta. destruct (is_empty (trim did)); [by split|].
  split; [|done]. apply trim_dm, trim_idem.
Qed.

Lemma push_unique_sub l acc (x : string) : x ∈ fold_left push_unique l acc → x ∈ acc ∨ x ∈ l.
Proof.
  revert acc. induction l as [|y l IH]; intros acc Hx; [by left|]. cbn [fold_left] in Hx.
  apply IH in Hx as [Hx|Hx]; [|right; by right]. unfold push_unique in Hx.
  destruct (_ && _) in Hx; set_solver.
Qed.
Lemma legacy_ids_tidy s o p c i :
  i ∈ verified_legacy_direct_conversation_ids s o p c → tidy_text i ∧ i ≠ c.
Proof.
  intros [Hn|Hi]%push_unique_sub; [by apply elem_of_nil in Hn|].
  apply elem_of_select_where in Hi as [(did & -> & _)%list_elem_of_fmap Hc].
  split; [apply direct_conversation_tidy|]. apply andb_true_iff in Hc as [Hc _].
  by apply negb_true_iff, bool_decide_eq_false in Hc.
Qed.

Section merge.
Context `{WireCodec, JsonText, Idna}.

(** The merged conversations are all given up for the canonical one; nothing else of the
    messages changes. *)
Lemma merge_legacy_inv now d o c r ids d' :
  merge_legacy_direct_did_conversation now d o c r = Ok (ids, d') →
  tidy_text o → tidy_text c →
  px_summaries (ms_peers d') = px_summaries (ms_peers d) ∧
  rd_message_aliases (px_read (ms_peers d')) = rd_message_aliases (px_read (ms_peers d)) ∧
  db_read_states (rd_db (px_read (ms_peers d'))) = db_read_states (rd_db (px_read (ms_peers d))) ∧
  px_backlog (ms_peers d') = px_backlog (ms_peers d) ∧
  stored_messages d' = update_where (legacy_message o ids) (refile c) (stored_messages d) ∧
  (∀ i, i ∈ ids → tidy_text i ∧ i ≠ c) ∧ (record_is_group r = true → ids = []).
Proof.
  assert (∀ i : string, i ∈ [] → tidy_text i ∧ i ≠ c) as Hempty by set_solver.
  intros He Ho Hc. unfold merge_legacy_direct_did_conversation in He.
  assert (∀ t, update_where (legacy_message o []) (refile c) t = t) as Hnil.
  { intros t. apply update_where_none. intros m _. unfold legacy_message.
    by rewrite (bool_decide_eq_false_2 _ (not_elem_of_nil _)), andb_false_r. }
  assert (required "owner_identity_id" o = Ok o ∧ required "conversation_id" c = Ok c) as [Eo Ec].
  { destruct Ho as [Ho Hno], Hc as [Hc Hnc]. unfold required, parse_non_empty. rewrite Ho, Hc.
    unfold is_empty. by rewrite !bool_decide_eq_false_2. }
  rewrite Eo in He. cbn [mbind result_bind] in He. rewrite Ec in He. cbn [mbind result_bind] in He.
  destruct (record_is_group r) eqn:Eg; [rewrite orb_true_r in He; injection He as <- <-; split_and!; by rewrite ?Hnil|].
  destruct (_ || false) in He; [injection He as <- <-; split_and!; by rewrite ?Hnil|].
  case_bool_decide; [injection He as <- <-; split_and!; by rewrite ?Hnil|].
  apply bind_Ok in He as (route & _ & He).
  destruct (route ≫= _) as [persona|]; [|injection He as <- <-; split_and!; by rewrite ?Hnil].
  apply bind_Ok in He as (s1 & Hs1%ensure_same & He).
  destruct (verified_legacy_direct_conversation_ids s1 o persona c) as [|i0 is0] eqn:Ei.
  { injection He as <- <-. destruct Hs1 as (A & B & C & D & E). cbn. split_and!; [done..| |done|done].
    unfold stored_messages. cbn. by rewrite A, Hnil. }
  rewrite <- Ei in He. set (l := verified_legacy_direct_conversation_ids s1 o persona c) in *.
  assert (∀ i, i ∈ l → tidy_text i ∧ i ≠ c) as Hl by (intros i; apply legacy_ids_tidy). clearbody l.
  apply bind_Ok in He as (s2 & Hs2%(try_fold_same _ _ _ _ (λ s a s', insert_alias_same s _ s')) & He).
  cbv zeta in He. apply bind_Ok in He as (s3 & Hs3 & He).
  apply (try_fold_same _ _ _ _ (λ s a s', mark_merged_same now s _ _ _ s')) in Hs3.
  injection He as <- <-. assert (same_tables (ms_peers d) s2) as H12 by (by etrans).
  destruct H12 as (A & B & C & D & E), Hs3 as (A' & B' & C' & D' & E'). cbn in *.
  unfold stored_messages. cbn. split_and!; [by rewrite B'|by rewrite C'|by rewrite D'|by rewrite E'| |done|done].
  rewrite A'. cbn. by rewrite A.
Qed.
End merge.

(** ** The summaries alone change with them *)

Section summaries.
Context `{WireCodec, JsonText}.
Implicit Types s : PeerDb.

Definition frame s : ReadDb * list BacklogRow := (px_read s, px_backlog s).
Lemma rebuild_read now s o c b s' : rebuild_conversation now s o c = Ok (b, s') → frame s' = frame s.
Proof.
  unfold rebuild_conversation. intros (o1 & _ & He)%bind_Ok. apply bind_Ok in He as (c1 & _ & He).
  destruct (ta_last _); by injection He as _ <-.
Qed.
Lemma ensured_read s o c s' : ensure_from_summary s o c = Ok s' → frame s' = frame s.
Proof. intros He. by destruct (ensure_summary_registry s o c s' He) as [t ->]. Qed.
Lemma single_read now s o c r : rebuild_single now s o c = Ok r → frame r.2 = frame s.
Proof.
  unfold rebuild_single. intros ([b s1] & H1%rebuild_read & He)%bind_Ok. cbn [fst snd] in He.
  destruct b; [|by injection He as <-]. apply bind_Ok in He as (s2 & H2%ensured_read & He).
  injection He as <-. cbn. congruence.
Qed.
Lemma touched_read now s ks r : rebuild_touched now s ks = Ok r → frame r.2 = frame s.
Proof.
  unfold rebuild_touched. apply (try_fold_inv (λ a, frame a.2 = frame s)); [done|].
  intros a k a' _ Ha He. unfold touch_step in He. destruct (_ || _) in He; [by injection He as <-|].
  apply bind_Ok in He as ([b s1] & H1%rebuild_read & He). cbn [fst snd] in He.
  destruct b; [|injection He as <-; cbn; congruence].
  apply bind_Ok in He as (s2 & H2%ensured_read & He). injection He as <-. cbn. congruence.
Qed.
Lemma delta_read now s p q r : apply_message_delta_or_rebuild now s p q = Ok r → frame r.2 = frame s.
Proof.
  unfold apply_message_delta_or_rebuild, apply_update_delta, apply_insert_delta. cbv zeta. intros He.
  repeat match type of He with
  | rebuild_single _ _ _ _ = _ => exact (single_read _ _ _ _ _ He)
  | rebuild_touched _ _ _ = _ => exact (touched_read _ _ _ _ He)
  | Ok _ = Ok _ => by injection He as <-
  | context [match ?x with _ => _ end] => destruct x
  end.
Qed.
End summaries.

(** ** The message table after an upsert *)

Definition read_states (d : MessageDb) : list ThreadReadStateRecord :=
  db_read_states (rd_db (px_read (ms_peers d))).
Section table.
Context `{WireCodec, JsonText, Idna}.

Definition without_copies (plan : UpsertPlan) (t : list MessageRow) : list MessageRow :=
  fold_left (remove_one (up_owner plan) (up_msg_id plan)) (up_duplicates plan) t.
Definition with_row (plan : UpsertPlan) (t : list MessageRow) : list MessageRow :=
  put_row (up_confirm plan) (up_row plan) (without_copies plan t).
Definition refiled (plan : UpsertPlan) (ids : list string) (t : list MessageRow) : list MessageRow :=
  update_where (legacy_message (up_owner plan) ids) (refile (up_conversation_id plan)) (with_row plan t).
Definition upserted (plan : UpsertPlan) (ids : list string) (states : list ThreadReadStateRecord)
    (t : list MessageRow) : list MessageRow :=
  update_where (inherits states (up_owner plan) (up_msg_id plan)) set_read (refiled plan ids t).

Definition stored_row (plan : UpsertPlan) (t : list MessageRow) : option MessageRow :=
  head (select_where (message_named (up_owner plan) (up_msg_id plan)) t).
Definition touched_keys (plan : UpsertPlan) (ids : list string) (previous next : option MessageRow)
    : gset (string * string) :=
  list_to_set (((λ p, (up_owner plan, pj_conversation_id p)) <$> option_list (projection_of <$> previous))
               ++ ((λ d, (rc_owner_identity_id d, stable_conversation_id d)) <$> up_duplicates plan))
  ∪ list_to_set (pair (up_owner plan) <$> ids)
  ∪ list_to_set ((λ p, (up_owner plan, pj_conversation_id p)) <$> option_list (projection_of <$> next)).

Lemma projection_named s o i :
  tidy_text o → tidy_text i →
  message_projection_for_id s o i
  = Ok (projection_of <$> head (select_where (message_named o i) (messages_of s))).
Proof.
  intros Ho Hi. unfold message_projection_for_id. rewrite (tidy_required _ _ Ho). cbn [mbind result_bind].
  by rewrite (tidy_required _ _ Hi).
Qed.
Lemma aliases_inv s o i l s' :
  upsert_message_identity_aliases s o i l = Ok s' → tidy_text o → tidy_text i →
  s' = on_message_aliases (fold_left (put_message_alias o i) l (rd_message_aliases (px_read s))) s.
Proof.
  intros He [Ho Hno] [Hi Hni]. unfold upsert_message_identity_aliases, required, parse_non_empty in He.
  rewrite Ho, Hi in He. unfold is_empty in He. rewrite !bool_decide_eq_false_2 in He by done.
  by injection He as <-.
Qed.

Lemma upsert_inv now d r plan touched d' :
  plan_upsert now d r = Ok plan → tidy_text (up_owner plan) → tidy_text (up_msg_id plan) →
  tidy_text (up_conversation_id plan) → upsert_message_record now d r = Ok (touched, d') →
  ∃ ids s n sm, (∀ i, i ∈ ids → tidy_text i ∧ i ≠ up_conversation_id plan) ∧
    (record_is_group r = true → ids = []) ∧
    messages_of s = upserted plan ids (read_states d) (stored_messages d) ∧
    px_summaries s = px_summaries (ms_peers d) ∧ px_backlog s = px_backlog (ms_peers d) ∧
    rd_message_aliases (px_read s)
    = fold_left (put_message_alias (up_owner plan) (up_msg_id plan))
        (if up_canonical plan then merged_group_message_aliases r (up_duplicates plan) (up_msg_id plan) else [])
        (rd_message_aliases (px_read (ms_peers d))) ∧
    let previous := stored_row plan (stored_messages d) in
    let next := stored_row plan (messages_of s) in
    match ids, up_duplicates plan, projection_of <$> next with
    | [], [], Some p => apply_message_delta_or_rebuild now s (projection_of <$> previous) p
    | _, _, _ => rebuild_touched now s (touched_keys plan ids previous next)
    end = Ok (n, sm) ∧ frame sm = frame s ∧ same_tables sm (ms_peers d').
Proof.
  intros Hplan Ho Hi Hc He. unfold upsert_message_record in He. rewrite Hplan in He.
  cbn [mbind result_bind] in He. rewrite projection_named in He by done. cbn [mbind result_bind] in He.
  apply bind_Ok in He as (s2 & Ha & He). apply aliases_inv in Ha; [|done..].
  apply bind_Ok in He as ([ids d1] & Hmerge & He).
  destruct (merge_legacy_inv _ _ _ _ _ _ _ Hmerge Ho Hc) as (B & C & D & E & A & Hids & Hgroup).
  cbv beta iota zeta in He. rewrite projection_named in He by done. cbn [mbind result_bind] in He.
  apply bind_Ok in He as ([n sm] & Hsum & He). apply bind_Ok in He as (s4 & Hens%ensure_summary_same & He).
  injection He as _ <-.
  exists ids, (inherit_committed_read_watermark (ms_peers d1) (up_owner plan) (up_msg_id plan)), n, sm.
  assert (stored_messages d1 = refiled plan ids (stored_messages d)) as Et.
  { rewrite A. unfold refiled, with_row, without_copies. subst s2. done. }
  split_and!.
  - exact Hids.
  - exact Hgroup.
  - change (update_where (inherits (db_read_states (rd_db (px_read (ms_peers d1)))) (up_owner plan) (up_msg_id plan))
              set_read (stored_messages d1) = upserted plan ids (read_states d) (stored_messages d)).
    rewrite D, Et. subst s2. done.
  - change (px_summaries (ms_peers d1) = px_summaries (ms_peers d)). rewrite B. subst s2. done.
  - change (px_backlog (ms_peers d1) = px_backlog (ms_peers d)). rewrite E. subst s2. done.
  - transitivity (rd_message_aliases (px_read (ms_peers d1))); [done|]. rewrite C. subst s2. done.
  - split; [exact Hsum|]. split; [|exact Hens].
    destruct ids, (up_duplicates plan), (projection_of <$> _) in Hsum;
      first [exact (delta_read _ _ _ _ _ Hsum)|exact (touched_read _ _ _ _ Hsum)].
Qed.
(** The rows and the aliases of the end, without the summaries. *)
Lemma upsert_rows now d r plan touched d' :
  plan_upsert now d r = Ok plan → tidy_text (up_owner plan) → tidy_text (up_msg_id plan) →
  tidy_text (up_conversation_id plan) → upsert_message_record now d r = Ok (touched, d') →
  ∃ ids, (record_is_group r = true → ids = []) ∧
    stored_messages d' = upserted plan ids (read_states d) (stored_messages d) ∧
    rd_message_aliases (px_read (ms_peers d'))
    = fold_left (put_message_alias (up_owner plan) (up_msg_id plan))
        (if up_canonical plan then merged_group_message_aliases r (up_duplicates plan) (up_msg_id plan) else [])
        (rd_message_aliases (px_read (ms_peers d))) ∧
    px_backlog (ms_peers d') = px_backlog (ms_peers d).
Proof.
  intros Hplan Ho Hi Hc He. destruct (upsert_inv _ _ _ _ _ _ Hplan Ho Hi Hc He)
    as (ids & s & n & sm & _ & Hids & Em & _ & Eb & Ea & _ & [= Hr Hb] & Hd' & _ & Hal & _ & Hbl).
  exists ids. split; [done|]. split; [|split; [by rewrite Hal, Hr|by rewrite Hbl, Hb]].
  rewrite <- Em. unfold stored_messages. rewrite Hd'. unfold messages_of. by rewrite Hr.
Qed.
End table.
