(* ===== verification/MessageTable.v ===== *)
(** * The message table across an upsert

    What an upsert works out of the tables, and where the rows of each conversation go. *)

From S2P Require Import Prelude RustStr ImError Decimal Store SyncStore Outbox Wire Lanes ReadState ReadBind ReadIds ReadProps ReadWire Persona Peers PeerProps Summaries SummaryOrder SummaryProps SummaryRebuild SummaryDelta SummaryMark SummaryClaims Mentions Messages MessageProps.
Local Open Scope Z_scope.

(** Every row is filed under a trimmed conversation of its own. *)
Definition filed (t : list MessageRow) : Prop := ∀ m, m ∈ t → tidy_text (mg_conversation_id m).

Lemma select_delete_in {A} (p q : A → bool) t :
  (∀ x, x ∈ t → p x = true → q x = false) → select_where q (delete_where p t) = select_where q t.
Proof.
  intros Hf. induction t as [|x t IH]; [done|]. unfold delete_where in *.
  rewrite filter_cons, select_cons, <- IH by (intros y Hy; apply Hf; by right).
  case_decide as E; [by rewrite select_cons|]. apply not_false_iff_true in E.
  by rewrite (Hf x (list_elem_of_here x t) E).
Qed.
Lemma select_update_in {A} (p q : A → bool) (f : A → A) t :
  (∀ x, x ∈ t → p x = true → q x = false ∧ q (f x) = false) →
  select_where q (update_where p f t) = select_where q t.
Proof.
  intros Hf. induction t as [|x t IH]; [done|].
  change (update_where p f (x :: t)) with ((if p x then f x else x) :: update_where p f t).
  rewrite !select_cons, IH by (intros y Hy; apply Hf; by right). destruct (p x) eqn:E; [|done].
  by destruct (Hf x (list_elem_of_here x t) E) as [-> ->].
Qed.

(** ** Aliases put in *)

Lemma push_unique_sup l acc (x : string) :
  x ∈ acc ∨ (x ∈ l ∧ is_empty (trim x) = false) → x ∈ fold_left push_unique l acc.
Proof.
  revert acc. induction l as [|y l IH]; intros acc Hx; [naive_solver set_solver|]. cbn [fold_left]. apply IH.
  unfold push_unique. destruct Hx as [Hx|[[->|Hx]%elem_of_cons He]]; [|rewrite He|by right].
  - left. destruct (_ && _); set_solver.
  - left. cbn [negb andb]. case_bool_decide; cbn [negb]; set_solver.
Qed.

(** The rows of an alias all stand for the message. *)
Definition stands_for (owner canonical alias : string) (t : list MessageAlias) : Prop :=
  mkMessageAlias owner alias canonical ∈ t ∧
  ∀ a, a ∈ t → ma_owner a = owner → ma_alias a = alias → a = mkMessageAlias owner alias canonical.
Lemma put_alias_stands o c t a :
  tidy_text a → a ≠ c → stands_for o c a (put_message_alias o c t a).
Proof.
  intros [Ht Hne] Hc. unfold put_message_alias. rewrite Ht. unfold is_empty.
  rewrite !bool_decide_eq_false_2 by done. cbn [orb].
  set (k := λ x, bool_decide (ma_owner x = o) && bool_decide (ma_alias x = a)).
  destruct (exists_where k t) eqn:E.
  - split.
    + apply exists_where_true in E as (x & Hx & Kx). apply elem_of_update_where. exists x. by rewrite Kx.
    + intros x (y & _ & ->)%elem_of_update_where. destruct (k y) eqn:Ky; [done|]. intros Eo Ea.
      unfold k in Ky. by rewrite !bool_decide_eq_true_2 in Ky.
  - split; [apply elem_of_app; right; by left|].
    intros x [Hx| ->%list_elem_of_singleton]%elem_of_app Eo Ea; [|done].
    pose proof (proj1 (exists_where_false _ _) E x Hx) as Kx. unfold k in Kx.
    by rewrite !bool_decide_eq_true_2 in Kx.
Qed.
Lemma put_alias_keeps o c t a b : stands_for o c a t → stands_for o c a (put_message_alias o c t b).
Proof.
  intros [Hin Hall]. unfold put_message_alias. cbv zeta. destruct (_ || _); [done|].
  set (k := λ x, bool_decide (ma_owner x = o) && bool_decide (ma_alias x = trim b)).
  destruct (exists_where k t).
  - split.
    + apply elem_of_update_where. eexists. split; [exact Hin|]. unfold k. cbn [ma_owner ma_alias].
      rewrite (bool_decide_eq_true_2 (o = o)) by done. by case_bool_decide as E; [rewrite <- E|].
    + intros x (y & Hy & ->)%elem_of_update_where. destruct (k y); [by cbn; intros _ ->|by apply Hall].
  - split; [apply elem_of_app; by left|].
    intros x [Hx| ->%list_elem_of_singleton]%elem_of_app; [by apply Hall|]. by cbn; intros _ ->.
Qed.
Lemma put_aliases_stand o c l t a :
  a ∈ l → tidy_text a → a ≠ c → stands_for o c a (fold_left (put_message_alias o c) l t).
Proof.
  intros Ha Ht Hc.
  assert (∀ l t, stands_for o c a t → stands_for o c a (fold_left (put_message_alias o c) l t)) as Hk.
  { clear. induction l as [|b l IH]; intros t Ht; [done|]. by apply IH, put_alias_keeps. }
  revert t. induction l as [|b l IH]; intros t; [by apply elem_of_nil in Ha|]. cbn [fold_left].
  apply elem_of_cons in Ha as [<-|Ha]; [by apply Hk, put_alias_stands|by apply IH].
Qed.
(** An alias of a stored message whose id no row has resolves to it. *)
Lemma stands_resolves (s : ReadDb) o c a :
  stands_for o c a (rd_message_aliases s) → tidy_text c →
  exists_where (message_named o c) (db_messages (rd_db s)) = true →
  exists_where (message_named o a) (db_messages (rd_db s)) = false →
  resolve_message_identity s o a = Some c.
Proof.
  intros [Hin Hall] Hc He Hn. unfold resolve_message_identity. cbv zeta. rewrite Hn.
  set (q := λ x, bool_decide (ma_owner x = o) && bool_decide (ma_alias x = a) && _ && _).
  destruct (head_select q (rd_message_aliases s) (λ x, x = mkMessageAlias o a c) (mkMessageAlias o a c))
    as (x & -> & ->); [done| | |cbn [fmap option_fmap option_map ma_canonical]; by rewrite (proj1 Hc)].
  - unfold q. cbn [ma_owner ma_alias ma_canonical]. by rewrite !bool_decide_eq_true_2, He, (tidy_not_empty _ Hc).
  - intros x Hx Hq. unfold q in Hq. bool_hyps. by apply Hall.
Qed.

(** ** One row put in *)

Lemma named_as_key m m' : message_key m = message_key m' → named_as m = named_as m'.
Proof. unfold named_as, message_key. by intros [= -> ->]. Qed.
Lemma put_message_update p f m t :
  (∀ x, p x = true → named_as m x = true) → message_key (f m) = message_key m →
  update_where p f (put_message m t) = put_message (if p m then f m else m) t.
Proof.
  intros Hp Hf. assert (named_as (if p m then f m else m) = named_as m) as En.
  { apply named_as_key. by destruct (p m). }
  unfold put_message. rewrite En. destruct (exists_where (named_as m) t) eqn:E.
  - unfold update_where. rewrite <- list_fmap_compose. apply list_fmap_ext. intros i x _. cbn.
    destruct (named_as m x) eqn:Nx; [by destruct (p m)|]. destruct (p x) eqn:Px; [|done].
    by rewrite (Hp x Px) in Nx.
  - unfold update_where. rewrite fmap_app. f_equal. change (update_where p f t = t).
    apply update_where_none. intros x Hx. apply not_true_iff_false. intros Px.
    apply Hp in Px. by rewrite (proj1 (exists_where_false _ _) E x Hx) in Px.
Qed.
Lemma put_message_other m t o c :
  NoDup (message_key <$> t) → in_conversation o c m = false →
  (∀ p, head (select_where (named_as m) t) = Some p → in_conversation o c p = false) →
  select_where (in_conversation o c) (put_message m t) = select_where (in_conversation o c) t.
Proof.
  intros Hnd Hm Hp. destruct (put_message_split m t Hnd) as (l1 & l2 & E & ->). rewrite E.
  rewrite !select_app, select_cons, Hm. destruct (head _) as [p|]; [|done]. cbn [one].
  by rewrite select_cons, (Hp p).
Qed.

Lemma head_select_changed {A} (q p : A → bool) (f : A → A) t :
  (∀ x, p x = true → q (f x) = q x) →
  head (select_where q (update_where p f t)) = (λ x, if p x then f x else x) <$> head (select_where q t).
Proof.
  intros Hf. induction t as [|x t IH]; [done|].
  change (update_where p f (x :: t)) with ((if p x then f x else x) :: update_where p f t).
  rewrite !select_cons. destruct (p x) eqn:E.
  - rewrite (Hf x E). destruct (q x); [cbn; by rewrite E|done].
  - destruct (q x); [cbn; by rewrite E|done].
Qed.
Lemma put_message_head m t : head (select_where (named_as m) (put_message m t)) = Some m.
Proof.
  assert (named_as m m = true) as Nm by by apply message_named_key.
  unfold put_message. destruct (exists_where (named_as m) t) eqn:E.
  - rewrite head_select_updated by done. by destruct (head_select_Some _ _ E) as [y ->].
  - rewrite select_app, select_cons, Nm. pose proof (head_select_None _ _ E).
    by destruct (select_where (named_as m) t).
Qed.

Section plan.
Context `{WireCodec, JsonText, Idna}.

(** The row of the plan and the copies it folds in. *)
Lemma plan_inv now d r plan :
  plan_upsert now d r = Ok plan →
  mg_owner_identity_id (up_row plan) = up_owner plan ∧ mg_msg_id (up_row plan) = up_msg_id plan ∧
  mg_conversation_id (up_row plan) = up_conversation_id plan ∧
  mg_thread_id (up_row plan) = up_conversation_id plan ∧
  up_duplicates plan
  = existing_group_duplicate_rows (ms_peers d) (up_owner plan) (up_conversation_id plan) (up_msg_id plan)
      (rc_server_seq r) (group_message_aliases r (up_msg_id plan)).
Proof.
  unfold plan_upsert. cbv zeta. intros (g & _ & Hp)%bind_Ok. apply bind_Ok in Hp as (b & _ & Hp).
  injection Hp as <-. by split_and!.
Qed.

Lemma plan_copies now d r plan x :
  plan_upsert now d r = Ok plan → x ∈ up_duplicates plan →
  ∃ m, m ∈ stored_messages d ∧ x = message_record_from_row m ∧ mg_owner_identity_id m = up_owner plan ∧
       mg_msg_id m ≠ up_msg_id plan ∧ conversation_of m = up_conversation_id plan.
Proof.
  intros (_ & _ & _ & _ & ->)%plan_inv Hx. unfold existing_group_duplicate_rows in Hx.
  apply list_elem_of_fmap in Hx as (m & -> & Hm). rewrite merge_sort_Permutation in Hm.
  apply elem_of_select_where in Hm as [Hm Hd]. unfold duplicate_row, group_row_in in Hd.
  exists m. split; [exact Hm|]. split; [done|]. bool_hyps. done.
Qed.

(** ** The table of an upsert, row by row *)

Section upserted.
Variables (now : string) (d : MessageDb) (r : MessageRecord) (plan : UpsertPlan) (ids : list string).
Notation t := (stored_messages d).
Notation o := (up_owner plan).
Notation i := (up_msg_id plan).
Notation key := (message_named o i).
Hypothesis (Hplan : plan_upsert now d r = Ok plan).
Hypothesis (Htidy : tidy t).
Hypothesis (Hnd : NoDup (message_key <$> t)).

(** The row the [INSERT] leaves: the incoming one, or its merge with the stored one. *)
Definition merged_row : MessageRow :=
  match stored_row plan t with
  | Some p => merge_row (up_confirm plan) (up_row plan) p
  | None => up_row plan
  end.

Lemma copies_elem m : m ∈ without_copies plan t → m ∈ t.
Proof using.
  clear. unfold without_copies. generalize t. induction (up_duplicates plan) as [|x l IH]; intros k Hm; [done|].
  apply IH in Hm. unfold remove_one in Hm. destruct (_ || _) in Hm; [done|].
  by apply elem_of_delete_where in Hm as [Hm _].
Qed.
Lemma copies_nodup : NoDup (message_key <$> without_copies plan t).
Proof using Hnd.
  clear Htidy Hplan. revert Hnd. unfold without_copies. generalize t.
  induction (up_duplicates plan) as [|x l IH]; intros k Hk; [done|].
  apply IH. unfold remove_one. destruct (_ || _); [done|].
  apply (sublist_NoDup _ (message_key <$> k)); [done|]. apply fmap_sublist. unfold delete_where.
  apply sublist_filter.
Qed.
(** Only the copies go. *)
Lemma copies_select q :
  (∀ m, m ∈ t → message_record_from_row m ∈ up_duplicates plan → q m = false) →
  select_where q (without_copies plan t) = select_where q t.
Proof.
  intros Hq.
  assert (∀ l k, (∀ x, x ∈ l → x ∈ up_duplicates plan) → (∀ m, m ∈ k → m ∈ t) →
                 select_where q (fold_left (remove_one o i) l k) = select_where q k) as Hl;
    [|by apply Hl].
  induction l as [|x l IH]; intros k Hx Hk; [done|]. cbn [fold_left].
  rewrite IH; [|intros y Hy; apply Hx; by right|].
  - unfold remove_one. destruct (_ || _); [done|]. apply select_delete_in. intros m Hm Nm.
    pose proof (Hx x (list_elem_of_here x l)) as Hd.
    destruct (plan_copies _ _ _ _ x Hplan Hd) as (y & Hy & -> & Ho & _).
    destruct (Htidy y Hy) as (_ & _ & [Hi _]). cbn [rc_msg_id message_record_from_row] in Nm.
    rewrite Hi in Nm. apply message_named_key in Nm.
    assert (m = y) as ->; [|by apply Hq].
    apply (key_inj message_key t); [done|by apply Hk|done|]. rewrite Nm. unfold message_key. by rewrite Ho.
  - intros m Hm. apply Hk. unfold remove_one in Hm. destruct (_ || _) in Hm; [done|].
    by apply elem_of_delete_where in Hm as [Hm _].
Qed.
Lemma copies_stored : select_where key (without_copies plan t) = select_where key t.
Proof.
  apply copies_select. intros m Hm Hd.
  destruct (plan_copies _ _ _ _ _ Hplan Hd) as (y & Hy & E & Ho & Hne & _).
  apply (f_equal rc_msg_id) in E. cbn in E. apply not_true_iff_false. intros Nm%message_named_key.
  unfold message_key in Nm. congruence.
Qed.

Lemma merge_row_key b n c : message_key (merge_row b n c) = message_key c.
Proof. done. Qed.
Lemma row_key : message_key (up_row plan) = (o, i).
Proof using Hplan.
  clear Htidy Hnd. destruct (plan_inv _ _ _ _ Hplan) as (E1 & E2 & _). unfold message_key. by rewrite E1, E2.
Qed.
Lemma stored_key p : stored_row plan t = Some p → p ∈ t ∧ message_key p = (o, i).
Proof using.
  clear. unfold stored_row. intros [Hp Np]%head_Some_elem_of%elem_of_select_where.
  by apply message_named_key in Np.
Qed.
Lemma merged_key : message_key merged_row = (o, i).
Proof using Hplan.
  clear Htidy Hnd. unfold merged_row. destruct (stored_row plan t) as [p|] eqn:E; [|apply row_key].
  rewrite merge_row_key. by apply stored_key in E as [_ E].
Qed.
Lemma named_merged : named_as merged_row = key.
Proof using Hplan.
  clear Htidy Hnd. pose proof merged_key as [= E1 E2]. unfold named_as. by rewrite E1, E2.
Qed.

Lemma with_row_put : with_row plan t = put_message merged_row (without_copies plan t).
Proof.
  unfold with_row, put_row, put_message. rewrite named_merged.
  pose proof row_key as [= -> ->]. destruct (exists_where key (without_copies plan t)) eqn:E.
  - unfold update_where. apply list_fmap_ext. intros j x Hx%list_elem_of_lookup_2.
    destruct (key x) eqn:Nx; [|done]. unfold merged_row.
    assert (stored_row plan t = Some x) as ->; [|done].
    unfold stored_row. rewrite <- copies_stored.
    destruct (head_select key (without_copies plan t) (λ z, z = x) x) as (z & -> & ->); [done|done| |done].
    intros z Hz Nz. apply (key_inj message_key (without_copies plan t)); [apply copies_nodup|done..|].
    apply message_named_key in Nz, Nx. congruence.
  - f_equal. unfold merged_row, stored_row. rewrite <- copies_stored. by rewrite (head_select_None _ _ E).
Qed.

(** The rows the later steps leave. *)
Definition refiled_row : MessageRow :=
  if legacy_message o ids merged_row then refile (up_conversation_id plan) merged_row else merged_row.
Definition final_row (states : list ThreadReadStateRecord) : MessageRow :=
  if inherits states o i refiled_row then set_read refiled_row else refiled_row.

Lemma refiled_head : stored_row plan (refiled plan ids t) = Some refiled_row.
Proof.
  unfold stored_row, refiled. rewrite head_select_changed by done. rewrite with_row_put.
  rewrite <- named_merged, put_message_head. done.
Qed.
Lemma upserted_head states : stored_row plan (upserted plan ids states t) = Some (final_row states).
Proof.
  unfold stored_row, upserted. rewrite head_select_changed by done.
  fold (stored_row plan (refiled plan ids t)). by rewrite refiled_head.
Qed.
Lemma refiled_nodup : NoDup (message_key <$> refiled plan ids t).
Proof.
  unfold refiled. rewrite map_update_where by done. rewrite with_row_put. unfold put_message.
  rewrite named_merged. destruct (exists_where key (without_copies plan t)) eqn:E.
  - rewrite map_update_where; [apply copies_nodup|]. intros y _ Hy. rewrite merged_key.
    by apply message_named_key in Hy.
  - rewrite fmap_app. apply NoDup_app. split_and!; [apply copies_nodup| |apply NoDup_singleton].
    intros k (y & -> & Hy)%list_elem_of_fmap Hk%list_elem_of_singleton. rewrite merged_key in Hk.
    apply message_named_key in Hk. by rewrite (proj1 (exists_where_false _ _) E y Hy) in Hk.
Qed.

(** A row that is a copy is gone. *)
Lemma copies_gone m : m ∈ without_copies plan t → message_record_from_row m ∉ up_duplicates plan.
Proof.
  intros Hm Hin. destruct (plan_copies _ _ _ _ _ Hplan Hin) as (y & Hy & E & Ho & Hne & _).
  pose proof (copies_elem m Hm) as Hmt. destruct (Htidy m Hmt) as (_ & _ & [Ht Hn0]).
  assert (mg_owner_identity_id m = o ∧ mg_msg_id m ≠ i) as [Hom Hnm].
  { pose proof (f_equal rc_msg_id E) as E1. pose proof (f_equal rc_owner_identity_id E) as E2.
    cbn in E1, E2. split; congruence. }
  revert Hm. unfold without_copies. generalize t.
  induction (up_duplicates plan) as [|x l IH]; intros k Hm; [by apply elem_of_nil in Hin|].
  cbn [fold_left] in Hm. apply elem_of_cons in Hin as [<-|Hin]; [|by apply (IH Hin _ Hm)].
  assert (m ∈ remove_one o i k (message_record_from_row m)) as Hx.
  { revert Hm. generalize (remove_one o i k (message_record_from_row m)). clear.
    induction l as [|x l IH]; intros k Hm; [done|]. apply IH in Hm. unfold remove_one in Hm.
    destruct (_ || _) in Hm; [done|]. by apply elem_of_delete_where in Hm as [? _]. }
  unfold remove_one in Hx. cbn [rc_msg_id message_record_from_row] in Hx. rewrite Ht in Hx.
  unfold is_empty in Hx. rewrite !bool_decide_eq_false_2 in Hx by done. cbn [orb] in Hx.
  apply elem_of_delete_where in Hx as [_ Hx]. apply not_true_iff_false in Hx. apply Hx, message_named_key.
  unfold message_key. by rewrite Hom.
Qed.
Lemma is_copy m :
  m ∈ t → duplicate_row o (up_conversation_id plan) i (rc_server_seq r)
            (group_message_aliases r i) m = true → message_record_from_row m ∈ up_duplicates plan.
Proof.
  intros Hm Hd. destruct (plan_inv _ _ _ _ Hplan) as (_ & _ & _ & _ & ->).
  apply list_elem_of_fmap. exists m. split; [done|]. rewrite merge_sort_Permutation.
  by apply elem_of_select_where.
Qed.
(** Every row that is no copy goes through the steps. *)
Lemma copies_rest m : m ∈ t → message_record_from_row m ∉ up_duplicates plan → m ∈ without_copies plan t.
Proof.
  intros Hm Hno.
  assert (m ∈ select_where (λ x, bool_decide (message_key x = message_key m)) (without_copies plan t)) as Hin.
  { rewrite copies_select; [apply elem_of_select_where; by rewrite bool_decide_eq_true_2|].
    intros y Hy Hd. apply bool_decide_eq_false. intros E. by rewrite (key_inj message_key t y m) in Hd. }
  by apply elem_of_select_where in Hin as [? _].
Qed.
Lemma copy_or_not m :
  m ∈ t → message_record_from_row m ∈ up_duplicates plan ∨ message_record_from_row m ∉ up_duplicates plan.
Proof.
  intros Hm.
  destruct (decide (message_key m ∈ (λ x, (rc_owner_identity_id x, rc_msg_id x)) <$> up_duplicates plan))
    as [Hin|Hno]; [left|right; intros Hin; apply Hno, list_elem_of_fmap; by exists (message_record_from_row m)].
  apply list_elem_of_fmap in Hin as (x & Hk & Hx).
  destruct (plan_copies _ _ _ _ _ Hplan Hx) as (y & Hy & -> & _). by rewrite (key_inj message_key t m y).
Qed.
Lemma upserted_image states m :
  m ∈ t → message_record_from_row m ∉ up_duplicates plan →
  let m1 := if key m then merge_row (up_confirm plan) (up_row plan) m else m in
  let m2 := if legacy_message o ids m1 then refile (up_conversation_id plan) m1 else m1 in
  (if inherits states o i m2 then set_read m2 else m2) ∈ upserted plan ids states t.
Proof.
  intros Hm Hno m1 m2. unfold upserted. apply elem_of_update_where. exists m2. split; [|done].
  unfold refiled. apply elem_of_update_where. exists m1. split; [|done].
  apply copies_rest in Hno; [|done]. unfold with_row, put_row. pose proof row_key as [= -> ->].
  destruct (exists_where key (without_copies plan t)) eqn:E.
  - apply elem_of_update_where. by exists m.
  - apply elem_of_app. left. unfold m1. by rewrite (proj1 (exists_where_false _ _) E m Hno).
Qed.

Lemma upserted_nodup states : NoDup (message_key <$> upserted plan ids states t).
Proof. unfold upserted. rewrite map_update_where by done. apply refiled_nodup. Qed.
Lemma refiled_named m : m ∈ refiled plan ids t → key m = true → m = refiled_row.
Proof.
  intros Hm Nm. pose proof refiled_head as [Hr Nr]%head_Some_elem_of%elem_of_select_where.
  apply (key_inj message_key (refiled plan ids t)); [apply refiled_nodup|done..|].
  apply message_named_key in Nm, Nr. congruence.
Qed.
Lemma upserted_all states (Q : MessageRow → Prop) :
  (∀ m, m ∈ without_copies plan t → Q m) → Q merged_row → (∀ m, Q m → Q (refile (up_conversation_id plan) m)) →
  (∀ m, Q m → Q (set_read m)) → ∀ m, m ∈ upserted plan ids states t → Q m.
Proof.
  intros Ht Hm Hr Hs m (m1 & Hm1 & ->)%elem_of_update_where.
  apply elem_of_update_where in Hm1 as (m2 & Hm2 & ->).
  assert (Q m2) as Hq.
  { rewrite with_row_put in Hm2.
    destruct (put_message_split merged_row _ copies_nodup) as (l1 & l2 & E & E'). rewrite E' in Hm2.
    assert (m2 = merged_row ∨ m2 ∈ without_copies plan t) as [->|Hm3]; [rewrite E; set_solver|done|].
    by apply Ht. }
  destruct (legacy_message o ids m2); destruct (inherits _ _ _ _); auto.
Qed.

Lemma copies_removed states m :
  m ∈ t → message_record_from_row m ∈ up_duplicates plan →
  exists_where (named_as m) (upserted plan ids states t) = false.
Proof.
  intros Hm Hd. destruct (plan_copies _ _ _ _ _ Hplan Hd) as (y & _ & E & _ & Hne & _).
  apply (f_equal rc_msg_id) in E. cbn in E. rewrite <- E in Hne.
  apply exists_where_false. refine (upserted_all states (λ x, named_as m x = false) _ _ _ _); [| |done|done].
  - intros x Hx. apply not_true_iff_false. intros Nx%message_named_key. apply (copies_gone x Hx).
    by rewrite (key_inj message_key t x m Hnd (copies_elem x Hx) Hm Nx).
  - apply not_true_iff_false. intros Nx%message_named_key. rewrite merged_key in Nx. by injection Nx as _ Nx.
Qed.
(** With no legacy conversations a row is the one of the message or one from before. *)
Lemma upserted_elem states m :
  ids = [] → m ∈ upserted plan ids states t →
  message_key m = (o, i) ∨ (m ∈ t ∧ message_record_from_row m ∉ up_duplicates plan).
Proof.
  intros E (m1 & Hm1 & ->)%elem_of_update_where. apply elem_of_update_where in Hm1 as (m2 & Hm2 & ->).
  unfold legacy_message. rewrite E, (bool_decide_eq_false_2 _ (not_elem_of_nil _)), andb_false_r.
  destruct (key m2) eqn:Ek.
  { left. apply message_named_key in Ek. by destruct (inherits _ _ _ m2). }
  assert (inherits states o i m2 = false) as -> by (unfold inherits; by rewrite Ek). right.
  rewrite with_row_put in Hm2.
  destruct (put_message_split merged_row _ copies_nodup) as (l1 & l2 & Es & Es'). rewrite Es' in Hm2.
  assert (m2 = merged_row ∨ m2 ∈ without_copies plan t) as [->|Hm3]; [rewrite Es; set_solver| |].
  - exfalso. apply not_true_iff_false in Ek. apply Ek, message_named_key, merged_key.
  - split; [by apply copies_elem|by apply copies_gone].
Qed.

(** ** Where the rows are filed *)

Section filed.
Hypothesis (Hfiled : filed t).
Hypothesis (Hconv : tidy_text (up_conversation_id plan)).
Hypothesis (Hrow : tidy_text o ∧ tidy_text i).

Lemma filed_conversation m : tidy_text (mg_conversation_id m) → conversation_of m = mg_conversation_id m.
Proof using.
  clear. intros [_ Hne]. unfold conversation_of, is_empty. by rewrite bool_decide_eq_false_2.
Qed.
Lemma merged_filed : tidy_text (mg_conversation_id merged_row).
Proof.
  destruct (plan_inv _ _ _ _ Hplan) as (_ & _ & E & _). unfold merged_row.
  destruct (stored_row plan t) as [p|] eqn:Ep; [|by rewrite E].
  apply stored_key in Ep as [Hp _]. cbn [mg_conversation_id merge_row].
  destruct (_ && _); [by apply Hfiled|by rewrite E].
Qed.
Lemma upserted_filed states : filed (upserted plan ids states t).
Proof.
  refine (upserted_all states (λ m, tidy_text (mg_conversation_id m))
            (λ m Hm, Hfiled m (copies_elem m Hm)) merged_filed _ _); done.
Qed.
Lemma upserted_tidy states : tidy (upserted plan ids states t).
Proof.
  destruct (plan_inv _ _ _ _ Hplan) as (_ & _ & E & _).
  refine (upserted_all states tidy_row (λ m Hm, Htidy m (copies_elem m Hm)) _ _ _); [|intros m (Hx & _ & Hy)|done].
  - pose proof merged_filed as Hm. pose proof merged_key as [= Eo Ei]. unfold tidy_row.
    rewrite (filed_conversation _ Hm), Eo, Ei. split_and!; [apply Hrow|done|apply Hrow].
  - split_and!; [done| |done]. by rewrite filed_conversation.
Qed.

Lemma record_conversation m :
  tidy_text (mg_conversation_id m) → stable_conversation_id (message_record_from_row m) = conversation_of m.
Proof using.
  clear. intros Hm. rewrite filed_conversation by done. unfold stable_conversation_id, non_empty, nullable_text.
  cbn [rc_conversation_id message_record_from_row]. by rewrite (tidy_not_empty _ Hm), (proj1 Hm).
Qed.
(** Outside the conversations it touches an upsert leaves the rows alone. *)
Lemma untouched states o' c' :
  (ids = [] ∨ conversation_of refiled_row = up_conversation_id plan) →
  (o', c') ∉ touched_keys plan ids (stored_row plan t) (stored_row plan (upserted plan ids states t)) →
  select_where (in_conversation o' c') (upserted plan ids states t) = select_where (in_conversation o' c') t.
Proof.
  rewrite upserted_head. intros Hmoved Hnot. unfold touched_keys in Hnot.
  rewrite !not_elem_of_union, !not_elem_of_list_to_set in Hnot. destruct Hnot as [[Hprev Hids] Hnext].
  rewrite not_elem_of_app in Hprev. destruct Hprev as [Hprev Hdup].
  assert ((o', c') ≠ (o, conversation_of refiled_row)) as Hne.
  { intros [= -> ->]. apply Hnext. unfold final_row. destruct (inherits _ _ _ _); by left. }
  assert (∀ m, message_key m = (o, i) → conversation_of m = conversation_of refiled_row →
               in_conversation o' c' m = false) as Hhere.
  { intros m [= Eo _] Ec. apply not_true_iff_false. intros [<- <-]%in_conversation_true. by rewrite Eo, Ec in Hne. }
  assert (∀ m, legacy_message o ids m = true → in_conversation o' c' m = false) as Hleg.
  { intros m Hm. unfold legacy_message in Hm. bool_hyps. apply not_true_iff_false.
    intros [<- <-]%in_conversation_true. apply Hids. apply list_elem_of_fmap. exists (conversation_of m). split; [congruence|done]. }
  assert (message_key refiled_row = (o, i)) as Hkey.
  { unfold refiled_row. destruct (legacy_message _ _ _); apply merged_key. }
  unfold upserted. rewrite select_update_in.
  2: { intros x Hx Hin. unfold inherits in Hin. bool_hyps. rewrite (refiled_named x Hx) by done.
       split; by apply Hhere. }
  unfold refiled. rewrite select_update_in.
  2: { intros x _ Hx. split; [by apply Hleg|]. apply not_true_iff_false.
       intros [E E']%in_conversation_true. rewrite filed_conversation in E' by done. cbn in E, E'.
       unfold legacy_message in Hx. bool_hyps. destruct Hmoved as [->|Hmoved]; [by eapply not_elem_of_nil|].
       apply Hne. congruence. }
  rewrite with_row_put, put_message_other, copies_select; [done| |apply copies_nodup| |].
  - intros m Hm Hd. apply not_true_iff_false. intros [<- <-]%in_conversation_true. apply Hdup.
    apply list_elem_of_fmap. exists (message_record_from_row m). split; [|done].
    by rewrite record_conversation by by apply Hfiled.
  - destruct (legacy_message o ids merged_row) eqn:E; [by apply Hleg|].
    apply Hhere; [apply merged_key|]. unfold refiled_row. by rewrite E.
  - rewrite named_merged, copies_stored. fold (stored_row plan t). intros p Ep.
    destruct (stored_key p Ep) as [_ [= Eo _]]. rewrite Ep in Hprev. apply not_true_iff_false.
    intros [<- <-]%in_conversation_true. apply Hprev. rewrite Eo. by left.
Qed.
Lemma touched_tidy states k :
  (∀ j, j ∈ ids → tidy_text j) →
  k ∈ touched_keys plan ids (stored_row plan t) (stored_row plan (upserted plan ids states t)) → tidy_key k.
Proof.
  intros Hids Hk. destruct Hrow as [Ho Hi]. unfold touched_keys in Hk.
  rewrite !elem_of_union, !elem_of_list_to_set, elem_of_app, !list_elem_of_fmap in Hk.
  assert (∀ x t', tidy t' → x ∈ option_list (projection_of <$> stored_row plan t') →
                  tidy_text (pj_conversation_id x)) as Hp.
  { intros x t' Ht'. destruct (stored_row plan t') as [m|] eqn:E; [|by intros ?%elem_of_nil].
    intros ->%list_elem_of_singleton. unfold stored_row in E.
    apply head_Some_elem_of, elem_of_select_where in E as [Hm _]. by apply Ht'. }
  destruct Hk as [[[(x & -> & Hx)|(x & -> & Hx)]|(x & -> & Hx)]|(x & -> & Hx)].
  - split; [done|]. by apply (Hp x t).
  - destruct (plan_copies _ _ _ _ _ Hplan Hx) as (m & Hm & -> & _ & _ & Hc). split.
    + cbn. by apply Htidy.
    + cbn [snd]. rewrite record_conversation by by apply Hfiled. by rewrite Hc.
  - split; [done|]. by apply Hids.
  - split; [done|]. apply (Hp x (upserted plan ids states t)); [apply upserted_tidy|done].
Qed.
(** Unless a stored row that is complete keeps its conversation, the row ends in the one of
    the plan. *)
Lemma refiled_conversation :
  (∀ p, stored_row plan t = Some p → is_hydrated p = true →
        is_hydrated (up_row plan) = true ∨ conversation_of p = up_conversation_id plan) →
  conversation_of refiled_row = up_conversation_id plan.
Proof.
  intros Hs. unfold refiled_row. destruct (legacy_message o ids merged_row).
  { by rewrite filed_conversation. }
  rewrite filed_conversation by apply merged_filed. destruct (plan_inv _ _ _ _ Hplan) as (_ & _ & E & _).
  unfold merged_row. destruct (stored_row plan t) as [p|] eqn:Ep; [|done]. cbn [mg_conversation_id merge_row].
  destruct (is_hydrated p) eqn:Hh; [|done]. cbn [andb].
  destruct (is_hydrated (up_row plan)) eqn:Hr; [done|]. cbn [negb].
  destruct (Hs p eq_refl Hh) as [|Hc]; [done|]. rewrite <- Hc. symmetry. apply filed_conversation, Hfiled.
  by apply stored_key in Ep as [? _].
Qed.
End filed.

(** With no copies and no legacy conversations one row is written. *)
Lemma plain_upsert states :
  ids = [] → up_duplicates plan = [] → upserted plan ids states t = put_message (final_row states) t.
Proof.
  intros E Ed. unfold upserted, refiled. rewrite (update_where_none (legacy_message o ids)).
  2: { intros x _. unfold legacy_message. by rewrite E, (bool_decide_eq_false_2 _ (not_elem_of_nil _)), andb_false_r. }
  rewrite with_row_put. unfold without_copies. rewrite Ed. cbn [fold_left].
  rewrite put_message_update; [|rewrite named_merged|done].
  - assert (refiled_row = merged_row) as Er; [|unfold final_row; by rewrite Er].
    unfold refiled_row, legacy_message.
    by rewrite E, (bool_decide_eq_false_2 _ (not_elem_of_nil _)), andb_false_r.
  - intros x Hx. unfold inherits in Hx. by bool_hyps.
Qed.
End upserted.
End plan.
