(* ===== verification/MessageClaims.v ===== *)
(** * The claims about stored messages

    An upsert keeps the table in order and the summaries those of a rebuild, never loses what
    a row already knew, folds the copies of a group message into one row and refuses another
    identity on the wire. *)

From S2P Require Import Prelude RustStr ImError Decimal Store SyncStore Outbox Wire Lanes ReadState ReadBind ReadIds ReadProps ReadWire Persona Peers PeerProps Summaries SummaryOrder SummaryProps SummaryRebuild SummaryDelta SummaryMark SummaryClaims Mentions Messages MessageProps MessageTable.
Local Open Scope Z_scope.

(** One tidy row for a message, filed under a conversation of its own. *)
Definition orderly (s : PeerDb) : Prop := well_kept s ∧ filed (messages_of s).

(** What a row knows is still known later. *)
Definition kept_text (get : MessageRow → string) (p n : MessageRow) : Prop :=
  get p ≠ EmptyString → get n = get p.
Definition row_le (p n : MessageRow) : Prop :=
  message_key n = message_key p ∧ mg_thread_id n = mg_thread_id p ∧
  (is_hydrated p = true → is_hydrated n = true) ∧
  (mg_is_read p = 1 → mg_is_read n = 1) ∧ (mg_is_e2ee p = 1 → mg_is_e2ee n = 1) ∧
  (∀ q, mg_server_seq p = Some q → mg_server_seq n = Some q) ∧
  kept_text mg_sender_did p n ∧ kept_text mg_group_id p n ∧ kept_text mg_group_did p n ∧
  (is_empty (sql_trim (mg_wire_thread_kind p)) = false → mg_wire_thread_kind n = mg_wire_thread_kind p) ∧
  (mg_wire_resolution_state p = "resolved"%string → mg_wire_resolution_state n = "resolved"%string) ∧
  (mg_content p ≠ EmptyString → mg_content n ≠ EmptyString).
#[export] Instance row_le_preorder : PreOrder row_le.
Proof.
  split.
  - intros m. unfold row_le, kept_text. by split_and!.
  - intros a b c Hab Hbc. unfold row_le, kept_text in *.
    destruct Hab as (A1 & A2 & A3 & A4 & A5 & A6 & A7 & A8 & A9 & A10 & A11 & A12).
    destruct Hbc as (B1 & B2 & B3 & B4 & B5 & B6 & B7 & B8 & B9 & B10 & B11 & B12).
    split_and!; try congruence; auto.
    + intros Hn. rewrite B7; rewrite A7; done.
    + intros Hn. rewrite B8; rewrite A8; done.
    + intros Hn. rewrite B9; rewrite A9; done.
    + intros Hn. rewrite B10; rewrite A10; done.
Qed.
Lemma merge_le b n p : row_le p (merge_row b n p).
Proof.
  assert (∀ x y : string, x ≠ EmptyString → first_text x y = x) as Hfirst.
  { intros x y Hx. unfold first_text, is_empty. by rewrite bool_decide_eq_false_2. }
  unfold row_le, kept_text. cbn [merge_row mg_thread_id mg_is_read mg_is_e2ee mg_server_seq mg_sender_did
    mg_group_id mg_group_did mg_wire_thread_kind mg_wire_resolution_state mg_content].
  split_and!; [done|done| | | | |by apply Hfirst..| | |].
  - unfold is_hydrated at 2. cbn [mg_hydration_state merge_row]. intros ->. done.
  - intros ->. destruct (_ && _); [done|]. cbn. by rewrite orb_true_r.
  - intros ->. cbn. by rewrite orb_true_r.
  - by intros q ->.
  - by intros ->.
  - by intros ->.
  - intros Hp. destruct (_ && _); [done|]. unfold first_text, is_empty. by case_bool_decide.
Qed.
Lemma refile_le c p : row_le p (refile c p).
Proof. unfold row_le, kept_text. by split_and!. Qed.
Lemma set_read_le p : row_le p (set_read p).
Proof. unfold row_le, kept_text. by split_and!. Qed.

Section claims.
Context `{WireCodec, JsonText, Idna}.

(** A complete row moves to the conversation of the plan only with a complete record. *)
Definition settled (plan : UpsertPlan) (t : list MessageRow) : Prop :=
  ∀ p, stored_row plan t = Some p → is_hydrated p = true →
       is_hydrated (up_row plan) = true ∨ conversation_of p = up_conversation_id plan.
(** A message that counts does not become, in another conversation, one that does not. *)
Definition keeps_counted (plan : UpsertPlan) (t t' : list MessageRow) : Prop :=
  ∀ p n, stored_row plan t = Some p → stored_row plan t' = Some n →
         contributes_to_summary (summary_message_row p) = true →
         contributes_to_summary (summary_message_row n) = true ∨ conversation_of p = conversation_of n.

Lemma plan_conversation now d r plan :
  plan_upsert now d r = Ok plan → conversation_of (up_row plan) = up_conversation_id plan.
Proof.
  intros (_ & _ & E & E' & _)%plan_inv. unfold conversation_of. rewrite E, E'. by destruct (is_empty _).
Qed.
Lemma same_tables_exact s s' : same_tables s s' → exact s → exact s'.
Proof. intros (Em & Es & _) Hx o c. unfold summary_at. rewrite Em, Es. apply Hx. Qed.

(** The summaries of an upsert that rebuilds what it touched, and of one that applies a delta. *)
Section summaries.
Variables (now : string) (d : MessageDb) (r : MessageRecord) (plan : UpsertPlan) (ids : list string).
Variables (s sm : PeerDb) (n : Z).
Notation t := (stored_messages d).
Hypothesis (Hplan : plan_upsert now d r = Ok plan).
Hypothesis (Hord : orderly (ms_peers d)).
Hypothesis (Hx : exact (ms_peers d)).
Hypothesis (Hrow : tidy_row (up_row plan)).
Hypothesis (Em : messages_of s = upserted plan ids (read_states d) t).
Hypothesis (Es : px_summaries s = px_summaries (ms_peers d)).

Lemma row_tidy : (tidy_text (up_owner plan) ∧ tidy_text (up_msg_id plan)) ∧ tidy_text (up_conversation_id plan).
Proof using Hplan Hrow.
  clear Hord Hx Em Es. destruct (plan_inv _ _ _ _ Hplan) as (Eo & Ei & _), Hrow as (Ho & Hc & Hi).
  rewrite (plan_conversation _ _ _ _ Hplan) in Hc. by rewrite Eo in Ho; rewrite Ei in Hi.
Qed.
Lemma rebuilt_exact :
  settled plan t → (∀ i, i ∈ ids → tidy_text i) →
  rebuild_touched now s (touched_keys plan ids (stored_row plan t) (stored_row plan (messages_of s)))
  = Ok (n, sm) → px_read sm = px_read s ∧ exact sm.
Proof.
  intros Hs Hids He. destruct Hord as [[Ht Hnd] Hf], row_tidy as [Hoi Hc]. rewrite Em in He.
  pose proof (touched_wrote now s _ (λ k, touched_tidy now d r plan ids Hplan Ht Hnd Hf Hc Hoi (read_states d) k Hids))
    as Hw.
  rewrite He in Hw. destruct Hw as [Hr Hw]. split; [done|]. intros o' c'. cbn [snd] in Hr, Hw. rewrite Hw.
  assert (messages_of sm = messages_of s) as -> by (unfold messages_of; by rewrite Hr).
  case_bool_decide as Hin; [done|]. unfold summary_at. rewrite Es. fold (summary_at (ms_peers d) o' c').
  rewrite Hx. unfold expected, conversation_rows. fold t. rewrite Em.
  rewrite (untouched now d r plan ids Hplan Ht Hnd Hf Hc (read_states d)); [done| |done].
  right. exact (refiled_conversation now d r plan ids Hplan Hf Hc Hs).
Qed.
Lemma delta_kept next :
  ids = [] → up_duplicates plan = [] → keeps_counted plan t (messages_of s) →
  Z.of_nat (length (messages_of s)) ≤ i64_max → stored_row plan (messages_of s) = Some next →
  apply_message_delta_or_rebuild now s (projection_of <$> stored_row plan t) (projection_of next) = Ok (n, sm) →
  px_read sm = px_read s ∧ exact sm.
Proof.
  intros Ei Ed Hk Hlen Hnext He. destruct Hord as [[Ht Hnd] Hf], row_tidy as [Hoi Hc].
  assert (next = final_row d plan ids (read_states d)) as En.
  { rewrite Em, (upserted_head now d r plan ids Hplan Ht Hnd) in Hnext. by apply (inj Some) in Hnext. }
  assert (message_key next = (up_owner plan, up_msg_id plan)) as Hkey.
  { unfold stored_row in Hnext. apply head_Some_elem_of, elem_of_select_where in Hnext as [_ Hn].
    by apply message_named_key in Hn. }
  assert (named_as next = message_named (up_owner plan) (up_msg_id plan)) as Hnamed.
  { injection Hkey as E1 E2. unfold named_as. by rewrite E1, E2. }
  assert (tidy_row next) as Htn.
  { apply (upserted_tidy now d r plan ids Hplan Ht Hnd Hf Hc Hoi (read_states d)). rewrite <- Em.
    unfold stored_row in Hnext. by apply head_Some_elem_of, elem_of_select_where in Hnext as [Hn _]. }
  pose proof (delta_exact (ms_peers d) s next Hx Ht Htn Hnd) as Hd. rewrite Hnamed in Hd.
  fold (stored_row plan (messages_of (ms_peers d))) in Hd. fold t in Hd.
  specialize (Hd ltac:(rewrite Em, En; by apply (plain_upsert now d r)) Es Hlen now).
  rewrite He in Hd. apply Hd. intros p Hp Hcp. rewrite Hnamed in Hp. by apply (Hk p next).
Qed.
End summaries.

Lemma record_exact now d r plan touched d' :
  orderly (ms_peers d) → exact (ms_peers d) → plan_upsert now d r = Ok plan → tidy_row (up_row plan) →
  settled plan (stored_messages d) →
  upsert_message_record now d r = Ok (touched, d') →
  keeps_counted plan (stored_messages d) (stored_messages d') →
  Z.of_nat (length (stored_messages d')) ≤ i64_max →
  orderly (ms_peers d') ∧ exact (ms_peers d').
Proof.
  intros [[Ht Hnd] Hf] Hx Hplan Hrow Hs He Hk Hlen.
  destruct (plan_inv _ _ _ _ Hplan) as (Eo & Ei & _). pose proof Hrow as (Ho & Hc & Hi).
  rewrite (plan_conversation _ _ _ _ Hplan) in Hc. rewrite Eo in Ho. rewrite Ei in Hi.
  destruct (upsert_inv _ _ _ _ _ _ Hplan Ho Hi Hc He) as (ids & s & n & sm & Hids & _ & Em & Es & _ & _ & Hsum & Hd').
  cbv zeta in Hsum. destruct Hd' as [[= Hr _] Hd'].
  assert (stored_messages d' = messages_of s) as Ed'.
  { unfold stored_messages. rewrite (proj1 Hd'). unfold messages_of. by rewrite Hr. }
  rewrite Ed' in Hk, Hlen.
  assert (exact sm) as Hxs.
  { pose proof (rebuilt_exact now d r plan ids s sm n Hplan (conj (conj Ht Hnd) Hf) Hx Hrow Em Es Hs
                  (λ i Hin, proj1 (Hids i Hin))) as Hreb.
    destruct ids as [|i0 ids]; [|by apply Hreb].
    destruct (up_duplicates plan) as [|d0 ds] eqn:Edup; [|by apply Hreb].
    destruct (stored_row plan (messages_of s)) as [next|] eqn:En; [|by apply Hreb].
    exact (proj2 (delta_kept now d r plan [] s sm n Hplan (conj (conj Ht Hnd) Hf) Hx Hrow Em Es next
                    eq_refl Edup Hk Hlen En Hsum)). }
  assert (messages_of (ms_peers d') = upserted plan ids (read_states d) (stored_messages d)) as Em'.
  { by rewrite <- Em. }
  split; [|by apply (same_tables_exact sm)]. unfold orderly, well_kept. rewrite Em'. split_and!.
  - exact (upserted_tidy now d r plan ids Hplan Ht Hnd Hf Hc (conj Ho Hi) (read_states d)).
  - exact (upserted_nodup now d r plan ids Hplan Ht Hnd (read_states d)).
  - exact (upserted_filed now d r plan ids Hplan Ht Hnd Hf Hc (read_states d)).
Qed.


(** What a stored complete row shows is not replaced by an incomplete record. *)
Definition shown (m : MessageRow) : string * string * string * Z :=
  (mg_content m, mg_content_type m, mg_title m, mg_mentions_current_user m).
Lemma merge_shown b n p :
  is_hydrated p = true → is_hydrated n = false → shown (merge_row b n p) = shown p.
Proof.
  intros Hp Hn. unfold shown. cbn [merge_row mg_content mg_content_type mg_title mg_mentions_current_user].
  by rewrite Hp, Hn.
Qed.

(** C20: A stored message is never lost and never forgets: after an upsert every row is either
    a copy that was folded into the stored message or has one row of its key that still is
    complete, read, encrypted, placed in the order of the server, and still has its sender,
    group, kind of thread and content, whenever it had; and a complete row shows the same
    content, type and title after a record that is not complete. *)
Theorem upsert_keeps_rows now d r plan touched d' :
  orderly (ms_peers d) → plan_upsert now d r = Ok plan → tidy_row (up_row plan) →
  upsert_message_record now d r = Ok (touched, d') →
  ∀ p, p ∈ stored_messages d →
    (message_record_from_row p ∈ up_duplicates plan ∧ mg_msg_id p ≠ up_msg_id plan) ∨
    ∃ n, n ∈ stored_messages d' ∧ row_le p n ∧
         (is_hydrated p = true → is_hydrated (up_row plan) = false → shown n = shown p).
Proof.
  intros [[Ht Hnd] Hf] Hplan Hrow He p Hp. destruct (row_tidy now d r plan Hplan Hrow) as [[Ho Hi] Hc].
  destruct (upsert_rows _ _ _ _ _ _ Hplan Ho Hi Hc He) as (ids & _ & -> & _).
  destruct (copy_or_not now d r plan Hplan Hnd p Hp) as [Hin|Hno].
  - left. split; [done|]. destruct (plan_copies _ _ _ _ _ Hplan Hin) as (y & _ & E & _ & Hne & _).
    apply (f_equal rc_msg_id) in E. cbn in E. by rewrite E.
  - right. pose proof (upserted_image now d r plan ids Hplan Ht Hnd (read_states d) p Hp Hno) as Hn.
    cbv zeta in Hn. eexists. split; [exact Hn|].
    set (m1 := if message_named (up_owner plan) (up_msg_id plan) p then _ else p).
    assert (row_le p m1 ∧ (is_hydrated p = true → is_hydrated (up_row plan) = false → shown m1 = shown p))
      as [L1 S1].
    { unfold m1. destruct (message_named _ _ p); [|done]. split; [apply merge_le|apply merge_shown]. }
    clearbody m1. set (m2 := if legacy_message (up_owner plan) ids m1 then _ else m1).
    assert (row_le p m2 ∧ shown m2 = shown m1) as [L2 S2].
    { unfold m2. destruct (legacy_message _ _ m1); [|done]. split; [|done]. etrans; [done|apply refile_le]. }
    clearbody m2. destruct (inherits _ _ _ m2); [|by rewrite S2]. split; [|rewrite <- S2 in S1; exact S1].
    etrans; [done|apply set_read_le].
Qed.

Lemma alias_of_copy x i :
  tidy_text (rc_msg_id x) → rc_msg_id x ≠ i → rc_msg_id x ∈ group_message_aliases x i.
Proof.
  intros [Ht Hne] Hi. unfold group_message_aliases. cbv zeta. apply list_elem_of_filter. split; [done|].
  apply push_unique_sup. right. rewrite !Ht. split; [by left|]. unfold is_empty. by rewrite bool_decide_eq_false_2.
Qed.
Lemma copy_is_alias r x i l :
  x ∈ l → tidy_text (rc_msg_id x) → rc_msg_id x ≠ i → rc_msg_id x ∈ merged_group_message_aliases r l i.
Proof.
  intros Hx Ht Hi. unfold merged_group_message_aliases. apply list_elem_of_filter. destruct Ht as [Ht Hne].
  split; [by rewrite Ht|]. apply push_unique_sup. right. split; [|by apply tidy_not_empty].
  apply list_elem_of_bind. exists x. split; [by apply alias_of_copy|done].
Qed.

(** C21: The copies of a group message become one: after an upsert that places the message in
    the order of its group, no other row of the owner in that group conversation has its
    sequence number or one of its ids; the ids of the copies resolve to the canonical id, and
    so does every other tidy alias, but for one that is the id of a message stored elsewhere. *)
Theorem group_copies_folded now d r plan touched d' :
  orderly (ms_peers d) → plan_upsert now d r = Ok plan → tidy_row (up_row plan) →
  record_is_group r = true → up_canonical plan = true →
  upsert_message_record now d r = Ok (touched, d') →
  (∃ n, stored_row plan (stored_messages d') = Some n) ∧
  (∀ m, m ∈ stored_messages d' → mg_owner_identity_id m = up_owner plan →
        group_row_in (up_conversation_id plan) m = true →
        (is_Some (rc_server_seq r) ∧ mg_server_seq m = rc_server_seq r)
        ∨ mg_msg_id m ∈ group_message_aliases r (up_msg_id plan) → mg_msg_id m = up_msg_id plan) ∧
  (∀ x, x ∈ up_duplicates plan →
        resolve_message_identity (px_read (ms_peers d')) (up_owner plan) (rc_msg_id x) = Some (up_msg_id plan)) ∧
  (∀ alias, alias ∈ merged_group_message_aliases r (up_duplicates plan) (up_msg_id plan) → tidy_text alias →
        exists_where (message_named (up_owner plan) alias) (stored_messages d') = false →
        resolve_message_identity (px_read (ms_peers d')) (up_owner plan) alias = Some (up_msg_id plan)).
Proof.
  intros [[Ht Hnd] Hf] Hplan Hrow Hg Hcan He. destruct (row_tidy now d r plan Hplan Hrow) as [[Ho Hi] Hc].
  destruct (upsert_rows _ _ _ _ _ _ Hplan Ho Hi Hc He) as (ids & Hids & Et & Ea & _).
  specialize (Hids Hg). rewrite Hcan in Ea.
  pose proof (upserted_head now d r plan ids Hplan Ht Hnd (read_states d)) as Hhead.
  pose proof (λ m, upserted_elem now d r plan ids Hplan Ht Hnd (read_states d) m Hids) as Helem.
  rewrite <- Et in Hhead. rewrite <- Et in Helem. clear Et.
  assert (∀ alias, alias ∈ merged_group_message_aliases r (up_duplicates plan) (up_msg_id plan) →
    tidy_text alias → exists_where (message_named (up_owner plan) alias) (stored_messages d') = false →
    resolve_message_identity (px_read (ms_peers d')) (up_owner plan) alias = Some (up_msg_id plan)) as Hres.
  { intros a Ha Hta Hno. apply stands_resolves; [|done| |done].
    - rewrite Ea. apply put_aliases_stand; [done|done|].
      apply list_elem_of_filter in Ha as [Hne _]. by rewrite (proj1 Hta) in Hne.
    - apply exists_where_true. unfold stored_row in Hhead.
      apply head_Some_elem_of, elem_of_select_where in Hhead as [Hin Hk]. by eexists. }
  split; [by eexists|]. split; [|split; [|done]].
  - intros m Hm Hom Hgm Hsame. apply Helem in Hm as [[= _ ->]|[Hmt Hno]]; [done|].
    apply dec_stable. intros Hne. apply Hno, (is_copy now d r plan Hplan m Hmt). unfold duplicate_row.
    rewrite Hgm, Hom, (bool_decide_eq_true_2 (up_owner plan = _)), (bool_decide_eq_false_2 _ Hne) by done.
    destruct Hsame as [[Hs1 Hs2]|Ha].
    + by rewrite Hs2, (bool_decide_eq_true_2 _ Hs1), bool_decide_eq_true_2.
    + by rewrite (bool_decide_eq_true_2 _ Ha), orb_true_r.
  - intros x Hx. destruct (plan_copies _ _ _ _ _ Hplan Hx) as (y & Hy & -> & Hoy & Hne & _).
    destruct (Ht y Hy) as (_ & _ & Hty). apply Hres; [by apply copy_is_alias|done|].
    apply exists_where_false. intros m Hm. apply not_true_iff_false. intros Nm%message_named_key.
    cbn [rc_msg_id message_record_from_row] in Nm.
    apply Helem in Hm as [Hk|[Hmt Hno]]; [rewrite Hk in Nm; by injection Nm as Nm|].
    apply Hno. rewrite (key_inj message_key (stored_messages d) m y); [done..|].
    rewrite Nm. unfold message_key. by rewrite Hoy.
Qed.

Lemma plan_unread now d r plan :
  plan_upsert now d r = Ok plan → rc_is_read r = false →
  mg_content_type (up_row plan) = "text/plain"%string → mg_is_read (up_row plan) = 0.
Proof.
  unfold plan_upsert. cbv zeta. intros (g & _ & Hp)%bind_Ok. apply bind_Ok in Hp as (b & _ & Hp).
  injection Hp as <-. cbn [up_row incoming_row mg_content_type mg_is_read]. intros -> ->.
  unfold is_control_payload_for_projection. cbv zeta.
  rewrite (bool_decide_eq_false_2 (to_ascii_lowercase (trim "text/plain") = "application/json"%string))
    by (vm_compute; discriminate).
  cbn [negb orb]. by rewrite andb_false_r.
Qed.

(** C23: The read flag of a copy is not carried over: when the text of a group message was read
    under another id and the message arrives under its canonical id as unread, with no read
    watermark stored, the row left is unread, while the other properties of copies are merged
    and a row read under its own id stays read. *)
Theorem read_copy_forgotten now d r plan touched d' m :
  orderly (ms_peers d) → plan_upsert now d r = Ok plan → tidy_row (up_row plan) →
  m ∈ stored_messages d → message_record_from_row m ∈ up_duplicates plan → mg_is_read m = 1 →
  stored_row plan (stored_messages d) = None → read_states d = [] →
  rc_is_read r = false → mg_content_type (up_row plan) = "text/plain"%string →
  upsert_message_record now d r = Ok (touched, d') →
  ∃ n, stored_row plan (stored_messages d') = Some n ∧ mg_is_read n = 0 ∧
       exists_where (named_as m) (stored_messages d') = false.
Proof.
  intros [[Ht Hnd] Hf] Hplan Hrow Hm Hcopy Hread Hno Hst Hr Hct He.
  destruct (row_tidy now d r plan Hplan Hrow) as [[Ho Hi] Hc].
  destruct (upsert_rows _ _ _ _ _ _ Hplan Ho Hi Hc He) as (ids & _ & -> & _).
  eexists. split; [exact (upserted_head now d r plan ids Hplan Ht Hnd (read_states d))|]. split.
  - assert (inherits (read_states d) (up_owner plan) (up_msg_id plan) (refiled_row d plan ids) = false) as Hin.
    { rewrite Hst. unfold inherits. destruct (mg_server_seq _); cbn [exists_where existsb]; by rewrite ?andb_false_r. }
    unfold final_row. rewrite Hin. unfold refiled_row, merged_row. rewrite Hno.
    destruct (legacy_message _ _ _); exact (plan_unread now d r plan Hplan Hr Hct).
  - exact (copies_removed now d r plan ids Hplan Ht Hnd (read_states d) m Hm Hcopy).
Qed.

Lemma final_le d plan ids states p :
  stored_row plan (stored_messages d) = Some p →
  let n := final_row d plan ids states in
  let merged := merge_row (up_confirm plan) (up_row plan) p in
  row_le p n ∧ mg_receiver_did n = mg_receiver_did merged ∧ mg_wire_thread_ref n = mg_wire_thread_ref merged.
Proof.
  intros Hp n merged.
  assert (merged_row d plan = merged) as Em by (unfold merged_row; by rewrite Hp).
  unfold n, final_row, refiled_row. rewrite Em. pose proof (merge_le (up_confirm plan) (up_row plan) p) as Hm.
  fold merged in Hm. clearbody merged.
  set (m2 := if legacy_message (up_owner plan) ids merged then _ else merged).
  assert (row_le p m2 ∧ mg_receiver_did m2 = mg_receiver_did merged ∧
          mg_wire_thread_ref m2 = mg_wire_thread_ref merged) as (Hm2 & E1 & E2).
  { unfold m2. destruct (legacy_message _ _ _); [|done]. split; [|done]. etrans; [done|apply refile_le]. }
  destruct (inherits _ _ _ m2); [|done]. split; [|done]. etrans; [done|apply set_read_le].
Qed.

(** The identity on the wire that a row has and a record claims. *)
Definition wire_conflict (g : UpsertTarget) (r : MessageRecord) (p : MessageRow) : bool :=
  existsb texts_conflict
    [(mg_wire_thread_kind p, wi_kind (tg_wire g)); (mg_wire_thread_ref p, wi_reference (tg_wire g));
     (mg_sender_did p, rc_sender_did r); (mg_receiver_did p, rc_receiver_did r);
     (mg_group_id p, rc_group_id r); (mg_group_did p, rc_group_did r)].
Definition confirmable (d : MessageDb) (g : UpsertTarget) (r : MessageRecord) : bool :=
  can_confirm_target (ms_peers d) (tg_owner g) (tg_msg_id g) (tg_conversation_id g) r (tg_wire g).
Definition target_row (g : UpsertTarget) (t : list MessageRow) : option MessageRow :=
  head (select_where (message_named (tg_owner g) (tg_msg_id g)) t).

Lemma compatible_is d r g p :
  target_row g (stored_messages d) = Some p →
  let clash := seq_conflict (mg_server_seq p) (rc_server_seq r)
               || (wire_conflict g r p && negb (confirmable d g r)) in
  assert_existing_wire_identity_compatible (ms_peers d) (tg_owner g) (tg_msg_id g) r (tg_wire g)
    (tg_conversation_id g)
  = if clash then Err (MessageWireIdentityConflict (tg_msg_id g))
    else Ok (wire_conflict g r p && confirmable d g r).
Proof.
  intros Hp clash. unfold target_row in Hp. unfold assert_existing_wire_identity_compatible.
  fold (stored_messages d). rewrite Hp. cbv zeta. unfold clash, confirmable. fold (wire_conflict g r p).
  by destruct (wire_conflict g r p), (seq_conflict _ _), (can_confirm_target _ _ _ _ _ _).
Qed.
Lemma record_plan now d r touched d' g confirm :
  upsert_message_record now d r = Ok (touched, d') → upsert_target d r = Ok g →
  assert_existing_wire_identity_compatible (ms_peers d) (tg_owner g) (tg_msg_id g) r (tg_wire g)
    (tg_conversation_id g) = Ok confirm →
  ∃ plan, plan_upsert now d r = Ok plan ∧ up_owner plan = tg_owner g ∧ up_msg_id plan = tg_msg_id g ∧
    up_conversation_id plan = tg_conversation_id g ∧ up_confirm plan = confirm.
Proof.
  intros Er Hg Ha. unfold upsert_message_record in Er. apply bind_Ok in Er as (plan & Ep & _).
  exists plan. split; [done|]. unfold plan_upsert in Ep. cbv zeta in Ep. rewrite Hg in Ep.
  cbn [mbind result_bind] in Ep. rewrite Ha in Ep. by injection Ep as <-.
Qed.

(** C22: The identity a message has on the wire is not overwritten: a record that names another
    kind or reference of thread, another sender, receiver or group or another sequence number
    than the stored row is refused and changes nothing, except where a sent direct message may
    confirm its target; and after a record is accepted the row still has its sequence number,
    kind of thread, sender and group, and its receiver and reference too unless the target was
    confirmed. *)
Theorem wire_identity_kept now d r g p :
  orderly (ms_peers d) → upsert_target d r = Ok g →
  tidy_text (tg_owner g) → tidy_text (tg_msg_id g) → tidy_text (tg_conversation_id g) →
  target_row g (stored_messages d) = Some p →
  let clash := seq_conflict (mg_server_seq p) (rc_server_seq r)
               || (wire_conflict g r p && negb (confirmable d g r)) in
  (clash = true → upsert_message now d r = (Err (MessageWireIdentityConflict (tg_msg_id g)), d)) ∧
  (∀ d', upsert_message now d r = (Ok (), d') →
    clash = false ∧
    ∃ n, target_row g (stored_messages d') = Some n ∧ row_le p n ∧
         (confirmable d g r = false ∨ wire_conflict g r p = false →
          kept_text mg_receiver_did p n ∧
          (is_empty (sql_trim (mg_wire_thread_ref p)) = false → mg_wire_thread_ref n = mg_wire_thread_ref p))).
Proof.
  intros [[Ht Hnd] _] Hg Ho Hi Hc Hp clash. pose proof (compatible_is d r g p Hp) as Ha. cbv zeta in Ha.
  fold clash in Ha. unfold upsert_message. destruct clash eqn:Ec.
  - assert (upsert_message_record now d r = Err (MessageWireIdentityConflict (tg_msg_id g))) as ->; [|done].
    unfold upsert_message_record, plan_upsert. cbv zeta. rewrite Hg. cbn [mbind result_bind]. by rewrite Ha.
  - split; [done|]. intros d' He. split; [done|].
    destruct (upsert_message_record now d r) as [[touched d1]|e] eqn:Er; [|done]. cbn [snd] in He.
    injection He as ->.
    destruct (record_plan _ _ _ _ _ _ _ Er Hg Ha) as (plan & Hplan & E1 & E2 & E3 & E4).
    unfold target_row in *. rewrite <- E1, <- E2 in Hp |- *. fold (stored_row plan (stored_messages d)) in Hp.
    fold (stored_row plan (stored_messages d')). rewrite <- E1 in Ho. rewrite <- E2 in Hi. rewrite <- E3 in Hc.
    destruct (upsert_rows _ _ _ _ _ _ Hplan Ho Hi Hc Er) as (ids & _ & -> & _).
    rewrite (upserted_head now d r plan ids Hplan Ht Hnd). eexists. split; [done|].
    destruct (final_le d plan ids (read_states d) p Hp) as (Hle & Hrecv & Href). split; [done|].
    intros Hno. assert (up_confirm plan = false) as Hf.
    { rewrite E4. destruct Hno as [-> | ->]; [apply andb_false_r|done]. }
    unfold kept_text. rewrite Hrecv, Href. cbn [merge_row mg_receiver_did mg_wire_thread_ref]. rewrite Hf.
    split; [|by intros ->]. intros Hne. unfold first_text, is_empty. by rewrite bool_decide_eq_false_2.
Qed.
End claims.

(** ** Concrete values *)

#[local] Existing Instance ex_codec.
#[local] Existing Instance ex_json.
Definition ex_names : Idna := {| domain_to_ascii_strict s := Some s |}.
#[local] Existing Instance ex_names.
#[local] Instance tidy_row_decision m : Decision (tidy_row m).
Proof. unfold tidy_row, tidy_text. apply _. Defined.

(** A group message stored under the id its sender gave it, and the same message with its
    place in the group. *)
Definition ex_copy : MessageRow :=
  mkMessageRow "owner" "raw" "group:did:g" "group:did:g" "group" "hydrated" "did:me" "did:peer" "did:g" 0
    (Some 5) 0 None "1" "0" 1 "did:g" "text/plain" "" "did:g" "resolved" "hello" "" "Peer" 0 "".
Definition ex_group_base : PeerDb :=
  put_rows [ex_copy] (mkPeerDb (mkReadDb empty_db [] [] [] []) [] [] [] [] [] [] [] [] [] [] [] []).
Definition ex_group : MessageDb :=
  mkMessageDb (unwrap_or (rebuild_all "now" ex_group_base) (0, ex_group_base)).2 [] [].
Definition ex_placed : MessageRecord :=
  mkMessageRecord "raw" "owner" "did:me" "" "" "" "" "group:did:g" 0 "did:peer" "" "did:g" "did:g"
    "text/plain" "hello" "" (Some 5) Hydrated "1" "0" false false "Peer" None false "".
Definition ex_plan : UpsertPlan :=
  unwrap_or (plan_upsert "now" ex_group ex_placed) (mkPlanned "" "" "" false false [] ex_copy).

Lemma ex_group_rebuilt : rebuild_all "now" ex_group_base = Ok (1, ms_peers ex_group).
Proof. by vm_compute. Qed.
Lemma ex_group_tidy : tidy (messages_of ex_group_base).
Proof. apply tidy_check. by vm_compute. Qed.
Lemma ex_group_rows : stored_messages ex_group = [ex_copy].
Proof. by vm_compute. Qed.
Lemma ex_group_orderly : orderly (ms_peers ex_group).
Proof.
  unfold orderly, well_kept. fold (stored_messages ex_group). rewrite ex_group_rows.
  split; [split|]; [apply tidy_check; by vm_compute|apply NoDup_singleton|].
  intros m ->%list_elem_of_singleton. apply (bool_decide_unpack _). by vm_compute.
Qed.
Lemma ex_planned : plan_upsert "now" ex_group ex_placed = Ok ex_plan.
Proof. by vm_compute. Qed.
Lemma ex_row_tidy : tidy_row (up_row ex_plan).
Proof. apply (bool_decide_unpack _). by vm_compute. Qed.
Lemma ex_unstored : stored_row ex_plan [ex_copy] = None.
Proof. by vm_compute. Qed.
Lemma ex_stored_length : length (stored_messages (upsert_message "now" ex_group ex_placed).2) = 1%nat.
Proof. by vm_compute. Qed.


Definition ex_placed_result : gset (string * string) * MessageDb :=
  unwrap_or (upsert_message_record "now" ex_group ex_placed) (∅, ex_group).
Lemma unwrap_ok {E A} (x : result E A) (a : A) :
  match x with Ok _ => true | Err _ => false end = true → x = Ok (unwrap_or x a).
Proof. by destruct x. Qed.
Lemma ex_placed_ok : upsert_message_record "now" ex_group ex_placed = Ok (ex_placed_result.1, ex_placed_result.2).
Proof. rewrite <- surjective_pairing. apply unwrap_ok. by vm_compute. Qed.
Lemma ex_copy_folded : up_duplicates ex_plan = [message_record_from_row ex_copy].
Proof. by vm_compute. Qed.
Lemma ex_plan_id : up_owner ex_plan = "owner"%string ∧ up_msg_id ex_plan = "did:g:5"%string.
Proof. by vm_compute. Qed.

Lemma group_copies_folded_witness :
  resolve_message_identity (px_read (ms_peers ex_placed_result.2)) "owner" "raw" = Some "did:g:5"%string.
Proof.
  destruct (group_copies_folded "now" ex_group ex_placed ex_plan ex_placed_result.1 ex_placed_result.2
              ex_group_orderly ex_planned ex_row_tidy) as (_ & _ & Hcopies & _).
  - by vm_compute.
  - by vm_compute.
  - exact ex_placed_ok.
  - destruct ex_plan_id as [E1 E2]. rewrite E1, E2, ex_copy_folded in Hcopies.
    apply (Hcopies (message_record_from_row ex_copy)). by left.
Defined.

Lemma read_copy_forgotten_witness :
  ∃ n, stored_row ex_plan (stored_messages ex_placed_result.2) = Some n ∧ mg_is_read n = 0 ∧
       exists_where (named_as ex_copy) (stored_messages ex_placed_result.2) = false.
Proof.
  apply (read_copy_forgotten "now" ex_group ex_placed ex_plan ex_placed_result.1 ex_placed_result.2 ex_copy
           ex_group_orderly ex_planned ex_row_tidy).
  - rewrite ex_group_rows. by left.
  - rewrite ex_copy_folded. by left.
  - reflexivity.
  - rewrite ex_group_rows. exact ex_unstored.
  - by vm_compute.
  - reflexivity.
  - by vm_compute.
  - exact ex_placed_ok.
Defined.

(** A direct message that is stored, heard of again and claimed by another sender. *)
Definition ex_chat : MessageDb := mkMessageDb ex_db [] [].
Definition ex_again (sender : string) : MessageRecord :=
  mkMessageRecord "m2" "owner" "did:me" "dm" "" "" "" "dm" 0 sender "did:me" "" "" "" "" "" None Discovered
    "" "0" false false "" None false "".
Definition ex_again_plan : UpsertPlan :=
  unwrap_or (plan_upsert "now" ex_chat (ex_again "did:peer")) (mkPlanned "" "" "" false false [] ex_copy).
Definition ex_again_result : gset (string * string) * MessageDb :=
  unwrap_or (upsert_message_record "now" ex_chat (ex_again "did:peer")) (∅, ex_chat).
Definition ex_m2 : MessageRow := ex_row "m2" "dm" "text/plain" "again" "11" 0.
Lemma ex_chat_rows : stored_messages ex_chat = ex_rows.
Proof. exact ex_messages. Qed.
Lemma ex_chat_orderly : orderly (ms_peers ex_chat).
Proof.
  split; [exact ex_well_kept|]. fold (stored_messages ex_chat). rewrite ex_chat_rows.
  intros m Hm. apply (proj1 (Forall_forall (λ m, tidy_text (mg_conversation_id m)) ex_rows)); [|done].
  unfold tidy_text. apply (bool_decide_unpack _). by vm_compute.
Qed.
Lemma ex_again_planned : plan_upsert "now" ex_chat (ex_again "did:peer") = Ok ex_again_plan.
Proof. by vm_compute. Qed.
Lemma ex_again_tidy : tidy_row (up_row ex_again_plan).
Proof. apply (bool_decide_unpack _). by vm_compute. Qed.
Lemma ex_again_ok :
  upsert_message_record "now" ex_chat (ex_again "did:peer") = Ok (ex_again_result.1, ex_again_result.2).
Proof. rewrite <- surjective_pairing. apply unwrap_ok. by vm_compute. Qed.
Lemma ex_again_no_copies : up_duplicates ex_again_plan = [].
Proof. by vm_compute. Qed.

Lemma upsert_keeps_rows_witness :
  ∃ n, n ∈ stored_messages ex_again_result.2 ∧ row_le ex_m2 n.
Proof.
  destruct (upsert_keeps_rows "now" ex_chat (ex_again "did:peer") ex_again_plan ex_again_result.1
              ex_again_result.2 ex_chat_orderly ex_again_planned ex_again_tidy ex_again_ok ex_m2)
    as [[Hin _]|(n & Hn & Hle & _)].
  - rewrite ex_chat_rows. right. left.
  - rewrite ex_again_no_copies in Hin. by apply elem_of_nil in Hin.
  - exists n. split; [exact Hn|exact Hle].
Defined.

Definition ex_target : UpsertTarget :=
  unwrap_or (upsert_target ex_chat (ex_again "did:other"))
    (mkTarget "" "" "" "" false (mkWireIdentity "" "" "")).
Lemma ex_targeted : upsert_target ex_chat (ex_again "did:other") = Ok ex_target.
Proof. by vm_compute. Qed.
Lemma ex_target_tidy :
  tidy_text (tg_owner ex_target) ∧ tidy_text (tg_msg_id ex_target) ∧ tidy_text (tg_conversation_id ex_target).
Proof.
  assert (tg_owner ex_target = "owner"%string ∧ tg_msg_id ex_target = "m2"%string ∧
          tg_conversation_id ex_target = "dm"%string) as (-> & -> & ->) by by vm_compute.
  by repeat split.
Qed.
Lemma ex_target_row : target_row ex_target (stored_messages ex_chat) = Some ex_m2.
Proof. by vm_compute. Qed.
Lemma ex_target_id : tg_msg_id ex_target = "m2"%string.
Proof. by vm_compute. Qed.

Lemma wire_identity_kept_witness :
  upsert_message "now" ex_chat (ex_again "did:other") = (Err (MessageWireIdentityConflict "m2"), ex_chat).
Proof.
  destruct ex_target_tidy as (Ho & Hi & Hc).
  destruct (wire_identity_kept "now" ex_chat (ex_again "did:other") ex_target ex_m2 ex_chat_orderly ex_targeted
              Ho Hi Hc ex_target_row) as [Hclash _].
  rewrite ex_target_id in Hclash. apply Hclash. by vm_compute.
Defined.
