(* ===== verification/Resolution.v ===== *)
(** * Messages held back

    [internal/local_state/inbound_resolution_backlog.rs]: an inbound message is filed under the
    conversation of the persona its peer's DID is bound to; while that is unknown, or its
    identity on the wire conflicts with a stored message, it is held back, and it is stored
    when the peer's handle is projected. The clocks are arguments. *)

From S2P Require Import Prelude RustStr ImError Decimal Store SyncStore Outbox Wire Lanes ReadState ReadBind ReadIds ReadWire Persona Peers PeerProject Summaries Mentions Messages.
Local Open Scope Z_scope.

Record BacklogSource := mkSource {
  bs_event_id : string;
  bs_event_seq : string;
  bs_event_type : string }.
Record RemoteMessageIngestOutcome := mkIngest {
  ig_stored : Z;
  ig_backlogged : Z;
  ig_probes_resolved : Z;
  ig_resolution_backlogged : Z;
  ig_conflict_backlogged : Z }.
Definition with_backlog t (s : PeerDb) : PeerDb :=
  mkPeerDb (px_read s) (px_personas s) (px_identifiers s) (px_routes s) (px_registry s) (px_profiles s)
    (px_edges s) (px_contacts s) (px_members s) (px_groups s) (px_summaries s) t (px_did_history s).

(** ** The canonical conversation of a message *)

Definition is_group (r : MessageRecord) : bool :=
  record_is_group r || bool_decide (trim (rc_wire_thread_kind r) = "group"%string).
Definition is_mail (r : MessageRecord) : bool :=
  bool_decide (trim (rc_wire_thread_kind r) = "mail"%string) || starts_with (trim (rc_thread_id r)) "mail:".
Definition direct_peer_did (r : MessageRecord) : option string :=
  if is_group r then None
  else
    let peer := if negb (bool_decide (trim (rc_sender_did r) = trim (rc_owner_did r)))
                then trim (rc_sender_did r) else trim (rc_receiver_did r) in
    if starts_with peer "did:" then Some peer else None.
Definition set_metadata_string (metadata : option Value) (key value : string) : option Value :=
  match metadata with
  | None => Some (VObject [(key, VString value)])
  | Some (VObject object) => Some (VObject (object_insert object (key, VString value)))
  | Some other => Some other
  end.
(** The record in a conversation, with its metadata. *)
Definition placed_record (conversation : string) (metadata : option Value) (r : MessageRecord)
    : MessageRecord :=
  mkMessageRecord (rc_msg_id r) (rc_owner_identity_id r) (rc_owner_did r) conversation
    (rc_wire_thread_kind r) (rc_wire_thread_ref r) (rc_wire_resolution_state r) conversation
    (rc_direction r) (rc_sender_did r) (rc_receiver_did r) (rc_group_id r) (rc_group_did r)
    (rc_content_type r) (rc_content r) (rc_title r) (rc_server_seq r) (rc_hydration_state r)
    (rc_sent_at r) (rc_stored_at r) (rc_is_e2ee r) (rc_is_read r) (rc_sender_name r) metadata
    (rc_mentions_current_user r) (rc_credential_name r).

Section resolution.
Context `{WireCodec, JsonText, Idna, ThreadIndex}.
Implicit Types (s : PeerDb) (d : MessageDb).

Definition canonicalize_inbound_message s (r : MessageRecord) : ImResult MessageRecord :=
  if is_group r then
    let group_did := trim (rc_group_did r) in
    match Did_parse group_did with
    | Err _ => Err (CanonicalGroupIdentityMissing (if is_empty group_did then rc_group_id r else group_did))
    | Ok _ => Ok (placed_record (group_conversation_id group_did) (rc_metadata r) r)
    end
  else if is_mail r then Ok r
  else
    match direct_peer_did r with
    | None => Err (IdentityUnresolved "inbound Direct message has no peer DID snapshot")
    | Some peer_did =>
        resolved ← resolve_by_did s (rc_owner_identity_id r) peer_did;
        match resolved with
        | None => Err (IdentityUnresolved "inbound Direct peer DID is not bound to a verified Persona")
        | Some p =>
            let metadata :=
              if negb (bool_decide (trim (rc_sender_did r) = trim (rc_owner_did r)))
              then set_metadata_string (rc_metadata r) "sender_peer_persona_id" (rs_peer_persona_id p)
              else rc_metadata r in
            Ok (placed_record (rs_conversation_id p) metadata r)
        end
    end.

(** ** Holding back *)

Definition is_resolution_error (e : ImError) : bool :=
  match e with
  | IdentityUnresolved _ | IdentityBindingConflict _ | ConversationAliasConflict _ _ _
  | CanonicalGroupIdentityMissing _ => true
  | _ => false
  end.
Definition backlog_state (e : ImError) : string :=
  match e with
  | IdentityBindingConflict _ | ConversationAliasConflict _ _ _ | MessageWireIdentityConflict _ =>
      "blocked_conflict"
  | _ => "pending"
  end.
Definition backlog_code (e : ImError) : string :=
  match e with
  | IdentityBindingConflict _ => "identity_binding_conflict"
  | ConversationAliasConflict _ _ _ => "conversation_alias_conflict"
  | MessageWireIdentityConflict _ => "message_wire_identity_conflict"
  | CanonicalGroupIdentityMissing _ => "canonical_group_identity_missing"
  | _ => "identity_unresolved"
  end.
Definition redacted_detail (e : ImError) : string :=
  match e with
  | IdentityBindingConflict _ => "verified identity binding conflict"
  | ConversationAliasConflict _ _ _ => "canonical conversation alias conflict"
  | MessageWireIdentityConflict _ => "message wire identity conflict"
  | CanonicalGroupIdentityMissing _ => "canonical Group DID is missing"
  | _ => "canonical identity is not resolved"
  end.

Definition backlog_row (owner event_id message_id : string) (b : BacklogRow) : bool :=
  bool_decide (bl_owner b = owner) && bool_decide (bl_event_id b = event_id)
  && bool_decide (bl_message_id b = message_id).
(** [ON CONFLICT(owner_identity_id, event_id, message_id) DO UPDATE SET]; a binding that is
    given replaces the stored one. *)
Definition merge_backlog (new cur : BacklogRow) : BacklogRow :=
  mkBacklog (bl_owner cur) (bl_owner_did cur) (bl_event_id cur) (bl_event_seq cur) (bl_event_type cur)
    (bl_message_id cur) (bl_peer_did cur) (bl_record cur) (bl_explicit_hydration cur)
    (bl_resolution_state new) (bl_error_code new) (bl_error_detail new) (bl_attempt_count cur + 1)
    (bl_first_seen_at cur) (bl_last_attempt_at new) (coalesce (bl_binding new) (bl_binding cur)).
Definition put_backlog (new : BacklogRow) (t : list BacklogRow) : list BacklogRow :=
  let key := backlog_row (bl_owner new) (bl_event_id new) (bl_message_id new) in
  if exists_where key t then update_where key (merge_backlog new) t else t ++ [new].
Definition store_with_thread_binding (now : string) s (source : BacklogSource) (r : MessageRecord)
    (e : ImError) (binding : option SyncThreadBinding) : ImResult PeerDb :=
  _ ← match binding with
      | None => Ok ()
      | Some b =>
          if negb (bool_decide (tb_owner b = rc_owner_identity_id r)) then
            Err (IdentityBindingConflict "backlogged thread binding belongs to a different local owner")
          else if is_empty (trim (tb_remote_thread_key b))
                  || negb (bool_decide (tb_thread_kind b ∈ ["direct"; "group"]%string)) then
            Err (invalid_input (Some "thread_binding"%string)
                   "backlogged thread binding must have a canonical key and kind")
          else Ok ()
      end;
  Ok (with_backlog
        (put_backlog
           (mkBacklog (trim (rc_owner_identity_id r)) (trim (rc_owner_did r)) (trim (bs_event_id source))
              (trim (bs_event_seq source)) (trim (bs_event_type source)) (trim (rc_msg_id r))
              (default EmptyString (direct_peer_did r)) r true (backlog_state e) (backlog_code e)
              (redacted_detail e) 1 now now
              ((λ b, (trim (tb_remote_thread_key b), trim (tb_thread_kind b), tb_updated_at b)) <$> binding))
           (px_backlog s)) s).
Definition store (now : string) s source r e : ImResult PeerDb :=
  store_with_thread_binding now s source r e None.

(** ** Ingesting remote messages *)

Definition source_of (source_event_type : string) (r : MessageRecord) : BacklogSource :=
  mkSource (source_event_type +:+ ":" +:+ trim (rc_msg_id r)) (i64_to_string (default 0 (rc_server_seq r)))
    source_event_type.
Definition add_stored (o : RemoteMessageIngestOutcome) : RemoteMessageIngestOutcome :=
  mkIngest (ig_stored o + 1) (ig_backlogged o) (ig_probes_resolved o) (ig_resolution_backlogged o)
    (ig_conflict_backlogged o).
Definition add_unresolved (o : RemoteMessageIngestOutcome) : RemoteMessageIngestOutcome :=
  mkIngest (ig_stored o) (ig_backlogged o + 1) (ig_probes_resolved o) (ig_resolution_backlogged o + 1)
    (ig_conflict_backlogged o).
Definition add_conflict (o : RemoteMessageIngestOutcome) : RemoteMessageIngestOutcome :=
  mkIngest (ig_stored o) (ig_backlogged o + 1) (ig_probes_resolved o) (ig_resolution_backlogged o)
    (ig_conflict_backlogged o + 1).
(** One record; what was stored before an error stays. *)
Definition ingest_one (now : string) (kind : string) d (r : MessageRecord) (o : RemoteMessageIngestOutcome)
    : ImResult RemoteMessageIngestOutcome * MessageDb :=
  let hold r e count :=
    match store now (ms_peers d) (source_of kind r) r e with
    | Ok s => (Ok (count o), on_peers s d)
    | Err e => (Err e, d)
    end in
  match canonicalize_inbound_message (ms_peers d) r with
  | Ok r =>
      match upsert_message now d r with
      | (Ok _, d) => (Ok (add_stored o), d)
      | (Err (MessageWireIdentityConflict id), _) => hold r (MessageWireIdentityConflict id) add_conflict
      | (Err e, _) => (Err e, d)
      end
  | Err e => if is_resolution_error e then hold r e add_unresolved else (Err e, d)
  end.
Fixpoint ingest_loop (now kind : string) d (records : list MessageRecord) (o : RemoteMessageIngestOutcome)
    : ImResult RemoteMessageIngestOutcome * MessageDb :=
  match records with
  | [] => (Ok o, d)
  | r :: records =>
      match ingest_one now kind d r o with
      | (Ok o, d) => ingest_loop now kind d records o
      | (Err e, d) => (Err e, d)
      end
  end.
Definition ingest_remote_messages (now : string) d (records : list MessageRecord) (source_event_type : string)
    : ImResult RemoteMessageIngestOutcome * MessageDb :=
  ingest_loop now (trim source_event_type) d records (mkIngest 0 0 0 0 0).

(** ** Replaying *)

Definition legacy_hydration_state (event_type : string) (r : MessageRecord) : MessageHydrationState :=
  if negb (is_empty (trim (rc_content r))) then Hydrated
  else
    let kind := trim event_type in
    if bool_decide (kind ∈ ["message.created"; "conversation.updated"]%string) then
      if bool_decide (is_Some (rc_server_seq r)) then Discovered else LegacyProbe
    else if bool_decide (kind ∈ ["remote_history"; "realtime_message"; "thread_catch_up"]%string)
    then Hydrated
    else LegacyProbe.
Definition with_hydration (h : MessageHydrationState) (r : MessageRecord) : MessageRecord :=
  mkMessageRecord (rc_msg_id r) (rc_owner_identity_id r) (rc_owner_did r) (rc_conversation_id r)
    (rc_wire_thread_kind r) (rc_wire_thread_ref r) (rc_wire_resolution_state r) (rc_thread_id r)
    (rc_direction r) (rc_sender_did r) (rc_receiver_did r) (rc_group_id r) (rc_group_did r)
    (rc_content_type r) (rc_content r) (rc_title r) (rc_server_seq r) h (rc_sent_at r) (rc_stored_at r)
    (rc_is_e2ee r) (rc_is_read r) (rc_sender_name r) (rc_metadata r) (rc_mentions_current_user r)
    (rc_credential_name r).
Definition decode_message_record (b : BacklogRow) : MessageRecord :=
  if bl_explicit_hydration b then bl_record b
  else with_hydration (legacy_hydration_state (bl_event_type b) (bl_record b)) (bl_record b).

Definition held_for (owner did : string) (b : BacklogRow) : bool :=
  bool_decide (bl_owner b = owner) && bool_decide (bl_resolution_state b = "pending"%string)
  && bool_decide (bl_peer_did b = did).
(** [ORDER BY LENGTH(event_seq), event_seq, event_id, message_id] *)
Definition replay_cmp (a b : BacklogRow) : comparison :=
  then_cmp (chars_count (bl_event_seq a) ?= chars_count (bl_event_seq b))%nat
    (then_cmp (str_cmp (bl_event_seq a) (bl_event_seq b))
       (then_cmp (str_cmp (bl_event_id a) (bl_event_id b)) (str_cmp (bl_message_id a) (bl_message_id b)))).
Definition replay_rows s (owner : string) (dids : list string) : list BacklogRow :=
  did ← dids; merge_sort (le_of replay_cmp) (select_where (held_for (trim owner) (trim did)) (px_backlog s)).
Definition replay_one (now : string) (fresh : Z → ReadInput) (owner : string) (acc : Z * MessageDb)
    (b : BacklogRow) : ImResult (Z * MessageDb) :=
  let d := acc.2 in
  r ← canonicalize_inbound_message (ms_peers d) (decode_message_record b);
  match upsert_message now d r with
  | (Err e, _) => Err e
  | (Ok _, d) =>
      s ← match bl_binding b with
          | None => Ok (ms_peers d)
          | Some (key, kind, updated_at) =>
              t ← upsert_sync_thread_binding (fresh acc.1) (px_read (ms_peers d))
                    (mkThreadBinding (trim owner) key kind (rc_conversation_id r) updated_at);
              Ok (with_read t (ms_peers d))
          end;
      Ok (acc.1 + 1,
          on_peers (with_backlog (delete_where (backlog_row (trim owner) (bl_event_id b) (bl_message_id b))
                                    (px_backlog s)) s) d)
  end.
Definition replay_for_persona (now : string) (fresh : Z → ReadInput) d (owner persona : string)
    : ImResult (Z * MessageDb) :=
  match dids_for_persona (ms_peers d) owner persona with
  | [] => Ok (0, d)
  | dids => try_fold (replay_one now fresh owner) (0, d) (replay_rows (ms_peers d) owner dids)
  end.
(** What a projection does with it; the memo is the one of the connection. *)
Definition backlog_replay (now : string) (fresh : Z → ReadInput) (memo : list (string * string))
    (memo_ids : list (string * string * string)) : Backlog := {|
  replay_backlog s owner persona :=
    r ← replay_for_persona now fresh (mkMessageDb s memo memo_ids) owner persona;
    Ok (r.1, ms_peers r.2) |}.
End resolution.

(** ** Queries *)

Definition pending_for (owner : string) (b : BacklogRow) : bool :=
  bool_decide (bl_owner b = owner) && bool_decide (bl_resolution_state b = "pending"%string).
Definition pending_count (s : PeerDb) (owner : string) : Z :=
  Z.of_nat (count_where (pending_for (trim owner)) (px_backlog s)).
(** [MIN(..)] of a group; the group is not empty. *)
Definition min_by {A} (f : A → A → comparison) (l : list A) : option A :=
  match l with
  | [] => None
  | x :: l => Some (fold_left (λ m y, if bool_decide (f y m = Lt) then y else m) l x)
  end.
(** [ORDER BY MIN(LENGTH(event_seq)), MIN(event_seq), peer_did] *)
Definition peer_key (s : PeerDb) (owner did : string) : nat * string * string :=
  let seqs := bl_event_seq <$> select_where (λ b, pending_for owner b && bool_decide (bl_peer_did b = did))
                                (px_backlog s) in
  (default 0%nat (min_by Nat.compare (chars_count <$> seqs)), default EmptyString (min_by str_cmp seqs), did).
Definition peer_cmp (s : PeerDb) (owner a b : string) : comparison :=
  pair_cmp (pair_cmp Nat.compare str_cmp) str_cmp (peer_key s owner a) (peer_key s owner b).
Definition list_pending_peer_dids (s : PeerDb) (owner : string) (limit : Z) : ImResult (list string) :=
  let owner := trim owner in
  if is_empty owner then
    Err (invalid_input (Some "owner_identity_id"%string) "owner identity id is required")
  else if (limit =? 0) || (100 <? limit) then
    Err (invalid_input (Some "limit"%string) "pending Persona resolution limit must be between 1 and 100")
  else
    let dids := remove_dups (bl_peer_did <$> select_where
      (λ b, pending_for owner b && negb (is_empty (sql_trim (bl_peer_did b)))) (px_backlog s)) in
    Ok (take (Z.to_nat limit) (merge_sort (λ a b, peer_cmp s owner a b ≠ Gt) dids)).

Definition is_listed (ids : list string) (value : option string) : bool :=
  match value with Some id => bool_decide (id ∈ ids) | None => false end.
(** The set of ids is the list of its elements. *)
Definition list_decrypted_secure_messages_for_owner_identity (s : PeerDb) (owner : string)
    (message_ids : list string) : ImResult (list MessageRecord) :=
  let owner := trim owner in
  if is_empty owner then
    Err (invalid_input (Some "owner_identity_id"%string) "owner identity id is required")
  else
    match nonblank_ids message_ids with
    | [] => Ok []
    | ids =>
        let rows := select_where (λ b,
          bool_decide (bl_owner b = owner)
          && (bool_decide (bl_message_id b ∈ ids)
              || is_listed ids (metadata_str (rc_metadata (bl_record b)) "raw_message_id"))) (px_backlog s) in
        Ok (select_where (λ r,
              bool_decide (rc_owner_identity_id r = owner)
              && (bool_decide (trim (rc_msg_id r) ∈ ids)
                  || is_listed ids (trim <$> metadata_str (rc_metadata r) "raw_message_id"))
              && rc_is_e2ee r
              && bool_decide (metadata_str (rc_metadata r) "decryption_state" = Some "decrypted"%string))
              (decode_message_record <$> rows))
    end.
