(* ===== verification/ResolutionProps.v ===== *)
(** * What holding back and replaying leave

    An upsert does not touch the messages held back; a replay removes exactly those of the
    persona, each once it is stored. *)

From S2P Require Import Prelude RustStr ImError Decimal Store SyncStore Outbox Wire Lanes ReadState ReadBind ReadIds ReadProps ReadWire ReadMarkProps Persona Peers PeerProps PeerProject Summaries SummaryOrder SummaryProps SummaryRebuild SummaryDelta SummaryMark SummaryClaims Mentions Messages MessageProps MessageTable Resolution.
Local Open Scope Z_scope.

Definition backlog_of (d : MessageDb) : list BacklogRow := px_backlog (ms_peers d).
Definition backlog_key (b : BacklogRow) : string * string * string := (bl_owner b, bl_event_id b, bl_message_id b).
Lemma backlog_row_key o e i b : backlog_row o e i b = true ↔ backlog_key b = (o, e, i).
Proof.
  unfold backlog_row, backlog_key. rewrite !andb_true_iff, !bool_decide_eq_true. naive_solver.
Qed.

Section props.
Context `{WireCodec, JsonText, Idna, ThreadIndex}.

Lemma merge_legacy_keeps now d o c r ids d' :
  merge_legacy_direct_did_conversation now d o c r = Ok (ids, d') →
  backlog_of d' = backlog_of d ∧ message_key <$> stored_messages d' = message_key <$> stored_messages d.
Proof.
  unfold merge_legacy_direct_did_conversation. intros (o1 & _ & He)%bind_Ok.
  apply bind_Ok in He as (c1 & _ & He). destruct (_ || _) in He; [by injection He as _ <-|].
  case_bool_decide; [by injection He as _ <-|]. apply bind_Ok in He as (route & _ & He).
  destruct (route ≫= _) as [persona|]; [|by injection He as _ <-].
  apply bind_Ok in He as (s1 & Hs1%ensure_same & He). destruct Hs1 as (A1 & _ & _ & _ & B1).
  unfold backlog_of, stored_messages.
  destruct (verified_legacy_direct_conversation_ids s1 o1 persona c1) as [|i0 is0].
  { injection He as _ <-. cbn. by rewrite A1. }
  apply bind_Ok in He as (s2 & Hs2%(try_fold_same _ _ _ _ (λ s a s', insert_alias_same s _ s')) & He).
  cbv zeta in He. apply bind_Ok in He as (s3 & Hs3 & He).
  apply (try_fold_same _ _ _ _ (λ s a s', mark_merged_same now s _ _ _ s')) in Hs3.
  injection He as _ <-. destruct Hs2 as (A2 & _ & _ & _ & B2), Hs3 as (A3 & _ & _ & _ & B3).
  cbn in *. split; [congruence|]. rewrite A3. cbn. rewrite map_update_where by done. by rewrite A2, A1.
Qed.
(** An upsert leaves the messages held back alone and stores the one it is given. *)
Lemma upsert_stores now d r touched d' :
  upsert_message_record now d r = Ok (touched, d') →
  backlog_of d' = backlog_of d ∧
  ∃ plan, plan_upsert now d r = Ok plan ∧
    (up_owner plan, up_msg_id plan) ∈ message_key <$> stored_messages d'.
Proof.
  unfold upsert_message_record. intros (plan & Hplan & He)%bind_Ok. apply bind_Ok in He as (p & _ & He).
  apply bind_Ok in He as (s2 & Ha & He). unfold upsert_message_identity_aliases in Ha.
  apply bind_Ok in Ha as (o1 & _ & Ha). apply bind_Ok in Ha as (i1 & _ & Ha).
  assert (px_backlog s2 = backlog_of d ∧ messages_of s2 = with_row plan (stored_messages d)) as [B2 A2]
    by (by injection Ha as <-). clear Ha.
  apply bind_Ok in He as ([ids d1] & [Bm Am]%merge_legacy_keeps & He). cbv beta iota zeta in He.
  apply bind_Ok in He as (q & _ & He). apply bind_Ok in He as ([n sm] & Hs & He).
  apply bind_Ok in He as (s4 & Hens%ensure_summary_same & He). injection He as _ <-.
  assert (frame sm = frame (inherit_committed_read_watermark (ms_peers d1) (up_owner plan) (up_msg_id plan)))
    as [= R3 B3].
  { destruct ids, (up_duplicates plan), q;
      first [exact (delta_read _ _ _ _ _ Hs)|exact (touched_read _ _ _ _ Hs)]. }
  destruct Hens as (A4 & _ & _ & _ & B4). split; [unfold backlog_of in *; cbn in *; congruence|].
  exists plan. split; [done|].
  assert (message_key <$> messages_of s4 = message_key <$> with_row plan (stored_messages d)) as E.
  { rewrite A4. etrans; [exact (f_equal (λ x, message_key <$> db_messages (rd_db x)) R3)|].
    etrans; [exact (map_update_where message_key
                      (inherits (db_read_states (rd_db (px_read (ms_peers d1)))) (up_owner plan) (up_msg_id plan))
                      set_read (stored_messages d1) (λ _ _ _, eq_refl))|].
    etrans; [exact Am|]. unfold stored_messages. cbn. by rewrite A2. }
  unfold stored_messages. cbn [ms_peers on_peers]. rewrite E. pose proof (row_key now d r plan Hplan) as Hk.
  unfold with_row, put_row. injection Hk as -> ->.
  destruct (exists_where _ _) eqn:Ex.
  - apply exists_where_true in Ex as (m & Hm & Nm). rewrite map_update_where by done.
    apply message_named_key in Nm. rewrite <- Nm. by apply list_elem_of_fmap_2.
  - rewrite fmap_app, elem_of_app. right. apply list_elem_of_singleton. symmetry.
    exact (row_key now d r plan Hplan).
Qed.
Lemma upsert_message_Ok now d r u d' :
  upsert_message now d r = (Ok u, d') → ∃ touched, upsert_message_record now d r = Ok (touched, d').
Proof.
  unfold upsert_message. destruct (upsert_message_record now d r) as [[touched d1]|e]; [|done].
  intros [= _ <-]. by exists touched.
Qed.

(** The step that brings a held message in: its record gets the conversation of the persona, is
    stored, and the message leaves the backlog. *)
Definition brought_in (now owner : string) (b : BacklogRow) (d d' : MessageDb) : Prop :=
  ∃ r plan after,
    canonicalize_inbound_message (ms_peers d) (decode_message_record b) = Ok r ∧
    plan_upsert now d r = Ok plan ∧ upsert_message now d r = (Ok (), after) ∧
    (up_owner plan, up_msg_id plan) ∈ message_key <$> stored_messages d' ∧
    message_key <$> stored_messages d' = message_key <$> stored_messages after ∧
    backlog_of d' = delete_where (backlog_row (trim owner) (bl_event_id b) (bl_message_id b)) (backlog_of d).
Lemma same_rows_keys s s' :
  same_rows s s' → message_key <$> db_messages (rd_db s') = message_key <$> db_messages (rd_db s).
Proof.
  intros [E _]. apply (f_equal (fmap message_key)) in E. by rewrite <- !list_fmap_compose in E.
Qed.
Lemma replay_one_inv now fresh owner acc b acc' :
  replay_one now fresh owner acc b = Ok acc' → acc'.1 = acc.1 + 1 ∧ brought_in now owner b acc.2 acc'.2.
Proof.
  unfold replay_one. intros (r & Hr & He)%bind_Ok.
  destruct (upsert_message now acc.2 r) as [[[]|e] d1] eqn:Hu; [|done].
  apply bind_Ok in He as (s & Hs & He). injection He as <-. cbn [fst snd]. split; [done|].
  destruct (upsert_message_Ok _ _ _ _ _ Hu) as [touched Hrec].
  destruct (upsert_stores _ _ _ _ _ Hrec) as (B & plan & Hplan & Hk).
  assert (px_backlog s = backlog_of d1 ∧ message_key <$> messages_of s = message_key <$> stored_messages d1)
    as [Bs Ks].
  { destruct (bl_binding b) as [[[key kind] at_time]|]; [|by injection Hs as <-].
    apply bind_Ok in Hs as (t & Ht%upsert_binding_rows%same_rows_keys & Hs). by injection Hs as <-. }
  exists r, plan, d1. unfold backlog_of, stored_messages in *. cbn. rewrite Bs, <- B.
  split_and!; [done..| |done|done]. change (messages_of (with_backlog ?t s)) with (messages_of s). by rewrite Ks.
Qed.

Definition run_of (now : string) (fresh : Z → ReadInput) (owner : string) := try_fold (replay_one now fresh owner).
Lemma replay_fold now fresh owner l acc acc' :
  run_of now fresh owner acc l = Ok acc' →
  acc'.1 = acc.1 + Z.of_nat (length l) ∧
  (∀ x, x ∈ backlog_of acc'.2 ↔
        x ∈ backlog_of acc.2 ∧ ∀ b, b ∈ l → backlog_row (trim owner) (bl_event_id b) (bl_message_id b) x = false) ∧
  ∀ l1 b l2, l = l1 ++ b :: l2 →
    ∃ acc1 acc2, run_of now fresh owner acc l1 = Ok acc1 ∧ brought_in now owner b acc1.2 acc2.2 ∧
                 run_of now fresh owner acc2 l2 = Ok acc'.
Proof.
  revert acc. unfold run_of. induction l as [|b l IH]; intros acc He.
  { injection He as <-. split; [cbn; lia|]. split; [|by intros []]. intros x. split; [|by intros []].
    intros Hx. split; [done|]. intros b Hb. by apply elem_of_nil in Hb. }
  cbn [try_fold] in He. apply bind_Ok in He as (acc1 & Hone & He). pose proof Hone as Hb1.
  apply replay_one_inv in Hb1 as (E1 & D1). destruct (IH _ He) as (E2 & B2 & D2).
  split; [cbn [length]; lia|]. split.
  - destruct D1 as (r & plan & after & _ & _ & _ & _ & _ & B1). intros x.
    rewrite B2, B1, elem_of_delete_where. setoid_rewrite elem_of_cons. naive_solver.
  - intros [|c l1] y l2 E; injection E as -> ->.
    + exists acc, acc1. done.
    + destruct (D2 l1 y l2 eq_refl) as (a1 & a2 & R1 & R2 & R3). exists a1, a2. split; [|done].
      cbn [try_fold]. by rewrite Hone.
Qed.

Definition held_of (dids : list string) (owner : string) (b : BacklogRow) : Prop :=
  ∃ did, did ∈ dids ∧ held_for (trim owner) (trim did) b = true.
Lemma replay_rows_in s owner dids b :
  b ∈ replay_rows s owner dids ↔ b ∈ px_backlog s ∧ held_of dids owner b.
Proof.
  unfold replay_rows, held_of. rewrite list_elem_of_bind. setoid_rewrite merge_sort_Permutation.
  setoid_rewrite elem_of_select_where. naive_solver.
Qed.
(** A replay removes what is held for the persona, each message once it is stored. *)
Lemma replay_spec now fresh d owner persona n d' :
  NoDup (backlog_key <$> backlog_of d) →
  replay_for_persona now fresh d owner persona = Ok (n, d') →
  let dids := dids_for_persona (ms_peers d) owner persona in
  (∀ b, b ∈ backlog_of d' ↔ b ∈ backlog_of d ∧ ¬ held_of dids owner b) ∧
  (∀ b, b ∈ backlog_of d → held_of dids owner b →
     ∃ l1 l2 acc1 acc2, run_of now fresh owner (0, d) l1 = Ok acc1 ∧
       brought_in now owner b acc1.2 acc2.2 ∧ run_of now fresh owner acc2 l2 = Ok (n, d')).
Proof.
  intros Hnd He dids. unfold replay_for_persona in He. fold dids in He. clearbody dids.
  assert (run_of now fresh owner (0, d) (replay_rows (ms_peers d) owner dids) = Ok (n, d'))
    as Hf by (destruct dids; [by injection He as <- <-|done]). clear He.
  apply replay_fold in Hf as (_ & Hb & Hd). cbn [snd] in Hb. split.
  - intros b. rewrite Hb. split; intros [Hin Hno]; (split; [done|]).
    + intros Hh. assert (b ∈ replay_rows (ms_peers d) owner dids) as Hr by by apply replay_rows_in.
      specialize (Hno b Hr). destruct Hh as (did & _ & Hh). unfold held_for in Hh. bool_hyps.
      apply not_true_iff_false in Hno. apply Hno, backlog_row_key. unfold backlog_key. congruence.
    + intros y [Hy Hh]%replay_rows_in. apply not_true_iff_false. intros Hk%backlog_row_key. apply Hno.
      assert (b = y) as ->; [|done]. apply (key_inj backlog_key (backlog_of d)); [done..|]. rewrite Hk.
      destruct Hh as (did & _ & Hh). unfold held_for in Hh. bool_hyps. unfold backlog_key. congruence.
  - intros b Hin Hh. assert (b ∈ replay_rows (ms_peers d) owner dids) as Hr by by apply replay_rows_in.
    apply list_elem_of_split in Hr as (l1 & l2 & E). destruct (Hd l1 b l2 E) as (a1 & a2 & R).
    by exists l1, l2, a1, a2.
Qed.

(** The decrypted messages that are looked up are encrypted messages of the owner, held back
    under one of the ids. *)
Lemma decrypted_listed s owner ids l r :
  list_decrypted_secure_messages_for_owner_identity s owner ids = Ok l → r ∈ l →
  (∃ b, b ∈ px_backlog s ∧ r = decode_message_record b) ∧ rc_owner_identity_id r = trim owner ∧
  rc_is_e2ee r = true ∧ metadata_str (rc_metadata r) "decryption_state" = Some "decrypted"%string ∧
  (trim (rc_msg_id r) ∈ nonblank_ids ids ∨
   ∃ raw, metadata_str (rc_metadata r) "raw_message_id" = Some raw ∧ trim raw ∈ nonblank_ids ids).
Proof.
  unfold list_decrypted_secure_messages_for_owner_identity. cbv zeta. destruct (is_empty _); [done|].
  destruct (nonblank_ids ids) as [|i is0] eqn:E; [by intros [= <-] ?%elem_of_nil|].
  intros [= <-] [Hr Hp]%elem_of_select_where.
  apply list_elem_of_fmap in Hr as (b & -> & [Hb _]%elem_of_select_where).
  rewrite !andb_true_iff, orb_true_iff, !bool_decide_eq_true in Hp. destruct Hp as [[[Ho Hid] He] Hd].
  split; [by exists b|]. split_and!; [done..|]. destruct Hid as [Hid|Hid]; [by left|right].
  destruct (metadata_str _ "raw_message_id") as [raw|]; [|done]. exists raw. split; [done|].
  by apply bool_decide_eq_true in Hid.
Qed.
End props.
