(* ===== verification/PeerEdges.v ===== *)
(** * Generations and verified DID transitions

    How the generation of a binding moves, what the cache of verified transitions keeps,
    and which chains of transitions the repair of a foreign persona accepts. *)

From Stdlib Require Import Ascii.
From S2P Require Import Prelude RustStr ImError Decimal Store SyncStore Outbox Wire ReadState ReadBind ReadProps Persona PersonaProps Peers PeerProject PeerCheck PeerProps PeerProjectProps PeerMigrate.
Local Open Scope Z_scope.

(** ** Generations *)

Lemma head_update_where {A} (q : A → bool) f (t : list A) :
  (∀ x, q x = true → q (f x) = true) →
  head (select_where q (update_where q f t)) = f <$> head (select_where q t).
Proof.
  intros Hq. unfold select_where, update_where. induction t as [|x t IH]; [done|]. cbn [fmap list_fmap].
  destruct (q x) eqn:E.
  - rewrite !filter_cons_True by auto. done.
  - rewrite !filter_cons_False by congruence. exact IH.
Qed.

Lemma select_none {A} (q : A → bool) (t : list A) : exists_where q t = false → select_where q t = [].
Proof.
  intros Ex. destruct (select_where q t) as [|x l] eqn:E; [done|].
  assert (x ∈ select_where q t) as [Hx Qx]%elem_of_select_where by (rewrite E; left).
  apply (proj1 (exists_where_false _ _) Ex) in Hx. congruence.
Qed.

Section generation.
Context `{WireCodec, Idna}.
Implicit Types (s : PeerDb) (o : string).

Lemma upsert_generation s r s' :
  upsert_persona s r = Ok s' →
  let o := trim (pp_owner r) in
  let id := ps_peer_persona_id (pp_persona r) in
  stored_generation_of s' o id = coalesce (pp_binding_generation r) (stored_generation_of s o id).
Proof.
  unfold upsert_persona, stored_generation_of, identity_conflict, constraint_failed. cbv zeta. intros Hu.
  apply bind_Ok in Hu as (_ & _ & Hu). set (key := persona_row _ _) in *. destruct (exists_where key _) eqn:Ex.
  - destruct (head (select_where key (px_personas s))) as [cur|] eqn:Eh; [|done].
    destruct (same_authority _ _); [|done]. injection Hu as <-. cbn [px_personas with_personas].
    rewrite head_update_where by done. by rewrite Eh.
  - destruct (exists_where _ _) in Hu; [done|]. injection Hu as <-. cbn [px_personas with_personas].
    assert (select_where key (px_personas s) = []) as En.
    { by apply select_none. }
    unfold select_where in *. rewrite filter_app, En. cbn [app head]. rewrite filter_cons_True.
    + cbn. by destruct (pp_binding_generation r).
    + by apply persona_row_true.
Qed.

Lemma generation_inv s o p did next g :
  validate_projection_generation s o p did next = Ok g → trim o = o → trim p = p →
  let stored := stored_generation_of s o p in
  g = coalesce next stored ∧
  (∀ g0 g1, stored = Some g0 → next = Some g1 → decimal_value g0 ≤ decimal_value g1) ∧
  ∀ d, current_did_of s o p = Some d → d ≠ did →
    ∃ g1, next = Some g1 ∧ ∀ g0, stored = Some g0 → decimal_value g0 < decimal_value g1.
Proof.
  unfold validate_projection_generation, identity_conflict. intros Hv Ho Hp. cbv zeta in *. rewrite Ho, Hp in Hv.
  apply bind_Ok in Hv as ([] & _ & Hv). apply bind_Ok in Hv as ([] & _ & Hv).
  set (changed := match current_did_of s o p with Some _ => _ | None => _ end) in Hv.
  apply bind_Ok in Hv as ([] & Hcase & Hv). injection Hv as <-. split; [done|].
  assert (∀ d, current_did_of s o p = Some d → d ≠ did → changed = true) as Hch.
  { intros d Hd Hne. unfold changed. rewrite Hd. by rewrite bool_decide_false. }
  destruct (stored_generation_of s o p) as [g0|], next as [g1|]; split; try done.
  - intros a b [= <-] [= <-]. apply bind_Ok in Hcase as (c & Hc & Hcase).
    apply compare_decimal_Ok_inv in Hc as (_ & _ & ->). destruct (_ ?= _) eqn:E; [| done |].
    + apply Z.compare_eq_iff in E. lia.
    + apply Z.compare_gt_iff in E. lia.
  - intros d Hd Hne. exists g1. split; [done|]. intros a [= <-].
    apply bind_Ok in Hcase as (c & Hc & Hcase). apply compare_decimal_Ok_inv in Hc as (_ & _ & ->).
    rewrite (Hch d Hd Hne) in Hcase. destruct (_ ?= _) eqn:E; [done..|]. apply Z.compare_gt_iff in E. lia.
  - intros d Hd Hne. by rewrite (Hch d Hd Hne) in Hcase.
  - intros d Hd Hne. by exists g1.
  - intros d Hd Hne. by rewrite (Hch d Hd Hne) in Hcase.
Qed.
End generation.

(** ** The cache of transitions *)

Section edges.
Implicit Types (s : PeerDb) (o : string).

Lemma canonical_did_inv field x y : canonical_did field x = Ok y → y = trim x ∧ canonical_did field y = Ok y.
Proof.
  unfold canonical_did, edge_required. cbv zeta. intros Hc. apply bind_Ok in Hc as (v & Hv & Hc).
  destruct (is_empty (trim x)) eqn:Ee; [done|]. injection Hv as <-. apply bind_Ok in Hc as (d & Hd & Hc).
  case_bool_decide as E; [|done]. injection Hc as <-. split; [done|].
  rewrite trim_idem, Ee. cbn. rewrite Hd. cbn. by rewrite bool_decide_true.
Qed.

Definition edge_key (e : string * VerifiedDidTransitionEdge) : string * string := (e.1, te_predecessor e.2).
Lemma edge_row_true o d e : edge_row o d e = true ↔ edge_key e = (o, d).
Proof. unfold edge_row, edge_key. rewrite andb_true_iff, !bool_decide_eq_true. naive_solver. Qed.

Lemma edge_inv s o e s' :
  compare_and_set_verified s o e = Ok s' →
  ∃ t, s' = with_edges t s ∧ strong_assurance (te_assurance e) = true ∧
    trim (te_predecessor e) ≠ trim (te_successor e) ∧
    canonical_did "predecessor_did" (te_predecessor e) = Ok (trim (te_predecessor e)) ∧
    is_empty (trim o) = false ∧
    (te_successor ∘ snd <$> head (select_where (edge_row (trim o) (trim (te_predecessor e))) t))
      = Some (trim (te_successor e)) ∧
    (t = px_edges s ∨
     t = px_edges s ++ [(trim o, mkEdge (trim (te_predecessor e)) (trim (te_successor e)) (te_assurance e))] ∧
     ∀ x, x ∈ px_edges s → edge_key x ≠ (trim o, trim (te_predecessor e))).
Proof.
  unfold compare_and_set_verified, identity_conflict. intros Hc. apply bind_Ok in Hc as (o' & Ho & Hc).
  unfold edge_required in Ho. cbv zeta in Ho. destruct (is_empty (trim o)) eqn:Eo; [done|]. injection Ho as <-.
  apply bind_Ok in Hc as (p & Hp & Hc). apply bind_Ok in Hc as (u & Hu & Hc).
  pose proof (canonical_did_inv _ _ _ Hp) as [-> _]. pose proof (canonical_did_inv _ _ _ Hu) as [-> _].
  case_bool_decide as Hne; [done|]. destruct (strong_assurance _) eqn:Es; [|done]. cbn [negb] in Hc.
  apply bind_Ok in Hc as ([] & _ & Hc). cbv zeta in Hc. set (t1 := if exists_where _ _ then _ else _) in Hc.
  destruct (head _) as [x|] eqn:Eh; [|done]. case_bool_decide as Ex; [|done]. injection Hc as <-.
  exists t1. split_and!; try done.
  - rewrite Eh. cbn. by rewrite Ex.
  - unfold t1. destruct (exists_where _ _) eqn:E; [by left|]. right. split; [done|].
    intros y Hy Ky%edge_row_true. apply (proj1 (exists_where_false _ _) E) in Hy. congruence.
Qed.

Lemma cache_rows l : ∀ m m',
  try_fold cache_row m l = Ok m' →
  ∀ d x, m' !! d = Some x ↔ m !! d = Some x ∨ ∃ e, e ∈ l ∧ te_predecessor e.2 = d ∧ te_successor e.2 = x.
Proof.
  induction l as [|e l IH]; intros m m' Hf d x; cbn [try_fold] in Hf.
  - injection Hf as <-. split; [by left|]. intros [?|(e & He & _)]; [done|]. by apply elem_of_nil in He.
  - apply bind_Ok in Hf as (m1 & H1 & Hf). unfold cache_row, identity_conflict in H1.
    destruct (m !! te_predecessor e.2) eqn:Em; [done|]. injection H1 as <-. rewrite (IH _ _ Hf), lookup_insert_Some.
    setoid_rewrite elem_of_cons. naive_solver congruence.
Qed.
(** The cache in memory holds exactly the stored transitions of the owner. *)
Lemma cache_load_exact s o m :
  cache_load s o = Ok m →
  ∀ d x, m !! d = Some x ↔
    ∃ e, e ∈ px_edges s ∧ edge_key e = (trim o, d) ∧ te_successor e.2 = x.
Proof.
  unfold cache_load, edge_required. cbv zeta. intros Hl d x. apply bind_Ok in Hl as (o' & Ho & Hl).
  destruct (is_empty (trim o)); [done|]. injection Ho as <-. rewrite (cache_rows _ _ _ Hl), lookup_empty.
  setoid_rewrite merge_sort_Permutation. setoid_rewrite elem_of_select_where.
  setoid_rewrite bool_decide_eq_true. unfold edge_key. split.
  - intros [?|(e & (He & Eo) & <- & <-)]; [done|]. exists e. by rewrite Eo.
  - intros (e & He & [= Eo <-] & <-). right. by exists e.
Qed.
End edges.

(** ** Chains of transitions *)

Section chain.
Variables (s : PeerDb) (o target : string).

(** One proven transition. *)
Definition succeeds (a b : string) : Prop := get_successor s o a = Ok (Some b).
Definition chain (n : nat) (a : string) : Prop := nsteps succeeds n a target.

Lemma chain_next n a : chain (S n) a → ∃ b, succeeds a b ∧ chain n b.
Proof. intros Hc. inversion Hc; subst. eauto. Qed.

Lemma continuity_sound fuel a visited :
  (length visited ≤ 64)%nat → continuity fuel s o target a visited = Ok () →
  ∃ n, (n + length visited ≤ 64)%nat ∧ chain n a.
Proof.
  revert a visited. induction fuel as [|fuel IH]; intros a visited Hl; cbn [continuity];
    unfold identity_conflict; (case_bool_decide as E; [intros _; exists O; subst; split; [lia|constructor]|]);
    destruct (_ || _) eqn:Ev; try done.
  apply orb_false_iff in Ev as [_ Ev%Nat.ltb_ge]. intros Hc. apply bind_Ok in Hc as ([b|] & Hb & Hc); [|done].
  destruct (IH b (a :: visited)) as (n & Hn & Hch); [cbn; lia|done|]. cbn [length] in Hn.
  exists (S n). split; [lia|]. by econstructor.
Qed.

Lemma continuity_complete n : ∀ fuel a visited,
  chain n a → (∀ j, (j < n)%nat → ¬ chain j a) → (∀ v j, v ∈ visited → (j ≤ n)%nat → ¬ chain j v) →
  (n + length visited ≤ 64)%nat → (n ≤ fuel)%nat → continuity fuel s o target a visited = Ok ().
Proof.
  induction n as [|n IH]; intros fuel a visited Hch Hmin Hvis Hlen Hfuel.
  - inversion Hch; subst. destruct fuel; cbn [continuity]; by rewrite bool_decide_true.
  - destruct fuel as [|fuel]; [lia|]. cbn [continuity]. rewrite bool_decide_false.
    2:{ intros ->. apply (Hmin O); [lia|constructor]. }
    rewrite bool_decide_false; [|intros Hv; by apply (Hvis a (S n))].
    destruct (64 <? S (length visited))%nat eqn:E; [apply Nat.ltb_lt in E; lia|]. cbn [orb].
    destruct (chain_next _ _ Hch) as (b & Hb & Hcb). unfold succeeds in Hb. rewrite Hb. cbn [mbind result_bind].
    apply IH; cbn [length]; try lia; [done| |].
    + intros j Hj Hc. apply (Hmin (S j)); [lia|]. by econstructor.
    + intros v j [-> |Hv]%elem_of_cons Hj; [apply Hmin; lia|apply Hvis; [done|lia]].
Qed.

Lemma chain_least n : ∀ a, chain n a → ∃ m, (m ≤ n)%nat ∧ chain m a ∧ ∀ j, (j < m)%nat → ¬ chain j a.
Proof.
  induction n as [|n IH]; intros a Hc; [exists O; split_and!; [lia|done|lia]|].
  destruct (decide (a = target)) as [-> |Hne].
  { exists O. split_and!; [lia|constructor|lia]. }
  destruct (chain_next _ _ Hc) as (b & Hb & Hcb). destruct (IH b Hcb) as (m & Hm & Hmb & Hmin).
  exists (S m). split_and!; [lia|by econstructor|]. intros [|j] Hj Hcj; [by inversion Hcj|].
  destruct (chain_next _ _ Hcj) as (b' & Hb' & Hcb'). unfold succeeds in *.
  assert (b' = b) as -> by congruence. apply (Hmin j); [lia|done].
Qed.

(** Exactly the chains of at most 64 proven transitions are accepted. *)
Lemma continuity_chain fuel a :
  (64 ≤ fuel)%nat → continuity fuel s o target a [] = Ok () ↔ ∃ n, (n ≤ 64)%nat ∧ chain n a.
Proof.
  intros Hf. split.
  - intros Hc. apply continuity_sound in Hc as (n & Hn & Hch); cbn [length] in *; [|lia]. exists n. split; [lia|done].
  - intros (n & Hn & Hch). destruct (chain_least n a Hch) as (m & Hm & Hcm & Hmin).
    apply (continuity_complete m); cbn [length]; try lia; [done..|]. intros v j Hv. by apply elem_of_nil in Hv.
Qed.
End chain.
