(* ===== verification/PeerClaims.v ===== *)
(** * The claims about canonical peers

    A projection of a verified handle keeps the canonical state and leaves a peer that
    resolves; a repaired foreign persona is gone but for its alias; generations and
    transitions only move forward. The parameters are given concrete values at the end. *)

From Stdlib Require Import Ascii.
From S2P Require Import Prelude RustStr ImError Decimal Store SyncStore Outbox Wire ReadState ReadBind ReadProps Persona PersonaProps Peers PeerProject PeerCheck PeerProps PeerProjectProps PeerMigrate PeerRoute PeerResolve PeerEdges.
Local Open Scope Z_scope.

Section claims.
Context `{WireCodec, Idna, !HexDigest, !IdnaLaws}.

(** C14: A projection of a verified handle, with or without the repair of a foreign persona,
    leads from a canonical state to a canonical state, in which the diagnostics of the
    database find no violation. *)
Theorem projection_canonical clock s o owner_did lookup home conv s' :
  canonical s o → trim o = o → is_empty o = false →
  Did_parse (hl_did lookup) = Ok (hl_did lookup) →
  project_identity clock s o owner_did lookup home = Ok (conv, s') →
  canonical s' o ∧ check s' o = Ok [].
Proof.
  intros Hc Ho Hne Hdid Hj. destruct (peer_persona lookup) as [p|] eqn:Hp.
  - destruct (projection_inv _ _ _ _ _ _ _ _ _ Hc Ho Hp Hdid Hj) as (_ & Hc' & _). split; [done|].
    by apply canonical_check.
  - unfold project_identity in Hj. by rewrite Hp in Hj.
Qed.

(** C15: After the projection both the DID and the handle of the lookup resolve to the
    persona the lookup describes and to the returned conversation, and the DID is the
    persona's current one. *)
Theorem projected_peer_resolves clock s o owner_did lookup home p conv s' :
  canonical s o → trim o = o → is_empty o = false →
  Did_parse (hl_did lookup) = Ok (hl_did lookup) → peer_persona lookup = Ok p →
  project_identity clock s o owner_did lookup home = Ok (conv, s') →
  let found := Ok (Some (mkResolved (ps_peer_persona_id p) conv)) in
  resolve_by_did s' o (hl_did lookup) = found ∧
  resolve_by_handle s' o (ps_full_handle p) = found ∧
  current_ok s' o (ps_peer_persona_id p) (hl_did lookup).
Proof.
  intros Hc Ho Hne Hdid Hp Hj found. destruct (Did_parse_inv _ _ Hdid) as [Td _].
  destruct (projection_inv _ _ _ _ _ _ _ _ _ Hc Ho Hp Hdid Hj) as (Ec & Hc' & Hst & _). unfold found. rewrite Ec.
  pose proof (peer_derived _ _ Hp) as Hd. split_and!.
  - by apply resolve_did.
  - by apply (resolve_handle s' o p (hl_did lookup)).
  - apply (st_current _ _ _ _ Hst).
Qed.

(** When the projection repairs a foreign persona, the old conversation is another one;
    afterwards it is an alias of the returned conversation, is marked as merged into it, and
    no message, route or identifier of the owner belongs to the old persona any more. *)
Theorem repair_moves_conversation clock s o owner_did lookup home old conv s' :
  canonical s o → trim o = o → Did_parse (hl_did lookup) = Ok (hl_did lookup) →
  prepare s o lookup home = Ok (Some old) →
  project_identity clock s o owner_did lookup home = Ok (conv, s') →
  lg_conversation_id old ≠ conv ∧ repaired s' o old conv.
Proof.
  intros Hc Ho Hdid Hprep Hj. destruct (peer_persona lookup) as [p|] eqn:Hp.
  - destruct (projection_inv _ _ _ _ _ _ _ _ _ Hc Ho Hp Hdid Hj) as (_ & _ & _ & _ & Hr). by apply Hr.
  - unfold project_identity in Hj. by rewrite Hp in Hj.
Qed.

(** The stored generation of a persona never decreases, and a projection that replaces
    its current DID carries a generation larger than the stored one. *)
Theorem projection_generation clock s o owner_did lookup home p conv s' :
  canonical s o → trim o = o → Did_parse (hl_did lookup) = Ok (hl_did lookup) →
  peer_persona lookup = Ok p →
  project_identity clock s o owner_did lookup home = Ok (conv, s') →
  let id := ps_peer_persona_id p in
  (∀ g0, stored_generation_of s o id = Some g0 →
     ∃ g1, stored_generation_of s' o id = Some g1 ∧ decimal_value g0 ≤ decimal_value g1) ∧
  ∀ d, current_did_of s o id = Some d → d ≠ hl_did lookup →
    ∃ g1, stored_generation_of s' o id = Some g1 ∧
      ∀ g0, stored_generation_of s o id = Some g0 → decimal_value g0 < decimal_value g1.
Proof.
  intros Hc Ho Hdid Hp Hj id.
  destruct (projection_inv _ _ _ _ _ _ _ _ _ Hc Ho Hp Hdid Hj) as (_ & _ & _ & (s1 & g & Hg & Hu & Ep) & _).
  destruct (derived_id p (peer_derived _ _ Hp)) as [Tid _].
  destruct (generation_inv _ _ _ _ _ _ Hg Ho Tid) as (-> & Hmono & Hchange).
  apply upsert_generation in Hu. cbn [pp_owner pp_persona pp_binding_generation] in Hu. rewrite !Ho in Hu.
  assert (stored_generation_of s' o id = stored_generation_of s1 o id) as -> by (unfold stored_generation_of; by rewrite Ep).
  fold id in Hu, Hmono, Hchange. rewrite Hu. split.
  - intros g0 E0. rewrite E0 in *. destruct (hl_binding_generation lookup) as [g1|]; cbn.
    + exists g1. split; [done|]. by apply Hmono.
    + by exists g0.
  - intros d Hd Hne. destruct (Hchange d Hd Hne) as (g1 & -> & Hlt). by exists g1.
Qed.

(** A verified DID transition of a route keeps the canonical state; when it succeeds the
    returned route leads to the new DID, which is then the only current one of its persona. *)
Theorem transition_keeps_canonical now s o c expected verified result s' :
  canonical s o → trim o = o → trim c = c → trim verified = verified →
  compare_and_set_verified_transition now s o c expected verified = (result, s') →
  canonical s' o ∧
  ∀ route, result = Ok route →
    route_key route = (o, c) ∧ dr_current_did route = verified ∧
    ∃ p, dr_persona_id route = Some p ∧ current_ok s' o p verified.
Proof.
  unfold compare_and_set_verified_transition, identity_conflict. intros Hc Ho Tc Tv Ht.
  destruct (transition_route _ _ _ _ _ _) as [s1|e] eqn:E; [|by injection Ht as <- <-].
  injection Ht as <- <-. pose proof E as (_ & p0 & s2 & _ & _ & _ & _ & _ & Hb & _ & Es)%transition_inv; [|done..].
  apply transition_canon in E as (Ealias & C1 & r & p & Hr & Kr & Rp & Rd & Hcur); [|done..].
  split; [done|]. intros route Hroute. apply bind_Ok in Hroute as ([x|] & Hg & Hx); [|done]. injection Hx as <-.
  apply get_route_inv in Hg as (Hx & Kx & _); [|done..].
  assert (px_read s1 = px_read s) as Erd.
  { rewrite Es. cbn. apply bind_inv in Hb as (t & -> & _); [done|]. cbn. rewrite map_update_where; [|done].
    by destruct (cn_keys _ _ _ Hc) as (_ & ? & _). }
  rewrite Erd, Ealias in Kx. destruct (cn_keys _ _ _ C1) as (_ & _ & Kn & _).
  assert (x = r) as -> by (apply (key_inj route_key (px_routes s1)); [done..|congruence]).
  split_and!; [done..|]. by exists p.
Qed.

(** C16: A transition asked for under the former id of a repaired conversation is always
    refused and changes nothing: the look-up follows the alias to the route, the update of
    the route does not. *)
Theorem alias_transition_refused now s o c target expected verified :
  canonical s o → trim o = o → trim c = c → trim verified = verified →
  resolve_alias (px_read s) o foreign_persona c = Some target → target ≠ c →
  ∃ e, compare_and_set_verified_transition now s o c expected verified = (Err e, s).
Proof.
  unfold compare_and_set_verified_transition. intros Hc Ho Tc Tv Ha Hne.
  destruct (transition_route _ _ _ _ _ _) as [s1|e] eqn:E; [|by eexists].
  apply transition_canon in E as (Ealias & _); [|done..]. by rewrite Ha in Ealias.
Qed.

(** The repair accepts a former DID exactly when at most 64 stored transitions lead from
    it to the DID of the lookup. *)
Theorem continuity_exact s o target a :
  continuity 65 s o target a [] = Ok () ↔ ∃ n, (n ≤ 64)%nat ∧ nsteps (succeeds s o) n a target.
Proof. apply (continuity_chain s o target 65 a). lia. Qed.

(** The cache of transitions only grows: a stored transition is found afterwards, no
    successor that was cached changes, and no weak assurance enters. *)
Theorem transition_cache_grows s o e s' :
  compare_and_set_verified s o e = Ok s' →
  get_successor s' o (te_predecessor e) = Ok (Some (trim (te_successor e))) ∧
  (∀ owner d x, get_successor s owner d = Ok (Some x) → get_successor s' owner d = Ok (Some x)) ∧
  ∀ x, x ∈ px_edges s' → x ∈ px_edges s ∨ strong_assurance (te_assurance x.2) = true.
Proof.
  intros Hc. apply edge_inv in Hc as (t & -> & Hs & _ & Hd & Hne & Hf & Ht). split_and!.
  - unfold get_successor, edge_required. cbv zeta. rewrite Hne. cbn [mbind result_bind]. rewrite Hd.
    cbn [mbind result_bind px_edges with_edges]. f_equal. rewrite <- Hf. by destruct (head _).
  - intros owner d x. unfold get_successor. intros Hg. apply bind_Ok in Hg as (o' & -> & Hg).
    apply bind_Ok in Hg as (d' & -> & Hg). cbn [mbind result_bind px_edges with_edges]. f_equal.
    injection Hg as Hg. rewrite <- Hg. destruct Ht as [-> |[-> _]]; [done|].
    apply fmap_Some in Hg as (y & Hy & ->). by rewrite (head_select_app _ _ _ _ Hy), Hy.
  - intros x Hx. cbn in Hx. destruct Ht as [-> |[-> _]]; [by left|].
    apply elem_of_app in Hx as [?| ->%list_elem_of_singleton]; [by left|by right].
Qed.
End claims.

(** ** Concrete values *)

Lemma canonical_empty `{WireCodec, Idna} r edges o :
  rd_aliases r = [] → db_messages (rd_db r) = [] →
  canonical (mkPeerDb r [] [] [] [] [] edges [] [] [] [] [] []) o.
Proof.
  intros Ea Em. split.
  - unfold keys_wf. cbn. rewrite Ea. split_and!; constructor.
  - by split; intros; exfalso; eapply not_elem_of_nil.
  - split; cbn; rewrite ?Ea, ?Em; by intros; exfalso; eapply not_elem_of_nil.
Qed.

(** Host names are left as they are; a digest keeps the letters and digits. *)
Definition ex_idna : Idna := {|
  domain_to_ascii_strict s := if forallb host_char (bytes s) then Some s else None |}.
Definition ex_peer_codec : WireCodec := {|
  to_canonical _ := None; sha256_hex s := of_bytes (filter (λ a, host_char a = true) (bytes s));
  time_rfc3339 _ := true; chrono_rfc3339 _ := Some 0; group_transport_profile := "p6" |}.
#[local] Existing Instance ex_idna.
#[local] Existing Instance ex_peer_codec.

#[local] Instance ex_idna_laws : IdnaLaws.
Proof.
  assert (∀ s a, domain_to_ascii_strict s = Some a → host a) as Hh.
  { intros s a. cbn. destruct (forallb host_char (bytes s)) eqn:E; [|done]. intros [= <-].
    apply Forall_forall. intros c Hc. by apply (proj1 (forallb_forall _ _) E), list_elem_of_In. }
  split; [exact Hh|]. intros s a Ha. exists (to_ascii_lowercase a). split; [|apply lower_idem].
  cbn. rewrite (proj2 (forallb_forall _ _)); [done|]. intros c Hc%list_elem_of_In.
  pose proof (host_lower a (Hh s a Ha)) as Hl. by apply (proj1 (Forall_forall _ _) Hl).
Qed.
#[local] Instance ex_digest_host : HexDigest.
Proof.
  split. intros x. unfold host. cbn. rewrite bytes_of_bytes. apply Forall_forall.
  intros c [Hc _]%list_elem_of_filter. exact Hc.
Qed.

Definition ex_clock : Clock := mkClock "1000" 1000 "2024-01-01T00:00:00Z".
Definition ex_lookup (did user : string) (generation : option string) : HandleLookupResult :=
  mkLookup "alice.example.org" did user (Some "example.org"%string) (Some "active"%string) generation None.
Definition ex_did : string := "did:wba:example.org:alice".
Definition ex_next_did : string := "did:wba:example.org:alice-2".
Definition ex_empty : PeerDb :=
  mkPeerDb (mkReadDb empty_db [] [] [] []) [] [] [] [] [] [("owner"%string, mkEdge ex_did ex_next_did Verified)]
    [] [] [] [] [] [].
Definition ex_project (s : PeerDb) (lookup : HandleLookupResult) (home : option string) : string * PeerDb :=
  unwrap_or (project_identity ex_clock s "owner" "did:wba:home.org:me" lookup home) (""%string, s).

(** The handle as an account of its domain. *)
Definition ex_first : HandleLookupResult := ex_lookup ex_did "u-1" (Some "4"%string).
Definition ex_known : PeerDb := (ex_project ex_empty ex_first None).2.
Definition ex_old_conv : string := (ex_project ex_empty ex_first None).1.
Lemma ex_empty_canonical : canonical ex_empty "owner".
Proof. by apply canonical_empty. Qed.
Lemma ex_known_ok :
  project_identity ex_clock ex_empty "owner" "did:wba:home.org:me" ex_first None = Ok (ex_old_conv, ex_known).
Proof. vm_compute. reflexivity. Qed.
Definition ex_persona (lookup : HandleLookupResult) : PeerPersona :=
  unwrap_or (peer_persona lookup) (mkPersona "" "" "" "").
Lemma ex_first_persona : peer_persona ex_first = Ok (ex_persona ex_first).
Proof. vm_compute. reflexivity. Qed.
Lemma ex_known_canonical : canonical ex_known "owner".
Proof.
  apply (projection_inv ex_clock ex_empty "owner" "did:wba:home.org:me" ex_first None (ex_persona ex_first)
           ex_old_conv ex_known); [apply ex_empty_canonical|reflexivity|apply ex_first_persona|reflexivity|
                                   apply ex_known_ok].
Qed.
(** A message of the conversation. *)
Definition ex_note : MessageRow :=
  mkMessageRow "owner" "m-1" ex_old_conv ex_old_conv "direct" "hydrated" "did:wba:home.org:me" ex_did "" 0
    (Some 3) 0 None "2024-01-01T00:00:00Z" "2024-01-01T00:00:00Z" 0 "" "text/plain"
    "did:wba:home.org:me" ex_did "resolved" "hello" "" "" 0 "".
Definition ex_busy : PeerDb :=
  with_read (mkReadDb (with_messages [ex_note] empty_db) [] [] (rd_aliases (px_read ex_known)) []) ex_known.
Lemma ex_known_row : exists_where (registry_row "owner" ex_old_conv) (px_registry ex_known) = true.
Proof. vm_compute. reflexivity. Qed.
Lemma ex_busy_canonical : canonical ex_busy "owner".
Proof.
  apply canon_read; [apply ex_known_canonical|done|].
  intros m ->%list_elem_of_singleton _ _.
  pose proof ex_known_row as (x & Hx & Kx%registry_row_true)%exists_where_true.
  exists x. split; [exact Hx|exact Kx].
Qed.

(** The same handle as a foreign one, after a verified transition of its DID. *)
Definition ex_second : HandleLookupResult := ex_lookup ex_next_did "alice.example.org" (Some "5"%string).
Definition ex_home : option string := Some "home.org"%string.
Definition ex_repaired : PeerDb := (ex_project ex_busy ex_second ex_home).2.
Definition ex_new_conv : string := (ex_project ex_busy ex_second ex_home).1.
Definition ex_legacy : LegacyPersona := mkLegacy (ps_peer_persona_id (ex_persona ex_first)) ex_old_conv.
Lemma ex_repaired_ok :
  project_identity ex_clock ex_busy "owner" "did:wba:home.org:me" ex_second ex_home = Ok (ex_new_conv, ex_repaired).
Proof. vm_compute. reflexivity. Qed.
Lemma ex_prepared : prepare ex_busy "owner" ex_second ex_home = Ok (Some ex_legacy).
Proof. vm_compute. reflexivity. Qed.
Lemma ex_second_persona : peer_persona ex_second = Ok (ex_persona ex_second).
Proof. vm_compute. reflexivity. Qed.
Lemma ex_repaired_canonical : canonical ex_repaired "owner".
Proof.
  apply (projection_inv ex_clock ex_busy "owner" "did:wba:home.org:me" ex_second ex_home (ex_persona ex_second)
           ex_new_conv ex_repaired); [apply ex_busy_canonical|reflexivity|apply ex_second_persona|reflexivity|
                                      apply ex_repaired_ok].
Qed.

Lemma projection_canonical_witness : canonical ex_repaired "owner" ∧ check ex_repaired "owner" = Ok [].
Proof.
  apply (projection_canonical ex_clock ex_busy "owner" "did:wba:home.org:me" ex_second ex_home ex_new_conv ex_repaired);
    [apply ex_busy_canonical|reflexivity|reflexivity|reflexivity|apply ex_repaired_ok].
Defined.
Lemma projected_peer_resolves_witness :
  resolve_by_did ex_repaired "owner" (hl_did ex_second)
  = Ok (Some (mkResolved (ps_peer_persona_id (ex_persona ex_second)) ex_new_conv)).
Proof.
  pose proof (projected_peer_resolves ex_clock ex_busy "owner" "did:wba:home.org:me" ex_second ex_home
    (ex_persona ex_second) ex_new_conv ex_repaired ex_busy_canonical eq_refl eq_refl eq_refl ex_second_persona
    ex_repaired_ok) as Hw.
  cbv zeta in Hw. exact (proj1 Hw).
Defined.
Lemma repair_moves_conversation_witness :
  ex_old_conv ≠ ex_new_conv ∧ repaired ex_repaired "owner" ex_legacy ex_new_conv.
Proof.
  apply (repair_moves_conversation ex_clock ex_busy "owner" "did:wba:home.org:me" ex_second ex_home ex_legacy
           ex_new_conv ex_repaired);
    [apply ex_busy_canonical|reflexivity|reflexivity|apply ex_prepared|apply ex_repaired_ok].
Defined.

(** The account of the domain under its new DID. *)
Definition ex_third : HandleLookupResult := ex_lookup ex_next_did "u-1" (Some "5"%string).
Definition ex_rotated : PeerDb := (ex_project ex_busy ex_third None).2.
Lemma ex_rotated_ok :
  project_identity ex_clock ex_busy "owner" "did:wba:home.org:me" ex_third None = Ok (ex_old_conv, ex_rotated).
Proof. vm_compute. reflexivity. Qed.
Lemma ex_third_persona : peer_persona ex_third = Ok (ex_persona ex_first).
Proof. vm_compute. reflexivity. Qed.
Lemma ex_current_did : current_did_of ex_busy "owner" (ps_peer_persona_id (ex_persona ex_first)) = Some ex_did.
Proof. vm_compute. reflexivity. Qed.
Lemma ex_dids : ex_did ≠ hl_did ex_third.
Proof. apply (bool_decide_eq_false _). vm_compute. reflexivity. Qed.
Lemma projection_generation_witness :
  ∃ g1, stored_generation_of ex_rotated "owner" (ps_peer_persona_id (ex_persona ex_first)) = Some g1 ∧
    ∀ g0, stored_generation_of ex_busy "owner" (ps_peer_persona_id (ex_persona ex_first)) = Some g0 →
      decimal_value g0 < decimal_value g1.
Proof.
  refine (proj2 (projection_generation ex_clock ex_busy "owner" "did:wba:home.org:me" ex_third None
                   (ex_persona ex_first) ex_old_conv ex_rotated ex_busy_canonical eq_refl eq_refl ex_third_persona
                   ex_rotated_ok) ex_did ex_current_did ex_dids).
Defined.

(** A transition of the repaired route, by its new and by its former id. *)
Definition ex_final_did : string := "did:wba:example.org:alice-3".
Definition ex_transition (c : string) : ImResult DirectPeerRouteRecord * PeerDb :=
  compare_and_set_verified_transition "1100" ex_repaired "owner" c ex_next_did ex_final_did.
Definition ex_route : DirectPeerRouteRecord :=
  mkRoute "owner" ex_new_conv (Some (ps_peer_persona_id (ex_persona ex_second))) (Some "example.org"%string)
    "alice.example.org" "alice.example.org" ex_final_did "1100".
Definition ex_moved : PeerDb := (ex_transition ex_new_conv).2.
Lemma ex_transition_ok :
  compare_and_set_verified_transition "1100" ex_repaired "owner" ex_new_conv ex_next_did ex_final_did
  = (Ok ex_route, ex_moved).
Proof. vm_compute. reflexivity. Qed.
Lemma ex_new_conv_trim : trim ex_new_conv = ex_new_conv.
Proof. vm_compute. reflexivity. Qed.
Lemma transition_keeps_canonical_witness :
  canonical ex_moved "owner" ∧ dr_current_did ex_route = ex_final_did.
Proof.
  destruct (transition_keeps_canonical "1100" ex_repaired "owner" ex_new_conv ex_next_did ex_final_did (Ok ex_route)
              ex_moved ex_repaired_canonical eq_refl ex_new_conv_trim eq_refl ex_transition_ok) as [Hc Hr].
  split; [exact Hc|]. exact (proj1 (proj2 (Hr ex_route eq_refl))).
Defined.
Lemma ex_alias : resolve_alias (px_read ex_repaired) "owner" foreign_persona ex_old_conv = Some ex_new_conv.
Proof. vm_compute. reflexivity. Qed.
Lemma ex_old_conv_trim : trim ex_old_conv = ex_old_conv.
Proof. vm_compute. reflexivity. Qed.
Lemma ex_convs : ex_new_conv ≠ ex_old_conv.
Proof. apply (bool_decide_eq_false _). vm_compute. reflexivity. Qed.
Lemma alias_transition_refused_witness : ∃ e, ex_transition ex_old_conv = (Err e, ex_repaired).
Proof.
  exact (alias_transition_refused "1100" ex_repaired "owner" ex_old_conv ex_new_conv ex_next_did ex_final_did
           ex_repaired_canonical eq_refl ex_old_conv_trim eq_refl ex_alias ex_convs).
Defined.

Definition ex_edge : VerifiedDidTransitionEdge := mkEdge ex_next_did ex_final_did RecoveryVerified.
Definition ex_cached : PeerDb := unwrap_or (compare_and_set_verified ex_repaired "owner" ex_edge) ex_repaired.
Lemma ex_cached_ok : compare_and_set_verified ex_repaired "owner" ex_edge = Ok ex_cached.
Proof. vm_compute. reflexivity. Qed.
Lemma transition_cache_grows_witness :
  get_successor ex_cached "owner" ex_next_did = Ok (Some (trim ex_final_did)).
Proof. exact (proj1 (transition_cache_grows ex_repaired "owner" ex_edge ex_cached ex_cached_ok)). Defined.
