(* ===== verification/ResolutionClaims.v ===== *)
(** * The claims about messages held back

    No remote message is lost: it is stored or held back, and what is held back for a peer is
    stored when its handle is projected, unless one of its messages can never be stored. *)

From S2P Require Import Prelude RustStr ImError Decimal Store SyncStore Outbox Wire Lanes ReadState ReadBind ReadIds ReadProps ReadWire Persona PersonaProps Peers PeerProps PeerProject PeerCheck PeerProjectProps PeerMigrate PeerClaims Summaries SummaryOrder SummaryProps SummaryRebuild SummaryDelta SummaryMark SummaryClaims Mentions Messages MessageProps MessageTable MessageClaims Resolution ResolutionProps.
Local Open Scope Z_scope.

Section claims.
Context `{WireCodec, JsonText, Idna, ThreadIndex}.
Implicit Types (s : PeerDb).

(** ** A projection leaves the messages held back alone *)

(** The cases of a successful statement. *)
Ltac cases_of He :=
  repeat match type of He with
  | (_ ≫= _) = Ok _ => let x := fresh "x" in let E := fresh "E" in apply bind_Ok in He as (x & E & He)
  | Ok _ = Ok _ => injection He as He; subst
  | Err _ = Ok _ => discriminate He
  | context [match ?x with _ => _ end] => destruct x eqn:?
  end.
Lemma persona_backlog s r s' : upsert_persona s r = Ok s' → px_backlog s' = px_backlog s.
Proof. unfold upsert_persona, identity_conflict. cbv zeta. intros He. cases_of He; done. Qed.
Lemma route_backlog s r s' : upsert_route s r = Ok s' → px_backlog s' = px_backlog s.
Proof. unfold upsert_route, identity_conflict. cbv zeta. intros He. cases_of He; done. Qed.
Lemma identifier_backlog now s r s' : bind_identifier now s r = Ok s' → px_backlog s' = px_backlog s.
Proof. unfold bind_identifier, identity_conflict. cbv zeta. intros He. cases_of He; done. Qed.
Lemma profile_backlog z s o i h p s' : upsert_from_verified_lookup z s o i h p = Ok s' → px_backlog s' = px_backlog s.
Proof. unfold upsert_from_verified_lookup. cbv zeta. intros He. cases_of He; done. Qed.
Lemma contacts_backlog s o p s' : bind_contacts s o p = Ok s' → px_backlog s' = px_backlog s.
Proof. unfold bind_contacts, identity_conflict. intros He. cases_of He; done. Qed.
Lemma move_persona_backlog s o a b s' : move_persona s o a b = Ok s' → px_backlog s' = px_backlog s.
Proof. unfold move_persona. cbv zeta. intros He. cases_of He; done. Qed.
Lemma move_conversation_backlog s o a b s' : move_conversation s o a b = Ok s' → px_backlog s' = px_backlog s.
Proof. unfold move_conversation. cbv zeta. intros He. cases_of He; done. Qed.
Lemma same_backlog s s' : same_tables s s' → px_backlog s' = px_backlog s.
Proof. by intros (_ & _ & _ & _ & ->). Qed.
Lemma migrate_backlog clock s o od lookup old at_time s' :
  migrate clock s o od lookup old at_time = Ok s' → px_backlog s' = px_backlog s.
Proof.
  unfold migrate. cbv zeta. intros (p & _ & He)%bind_Ok. apply bind_Ok in He as (route & _ & He).
  apply bind_Ok in He as (s1 & B1%route_backlog & He).
  apply bind_Ok in He as (s2 & B2%ensure_same%same_backlog & He).
  apply bind_Ok in He as (s3 & B3%move_persona_backlog & He).
  apply bind_Ok in He as (s4 & B4%insert_alias_same%same_backlog & He).
  apply bind_Ok in He as (s5 & B5%move_conversation_backlog & He).
  apply bind_Ok in He as (s6 & B6%mark_merged_same%same_backlog & He). injection He as <-.
  cbn in *. congruence.
Qed.
Lemma bind_identity_backlog clock s o lookup p g s' :
  bind_identity clock s o lookup p g = Ok s' → px_backlog s' = px_backlog s.
Proof.
  unfold bind_identity, bind_verified. cbv zeta. intros (s1 & B1%identifier_backlog & He)%bind_Ok.
  apply bind_Ok in He as (s2 & B2%identifier_backlog & He). apply bind_Ok in He as (s3 & B3 & He).
  apply contacts_backlog in He. assert (px_backlog s3 = px_backlog s2) as B4.
  { destruct (hl_profile lookup); [by eapply profile_backlog|by injection B3 as <-]. }
  cbn in *. congruence.
Qed.
Lemma bind_route_backlog clock s o od lookup p c s' :
  bind_route clock s o od lookup p = Ok (c, s') → px_backlog s' = px_backlog s.
Proof.
  unfold bind_route. cbv zeta. intros (route & _ & He)%bind_Ok.
  apply bind_Ok in He as (s1 & B1%route_backlog & He).
  apply bind_Ok in He as (s2 & B2%ensure_same%same_backlog & He).
  apply bind_Ok in He as (s3 & B3%insert_alias_same%same_backlog & He). injection He as _ <-. congruence.
Qed.
Lemma project_backlog clock s o od lookup home c s' :
  project_identity clock s o od lookup home = Ok (c, s') → px_backlog s' = px_backlog s.
Proof.
  unfold project_identity. cbv zeta. intros (p & _ & He)%bind_Ok. apply bind_Ok in He as (legacy & _ & He).
  apply bind_Ok in He as (g & _ & He). apply bind_Ok in He as (s1 & B1%persona_backlog & He).
  apply bind_Ok in He as (s2 & B2 & He). apply bind_Ok in He as (s3 & B3%bind_identity_backlog & He).
  apply bind_route_backlog in He. assert (px_backlog s2 = px_backlog s1) as B4.
  { destruct legacy; [by eapply migrate_backlog|by injection B2 as <-]. }
  congruence.
Qed.
Lemma persona_did s o p did :
  peer_stored s o p did → trim o = o → trim (ps_peer_persona_id p) = ps_peer_persona_id p →
  did ∈ dids_for_persona s o (ps_peer_persona_id p).
Proof.
  intros Hst Ho Hp. destruct (st_did _ _ _ _ Hst) as (i & Hi & Hk & Hid & _). injection Hk as E1 E2 E3.
  unfold dids_for_persona. apply list_elem_of_fmap. exists i. split; [done|].
  rewrite merge_sort_Permutation. apply elem_of_select_where. split; [done|].
  unfold of_persona, is_did. by rewrite Ho, Hp, E1, Hid, E2, !bool_decide_eq_true_2.
Qed.

(** ** Ingesting *)

Lemma put_backlog_keeps new t b :
  b ∈ t → ∃ b', b' ∈ put_backlog new t ∧ backlog_key b' = backlog_key b ∧ bl_record b' = bl_record b.
Proof.
  intros Hb. unfold put_backlog. cbv zeta. destruct (exists_where _ t).
  - eexists. split; [apply elem_of_update_where; by exists b|]. by destruct (backlog_row _ _ _ b).
  - exists b. split; [apply elem_of_app; by left|done].
Qed.
Lemma put_backlog_has new t : ∃ b, b ∈ put_backlog new t ∧ backlog_key b = backlog_key new.
Proof.
  unfold put_backlog. cbv zeta. destruct (exists_where _ t) eqn:E.
  - apply exists_where_true in E as (b & Hb & Kb). exists (merge_backlog new b). split.
    + apply elem_of_update_where. exists b. by rewrite Kb.
    + by apply backlog_row_key in Kb.
  - exists new. split; [apply elem_of_app; right; by left|done].
Qed.
(** The message is held back under its event. *)
Definition held_back (kind : string) (r : MessageRecord) (d : MessageDb) : Prop :=
  ∃ b, b ∈ backlog_of d ∧
       backlog_key b = (trim (rc_owner_identity_id r), trim (kind +:+ ":" +:+ trim (rc_msg_id r)),
                        trim (rc_msg_id r)).
(** It is stored, under its id or its place in a group. *)
Definition stored_from (now : string) (r : MessageRecord) (d d' : MessageDb) : Prop :=
  ∃ r' plan, canonicalize_inbound_message (ms_peers d) r = Ok r' ∧ plan_upsert now d r' = Ok plan ∧
    (up_owner plan, up_msg_id plan) ∈ message_key <$> stored_messages d'.
Definition backlog_grows (d d' : MessageDb) : Prop :=
  ∀ b, b ∈ backlog_of d → ∃ b', b' ∈ backlog_of d' ∧ backlog_key b' = backlog_key b ∧ bl_record b' = bl_record b.
#[local] Instance backlog_grows_preorder : PreOrder backlog_grows.
Proof.
  split; [by intros d b Hb; exists b|]. intros d1 d2 d3 H12 H23 b Hb. destruct (H12 b Hb) as (b2 & Hb2 & E2 & R2).
  destruct (H23 b2 Hb2) as (b3 & Hb3 & E3 & R3). exists b3. split; [done|]. split; congruence.
Qed.
Lemma canonical_ids s r r' :
  canonicalize_inbound_message s r = Ok r' →
  rc_msg_id r' = rc_msg_id r ∧ rc_owner_identity_id r' = rc_owner_identity_id r.
Proof.
  unfold canonicalize_inbound_message. intros He. destruct (is_group r).
  { destruct (Did_parse _); [by injection He as <-|done]. }
  destruct (is_mail r); [by injection He as <-|]. destruct (direct_peer_did r); [|done].
  apply bind_Ok in He as ([p|] & _ & He); [by injection He as <-|done].
Qed.
Definition counted (o : RemoteMessageIngestOutcome) (n : Z) : Prop :=
  ig_stored o + ig_backlogged o = n ∧ ig_resolution_backlogged o + ig_conflict_backlogged o = ig_backlogged o.

Lemma hold_inv (now : string) d kind r e
    (count : RemoteMessageIngestOutcome → RemoteMessageIngestOutcome) (o o' : RemoteMessageIngestOutcome) d' :
  match store now (ms_peers d) (source_of kind r) r e with
  | Ok s => (Ok (count o), on_peers s d)
  | Err e => (Err e, d)
  end = (Ok o', d') → o' = count o ∧ backlog_grows d d' ∧ held_back kind r d'.
Proof.
  unfold store, store_with_thread_binding. cbn [mbind result_bind]. intros [= <- <-]. split; [done|].
  unfold backlog_grows, held_back, backlog_of. cbn. split; [intros b; apply put_backlog_keeps|].
  match goal with |- context [put_backlog ?new ?t] => destruct (put_backlog_has new t) as (b & Hb & Kb) end.
  exists b. split; [done|]. rewrite Kb. done.
Qed.
Lemma ingest_one_inv now kind d r o o' d' n :
  ingest_one now kind d r o = (Ok o', d') → counted o n →
  counted o' (n + 1) ∧ backlog_grows d d' ∧ (stored_from now r d d' ∨ held_back kind r d').
Proof.
  unfold ingest_one. intros He [C1 C2].
  destruct (canonicalize_inbound_message (ms_peers d) r) as [r'|e] eqn:Hc.
  - destruct (upsert_message now d r') as [[[]|e] d1] eqn:Hu.
    + injection He as <- <-. split; [unfold counted; cbn; lia|].
      destruct (upsert_message_Ok _ _ _ _ _ Hu) as [touched Hrec].
      destruct (upsert_stores _ _ _ _ _ Hrec) as (B & plan & Hplan & Hk). split.
      * intros b Hb. exists b. by rewrite B.
      * left. by exists r', plan.
    + destruct (canonical_ids _ _ _ Hc) as [Ei Eo].
      destruct e; try done. apply hold_inv in He as (-> & Hg & Hh).
      split; [unfold counted; cbn; lia|]. split; [done|]. right. unfold held_back in *. by rewrite Ei, Eo in Hh.
  - destruct (is_resolution_error e); [|done]. apply hold_inv in He as (-> & Hg & Hh).
    split; [unfold counted; cbn; lia|]. split; [done|by right].
Qed.
Lemma ingest_loop_inv now kind l d o o' d' n :
  ingest_loop now kind d l o = (Ok o', d') → counted o n →
  counted o' (n + Z.of_nat (length l)) ∧ backlog_grows d d' ∧
  ∀ l1 r l2, l = l1 ++ r :: l2 →
    ∃ o1 d1 o2 d2, ingest_loop now kind d l1 o = (Ok o1, d1) ∧ ingest_one now kind d1 r o1 = (Ok o2, d2) ∧
      ingest_loop now kind d2 l2 o2 = (Ok o', d') ∧ (stored_from now r d1 d2 ∨ held_back kind r d').
Proof.
  revert d o n. induction l as [|r l IH]; intros d o n He Hn; cbn [ingest_loop] in He.
  { injection He as <- <-. split; [by rewrite Z.add_0_r|]. split; [done|]. by intros []. }
  destruct (ingest_one now kind d r o) as [[o1|e] d1] eqn:H1e; [|done].
  destruct (ingest_one_inv _ _ _ _ _ _ _ _ H1e Hn) as (C1 & G1 & S1).
  destruct (IH _ _ _ He C1) as (C2 & G2 & S2). split; [cbn [length]; by replace (n + Z.of_nat (S (length l)))
    with (n + 1 + Z.of_nat (length l)) by lia|]. split; [by etrans|].
  intros [|c l1] y l2 E; injection E as -> ->.
  - exists o, d, o1, d1. split; [done|]. split; [done|]. split; [done|].
    destruct S1 as [S1|(b & Hb & Kb)]; [by left|right]. destruct (G2 b Hb) as (b' & Hb' & E' & _).
    exists b'. split; [done|]. by rewrite E'.
  - destruct (S2 l1 y l2 eq_refl) as (o2 & d2 & o3 & d3 & R1 & R). exists o2, d2, o3, d3.
    split; [|done]. cbn [ingest_loop]. by rewrite H1e.
Qed.


(** ** Delivering *)


(** A record that names another identity on the wire than the stored row is refused. *)
Lemma upsert_conflict now d r g m :
  upsert_target d r = Ok g → target_row g (stored_messages d) = Some m →
  seq_conflict (mg_server_seq m) (rc_server_seq r) || (wire_conflict g r m && negb (confirmable d g r)) = true →
  upsert_message_record now d r = Err (MessageWireIdentityConflict (tg_msg_id g)).
Proof.
  intros Hg Hm Hclash. pose proof (compatible_is d r g m Hm) as Ha. cbv zeta in Ha. rewrite Hclash in Ha.
  unfold upsert_message_record, plan_upsert. cbv zeta. rewrite Hg. cbn [mbind result_bind]. by rewrite Ha.
Qed.

(** C26: One held message can keep a peer unknown: when the message replayed first names another
    sender, thread or sequence number than the stored message of its id, the replay fails, and
    with it the projection, which is rolled back; the message stays pending, so the next
    projection of the handle fails in the same way. *)
Theorem conflict_blocks_projection clock s o owner_did lookup home p conv s1 now fresh memo memo_ids b rest r g m :
  peer_persona lookup = Ok p → project_identity clock s o owner_did lookup home = Ok (conv, s1) →
  replay_rows s1 o (dids_for_persona s1 o (ps_peer_persona_id p)) = b :: rest →
  canonicalize_inbound_message s1 (decode_message_record b) = Ok r →
  upsert_target (mkMessageDb s1 memo memo_ids) r = Ok g → target_row g (messages_of s1) = Some m →
  seq_conflict (mg_server_seq m) (rc_server_seq r)
    || (wire_conflict g r m && negb (confirmable (mkMessageDb s1 memo memo_ids) g r)) = true →
  @project_verified_handle_in_domain _ _ (backlog_replay now fresh memo memo_ids) clock s o owner_did lookup home
  = Err (MessageWireIdentityConflict (tg_msg_id g)) ∧ b ∈ px_backlog s.
Proof.
  intros Hp Hj Hrows Hcan Hg Hm Hclash. split.
  2: { rewrite <- (project_backlog _ _ _ _ _ _ _ _ Hj).
       apply (replay_rows_in s1 o (dids_for_persona s1 o (ps_peer_persona_id p))). rewrite Hrows. by left. }
  unfold project_verified_handle_in_domain. rewrite Hp. cbn [mbind result_bind]. rewrite Hj.
  cbn [mbind result_bind fst snd replay_backlog backlog_replay]. unfold replay_for_persona. cbn [ms_peers].
  destruct (dids_for_persona s1 o (ps_peer_persona_id p)) as [|i0 is0]; [done|]. rewrite Hrows.
  assert (replay_one now fresh o (0, mkMessageDb s1 memo memo_ids) b
          = Err (MessageWireIdentityConflict (tg_msg_id g))) as Hone; [|cbn [try_fold]; by rewrite Hone].
  unfold replay_one. cbn [fst snd]. cbv zeta. cbn [ms_peers]. rewrite Hcan. cbn [mbind result_bind].
  unfold upsert_message. by rewrite (upsert_conflict now (mkMessageDb s1 memo memo_ids) r g m Hg Hm Hclash).
Qed.
End claims.

(** ** Concrete values *)

#[local] Existing Instance ex_idna.
#[local] Existing Instance ex_peer_codec.
#[local] Existing Instance ex_idna_laws.
#[local] Existing Instance ex_digest_host.
#[local] Existing Instance ex_json.
Definition ex_no_index : ThreadIndex := {|
  direct_peer_ids _ _ _ _ := Ok []; peer_scope_legacy_ids _ _ _ _ := Ok [] |}.
#[local] Existing Instance ex_no_index.
Definition ex_fresh (n : Z) : ReadInput := mkReadInput 1000 "1000" "mutation" "operation".

Lemma canonical_backlog s o t : canonical s o → canonical (with_backlog t s) o.
Proof. intros [Hk [] []]. split; [exact Hk| |]; split; assumption. Qed.

(** A message of a peer that is not known yet. *)
Definition ex_early : MessageRecord :=
  mkMessageRecord "m-9" "owner" "did:wba:home.org:me" "" "" "" "" "" 0 ex_did "did:wba:home.org:me" "" ""
    "text/plain" "hello" "" (Some 7) Hydrated "2024-01-01T00:00:00Z" "2024-01-01T00:00:00Z" false false "Alice"
    None false "".
Definition ex_ingested := ingest_remote_messages "1000" (mkMessageDb ex_empty [] []) [ex_early] "realtime_message".
Definition ex_ingest_outcome : RemoteMessageIngestOutcome := mkIngest 0 1 0 1 0.
Lemma ex_ingested_ok :
  ingest_remote_messages "1000" (mkMessageDb ex_empty [] []) [ex_early] "realtime_message"
  = (Ok ex_ingest_outcome, ex_ingested.2).
Proof. by vm_compute. Qed.
Lemma ex_held_key : backlog_key <$> backlog_of ex_ingested.2 = [("owner", "realtime_message:m-9", "m-9")]%string.
Proof. by vm_compute. Qed.

(** Its handle is looked up. *)
Definition ex_waiting : PeerDb := with_backlog (backlog_of ex_ingested.2) ex_empty.
Definition ex_delivered : string * PeerDb :=
  unwrap_or (@project_verified_handle_in_domain _ _ (backlog_replay "1000" ex_fresh [] []) ex_clock ex_waiting "owner"
               "did:wba:home.org:me" ex_first None) (""%string, ex_waiting).
Lemma ex_delivered_ok :
  @project_verified_handle_in_domain _ _ (backlog_replay "1000" ex_fresh [] []) ex_clock ex_waiting "owner"
    "did:wba:home.org:me" ex_first None = Ok (ex_delivered.1, ex_delivered.2).
Proof. rewrite <- surjective_pairing. apply unwrap_ok. by vm_compute. Qed.
Lemma ex_waiting_canonical : canonical ex_waiting "owner".
Proof. apply canonical_backlog, ex_empty_canonical. Qed.
Lemma ex_waiting_keys : NoDup (backlog_key <$> px_backlog ex_waiting).
Proof. change (NoDup (backlog_key <$> backlog_of ex_ingested.2)). rewrite ex_held_key. apply NoDup_singleton. Qed.

(** A stored message of another sender has the id of the one held back. *)
Definition ex_other : MessageRow :=
  mkMessageRow "owner" "m-9" "dm:did:wba:example.org:bob" "dm:did:wba:example.org:bob" "direct" "hydrated"
    "did:wba:home.org:me" "did:wba:example.org:bob" "" 0 (Some 3) 0 None "2024-01-01T00:00:00Z"
    "2024-01-01T00:00:00Z" 0 "" "text/plain" "did:wba:home.org:me" "did:wba:example.org:bob" "resolved" "hi" "" ""
    0 "".
Definition ex_taken : PeerDb := put_rows [ex_other] ex_waiting.
Definition ex_taken_projected : string * PeerDb :=
  unwrap_or (project_identity ex_clock ex_taken "owner" "did:wba:home.org:me" ex_first None) (""%string, ex_taken).
Lemma ex_taken_ok :
  project_identity ex_clock ex_taken "owner" "did:wba:home.org:me" ex_first None
  = Ok (ex_taken_projected.1, ex_taken_projected.2).
Proof. rewrite <- surjective_pairing. apply unwrap_ok. by vm_compute. Qed.
Definition ex_held_row : BacklogRow :=
  mkBacklog "owner" "did:wba:home.org:me" "realtime_message:m-9" "7" "realtime_message" "m-9" ex_did ex_early true
    "pending" "identity_unresolved" "canonical identity is not resolved" 1 "1000" "1000" None.
Lemma ex_taken_rows :
  replay_rows ex_taken_projected.2 "owner"
    (dids_for_persona ex_taken_projected.2 "owner" (ps_peer_persona_id (ex_persona ex_first))) = [ex_held_row].
Proof. by vm_compute. Qed.
Definition ex_early_placed : MessageRecord :=
  unwrap_or (canonicalize_inbound_message ex_taken_projected.2 (decode_message_record ex_held_row)) ex_early.
Lemma ex_early_canonical :
  canonicalize_inbound_message ex_taken_projected.2 (decode_message_record ex_held_row) = Ok ex_early_placed.
Proof. apply unwrap_ok. by vm_compute. Qed.
Definition ex_early_target : UpsertTarget :=
  unwrap_or (upsert_target (mkMessageDb ex_taken_projected.2 [] []) ex_early_placed)
    (mkTarget "" "" "" "" false (mkWireIdentity "" "" "")).
Lemma ex_early_targeted :
  upsert_target (mkMessageDb ex_taken_projected.2 [] []) ex_early_placed = Ok ex_early_target.
Proof. apply unwrap_ok. by vm_compute. Qed.
Lemma ex_early_row : target_row ex_early_target (messages_of ex_taken_projected.2) = Some ex_other.
Proof. by vm_compute. Qed.
Lemma ex_early_clash :
  seq_conflict (mg_server_seq ex_other) (rc_server_seq ex_early_placed)
    || (wire_conflict ex_early_target ex_early_placed ex_other
        && negb (confirmable (mkMessageDb ex_taken_projected.2 [] []) ex_early_target ex_early_placed)) = true.
Proof. by vm_compute. Qed.
Lemma conflict_blocks_projection_witness :
  @project_verified_handle_in_domain _ _ (backlog_replay "1000" ex_fresh [] []) ex_clock ex_taken "owner"
    "did:wba:home.org:me" ex_first None = Err (MessageWireIdentityConflict (tg_msg_id ex_early_target)) ∧
  ex_held_row ∈ px_backlog ex_taken.
Proof.
  exact (conflict_blocks_projection ex_clock ex_taken "owner" "did:wba:home.org:me" ex_first None
           (ex_persona ex_first) ex_taken_projected.1 ex_taken_projected.2 "1000" ex_fresh [] [] ex_held_row []
           ex_early_placed ex_early_target ex_other ex_first_persona ex_taken_ok ex_taken_rows ex_early_canonical
           ex_early_targeted ex_early_row ex_early_clash).
Defined.

(** ** The order of pending peers *)

(** Two peers wait: one since its event 5, the other since its event 9, with another event 10. *)
Definition ex_pending (did seq : string) : BacklogRow :=
  mkBacklog "owner" "" ("e" +:+ seq) seq "message.created" ("m" +:+ seq) did ex_early true "pending" "" "" 1 "" ""
    None.
Definition ex_queue : PeerDb :=
  with_backlog [ex_pending "did:a" "9"; ex_pending "did:a" "10"; ex_pending "did:b" "5"] ex_empty.
(** The earliest event of [did:b] comes first, yet [did:a] is resolved first: the smallest
    text of its sequence numbers is 10, compared as a text under the smallest length 1. *)
Lemma pending_peers_misordered : list_pending_peer_dids ex_queue "owner" 1 = Ok ["did:a"%string].
Proof. by vm_compute. Qed.
