(* ===== verification/CatchUp.v ===== *)
(** * Catching up a thread

    [sync_thread_after] of [internal/message_runtime/sync.rs] with the statements of
    [internal/local_state/messages.rs] and [inbound_resolution_backlog.rs] it uses: where the
    store has a gap, one page of [sync.thread_after] from there, its checks, and its
    ingestion, after which the empty rows the page accounts for are complete.

    A message of a page is the record it is stored as. What [message_runtime/read.rs] and
    [local_projection.rs] make of a page is the class [ThreadPages]; the content types of
    encrypted direct messages belong to the [anp] crate.

    The claims: a page lies behind the place it was asked from, which is before every gap of
    the thread; the empty rows it accounts for become complete; a gap the service does not
    fill keeps every later page out of reach. *)

From S2P Require Import Prelude RustStr ImError Effects Decimal Store SyncStore Outbox Wire Lanes ReadState ReadBind ReadIds ReadProps ReadWire Persona PersonaProps Peers PeerProps PeerProject PeerCheck PeerClaims Summaries SummaryProps SummaryRebuild SummaryClaims Mentions Messages MessageProps MessageClaims Resolution ResolutionProps ResolutionClaims.
Local Open Scope Z_scope.

(** ** The gaps of a thread *)

Record CatchUpHydrationProof := mkProof {
  cp_owner : string;
  cp_owner_did : string;
  cp_thread : ThreadRef;
  cp_after : Z;
  cp_through : Z;
  cp_exhausted : bool }.
Record CatchUpCursor := mkCatchUpCursor {
  cc_default_after : option Z;
  cc_gap_after : option Z }.
Definition no_cursor : CatchUpCursor := mkCatchUpCursor None None.

Definition thread_row (owner : string) (conversation_ids : list string) (m : MessageRow) : bool :=
  bool_decide (mg_owner_identity_id m = owner) && bool_decide (conversation_of m ∈ conversation_ids).
(** [CASE WHEN hydration_state <> 'hydrated' THEN COALESCE(server_seq, 0) END] *)
Definition gap_seq (m : MessageRow) : option Z :=
  if bool_decide (mg_hydration_state m = "hydrated"%string) then None
  else Some (default 0 (mg_server_seq m)).
Definition min_some (l : list Z) : option Z :=
  match l with [] => None | x :: l => Some (fold_left Z.min l x) end.
Definition has_place (m : MessageRow) : bool :=
  bool_decide (is_Some (mg_server_seq m)) || negb (bool_decide (mg_hydration_state m = "hydrated"%string)).

Section catch_up_store.
Context `{ThreadIndex}.
Implicit Types (s : PeerDb).

Definition catch_up_server_seq_for_thread_ref s (owner owner_did : string) (thread : ThreadRef)
    : ImResult CatchUpCursor :=
  owner ← required "owner_identity_id" owner;
  conversation_ids ← conversation_ids_for_thread_ref (px_read s) owner owner_did thread;
  match conversation_ids with
  | [] => Ok no_cursor
  | _ =>
      let rows := select_where (λ m, thread_row owner conversation_ids m && has_place m) (messages_of s) in
      let gap_after := (λ seq, Z.max 0 (i64_saturating_sub seq 1)) <$> min_some (omap gap_seq rows) in
      Ok (mkCatchUpCursor (coalesce gap_after (max_seq rows)) gap_after)
  end.

Definition set_hydrated (m : MessageRow) : MessageRow :=
  mkMessageRow (mg_owner_identity_id m) (mg_msg_id m) (mg_conversation_id m) (mg_thread_id m)
    (mg_wire_thread_kind m) "hydrated" (mg_owner_did m) (mg_sender_did m) (mg_group_did m)
    (mg_direction m) (mg_server_seq m) (mg_is_e2ee m) (mg_metadata m) (mg_sent_at m) (mg_stored_at m)
    (mg_is_read m) (mg_group_id m) (mg_content_type m) (mg_receiver_did m) (mg_wire_thread_ref m)
    (mg_wire_resolution_state m) (mg_content m) (mg_title m) (mg_sender_name m)
    (mg_mentions_current_user m) (mg_credential_name m).
Definition probe_row (owner : string) (conversation_ids : list string) (after : Z) (through : option Z)
    (m : MessageRow) : bool :=
  thread_row owner conversation_ids m && bool_decide (mg_hydration_state m = "legacy_probe"%string)
  && match mg_server_seq m with
     | Some seq => (after <? seq) && match through with Some last => seq <=? last | None => true end
     | None => false
     end.
Definition resolve_legacy_hydration_probes_for_thread_ref s (owner owner_did : string)
    (thread : ThreadRef) (after_server_seq through_server_seq : Z) (exhausted : bool)
    : ImResult (Z * PeerDb) :=
  owner ← required "owner_identity_id" owner;
  if negb exhausted && (through_server_seq <=? after_server_seq) then Ok (0, s)
  else
    conversation_ids ← conversation_ids_for_thread_ref (px_read s) owner owner_did thread;
    match conversation_ids with
    | [] => Ok (0, s)
    | _ =>
        let probe := probe_row owner conversation_ids after_server_seq
                       (if exhausted then None else Some through_server_seq) in
        Ok (Z.of_nat (count_where probe (messages_of s)),
            on_messages (update_where probe set_hydrated (messages_of s)) s)
    end.
End catch_up_store.

(** ** The request *)

Record SyncThreadAfterRequest := mkAfterRequest {
  aq_thread : ThreadRef;
  aq_after_server_seq : option string;
  aq_limit : option Z }.
Record SyncThreadAfterResult := mkAfterResult {
  ar_messages : list MessageRecord;
  ar_next_after_server_seq : option string;
  ar_has_more : bool;
  ar_warnings : list string }.
Record SyncThreadAfterInput := mkAfterInput {
  ai_request : SyncThreadAfterRequest;
  ai_resolved_peer_did : option string;
  ai_peer_scope : option DirectPeerScope }.

Definition sync_thread_after_limit (limit : option Z) : ImResult Z :=
  let limit := default 100 limit in
  if limit =? 0 then Err (invalid_input (Some "limit"%string) "limit must be greater than zero")
  else if 500 <? limit then
    Err (invalid_input (Some "limit"%string) "sync.thread_after limit must be less than or equal to 500")
  else Ok limit.
Definition parse_after_server_seq (value : string) : ImResult Z :=
  let invalid := Err (invalid_input (Some "after_server_seq"%string)
    ("after_server_seq must be a non-negative decimal string: " +:+ debug_str value)) in
  match parse_decimal_seq value with
  | Ok seq => if seq <=? i64_max then Ok seq else invalid
  | Err _ => invalid
  end.
Definition explicit_after_server_seq (value : option string) : ImResult (option Z) :=
  match value with
  | None => Ok None
  | Some value => seq ← parse_after_server_seq value; Ok (Some seq)
  end.
Definition effective_after_server_seq (requested : option Z) (local : CatchUpCursor) : Z :=
  match requested, cc_gap_after local with
  | Some requested, Some gap_after => Z.min requested gap_after
  | Some requested, None => requested
  | None, _ => default 0 (cc_default_after local)
  end.

(** ** The page *)

Definition sync_invalid_page {A} (message : string) : ImResult A :=
  Err (sync_error "sync.invalid_page" message).
Definition or_page {A} (o : option A) (message : string) : ImResult A :=
  ok_or o (sync_error "sync.invalid_page" message).

Class PlainContent := { is_direct_e2ee_wire_content_type : string → bool }.

Definition wire_text (message : Value) (field : string) : string :=
  trim (default EmptyString (vget message field ≫= as_str)).
Definition is_null (v : Value) : bool := match v with VNull => true | _ => false end.
Definition is_ordinary `{PlainContent} (thread_kind : string) (message : Value) : bool :=
  let security_profile := wire_text message "security_profile" in
  if contains security_profile "e2ee" || contains security_profile "mls"
     || is_direct_e2ee_wire_content_type (wire_text message "content_type") then false
  else if negb (is_empty security_profile)
          && negb (bool_decide (security_profile = "transport-protected"%string)) then false
  else if bool_decide (thread_kind = "group"%string) then
    let method := wire_text message "subject_method" in
    is_empty method || bool_decide (method = "group.send"%string)
  else
    forallb (λ field, match vget message field with Some v => is_null v | None => true end)
      ["sender_device_id"; "recipient_device_id"; "target_device_id"]%string.
Fixpoint set_field (key : string) (value : Value) (m : list (string * Value)) : list (string * Value) :=
  match m with
  | [] => []
  | (k, v) :: m => if bool_decide (k = key) then (k, value) :: m else (k, v) :: set_field key value m
  end.
(** The page with its ordinary messages, and how many others it had. *)
Definition retain_ordinary_plain_wire_messages `{PlainContent} (raw : Value) (thread_kind : string)
    : Value * Z :=
  match raw, vget raw "messages" ≫= as_array with
  | VObject m, Some messages =>
      let kept := select_where (is_ordinary thread_kind) messages in
      (VObject (set_field "messages" (VArray kept) m),
       Z.of_nat (length messages - length kept))
  | _, _ => (raw, 0)
  end.

Definition string_from_object (m : list (string * Value)) (key : string) : option string :=
  trimmed_nonempty (assoc key m ≫= as_str).
Definition decimal_i64_from_object (m : list (string * Value)) (key : string) : option Z :=
  assoc key m ≫= λ value,
  match value with
  | VNumber _ => as_i64 value
  | VString text =>
      match parse_decimal_seq text with
      | Ok seq => if seq <=? i64_max then Some seq else None
      | Err _ => None
      end
  | _ => None
  end.

Record ThreadAfterPageContract := mkContract { pc_next_after : Z; pc_has_more : bool }.

Definition check_wire_message (after_server_seq previous : Z) (item : Value) : ImResult Z :=
  message ← or_page (as_object item) "sync.thread_after message must be an object";
  _ ← or_page (coalesce (string_from_object message "id")
                 (coalesce (string_from_object message "message_id") (string_from_object message "msg_id")))
        "sync.thread_after message id is required";
  server_seq ← or_page (coalesce (decimal_i64_from_object message "server_seq")
                          (decimal_i64_from_object message "group_event_seq"))
                 "sync.thread_after message missing thread-local server_seq";
  if server_seq <=? after_server_seq then
    sync_invalid_page "sync.thread_after returned a message at or before after_server_seq"
  else if server_seq <? previous then
    sync_invalid_page "sync.thread_after messages must be ordered by server_seq ascending"
  else Ok server_seq.
Definition validate_thread_after_wire_page (raw : Value) (after_server_seq limit discarded : Z)
    : ImResult ThreadAfterPageContract :=
  m ← or_page (as_object raw) "sync.thread_after response must be an object";
  messages ← or_page (assoc "messages" m ≫= as_array) "sync.thread_after messages must be an array";
  if limit <? Z.of_nat (length messages) + discarded then
    sync_invalid_page "sync.thread_after returned more messages than requested"
  else
    last ← try_fold (check_wire_message after_server_seq) after_server_seq messages;
    next ← or_page (assoc "next_after_server_seq" m ≫= as_str)
             "sync.thread_after next_after_server_seq must be a decimal string";
    next ← parse_after_server_seq next;
    if (next <? last) || ((discarded =? 0) && negb (next =? last)) then
      sync_invalid_page "sync.thread_after next_after_server_seq does not match the scanned page"
    else
      has_more ← or_page (assoc "has_more" m ≫= as_bool) "sync.thread_after has_more must be a boolean";
      if has_more && (next <=? after_server_seq) then
        sync_invalid_page "sync.thread_after has_more page made no cursor progress"
      else Ok (mkContract next has_more).

Definition warnings_from_raw (raw : Value) : list string :=
  omap (λ v, trimmed_nonempty (as_str v)) (default [] (vget raw "warnings" ≫= as_array)).
Definition check_projected (after_server_seq : Z) (contract : ThreadAfterPageContract) (previous : Z)
    (r : MessageRecord) : ImResult Z :=
  server_seq ← or_page (rc_server_seq r) "sync.thread_after projected message missing server_seq";
  if (server_seq <=? after_server_seq) || (server_seq <? previous) then
    sync_invalid_page "sync.thread_after projected messages violate ascending cursor order"
  else if pc_next_after contract <? server_seq then
    sync_invalid_page "sync.thread_after projected message exceeds next_after_server_seq"
  else Ok server_seq.
Definition thread_after_result (messages : list MessageRecord) (after_server_seq : Z) (raw : Value)
    (limit : Z) (contract : ThreadAfterPageContract) : ImResult SyncThreadAfterResult :=
  if limit <? Z.of_nat (length messages) then
    sync_invalid_page "sync.thread_after projection exceeded the requested limit"
  else
    _ ← try_fold (check_projected after_server_seq contract) after_server_seq messages;
    Ok (mkAfterResult messages (Some (i64_to_string (pc_next_after contract))) (pc_has_more contract)
          (warnings_from_raw raw)).
Definition catch_up_hydration_proof (owner owner_did : string) (thread : ThreadRef)
    (after_server_seq : Z) (result : SyncThreadAfterResult) : ImResult CatchUpHydrationProof :=
  through ← explicit_after_server_seq (ar_next_after_server_seq result);
  Ok (mkProof owner owner_did thread after_server_seq (default after_server_seq through)
        (negb (ar_has_more result))).
Definition append_projection_backlog_warnings (warnings : list string) (o : RemoteMessageIngestOutcome)
    : list string :=
  warnings
  ++ (if 0 <? ig_resolution_backlogged o
      then ["identity_unresolved_backlog:" +:+ u64_to_string (ig_resolution_backlogged o)] else [])
  ++ (if 0 <? ig_conflict_backlogged o
      then ["message_wire_identity_conflict_backlog:" +:+ u64_to_string (ig_conflict_backlogged o)] else []).

Definition direct_thread (peer : string) (resolved_peer_did : option string) : ImResult string :=
  let resolved := default (trim peer) (trimmed_nonempty resolved_peer_did) in
  if starts_with resolved "did:" then Ok resolved else Err (PeerNotFound peer).
Definition reject_stalled_scoped_direct_page (raw : Value) (final_projectable_count : nat) : ImResult unit :=
  if (final_projectable_count =? 0)%nat && bool_decide (vget raw "has_more" ≫= as_bool = Some true) then
    Err (IdentityBindingConflict "Direct page does not match the requested peer scope")
  else Ok ().
Definition sync_thread_binding_required : ImError :=
  sync_error "SYNC_THREAD_BINDING_REQUIRED"
    "Direct sync.thread_after requires an authoritative durable thread binding".

(** ** Ingesting a page *)

Section catch_up.
Context `{WireCodec, JsonText, Idna, ThreadIndex, PlainContent}.

Definition with_probes (n : Z) (o : RemoteMessageIngestOutcome) : RemoteMessageIngestOutcome :=
  mkIngest (ig_stored o) (ig_backlogged o) n (ig_resolution_backlogged o) (ig_conflict_backlogged o).
Definition ingest_catch_up_remote_messages (now : string) (d : MessageDb) (records : list MessageRecord)
    (source_event_type : string) (proof : CatchUpHydrationProof)
    : ImResult RemoteMessageIngestOutcome * MessageDb :=
  match ingest_remote_messages now d records source_event_type with
  | (Ok o, d) =>
      if ig_backlogged o =? 0 then
        match resolve_legacy_hydration_probes_for_thread_ref (ms_peers d) (cp_owner proof)
                (cp_owner_did proof) (cp_thread proof) (cp_after proof) (cp_through proof)
                (cp_exhausted proof) with
        | Ok (n, s) => (Ok (with_probes n o), on_peers s d)
        | Err e => (Err e, d)
        end
      else (Ok o, d)
  | (Err e, d) => (Err e, d)
  end.
(** In a transaction of its own. *)
Definition store_catch_up_messages (now : string) (records : list MessageRecord)
    (source_event_type : string) (proof : CatchUpHydrationProof)
    : RunM MessageDb RemoteMessageIngestOutcome := λ d,
  match ingest_catch_up_remote_messages now d records source_event_type proof with
  | (Ok o, d') => (Ok o, d')
  | (Err e, _) => (Err e, d)
  end.

(** ** Catching up *)

(** The client and its surroundings; while it waits other tasks may change the store. *)
Record ThreadPages := mkThreadPages {
  tp_owner : string;
  tp_did : string;
  tp_now : string;
  tp_stamp : Stamp;
  tp_ensure_session : RunM MessageDb unit;
  tp_rpc : Value → RunM MessageDb Value;
  (** [page_from_raw_with_group] and [message_record_from_message] *)
  tp_group_page : Value → Z → string → ImResult (list MessageRecord);
  (** [retain_direct_messages_for_expected_peer], [annotate_direct_peer_scopes_async],
      [page_from_raw] and [message_record_from_message], with the page as they leave it *)
  tp_direct_page : Value → Z → string → option DirectPeerScope → RunM MessageDb (Value * list MessageRecord) }.
Context (rt : ThreadPages).
Notation M := (RunM MessageDb).

Definition local_catch_up_server_seq (thread : ThreadRef) : M CatchUpCursor :=
  gets (λ d, unwrap_or (catch_up_server_seq_for_thread_ref (ms_peers d) (tp_owner rt) (tp_did rt) thread)
               no_cursor).
Definition load_bound_direct_thread_key (conversation_id : string) : M (option string) :=
  loaded ← gets (λ d, load_sync_thread_binding_for_conversation (px_read (ms_peers d)) (tp_owner rt)
                        conversation_id "direct");
  binding ← lift loaded;
  mret (tb_remote_thread_key <$> binding).
(** One request and the checks of its page. *)
Definition request_page (kind thread_key : string) (after_server_seq limit : Z)
    : M (Value * ThreadAfterPageContract) :=
  params ← lift (build_thread_after_params (tp_stamp rt) (tp_did rt) thread_key
                   (i64_to_string after_server_seq) limit);
  raw ← tp_rpc rt params;
  _ ← lift (validate_thread_after_response raw kind);
  let '(raw, discarded) := retain_ordinary_plain_wire_messages raw kind in
  contract ← lift (validate_thread_after_wire_page raw after_server_seq limit discarded);
  mret (raw, contract).
(** The messages are persisted with the proof of what the page covers; [true] when a change of
    the projection is announced. *)
Definition persist_page (thread : ThreadRef) (after_server_seq : Z) (result : SyncThreadAfterResult)
    : M (RemoteMessageIngestOutcome * bool) :=
  proof ← lift (catch_up_hydration_proof (tp_owner rt) (tp_did rt) thread after_server_seq result);
  o ← store_catch_up_messages (tp_now rt) (ar_messages result) "thread_catch_up" proof;
  mret (o, (0 <? ig_stored o) || (0 <? ig_probes_resolved o)).

Definition sync_group_thread_after (group : string) (after_server_seq limit : Z)
    : M (SyncThreadAfterResult * bool) :=
  _ ← tp_ensure_session rt;
  page ← request_page "group" group after_server_seq limit;
  let '(raw, contract) := page in
  messages ← lift (tp_group_page rt raw limit group);
  result ← lift (thread_after_result messages after_server_seq raw limit contract);
  r ← persist_page (Group group) after_server_seq result;
  mret (result, r.2).
Definition sync_bound_direct_thread_after (peer : string) (resolved_peer_did : option string)
    (peer_scope : option DirectPeerScope) (after_server_seq limit : Z)
    : M (SyncThreadAfterResult * bool) :=
  _ ← tp_ensure_session rt;
  resolved ← lift (direct_thread peer resolved_peer_did);
  conversation_id ← lift (ok_or (direct_conversation_id_for_peer_scope <$> peer_scope)
                            sync_thread_binding_required);
  key ← load_bound_direct_thread_key conversation_id;
  thread_key ← lift (ok_or key sync_thread_binding_required);
  page ← request_page "direct" thread_key after_server_seq limit;
  let '(raw, contract) := page in
  projected ← tp_direct_page rt raw limit resolved peer_scope;
  let '(raw, messages) := projected in
  let beyond r := match rc_server_seq r with Some seq => after_server_seq <? seq | None => false end in
  _ ← lift (reject_stalled_scoped_direct_page raw (count_where beyond messages));
  result ← lift (thread_after_result messages after_server_seq raw limit contract);
  r ← persist_page (Direct peer) after_server_seq result;
  mret (mkAfterResult (ar_messages result) (ar_next_after_server_seq result) (ar_has_more result)
          (append_projection_backlog_warnings (ar_warnings result) r.1), r.2).
Definition sync_thread_after (input : SyncThreadAfterInput) : M (SyncThreadAfterResult * bool) :=
  let request := ai_request input in
  limit ← lift (sync_thread_after_limit (aq_limit request));
  requested ← lift (explicit_after_server_seq (aq_after_server_seq request));
  cursor ← local_catch_up_server_seq (aq_thread request);
  let after_server_seq := effective_after_server_seq requested cursor in
  match aq_thread request with
  | Direct peer =>
      sync_bound_direct_thread_after peer (ai_resolved_peer_did input) (ai_peer_scope input)
        after_server_seq limit
  | Group group => sync_group_thread_after group after_server_seq limit
  | Thread _ => lift (Err (unsupported "sync-thread-after-raw-thread"))
  end.
End catch_up.

(** ** Numbers *)

Lemma parse_after_range v n : parse_after_server_seq v = Ok n → 0 ≤ n ≤ i64_max.
Proof.
  unfold parse_after_server_seq. destruct (parse_decimal_seq v) as [k|] eqn:E; [|done].
  destruct (k <=? i64_max) eqn:Hk; [|done]. intros [= <-]. apply parse_decimal_seq_nonneg in E. lia.
Qed.
Lemma parse_after_printed n : 0 ≤ n ≤ i64_max → parse_after_server_seq (i64_to_string n) = Ok n.
Proof.
  intros Hn. unfold parse_after_server_seq, i64_to_string. rewrite (proj2 (Z.ltb_ge n 0)) by lia.
  rewrite parse_u64_to_string by (unfold i64_max, u64_max in *; lia). by rewrite (proj2 (Z.leb_le n _)) by lia.
Qed.
Lemma fold_min_le l x : fold_left Z.min l x ≤ x ∧ ∀ y, y ∈ l → fold_left Z.min l x ≤ y.
Proof.
  revert x. induction l as [|y l IH]; intros x; cbn [fold_left]; [split; [lia|by intros y Hy%elem_of_nil]|].
  destruct (IH (Z.min x y)) as [A B]. split; [lia|]. intros z [->|Hz]%elem_of_cons; [lia|by apply B].
Qed.
Lemma min_some_le l y : y ∈ l → ∃ x, min_some l = Some x ∧ x ≤ y.
Proof.
  destruct l as [|x l]; [by intros ?%elem_of_nil|]. intros Hy. eexists. split; [done|].
  destruct (fold_min_le l x) as [A B]. apply elem_of_cons in Hy as [->|Hy]; [done|by apply B].
Qed.
Lemma clamp_pred n : Z.max 0 (i64_saturating_sub n 1) ≤ Z.max 0 (n - 1).
Proof. unfold i64_saturating_sub, clamp_i64, i64_min, i64_max. lia. Qed.

(** ** Where a request starts *)

Definition incomplete (m : MessageRow) : Prop := mg_hydration_state m ≠ "hydrated"%string.

Section claims.
Context `{WireCodec, JsonText, Idna, ThreadIndex, PlainContent}.

Lemma required_trim field v : is_empty (trim v) = false → required field v = Ok (trim v).
Proof. intros Hv. unfold required, parse_non_empty. cbv zeta. by rewrite Hv. Qed.
Lemma cursor_gap s o did thread ids m :
  is_empty (trim o) = false → conversation_ids_for_thread_ref (px_read s) (trim o) did thread = Ok ids →
  m ∈ messages_of s → thread_row (trim o) ids m = true → incomplete m →
  ∃ g, catch_up_server_seq_for_thread_ref s o did thread = Ok (mkCatchUpCursor (Some g) (Some g)) ∧
       g ≤ Z.max 0 (default 0 (mg_server_seq m) - 1).
Proof.
  intros Ho Hids Hm Hrow Hinc. unfold catch_up_server_seq_for_thread_ref.
  rewrite required_trim by done. cbn [mbind result_bind]. rewrite Hids. cbn [mbind result_bind].
  destruct ids as [|i ids]; [unfold thread_row in Hrow; by rewrite andb_false_r in Hrow|]. cbv zeta.
  destruct (min_some_le (omap gap_seq (select_where (λ m, thread_row (trim o) (i :: ids) m && has_place m)
              (messages_of s))) (default 0 (mg_server_seq m))) as (x & -> & Hx).
  { apply list_elem_of_omap. exists m. split.
    - apply elem_of_select_where. split; [done|]. unfold has_place.
      by rewrite Hrow, (bool_decide_eq_false_2 (mg_hydration_state m = _)), orb_true_r.
    - unfold gap_seq. by rewrite bool_decide_eq_false_2. }
  eexists. split; [done|]. pose proof (clamp_pred x). lia.
Qed.
Lemma effective_before requested c g : cc_gap_after c = Some g → cc_default_after c = Some g →
  effective_after_server_seq requested c ≤ g.
Proof. unfold effective_after_server_seq. intros -> ->. destruct requested; cbn; lia. Qed.

(** ** What a page is *)

Definition seqs_of (l : list MessageRecord) : list Z := (λ r, default 0 (rc_server_seq r)) <$> l.
(** The messages of a page lie between the place it was asked from and its end, in order. *)
Definition page_between (after : Z) (next : Z) (l : list MessageRecord) : Prop :=
  Sorted Z.le (after :: seqs_of l) ∧
  ∀ r, r ∈ l → ∃ q, rc_server_seq r = Some q ∧ after < q ≤ next.
Lemma projected_between after c l last p :
  after ≤ p → try_fold (check_projected after c) p l = Ok last →
  Sorted Z.le (p :: seqs_of l) ∧ ∀ r, r ∈ l → ∃ q, rc_server_seq r = Some q ∧ after < q ≤ pc_next_after c.
Proof.
  revert p. induction l as [|r l IH]; intros p Hp He.
  { split; [by repeat constructor|by intros r ?%elem_of_nil]. }
  cbn [try_fold] in He. apply bind_Ok in He as (q & Hq & He). unfold check_projected in Hq.
  apply bind_Ok in Hq as (q' & Hs & Hq). destruct (rc_server_seq r) as [z|] eqn:E; [|done].
  injection Hs as <-. destruct (_ || _) eqn:E1 in Hq; [done|]. destruct (_ <? z) eqn:E2; [done|].
  injection Hq as <-. apply orb_false_iff in E1 as [E0 E1].
  destruct (IH z) as [A B]; [lia|done|]. unfold seqs_of in *. cbn [fmap list_fmap]. rewrite E.
  change (default 0 (Some z)) with z. split.
  - constructor; [done|]. constructor. lia.
  - intros r' [->|Hr]%elem_of_cons; [|by apply B]. exists z. split; [done|]. lia.
Qed.
Lemma contract_inv raw after limit discarded c :
  validate_thread_after_wire_page raw after limit discarded = Ok c →
  0 ≤ pc_next_after c ≤ i64_max ∧ (pc_has_more c = true → after < pc_next_after c).
Proof.
  unfold validate_thread_after_wire_page. intros (m & _ & He)%bind_Ok. apply bind_Ok in He as (l & _ & He).
  destruct (limit <? _); [done|]. apply bind_Ok in He as (last & _ & He). apply bind_Ok in He as (t & _ & He).
  apply bind_Ok in He as (next & Hn%parse_after_range & He). destruct (_ || _) in He; [done|].
  apply bind_Ok in He as (more & _ & He). destruct (_ && _) eqn:E in He; [done|]. injection He as <-.
  cbn [pc_next_after pc_has_more]. split; [done|]. intros ->. cbn in E. lia.
Qed.
Lemma result_inv l after raw limit c r :
  thread_after_result l after raw limit c = Ok r →
  ar_messages r = l ∧ ar_next_after_server_seq r = Some (i64_to_string (pc_next_after c)) ∧
  ar_has_more r = pc_has_more c ∧ Z.of_nat (length l) ≤ limit ∧ page_between after (pc_next_after c) l.
Proof.
  unfold thread_after_result. destruct (limit <? _) eqn:E; [done|].
  intros (last & Hl%projected_between & He)%bind_Ok; [|lia]. injection He as <-. cbn. split_and!; [done..|lia|done].
Qed.
Context (rt : ThreadPages).

(** What every successful catch-up does. *)
Definition page_from (after limit : Z) (r : SyncThreadAfterResult) : Prop :=
  ∃ next, 0 ≤ next ≤ i64_max ∧ ar_next_after_server_seq r = Some (i64_to_string next) ∧
    (ar_has_more r = true → after < next) ∧ Z.of_nat (length (ar_messages r)) ≤ limit ∧
    page_between after next (ar_messages r).
Lemma request_inv kind key after limit d raw c d' :
  request_page rt kind key after limit d = (Ok (raw, c), d') →
  ∃ raw discarded, validate_thread_after_wire_page raw after limit discarded = Ok c.
Proof.
  unfold request_page. intros (params & d1 & _ & He)%run_bind_Ok. apply run_bind_Ok in He as (w & d2 & _ & He).
  apply run_bind_Ok in He as (u & d3 & _ & He).
  destruct (retain_ordinary_plain_wire_messages w kind) as [w' discarded].
  apply run_bind_Ok in He as (c' & d4 & Hc & He). injection He as <- <- <-. injection Hc as Hc _.
  by exists w', discarded.
Qed.
Lemma page_from_inv l after raw limit c r kind key d raw0 d' :
  request_page rt kind key after limit d = (Ok (raw0, c), d') →
  thread_after_result l after raw limit c = Ok r → page_from after limit r.
Proof.
  intros (raw' & discarded & [Hn Hm]%contract_inv)%request_inv (El & En & Eh & Hlen & Hb)%result_inv.
  exists (pc_next_after c). rewrite El, Eh. done.
Qed.
Lemma group_inv group after limit d r e d' :
  sync_group_thread_after rt group after limit d = (Ok (r, e), d') → page_from after limit r.
Proof.
  unfold sync_group_thread_after. intros (u & d1 & _ & He)%run_bind_Ok.
  apply run_bind_Ok in He as ([raw c] & d2 & Hreq & He). apply run_bind_Ok in He as (l & d3 & _ & He).
  apply run_bind_Ok in He as (res & d4 & Hres & He). injection Hres as Hres _.
  apply run_bind_Ok in He as (o & d5 & _ & He). injection He as <- _ _. by eapply page_from_inv.
Qed.
Lemma direct_inv peer did scope after limit d r e d' :
  sync_bound_direct_thread_after rt peer did scope after limit d = (Ok (r, e), d') → page_from after limit r.
Proof.
  unfold sync_bound_direct_thread_after. intros (u & d1 & _ & He)%run_bind_Ok.
  apply run_bind_Ok in He as (resolved & d2 & _ & He). apply run_bind_Ok in He as (conv & d3 & _ & He).
  apply run_bind_Ok in He as (key & d4 & _ & He). apply run_bind_Ok in He as (thread_key & d5 & _ & He).
  apply run_bind_Ok in He as ([raw c] & d6 & Hreq & He). apply run_bind_Ok in He as ([raw1 l] & d7 & _ & He).
  apply run_bind_Ok in He as (v & d8 & _ & He). apply run_bind_Ok in He as (res & d9 & Hres & He).
  injection Hres as Hres _. apply run_bind_Ok in He as (o & d10 & _ & He). injection He as <- _ _.
  exact (page_from_inv _ _ _ _ _ _ _ _ _ _ _ Hreq Hres).
Qed.
Lemma after_inv input d r e d' :
  sync_thread_after rt input d = (Ok (r, e), d') →
  ∃ limit requested, sync_thread_after_limit (aq_limit (ai_request input)) = Ok limit ∧
    explicit_after_server_seq (aq_after_server_seq (ai_request input)) = Ok requested ∧
    page_from (effective_after_server_seq requested
      (unwrap_or (catch_up_server_seq_for_thread_ref (ms_peers d) (tp_owner rt) (tp_did rt)
                    (aq_thread (ai_request input))) no_cursor)) limit r.
Proof.
  unfold sync_thread_after. cbv zeta. intros (limit & d1 & Hl & He)%run_bind_Ok. injection Hl as Hl <-.
  apply run_bind_Ok in He as (requested & d2 & Hq & He). injection Hq as Hq <-.
  apply run_bind_Ok in He as (cursor & d3 & Hc & He). injection Hc as <- <-.
  exists limit, requested. split; [done|]. split; [done|].
  destruct (aq_thread (ai_request input)); [by eapply direct_inv|by eapply group_inv|done].
Qed.


(** The next request of a caller that pages on. *)
Definition page_on (input : SyncThreadAfterInput) (next : option string) : SyncThreadAfterInput :=
  mkAfterInput (mkAfterRequest (aq_thread (ai_request input)) next (aq_limit (ai_request input)))
    (ai_resolved_peer_did input) (ai_peer_scope input).

(** C29: A gap the service does not fill ends the catch-up of its thread at one page: when the
    store has a gap, the call asked for nothing before it, and the call left the store as it was,
    then the call with the cursor it returned gives the same page again although that page has
    more, and so on without end; the messages behind the page are out of reach. *)
Theorem gap_pins_catch_up input d r e g requested :
  catch_up_server_seq_for_thread_ref (ms_peers d) (tp_owner rt) (tp_did rt) (aq_thread (ai_request input))
    = Ok (mkCatchUpCursor (Some g) (Some g)) →
  explicit_after_server_seq (aq_after_server_seq (ai_request input)) = Ok requested →
  (∀ n, requested = Some n → g ≤ n) → sync_thread_after rt input d = (Ok (r, e), d) → ar_has_more r = true →
  sync_thread_after rt (page_on input (ar_next_after_server_seq r)) d = (Ok (r, e), d).
Proof.
  intros Hg Hq Hle He Hmore. pose proof He as Hi. apply after_inv in Hi as (limit & q & Hl & Hq' & next & Hn & En & Hlt & _).
  rewrite Hq in Hq'. injection Hq' as <-. rewrite Hg in Hlt. cbn [unwrap_or] in Hlt. specialize (Hlt Hmore).
  assert (effective_after_server_seq requested (mkCatchUpCursor (Some g) (Some g)) = g) as Eg.
  { unfold effective_after_server_seq. cbn. destruct requested as [n|]; [|done]. specialize (Hle n eq_refl). lia. }
  rewrite <- He. unfold sync_thread_after, page_on. cbv zeta.
  cbn [ai_request aq_thread aq_after_server_seq aq_limit ai_resolved_peer_did ai_peer_scope].
  rewrite Hl, Hq, En. unfold explicit_after_server_seq. rewrite parse_after_printed by done.
  unfold local_catch_up_server_seq, mbind, result_bind, run_bind, lift, gets. cbv beta iota.
  rewrite Hg. cbn [unwrap_or].
  rewrite Eg in Hlt |- *.
  assert (effective_after_server_seq (Some next) (mkCatchUpCursor (Some g) (Some g)) = g) as ->; [|done].
  unfold effective_after_server_seq. cbn. lia.
Qed.

(** ** Empty rows *)

Lemma hydrated_rows p t o c :
  conversation_rows (update_where p set_hydrated t) o c = conversation_rows t o c.
Proof.
  unfold conversation_rows. f_equal. unfold update_where. induction t as [|m t IH]; [done|].
  cbn [fmap list_fmap]. rewrite !select_cons.
  assert (in_conversation o c (if p m then set_hydrated m else m) = in_conversation o c m) as -> by (by destruct (p m)).
  destruct (in_conversation o c m); [|done]. cbn [fmap list_fmap]. f_equal; [by destruct (p m)|done].
Qed.
Lemma hydrated_exact p s : exact s → exact (on_messages (update_where p set_hydrated (messages_of s)) s).
Proof.
  intros Hx o c. unfold expected. change (messages_of (on_messages ?t s)) with t. rewrite hydrated_rows.
  exact (Hx o c).
Qed.
(** The sequence numbers a page accounts for. *)
Definition covers (proof : CatchUpHydrationProof) (q : Z) : Prop :=
  cp_after proof < q ∧ (cp_exhausted proof = true ∨ q ≤ cp_through proof).
Definition is_probe (m : MessageRow) : Prop := mg_hydration_state m = "legacy_probe"%string.
Lemma probe_row_true o ids proof m :
  probe_row o ids (cp_after proof) (if cp_exhausted proof then None else Some (cp_through proof)) m = true ↔
  thread_row o ids m = true ∧ is_probe m ∧ ∃ q, mg_server_seq m = Some q ∧ covers proof q.
Proof.
  unfold probe_row, covers, is_probe. rewrite !andb_true_iff, bool_decide_eq_true.
  destruct (mg_server_seq m) as [q|]; [|naive_solver]. rewrite andb_true_iff, Z.ltb_lt.
  destruct (cp_exhausted proof); rewrite ?Z.leb_le; naive_solver.
Qed.
(** What resolving the probes of a thread does. *)
Definition filled (o : string) (ids : list string) (proof : CatchUpHydrationProof) (s s' : PeerDb) : Prop :=
  px_backlog s' = px_backlog s ∧ (exact s → exact s') ∧
  ∃ p, messages_of s' = update_where p set_hydrated (messages_of s) ∧
    ∀ m, m ∈ messages_of s → p m = true ↔
      thread_row o ids m = true ∧ is_probe m ∧ ∃ q, mg_server_seq m = Some q ∧ covers proof q.
Lemma unfilled o ids proof s :
  (∀ m, thread_row o ids m = true → ∀ q, ¬ covers proof q) → filled o ids proof s s.
Proof.
  intros Hno. split; [done|]. split; [done|]. exists (λ _, false). split; [by rewrite update_where_false|].
  intros m _. split; [done|]. intros (Hr & _ & q & _ & Hc). by destruct (Hno m Hr q).
Qed.
Lemma resolve_inv s proof n s' :
  resolve_legacy_hydration_probes_for_thread_ref s (cp_owner proof) (cp_owner_did proof) (cp_thread proof)
    (cp_after proof) (cp_through proof) (cp_exhausted proof) = Ok (n, s') →
  ∀ ids, conversation_ids_for_thread_ref (px_read s) (trim (cp_owner proof)) (cp_owner_did proof)
           (cp_thread proof) = Ok ids → filled (trim (cp_owner proof)) ids proof s s'.
Proof.
  unfold resolve_legacy_hydration_probes_for_thread_ref. intros (o & Ho & He)%bind_Ok ids Hids.
  assert (o = trim (cp_owner proof)) as ->.
  { unfold required, parse_non_empty in Ho. cbv zeta in Ho. destruct (is_empty _); [done|]. by injection Ho. }
  destruct (_ && _) eqn:E in He.
  { injection He as _ <-. apply unfilled. intros m _ q [Hq1 Hq2]. apply andb_true_iff in E as [E1 E2].
    destruct (cp_exhausted proof); [done|]. destruct Hq2; [done|lia]. }
  rewrite Hids in He. cbn [mbind result_bind] in He. destruct ids as [|i ids].
  { injection He as _ <-. apply unfilled. intros m Hr. unfold thread_row in Hr. by rewrite andb_false_r in Hr. }
  injection He as _ <-. split; [done|]. split; [apply hydrated_exact|]. eexists. split; [done|].
  intros m _. apply probe_row_true.
Qed.

(** C28: The empty rows a page accounts for become complete, and only when every message of the
    page was stored: when a message of the page was held back no row changes beyond what storing
    the others does; otherwise every empty row of the thread in the range the page covers is
    complete afterwards and no other row, held message or summary is different. *)
Theorem catch_up_settles_probes now d records kind proof o d' :
  ingest_catch_up_remote_messages now d records kind proof = (Ok o, d') →
  ∃ o1 d1, ingest_remote_messages now d records kind = (Ok o1, d1) ∧ ig_backlogged o = ig_backlogged o1 ∧
    (ig_backlogged o ≠ 0 → d' = d1) ∧
    ∀ ids, ig_backlogged o = 0 →
      conversation_ids_for_thread_ref (px_read (ms_peers d1)) (trim (cp_owner proof)) (cp_owner_did proof)
        (cp_thread proof) = Ok ids →
      filled (trim (cp_owner proof)) ids proof (ms_peers d1) (ms_peers d') ∧
      ∀ m q, m ∈ stored_messages d' → thread_row (trim (cp_owner proof)) ids m = true →
        mg_server_seq m = Some q → covers proof q → ¬ is_probe m.
Proof.
  unfold ingest_catch_up_remote_messages.
  destruct (ingest_remote_messages now d records kind) as [[o1|e] d1]; [|done]. intros He. exists o1, d1.
  split; [done|]. destruct (ig_backlogged o1 =? 0) eqn:E.
  2: { injection He as <- <-. split; [done|]. split; [done|]. intros. lia. }
  destruct (resolve_legacy_hydration_probes_for_thread_ref _ _ _ _ _ _ _) as [[n s]|e] eqn:R; [|done].
  injection He as <- <-. split; [done|]. split; [cbn; lia|]. intros ids _ Hids.
  pose proof (resolve_inv _ _ _ _ R ids Hids) as Hf. split; [done|].
  destruct Hf as (_ & _ & p & Hp & Hiff). intros m q Hm Hr Hq Hc Hpr.
  unfold stored_messages in Hm. cbn in Hm. rewrite Hp in Hm. apply elem_of_update_where in Hm as (m0 & Hm0 & ->).
  destruct (p m0) eqn:Ep; [done|]. apply not_true_iff_false in Ep. apply Ep, Hiff; [done|].
  split; [done|]. split; [done|]. by exists q.
Qed.
End claims.

(** ** Concrete values *)

#[local] Existing Instance ex_idna.
#[local] Existing Instance ex_peer_codec.
#[local] Existing Instance ex_json.
#[local] Existing Instance ex_no_index.
#[local] Instance ex_plain : PlainContent := {| is_direct_e2ee_wire_content_type _ := false |}.

Definition ex_group : string := "did:wba:example.org:group".
Definition ex_row (id state : string) (seq : Z) : MessageRow :=
  mkMessageRow "owner" id "group:did:wba:example.org:group" "group:did:wba:example.org:group" "group" state
    "did:wba:home.org:me" "did:wba:example.org:bob" ex_group 0 (Some seq) 0 None "2024-01-01T00:00:00Z"
    "2024-01-01T00:00:00Z" 0 ex_group "text/plain" "" ex_group "resolved" "" "" "" 0 "".
(** An encrypted message, which a catch-up discards. *)
Definition ex_wire_message (id seq : string) : Value :=
  VObject [("thread_kind", VString "group"); ("id", VString id); ("server_seq", VString seq);
           ("security_profile", VString "group-e2ee")]%string.
Definition ex_page (next : string) (more : bool) (l : list Value) : Value :=
  VObject [("messages", VArray l); ("next_after_server_seq", VString next); ("has_more", VBool more);
           ("warnings", VArray [])]%string.
Definition ex_pages (page : Value) : ThreadPages :=
  mkThreadPages "owner" "did:wba:home.org:me" "1000" (mkStamp "" "") (mret ()) (λ _, mret page)
    (λ _ _ _, Ok []) (λ _ _ _ _, mret (VNull, [])).
Definition ex_input (after : option string) : SyncThreadAfterInput :=
  mkAfterInput (mkAfterRequest (Group ex_group) after None) None None.

(** The service has the second message in encrypted form only. *)
Definition ex_gap : MessageDb := mkMessageDb (on_messages [ex_row "m-2" "discovered" 2] ex_empty) [] [].
Definition ex_endless : ThreadPages := ex_pages (ex_page "5" true [ex_wire_message "m-2" "2"]).
Definition ex_after : SyncThreadAfterResult := mkAfterResult [] (Some "5"%string) true [].
Lemma ex_after_ok : sync_thread_after ex_endless (ex_input None) ex_gap = (Ok (ex_after, false), ex_gap).
Proof. by vm_compute. Qed.
Lemma ex_gap_ids :
  conversation_ids_for_thread_ref (px_read (ms_peers ex_gap)) (trim "owner") "did:wba:home.org:me" (Group ex_group)
  = Ok ["group:did:wba:example.org:group"%string].
Proof. by vm_compute. Qed.
Lemma ex_gap_cursor :
  catch_up_server_seq_for_thread_ref (ms_peers ex_gap) "owner" "did:wba:home.org:me" (Group ex_group)
  = Ok (mkCatchUpCursor (Some 1) (Some 1)).
Proof. by vm_compute. Qed.
Lemma gap_pins_catch_up_witness :
  sync_thread_after ex_endless (page_on (ex_input None) (Some "5"%string)) ex_gap = (Ok (ex_after, false), ex_gap).
Proof.
  exact (gap_pins_catch_up ex_endless (ex_input None) ex_gap ex_after false 1 None ex_gap_cursor eq_refl
           ltac:(discriminate) ex_after_ok eq_refl).
Defined.

(** An empty row of the time before hydration was recorded. *)
Definition ex_old : MessageDb := mkMessageDb (on_messages [ex_row "m-4" "legacy_probe" 4] ex_empty) [] [].
Definition ex_new : MessageDb := mkMessageDb (on_messages [ex_row "m-4" "hydrated" 4] ex_empty) [] [].
Definition ex_proof : CatchUpHydrationProof :=
  mkProof "owner" "did:wba:home.org:me" (Group ex_group) 3 4 true.
Lemma ex_old_ids :
  conversation_ids_for_thread_ref (px_read (ms_peers ex_old)) (trim "owner") "did:wba:home.org:me" (Group ex_group)
  = Ok ["group:did:wba:example.org:group"%string].
Proof. by vm_compute. Qed.
Lemma ex_filled_ok :
  ingest_catch_up_remote_messages "1000" ex_old [] "thread_catch_up" ex_proof = (Ok (mkIngest 0 0 1 0 0), ex_new).
Proof. by vm_compute. Qed.
Lemma catch_up_settles_probes_witness :
  filled "owner" ["group:did:wba:example.org:group"%string] ex_proof (ms_peers ex_old) (ms_peers ex_new).
Proof.
  destruct (catch_up_settles_probes "1000" ex_old [] "thread_catch_up" ex_proof _ _ ex_filled_ok)
    as (o1 & d1 & Hi & _ & _ & Hf).
  injection Hi as <- <-. exact (proj1 (Hf _ eq_refl ex_old_ids)).
Defined.
(** The message of the row was on the page, encrypted; it was discarded, not held back, so the
    row counts as accounted for and is shown empty. *)
Lemma discarded_probe_promoted :
  sync_thread_after (ex_pages (ex_page "4" false [ex_wire_message "m-4" "4"])) (ex_input (Some "3"%string)) ex_old
  = (Ok (mkAfterResult [] (Some "4"%string) false [], true), ex_new).
Proof. by vm_compute. Qed.
