(* ===== verification/Groups.v ===== *)
(** * The store of groups

    [internal/local_state/groups.rs]: filing a group, leaving it, and its encryption summary.
    The security profiles a group was filed with outlive a record that does not name them.

    A nullable text column holds the empty text for NULL; a metadata text is the JSON value it
    holds, absent when it is empty. The members are the rows [Peers] has of them; replacing
    them and the queries are left out.

    The claims: a group keeps the security profile it was filed with until a record names
    another, and a group that was left stays left until a record says otherwise; a row without
    metadata refuses every record that brings some. *)

From Stdlib Require Import Ascii.
From S2P Require Import Prelude RustStr ImError Decimal Store SyncStore Outbox Wire Lanes ReadState ReadBind ReadIds ReadProps ReadWire Persona Peers PeerProps PeerProject PeerCheck PeerClaims Summaries Mentions Messages.
Local Open Scope Z_scope.

Record GroupRecord := mkGroupRecord {
  gp_owner_identity_id : string;
  gp_owner_did : string;
  gp_group_id : string;
  gp_group_did : string;
  gp_name : string;
  gp_group_mode : string;
  gp_slug : string;
  gp_description : string;
  gp_goal : string;
  gp_rules : string;
  gp_message_prompt : string;
  gp_doc_url : string;
  gp_group_owner_did : string;
  gp_group_owner_handle : string;
  gp_my_role : string;
  gp_membership_status : string;
  gp_join_enabled : option bool;
  gp_join_code : string;
  gp_join_code_expires_at : string;
  gp_member_count : option Z;
  gp_last_synced_seq : option Z;
  gp_last_read_seq : option Z;
  gp_last_message_at : string;
  gp_remote_created_at : string;
  gp_remote_updated_at : string;
  gp_stored_at : string;
  gp_metadata : option Value;
  gp_credential_name : string }.
Record GroupE2eeSummaryRecord := mkE2eeSummary {
  ge_record : GroupRecord;
  ge_epoch : option string;
  ge_group_state_version : option string }.

Definition required_owner_identity_id (value : string) : ImResult string := read_required "owner_identity_id" value.
Definition group_default (value fallback : string) : string := if is_empty (trim value) then fallback else value.
(** [COALESCE(excluded.column, groups.column)] of a text *)
Definition coalesce_text (new cur : string) : string := if is_empty new then cur else new.
Definition group_row (owner group_id : string) (g : GroupRow) : bool :=
  bool_decide (gr_owner g = owner) && bool_decide (gr_group_id g = group_id).

(** ** The security profile of a group *)

Definition absent (v : option Value) : bool := match v with None | Some VNull => true | Some _ => false end.
Definition text_value (v : option Value) : option Value := v ≫= λ v, match v with VString _ => Some v | _ => None end.
Definition security_keys : list string := ["message_security_profile"; "required_security_profile"].
Definition keep_key (existing m : Obj) (key : string) : Obj :=
  if absent (assoc key m) then
    match text_value (assoc key existing) with Some v => object_insert m (key, v) | None => m end
  else m.
Definition keep_policy (existing m : Obj) : Obj :=
  match text_value (assoc "group_policy" existing ≫= λ policy, vget policy "message_security_profile") with
  | None => m
  | Some profile =>
      match assoc "group_policy" m with
      | Some (VObject policy) =>
          if absent (assoc "message_security_profile" policy)
          then object_insert m ("group_policy"%string,
                 VObject (object_insert policy ("message_security_profile"%string, profile)))
          else m
      | None | Some VNull =>
          object_insert m ("group_policy"%string, VObject [("message_security_profile"%string, profile)])
      | Some _ => m
      end
  end.
(** The stored metadata is read as a text that is not NULL, so a group without metadata is an
    error here. *)
Definition preserve_group_security_metadata (s : PeerDb) (owner group_id : string) (incoming : option Value)
    : ImResult (option Value) :=
  match incoming, head (select_where (group_row owner group_id) (px_groups s)) with
  | Some (VObject m), Some g =>
      match gr_metadata g with
      | None => Err (local_state_unavailable "invalid column type")
      | Some (VObject existing) =>
          Ok (Some (VObject (keep_policy existing (fold_left (keep_key existing) security_keys m))))
      | Some _ => Ok incoming
      end
  | _, _ => Ok incoming
  end.

(** ** Filing *)

Definition new_group (now owner : string) (metadata : option Value) (r : GroupRecord) : GroupRow :=
  mkGroup owner (trim (gp_group_id r)) (trim (gp_group_did r))
    (coalesce_text (trim (gp_membership_status r)) "active") (trim (gp_owner_did r)) (trim (gp_name r))
    (group_default (gp_group_mode r) "general") (trim (gp_slug r)) (trim (gp_description r)) (trim (gp_goal r))
    (trim (gp_rules r)) (trim (gp_message_prompt r)) (trim (gp_doc_url r)) (trim (gp_group_owner_did r))
    (trim (gp_group_owner_handle r)) (trim (gp_my_role r)) (gp_join_enabled r) (trim (gp_join_code r))
    (trim (gp_join_code_expires_at r)) (gp_member_count r) (gp_last_synced_seq r) (gp_last_read_seq r)
    (trim (gp_last_message_at r)) (trim (gp_remote_created_at r)) (trim (gp_remote_updated_at r))
    (group_default (gp_stored_at r) now) metadata (trim (gp_credential_name r)).
(** [ON CONFLICT(owner_identity_id, group_id) DO UPDATE SET]; without a membership status in the
    record the stored one stays. *)
Definition merge_group (named_status : bool) (new cur : GroupRow) : GroupRow :=
  mkGroup (gr_owner cur) (gr_group_id cur) (coalesce_text (gr_group_did new) (gr_group_did cur))
    (if named_status then gr_membership_status new else gr_membership_status cur) (gr_owner_did new)
    (coalesce_text (gr_name new) (gr_name cur)) (gr_group_mode new) (coalesce_text (gr_slug new) (gr_slug cur))
    (coalesce_text (gr_description new) (gr_description cur)) (coalesce_text (gr_goal new) (gr_goal cur))
    (coalesce_text (gr_rules new) (gr_rules cur)) (coalesce_text (gr_message_prompt new) (gr_message_prompt cur))
    (coalesce_text (gr_doc_url new) (gr_doc_url cur))
    (coalesce_text (gr_group_owner_did new) (gr_group_owner_did cur))
    (coalesce_text (gr_group_owner_handle new) (gr_group_owner_handle cur))
    (coalesce_text (gr_my_role new) (gr_my_role cur)) (coalesce (gr_join_enabled new) (gr_join_enabled cur))
    (coalesce_text (gr_join_code new) (gr_join_code cur))
    (coalesce_text (gr_join_code_expires_at new) (gr_join_code_expires_at cur))
    (coalesce (gr_member_count new) (gr_member_count cur))
    (coalesce (gr_last_synced_seq new) (gr_last_synced_seq cur))
    (coalesce (gr_last_read_seq new) (gr_last_read_seq cur))
    (coalesce_text (gr_last_message_at new) (gr_last_message_at cur))
    (coalesce_text (gr_remote_created_at new) (gr_remote_created_at cur))
    (coalesce_text (gr_remote_updated_at new) (gr_remote_updated_at cur)) (gr_stored_at new)
    (coalesce (gr_metadata new) (gr_metadata cur)) (gr_credential_name new).
Definition put_group (merge : GroupRow → GroupRow → GroupRow) (new : GroupRow) (t : list GroupRow) : list GroupRow :=
  let key := group_row (gr_owner new) (gr_group_id new) in
  if exists_where key t then update_where key (merge new) t else t ++ [new].

Section groups.
Context `{WireCodec, Idna}.
Implicit Types (s : PeerDb).

Definition is_gone (status : string) : bool :=
  bool_decide (to_ascii_lowercase (trim status) ∈ ["left"; "removed"; "inactive"; "non_member"]%string).
Definition ensure_active_group_conversation s (owner group_id : string) : ImResult PeerDb :=
  match head (select_where (group_row owner group_id) (px_groups s)) with
  | None => Ok s
  | Some g =>
      let group_did := sql_trim (gr_group_did g) in
      if is_gone (coalesce_text (sql_trim (gr_membership_status g)) "active") || negb (is_ok (Did_parse group_did))
      then Ok s
      else ensure_conversation s
             (mkRegistryRecord owner (gr_owner_did g) (group_conversation_id group_did) "group" group_did
                (coalesce_text (sql_trim (gr_last_message_at g)) (gr_stored_at g)))
  end.
Definition upsert_group (now : string) s (r : GroupRecord) : ImResult PeerDb :=
  owner ← required_owner_identity_id (gp_owner_identity_id r);
  if is_empty (trim (gp_owner_did r)) || is_empty (trim (gp_group_id r)) then
    Err (invalid_input None "owner_did and group_id are required")
  else
    metadata ← preserve_group_security_metadata s owner (trim (gp_group_id r)) (gp_metadata r);
    let named := negb (is_empty (trim (gp_membership_status r))) in
    ensure_active_group_conversation
      (with_groups (put_group (merge_group named) (new_group now owner metadata r) (px_groups s)) s)
      owner (trim (gp_group_id r)).

(** ** Leaving *)

(** The columns the statement does not name are as they were, or NULL. *)
Definition left_group (now owner owner_did group_id group_did credential_name : string) : GroupRow :=
  mkGroup owner group_id group_did "left" owner_did "" "general" "" "" "" "" "" "" "" "" "" None "" "" None None
    None "" "" "" now None credential_name.
Definition merge_left (new cur : GroupRow) : GroupRow :=
  mkGroup (gr_owner cur) (gr_group_id cur) (coalesce_text (gr_group_did new) (gr_group_did cur)) "left"
    (gr_owner_did new) (gr_name cur) (gr_group_mode cur) (gr_slug cur) (gr_description cur) (gr_goal cur)
    (gr_rules cur) (gr_message_prompt cur) (gr_doc_url cur) (gr_group_owner_did cur) (gr_group_owner_handle cur) ""
    (gr_join_enabled cur) (gr_join_code cur) (gr_join_code_expires_at cur) (gr_member_count cur)
    (gr_last_synced_seq cur) (gr_last_read_seq cur) (gr_last_message_at cur) (gr_remote_created_at cur)
    (gr_remote_updated_at cur) (gr_stored_at new) (gr_metadata cur) (gr_credential_name new).
Definition mark_group_left (now : string) s (owner owner_did group_id group_did credential_name : string)
    : ImResult PeerDb :=
  let owner_did := trim owner_did in
  let group_id := trim group_id in
  if is_empty owner_did || is_empty group_id then
    Err (invalid_input None "owner_did and group_id are required")
  else
    owner ← required_owner_identity_id owner;
    let s := with_groups (put_group merge_left
               (left_group now owner owner_did group_id (trim group_did) (trim credential_name)) (px_groups s)) s in
    let s := with_members (delete_where (λ m, bool_decide (mb_owner m = owner) && bool_decide (mb_group_id m = group_id))
               (px_members s)) s in
    let s := deactivate now s owner ("group:" +:+ group_id) in
    Ok (if is_empty (trim group_did) then s else deactivate now s owner ("group:" +:+ trim group_did)).

(** ** The encryption summary *)

(** [str::parse::<u64>]: digits, with a plus sign before them if any. *)
Definition parse_u64 (value : string) : option Z :=
  let value := trim value in
  let digits := match value with String "+"%char rest => rest | _ => value end in
  if is_empty digits || negb (all_digits digits) then None else parse_u64_digits digits.
Fixpoint leading_digits (l : list ascii) : list ascii :=
  match l with a :: l => if is_ascii_digit a then a :: leading_digits l else [] | [] => [] end.
Definition parse_version_ordinal (value : string) : option Z :=
  match parse_u64 value with
  | Some n => Some n
  | None =>
      let digits := of_bytes (reverse (leading_digits (reverse (bytes value)))) in
      if is_empty digits then None else parse_u64_digits digits
  end.
Definition compare_group_state_versions (next existing : option string) : option comparison :=
  match trimmed_nonempty next, trimmed_nonempty existing with
  | Some next, Some existing =>
      match parse_version_ordinal next, parse_version_ordinal existing with
      | Some next, Some existing => Some (next ?= existing)
      | _, _ => if bool_decide (next = existing) then Some Eq else None
      end
  | _, _ => None
  end.
Definition metadata_string (value : Value) (path : list string) : option string :=
  trimmed_nonempty (pointer value path ≫= as_str).
Definition should_apply_group_e2ee_summary (existing_metadata : option Value)
    (next_epoch next_group_state_version : option string) : bool :=
  match existing_metadata with
  | None => true
  | Some existing =>
      let by_version :=
        let existing_version := coalesce (metadata_string existing ["group_state_version"%string])
                                  (metadata_string existing ["group_e2ee"; "group_state_version"]%string) in
        match compare_group_state_versions next_group_state_version existing_version with
        | Some Lt => false
        | Some _ => true
        | None => negb (bool_decide (is_Some existing_version))
        end in
      match metadata_string existing ["group_e2ee"; "epoch"]%string ≫= parse_u64, next_epoch ≫= parse_u64 with
      | Some existing, Some next =>
          if next <? existing then false else if existing <? next then true else by_version
      | _, _ => by_version
      end
  end.
(** [get_group_snapshot_for_owner_identity]: by its id or its DID. *)
Definition group_snapshot s (owner group_id : string) : option GroupRow :=
  head (select_where (λ g, bool_decide (gr_owner g = owner)
                           && (bool_decide (gr_group_id g = group_id) || bool_decide (gr_group_did g = group_id)))
          (px_groups s)).
Definition upsert_group_e2ee_summary (now : string) s (summary : GroupE2eeSummaryRecord) : ImResult PeerDb :=
  let r := ge_record summary in
  owner ← required_owner_identity_id (gp_owner_identity_id r);
  if is_empty (trim (gp_owner_did r)) || is_empty (trim (gp_group_id r)) then
    Err (invalid_input None "owner_did and group_id are required")
  else
    match group_snapshot s owner (trim (gp_group_id r)) with
    | Some existing =>
        if should_apply_group_e2ee_summary (gr_metadata existing) (ge_epoch summary) (ge_group_state_version summary)
        then upsert_group now s r else Ok s
    | None => upsert_group now s r
    end.
End groups.

(** ** Objects *)

Lemma assoc_replace m k (v : Value) k' :
  assoc k' ((λ p : string * Value, if bool_decide (p.1 = k) then (k, v) else p) <$> m)
  = if bool_decide (k' = k) then (λ _, v) <$> assoc k m else assoc k' m.
Proof.
  induction m as [|[a x] m IH]; cbn [fmap list_fmap assoc fst]; [by destruct (bool_decide _)|].
  destruct (decide (a = k)) as [->|Ha].
  - rewrite (bool_decide_eq_true_2 (k = k)) by done. cbn [assoc]. rewrite IH.
    destruct (decide (k' = k)) as [->|Hk]; [by rewrite !bool_decide_eq_true_2|by rewrite !(bool_decide_eq_false_2 (k' = k))].
  - rewrite (bool_decide_eq_false_2 (a = k)), (bool_decide_eq_false_2 (k = a)) by congruence. cbn [assoc]. rewrite IH.
    destruct (decide (k' = a)) as [->|Hk]; [|by rewrite (bool_decide_eq_false_2 (k' = a))].
    by rewrite (bool_decide_eq_true_2 (a = a)), (bool_decide_eq_false_2 (a = k)).
Qed.
Lemma assoc_snoc m k (v : Value) k' :
  assoc k m = None → assoc k' (m ++ [(k, v)]) = if bool_decide (k' = k) then Some v else assoc k' m.
Proof.
  induction m as [|[a x] m IH]; cbn [app assoc]; [done|]. destruct (decide (k = a)) as [->|Hne].
  { by rewrite bool_decide_eq_true_2. }
  rewrite (bool_decide_eq_false_2 (k = a)) by done. intros E. rewrite IH by done.
  destruct (decide (k' = a)) as [->|Hk]; [|by rewrite (bool_decide_eq_false_2 (k' = a))].
  by rewrite (bool_decide_eq_true_2 (a = a)), (bool_decide_eq_false_2 (a = k)).
Qed.
Lemma assoc_insert m k (v : Value) k' :
  assoc k' (object_insert m (k, v)) = if bool_decide (k' = k) then Some v else assoc k' m.
Proof.
  unfold object_insert, contains_key. cbn [fst]. case_bool_decide as E.
  - rewrite assoc_replace. destruct E as [x ->]. done.
  - apply assoc_snoc, eq_None_not_Some, E.
Qed.

(** ** The security profile *)

Definition security_paths : list (list string) :=
  [["message_security_profile"]; ["required_security_profile"]; ["group_policy"; "message_security_profile"]]%string.
(** The record does not name a profile there. *)
Definition silent (path : list string) (m : Obj) : Prop :=
  match path with
  | [key] => absent (assoc key m) = true
  | key :: rest => absent (assoc key m) = true ∨ ∃ policy, assoc key m = Some (VObject policy) ∧ absent (pointer (VObject policy) rest) = true
  | [] => False
  end.
Lemma keep_key_at existing m k key :
  assoc k (keep_key existing m key) =
  if bool_decide (k = key) then
    if absent (assoc key m) then coalesce (text_value (assoc key existing)) (assoc key m) else assoc key m
  else assoc k m.
Proof.
  unfold keep_key. destruct (decide (k = key)) as [->|Hne].
  - rewrite bool_decide_eq_true_2 by done. destruct (absent _); [|done].
    destruct (text_value _); [|done]. by rewrite assoc_insert, bool_decide_eq_true_2.
  - rewrite bool_decide_eq_false_2 by done. destruct (absent _); [|done].
    destruct (text_value _); [|done]. by rewrite assoc_insert, bool_decide_eq_false_2.
Qed.
Lemma keep_keys_at existing m k :
  k ∉ security_keys → assoc k (fold_left (keep_key existing) security_keys m) = assoc k m.
Proof.
  intros Hk. cbn [fold_left security_keys]. rewrite !keep_key_at.
  rewrite !bool_decide_eq_false_2; [done|intros ->; apply Hk; unfold security_keys; set_solver..].
Qed.
Lemma keep_policy_other existing m k : k ≠ "group_policy"%string → assoc k (keep_policy existing m) = assoc k m.
Proof.
  intros Hk. unfold keep_policy. destruct (text_value _) as [v|]; [|done].
  destruct (assoc "group_policy" m) as [[]|]; try done; try (destruct (absent _); [|done]);
    by rewrite assoc_insert, bool_decide_eq_false_2.
Qed.
Lemma keep_policy_kept existing m v :
  pointer (VObject existing) ["group_policy"; "message_security_profile"]%string = Some (VString v) →
  silent ["group_policy"; "message_security_profile"]%string m →
  pointer (VObject (keep_policy existing m)) ["group_policy"; "message_security_profile"]%string = Some (VString v).
Proof.
  intros He Hs. unfold keep_policy.
  assert (assoc "group_policy" existing ≫= (λ policy, vget policy "message_security_profile") = Some (VString v)) as ->.
  { cbn [pointer vget as_object mbind option_bind] in He. destruct (assoc "group_policy" existing) as [p|]; [|done].
    cbn [mbind option_bind pointer] in *. by destruct (vget p "message_security_profile"). }
  cbn [text_value mbind option_bind].
  destruct (assoc "group_policy" m) as [p|] eqn:Ep.
  - destruct Hs as [Ha|(policy & Hp & Ha)].
    + rewrite Ep in Ha. destruct p; try done.
      cbn [pointer vget as_object mbind option_bind]. by rewrite assoc_insert.
    + rewrite Ep in Hp. injection Hp as ->. cbn [pointer vget as_object mbind option_bind] in Ha.
      assert (absent (assoc "message_security_profile" policy) = true) as ->.
      { by destruct (assoc "message_security_profile" policy). }
      cbn [pointer vget as_object mbind option_bind]. rewrite assoc_insert, bool_decide_eq_true_2 by done.
      cbn [mbind option_bind pointer vget as_object]. by rewrite assoc_insert.
  - cbn [pointer vget as_object mbind option_bind]. by rewrite assoc_insert.
Qed.
Lemma preserved path existing m v :
  path ∈ security_paths → pointer (VObject existing) path = Some (VString v) → silent path m →
  pointer (VObject (keep_policy existing (fold_left (keep_key existing) security_keys m))) path = Some (VString v).
Proof.
  intros Hp He Hs. unfold security_paths in Hp. rewrite !elem_of_cons in Hp.
  assert (∀ key, key ∈ security_keys → path = [key] →
    pointer (VObject (keep_policy existing (fold_left (keep_key existing) security_keys m))) path = Some (VString v))
    as Hkey.
  { intros key Hk ->. cbn [pointer vget as_object mbind option_bind] in *.
    assert (assoc key existing = Some (VString v)) as Hx by (by destruct (assoc key existing)).
    assert (key ≠ "group_policy"%string) as Hg by (intros ->; revert Hk; unfold security_keys; set_solver).
    rewrite keep_policy_other by done. cbn [fold_left security_keys].
    unfold security_keys in Hk. rewrite !elem_of_cons in Hk. cbn [silent] in Hs.
    destruct Hk as [->|[->|Hk]]; [..|by apply elem_of_nil in Hk].
    - by rewrite keep_key_at, bool_decide_eq_false_2, keep_key_at, bool_decide_eq_true_2, Hs, Hx by done.
    - rewrite keep_key_at, bool_decide_eq_true_2 by done.
      by rewrite !keep_key_at, !bool_decide_eq_false_2, Hs, Hx by done. }
  destruct Hp as [->|[->|[->|Hp]]].
  - by apply (Hkey "message_security_profile"%string); [left|].
  - by apply (Hkey "required_security_profile"%string); [right; left|].
  - apply keep_policy_kept; [done|]. cbn [silent] in *. by rewrite keep_keys_at by (unfold security_keys; set_solver).
  - by apply elem_of_nil in Hp.
Qed.

Section claims.
Context `{WireCodec, Idna}.
Implicit Types (s : PeerDb).

Definition group_at s (owner group_id : string) : option GroupRow :=
  head (select_where (group_row owner group_id) (px_groups s)).
Lemma ensure_groups s r s' :
  ensure_conversation s r = Ok s' → px_groups s' = px_groups s ∧ px_members s' = px_members s.
Proof.
  unfold ensure_conversation. intros (u & _ & He)%bind_Ok. destruct (canonical_identity_for_record s r) as [[p g] rs].
  unfold put_registry in He. cbv zeta in He. destruct (exists_where _ _) in He; [done|]. by injection He as <-.
Qed.
Lemma ensure_active_groups s o i s' :
  ensure_active_group_conversation s o i = Ok s' → px_groups s' = px_groups s ∧ px_members s' = px_members s.
Proof.
  unfold ensure_active_group_conversation. destruct (head _) as [g|]; [|by intros [= <-]]. cbv zeta.
  destruct (_ || _); [by intros [= <-]|]. apply ensure_groups.
Qed.
Lemma put_group_at merge new t g :
  (∀ g, gr_owner (merge new g) = gr_owner g ∧ gr_group_id (merge new g) = gr_group_id g) →
  head (select_where (group_row (gr_owner new) (gr_group_id new)) t) = Some g →
  head (select_where (group_row (gr_owner new) (gr_group_id new)) (put_group merge new t)) = Some (merge new g).
Proof.
  intros Hm Hh. unfold put_group. cbv zeta. destruct (exists_where _ t) eqn:E.
  - rewrite head_update_same, Hh; [done|]. intros x. unfold group_row. by destruct (Hm x) as [-> ->].
  - by rewrite (head_select_None _ _ E) in Hh.
Qed.
Lemma put_group_has merge new t :
  (∀ g, gr_owner (merge new g) = gr_owner g ∧ gr_group_id (merge new g) = gr_group_id g) →
  ∃ g, head (select_where (group_row (gr_owner new) (gr_group_id new)) (put_group merge new t)) = Some g ∧
       (g = new ∨ ∃ cur, g = merge new cur).
Proof.
  intros Hm. destruct (head (select_where (group_row (gr_owner new) (gr_group_id new)) t)) as [cur|] eqn:Hh.
  - exists (merge new cur). split; [by apply put_group_at|right; by exists cur].
  - exists new. split; [|by left]. unfold put_group. cbv zeta. destruct (exists_where _ t) eqn:E.
    { destruct (head_select_Some _ _ E) as [x Hx]. congruence. }
    rewrite head_app_new, Hh. unfold group_row. by rewrite !bool_decide_eq_true_2.
Qed.
Lemma upsert_group_inv now s r s' :
  upsert_group now s r = Ok s' →
  let o := trim (gp_owner_identity_id r) in
  let i := trim (gp_group_id r) in
  ∃ metadata s1, preserve_group_security_metadata s o i (gp_metadata r) = Ok metadata ∧
    s1 = with_groups (put_group (merge_group (negb (is_empty (trim (gp_membership_status r)))))
           (new_group now o metadata r) (px_groups s)) s ∧
    ensure_active_group_conversation s1 o i = Ok s'.
Proof.
  unfold upsert_group, required_owner_identity_id, read_required. cbv zeta. intros (o & Ho & He)%bind_Ok.
  destruct (is_empty (trim (gp_owner_identity_id r))); [done|]. injection Ho as <-.
  destruct (_ || _) in He; [done|]. apply bind_Ok in He as (metadata & Hm & He). by eexists metadata, _.
Qed.


Lemma archived_inactive now owner c t x :
  x ∈ update_where (registry_row owner c) (archive now) t → registry_row owner c x = true → rg_is_active x = false.
Proof.
  intros (y & Hy & ->)%elem_of_update_where. destruct (registry_row owner c y) eqn:E; [done|]. congruence.
Qed.
Lemma mark_left_inv now s owner owner_did group_id group_did credential_name s1 :
  mark_group_left now s owner owner_did group_id group_did credential_name = Ok s1 →
  ∃ g, group_at s1 (trim owner) (trim group_id) = Some g ∧ gr_membership_status g = "left"%string ∧
    gr_my_role g = EmptyString ∧
    (∀ m, m ∈ px_members s1 → (mb_owner m, mb_group_id m) ≠ (trim owner, trim group_id)) ∧
    ∀ x, x ∈ px_registry s1 → registry_row (trim owner) (trim ("group:" +:+ trim group_id)) x = true →
      rg_is_active x = false.
Proof.
  unfold mark_group_left. cbv zeta. destruct (_ || _); [done|]. intros (o & Ho & Hl)%bind_Ok.
  unfold required_owner_identity_id, read_required in Ho. cbv zeta in Ho.
  destruct (is_empty (trim owner)); [done|]. injection Ho as <-.
  set (new := left_group now (trim owner) (trim owner_did) (trim group_id) (trim group_did) (trim credential_name)) in *.
  destruct (put_group_has merge_left new (px_groups s)) as (g & Hg & Hgs); [done|]. exists g.
  assert (px_groups s1 = put_group merge_left new (px_groups s)) as Egs
    by (destruct (is_empty _) in Hl; by injection Hl as <-).
  unfold group_at. rewrite Egs. split; [exact Hg|].
  split; [by destruct Hgs as [->|[cur ->]]|]. split; [by destruct Hgs as [->|[cur ->]]|]. split.
  - intros m Hm. assert (m ∈ delete_where (λ m, bool_decide (mb_owner m = trim owner)
        && bool_decide (mb_group_id m = trim group_id)) (px_members s)) as [_ Hn]%elem_of_delete_where
      by (destruct (is_empty _) in Hl; by injection Hl as <-).
    intros [= E1 E2]. by rewrite !bool_decide_eq_true_2 in Hn.
  - intros x Hx Hr. assert (∀ c y, y ∈ px_registry (deactivate now (with_members
        (delete_where (λ m, bool_decide (mb_owner m = trim owner) && bool_decide (mb_group_id m = trim group_id))
           (px_members s)) (with_groups (put_group merge_left new (px_groups s)) s)) (trim owner) c) →
        registry_row (trim owner) (trim c) y = true → rg_is_active y = false) as Hone.
    { intros c y Hy Hry. cbn in Hy. rewrite trim_idem in Hy. by eapply archived_inactive. }
    destruct (is_empty (trim group_did)); injection Hl as <-; [by apply (Hone ("group:" +:+ trim group_id)%string)|].
    cbn [deactivate px_registry with_registry] in Hx. apply elem_of_update_where in Hx as (y & Hy & ->).
    destruct (registry_row _ _ y); [done|]. by apply (Hone ("group:" +:+ trim group_id)%string).
Qed.

(** A group that was left stays left: its row says so and names no role, its members and its
    active conversations are gone, and filing a record that does not name a membership status
    changes neither the status nor any conversation. *)
Theorem left_group_stays now now' s owner owner_did group_id group_did credential_name s1 r s2 :
  mark_group_left now s owner owner_did group_id group_did credential_name = Ok s1 →
  upsert_group now' s1 r = Ok s2 →
  trim (gp_owner_identity_id r) = trim owner → trim (gp_group_id r) = trim group_id →
  is_empty (trim (gp_membership_status r)) = true →
  (∃ g, group_at s1 (trim owner) (trim group_id) = Some g ∧ gr_membership_status g = "left"%string ∧
        gr_my_role g = EmptyString) ∧
  (∃ g, group_at s2 (trim owner) (trim group_id) = Some g ∧ gr_membership_status g = "left"%string) ∧
  (∀ m, m ∈ px_members s2 → (mb_owner m, mb_group_id m) ≠ (trim owner, trim group_id)) ∧
  (∀ x, x ∈ px_registry s2 → registry_row (trim owner) (trim ("group:" +:+ trim group_id)) x = true →
        rg_is_active x = false) ∧
  px_registry s2 = px_registry s1.
Proof.
  intros (g & Hg & Hgl & Hgr & Hm & Hx)%mark_left_inv Hu Eo Ei Est.
  apply upsert_group_inv in Hu. cbv zeta in Hu. rewrite Eo, Ei, Est in Hu. cbn [negb] in Hu.
  destruct Hu as (metadata & s1' & _ & -> & Hens). pose proof (ensure_active_groups _ _ _ _ Hens) as [Eg Em].
  match type of Eg with _ = px_groups (with_groups (put_group _ ?n _) _) => set (new := n) in * end.
  assert (group_row (gr_owner new) (gr_group_id new) = group_row (trim owner) (trim group_id)) as En.
  { unfold new. cbn [new_group gr_owner gr_group_id]. by rewrite Ei. }
  assert (group_at s2 (trim owner) (trim group_id) = Some (merge_group false new g)) as Hg2.
  { unfold group_at. rewrite Eg. cbn [px_groups with_groups]. rewrite <- En. apply put_group_at; [done|]. by rewrite En. }
  assert (px_registry s2 = px_registry s1) as Er.
  { unfold group_at in Hg2. rewrite Eg in Hg2. unfold ensure_active_group_conversation in Hens.
    rewrite Hg2 in Hens. cbv zeta in Hens. cbn [merge_group gr_membership_status] in Hens. rewrite Hgl in Hens.
    change (is_gone _) with true in Hens. cbn [orb] in Hens. by injection Hens as <-. }
  split; [by exists g|]. split; [eexists; split; [exact Hg2|exact Hgl]|].
  split; [rewrite Em; exact Hm|]. split; [rewrite Er; exact Hx|exact Er].
Qed.

(** A group filed without metadata can not be filed with metadata any more: when a group is
    left that was not stored before, the row that says so has none, and every later record that
    brings some, such as the one of joining again, fails in the same way. *)
Theorem left_group_unreadable now now' s owner owner_did group_id group_did credential_name s1 r m :
  mark_group_left now s owner owner_did group_id group_did credential_name = Ok s1 →
  group_at s (trim owner) (trim group_id) = None →
  trim (gp_owner_identity_id r) = trim owner → trim (gp_group_id r) = trim group_id →
  is_empty (trim (gp_owner_did r)) = false → gp_metadata r = Some (VObject m) →
  upsert_group now' s1 r = Err (local_state_unavailable "invalid column type").
Proof.
  intros Hl Hnone Eo Ei Hd Hm. unfold mark_group_left in Hl. cbv zeta in Hl.
  destruct (_ || is_empty (trim group_id)) eqn:Eg; [done|]. apply orb_false_iff in Eg as [_ Eg].
  apply bind_Ok in Hl as (o & Ho & Hl). unfold required_owner_identity_id, read_required in Ho. cbv zeta in Ho.
  destruct (is_empty (trim owner)) eqn:Eow; [done|]. injection Ho as <-.
  set (new := left_group now (trim owner) (trim owner_did) (trim group_id) (trim group_did) (trim credential_name)) in *.
  assert (head (select_where (group_row (trim owner) (trim group_id)) (px_groups s1)) = Some new) as Hrow.
  { assert (px_groups s1 = put_group merge_left new (px_groups s)) as -> by (destruct (is_empty _) in Hl; by injection Hl as <-).
    unfold group_at in Hnone. unfold put_group. cbv zeta. cbn [gr_owner gr_group_id new left_group].
    destruct (exists_where (group_row (trim owner) (trim group_id)) (px_groups s)) eqn:E.
    { destruct (head_select_Some _ _ E) as [x Hx]. congruence. }
    rewrite head_app_new, Hnone. unfold group_row, new. cbn [gr_owner gr_group_id left_group].
    by rewrite !bool_decide_eq_true_2. }
  unfold upsert_group, required_owner_identity_id, read_required. cbv zeta. rewrite Eo, Ei, Eow, Hd, Eg.
  cbn [mbind result_bind orb]. unfold preserve_group_security_metadata. by rewrite Hm, Hrow.
Qed.
End claims.

(** ** Concrete values *)

#[local] Existing Instance ex_idna.
#[local] Existing Instance ex_peer_codec.

Definition ex_group_record (status : string) (metadata : option Value) : GroupRecord :=
  mkGroupRecord "owner" "did:wba:home.org:me" "did:wba:example.org:group" "did:wba:example.org:group" "Friends" "" ""
    "" "" "" "" "" "" "" "member" status None "" "" None None None "" "" "" "2024-01-01T00:00:00Z" metadata "".
Definition ex_profile : list (string * Value) := [("required_security_profile", VString "group-e2ee")]%string.
Definition ex_filed : PeerDb := unwrap_or (upsert_group "1000" ex_empty (ex_group_record "active" (Some (VObject ex_profile)))) ex_empty.
Definition ex_update : GroupRecord :=
  ex_group_record "active" (Some (VObject [("topic", VString "news"); ("required_security_profile", VNull)]%string)).
Definition ex_updated : PeerDb := unwrap_or (upsert_group "1000" ex_filed ex_update) ex_filed.
Lemma ex_updated_ok : upsert_group "1000" ex_filed ex_update = Ok ex_updated.
Proof. by vm_compute. Qed.
Definition ex_row_filed : GroupRow :=
  default (left_group "" "" "" "" "" "") (group_at ex_filed "owner" "did:wba:example.org:group").
Lemma ex_filed_row : group_at ex_filed "owner" "did:wba:example.org:group" = Some ex_row_filed.
Proof. by vm_compute. Qed.
Lemma ex_filed_metadata : gr_metadata ex_row_filed = Some (VObject ex_profile).
Proof. by vm_compute. Qed.

Definition ex_left : PeerDb :=
  unwrap_or (mark_group_left "1001" ex_filed "owner" "did:wba:home.org:me" "did:wba:example.org:group"
               "did:wba:example.org:group" "") ex_filed.
Definition ex_news : GroupRecord := ex_group_record "" None.
Definition ex_still_left : PeerDb := unwrap_or (upsert_group "1002" ex_left ex_news) ex_left.
Lemma ex_left_ok :
  mark_group_left "1001" ex_filed "owner" "did:wba:home.org:me" "did:wba:example.org:group"
    "did:wba:example.org:group" "" = Ok ex_left.
Proof. by vm_compute. Qed.
Lemma ex_still_left_ok : upsert_group "1002" ex_left ex_news = Ok ex_still_left.
Proof. by vm_compute. Qed.
Lemma left_group_stays_witness :
  (∃ g, group_at ex_still_left "owner" "did:wba:example.org:group" = Some g ∧ gr_membership_status g = "left"%string) ∧
  px_registry ex_still_left = px_registry ex_left.
Proof.
  destruct (left_group_stays "1001" "1002" ex_filed "owner" "did:wba:home.org:me" "did:wba:example.org:group"
              "did:wba:example.org:group" "" ex_left ex_news ex_still_left ex_left_ok ex_still_left_ok
              eq_refl eq_refl eq_refl) as (_ & Hg & _ & _ & Hr).
  split; [exact Hg|exact Hr].
Defined.

Definition ex_left_unknown : PeerDb :=
  unwrap_or (mark_group_left "1001" ex_empty "owner" "did:wba:home.org:me" "did:wba:example.org:group"
               "did:wba:example.org:group" "") ex_empty.
Lemma ex_left_unknown_ok :
  mark_group_left "1001" ex_empty "owner" "did:wba:home.org:me" "did:wba:example.org:group"
    "did:wba:example.org:group" "" = Ok ex_left_unknown.
Proof. by vm_compute. Qed.
Lemma left_group_unreadable_witness :
  upsert_group "1002" ex_left_unknown ex_update = Err (local_state_unavailable "invalid column type").
Proof.
  exact (left_group_unreadable "1001" "1002" ex_empty "owner" "did:wba:home.org:me" "did:wba:example.org:group"
           "did:wba:example.org:group" "" ex_left_unknown ex_update _ ex_left_unknown_ok eq_refl eq_refl eq_refl
           eq_refl eq_refl).
Defined.
