(* ===== verification/DeltaState.v ===== *)
(** * The checkpoint of the first sync protocol

    [internal/local_state/sync_state.rs]: a page of [sync.delta] of the first protocol is
    applied in one transaction: its events after the checkpoint, in their order, with the
    messages filed or held back, the groups filed and the checkpoint moved.

    The cache of attachment manifests that a stored message may fill is left out.

    The claims: a page moves the checkpoint only together with everything it brings; a message
    that can never be stored stops the checkpoint for good. *)

From S2P Require Import Prelude RustStr ImError Decimal Store SyncStore Outbox Wire Lanes ReadState ReadBind ReadIds ReadProps ReadWire Persona Peers PeerProps PeerProject PeerCheck PeerClaims Summaries SummaryOrder SummaryProps SummaryRebuild SummaryDelta SummaryMark SummaryClaims Mentions Messages MessageProps MessageTable MessageClaims Groups Resolution ResolutionProps ResolutionClaims.
Local Open Scope Z_scope.

Record SyncDeltaApplyEvent := mkApplyEvent {
  dv_event_id : string;
  dv_event_seq : string;
  dv_event_type : string;
  dv_messages : list MessageRecord;
  dv_groups : list GroupRecord }.
Record SyncDeltaApplyInput := mkApplyInput {
  dn_owner_identity_id : string;
  dn_owner_did : string;
  dn_sync_subject_id : string;
  dn_events : list SyncDeltaApplyEvent;
  dn_next_event_seq : string;
  dn_metadata_json : option string }.
Record SyncDeltaInvalidation := mkInvalidation {
  iv_owner_identity_id : string;
  iv_owner_did : string;
  iv_reason : string;
  iv_checkpoint_event_seq : string;
  iv_conversation_ids : list string;
  iv_thread_ids : list string;
  iv_group_ids : list string;
  iv_group_dids : list string }.
Record SyncDeltaApplyOutcome := mkApplyOutcome {
  ao_applied_events : Z;
  ao_backlogged_messages : Z;
  ao_last_applied_event_seq : string;
  ao_invalidation : SyncDeltaInvalidation }.

(** A row of [sync_state] of the global scope. *)
Record GlobalCheckpoint := mkCheckpoint {
  gc_owner : string;
  gc_sync_subject_id : string;
  gc_event_seq : string;
  gc_updated_at : string;
  gc_metadata_json : option string }.
Record DeltaDb := mkDeltaDb {
  dd_store : MessageDb;
  dd_checkpoints : list GlobalCheckpoint }.
(** The texts of the time the statements write. *)
Record DeltaClock := mkDeltaClock {
  dk_backlog : string;
  dk_message : string;
  dk_group : string;
  dk_checkpoint : string }.

(** ** The checkpoint *)

Definition checkpoint_row (owner subject : string) (c : GlobalCheckpoint) : bool :=
  bool_decide (gc_owner c = owner) && bool_decide (gc_sync_subject_id c = subject).
Definition load_global_checkpoint (db : DeltaDb) (owner subject : string)
    : ImResult (option GlobalCheckpoint) :=
  owner ← read_required "owner_identity_id" owner;
  subject ← read_required "sync_subject_id" subject;
  match head (select_where (checkpoint_row owner subject) (dd_checkpoints db)) with
  | None => Ok None
  | Some c => _ ← parse_decimal_seq (gc_event_seq c); Ok (Some c)
  end.
Definition store_global_checkpoint (now : string) (t : list GlobalCheckpoint) (owner subject event_seq : string)
    (metadata_json : option string) : ImResult (list GlobalCheckpoint) :=
  owner ← read_required "owner_identity_id" owner;
  subject ← read_required "sync_subject_id" subject;
  event_seq ← normalize_decimal_seq event_seq;
  let new := mkCheckpoint owner subject event_seq now metadata_json in
  let key := checkpoint_row owner subject in
  Ok (if exists_where key t then update_where key (λ _, new) t else t ++ [new]).

(** ** The events of a page *)

Definition delta_page_error {A} (message : string) : ImResult A := Err (sync_error "sync.invalid_page" message).
Definition or_delta_page {A} (r : ImResult A) (message : string) : ImResult A :=
  match r with Ok a => Ok a | Err _ => delta_page_error message end.
(** An event with its sequence number. *)
Definition NumberedEvent : Type := Z * string * SyncDeltaApplyEvent.
Definition collect_event (current : Z) (acc : list NumberedEvent) (event : SyncDeltaApplyEvent)
    : ImResult (list NumberedEvent) :=
  event_seq ← or_delta_page (normalize_decimal_seq (dv_event_seq event)) "event_seq must be a decimal string";
  seq ← parse_decimal_seq event_seq;
  Ok (if seq <=? current then acc else acc ++ [(seq, event_seq, event)]).
Definition event_order (a b : NumberedEvent) : comparison :=
  then_cmp (a.1.1 ?= b.1.1) (str_cmp (dv_event_id a.2) (dv_event_id b.2)).
Definition check_event (next : Z) (previous : option Z) (event : NumberedEvent) : ImResult (option Z) :=
  if bool_decide (previous = Some event.1.1) then
    delta_page_error "sync.delta page contains duplicate event_seq"
  else if next <? event.1.1 then
    delta_page_error "sync.delta event_seq is ahead of next_event_seq"
  else Ok (Some event.1.1).
Definition new_events (current next : Z) (events : list SyncDeltaApplyEvent) : ImResult (list NumberedEvent) :=
  collected ← try_fold (collect_event current) [] events;
  let sorted := merge_sort (le_of event_order) collected in
  _ ← try_fold (check_event next) None sorted;
  Ok sorted.

(** ** What changed *)

(** The elements of a [BTreeSet] *)
Definition btree_set (l : list string) : list string := merge_sort (le_of str_cmp) (remove_dups l).
Definition nonblank (values : list string) : list string := filter (λ v, is_empty v = false) (trim <$> values).
Definition sync_delta_invalidation (owner owner_did checkpoint_event_seq : string)
    (messages : list MessageRecord) (groups : list GroupRecord) : SyncDeltaInvalidation :=
  let of_groups := group_conversation_id <$> nonblank ((gp_group_id <$> groups) ++ (gp_group_did <$> groups)) in
  let thread r := if is_empty (trim (rc_thread_id r)) then rc_conversation_id r else rc_thread_id r in
  mkInvalidation owner owner_did "sync_delta" checkpoint_event_seq
    (btree_set (nonblank (rc_conversation_id <$> messages) ++ of_groups))
    (btree_set (nonblank (thread <$> messages) ++ of_groups))
    (btree_set (nonblank (gp_group_id <$> groups))) (btree_set (nonblank (gp_group_did <$> groups))).
(** With the conversations the stored messages touched. *)
Definition add_touched (touched : list string) (i : SyncDeltaInvalidation) : SyncDeltaInvalidation :=
  let more := filter (λ c, is_empty (trim c) = false) touched in
  mkInvalidation (iv_owner_identity_id i) (iv_owner_did i) (iv_reason i) (iv_checkpoint_event_seq i)
    (btree_set (iv_conversation_ids i ++ more)) (btree_set (iv_thread_ids i ++ more)) (iv_group_ids i)
    (iv_group_dids i).

Section apply.
Context `{WireCodec, JsonText, Idna, ThreadIndex}.
Variable clock : DeltaClock.

(** ** Applying *)

(** A message of an event: to be stored, or held back under the event. *)
Definition Sorted_out : Type := list MessageRecord * Z * PeerDb.
Definition sort_message (event : NumberedEvent) (acc : Sorted_out) (r : MessageRecord) : ImResult Sorted_out :=
  let '(messages, backlogged, s) := acc in
  match canonicalize_inbound_message s r with
  | Ok r => Ok (messages ++ [r], backlogged, s)
  | Err e =>
      if is_resolution_error e then
        s ← store (dk_backlog clock) s
              (mkSource (dv_event_id event.2) event.1.2 (dv_event_type event.2)) r e;
        Ok (messages, backlogged + 1, s)
      else Err e
  end.
Definition sort_event (acc : Sorted_out) (event : NumberedEvent) : ImResult Sorted_out :=
  try_fold (sort_message event) acc (dv_messages event.2).
Definition store_message (acc : list string * MessageDb) (r : MessageRecord) : ImResult (list string * MessageDb) :=
  done ← upsert_message_record (dk_message clock) acc.2 r;
  Ok (acc.1 ++ (snd <$> elements done.1), done.2).
Definition upsert_messages_with_touched (d : MessageDb) (messages : list MessageRecord)
    : ImResult (list string * MessageDb) :=
  try_fold store_message ([], d) messages.
Definition finish_sync_delta_apply (db : DeltaDb) (owner subject : string) (current next : Z)
    (next_event_seq : string) (metadata_json : option string) (groups : list GroupRecord)
    (invalidation : SyncDeltaInvalidation) (backlogged applied : Z)
    : ImResult (SyncDeltaApplyOutcome * DeltaDb) :=
  s ← try_fold (upsert_group (dk_group clock)) (ms_peers (dd_store db)) groups;
  checkpoints ←
    (if current <? next then
       store_global_checkpoint (dk_checkpoint clock) (dd_checkpoints db) owner subject next_event_seq metadata_json
     else Ok (dd_checkpoints db));
  Ok (mkApplyOutcome applied backlogged next_event_seq invalidation,
      mkDeltaDb (on_peers s (dd_store db)) checkpoints).
Definition apply_sync_delta_tx (db : DeltaDb) (input : SyncDeltaApplyInput)
    : ImResult (SyncDeltaApplyOutcome * DeltaDb) :=
  owner ← read_required "owner_identity_id" (dn_owner_identity_id input);
  owner_did ← read_required "owner_did" (dn_owner_did input);
  subject ← read_required "sync_subject_id" (dn_sync_subject_id input);
  checkpoint ← load_global_checkpoint db owner subject;
  current ← parse_decimal_seq (default "0"%string (gc_event_seq <$> checkpoint));
  next_event_seq ← or_delta_page (normalize_decimal_seq (dn_next_event_seq input))
                     "next_event_seq must be a decimal string";
  next ← parse_decimal_seq next_event_seq;
  if next <? current then delta_page_error "next_event_seq is behind local checkpoint"
  else
    events ← new_events current next (dn_events input);
    sorted ← try_fold sort_event ([], 0, ms_peers (dd_store db)) events;
    let '(messages, backlogged, s) := sorted in
    let groups := events ≫= λ event, dv_groups event.2 in
    let invalidation := sync_delta_invalidation owner owner_did next_event_seq messages groups in
    stored ← upsert_messages_with_touched (on_peers s (dd_store db)) messages;
    finish_sync_delta_apply (mkDeltaDb stored.2 (dd_checkpoints db)) owner subject current next next_event_seq
      (dn_metadata_json input) groups
      (match messages with [] => invalidation | _ => add_touched stored.1 invalidation end)
      backlogged (Z.of_nat (length events)).
(** The command of the database actor: one transaction. *)
Definition apply_sync_delta (db : DeltaDb) (input : SyncDeltaApplyInput) : ImResult SyncDeltaApplyOutcome * DeltaDb :=
  match apply_sync_delta_tx db input with
  | Ok (o, db') => (Ok o, db')
  | Err e => (Err e, db)
  end.
End apply.

(** ** The events of a page *)

Definition is_new (current : Z) (e : SyncDeltaApplyEvent) : bool :=
  match parse_decimal_seq (dv_event_seq e) with Ok q => current <? q | Err _ => false end.
Lemma normalized_seq v m t :
  or_delta_page (normalize_decimal_seq v) m = Ok t →
  ∃ n, parse_decimal_seq v = Ok n ∧ t = u64_to_string n ∧ parse_decimal_seq t = Ok n.
Proof.
  unfold or_delta_page, normalize_decimal_seq. destruct (parse_decimal_seq v) as [n|] eqn:E; [|done].
  intros [= <-]. exists n. split; [done|]. split; [done|]. apply parse_u64_to_string.
  by apply parse_decimal_seq_nonneg in E.
Qed.
Lemma collect_all current events acc l :
  try_fold (collect_event current) acc events = Ok l →
  (length l = length acc + count_where (is_new current) events)%nat ∧
  (∀ x, x ∈ acc → x ∈ l) ∧
  ∀ e q, e ∈ events → parse_decimal_seq (dv_event_seq e) = Ok q → current < q → ∃ t, (q, t, e) ∈ l.
Proof.
  revert acc. induction events as [|e events IH]; intros acc He; cbn [try_fold] in He.
  { injection He as <-. split; [cbn; lia|]. split; [done|]. by intros e q ?%elem_of_nil. }
  apply bind_Ok in He as (acc' & Hc & He). unfold collect_event in Hc.
  apply bind_Ok in Hc as (t & (n & Hn & -> & Ht)%normalized_seq & Hc). rewrite Ht in Hc. cbn [mbind result_bind] in Hc.
  injection Hc as <-. destruct (IH _ He) as (L & K & A). unfold count_where in *. rewrite select_cons.
  unfold is_new at 1. rewrite Hn.
  destruct (Z.leb_spec n current) as [Hle|Hlt].
  - rewrite (proj2 (Z.ltb_ge _ _)) by lia. split; [done|]. split; [done|].
    intros e' q [->|He']%elem_of_cons Hq Hlt; [|by apply (A e')]. rewrite Hn in Hq. injection Hq as <-. lia.
  - rewrite (proj2 (Z.ltb_lt _ _)) by lia. rewrite length_app in L. split; [cbn [length] in *; lia|].
    split; [intros x Hx; apply K, elem_of_app; by left|].
    intros e' q [->|He']%elem_of_cons Hq Hlt'; [|by apply (A e')]. rewrite Hn in Hq. injection Hq as <-.
    exists (u64_to_string n). apply K, elem_of_app. right. by left.
Qed.
Lemma check_bound next l p p' :
  try_fold (check_event next) p l = Ok p' → ∀ e, e ∈ l → e.1.1 ≤ next.
Proof.
  revert p. induction l as [|e l IH]; intros p He; [by intros e ?%elem_of_nil|]. cbn [try_fold] in He.
  apply bind_Ok in He as (p1 & Hc & He). unfold check_event in Hc. case_bool_decide; [done|].
  destruct (Z.ltb_spec next e.1.1); [done|]. intros x [->|Hx]%elem_of_cons; [done|]. by eapply IH.
Qed.
Lemma new_events_spec current next events l :
  new_events current next events = Ok l →
  (length l = count_where (is_new current) events)%nat ∧
  ∀ e q, e ∈ events → parse_decimal_seq (dv_event_seq e) = Ok q → current < q → q ≤ next ∧ ∃ t, (q, t, e) ∈ l.
Proof.
  unfold new_events. intros (c & (L & _ & A)%collect_all & He)%bind_Ok. apply bind_Ok in He as (p & Hb & He).
  injection He as <-. pose proof (merge_sort_Permutation (le_of event_order) c) as Hp. rewrite Hp. split; [done|].
  intros e q He Hq Hlt. destruct (A e q He Hq Hlt) as [t Ht]. split; [|exists t; by rewrite Hp].
  apply (check_bound _ _ _ _ Hb (q, t, e)). by rewrite Hp.
Qed.

Section claims.
Context `{WireCodec, JsonText, Idna, ThreadIndex}.
Variable clock : DeltaClock.

(** ** Sorting the messages out *)

Definition held_under (e : SyncDeltaApplyEvent) (r : MessageRecord) (s : PeerDb) : Prop :=
  ∃ b, b ∈ px_backlog s ∧
       backlog_key b = (trim (rc_owner_identity_id r), trim (dv_event_id e), trim (rc_msg_id r)).
Definition held_grows (s s' : PeerDb) : Prop :=
  ∀ b, b ∈ px_backlog s → ∃ b', b' ∈ px_backlog s' ∧ backlog_key b' = backlog_key b ∧ bl_record b' = bl_record b.
#[local] Instance held_grows_preorder : PreOrder held_grows.
Proof.
  split; [by intros s b Hb; exists b|]. intros s1 s2 s3 H12 H23 b Hb. destruct (H12 b Hb) as (b2 & Hb2 & E2 & R2).
  destruct (H23 b2 Hb2) as (b3 & Hb3 & E3 & R3). exists b3. split; [done|]. split; congruence.
Qed.
Lemma held_under_grows e r s s' : held_under e r s → held_grows s s' → held_under e r s'.
Proof. intros (b & Hb & Kb) Hg. destruct (Hg b Hb) as (b' & Hb' & E & _). exists b'. split; [done|]. by rewrite E. Qed.
(** What became of a message of an event. *)
Definition sorted_out (e : SyncDeltaApplyEvent) (r : MessageRecord) (acc : Sorted_out) : Prop :=
  (∃ s r', canonicalize_inbound_message s r = Ok r' ∧ r' ∈ acc.1.1) ∨ held_under e r acc.2.
Definition sorts (acc acc' : Sorted_out) : Prop := acc.1.1 ⊆ acc'.1.1 ∧ held_grows acc.2 acc'.2.
#[local] Instance sorts_preorder : PreOrder sorts.
Proof. split; [done|]. intros a b c [A1 A2] [B1 B2]. split; [set_solver|by etrans]. Qed.
Lemma sorted_out_later e r acc acc' : sorted_out e r acc → sorts acc acc' → sorted_out e r acc'.
Proof.
  intros [(s & r' & Hc & Hin)|Hh] [Hm Hg]; [left; exists s, r'; set_solver|right; by eapply held_under_grows].
Qed.
Lemma sort_message_spec event acc r acc' :
  sort_message clock event acc r = Ok acc' → sorts acc acc' ∧ sorted_out event.2 r acc'.
Proof.
  destruct acc as [[messages n] s]. unfold sort_message.
  destruct (canonicalize_inbound_message s r) as [r'|e] eqn:Hc.
  - intros [= <-]. split; [split; cbn; [set_solver|done]|]. left. exists s, r'. split; [done|]. cbn. set_solver.
  - destruct (is_resolution_error e); [|done]. intros (s' & Hs & He)%bind_Ok. injection He as <-.
    unfold store, store_with_thread_binding in Hs. cbn [mbind result_bind] in Hs. injection Hs as <-.
    split; [split; cbn; [done|intros b; apply put_backlog_keeps]|right].
    unfold held_under. cbn.
    match goal with |- context [put_backlog ?new ?t] => destruct (put_backlog_has new t) as (b & Hb & Kb) end.
    exists b. split; [done|]. by rewrite Kb.
Qed.
Lemma sort_event_spec acc event acc' :
  sort_event clock acc event = Ok acc' →
  sorts acc acc' ∧ ∀ r, r ∈ dv_messages event.2 → sorted_out event.2 r acc'.
Proof.
  unfold sort_event. generalize (dv_messages event.2). intros l. revert acc.
  induction l as [|r l IH]; intros acc He; cbn [try_fold] in He.
  { injection He as <-. split; [done|by intros r ?%elem_of_nil]. }
  apply bind_Ok in He as (acc1 & [S1 O1]%sort_message_spec & He). destruct (IH _ He) as [S2 O2].
  split; [by etrans|]. intros x [->|Hx]%elem_of_cons; [by eapply sorted_out_later|by apply O2].
Qed.
Lemma sort_events_spec events acc acc' :
  try_fold (sort_event clock) acc events = Ok acc' →
  sorts acc acc' ∧ ∀ event r, event ∈ events → r ∈ dv_messages event.2 → sorted_out event.2 r acc'.
Proof.
  revert acc. induction events as [|event events IH]; intros acc He; cbn [try_fold] in He.
  { injection He as <-. split; [done|by intros e r ?%elem_of_nil]. }
  apply bind_Ok in He as (acc1 & [S1 O1]%sort_event_spec & He). destruct (IH _ He) as [S2 O2].
  split; [by etrans|]. intros x r [->|Hx]%elem_of_cons Hr; [eapply sorted_out_later; [by apply O1|done]|by eapply O2].
Qed.

(** ** Storing *)

(** The message is stored in one step of a run of upserts. *)
Definition stored_by (r : MessageRecord) (acc' : list string * MessageDb) : Prop :=
  ∃ (acc1 acc2 : list string * MessageDb) rest touched plan,
    upsert_message_record (dk_message clock) acc1.2 r = Ok (touched, acc2.2) ∧
    plan_upsert (dk_message clock) acc1.2 r = Ok plan ∧
    (up_owner plan, up_msg_id plan) ∈ message_key <$> stored_messages acc2.2 ∧
    try_fold (store_message clock) acc2 rest = Ok acc'.
Lemma store_messages_spec l acc acc' :
  try_fold (store_message clock) acc l = Ok acc' →
  backlog_of acc'.2 = backlog_of acc.2 ∧ ∀ r, r ∈ l → stored_by r acc'.
Proof.
  revert acc. induction l as [|r l IH]; intros acc He; cbn [try_fold] in He.
  { injection He as <-. split; [done|by intros r ?%elem_of_nil]. }
  apply bind_Ok in He as (acc1 & Hs & He). destruct (IH _ He) as [B S].
  unfold store_message in Hs. apply bind_Ok in Hs as ([touched d] & Hu & Hs). injection Hs as <-.
  destruct (upsert_stores _ _ _ _ _ Hu) as (Bu & plan & Hplan & Hk). split; [by rewrite B|].
  intros x [->|Hx]%elem_of_cons; [|by apply S].
  eexists acc, _, l, touched, plan. split; [|split; [exact Hplan|split; [|exact He]]]; done.
Qed.
Lemma ensure_frame s r s' : ensure_conversation s r = Ok s' → px_read s' = px_read s ∧ px_backlog s' = px_backlog s.
Proof.
  unfold ensure_conversation. intros (u & _ & He)%bind_Ok. destruct (canonical_identity_for_record s r) as [[p g] rs].
  unfold put_registry in He. cbv zeta in He. destruct (exists_where _ _) in He; [done|]. by injection He as <-.
Qed.
Lemma upsert_group_frame now s r s' :
  upsert_group now s r = Ok s' → px_read s' = px_read s ∧ px_backlog s' = px_backlog s.
Proof.
  intros (metadata & s1 & _ & -> & He)%upsert_group_inv. unfold ensure_active_group_conversation in He.
  destruct (head _) as [g|]; [|by injection He as <-]. cbv zeta in He. destruct (_ || _) in He; [by injection He as <-|].
  by apply ensure_frame in He.
Qed.
Lemma upsert_groups_frame now l s s' :
  try_fold (upsert_group now) s l = Ok s' → px_read s' = px_read s ∧ px_backlog s' = px_backlog s.
Proof.
  apply (try_fold_inv (λ s', px_read s' = px_read s ∧ px_backlog s' = px_backlog s)); [done|].
  intros s1 r s2 _ [E1 E2] [F1 F2]%upsert_group_frame. split; congruence.
Qed.

(** ** The checkpoint *)

Definition checkpoint_text (db : DeltaDb) (owner subject : string) : string :=
  default "0"%string (gc_event_seq <$> head (select_where (checkpoint_row owner subject) (dd_checkpoints db))).
Lemma read_required_Ok f v x : read_required f v = Ok x → x = trim v.
Proof. unfold read_required. cbv zeta. destruct (is_empty _); [done|]. by intros [= <-]. Qed.
Lemma loaded_checkpoint db owner subject ck :
  trim owner = owner → trim subject = subject → load_global_checkpoint db owner subject = Ok ck →
  head (select_where (checkpoint_row owner subject) (dd_checkpoints db)) = ck.
Proof.
  intros Eo Es. unfold load_global_checkpoint. intros (o & ->%read_required_Ok & He)%bind_Ok.
  apply bind_Ok in He as (u & ->%read_required_Ok & He). rewrite Eo, Es in He.
  destruct (head _) as [c|]; [|by injection He as <-]. apply bind_Ok in He as (n & _ & He). by injection He as <-.
Qed.
Lemma stored_checkpoint now t owner subject seq metadata t' n :
  trim owner = owner → trim subject = subject → parse_decimal_seq seq = Ok n →
  store_global_checkpoint now t owner subject seq metadata = Ok t' →
  ∃ c, head (select_where (checkpoint_row owner subject) t') = Some c ∧ parse_decimal_seq (gc_event_seq c) = Ok n.
Proof.
  intros Eo Es Hn. unfold store_global_checkpoint, read_required, normalize_decimal_seq. cbv zeta. rewrite Eo, Es.
  intros (o & Ho & He)%bind_Ok. destruct (is_empty owner); [done|]. injection Ho as <-.
  apply bind_Ok in He as (u & Hu & He). destruct (is_empty subject); [done|]. injection Hu as <-.
  rewrite Hn in He. injection He as <-.
  assert (parse_decimal_seq (u64_to_string n) = Ok n) as Hp by (by apply parse_u64_to_string, (parse_decimal_seq_nonneg seq)).
  exists (mkCheckpoint owner subject (u64_to_string n) now metadata). split; [|exact Hp].
  destruct (exists_where _ t) eqn:E.
  - rewrite head_update_same; [|intros x _; unfold checkpoint_row; by rewrite !bool_decide_eq_true_2].
    by destruct (head_select_Some _ _ E) as [x ->].
  - rewrite head_app_new, (head_select_None _ _ E). unfold checkpoint_row. by rewrite !bool_decide_eq_true_2.
Qed.


Lemma read_required_is f v : is_empty (trim v) = false → read_required f v = Ok (trim v).
Proof. intros Hv. unfold read_required. cbv zeta. by rewrite Hv. Qed.
Lemma loads_checkpoint db owner subject n :
  trim owner = owner → trim subject = subject → is_empty owner = false → is_empty subject = false →
  parse_decimal_seq (checkpoint_text db owner subject) = Ok n →
  load_global_checkpoint db owner subject
  = Ok (head (select_where (checkpoint_row owner subject) (dd_checkpoints db))).
Proof.
  intros Eo Es Ho Hs. unfold load_global_checkpoint, checkpoint_text.
  rewrite !read_required_is by congruence. rewrite Eo, Es. cbn [mbind result_bind].
  destruct (head _) as [c|]; [|done]. intros Hn.
  change (parse_decimal_seq (gc_event_seq c) = Ok n) in Hn. by rewrite Hn.
Qed.
Lemma one_new_event current next e q :
  parse_decimal_seq (dv_event_seq e) = Ok q → current < q ≤ next →
  new_events current next [e] = Ok [(q, u64_to_string q, e)].
Proof.
  intros Hq Hlt. unfold new_events. cbn [try_fold]. unfold collect_event, normalize_decimal_seq.
  rewrite Hq. cbn [mbind result_bind fmap result_fmap or_delta_page].
  rewrite (parse_u64_to_string q) by (by eapply parse_decimal_seq_nonneg). cbn [mbind result_bind].
  rewrite (proj2 (Z.leb_gt q current)) by lia. cbn [app].
  change (merge_sort (le_of event_order) [(q, u64_to_string q, e)]) with [(q, u64_to_string q, e)].
  cbn [try_fold]. unfold check_event. cbn [fst snd]. rewrite bool_decide_eq_false_2 by done.
  by rewrite (proj2 (Z.ltb_ge next q)) by lia.
Qed.
Lemma on_peers_same d : on_peers (ms_peers d) d = d.
Proof. by destruct d. Qed.

(** C31: A message that can never be stored stops the first protocol for good: when the message of
    the next event names another sender, thread or sequence number than the stored message of
    its id, the page is refused and the checkpoint stays, so the next request brings the same
    event; [ingest_remote_messages] holds the same message back instead. *)
Theorem delta_conflict_stuck db input owner_did e r r' g m current q next now kind :
  let owner := trim (dn_owner_identity_id input) in
  let subject := trim (dn_sync_subject_id input) in
  is_empty owner = false → is_empty subject = false →
  read_required "owner_did" (dn_owner_did input) = Ok owner_did →
  parse_decimal_seq (checkpoint_text db owner subject) = Ok current →
  parse_decimal_seq (dn_next_event_seq input) = Ok next →
  dn_events input = [e] → parse_decimal_seq (dv_event_seq e) = Ok q → current < q ≤ next → dv_messages e = [r] →
  canonicalize_inbound_message (ms_peers (dd_store db)) r = Ok r' →
  upsert_target (dd_store db) r' = Ok g → target_row g (stored_messages (dd_store db)) = Some m →
  seq_conflict (mg_server_seq m) (rc_server_seq r')
    || (wire_conflict g r' m && negb (confirmable (dd_store db) g r')) = true →
  apply_sync_delta clock db input = (Err (MessageWireIdentityConflict (tg_msg_id g)), db) ∧
  ∃ d', ingest_remote_messages now (dd_store db) [r] kind = (Ok (mkIngest 0 1 0 0 1), d') ∧
        held_back (trim kind) r' d'.
Proof.
  cbv zeta. intros Ho Hs Hdid Hcur Hnext Hevs Hq Hlt Hms Hcan Hg Hm Hclash.
  pose proof (λ now, upsert_conflict now (dd_store db) r' g m Hg Hm Hclash) as Hu. split.
  - assert (apply_sync_delta_tx clock db input = Err (MessageWireIdentityConflict (tg_msg_id g))) as Htx;
      [|unfold apply_sync_delta; by rewrite Htx].
    unfold apply_sync_delta_tx. rewrite (read_required_is _ _ Ho), (read_required_is _ _ Hs), Hdid.
    cbn [mbind result_bind]. rewrite (loads_checkpoint db _ _ current) by (rewrite ?trim_idem; done).
    cbn [mbind result_bind]. unfold checkpoint_text in Hcur. rewrite Hcur. cbn [mbind result_bind].
    unfold normalize_decimal_seq. rewrite Hnext. cbn [mbind result_bind fmap result_fmap or_delta_page].
    rewrite (parse_u64_to_string next) by (by eapply parse_decimal_seq_nonneg). cbn [mbind result_bind].
    rewrite (proj2 (Z.ltb_ge next current)) by lia. rewrite Hevs, (one_new_event _ _ _ _ Hq Hlt).
    cbn [mbind result_bind try_fold]. unfold sort_event at 1. cbn [snd]. rewrite Hms. cbn [try_fold sort_message].
    rewrite Hcan. cbn [mbind result_bind]. rewrite on_peers_same. unfold upsert_messages_with_touched.
    cbn [app try_fold]. unfold store_message. cbn [snd]. by rewrite Hu.
  - assert (ingest_one now (trim kind) (dd_store db) r (mkIngest 0 0 0 0 0) =
            match store now (ms_peers (dd_store db)) (source_of (trim kind) r') r' (MessageWireIdentityConflict (tg_msg_id g)) with
            | Ok s => (Ok (add_conflict (mkIngest 0 0 0 0 0)), on_peers s (dd_store db))
            | Err e => (Err e, dd_store db)
            end) as Hone.
    { unfold ingest_one. rewrite Hcan. unfold upsert_message. by rewrite Hu. }
    unfold ingest_remote_messages. cbn [ingest_loop]. rewrite Hone. eexists. split; [done|].
    by eapply (hold_inv now (dd_store db) (trim kind) r' _ add_conflict (mkIngest 0 0 0 0 0)).
Qed.
End claims.

(** ** Concrete values *)

#[local] Existing Instance ex_idna.
#[local] Existing Instance ex_peer_codec.
#[local] Existing Instance ex_json.
#[local] Existing Instance ex_no_index.

Definition ex_delta_clock : DeltaClock := mkDeltaClock "1000" "1000" "1000" "1000".
Definition ex_event : SyncDeltaApplyEvent :=
  mkApplyEvent "event-4" "4" "message.created" [ex_early] [ex_group_record "active" None].
Definition ex_stale : SyncDeltaApplyEvent := mkApplyEvent "event-2" "2" "message.created" [ex_early] [].
Definition ex_page_input (events : list SyncDeltaApplyEvent) : SyncDeltaApplyInput :=
  mkApplyInput "owner" "did:wba:home.org:me" "subject" events "5" None.
Definition ex_delta_db (s : PeerDb) : DeltaDb :=
  mkDeltaDb (mkMessageDb s [] []) [mkCheckpoint "owner" "subject" "3" "999" None].
Definition ex_applied : ImResult SyncDeltaApplyOutcome * DeltaDb :=
  apply_sync_delta ex_delta_clock (ex_delta_db ex_empty) (ex_page_input [ex_stale; ex_event]).
Definition ex_outcome : SyncDeltaApplyOutcome :=
  mkApplyOutcome 1 1 "5"
    (mkInvalidation "owner" "did:wba:home.org:me" "sync_delta" "5" ["group:did:wba:example.org:group"]
       ["group:did:wba:example.org:group"] ["did:wba:example.org:group"] ["did:wba:example.org:group"])%string.
Lemma ex_applied_ok :
  apply_sync_delta ex_delta_clock (ex_delta_db ex_empty) (ex_page_input [ex_stale; ex_event])
  = (Ok ex_outcome, ex_applied.2).
Proof. by vm_compute. Qed.
(** The peer of the message is known and the id of the message is taken. *)
Lemma delta_conflict_stuck_witness :
  apply_sync_delta ex_delta_clock (ex_delta_db ex_taken_projected.2) (ex_page_input [ex_event])
  = (Err (MessageWireIdentityConflict (tg_msg_id ex_early_target)), ex_delta_db ex_taken_projected.2).
Proof.
  apply (delta_conflict_stuck ex_delta_clock (ex_delta_db ex_taken_projected.2) (ex_page_input [ex_event])
           "did:wba:home.org:me" ex_event ex_early ex_early_placed ex_early_target ex_other 3 4 5 "1000" "realtime_message"
           eq_refl eq_refl eq_refl eq_refl eq_refl eq_refl eq_refl ltac:(lia) eq_refl
           ex_early_canonical ex_early_targeted ex_early_row ex_early_clash).
Defined.
